(* ===== verification/_CoqProject ===== *)
-Q . S2P
Prelude.v
Bytes.v
Frame.v
QueueStats.v
StreamQueue.v
Mailboxes.v
Backoff.v
Net.v
Destination.v
Attachment.v
Session.v
Routing.v
Budget.v
Credit.v
Registry.v
Governor.v
Carrier.v
CarrierSafety.v
CarrierMemory.v
CarrierReader.v
CarrierWrites.v
CarrierStreams.v
CarrierCallers.v
Auth.v
Relay.v
Tunnel.v
CarrierOps.v
Node.v
TargetDial.v
BootstrapUp.v
NodeSafety.v
NodeSessions.v
Float64.v
Health.v
Policy.v
HealthSafety.v
PolicyRun.v
PolicyHealth.v
PolicyScore.v
PolicyLifecycle.v
PolicyChoice.v
PolicyPick.v
PolicyProbe.v
PolicyNode.v
Text.v
Socks.v
Allowlist.v
SocksSafety.v
BootstrapSafety.v
Lines.v
Config.v
EnvFile.v
Firewall.v
Units.v
Pairing.v
Origin.v
Xray.v
Path.v
Host.v
Activate.v
AgentRules.v
AgentStore.v
AgentApply.v
AgentSafety.v
AgentOutcome.v
AgentEnds.v
AgentRecovery.v
Manifest.v
Store.v
StoreSafety.v
Pair.v
Transaction.v
TxSafety.v
Deploy.v
