(* ===== verification/Prelude.v ===== *)
(** * A verification library for the Iran-Germany split tunnel

    The program (Go, under src/) splits every proxied TCP connection over two
    carriers between two nodes: the Iran node accepts SOCKS clients and sends
    their upload over one carrier, the Germany node dials the targets and sends
    the download back over another.  A carrier is one long-lived connection
    that multiplexes many logical streams as frames.  Carriers die and come
    back; a session survives the loss of a carrier for a grace window and is
    moved ("rebound") to a new one under the same stream id.

    ** The parts and the files that model them

    pkg/mux, the carrier layer:
    - Bytes.v: byte slices, big-endian integers and stream reads;
    - Frame.v: frame.go, the frame codec and the control payloads;
    - QueueStats.v: qstats.go, the telemetry counters;
    - StreamQueue.v: queue.go, the bounded mailbox of one stream; Mailboxes.v
      puts the mailboxes of a carrier over their shared byte budget and runs
      the pusher and the popper of one mailbox as threads;
    - Carrier.v: carrier.go, the read loop, the dispatcher, the stream workers,
      Terminate and Close as one transition system [cstep] over
      [CarrierConn]; CarrierSafety.v, CarrierStreams.v (what a consumer sees of
      the frames fed in), CarrierMemory.v (accounting), CarrierReader.v (read
      loop, limits, liveness), CarrierWrites.v (the write path) and
      CarrierCallers.v (one caller's frames on the wire) hold its theorems;
    - Auth.v: auth.go and secret.go, the carrier handshake and secret policy.

    pkg/session:
    - Session.v: session.go and streamstats.go, the lifecycle, the teardown,
      the bootstrap verdict and the session store;
    - Attachment.v: attachment.go, the binding of a session direction to a
      carrier generation, its grace timers and the FrameRebind payload;
    - Destination.v: the destination header codecs of session.go.

    pkg/routing: Routing.v, rule sets, matching and the outbound dial.  Net.v
    has the part of Go's net and strings that the sources rely on.

    pkg/node, the composition:
    - Registry.v: carrier_registry.go, the carriers of one direction;
    - Budget.v: budget.go, the aggregate relay-buffer budget;
    - Credit.v: credit.go, credit flow control, both ends and the network;
    - Governor.v: target_dial_governor.go, the circuit breaker of dials;
    - Relay.v: relays.go, socket to carrier and carrier to socket;
    - Tunnel.v: one direction of a session end to end, the relays, both
      carriers' models and the connection put together;
    - CarrierOps.v: the interface ([CarrierOps], [CarrierLaws]) the node has to
      a carrier, discharged by the carrier of Carrier.v;
    - Node.v: node.go, installing and losing carriers, the rebind sweeps, the
      peer's rebinds and resets, starting and ending sessions; NodeSafety.v
      and NodeSessions.v hold its theorems;
    - Float64.v: Go's float64, as far as the policy computes with it;
    - Health.v and Policy.v: intel.go, the record of one carrier with its
      statistics, score and hard gates, and the engine above the records:
      probe budget, lifecycle, hysteresis, selection.  HealthSafety.v and
      PolicyRun.v carry the invariants along a history, PolicyHealth.v,
      PolicyScore.v, PolicyLifecycle.v, PolicyChoice.v, PolicyPick.v and
      PolicyProbe.v (with the ticker of node.go) hold the theorems,
      PolicyNode.v the node's use of the policy.

    - TargetDial.v: target_ipv4.go, the address-family policies of the target
      dial, and the verdict a dial error is mapped to;
    - BootstrapUp.v: node.go, the bounded waits for carriers, what the Germany
      node does with a new stream, and the Iran node's wait for its verdict;
      BootstrapSafety.v holds the theorems, down to the SOCKS client.

    cmd/iran-splitter: Socks.v, socks.go and the connection handler of main.go,
    with the source allowlist of internal/config; Allowlist.v and SocksSafety.v
    hold the theorems.  Text.v has the part of Go's strings and strconv used.

    internal/backoff: Backoff.v, the reconnect schedule.

    internal/config and what renders the host's files:
    - Config.v: config.go, every variable with its bounds, Load and Validate;
      EnvFile.v: the protected env file from a deployment request through
      systemd/envfile.go to Load;
    - Lines.v: reading rendered files back; Firewall.v: firewall.go, the
      manager of ufw and nftables rules, over any host; Units.v: render.go and
      extra_units.go; Origin.v: the origin plan and its Caddyfile; Xray.v: the
      Xray configurations of both nodes.

    internal/deploy and internal/pairing, with the commands of cmd/splitterctl:
    - Path.v: lexical paths; Manifest.v: model.go and planner.go; Store.v:
      state.go and journal.go call by call, Transaction.v: transaction.go,
      rollback.go and controller.go over an adapter ([AdapterLaws] in
      TxSafety.v); StoreSafety.v, TxSafety.v and Deploy.v hold the theorems;
    - Pairing.v: the blobs of pairing.go; Pair.v: pair.go, the three commands.

    internal/xray and internal/controlagent:
    - Host.v: computations that call the system, where each call can fail or be
      the last one ([ends]); Activate.v: activate.go over it;
    - AgentRules.v: validator.go, the checks of c4.go, the rate limiter;
      AgentStore.v: revisionstore.go, journal.go and the seam of control.go;
      AgentApply.v: the transactions, revert and recovery of agent.go and
      c4.go; AgentSafety.v, AgentOutcome.v and AgentEnds.v say how they end,
      AgentRecovery.v what a restart makes of them.

    ** How code becomes definitions

    A method that runs under a mutex is one function on the record of the
    guarded state.  Code that several goroutines run is a step function over
    labels, one atomic action per label, and the theorems quantify over all
    label sequences, that is over all interleavings.  A park on a channel ends
    a step.  Pointers are numbers that index a list of objects ([ref], [href]).
    Machine integers are [Z] with the wrap-around written where the code can
    reach it; counters that the code bounds are unbounded.  Fallible code
    returns [option] or [res].  What lies outside the repository (HMAC and
    SHA-256, Unicode case mapping, math.Pow, the local midnight of a time, the
    resolver and the kernel's dial, the quoting of error texts, the random
    source, sockets, the clock) is a parameter or an argument.

    Names are the ones of the source; a field or operation whose name Rocq
    reserves has a trailing underscore ([Type_], [end_]).

    ** What is shown

    - End to end: over any number of carriers, what reaches the far socket
      continues the accepted bytes exactly where the carriers lost so far
      stopped accepting them (Tunnel.v, [tunnel_refines_pipe]).
    - From the client to the target: the front end accepts exactly the complete,
      authenticated requests from admitted sources (SocksSafety.v,
      Allowlist.v); the Germany node answers each stream once and truthfully,
      and a client that reads a success reply has a session connected to the
      destination it asked for (BootstrapSafety.v); the dial tries the
      addresses in the order of the policy and within its budget
      (TargetDial.v).
    - Data path: a frame survives encoding and the network (Frame.v); a
      mailbox is a lossless FIFO (StreamQueue.v) that never misses a wake-up
      (Mailboxes.v); on a carrier a live stream loses, repeats and reorders
      nothing (CarrierSafety.v), and a consumer sees a prefix of the frames fed
      in (CarrierStreams.v); the
      relays are lossless over carrier losses and write only the attached
      epoch's frames (Relay.v).
    - Shutdown: closing a carrier in any interleaving neither panics nor leaks
      (CarrierSafety.v, CarrierMemory.v), every write is resolved
      (CarrierWrites.v), a session is torn down exactly once and completely
      (Session.v).
    - Recovery: bindings and grace timers are coherent (Attachment.v), a
      generation names one carrier, a loss detaches only the sessions bound to
      it, rebinds and resets do what the protocol says and nothing else
      (NodeSafety.v, NodeSessions.v).
    - Trust: the handshake accepts only honest transcripts and agrees on both
      ends (Auth.v); routing never leaks a WARP destination to the direct dial
      (Routing.v).
    - Resources: the byte budget is exact and work-conserving (Budget.v), the
      credit window is safe over a lossy control plane (Credit.v), the breaker
      admits one probe (Governor.v), delays stay in their bounds (Backoff.v).
    - Carrier choice: scores are numbers in [0,1] computed from the last fifty
      samples, a carrier is admitted and readmitted only on evidence, the
      primary is replaced only past margin, ticks and dwell, a pick is one of
      the best eligible carriers, the probe budget holds per day; and what the
      engine does not do: rotate, schedule a probe, admit a carrier in the
      running node (PolicyPick.v, PolicyProbe.v, PolicyNode.v).
    - Configuration: Load accepts exactly the environments that keep the
      documented rules (Config.v), a request reaches the splitter unchanged
      through the env file (EnvFile.v), the rendered files say what they are to
      say (Units.v, Origin.v, Xray.v), the firewall manager touches its own
      rules only (Firewall.v).
    - Deployment: whatever call fails and wherever the process dies, a state
      file is whole, an unfinished change has a journal, recovery settles the
      host (StoreSafety.v, Deploy.v); a pairing blob survives its text form and
      nothing else is accepted (Pairing.v, Pair.v); an activation leaves the old
      or the tested configuration live (Activate.v); the control agent's
      apply leaves the old environment live, the new one committed, or a
      journal that says where the old one is (AgentEnds.v), and recovery goes
      back or commits by that journal (AgentRecovery.v).
    - The examples at the end of Mailboxes.v, Attachment.v, CarrierSafety.v,
      CarrierWrites.v, Tunnel.v, NodeSessions.v, PolicyLifecycle.v,
      PolicyChoice.v, PolicyProbe.v, AgentEnds.v and BootstrapSafety.v run the model on interleavings in
      which the program does something its comments exclude.

    ** Fuel

    [readLoop] and the decoders run with fuel that exceeds the length of the
    input, each turn consumes at least the header; [flushChunks] with the
    number of pending bytes, each turn sends at least one.  The theorems are
    stated at that fuel.

    ** Not modelled

    The JSON form of the policy's snapshots.  metrics.go: its counters are events
    where they matter.  Config.Sanitize.  Metrics, logging, sockets and timers
    outside the grace windows are not state.  The flag parsing and the carrier
    dial loops of the programs under cmd/, the Linux adapter of the deployment
    (systemd, users, subprocesses), downloads and archives, the dashboard, and of
    the control agent the changes coordinated over two nodes, the Xray inbounds
    and the socket. *)
From stdpp Require Export prelude gmap strings.
From Stdlib Require Export ZArith Lia.

#[global] Set Default Goal Selector "!".

(** ** Functional record update

    Go code mutates one field of a struct at a time.  [r <| f := v |>] is the
    record [r] with field [f] replaced by [v]; it is available for every
    record that has an [Expandable] instance naming its fields. *)

Class Expandable (R : Type) := { expand : R → R }.

Class Setter {R T : Type} (proj : R → T) := { setter : (T → T) → R → R }.
Arguments setter {R T} proj {_} / f r.

Ltac build_setter :=
  lazymatch goal with
  | |- @Setter ?R ?T ?proj =>
    let f := fresh "f" in
    let r := fresh "r" in
    constructor; intros f r;
    let e := eval hnf in (@expand R _ r) in
    lazymatch eval pattern (proj r) in e with
    | ?P _ => let t := eval cbn beta in (P (f (proj r))) in exact t
    end
  end.

#[export] Hint Extern 0 (Setter _) => build_setter : typeclass_instances.

Declare Scope tunnel_scope.
Delimit Scope tunnel_scope with tunnel.
#[global] Open Scope tunnel_scope.

Notation "r <| p := v |>" := (setter p (λ _, v) r)
  (at level 1, left associativity, p at level 0,
   format "r <| p  :=  v |>") : tunnel_scope.

(** ** Results of fallible Go functions

    A function returning [(T, error)] becomes one returning [res E T]. *)

Inductive res (E A : Type) : Type :=
| Ok (a : A)
| Err (e : E).
Arguments Ok {E A} a.
Arguments Err {E A} e.

#[export] Instance res_mret {E} : MRet (res E) := λ A a, Ok a.
#[export] Instance res_mbind {E} : MBind (res E) :=
  λ A B f m, match m with Ok a => f a | Err e => Err e end.
#[export] Instance res_fmap {E} : FMap (res E) :=
  λ A B f m, match m with Ok a => Ok (f a) | Err e => Err e end.

Definition is_ok {E A} (r : res E A) : bool :=
  match r with Ok _ => true | Err _ => false end.

Lemma res_bind_Ok {E A B} (f : A → res E B) (m : res E A) b :
  m ≫= f = Ok b ↔ ∃ a, m = Ok a ∧ f a = Ok b.
Proof. destruct m; simpl; naive_solver. Qed.

Lemma res_bind_l {E A B} (f : A → res E B) a : (Ok a ≫= f) = f a.
Proof. done. Qed.

Lemma res_bind_err {E A B} (f : A → res E B) e : (Err e ≫= f) = Err e.
Proof. done. Qed.

(** ** Machine integers

    A Go integer of width [w] is a [Z]; the operations that can leave its
    range are wrapped explicitly, two's complement for the signed types. *)

Definition wrapu (w z : Z) : Z := z mod 2 ^ w.
Definition wraps (w z : Z) : Z := (z + 2 ^ (w - 1)) mod 2 ^ w - 2 ^ (w - 1).

Definition in_u (w z : Z) : Prop := (0 ≤ z < 2 ^ w)%Z.
Definition in_s (w z : Z) : Prop := (- 2 ^ (w - 1) ≤ z < 2 ^ (w - 1))%Z.

Lemma wrapu_range w z : (0 ≤ w)%Z → in_u w (wrapu w z).
Proof. intros. apply Z.mod_pos_bound, Z.pow_pos_nonneg; lia. Qed.

Lemma wrapu_id w z : in_u w z → wrapu w z = z.
Proof. apply Z.mod_small. Qed.

Lemma pow2_split w : (0 < w)%Z → (2 ^ w = 2 * 2 ^ (w - 1))%Z.
Proof. intros. rewrite <- Z.pow_succ_r by lia. f_equal. lia. Qed.

Lemma wraps_range w z : (0 < w)%Z → in_s w (wraps w z).
Proof.
  intros Hw. unfold wraps, in_s.
  pose proof (pow2_split w Hw).
  pose proof (Z.mod_pos_bound (z + 2 ^ (w - 1)) (2 ^ w)
                (Z.pow_pos_nonneg 2 w ltac:(lia) ltac:(lia))).
  lia.
Qed.

Lemma wraps_id w z : (0 < w)%Z → in_s w z → wraps w z = z.
Proof.
  intros Hw Hz. unfold wraps, in_s in *. pose proof (pow2_split w Hw).
  rewrite Z.mod_small by lia. lia.
Qed.

(** ** Sums over lists and finite maps *)

Definition zsum {A} (f : A → Z) (l : list A) : Z :=
  foldr (λ x acc, (f x + acc)%Z) 0%Z l.

Lemma zsum_app {A} (f : A → Z) l k : zsum f (l ++ k) = (zsum f l + zsum f k)%Z.
Proof. induction l; simpl; lia. Qed.

Lemma zsum_nonneg {A} (f : A → Z) l : (∀ x, 0 ≤ f x)%Z → (0 ≤ zsum f l)%Z.
Proof. intros Hf. induction l as [|x l IH]; simpl; [lia|]. specialize (Hf x). lia. Qed.

Lemma zsum_perm {A} (f : A → Z) l k : l ≡ₚ k → zsum f l = zsum f k.
Proof. induction 1; simpl; lia. Qed.

Lemma zsum_le_elem {A} (f : A → Z) l x :
  (∀ y, 0 ≤ f y)%Z → x ∈ l → (f x ≤ zsum f l)%Z.
Proof.
  intros Hf. induction 1 as [x l|x y l _ IH]; simpl.
  - pose proof (zsum_nonneg f l Hf). lia.
  - specialize (Hf y). lia.
Qed.

Lemma zsum_insert {A} (f : A → Z) l i x y :
  l !! i = Some x → zsum f (<[i:=y]> l) = (zsum f l - f x + f y)%Z.
Proof.
  revert i. induction l as [|z l IH]; intros [|i] Hi; simplify_eq/=; [lia|].
  rewrite (IH _ Hi). lia.
Qed.

Lemma zsum_bounded {A} (f : A → Z) (B : Z) l :
  Forall (λ x, 0 ≤ f x ≤ B)%Z l → (0 ≤ zsum f l ≤ Z.of_nat (length l) * B)%Z.
Proof. induction 1 as [|x l Hx _ IH]; cbn [zsum foldr length]; [lia|]. unfold zsum in IH. lia. Qed.

Definition msum {K A} `{Countable K} (f : A → Z) (m : gmap K A) : Z :=
  map_fold (λ _ x acc, (f x + acc)%Z) 0%Z m.

Section msum.
Context {K A : Type} `{Countable K} (f : A → Z).
Implicit Types m : gmap K A.

Lemma msum_empty : msum f (∅ : gmap K A) = 0%Z.
Proof. apply map_fold_empty. Qed.

Lemma msum_insert m k x : m !! k = None → msum f (<[k:=x]> m) = (f x + msum f m)%Z.
Proof.
  intros Hk. unfold msum. rewrite map_fold_insert_L; [done| |done].
  intros; lia.
Qed.

Lemma msum_delete m k x : m !! k = Some x → msum f m = (f x + msum f (delete k m))%Z.
Proof.
  intros Hk. rewrite <- (insert_delete_id m k x) at 1 by done.
  apply msum_insert, lookup_delete_eq.
Qed.

Lemma msum_update m k x y :
  m !! k = Some x → msum f (<[k:=y]> m) = (msum f m - f x + f y)%Z.
Proof.
  intros Hk. rewrite (msum_delete m k x Hk).
  rewrite <- insert_delete_eq, msum_insert by apply lookup_delete_eq. lia.
Qed.

Lemma msum_nonneg m : (∀ k x, m !! k = Some x → 0 ≤ f x)%Z → (0 ≤ msum f m)%Z.
Proof.
  induction m as [|k x m Hk IH] using map_ind; intros Hf.
  - rewrite msum_empty. lia.
  - rewrite msum_insert by done.
    assert (0 ≤ f x)%Z by (eapply (Hf k); apply lookup_insert_eq).
    assert (0 ≤ msum f m)%Z; [|lia]. apply IH. intros k' x' Hk'.
    apply (Hf k'). rewrite lookup_insert_ne; [done|]. congruence.
Qed.
End msum.

(** ** Tactics *)

(** Split every [if]/[match] of the goal or a hypothesis, keeping equations. *)
Ltac case_goal :=
  match goal with
  | |- context [match ?x with _ => _ end] => destruct x eqn:?
  end.

Ltac case_hyp :=
  match goal with
  | H : context [match ?x with _ => _ end] |- _ => destruct x eqn:?
  end.

Ltac case_all := repeat (first [case_goal | case_hyp]; simplify_eq/=).

(** Turn boolean comparisons into propositions and close by arithmetic. *)
Ltac bools :=
  repeat match goal with
  | H : _ && _ = true |- _ => apply andb_true_iff in H as [? ?]
  | H : _ && _ = false |- _ => apply andb_false_iff in H
  | H : _ || _ = true |- _ => apply orb_true_iff in H
  | H : _ || _ = false |- _ => apply orb_false_iff in H as [? ?]
  | H : negb _ = true |- _ => apply negb_true_iff in H
  | H : negb _ = false |- _ => apply negb_false_iff in H
  | H : (_ =? _)%Z = true |- _ => apply Z.eqb_eq in H
  | H : (_ =? _)%Z = false |- _ => apply Z.eqb_neq in H
  | H : (_ <? _)%Z = true |- _ => apply Z.ltb_lt in H
  | H : (_ <? _)%Z = false |- _ => apply Z.ltb_ge in H
  | H : (_ <=? _)%Z = true |- _ => apply Z.leb_le in H
  | H : (_ <=? _)%Z = false |- _ => apply Z.leb_gt in H
  | H : (_ >? _)%Z = true |- _ => rewrite Z.gtb_ltb in H
  | H : (_ >? _)%Z = false |- _ => rewrite Z.gtb_ltb in H
  | H : (_ >=? _)%Z = true |- _ => rewrite Z.geb_leb in H
  | H : (_ >=? _)%Z = false |- _ => rewrite Z.geb_leb in H
  | H : bool_decide _ = true |- _ => apply bool_decide_eq_true in H
  | H : bool_decide _ = false |- _ => apply bool_decide_eq_false in H
  end.

Ltac zarith := bools; simpl in *; lia.

(** Unfold the bind of the result monad and reduce it. *)
Ltac res_red := unfold mbind, res_mbind; cbv beta iota.

Create HintDb tunnel discriminated.
Create Rewrite HintDb tunnel.
#[export] Hint Resolve wrapu_range wraps_range zsum_nonneg : tunnel.
