(* ===== verification/Bytes.v ===== *)
(** * Bytes, big-endian integers and byte-stream reads

    The pieces of Go's [encoding/binary], [io] and slice semantics that the
    wire formats of pkg/mux and pkg/session are written with: [byte] values,
    [binary.BigEndian.PutUintN]/[UintN], [io.ReadFull] on a byte stream, and
    slice expressions [b\[i:j\]]. *)
From Stdlib Require Export Strings.Byte.
From S2P Require Export Prelude.
#[local] Open Scope Z_scope.


#[export] Instance byte_eq_decision : EqDecision byte := Byte.byte_eq_dec.

(** [bz b] is the value of a byte, [zb z] the conversion [byte(z)], which
    keeps the low eight bits. *)
Definition bz (b : byte) : Z := Z.of_N (Byte.to_N b).
Definition zb (z : Z) : byte :=
  match Byte.of_N (Z.to_N (wrapu 8 z)) with Some b => b | None => x00 end.

Lemma bz_range b : 0 ≤ bz b < 256.
Proof. unfold bz. pose proof (Byte.to_N_bounded b). lia. Qed.

Lemma zb_bz b : zb (bz b) = b.
Proof.
  unfold zb. rewrite wrapu_id by apply bz_range.
  unfold bz. by rewrite N2Z.id, Byte.of_to_N.
Qed.

Lemma bz_zb z : bz (zb z) = wrapu 8 z.
Proof.
  unfold zb, bz. pose proof (wrapu_range 8 z ltac:(lia)) as Hr.
  change (in_u 8 (wrapu 8 z)) with (0 ≤ wrapu 8 z < 256) in Hr.
  destruct (Byte.of_N _) eqn:E.
  - apply Byte.to_of_N in E. lia.
  - apply Byte.of_N_None_iff in E. lia.
Qed.

#[export] Instance byte_countable : Countable byte := inj_countable' bz zb zb_bz.

Lemma bz_inj b c : bz b = bz c → b = c.
Proof. intros H. rewrite <- (zb_bz b), H. apply zb_bz. Qed.

(** A decidable fact about bytes holds when it holds for the 256 values. *)
Lemma u8_forall (P : Z → bool) :
  forallb P (map Z.of_nat (seq 0 256)) = true → ∀ z, 0 ≤ z < 256 → P z = true.
Proof.
  rewrite forallb_forall. intros H z Hz. apply H, in_map_iff.
  exists (Z.to_nat z). rewrite in_seq. lia.
Qed.

(** ** Big-endian integers of [n] bytes *)

Fixpoint be_put (n : nat) (z : Z) : list byte :=
  match n with
  | O => []
  | S n' => zb (Z.shiftr z (8 * Z.of_nat n')) :: be_put n' z
  end.

Definition be_get (l : list byte) : Z :=
  fold_left (λ acc b, Z.lor (Z.shiftl acc 8) (bz b)) l 0.

Lemma length_be_put n z : length (be_put n z) = n.
Proof. induction n; simpl; congruence. Qed.

Lemma lor_shiftl8 acc b : 0 ≤ acc → Z.lor (Z.shiftl acc 8) (bz b) = acc * 256 + bz b.
Proof.
  intros. pose proof (bz_range b).
  assert (Z.land (Z.shiftl acc 8) (bz b) = 0) as Hland.
  2:{ rewrite <- Z.lxor_lor, <- Z.add_nocarry_lxor by done.
      rewrite Z.shiftl_mul_pow2 by lia. lia. }
  apply Z.bits_inj'. intros n Hn. rewrite Z.land_spec, Z.bits_0.
  destruct (decide (n < 8)) as [Hlt|Hge].
  - by rewrite Z.shiftl_spec_low.
  - rewrite (Z.bits_above_log2 (bz b)); [apply andb_false_r|lia|].
    destruct (decide (bz b = 0)) as [->|]; [simpl; lia|].
    apply Z.log2_lt_pow2; [lia|]. eapply Z.lt_le_trans with (2 ^ 8); [lia|].
    apply Z.pow_le_mono_r; lia.
Qed.

Lemma be_fold_acc l acc :
  0 ≤ acc →
  fold_left (λ a b, Z.lor (Z.shiftl a 8) (bz b)) l acc
  = acc * 256 ^ Z.of_nat (length l) + be_get l.
Proof.
  unfold be_get. revert acc. induction l as [|b l IH]; intros acc Hacc.
  - simpl. lia.
  - cbn [fold_left length]. pose proof (bz_range b).
    rewrite !lor_shiftl8 by lia.
    rewrite (IH (acc * 256 + bz b)), (IH (0 * 256 + bz b)) by lia.
    rewrite Nat2Z.inj_succ, Z.pow_succ_r by lia. ring.
Qed.

Lemma be_get_cons b l :
  be_get (b :: l) = bz b * 256 ^ Z.of_nat (length l) + be_get l.
Proof.
  unfold be_get at 1. cbn [fold_left]. pose proof (bz_range b).
  rewrite lor_shiftl8, be_fold_acc by lia. f_equal.
Qed.

Lemma be_get_range l : 0 ≤ be_get l < 256 ^ Z.of_nat (length l).
Proof.
  induction l as [|b l IH]; [done|].
  rewrite be_get_cons. cbn [length]. pose proof (bz_range b).
  rewrite Nat2Z.inj_succ, Z.pow_succ_r by lia. nia.
Qed.

Lemma be_get_put n z : be_get (be_put n z) = z mod 256 ^ Z.of_nat n.
Proof.
  induction n as [|n IH]; [by rewrite Z.mod_1_r|].
  cbn [be_put]. rewrite be_get_cons, length_be_put, IH, bz_zb.
  rewrite Z.shiftr_div_pow2 by lia. unfold wrapu.
  rewrite Nat2Z.inj_succ, Z.pow_succ_r by lia.
  replace (2 ^ (8 * Z.of_nat n)) with (256 ^ Z.of_nat n)
    by (rewrite <- (Z.pow_mul_r 2 8) by lia; done).
  change (2 ^ 8) with 256.
  rewrite (Z.mul_comm 256), Z.rem_mul_r by (try apply Z.pow_nonzero; lia). ring.
Qed.

Lemma be_put_cons_get n b l :
  length l = n → be_put (S n) (be_get (b :: l)) = b :: be_put n (be_get l).
Proof.
  intros <-. pose proof (be_get_range l) as Hr. pose proof (bz_range b).
  assert (0 < 256 ^ Z.of_nat (length l)) by (apply Z.pow_pos_nonneg; lia).
  cbn [be_put]. rewrite be_get_cons. f_equal.
  - rewrite Z.shiftr_div_pow2 by lia.
    replace (2 ^ (8 * Z.of_nat (length l))) with (256 ^ Z.of_nat (length l))
      by (rewrite (Z.pow_mul_r 2 8) by lia; done).
    rewrite Z.div_add_l, Z.div_small by lia. rewrite Z.add_0_r. apply zb_bz.
  - assert (∀ m, (m ≤ length l)%nat → ∀ z,
      be_put m (bz b * 256 ^ Z.of_nat (length l) + z) = be_put m z) as Hgen;
      [|by apply Hgen].
    induction m as [|m IHm]; intros Hm z; [done|].
    cbn [be_put]. rewrite IHm by lia. f_equal.
    apply bz_inj. rewrite !bz_zb, !Z.shiftr_div_pow2 by lia. unfold wrapu.
    replace (2 ^ (8 * Z.of_nat m)) with (256 ^ Z.of_nat m)
      by (rewrite (Z.pow_mul_r 2 8) by lia; done).
    assert (0 < 256 ^ Z.of_nat m) by (apply Z.pow_pos_nonneg; lia).
    replace (bz b * 256 ^ Z.of_nat (length l) + z)
      with ((bz b * 256 ^ (Z.of_nat (length l) - Z.of_nat m - 1) * 256) * 256 ^ Z.of_nat m + z).
    2:{ f_equal. rewrite <- !Z.mul_assoc. f_equal.
        replace (256 * 256 ^ Z.of_nat m) with (256 ^ (1 + Z.of_nat m))
          by (rewrite Z.pow_add_r by lia; done).
        rewrite <- Z.pow_add_r by lia. f_equal. lia. }
    rewrite Z.div_add_l by lia.
    change (2 ^ 8) with 256. rewrite Z.add_comm, Z.mod_add; lia.
Qed.

Lemma be_put_get l : be_put (length l) (be_get l) = l.
Proof.
  induction l as [|b l IH]; [done|].
  cbn [length]. rewrite be_put_cons_get by done. by rewrite IH.
Qed.

Lemma be_put_get_n n l : length l = n → be_put n (be_get l) = l.
Proof. intros <-. apply be_put_get. Qed.

Lemma be_get_put_u (n : nat) z : in_u (8 * Z.of_nat n) z → be_get (be_put n z) = z.
Proof.
  intros Hz. rewrite be_get_put. apply Z.mod_small.
  unfold in_u in Hz. by rewrite <- (Z.pow_mul_r 2 8) by lia.
Qed.

(** ** Slices

    [slice i j l] is the Go expression [l\[i:j\]] for [i ≤ j ≤ len l]. *)

Definition slice (i j : nat) (l : list byte) : list byte := take (j - i) (drop i l).

Lemma length_slice i j l : (i ≤ j ≤ length l)%nat → length (slice i j l) = (j - i)%nat.
Proof. intros. unfold slice. rewrite length_take, length_drop. lia. Qed.

Lemma be_get_slice_u i j l :
  (i ≤ j ≤ length l)%nat → in_u (8 * Z.of_nat (j - i)) (be_get (slice i j l)).
Proof.
  intros Hij. pose proof (be_get_range (slice i j l)) as Hr.
  rewrite length_slice in Hr by done. unfold in_u.
  by rewrite (Z.pow_mul_r 2 8) by lia.
Qed.

Lemma slice_app_l i j l k : (j ≤ length l)%nat → slice i j (l ++ k) = slice i j l.
Proof.
  intros. unfold slice. destruct (decide (i ≤ length l)%nat).
  - rewrite drop_app_le by lia. rewrite take_app_le; [done|].
    rewrite length_drop. lia.
  - replace (j - i)%nat with 0%nat by lia. by rewrite !take_0.
Qed.

Lemma slice_app_r i j l k :
  (length l ≤ i)%nat → slice i j (l ++ k) = slice (i - length l) (j - length l) k.
Proof.
  intros. unfold slice. rewrite drop_app_ge by lia. f_equal. lia.
Qed.

Lemma slice_all l n : n = length l → slice 0 n l = l.
Proof. intros ->. unfold slice. rewrite drop_0. apply take_ge. lia. Qed.

(** ** Reading a byte stream

    [ReadFull n s] is [io.ReadFull] into a buffer of [n] bytes from a reader
    whose remaining bytes are [s]: the bytes and the rest, [EOF] when there is
    no byte at all, [UnexpectedEOF] when there are some but too few. *)

Inductive io_error := EOF | UnexpectedEOF.

#[export] Instance io_error_eq_decision : EqDecision io_error.
Proof. solve_decision. Defined.

Definition ReadFull (n : nat) (s : list byte) : res io_error (list byte * list byte) :=
  if decide (n ≤ length s)%nat then Ok (take n s, drop n s)
  else match s with [] => Err EOF | _ => Err UnexpectedEOF end.

Lemma ReadFull_app n l s : length l = n → ReadFull n (l ++ s) = Ok (l, s).
Proof.
  intros <-. unfold ReadFull. rewrite length_app.
  rewrite decide_True by lia. by rewrite take_app_length, drop_app_length.
Qed.

Lemma ReadFull_Ok n s l k : ReadFull n s = Ok (l, k) → s = l ++ k ∧ length l = n.
Proof.
  unfold ReadFull. case_decide; [|by destruct s]. intros [= <- <-].
  rewrite take_drop, length_take. split; [done|lia].
Qed.

Lemma ReadFull_short n s :
  (length s < n)%nat → ReadFull n s = Err (match s with [] => EOF | _ => UnexpectedEOF end).
Proof. intros. unfold ReadFull. rewrite decide_False by lia. by destruct s. Qed.

#[export] Hint Rewrite length_be_put bz_zb zb_bz : tunnel.
#[export] Hint Resolve bz_range be_get_range : tunnel.
