(* ===== verification/Frame.v ===== *)
(** * Frame codec (src/pkg/mux/frame.go)

    Every carrier is a byte stream of frames: a 7-byte header (stream id,
    type, payload length, big-endian) and the payload.  This file models the
    frame encoder and decoder, the three fixed-layout control payloads
    (credit, reset, bootstrap-ack) with their validation, and the control-frame
    encoder of carrier.go that shares the layout. *)
From S2P Require Export Bytes.
#[local] Open Scope Z_scope.

(** ** Constants *)

Definition HeaderSize : nat := 7.
Definition MaxPayload : Z := 65535.

Definition FrameData : Z := 0.
Definition FrameAuth : Z := 1.
Definition FramePing : Z := 2.
Definition FramePong : Z := 3.
Definition FrameClose : Z := 4.
Definition FrameHeader : Z := 5.
Definition FrameRebind : Z := 6.
Definition FrameCredit : Z := 7.
Definition FrameReset : Z := 8.
Definition FrameBootstrapAck : Z := 9.

Record Frame := mkFrame {
  StreamID : Z;          (* uint32 *)
  Type_ : Z;             (* uint8 *)
  Length : Z;            (* uint16 *)
  Payload : list byte
}.

Definition zlen {A} (l : list A) : Z := Z.of_nat (length l).

(** ** Frame encoding and decoding *)

Inductive encode_error := ErrPayloadTooLarge.

(** The bytes [WriteFrame] hands to the writer in its single [w.Write]. *)
Definition WriteFrame (streamID typ : Z) (payload : list byte)
  : res encode_error (list byte) :=
  if zlen payload >? MaxPayload then Err ErrPayloadTooLarge
  else
    let hdr := be_put 4 streamID ++ [zb typ] ++ be_put 2 (wrapu 16 (zlen payload)) in
    if zlen payload >? 0 then Ok (hdr ++ payload) else Ok hdr.

(** [encodeControlFrame] (carrier.go) has the same layout but no length check:
    the length field is the payload length truncated to 16 bits. *)
Definition encodeControlFrame (streamID typ : Z) (payload : list byte) : list byte :=
  be_put 4 streamID ++ [zb typ] ++ be_put 2 (wrapu 16 (zlen payload)) ++ payload.

Definition ReadFrame (s : list byte) : res io_error (Frame * list byte) :=
  '(hdr, s1) ← ReadFull HeaderSize s;
  let sid := be_get (slice 0 4 hdr) in
  let typ := bz (nth 4 hdr x00) in
  let len := be_get (slice 5 7 hdr) in
  if len >? 0 then
    '(payload, s2) ← ReadFull (Z.to_nat len) s1;
    Ok (mkFrame sid typ len payload, s2)
  else Ok (mkFrame sid typ len [], s1).

(** A reader that decodes frames until the stream ends, and the reason it
    stopped.  Every frame takes at least [HeaderSize] bytes, so the number of
    bytes is enough fuel. *)
Fixpoint ReadFrames (fuel : nat) (s : list byte) : list Frame * io_error :=
  match fuel with
  | O => ([], EOF)
  | S fuel' =>
    match ReadFrame s with
    | Ok (f, s') => let '(fs, e) := ReadFrames fuel' s' in (f :: fs, e)
    | Err e => ([], e)
    end
  end.

(** ** FrameCredit payload *)

Definition CreditPayloadSize : nat := 32.
Definition CreditVersion : Z := 1.
Definition CreditFlagsFinal : Z := 1.
Definition CreditFlagsReservedMask : Z := 254.

Record CreditPayload := mkCredit {
  cpVersion : Z;        (* byte *)
  cpGen : Z;            (* uint64 *)
  cpBytesConsumed : Z;  (* uint64 *)
  cpWindowGranted : Z;  (* uint32 *)
  cpFlags : Z;          (* byte *)
  cpReserved : list byte
}.

(** [copy(out\[22:32\], p.Reserved)] copies at most ten bytes into a zeroed
    buffer. *)
Definition copy_into (n : nat) (src : list byte) : list byte :=
  take n src ++ replicate (n - length src) x00.

Definition EncodeCreditPayload (p : CreditPayload) : list byte :=
  [zb (cpVersion p)] ++ be_put 8 (cpGen p) ++ be_put 8 (cpBytesConsumed p)
  ++ be_put 4 (cpWindowGranted p) ++ [zb (cpFlags p)] ++ copy_into 10 (cpReserved p).

Inductive credit_error :=
| ErrCreditMalformedLength
| CreditRuleVersion | CreditRuleGenZero | CreditRuleReservedBytes | CreditRuleReservedFlags.

Definition DecodeCreditPayload (raw : list byte) : res credit_error CreditPayload :=
  if negb (bool_decide (length raw = CreditPayloadSize)) then Err ErrCreditMalformedLength
  else Ok {| cpVersion := bz (nth 0 raw x00);
             cpGen := be_get (slice 1 9 raw);
             cpBytesConsumed := be_get (slice 9 17 raw);
             cpWindowGranted := be_get (slice 17 21 raw);
             cpFlags := bz (nth 21 raw x00);
             cpReserved := slice 22 32 raw |}.

Definition ClampCreditWindow (w cap : Z) : Z := if w >? cap then cap else w.

Definition StaleCreditGeneration (gen carrierGen : Z) : bool := negb (gen =? carrierGen).

Definition ValidateCreditPayload (p : CreditPayload) : option credit_error :=
  if negb (cpVersion p =? CreditVersion) then Some CreditRuleVersion
  else if cpGen p =? 0 then Some CreditRuleGenZero
  else if existsb (λ b, negb (bz b =? 0)) (cpReserved p) then Some CreditRuleReservedBytes
  else if negb (Z.land (cpFlags p) CreditFlagsReservedMask =? 0) then Some CreditRuleReservedFlags
  else None.

(** ** FrameReset and FrameBootstrapAck payloads *)

Definition ResetReasonUnknownStream : Z := 1.
Definition ResetReasonSessionClosed : Z := 2.
Definition ResetReasonRebindRefused : Z := 3.
Definition ResetReasonTargetDialFailed : Z := 4.

Definition ResetPayloadSize : nat := 10.
Definition ResetVersion : Z := 1.
Definition BootstrapAckPayloadSize : nat := 2.
Definition BootstrapAckVersion : Z := 1.

Inductive payload_error := PayloadLength (got : nat) | PayloadVersion (v : Z).

Definition EncodeResetPayload (reason gen : Z) : list byte :=
  [zb ResetVersion; zb reason] ++ be_put 8 gen.

Definition ParseResetPayload (payload : list byte) : res payload_error (Z * Z) :=
  if negb (bool_decide (length payload = ResetPayloadSize)) then
    Err (PayloadLength (length payload))
  else if negb (bz (nth 0 payload x00) =? ResetVersion) then
    Err (PayloadVersion (bz (nth 0 payload x00)))
  else Ok (bz (nth 1 payload x00), be_get (slice 2 10 payload)).

Definition EncodeBootstrapAckPayload (status : Z) : list byte :=
  [zb BootstrapAckVersion; zb status].

Definition ParseBootstrapAckPayload (payload : list byte) : res payload_error Z :=
  if negb (bool_decide (length payload = BootstrapAckPayloadSize)) then
    Err (PayloadLength (length payload))
  else if negb (bz (nth 0 payload x00) =? BootstrapAckVersion) then
    Err (PayloadVersion (bz (nth 0 payload x00)))
  else Ok (bz (nth 1 payload x00)).

(** ** Lemmas *)

Definition header (sid typ len : Z) : list byte :=
  be_put 4 sid ++ [zb typ] ++ be_put 2 len.

Lemma length_header sid typ len : length (header sid typ len) = HeaderSize.
Proof. unfold header. by rewrite !length_app, !length_be_put. Qed.

Lemma header_sid sid typ len : slice 0 4 (header sid typ len) = be_put 4 sid.
Proof. reflexivity. Qed.

Lemma header_type sid typ len : nth 4 (header sid typ len) x00 = zb typ.
Proof. reflexivity. Qed.

Lemma header_len sid typ len : slice 5 7 (header sid typ len) = be_put 2 len.
Proof. reflexivity. Qed.

Lemma zlen_nonneg {A} (l : list A) : 0 ≤ zlen l.
Proof. unfold zlen. lia. Qed.

Lemma zlen_app {A} (l k : list A) : zlen (l ++ k) = zlen l + zlen k.
Proof. unfold zlen. rewrite length_app. lia. Qed.

Lemma zlen_nil_inv {A} (l : list A) : zlen l ≤ 0 → l = [].
Proof. unfold zlen. destruct l; simpl; [done|lia]. Qed.

Lemma WriteFrame_Ok sid typ payload :
  zlen payload ≤ MaxPayload →
  WriteFrame sid typ payload = Ok (header sid typ (zlen payload) ++ payload).
Proof.
  intros Hlen. pose proof (zlen_nonneg payload). unfold WriteFrame, MaxPayload in *.
  assert (wrapu 16 (zlen payload) = zlen payload) as -> by (apply wrapu_id; unfold in_u; lia).
  destruct (zlen payload >? 65535) eqn:E1; bools; [lia|].
  destruct (zlen payload >? 0) eqn:E2; bools; [done|].
  apply zlen_nil_inv in E2 as ->. by rewrite app_nil_r.
Qed.

Lemma encodeControlFrame_header sid typ payload :
  zlen payload ≤ MaxPayload →
  encodeControlFrame sid typ payload = header sid typ (zlen payload) ++ payload.
Proof.
  intros Hlen. pose proof (zlen_nonneg payload). unfold encodeControlFrame, header, MaxPayload in *.
  rewrite wrapu_id by (unfold in_u; lia). by rewrite <- !app_assoc.
Qed.

(** What a well-formed frame decodes to. *)
Definition frame_of (sid typ : Z) (payload : list byte) : Frame :=
  mkFrame sid typ (zlen payload) payload.

Lemma ReadFrame_header sid typ payload rest :
  in_u 32 sid → in_u 8 typ → zlen payload ≤ MaxPayload →
  ReadFrame (header sid typ (zlen payload) ++ payload ++ rest)
  = Ok (frame_of sid typ payload, rest).
Proof.
  intros Hsid Htyp Hlen. pose proof (zlen_nonneg payload). unfold MaxPayload in *.
  unfold ReadFrame. rewrite ReadFull_app by apply length_header.
  res_red. cbv zeta. rewrite header_sid, header_type, header_len, bz_zb, !wrapu_id by done.
  rewrite (be_get_put_u 4) by done.
  rewrite (be_get_put_u 2) by (unfold in_u; lia).
  destruct (zlen payload >? 0) eqn:E; bools.
  - rewrite ReadFull_app by (unfold zlen; lia). done.
  - by apply zlen_nil_inv in E as ->.
Qed.

Lemma ReadFrame_inv s f rest :
  ReadFrame s = Ok (f, rest) →
  s = header (StreamID f) (Type_ f) (Length f) ++ Payload f ++ rest
  ∧ in_u 32 (StreamID f) ∧ in_u 8 (Type_ f)
  ∧ Length f = zlen (Payload f) ∧ zlen (Payload f) ≤ MaxPayload.
Proof.
  unfold ReadFrame. rewrite res_bind_Ok. intros ([hdr s1] & Hhdr & Hrest).
  apply ReadFull_Ok in Hhdr as [-> Hlen].
  assert (hdr = header (be_get (slice 0 4 hdr)) (bz (nth 4 hdr x00)) (be_get (slice 5 7 hdr))) as Heq.
  { do 8 (destruct hdr as [|? hdr]; try discriminate Hlen).
    unfold header. rewrite zb_bz.
    by rewrite (be_put_get_n 4), (be_put_get_n 2). }
  pose proof (be_get_range (slice 0 4 hdr)) as H1.
  pose proof (be_get_range (slice 5 7 hdr)) as H2.
  rewrite length_slice in H1, H2 by (rewrite Hlen; unfold HeaderSize; lia).
  change (256 ^ Z.of_nat (4 - 0)) with (2 ^ 32) in H1.
  change (256 ^ Z.of_nat (7 - 5)) with 65536 in H2.
  pose proof (bz_range (nth 4 hdr x00)) as H3.
  destruct (_ >? 0) eqn:E in Hrest; bools.
  - apply res_bind_Ok in Hrest as ([p s2] & Hp & [= <- <-]).
    apply ReadFull_Ok in Hp as [-> Hp].
    cbn [StreamID Type_ Length Payload]. rewrite <- Heq.
    unfold in_u, zlen, MaxPayload. rewrite Hp. repeat split; lia.
  - injection Hrest as <- <-. cbn [StreamID Type_ Length Payload]. rewrite <- Heq.
    unfold in_u, zlen, MaxPayload. simpl length. repeat split; lia.
Qed.

Lemma ReadFrame_length s f rest :
  ReadFrame s = Ok (f, rest) → (length s = HeaderSize + length (Payload f) + length rest)%nat.
Proof.
  intros (-> & _)%ReadFrame_inv. rewrite !length_app, length_header. lia.
Qed.

(** ** Theorems *)

(** C14: the frame codec round-trips: for every stream id, frame type and
    payload of at most [MaxPayload] bytes, [WriteFrame] succeeds and
    [ReadFrame] on its output followed by any bytes returns exactly that frame
    and leaves exactly those bytes in the reader. *)
Theorem frame_roundtrip sid typ payload rest :
  in_u 32 sid → in_u 8 typ → zlen payload ≤ MaxPayload →
  ∃ bytes, WriteFrame sid typ payload = Ok bytes
         ∧ ReadFrame (bytes ++ rest) = Ok (frame_of sid typ payload, rest).
Proof.
  intros. eexists. split; [by apply WriteFrame_Ok|].
  rewrite <- app_assoc. by apply ReadFrame_header.
Qed.

Lemma frame_roundtrip_witness :
  ReadFrame ([x00; x00; x00; x2a; x05; x00; x02; x61; x62] ++ [x01])
  = Ok (mkFrame 42 FrameHeader 2 [x61; x62], [x01]).
Proof.
  destruct (frame_roundtrip 42 FrameHeader [x61; x62] [x01]) as (bs & Hw & Hr).
  - unfold in_u; lia.
  - unfold in_u, FrameHeader; lia.
  - unfold zlen, MaxPayload; simpl; lia.
  - injection Hw as <-. exact Hr.
Defined.

(** decoding is the inverse of encoding: whenever [ReadFrame] accepts, the
    bytes it consumed are exactly the [WriteFrame] encoding of the frame it
    returned, the header fields are in range and the Length field is the
    payload length.  No two distinct byte strings decode to one frame. *)
Theorem frame_decode_canonical s f rest :
  ReadFrame s = Ok (f, rest) →
  ∃ bytes, WriteFrame (StreamID f) (Type_ f) (Payload f) = Ok bytes
         ∧ s = bytes ++ rest ∧ f = frame_of (StreamID f) (Type_ f) (Payload f)
         ∧ in_u 32 (StreamID f) ∧ in_u 8 (Type_ f).
Proof.
  intros (-> & ? & ? & HL & ?)%ReadFrame_inv. eexists.
  split; [by apply WriteFrame_Ok|]. rewrite <- HL, app_assoc.
  split; [done|]. split; [|done]. destruct f; simpl in *. by subst.
Qed.

Lemma frame_decode_canonical_witness :
  ∃ bytes, WriteFrame 7 FrameClose [] = Ok bytes
         ∧ [x00; x00; x00; x07; x04; x00; x00; xff] = bytes ++ [xff].
Proof.
  destruct (frame_decode_canonical [x00; x00; x00; x07; x04; x00; x00; xff]
              (mkFrame 7 FrameClose 0 []) [xff] eq_refl) as (bs & Hw & Hs & _).
  exists bs. split; [exact Hw|exact Hs].
Defined.

(** A well-formed frame to send. *)
Definition sendable (p : Z * Z * list byte) : Prop :=
  in_u 32 p.1.1 ∧ in_u 8 p.1.2 ∧ zlen p.2 ≤ MaxPayload.

Definition wire_bytes (ps : list (Z * Z * list byte)) : list byte :=
  concat (map (λ p, header p.1.1 p.1.2 (zlen p.2) ++ p.2) ps).

Lemma ReadFrames_wire ps fuel :
  Forall sendable ps → (length (wire_bytes ps) ≤ fuel)%nat →
  ReadFrames fuel (wire_bytes ps) = (map (λ p, frame_of p.1.1 p.1.2 p.2) ps, EOF).
Proof.
  revert fuel. induction ps as [|[[sid typ] pl] ps IH]; intros fuel Hps Hfuel.
  { by destruct fuel. }
  apply Forall_cons in Hps as [(? & ? & ?) Hps]. cbn [wire_bytes map concat fst snd] in *.
  change (concat _) with (wire_bytes ps) in *.
  rewrite !length_app, length_header in Hfuel. unfold HeaderSize in Hfuel.
  destruct fuel as [|fuel]; [lia|].
  cbn [ReadFrames]. rewrite <- app_assoc, ReadFrame_header by done.
  by rewrite IH by (done || lia).
Qed.

(** a whole carrier stream decodes to the frames that were written: reading
    frames from the concatenation of any sequence of [WriteFrame] outputs
    yields that sequence, in order, and then a clean [EOF]. *)
Theorem frame_stream_roundtrip ps bss :
  Forall2 (λ p bs, in_u 32 p.1.1 ∧ in_u 8 p.1.2 ∧ WriteFrame p.1.1 p.1.2 p.2 = Ok bs) ps bss →
  ReadFrames (length (concat bss)) (concat bss)
  = (map (λ p, frame_of p.1.1 p.1.2 p.2) ps, EOF).
Proof.
  intros H. assert (Forall sendable ps ∧ concat bss = wire_bytes ps) as [Hps ->].
  { induction H as [|[[sid typ] pl] bs ps bss (Hs & Ht & Hw) _ [IH1 IH2]]; [done|].
    cbn [fst snd] in *.
    assert (zlen pl ≤ MaxPayload).
    { unfold WriteFrame in Hw. destruct (_ >? _) eqn:E; [done|]. by bools. }
    rewrite WriteFrame_Ok in Hw by done. injection Hw as <-.
    cbn [concat]. rewrite IH2. split; [|done]. apply Forall_cons. done. }
  by apply ReadFrames_wire.
Qed.

Lemma frame_stream_roundtrip_witness :
  ReadFrames 17 [x00; x00; x00; x01; x05; x00; x01; x41;
                 x00; x00; x00; x01; x00; x00; x02; x42; x43]
  = ([mkFrame 1 FrameHeader 1 [x41]; mkFrame 1 FrameData 2 [x42; x43]], EOF).
Proof.
  apply (frame_stream_roundtrip
    [((1, FrameHeader), [x41]); ((1, FrameData), [x42; x43])]
    [[x00; x00; x00; x01; x05; x00; x01; x41];
     [x00; x00; x00; x01; x00; x00; x02; x42; x43]]).
  repeat constructor; vm_compute; reflexivity || discriminate.
Defined.

(** a carrier cut inside a frame never yields that frame: every proper
    prefix of an encoded frame makes [ReadFrame] fail, and reports [EOF] only
    when it is cut at the start of the frame or between header and payload. *)
Theorem frame_truncated_fails sid typ payload k :
  in_u 32 sid → in_u 8 typ → zlen payload ≤ MaxPayload →
  (k < HeaderSize + length payload)%nat →
  ReadFrame (take k (header sid typ (zlen payload) ++ payload))
  = Err (if decide (k = 0%nat ∨ k = HeaderSize) then EOF else UnexpectedEOF).
Proof.
  intros Hsid Htyp Hlen Hk. pose proof (zlen_nonneg payload).
  destruct (decide (k < HeaderSize)%nat) as [Hlt|Hge].
  - unfold ReadFrame. rewrite ReadFull_short.
    2:{ rewrite length_take, length_app, length_header. lia. }
    res_red. f_equal. unfold HeaderSize in *. destruct k as [|k]; [done|].
    rewrite decide_False by lia. done.
  - rewrite take_app_ge by (rewrite length_header; lia). rewrite length_header.
    unfold ReadFrame. rewrite ReadFull_app by apply length_header. res_red. cbv zeta.
    rewrite header_sid, header_type, header_len. unfold MaxPayload in *.
    rewrite (be_get_put_u 2) by (unfold in_u; lia).
    destruct (zlen payload >? 0) eqn:E; bools; [|unfold zlen in *; lia].
    rewrite ReadFull_short by (rewrite length_take; unfold zlen; lia).
    f_equal. unfold HeaderSize in *. destruct (k - 7)%nat eqn:Ek.
    + rewrite decide_True by lia. done.
    + rewrite decide_False by lia. destruct payload; [done|]. done.
Qed.

Lemma frame_truncated_fails_witness :
  ReadFrame (take 8 (header 9 FrameData 3 ++ [x01; x02; x03])) = Err UnexpectedEOF.
Proof.
  apply (frame_truncated_fails 9 FrameData [x01; x02; x03] 8);
    vm_compute; try (repeat constructor); intuition discriminate.
Defined.

(** *** Credit payload *)

Definition credit_wf (p : CreditPayload) : Prop :=
  in_u 8 (cpVersion p) ∧ in_u 64 (cpGen p) ∧ in_u 64 (cpBytesConsumed p)
  ∧ in_u 32 (cpWindowGranted p) ∧ in_u 8 (cpFlags p) ∧ length (cpReserved p) = 10%nat.

Lemma length_EncodeCreditPayload p : length (EncodeCreditPayload p) = CreditPayloadSize.
Proof.
  unfold EncodeCreditPayload, copy_into.
  rewrite !length_app, !length_be_put, length_take, length_replicate.
  unfold CreditPayloadSize. cbn [length]. lia.
Qed.

Lemma DecodeCreditPayload_Encode p :
  credit_wf p → DecodeCreditPayload (EncodeCreditPayload p) = Ok p.
Proof.
  intros (Hv & Hg & Hb & Hw & Hf & Hr). unfold DecodeCreditPayload.
  rewrite bool_decide_eq_true_2 by apply length_EncodeCreditPayload. simpl negb. cbv iota.
  unfold EncodeCreditPayload, copy_into.
  rewrite Hr, take_ge by lia. simpl replicate. rewrite app_nil_r.
  destruct p as [v g b w f r]; cbn [cpVersion cpGen cpBytesConsumed cpWindowGranted cpFlags cpReserved] in *.
  f_equal. f_equal.
  - simpl. by rewrite bz_zb, wrapu_id.
  - change (slice 1 9 _) with (be_put 8 g). by apply (be_get_put_u 8).
  - change (slice 9 17 _) with (be_put 8 b). by apply (be_get_put_u 8).
  - change (slice 17 21 _) with (be_put 4 w). by apply (be_get_put_u 4).
  - simpl. by rewrite bz_zb, wrapu_id.
  - change (slice 22 32 _) with (take 10 (drop 0 r)). rewrite drop_0, take_ge by lia. done.
Qed.

(** the credit payload codec is a bijection between well-formed credits and
    32-byte payloads: decoding an encoded credit returns it, and re-encoding
    any payload the decoder accepts returns those bytes. *)
Theorem credit_codec_bijective :
  (∀ p, credit_wf p → DecodeCreditPayload (EncodeCreditPayload p) = Ok p)
  ∧ (∀ raw p, DecodeCreditPayload raw = Ok p → credit_wf p ∧ EncodeCreditPayload p = raw).
Proof.
  split; [apply DecodeCreditPayload_Encode|].
  intros raw p. unfold DecodeCreditPayload.
  case_bool_decide as Hlen; [|done]. simpl negb. cbv iota. intros [= <-].
  unfold CreditPayloadSize in Hlen. split.
  - split_and!; cbn [cpVersion cpGen cpBytesConsumed cpWindowGranted cpFlags cpReserved].
    + apply bz_range.
    + apply (be_get_slice_u 1 9); lia.
    + apply (be_get_slice_u 9 17); lia.
    + apply (be_get_slice_u 17 21); lia.
    + apply bz_range.
    + apply length_slice; lia.
  - unfold EncodeCreditPayload, copy_into. cbn [cpVersion cpGen cpBytesConsumed cpWindowGranted cpFlags cpReserved].
    rewrite !zb_bz, (be_put_get_n 8), (be_put_get_n 8), (be_put_get_n 4)
      by (rewrite length_slice; lia).
    rewrite length_slice, take_ge by (rewrite ?length_slice; lia).
    do 33 (destruct raw as [|? raw]; try discriminate Hlen). reflexivity.
Qed.

(** [ValidateCreditPayload] accepts a decoded credit exactly when its
    version is 1, its generation is non-zero, its reserved bytes are all zero
    and no flag other than FINAL is set. *)
Theorem credit_validation_exact raw p :
  DecodeCreditPayload raw = Ok p →
  ValidateCreditPayload p = None ↔
  (cpVersion p = 1 ∧ cpGen p ≠ 0 ∧ Forall (λ b, b = x00) (cpReserved p)
   ∧ (cpFlags p = 0 ∨ cpFlags p = CreditFlagsFinal)).
Proof.
  intros Hd. assert (0 ≤ cpFlags p < 256) as Hf.
  { unfold DecodeCreditPayload in Hd. case_bool_decide; [|done].
    simpl in Hd. injection Hd as <-. apply bz_range. }
  assert (Z.land (cpFlags p) CreditFlagsReservedMask = 0 ↔ cpFlags p = 0 ∨ cpFlags p = 1) as Hmask.
  { split; [|intros [-> | ->]; reflexivity]. intros Hl.
    pose proof (u8_forall (λ z, implb (Z.land z 254 =? 0) ((z =? 0) || (z =? 1))) eq_refl
                  (cpFlags p) Hf) as Hall. cbv beta in Hall.
    unfold CreditFlagsReservedMask in Hl. rewrite Hl in Hall. simpl in Hall.
    by rewrite orb_true_iff, !Z.eqb_eq in Hall. }
  assert (existsb (λ b, negb (bz b =? 0)) (cpReserved p) = false
          ↔ Forall (λ b, b = x00) (cpReserved p)) as Hres.
  { rewrite Forall_forall. rewrite <- not_true_iff_false, existsb_exists. split.
    - intros Hne b Hb%list_elem_of_In. destruct (decide (b = x00)) as [|Hn]; [done|].
      exfalso. apply Hne. exists b. split; [done|]. apply negb_true_iff, Z.eqb_neq.
      intros Hz. apply Hn, bz_inj. by rewrite Hz.
    - intros Hall (b & Hb%list_elem_of_In & Hn). rewrite (Hall b Hb) in Hn. done. }
  unfold ValidateCreditPayload, CreditVersion, CreditFlagsFinal. rewrite <- Hres, <- Hmask.
  destruct (cpVersion p =? 1) eqn:E1; bools; simpl; [|naive_solver].
  destruct (cpGen p =? 0) eqn:E2; bools; simpl; [naive_solver|].
  destruct (existsb _ _) eqn:E3; simpl; [naive_solver|].
  destruct (Z.land _ _ =? 0) eqn:E4; bools; simpl; naive_solver.
Qed.

Definition sample_credit : CreditPayload :=
  {| cpVersion := 1; cpGen := 3; cpBytesConsumed := 70000; cpWindowGranted := 524288;
     cpFlags := 1; cpReserved := replicate 10 x00 |}.

Lemma credit_validation_exact_witness : ValidateCreditPayload sample_credit = None.
Proof.
  apply (credit_validation_exact (EncodeCreditPayload sample_credit) sample_credit).
  - vm_compute; reflexivity.
  - vm_compute. intuition (try discriminate). repeat constructor.
Defined.

(** the reset and bootstrap-ack codecs round-trip, and their parsers accept
    nothing but payloads of the fixed size and version. *)
Theorem control_payload_codecs :
  (∀ reason gen, in_u 8 reason → in_u 64 gen →
     ParseResetPayload (EncodeResetPayload reason gen) = Ok (reason, gen))
  ∧ (∀ status, in_u 8 status →
     ParseBootstrapAckPayload (EncodeBootstrapAckPayload status) = Ok status)
  ∧ (∀ raw reason gen, ParseResetPayload raw = Ok (reason, gen) →
     raw = EncodeResetPayload reason gen)
  ∧ (∀ raw status, ParseBootstrapAckPayload raw = Ok status →
     raw = EncodeBootstrapAckPayload status).
Proof.
  split_and!.
  - intros reason gen Hr Hg. unfold ParseResetPayload, EncodeResetPayload. simpl.
    change (be_get (slice 2 10 _)) with (be_get (be_put 8 gen)).
    by rewrite bz_zb, wrapu_id, (be_get_put_u 8).
  - intros status Hs. unfold ParseBootstrapAckPayload, EncodeBootstrapAckPayload. simpl.
    by rewrite bz_zb, wrapu_id.
  - intros raw reason gen. unfold ParseResetPayload, EncodeResetPayload, ResetPayloadSize.
    case_bool_decide as Hlen; [|done]. simpl negb. cbv iota.
    destruct (_ =? _) eqn:E; [|done]. simpl negb. cbv iota. bools. intros [= <- <-].
    rewrite <- E, !zb_bz, (be_put_get_n 8) by (rewrite length_slice; lia).
    do 11 (destruct raw as [|? raw]; try discriminate Hlen). reflexivity.
  - intros raw status. unfold ParseBootstrapAckPayload, EncodeBootstrapAckPayload, BootstrapAckPayloadSize.
    case_bool_decide as Hlen; [|done]. simpl negb. cbv iota.
    destruct (_ =? _) eqn:E; [|done]. simpl negb. cbv iota. bools. intros [= <-].
    rewrite <- E, !zb_bz. do 3 (destruct raw as [|? raw]; try discriminate Hlen). reflexivity.
Qed.

#[export] Hint Resolve length_header zlen_nonneg length_EncodeCreditPayload : tunnel.
