(* ===== verification/QueueStats.v ===== *)
(** * Queue telemetry (src/pkg/mux/qstats.go)

    The fixed set of carrier-wide counters, gauges and high-water marks.  The
    fields are [int64]s updated atomically; the counters count events and the
    gauges count bytes and frames held in memory, so they are modelled by
    unbounded integers.  A nil receiver makes every method a no-op; the owner
    of the pointer decides that (see [StreamQueue.v] and [Carrier.v]). *)
From S2P Require Export Frame.
#[local] Open Scope Z_scope.

Inductive rejectReason := rejectStreamFrames | rejectStreamBytes | rejectAggregate | rejectClosed.

#[export] Instance rejectReason_eq_decision : EqDecision rejectReason.
Proof. solve_decision. Defined.

Record QueueStats := mkStats {
  PushAccepted : Z;
  PushRejectedStream : Z;
  PushRejectedTotal : Z;
  PushRejectedClosed : Z;
  StreamQueuedBytesHigh : Z;
  StreamQueuedFramesHigh : Z;
  QueuedBytesNow : Z;
  QueuedFramesNow : Z;
  QueuedBytesHigh : Z;
  QueuedFramesHigh : Z;
  OverflowTerminations : Z;
  OverflowTerminationsWorker : Z;
  OverflowWaitSumNanos : Z;
  OverflowWaitCount : Z;
  OverflowWaitMaxNanos : Z;
  DroppedDataFrames : Z;
  WriteFailures : Z;
  ReadFailures : Z;
  ReadEOF : Z;
  BlackholeDeaths : Z
}.

#[export] Instance QueueStats_expandable : Expandable QueueStats := {| expand := λ s,
  mkStats (PushAccepted s) (PushRejectedStream s) (PushRejectedTotal s)
    (PushRejectedClosed s) (StreamQueuedBytesHigh s) (StreamQueuedFramesHigh s)
    (QueuedBytesNow s) (QueuedFramesNow s) (QueuedBytesHigh s) (QueuedFramesHigh s)
    (OverflowTerminations s) (OverflowTerminationsWorker s) (OverflowWaitSumNanos s)
    (OverflowWaitCount s) (OverflowWaitMaxNanos s) (DroppedDataFrames s)
    (WriteFailures s) (ReadFailures s) (ReadEOF s) (BlackholeDeaths s) |}.

(** The zero value [QueueStats{}]. *)
Definition zeroStats : QueueStats :=
  mkStats 0 0 0 0 0 0 0 0 0 0 0 0 0 0 0 0 0 0 0 0.

Definition stats_push (s : QueueStats) : QueueStats :=
  s <| PushAccepted := PushAccepted s + 1 |>.

Definition stats_reject (reason : rejectReason) (s : QueueStats) : QueueStats :=
  match reason with
  | rejectStreamFrames | rejectStreamBytes =>
      s <| PushRejectedStream := PushRejectedStream s + 1 |>
  | rejectAggregate => s <| PushRejectedTotal := PushRejectedTotal s + 1 |>
  | rejectClosed => s <| PushRejectedClosed := PushRejectedClosed s + 1 |>
  end.

(** The compare-and-swap loop of [atomicMax] leaves the larger of the two. *)
Definition atomicMax (dst value : Z) : Z := if value <=? dst then dst else value.

Definition observeHighStream (nBytes nItems : Z) (s : QueueStats) : QueueStats :=
  s <| StreamQueuedBytesHigh := atomicMax (StreamQueuedBytesHigh s) nBytes |>
    <| StreamQueuedFramesHigh := atomicMax (StreamQueuedFramesHigh s) nItems |>.

Definition observeHighQueued (nBytes nItems : Z) (s : QueueStats) : QueueStats :=
  s <| QueuedBytesHigh := atomicMax (QueuedBytesHigh s) nBytes |>
    <| QueuedFramesHigh := atomicMax (QueuedFramesHigh s) nItems |>.

Definition addQueued (bytesDelta itemsDelta : Z) (s : QueueStats) : QueueStats :=
  let nBytes := QueuedBytesNow s + bytesDelta in
  let nItems := QueuedFramesNow s + itemsDelta in
  observeHighQueued nBytes nItems
    (s <| QueuedBytesNow := nBytes |> <| QueuedFramesNow := nItems |>).

Definition observeQueued (nBytes nItems : Z) (s : QueueStats) : QueueStats :=
  observeHighQueued nBytes nItems
    (s <| QueuedBytesNow := nBytes |> <| QueuedFramesNow := nItems |>).

Definition stats_discard (nBytes nItems : Z) (s : QueueStats) : QueueStats :=
  observeHighStream nBytes nItems s.

Definition overflowTerminated (wait : Z) (s : QueueStats) : QueueStats :=
  s <| OverflowTerminations := OverflowTerminations s + 1 |>
    <| OverflowWaitSumNanos := OverflowWaitSumNanos s + wait |>
    <| OverflowWaitCount := OverflowWaitCount s + 1 |>
    <| OverflowWaitMaxNanos := atomicMax (OverflowWaitMaxNanos s) wait |>.

Definition overflowTerminatedWorker (s : QueueStats) : QueueStats :=
  s <| OverflowTerminationsWorker := OverflowTerminationsWorker s + 1 |>.

Definition droppedDataFrame (s : QueueStats) : QueueStats :=
  s <| DroppedDataFrames := DroppedDataFrames s + 1 |>.

Definition writeFailure (s : QueueStats) : QueueStats :=
  s <| WriteFailures := WriteFailures s + 1 |>.

Definition readFailure (isEOF : bool) (s : QueueStats) : QueueStats :=
  if isEOF then s <| ReadEOF := ReadEOF s + 1 |>
  else s <| ReadFailures := ReadFailures s + 1 |>.

Definition blackholeDeath (s : QueueStats) : QueueStats :=
  s <| BlackholeDeaths := BlackholeDeaths s + 1 |>.

Lemma atomicMax_max a b : atomicMax a b = Z.max a b.
Proof. unfold atomicMax. destruct (b <=? a) eqn:E; bools; lia. Qed.

(** Gauges never exceed their high-water marks. *)
Definition stats_ok (s : QueueStats) : Prop :=
  QueuedBytesNow s ≤ QueuedBytesHigh s ∧ QueuedFramesNow s ≤ QueuedFramesHigh s.
