(* ===== verification/StreamQueue.v ===== *)
(** * The bounded per-stream mailbox (src/pkg/mux/queue.go)

    [StreamQueue] sits between the single dispatcher (the pusher) and the
    stream's worker (the popper).  Each method of the source runs under [q.mu]
    except while it is parked on a channel, so each critical section is one
    atomic function here; a park ends a critical section with the channel the
    caller waits on.

    The aggregate byte budget, the carrier-wide item counter and the telemetry
    are shared by all mailboxes of a carrier through pointers: they are the
    record [shared], passed through every operation, and the three pointer
    fields of the source are flags that say whether they are non-nil. *)
From S2P Require Export QueueStats.
#[local] Open Scope Z_scope.

(** ** State *)

Record queueItem := mkItem { it_payload : list byte; isClose : bool }.

Definition isize (it : queueItem) : Z := zlen (it_payload it).

(** The counters the mailboxes of one carrier point to. *)
Record shared := mkShared { sh_budget : Z; sh_items : Z; sh_stats : QueueStats }.

#[export] Instance shared_expandable : Expandable shared := {| expand := λ s,
  mkShared (sh_budget s) (sh_items s) (sh_stats s) |}.

Definition chan := nat.

Record StreamQueue := mkQueue {
  maxFrames : Z;
  maxBytes : Z;
  items : list queueItem;
  nBytes : Z;
  overflow : list queueItem;
  overflowBytes : Z;
  overflowCap : Z;
  overflowFrameCap : Z;
  q_closed : bool;
  wake : option chan;
  nWaiters : Z;
  free : option chan;
  nFreeWaiters : Z;
  budget : bool;            (* q.budget != nil *)
  budgetLimitLocked : Z;
  stats : bool;             (* q.stats != nil *)
  queuedItems : bool;       (* q.queuedItems != nil *)
  (* channels: the next fresh one and the closed ones *)
  nextChan : chan;
  closedChans : gset chan
}.

#[export] Instance StreamQueue_expandable : Expandable StreamQueue := {| expand := λ q,
  mkQueue (maxFrames q) (maxBytes q) (items q) (nBytes q) (overflow q)
    (overflowBytes q) (overflowCap q) (overflowFrameCap q) (q_closed q)
    (wake q) (nWaiters q) (free q) (nFreeWaiters q) (budget q)
    (budgetLimitLocked q) (stats q) (queuedItems q) (nextChan q) (closedChans q) |}.

(** ** Operations *)

(** [maxFrames * 16] is a 64-bit product that may wrap; the guard restores
    [maxFrames] when it wrapped below it. *)
Definition NewStreamQueue (maxFrames maxBytes : Z) (budget : bool) (budgetLimit : Z)
  : StreamQueue :=
  let frameCap := wraps 64 (maxFrames * 16) in
  let frameCap := if frameCap <? maxFrames then maxFrames else frameCap in
  {| maxFrames := maxFrames; maxBytes := maxBytes; items := []; nBytes := 0;
     overflow := []; overflowBytes := 0; overflowCap := maxBytes;
     overflowFrameCap := frameCap; q_closed := false; wake := None; nWaiters := 0;
     free := None; nFreeWaiters := 0; budget := budget; budgetLimitLocked := budgetLimit;
     stats := false; queuedItems := false; nextChan := 0%nat; closedChans := ∅ |}.

Definition SetStats (s : bool) (q : StreamQueue) : StreamQueue := q <| stats := s |>.
Definition setQueuedItems (b : bool) (q : StreamQueue) : StreamQueue := q <| queuedItems := b |>.
Definition SetBudgetLimit (n : Z) (q : StreamQueue) : StreamQueue := q <| budgetLimitLocked := n |>.
Definition SetOverflowCap (n : Z) (q : StreamQueue) : StreamQueue := q <| overflowCap := n |>.

(** [if q.stats != nil { f }] *)
Definition with_stats (q : StreamQueue) (f : QueueStats → QueueStats) (sh : shared) : shared :=
  if stats q then sh <| sh_stats := f (sh_stats sh) |> else sh.

Definition adjustAggregateLocked (q : StreamQueue) (bytesDelta itemsDelta : Z) (sh : shared)
  : Z * Z * shared :=
  let sh1 := if budget q then sh <| sh_budget := sh_budget sh + bytesDelta |> else sh in
  let sh2 := if queuedItems q then sh1 <| sh_items := sh_items sh1 + itemsDelta |> else sh1 in
  let sh3 := with_stats q (λ s, s <| QueuedBytesNow := QueuedBytesNow s + bytesDelta |>
                                  <| QueuedFramesNow := QueuedFramesNow s + itemsDelta |>) sh2 in
  let totalBytes := if budget q then sh_budget sh3
                    else if stats q then QueuedBytesNow (sh_stats sh3) else 0 in
  let totalItems := if queuedItems q then sh_items sh3
                    else if stats q then QueuedFramesNow (sh_stats sh3) else 0 in
  (totalBytes, totalItems, sh3).

Definition fullLocked (q : StreamQueue) (it : queueItem) : bool :=
  (zlen (overflow q) >? 0) || (zlen (items q) >=? maxFrames q)
  || (nBytes q + isize it >? maxBytes q).

Definition rejectReasonLocked (q : StreamQueue) (it : queueItem) : rejectReason :=
  if q_closed q then rejectClosed
  else if zlen (overflow q) >? 0 then rejectStreamFrames
  else if zlen (items q) >=? maxFrames q then rejectStreamFrames
  else if nBytes q + isize it >? maxBytes q then rejectStreamBytes
  else rejectAggregate.

(** [close(q.wake); q.wake = nil; q.nWaiters = 0] *)
Definition wakeLocked (q : StreamQueue) : StreamQueue :=
  if nWaiters q >? 0 then
    q <| closedChans := match wake q with Some c => {[c]} ∪ closedChans q | None => closedChans q end |>
      <| wake := None |> <| nWaiters := 0 |>
  else q.

Definition signalFreeLocked (q : StreamQueue) : StreamQueue :=
  if nFreeWaiters q >? 0 then
    q <| closedChans := match free q with Some c => {[c]} ∪ closedChans q | None => closedChans q end |>
      <| free := None |> <| nFreeWaiters := 0 |>
  else q.

(** The aggregate check of TryPushReason, TryCarry and PushPark. *)
Definition overBudget (sh : shared) (q : StreamQueue) (it : queueItem) : bool :=
  budget q && (sh_budget sh + isize it >? budgetLimitLocked q).

(** The accepting tail shared by TryPushReason and PushPark: append to the
    primary, account, wake a parked Pop. *)
Definition acceptPrimary (sh : shared) (q : StreamQueue) (it : queueItem) : shared * StreamQueue :=
  let q1 := q <| items := items q ++ [it] |> <| nBytes := nBytes q + isize it |> in
  let '(totalBytes, totalItems, sh1) := adjustAggregateLocked q1 (isize it) 1 sh in
  let sh2 := with_stats q1 (λ s, observeHighQueued totalBytes totalItems
               (observeHighStream (nBytes q1) (zlen (items q1)) (stats_push s))) sh1 in
  (sh2, wakeLocked q1).

(** The accepting tail shared by TryCarry and PushPark. *)
Definition acceptCarry (sh : shared) (q : StreamQueue) (it : queueItem) : shared * StreamQueue :=
  let q1 := q <| overflow := overflow q ++ [it] |>
              <| overflowBytes := overflowBytes q + isize it |> in
  let '(totalBytes, totalItems, sh1) := adjustAggregateLocked q1 (isize it) 1 sh in
  let sh2 := with_stats q1 (observeHighQueued totalBytes totalItems) sh1 in
  (sh2, wakeLocked q1).

(** Returns [(ok, reason)] and the new state; on acceptance the reason is the
    zero value. *)
Definition TryPushReason (sh : shared) (q : StreamQueue) (it : queueItem)
  : bool * rejectReason * shared * StreamQueue :=
  if q_closed q || fullLocked q it then
    let r := rejectReasonLocked q it in
    (false, r, with_stats q (stats_reject r) sh, q)
  else if overBudget sh q it then
    (false, rejectAggregate, with_stats q (stats_reject rejectAggregate) sh, q)
  else
    let '(sh', q') := acceptPrimary sh q it in
    (true, rejectStreamFrames, sh', q').

Definition TryPush (sh : shared) (q : StreamQueue) (it : queueItem) : bool * shared * StreamQueue :=
  let '(ok, _, sh', q') := TryPushReason sh q it in (ok, sh', q').

Definition carryRefused (q : StreamQueue) (it : queueItem) : bool :=
  (overflowCap q <=? 0) || (zlen (overflow q) >=? overflowFrameCap q)
  || (overflowBytes q + isize it >? overflowCap q).

Definition TryCarry (sh : shared) (q : StreamQueue) (it : queueItem)
  : bool * rejectReason * shared * StreamQueue :=
  if q_closed q then
    (false, rejectClosed, with_stats q (stats_reject rejectClosed) sh, q)
  else if carryRefused q it then
    (false, rejectAggregate, with_stats q (stats_reject rejectAggregate) sh, q)
  else if overBudget sh q it then
    (false, rejectAggregate, with_stats q (stats_reject rejectAggregate) sh, q)
  else
    let '(sh', q') := acceptCarry sh q it in
    (true, rejectStreamFrames, sh', q').

(** One critical section of PushPark's loop. *)
Inductive push_outcome := PushAccepted_ | PushClosed | PushParked (ch : chan).

Definition PushPark (sh : shared) (q : StreamQueue) (it : queueItem)
  : push_outcome * shared * StreamQueue :=
  if q_closed q then (PushClosed, sh, q)
  else if negb (fullLocked q it) && negb (overBudget sh q it) then
    let '(sh', q') := acceptPrimary sh q it in (PushAccepted_, sh', q')
  else if negb (carryRefused q it) && negb (overBudget sh q it) then
    let '(sh', q') := acceptCarry sh q it in (PushAccepted_, sh', q')
  else
    let q1 := match free q with
              | Some _ => q
              | None => q <| free := Some (nextChan q) |> <| nextChan := S (nextChan q) |>
              end in
    let q2 := q1 <| nFreeWaiters := nFreeWaiters q1 + 1 |> in
    (PushParked (default (nextChan q) (free q1)), sh, q2).

Definition OverflowLen (q : StreamQueue) : Z := zlen (overflow q).

Definition count_data (l : list queueItem) : Z := zsum (λ it, if isClose it then 0 else 1) l.

Definition OverflowDataLen (q : StreamQueue) : Z := count_data (overflow q).
Definition QueueDataLen (q : StreamQueue) : Z := count_data (items q) + count_data (overflow q).

Definition overflowLocked (sh : shared) (q : StreamQueue)
  : option queueItem * shared * StreamQueue :=
  match overflow q with
  | [] => (None, sh, q)
  | it :: rest =>
    let q1 := q <| overflow := rest |> <| overflowBytes := overflowBytes q - isize it |> in
    let '(totalBytes, totalItems, sh1) := adjustAggregateLocked q1 (- isize it) (-1) sh in
    (Some it, with_stats q1 (observeHighQueued totalBytes totalItems) sh1, signalFreeLocked q1)
  end.

(** One critical section of Pop's loop. *)
Inductive pop_outcome := Popped (it : queueItem) | PopClosed | PopParked (ch : chan).

Definition Pop (sh : shared) (q : StreamQueue) : pop_outcome * shared * StreamQueue :=
  match items q with
  | it :: rest =>
    let highBytes := nBytes q in
    let highFrames := zlen (items q) in
    let q1 := q <| items := rest |> <| nBytes := nBytes q - isize it |> in
    let '(totalBytes, totalItems, sh1) := adjustAggregateLocked q1 (- isize it) (-1) sh in
    let sh2 := with_stats q1 (λ s, observeHighQueued totalBytes totalItems
                                     (observeHighStream highBytes highFrames s)) sh1 in
    (Popped it, sh2, signalFreeLocked q1)
  | [] =>
    match overflowLocked sh q with
    | (Some it, sh', q') => (Popped it, sh', q')
    | (None, _, _) =>
      if q_closed q then (PopClosed, sh, q)
      else
        let q1 := match wake q with
                  | Some _ => q
                  | None => q <| wake := Some (nextChan q) |> <| nextChan := S (nextChan q) |>
                  end in
        let q2 := q1 <| nWaiters := nWaiters q1 + 1 |> in
        (PopParked (default (nextChan q) (wake q1)), sh, q2)
    end
  end.

(** Returns the payload bytes discarded. *)
Definition Close (sh : shared) (q : StreamQueue) : Z * shared * StreamQueue :=
  if q_closed q then (0, sh, q)
  else
    let discarded := nBytes q in
    let discardedItems := zlen (items q) in
    let sh0 := with_stats q (stats_discard discarded discardedItems) sh in
    let total := discarded + overflowBytes q in
    let totalN := discardedItems + zlen (overflow q) in
    let q1 := q <| q_closed := true |> <| items := [] |> <| nBytes := 0 |>
                <| overflow := [] |> <| overflowBytes := 0 |> in
    let '(totalBytes, totalItems, sh1) := adjustAggregateLocked q1 (- total) (- totalN) sh0 in
    let sh2 := with_stats q1 (observeHighQueued totalBytes totalItems) sh1 in
    (total, sh2, signalFreeLocked (wakeLocked q1)).

#[global] Arguments adjustAggregateLocked : simpl never.
#[global] Arguments acceptPrimary : simpl never.
#[global] Arguments acceptCarry : simpl never.
#[global] Arguments wakeLocked : simpl never.
#[global] Arguments signalFreeLocked : simpl never.
#[global] Arguments with_stats : simpl never.

(** ** Invariant *)

Definition bytes_of (l : list queueItem) : Z := zsum isize l.
Definition contents (q : StreamQueue) : list queueItem := items q ++ overflow q.
Definition held_bytes (q : StreamQueue) : Z := nBytes q + overflowBytes q.
Definition held_items (q : StreamQueue) : Z := zlen (items q) + zlen (overflow q).

(** What holds whenever [q.mu] is free. *)
Record qinv (q : StreamQueue) : Prop := {
  qi_bytes : nBytes q = bytes_of (items q);
  qi_obytes : overflowBytes q = bytes_of (overflow q);
  qi_frames : zlen (items q) ≤ Z.max 0 (maxFrames q);
  qi_max : nBytes q ≤ Z.max 0 (maxBytes q);
  qi_oframes : zlen (overflow q) ≤ Z.max 0 (overflowFrameCap q);
  qi_closed : q_closed q = true → items q = [] ∧ overflow q = [];
  qi_waiters : 0 ≤ nWaiters q ∧ 0 ≤ nFreeWaiters q;
  qi_wake : 0 < nWaiters q → is_Some (wake q) ∧ contents q = [] ∧ q_closed q = false;
  qi_free : 0 < nFreeWaiters q → is_Some (free q) ∧ q_closed q = false;
  qi_fresh : ∀ c, (wake q = Some c ∨ free q = Some c ∨ c ∈ closedChans q) → (c < nextChan q)%nat;
  qi_open : ∀ c, (wake q = Some c ∨ free q = Some c) → c ∉ closedChans q;
  qi_distinct : ∀ c, wake q = Some c → free q ≠ Some c
}.

Lemma bytes_of_nonneg l : 0 ≤ bytes_of l.
Proof. apply zsum_nonneg. intros. apply zlen_nonneg. Qed.

Lemma bytes_of_app l k : bytes_of (l ++ k) = bytes_of l + bytes_of k.
Proof. apply zsum_app. Qed.

Lemma isize_nonneg it : 0 ≤ isize it.
Proof. apply zlen_nonneg. Qed.

(** The operations, as data: what the dispatcher, the worker and the carrier's
    configuration calls can do to a mailbox. *)
Inductive qop :=
| OTryPush (it : queueItem)
| OTryCarry (it : queueItem)
| OPushPark (it : queueItem)
| OPop
| OClose
| OSetBudgetLimit (n : Z)
| OSetOverflowCap (n : Z)
| OSetStats (b : bool)
| OSetQueuedItems (b : bool).

(** What one operation does to the mailbox, with the items it accepted, the
    items it delivered and the items it discarded. *)
Record effect := mkEffect { accepted : list queueItem; popped : list queueItem; dropped : list queueItem }.

Definition no_effect : effect := mkEffect [] [] [].

Definition exec (op : qop) (sh : shared) (q : StreamQueue) : effect * shared * StreamQueue :=
  match op with
  | OTryPush it => let '(ok, _, sh', q') := TryPushReason sh q it in
                   (mkEffect (if ok : bool then [it] else []) [] [], sh', q')
  | OTryCarry it => let '(ok, _, sh', q') := TryCarry sh q it in
                    (mkEffect (if ok : bool then [it] else []) [] [], sh', q')
  | OPushPark it => let '(o, sh', q') := PushPark sh q it in
                    (mkEffect (match o with PushAccepted_ => [it] | _ => [] end) [] [], sh', q')
  | OPop => let '(o, sh', q') := Pop sh q in
            (mkEffect [] (match o with Popped it => [it] | _ => [] end) [], sh', q')
  | OClose => let '(_, sh', q') := Close sh q in
              (mkEffect [] [] (if q_closed q then [] else contents q), sh', q')
  | OSetBudgetLimit n => (no_effect, sh, SetBudgetLimit n q)
  | OSetOverflowCap n => (no_effect, sh, SetOverflowCap n q)
  | OSetStats b => (no_effect, sh, SetStats b q)
  | OSetQueuedItems b => (no_effect, sh, setQueuedItems b q)
  end.

(** ** Effects on the shared counters *)

Lemma with_stats_budget q f sh : sh_budget (with_stats q f sh) = sh_budget sh.
Proof. unfold with_stats. by destruct (stats q). Qed.

Lemma with_stats_items q f sh : sh_items (with_stats q f sh) = sh_items sh.
Proof. unfold with_stats. by destruct (stats q). Qed.

(** [charge q d n sh sh']: the shared counters went from [sh] to [sh'] by [d]
    bytes and [n] items, as far as the mailbox [q] is attached to them. *)
Definition charge (q : StreamQueue) (d n : Z) (sh sh' : shared) : Prop :=
  sh_budget sh' = sh_budget sh + (if budget q then d else 0)
  ∧ sh_items sh' = sh_items sh + (if queuedItems q then n else 0).

Lemma adjust_charge q d n sh tb ti sh' :
  adjustAggregateLocked q d n sh = (tb, ti, sh') → charge q d n sh sh'.
Proof.
  unfold adjustAggregateLocked, charge. intros [= _ _ <-].
  rewrite with_stats_budget, with_stats_items.
  destruct (budget q), (queuedItems q); simpl; lia.
Qed.

Lemma charge_with_stats q q' d n f sh sh' :
  charge q d n sh sh' → charge q d n sh (with_stats q' f sh').
Proof. unfold charge. by rewrite with_stats_budget, with_stats_items. Qed.

Lemma charge_with_stats_l q q' d n f sh sh' :
  charge q d n (with_stats q' f sh) sh' → charge q d n sh sh'.
Proof. unfold charge. by rewrite with_stats_budget, with_stats_items. Qed.

Lemma charge_refl q sh : charge q 0 0 sh sh.
Proof. unfold charge. destruct (budget q), (queuedItems q); lia. Qed.

Lemma charge_flags q q' d n sh sh' :
  budget q = budget q' → queuedItems q = queuedItems q' →
  charge q d n sh sh' → charge q' d n sh sh'.
Proof. unfold charge. by intros -> ->. Qed.

(** ** The shape of each operation

    Every operation either leaves the regions alone, appends one item at the
    end of a region, removes the oldest item, or (Close) empties both. *)

Lemma acceptPrimary_spec sh q it sh' q' :
  acceptPrimary sh q it = (sh', q') →
  q' = wakeLocked (q <| items := items q ++ [it] |> <| nBytes := nBytes q + isize it |>)
  ∧ charge q (isize it) 1 sh sh'.
Proof.
  unfold acceptPrimary. destruct (adjustAggregateLocked _ _ _ _) as [[tb ti] sh1] eqn:E.
  intros [= <- <-]. split; [done|]. apply charge_with_stats.
  by eapply charge_flags; [..|eapply adjust_charge; exact E].
Qed.

Lemma acceptCarry_spec sh q it sh' q' :
  acceptCarry sh q it = (sh', q') →
  q' = wakeLocked (q <| overflow := overflow q ++ [it] |>
                     <| overflowBytes := overflowBytes q + isize it |>)
  ∧ charge q (isize it) 1 sh sh'.
Proof.
  unfold acceptCarry. destruct (adjustAggregateLocked _ _ _ _) as [[tb ti] sh1] eqn:E.
  intros [= <- <-]. split; [done|]. apply charge_with_stats.
  by eapply charge_flags; [..|eapply adjust_charge; exact E].
Qed.

(** The primary accepts exactly when it is open, nothing is carried, both
    bounds hold and the aggregate has room. *)
Definition fits_primary (sh : shared) (q : StreamQueue) (it : queueItem) : bool :=
  negb (q_closed q) && negb (fullLocked q it) && negb (overBudget sh q it).

Definition fits_carry (sh : shared) (q : StreamQueue) (it : queueItem) : bool :=
  negb (q_closed q) && negb (carryRefused q it) && negb (overBudget sh q it).

Lemma TryPushReason_cases sh q it ok r sh' q' :
  TryPushReason sh q it = (ok, r, sh', q') →
  ok = fits_primary sh q it
  ∧ if ok then acceptPrimary sh q it = (sh', q')
    else q' = q ∧ sh' = with_stats q (stats_reject r) sh.
Proof.
  unfold TryPushReason, fits_primary.
  destruct (q_closed q) eqn:Ec, (fullLocked q it) eqn:Ef; cbn [orb andb negb]; try by intros [= <- <- <- <-].
  destruct (overBudget sh q it) eqn:Eb; cbn [orb andb negb]; [by intros [= <- <- <- <-]|].
  destruct (acceptPrimary sh q it) as [sh1 q1]. by intros [= <- <- <- <-].
Qed.

Lemma TryCarry_cases sh q it ok r sh' q' :
  TryCarry sh q it = (ok, r, sh', q') →
  ok = fits_carry sh q it
  ∧ if ok then acceptCarry sh q it = (sh', q')
    else q' = q ∧ sh' = with_stats q (stats_reject r) sh.
Proof.
  unfold TryCarry, fits_carry.
  destruct (q_closed q) eqn:Ec; cbn [orb andb negb]; [by intros [= <- <- <- <-]|].
  destruct (carryRefused q it) eqn:Ef; cbn [orb andb negb]; [by intros [= <- <- <- <-]|].
  destruct (overBudget sh q it) eqn:Eb; cbn [orb andb negb]; [by intros [= <- <- <- <-]|].
  destruct (acceptCarry sh q it) as [sh1 q1]. by intros [= <- <- <- <-].
Qed.

(** A parked pusher: the channel it waits on is the queue's [free]. *)
Definition park_free (q : StreamQueue) : StreamQueue :=
  let q1 := match free q with
            | Some _ => q
            | None => q <| free := Some (nextChan q) |> <| nextChan := S (nextChan q) |>
            end in
  q1 <| nFreeWaiters := nFreeWaiters q1 + 1 |>.

Definition park_wake (q : StreamQueue) : StreamQueue :=
  let q1 := match wake q with
            | Some _ => q
            | None => q <| wake := Some (nextChan q) |> <| nextChan := S (nextChan q) |>
            end in
  q1 <| nWaiters := nWaiters q1 + 1 |>.

Lemma PushPark_cases sh q it o sh' q' :
  PushPark sh q it = (o, sh', q') →
  (o = PushClosed ∧ q_closed q = true ∧ sh' = sh ∧ q' = q)
  ∨ (o = PushAccepted_ ∧ fits_primary sh q it = true ∧ acceptPrimary sh q it = (sh', q'))
  ∨ (o = PushAccepted_ ∧ fits_primary sh q it = false ∧ fits_carry sh q it = true
     ∧ acceptCarry sh q it = (sh', q'))
  ∨ (∃ c, o = PushParked c ∧ q_closed q = false
     ∧ fits_primary sh q it = false ∧ fits_carry sh q it = false
     ∧ sh' = sh ∧ q' = park_free q ∧ free q' = Some c).
Proof.
  unfold PushPark, fits_primary, fits_carry, park_free.
  destruct (q_closed q) eqn:Ec; cbn [orb andb negb]; [intros [= <- <- <-]; by left|].
  destruct (fullLocked q it) eqn:Ef, (overBudget sh q it) eqn:Eb, (carryRefused q it) eqn:Er; cbn [orb andb negb].
  all: try (destruct (acceptPrimary sh q it) eqn:Ea; intros [= <- <- <-]; right; left; done).
  all: try (destruct (acceptCarry sh q it) eqn:Ea; intros [= <- <- <-]; right; right; left; done).
  all: destruct (free q) eqn:Efr; intros [= <- <- <-]; right; right; right; eexists;
       repeat split; try done; by simpl; rewrite Efr.
Qed.

Lemma overflowLocked_cases sh q o sh' q' :
  overflowLocked sh q = (o, sh', q') →
  match overflow q with
  | [] => o = None ∧ sh' = sh ∧ q' = q
  | it :: rest =>
      o = Some it
      ∧ q' = signalFreeLocked (q <| overflow := rest |> <| overflowBytes := overflowBytes q - isize it |>)
      ∧ charge q (- isize it) (-1) sh sh'
  end.
Proof.
  unfold overflowLocked. destruct (overflow q) as [|it rest]; [by intros [= <- <- <-]|].
  destruct (adjustAggregateLocked _ _ _ _) as [[tb ti] sh1] eqn:E.
  intros [= <- <- <-]. split_and!; [done|done|]. apply charge_with_stats.
  by eapply charge_flags; [..|eapply adjust_charge; exact E].
Qed.

Lemma Pop_cases sh q o sh' q' :
  Pop sh q = (o, sh', q') →
  (∃ it rest, items q = it :: rest ∧ o = Popped it
     ∧ q' = signalFreeLocked (q <| items := rest |> <| nBytes := nBytes q - isize it |>)
     ∧ charge q (- isize it) (-1) sh sh')
  ∨ (∃ it rest, items q = [] ∧ overflow q = it :: rest ∧ o = Popped it
     ∧ q' = signalFreeLocked (q <| overflow := rest |> <| overflowBytes := overflowBytes q - isize it |>)
     ∧ charge q (- isize it) (-1) sh sh')
  ∨ (contents q = [] ∧ q_closed q = true ∧ o = PopClosed ∧ q' = q ∧ sh' = sh)
  ∨ (∃ c, contents q = [] ∧ q_closed q = false ∧ o = PopParked c
     ∧ q' = park_wake q ∧ wake q' = Some c ∧ sh' = sh).
Proof.
  unfold Pop, contents, park_wake. destruct (items q) as [|it rest].
  - destruct (overflowLocked sh q) as [[o1 sh1] q1] eqn:E.
    apply overflowLocked_cases in E. destruct (overflow q) as [|it rest].
    + destruct E as (-> & -> & ->).
      destruct (q_closed q); [intros [= <- <- <-]; right; right; left; done|].
      destruct (wake q) eqn:Ew; intros [= <- <- <-]; right; right; right; eexists;
        repeat split; try done; by simpl; rewrite Ew.
    + destruct E as (-> & -> & ?). intros [= <- <- <-]. right; left. eauto 10.
  - destruct (adjustAggregateLocked _ _ _ _) as [[tb ti] sh1] eqn:E.
    intros [= <- <- <-]. left. exists it, rest. split_and!; [done..|].
    apply charge_with_stats.
    by eapply charge_flags; [..|eapply adjust_charge; exact E].
Qed.

Definition emptied (q : StreamQueue) : StreamQueue :=
  q <| q_closed := true |> <| items := [] |> <| nBytes := 0 |>
    <| overflow := [] |> <| overflowBytes := 0 |>.

Lemma Close_cases sh q n sh' q' :
  Close sh q = (n, sh', q') →
  (q_closed q = true ∧ n = 0 ∧ sh' = sh ∧ q' = q)
  ∨ (q_closed q = false ∧ n = held_bytes q
     ∧ q' = signalFreeLocked (wakeLocked (emptied q))
     ∧ charge q (- held_bytes q) (- held_items q) sh sh').
Proof.
  unfold Close. destruct (q_closed q) eqn:Ec; [intros [= <- <- <-]; by left|].
  destruct (adjustAggregateLocked _ _ _ _) as [[tb ti] sh1] eqn:E.
  intros [= <- <- <-]. right. split_and!; [done..|].
  apply charge_with_stats. eapply charge_with_stats_l.
  by eapply charge_flags; [..|eapply adjust_charge; exact E].
Qed.

(** ** Preservation of the invariant *)

(** Waking a parked Pop: afterwards nobody is registered as waiting. *)
Lemma wakeLocked_fields q :
  items (wakeLocked q) = items q ∧ overflow (wakeLocked q) = overflow q
  ∧ nBytes (wakeLocked q) = nBytes q ∧ overflowBytes (wakeLocked q) = overflowBytes q
  ∧ q_closed (wakeLocked q) = q_closed q.
Proof. unfold wakeLocked. by destruct (_ >? _). Qed.

Lemma signalFreeLocked_fields q :
  items (signalFreeLocked q) = items q ∧ overflow (signalFreeLocked q) = overflow q
  ∧ nBytes (signalFreeLocked q) = nBytes q ∧ overflowBytes (signalFreeLocked q) = overflowBytes q
  ∧ q_closed (signalFreeLocked q) = q_closed q.
Proof. unfold signalFreeLocked. by destruct (_ >? _). Qed.

(** Channel bookkeeping of the two wake-up primitives, independent of the
    contents of the mailbox. *)
Record chan_ok (q : StreamQueue) : Prop := {
  co_waiters : 0 ≤ nWaiters q ∧ 0 ≤ nFreeWaiters q;
  co_wake : 0 < nWaiters q → is_Some (wake q);
  co_free : 0 < nFreeWaiters q → is_Some (free q);
  co_fresh : ∀ c, (wake q = Some c ∨ free q = Some c ∨ c ∈ closedChans q) → (c < nextChan q)%nat;
  co_open : ∀ c, (wake q = Some c ∨ free q = Some c) → c ∉ closedChans q;
  co_distinct : ∀ c, wake q = Some c → free q ≠ Some c
}.

Lemma qinv_chan_ok q : qinv q → chan_ok q.
Proof. intros []. constructor; naive_solver. Qed.

Lemma wakeLocked_chan_ok q : chan_ok q → chan_ok (wakeLocked q) ∧ nWaiters (wakeLocked q) = 0.
Proof.
  intros [Hw Hwk Hfr Hfresh Hopen Hd]. unfold wakeLocked.
  destruct (nWaiters q >? 0) eqn:E; bools; [|split; [by constructor|lia]].
  destruct (wake q) as [c|] eqn:Ew; [|by destruct Hwk].
  split; [|done]. constructor; simpl; [lia|lia|done| | |done].
  - intros c' [?|[?|?]]; [done|naive_solver|set_solver].
  - intros c' [?|Hc']; [done|]. assert (c' ≠ c) by naive_solver. set_solver.
Qed.

Lemma signalFreeLocked_chan_ok q :
  chan_ok q → chan_ok (signalFreeLocked q) ∧ nFreeWaiters (signalFreeLocked q) = 0
              ∧ nWaiters (signalFreeLocked q) = nWaiters q.
Proof.
  intros [Hw Hwk Hfr Hfresh Hopen Hd]. unfold signalFreeLocked.
  destruct (nFreeWaiters q >? 0) eqn:E; bools; [|split; [by constructor|lia]].
  destruct (free q) as [c|] eqn:Ew; [|by destruct Hfr].
  split; [|done]. constructor; simpl; [lia|done|lia| | |].
  - intros c' [?|[?|?]]; [naive_solver|done|set_solver].
  - intros c' [Hc'|?]; [|done]. assert (c' ≠ c) by naive_solver. set_solver.
  - done.
Qed.

(** The contents part of the invariant. *)
Record data_ok (q : StreamQueue) : Prop := {
  do_bytes : nBytes q = bytes_of (items q);
  do_obytes : overflowBytes q = bytes_of (overflow q);
  do_frames : zlen (items q) ≤ Z.max 0 (maxFrames q);
  do_max : nBytes q ≤ Z.max 0 (maxBytes q);
  do_oframes : zlen (overflow q) ≤ Z.max 0 (overflowFrameCap q);
  do_closed : q_closed q = true → items q = [] ∧ overflow q = []
}.

Lemma qinv_split q :
  qinv q ↔ data_ok q ∧ chan_ok q
    ∧ (0 < nWaiters q → contents q = [] ∧ q_closed q = false)
    ∧ (0 < nFreeWaiters q → q_closed q = false).
Proof.
  split.
  - intros H. split; [by destruct H|]. split; [by apply qinv_chan_ok|].
    destruct H as [? ? ? ? ? ? ? Hwk Hfr ? ? ?]. split; intros ?; [destruct Hwk|destruct Hfr]; naive_solver.
  - intros ([] & [] & ? & ?). constructor; naive_solver.
Qed.

Lemma wakeLocked_data_ok q : data_ok q → data_ok (wakeLocked q).
Proof. unfold wakeLocked. destruct (_ >? _); [|done]. by intros []. Qed.

Lemma signalFreeLocked_data_ok q : data_ok q → data_ok (signalFreeLocked q).
Proof. unfold signalFreeLocked. destruct (_ >? _); [|done]. by intros []. Qed.

Lemma wakeLocked_free q : nFreeWaiters (wakeLocked q) = nFreeWaiters q.
Proof. unfold wakeLocked. by destruct (_ >? _). Qed.

Lemma zlen_snoc {A} (l : list A) x : zlen (l ++ [x]) = zlen l + 1.
Proof. by rewrite zlen_app. Qed.

Lemma zlen_cons {A} (x : A) l : zlen (x :: l) = zlen l + 1.
Proof. unfold zlen. simpl. lia. Qed.

(** An operation that appends and then wakes the popper. *)
Lemma qinv_wake q q1 :
  qinv q → data_ok q1 → q_closed q1 = q_closed q →
  (wake q1 = wake q ∧ nWaiters q1 = nWaiters q ∧ free q1 = free q
   ∧ nFreeWaiters q1 = nFreeWaiters q ∧ nextChan q1 = nextChan q ∧ closedChans q1 = closedChans q) →
  qinv (wakeLocked q1).
Proof.
  intros Hq Hd Hc (H1 & H2 & H3 & H4 & H5 & H6).
  assert (chan_ok q1) as Hco.
  { destruct (qinv_chan_ok q Hq). constructor; rewrite ?H1, ?H2, ?H3, ?H4, ?H5, ?H6; done. }
  apply wakeLocked_chan_ok in Hco as [Hco Hn]. apply qinv_split.
  split_and!; [by apply wakeLocked_data_ok|done|lia|].
  rewrite wakeLocked_free, H4. destruct (wakeLocked_fields q1) as (_ & _ & _ & _ & ->).
  rewrite Hc. intros ?. by apply (qi_free q Hq).
Qed.

(** An operation that removes an item and then wakes the pusher. *)
Lemma qinv_signal q q1 :
  qinv q → contents q ≠ [] → data_ok q1 →
  (wake q1 = wake q ∧ nWaiters q1 = nWaiters q ∧ free q1 = free q
   ∧ nFreeWaiters q1 = nFreeWaiters q ∧ nextChan q1 = nextChan q ∧ closedChans q1 = closedChans q) →
  qinv (signalFreeLocked q1).
Proof.
  intros Hq Hne Hd (H1 & H2 & H3 & H4 & H5 & H6).
  assert (chan_ok q1) as Hco.
  { destruct (qinv_chan_ok q Hq). constructor; rewrite ?H1, ?H2, ?H3, ?H4, ?H5, ?H6; done. }
  apply signalFreeLocked_chan_ok in Hco as (Hco & Hn & Hw). apply qinv_split.
  split_and!; [by apply signalFreeLocked_data_ok|done| |lia].
  rewrite Hw, H2. intros Hpos. by destruct (qi_wake q Hq Hpos) as (_ & ? & _).
Qed.

Lemma fullLocked_false q it :
  fullLocked q it = false →
  overflow q = [] ∧ zlen (items q) < maxFrames q ∧ nBytes q + isize it ≤ maxBytes q.
Proof.
  unfold fullLocked. intros H. bools. split; [|lia].
  apply zlen_nil_inv. lia.
Qed.

Lemma carryRefused_false q it :
  carryRefused q it = false →
  0 < overflowCap q ∧ zlen (overflow q) < overflowFrameCap q
  ∧ overflowBytes q + isize it ≤ overflowCap q.
Proof. unfold carryRefused. intros H. bools. lia. Qed.

Lemma qinv_acceptPrimary sh q it sh' q' :
  qinv q → fits_primary sh q it = true → acceptPrimary sh q it = (sh', q') → qinv q'.
Proof.
  unfold fits_primary. intros Hq Hf Ha. bools.
  apply acceptPrimary_spec in Ha as [-> _].
  apply fullLocked_false in H1 as (Ho & ? & ?). destruct Hq as [? ? ? ? ? ? ? ? ? ? ? ?] eqn:E.
  apply (qinv_wake q); [done| |done|done].
  constructor; simpl; rewrite ?zlen_snoc, ?bytes_of_app; try lia.
  - unfold bytes_of at 2. simpl. lia.
  - congruence.
Qed.

Lemma qinv_acceptCarry sh q it sh' q' :
  qinv q → fits_carry sh q it = true → acceptCarry sh q it = (sh', q') → qinv q'.
Proof.
  unfold fits_carry. intros Hq Hf Ha. bools.
  apply acceptCarry_spec in Ha as [-> _].
  apply carryRefused_false in H1 as (? & ? & ?). destruct Hq as [? ? ? ? ? ? ? ? ? ? ? ?] eqn:E.
  apply (qinv_wake q); [done| |done|done].
  constructor; simpl; rewrite ?zlen_snoc, ?bytes_of_app; try lia.
  - unfold bytes_of at 2. simpl. lia.
  - congruence.
Qed.

Lemma qinv_park_free q : qinv q → q_closed q = false → qinv (park_free q).
Proof.
  intros [? ? ? ? ? ? ? Hwk Hfr Hfresh Hopen Hd] Hc. unfold park_free.
  destruct (free q) as [c|] eqn:Ef; constructor; simpl; rewrite ?Ef; try done; try lia.
  - intros c' [?|[?|?]]; [|simplify_eq; lia|]; (assert (c' < nextChan q)%nat by eauto; lia).
  - intros c' [?|?]; [naive_solver|]. simplify_eq.
    intros Hin. assert (nextChan q < nextChan q)%nat by eauto. lia.
  - intros c' Hw' [= <-]. assert (nextChan q < nextChan q)%nat by eauto. lia.
Qed.

Lemma qinv_park_wake q : qinv q → contents q = [] → q_closed q = false → qinv (park_wake q).
Proof.
  intros [? ? ? ? ? ? ? Hwk Hfr Hfresh Hopen Hd] He Hc. unfold park_wake.
  destruct (wake q) as [c|] eqn:Ef; constructor; simpl; rewrite ?Ef; try done; try lia.
  - intros c' [?|[?|?]]; [simplify_eq; lia|..]; (assert (c' < nextChan q)%nat by eauto; lia).
  - intros c' [?|?]; [|naive_solver]. simplify_eq.
    intros Hin. assert (nextChan q < nextChan q)%nat by eauto. lia.
  - intros c' [= <-] Hw'. assert (nextChan q < nextChan q)%nat by eauto. lia.
Qed.

Lemma qinv_Close sh q n sh' q' : qinv q → Close sh q = (n, sh', q') → qinv q'.
Proof.
  intros Hq [(_ & _ & _ & ->)|(Hc & _ & -> & _)]%Close_cases; [done|].
  assert (data_ok (emptied q)) as Hd.
  { constructor; unfold emptied; simpl; try done; unfold zlen; simpl; lia. }
  assert (chan_ok (emptied q)) as Hco by (by destruct (qinv_chan_ok q Hq)).
  apply wakeLocked_chan_ok in Hco as [Hco Hn].
  apply signalFreeLocked_chan_ok in Hco as (Hco & Hn' & Hw). apply qinv_split.
  split_and!; [by apply signalFreeLocked_data_ok, wakeLocked_data_ok|done|lia|lia].
Qed.

Lemma qinv_Pop sh q o sh' q' : qinv q → Pop sh q = (o, sh', q') → qinv q'.
Proof.
  intros Hq [(it & rest & Hi & -> & -> & _)
            |[(it & rest & Hi & Ho & -> & -> & _)
            |[(_ & _ & _ & -> & _)|(c & He & Hc & _ & -> & _)]]]%Pop_cases; [..|done|].
  - apply (qinv_signal q); [done|unfold contents; by rewrite Hi| |done].
    destruct Hq. constructor; simpl; try done.
    + rewrite qi_bytes0, Hi. unfold bytes_of. simpl. lia.
    + rewrite Hi, zlen_cons in *. lia.
    + pose proof (isize_nonneg it). lia.
    + intros Hc. destruct (qi_closed0 Hc) as [Hn _]. by rewrite Hi in Hn.
  - apply (qinv_signal q); [done|unfold contents; by rewrite Hi, Ho| |done].
    destruct Hq. constructor; simpl; try done.
    + rewrite qi_obytes0, Ho. unfold bytes_of. simpl. lia.
    + rewrite Ho, zlen_cons in *. lia.
    + intros Hc. destruct (qi_closed0 Hc) as [_ Hn]. by rewrite Ho in Hn.
  - by apply qinv_park_wake.
Qed.

Lemma qinv_PushPark sh q it o sh' q' : qinv q → PushPark sh q it = (o, sh', q') → qinv q'.
Proof.
  intros Hq [(_ & _ & _ & ->)|[(_ & Hf & Ha)|[(_ & _ & Hf & Ha)|(c & _ & ? & _ & _ & _ & -> & _)]]]%PushPark_cases.
  - done.
  - by eapply qinv_acceptPrimary.
  - by eapply qinv_acceptCarry.
  - by apply qinv_park_free.
Qed.

Lemma qinv_exec op sh q e sh' q' : qinv q → exec op sh q = (e, sh', q') → qinv q'.
Proof.
  intros Hq. destruct op; simpl.
  - destruct (TryPushReason _ _ _) as [[[ok r] sh1] q1] eqn:E. intros [= _ _ <-].
    apply TryPushReason_cases in E as [Hok E]. destruct ok; [|by destruct E as [-> _]].
    by eapply qinv_acceptPrimary.
  - destruct (TryCarry _ _ _) as [[[ok r] sh1] q1] eqn:E. intros [= _ _ <-].
    apply TryCarry_cases in E as [Hok E]. destruct ok; [|by destruct E as [-> _]].
    by eapply qinv_acceptCarry.
  - destruct (PushPark _ _ _) as [[o sh1] q1] eqn:E. intros [= _ _ <-]. by eapply qinv_PushPark.
  - destruct (Pop _ _) as [[o sh1] q1] eqn:E. intros [= _ _ <-]. by eapply qinv_Pop.
  - destruct (Close _ _) as [[n sh1] q1] eqn:E. intros [= _ _ <-]. by eapply qinv_Close.
  - intros [= _ _ <-]. by destruct Hq.
  - intros [= _ _ <-]. by destruct Hq.
  - intros [= _ _ <-]. by destruct Hq.
  - intros [= _ _ <-]. by destruct Hq.
Qed.

Lemma qinv_new mf mb b lim : qinv (NewStreamQueue mf mb b lim).
Proof.
  constructor; simpl; try done; try (unfold zlen; simpl; lia).
  intros c [?|[?|?]]; set_solver.
Qed.

(** ** Runs of one mailbox *)

Definition effect_app (e1 e2 : effect) : effect :=
  mkEffect (accepted e1 ++ accepted e2) (popped e1 ++ popped e2) (dropped e1 ++ dropped e2).

Fixpoint run (ops : list qop) (sh : shared) (q : StreamQueue) : effect * shared * StreamQueue :=
  match ops with
  | [] => (no_effect, sh, q)
  | op :: ops' =>
    let '(e1, sh1, q1) := exec op sh q in
    let '(e2, sh2, q2) := run ops' sh1 q1 in
    (effect_app e1 e2, sh2, q2)
  end.

Lemma qinv_run ops sh q e sh' q' : qinv q → run ops sh q = (e, sh', q') → qinv q'.
Proof.
  revert sh q e. induction ops as [|op ops IH]; intros sh q e Hq; cbn [run].
  - by intros [= _ _ <-].
  - destruct (exec op sh q) as [[e1 sh1] q1] eqn:E1.
    destruct (run ops sh1 q1) as [[e2 sh2] q2] eqn:E2. intros [= _ <- <-].
    eapply (IH sh1 q1); [|done]. by eapply qinv_exec.
Qed.

(** ** The mailbox as a FIFO *)

Lemma contents_signal q : contents (signalFreeLocked q) = contents q.
Proof. unfold contents, signalFreeLocked. by destruct (_ >? _). Qed.

Lemma contents_wake q : contents (wakeLocked q) = contents q.
Proof. unfold contents, wakeLocked. by destruct (_ >? _). Qed.

Lemma contents_acceptPrimary sh q it sh' q' :
  fits_primary sh q it = true → acceptPrimary sh q it = (sh', q') →
  contents q' = contents q ++ [it].
Proof.
  unfold fits_primary. intros Hf [-> _]%acceptPrimary_spec. bools.
  destruct (fullLocked_false q it) as (Ho & _); [done|].
  rewrite contents_wake. unfold contents. simpl. by rewrite Ho, !app_nil_r.
Qed.

Lemma contents_acceptCarry sh q it sh' q' :
  acceptCarry sh q it = (sh', q') → contents q' = contents q ++ [it].
Proof.
  intros [-> _]%acceptCarry_spec. rewrite contents_wake. unfold contents. simpl.
  by rewrite app_assoc.
Qed.

Lemma contents_PushPark sh q it o sh' q' :
  PushPark sh q it = (o, sh', q') →
  contents q' = contents q ++ match o with PushAccepted_ => [it] | _ => [] end.
Proof.
  intros [(-> & _ & _ & ->)|[(-> & Hf & Ha)|[(-> & _ & Hf & Ha)
      |(c & -> & _ & _ & _ & _ & -> & _)]]]%PushPark_cases.
  - by rewrite app_nil_r.
  - by eapply contents_acceptPrimary.
  - by eapply contents_acceptCarry.
  - rewrite app_nil_r. unfold park_free. by destruct (free q).
Qed.

Lemma contents_Pop sh q o sh' q' :
  Pop sh q = (o, sh', q') →
  contents q = match o with Popped it => [it] | _ => [] end ++ contents q'.
Proof.
  intros [(it & rest & Hi & -> & -> & _)|[(it & rest & Hi & Ho & -> & -> & _)
      |[(He & _ & -> & -> & _)|(c & He & _ & -> & -> & _)]]]%Pop_cases.
  - rewrite contents_signal. unfold contents. simpl. by rewrite Hi.
  - rewrite contents_signal. unfold contents. simpl. by rewrite Hi, Ho.
  - done.
  - unfold park_wake. by destruct (wake q).
Qed.

Lemma contents_Close sh q n sh' q' :
  Close sh q = (n, sh', q') → contents q' = if q_closed q then contents q else [].
Proof.
  intros [(-> & _ & _ & ->)|(-> & _ & -> & _)]%Close_cases; [done|].
  by rewrite contents_signal, contents_wake.
Qed.

(** One operation seen on the contents: what was queued plus what was accepted
    is what was delivered plus what was discarded plus what is queued now. *)
Lemma exec_fifo op sh q e sh' q' :
  exec op sh q = (e, sh', q') →
  contents q ++ accepted e = popped e ++ dropped e ++ contents q'.
Proof.
  destruct op; cbn [exec].
  - destruct (TryPushReason _ _ _) as [[[ok r] sh1] q1] eqn:E. intros [= <- _ <-].
    apply TryPushReason_cases in E as [Hok E]. cbn [accepted popped dropped app].
    destruct ok; [|destruct E as [-> _]; by rewrite app_nil_r].
    symmetry. by eapply contents_acceptPrimary.
  - destruct (TryCarry _ _ _) as [[[ok r] sh1] q1] eqn:E. intros [= <- _ <-].
    apply TryCarry_cases in E as [Hok E]. cbn [accepted popped dropped app].
    destruct ok; [|destruct E as [-> _]; by rewrite app_nil_r].
    symmetry. by eapply contents_acceptCarry.
  - destruct (PushPark _ _ _) as [[o sh1] q1] eqn:E. intros [= <- _ <-].
    symmetry. by eapply contents_PushPark.
  - destruct (Pop _ _) as [[o sh1] q1] eqn:E. intros [= <- _ <-].
    cbn [accepted popped dropped app]. rewrite app_nil_r. by eapply contents_Pop.
  - destruct (Close _ _) as [[n sh1] q1] eqn:E. intros [= <- _ <-].
    apply contents_Close in E. cbn [accepted popped dropped app]. rewrite app_nil_r, E.
    destruct (q_closed q); [done|by rewrite app_nil_r].
  - intros [= <- _ <-]. apply app_nil_r.
  - intros [= <- _ <-]. apply app_nil_r.
  - intros [= <- _ <-]. apply app_nil_r.
  - intros [= <- _ <-]. apply app_nil_r.
Qed.

(** A closed mailbox is inert: nothing is accepted, delivered or discarded. *)
Lemma exec_closed op sh q e sh' q' :
  qinv q → q_closed q = true → exec op sh q = (e, sh', q') →
  e = no_effect ∧ q_closed q' = true.
Proof.
  intros Hq Hc He. pose proof (exec_fifo _ _ _ _ _ _ He) as Hf.
  assert (contents q = []) as Hn.
  { unfold contents. by destruct (qi_closed q Hq Hc) as [-> ->]. }
  destruct op; cbn [exec] in He.
  - destruct (TryPushReason _ _ _) as [[[ok r] sh1] q1] eqn:E. simplify_eq.
    apply TryPushReason_cases in E as [-> E]. unfold fits_primary in *. rewrite Hc in *.
    by destruct E as [-> _].
  - destruct (TryCarry _ _ _) as [[[ok r] sh1] q1] eqn:E. simplify_eq.
    apply TryCarry_cases in E as [-> E]. unfold fits_carry in *. rewrite Hc in *.
    by destruct E as [-> _].
  - unfold PushPark in He. rewrite Hc in He. by simplify_eq.
  - destruct (Pop _ _) as [[o sh1] q1] eqn:E. simplify_eq.
    apply Pop_cases in E as [(? & ? & Hi & _)|[(? & ? & _ & Ho & _)|[(_ & _ & -> & -> & _)|(? & _ & ? & _)]]].
    + destruct (qi_closed q Hq Hc). congruence.
    + destruct (qi_closed q Hq Hc). congruence.
    + done.
    + congruence.
  - unfold Close in He. rewrite Hc in He. by simplify_eq.
  - by simplify_eq.
  - by simplify_eq.
  - by simplify_eq.
  - by simplify_eq.
Qed.

Lemma run_closed ops sh q e sh' q' :
  qinv q → q_closed q = true → run ops sh q = (e, sh', q') → e = no_effect ∧ q_closed q' = true.
Proof.
  revert sh q e. induction ops as [|op ops IH]; intros sh q e Hq Hc; cbn [run].
  - by intros [= <- _ <-].
  - destruct (exec op sh q) as [[e1 sh1] q1] eqn:E1.
    destruct (run ops sh1 q1) as [[e2 sh2] q2] eqn:E2. intros [= <- <- <-].
    destruct (exec_closed _ _ _ _ _ _ Hq Hc E1) as [-> Hc1].
    destruct (IH _ _ _ (qinv_exec _ _ _ _ _ _ Hq E1) Hc1 E2) as [-> ?]. done.
Qed.

(** Only Close discards, and it leaves the mailbox closed. *)
Lemma exec_dropped op sh q e sh' q' :
  exec op sh q = (e, sh', q') → dropped e ≠ [] → q_closed q' = true.
Proof.
  destruct op; cbn [exec]; try (repeat case_match; intros [= <- _ <-]; done).
  destruct (Close _ _) as [[n sh1] q1] eqn:E. intros [= <- _ <-] Hd. simpl in Hd.
  apply Close_cases in E as [(? & _ & _ & ->)|(_ & _ & -> & _)]; [done|].
  unfold signalFreeLocked, wakeLocked. by repeat case_match.
Qed.

Lemma run_fifo ops sh q e sh' q' :
  qinv q → run ops sh q = (e, sh', q') →
  contents q ++ accepted e = popped e ++ dropped e ++ contents q'
  ∧ (dropped e ≠ [] → q_closed q' = true).
Proof.
  revert sh q e. induction ops as [|op ops IH]; intros sh q e Hq; cbn [run].
  - intros [= <- _ <-]. by rewrite app_nil_r.
  - destruct (exec op sh q) as [[e1 sh1] q1] eqn:E1.
    destruct (run ops sh1 q1) as [[e2 sh2] q2] eqn:E2. intros [= <- <- <-].
    pose proof (exec_fifo _ _ _ _ _ _ E1) as Hf.
    pose proof (qinv_exec _ _ _ _ _ _ Hq E1) as Hq1.
    destruct (IH _ _ _ Hq1 E2) as [Hf2 Hd2].
    destruct (decide (dropped e1 = [])) as [Hd|Hd].
    + rewrite Hd in Hf. simpl in *. rewrite Hd. split; [|done].
      by rewrite app_assoc, Hf, <- !app_assoc, Hf2.
    + pose proof (exec_dropped _ _ _ _ _ _ E1 Hd) as Hc.
      destruct (run_closed _ _ _ _ _ _ Hq1 Hc E2) as [-> ?]. simpl in *. split; [|done].
      by rewrite app_nil_r in *; rewrite <- Hf2, !app_nil_r.
Qed.

(** C33: A mailbox is an order-preserving, lossless FIFO.  Over any sequence of
    TryPush, TryCarry, PushPark, Pop, Close and configuration calls on a fresh
    mailbox, the items accepted (through the primary or the carry region), in
    acceptance order, are exactly the items popped, then the items a Close
    discarded, then the items still queued; nothing is duplicated, reordered or
    lost, and as long as the mailbox is open nothing has been discarded. *)
Theorem mailbox_fifo mf mb b lim ops sh :
  let '(e, _, q') := run ops sh (NewStreamQueue mf mb b lim) in
  accepted e = popped e ++ dropped e ++ contents q'
  ∧ (q_closed q' = false → dropped e = []).
Proof.
  destruct (run _ _ _) as [[e sh'] q'] eqn:E.
  destruct (run_fifo _ _ _ _ _ _ (qinv_new mf mb b lim) E) as [Hf Hd].
  split; [done|]. intros Hc. destruct (dropped e); [done|]. rewrite Hd in Hc; done.
Qed.

(** C34: The mailbox stays well formed under every sequence of calls: the byte
    counters are the sizes of the queued payloads, the primary never exceeds
    [maxFrames] items or [maxBytes] bytes, the carry never exceeds its frame
    cap, a closed mailbox is empty, and a registered waiter of either kind has
    an open channel to wait on (a registered Pop only while nothing is queued). *)
Theorem mailbox_invariant mf mb b lim ops sh :
  let '(_, _, q') := run ops sh (NewStreamQueue mf mb b lim) in qinv q'.
Proof.
  destruct (run _ _ _) as [[e sh'] q'] eqn:E.
  by apply (qinv_run _ _ _ _ _ _ (qinv_new mf mb b lim) E).
Qed.

Lemma zlen_nil_iff {A} (l : list A) : l = [] ↔ zlen l ≤ 0.
Proof. split; [by intros ->|apply zlen_nil_inv]. Qed.

Lemma fits_primary_iff sh q it :
  fits_primary sh q it = true ↔
  q_closed q = false ∧ overflow q = [] ∧ zlen (items q) < maxFrames q
  ∧ nBytes q + isize it ≤ maxBytes q
  ∧ (budget q = true → sh_budget sh + isize it ≤ budgetLimitLocked q).
Proof.
  rewrite (zlen_nil_iff (overflow q)).
  unfold fits_primary, fullLocked, overBudget.
  rewrite !andb_true_iff, !negb_true_iff, !orb_false_iff, andb_false_iff, !Z.gtb_ltb, Z.geb_leb,
    !Z.ltb_ge, Z.leb_gt.
  destruct (budget q); intuition (done || lia).
Qed.

(** TryPushReason accepts exactly when the mailbox is open, nothing is
    carried, the primary has a free slot and enough free bytes, and the
    aggregate budget (if there is one) has room.  On rejection the mailbox and
    the shared byte and item counters are untouched, and the reason is the
    first violated condition in the order closed, frames, bytes, aggregate. *)
Theorem TryPushReason_exact sh q it :
  let '(ok, reason, sh', q') := TryPushReason sh q it in
  (ok = true ↔ q_closed q = false ∧ overflow q = [] ∧ zlen (items q) < maxFrames q
               ∧ nBytes q + isize it ≤ maxBytes q
               ∧ (budget q = true → sh_budget sh + isize it ≤ budgetLimitLocked q))
  ∧ (ok = false →
       q' = q ∧ sh_budget sh' = sh_budget sh ∧ sh_items sh' = sh_items sh
       ∧ (reason = rejectClosed ↔ q_closed q = true)
       ∧ (reason = rejectStreamFrames ↔
            q_closed q = false ∧ (overflow q ≠ [] ∨ maxFrames q ≤ zlen (items q)))
       ∧ (reason = rejectStreamBytes ↔
            q_closed q = false ∧ overflow q = [] ∧ zlen (items q) < maxFrames q
            ∧ maxBytes q < nBytes q + isize it)).
Proof.
  destruct (TryPushReason sh q it) as [[[ok r] sh'] q'] eqn:E.
  pose proof (TryPushReason_cases _ _ _ _ _ _ _ E) as [Hok E'].
  split.
  - rewrite Hok. apply fits_primary_iff.
  - intros ->. destruct E' as [-> ->]. rewrite with_stats_budget, with_stats_items.
    do 3 (split; [done|]). rewrite !(zlen_nil_iff (overflow q)).
    unfold TryPushReason, fullLocked, rejectReasonLocked in E.
    destruct (q_closed q); cbn [orb] in E; [simplify_eq; intuition (done || lia)|].
    destruct (zlen (overflow q) >? 0) eqn:E1; cbn [orb] in E;
      [simplify_eq; bools; intuition (done || lia)|].
    destruct (zlen (items q) >=? maxFrames q) eqn:E2; cbn [orb] in E;
      [simplify_eq; bools; intuition (done || lia)|].
    destruct (nBytes q + isize it >? maxBytes q) eqn:E3; cbn [orb] in E;
      [simplify_eq; bools; intuition (done || lia)|].
    destruct (overBudget sh q it); [|by destruct (acceptPrimary _ _ _); simplify_eq].
    simplify_eq. bools. intuition (done || lia).
Qed.
