(* ===== verification/Mailboxes.v ===== *)
(** * Mailboxes of one carrier: the shared budget and the parked threads

    [Mailboxes] puts the mailboxes of a carrier side by side over the counters
    they share (the aggregate byte budget of src/pkg/mux/queue.go), and
    [Threads] puts the two goroutines that use one mailbox, the dispatcher in
    PushPark and the worker in Pop, next to each other as a step relation in
    which a parked goroutine may only go on once its channel was closed. *)
From S2P Require Export StreamQueue.
#[local] Open Scope Z_scope.

(** ** What one operation charges to the shared counters *)

(** The operations that move items; the rest is configuration. *)
Definition data_op (op : qop) : bool :=
  match op with
  | OTryPush _ | OTryCarry _ | OPushPark _ | OPop | OClose => true
  | _ => false
  end.

(** Everything of a mailbox its configuration fixes. *)
Definition config_eq (q q' : StreamQueue) : Prop :=
  maxFrames q' = maxFrames q ∧ maxBytes q' = maxBytes q
  ∧ budget q' = budget q ∧ queuedItems q' = queuedItems q
  ∧ budgetLimitLocked q' = budgetLimitLocked q
  ∧ overflowCap q' = overflowCap q ∧ overflowFrameCap q' = overflowFrameCap q.

(** The new state [q'] of a mailbox differs from [q] by a move that charged the
    counters for exactly the bytes and items it holds more (or less) now. *)
Definition accounted (q q' : StreamQueue) (sh sh' : shared) : Prop :=
  config_eq q q'
  ∧ charge q (held_bytes q' - held_bytes q) (held_items q' - held_items q) sh sh'.

Lemma signalFreeLocked_config q : config_eq q (signalFreeLocked q).
Proof. unfold signalFreeLocked. by destruct (_ >? _). Qed.

Lemma wakeLocked_config q : config_eq q (wakeLocked q).
Proof. unfold wakeLocked. by destruct (_ >? _). Qed.

Lemma config_eq_trans q1 q2 q3 : config_eq q1 q2 → config_eq q2 q3 → config_eq q1 q3.
Proof. unfold config_eq. intuition congruence. Qed.

Lemma held_signal q :
  held_bytes (signalFreeLocked q) = held_bytes q ∧ held_items (signalFreeLocked q) = held_items q.
Proof. unfold signalFreeLocked. by destruct (_ >? _). Qed.

Lemma held_wake q :
  held_bytes (wakeLocked q) = held_bytes q ∧ held_items (wakeLocked q) = held_items q.
Proof. unfold wakeLocked. by destruct (_ >? _). Qed.

Lemma accounted_refl q sh f : accounted q q sh (with_stats q f sh).
Proof. split; [done|]. rewrite !Z.sub_diag. apply charge_with_stats, charge_refl. Qed.

Lemma accounted_id q sh : accounted q q sh sh.
Proof. split; [done|]. rewrite !Z.sub_diag. apply charge_refl. Qed.

(** [q1] is [q] with a region edited; waking somebody changes no count. *)
Lemma accounted_wake q q1 d n sh sh' :
  config_eq q q1 → held_bytes q1 = held_bytes q + d → held_items q1 = held_items q + n →
  charge q d n sh sh' → accounted q (wakeLocked q1) sh sh'.
Proof.
  intros Hc Hb Hi Hch. split; [by eapply config_eq_trans, wakeLocked_config|].
  destruct (held_wake q1) as [-> ->]. rewrite Hb, Hi.
  by replace (held_bytes q + d - held_bytes q) with d by lia;
     replace (held_items q + n - held_items q) with n by lia.
Qed.

Lemma accounted_signal q q1 d n sh sh' :
  config_eq q q1 → held_bytes q1 = held_bytes q + d → held_items q1 = held_items q + n →
  charge q d n sh sh' → accounted q (signalFreeLocked q1) sh sh'.
Proof.
  intros Hc Hb Hi Hch. split; [by eapply config_eq_trans, signalFreeLocked_config|].
  destruct (held_signal q1) as [-> ->]. rewrite Hb, Hi.
  by replace (held_bytes q + d - held_bytes q) with d by lia;
     replace (held_items q + n - held_items q) with n by lia.
Qed.

Lemma accounted_acceptPrimary sh q it sh' q' :
  acceptPrimary sh q it = (sh', q') → accounted q q' sh sh'.
Proof.
  intros [-> Hch]%acceptPrimary_spec. eapply accounted_wake; [..|exact Hch]; [done| |].
  - unfold held_bytes. simpl. lia.
  - unfold held_items. simpl. rewrite zlen_snoc. lia.
Qed.

Lemma accounted_acceptCarry sh q it sh' q' :
  acceptCarry sh q it = (sh', q') → accounted q q' sh sh'.
Proof.
  intros [-> Hch]%acceptCarry_spec. eapply accounted_wake; [..|exact Hch]; [done| |].
  - unfold held_bytes. simpl. lia.
  - unfold held_items. simpl. rewrite zlen_snoc. lia.
Qed.

Lemma accounted_same q q' sh :
  config_eq q q' → held_bytes q' = held_bytes q → held_items q' = held_items q →
  accounted q q' sh sh.
Proof. intros ? Hb Hi. split; [done|]. rewrite Hb, Hi, !Z.sub_diag. apply charge_refl. Qed.

Lemma accounted_park_free q sh : accounted q (park_free q) sh sh.
Proof. unfold park_free. by destruct (free q); apply accounted_same. Qed.

Lemma accounted_park_wake q sh : accounted q (park_wake q) sh sh.
Proof. unfold park_wake. by destruct (wake q); apply accounted_same. Qed.

Lemma accounted_PushPark sh q it o sh' q' :
  PushPark sh q it = (o, sh', q') → accounted q q' sh sh'.
Proof.
  intros [(_ & _ & -> & ->)|[(_ & _ & Ha)|[(_ & _ & _ & Ha)|(c & _ & _ & _ & _ & -> & -> & _)]]]%PushPark_cases.
  - apply accounted_id.
  - by eapply accounted_acceptPrimary.
  - by eapply accounted_acceptCarry.
  - apply accounted_park_free.
Qed.

Lemma accounted_Pop sh q o sh' q' : Pop sh q = (o, sh', q') → accounted q q' sh sh'.
Proof.
  intros [(it & rest & Hi & -> & -> & Hch)|[(it & rest & Hi & Ho & -> & -> & Hch)
      |[(He & _ & -> & -> & ->)|(c & He & _ & -> & -> & _ & ->)]]]%Pop_cases.
  - eapply accounted_signal; [..|exact Hch]; [done| |].
    + unfold held_bytes. simpl. lia.
    + unfold held_items. simpl. rewrite Hi, zlen_cons. lia.
  - eapply accounted_signal; [..|exact Hch]; [done| |].
    + unfold held_bytes. simpl. lia.
    + unfold held_items. simpl. rewrite Ho, zlen_cons. lia.
  - apply accounted_id.
  - apply accounted_park_wake.
Qed.

Lemma accounted_Close sh q n sh' q' : Close sh q = (n, sh', q') → accounted q q' sh sh'.
Proof.
  intros [(_ & _ & -> & ->)|(_ & _ & -> & Hch)]%Close_cases; [apply accounted_id|].
  eapply accounted_signal; [..|exact Hch].
  - eapply config_eq_trans, wakeLocked_config. done.
  - destruct (held_wake (emptied q)) as [-> _]. unfold held_bytes. simpl. lia.
  - destruct (held_wake (emptied q)) as [_ ->]. unfold held_items. simpl.
    change (zlen (@nil queueItem)) with 0. lia.
Qed.

Lemma accounted_exec op sh q e sh' q' :
  data_op op = true → exec op sh q = (e, sh', q') → accounted q q' sh sh'.
Proof.
  destruct op; intros Hop; try done; cbn [exec].
  - destruct (TryPushReason _ _ _) as [[[ok r] sh1] q1] eqn:E. intros [= _ <- <-].
    apply TryPushReason_cases in E as [_ E].
    destruct ok; [by eapply accounted_acceptPrimary|destruct E as [-> ->]; apply accounted_refl].
  - destruct (TryCarry _ _ _) as [[[ok r] sh1] q1] eqn:E. intros [= _ <- <-].
    apply TryCarry_cases in E as [_ E].
    destruct ok; [by eapply accounted_acceptCarry|destruct E as [-> ->]; apply accounted_refl].
  - destruct (PushPark _ _ _) as [[o sh1] q1] eqn:E. intros [= _ <- <-]. by eapply accounted_PushPark.
  - destruct (Pop _ _) as [[o sh1] q1] eqn:E. intros [= _ <- <-]. by eapply accounted_Pop.
  - destruct (Close _ _) as [[n sh1] q1] eqn:E. intros [= _ <- <-]. by eapply accounted_Close.
Qed.

(** What an operation accepts was checked against the aggregate budget. *)
Lemma exec_accepts op sh q e sh' q' :
  exec op sh q = (e, sh', q') →
  accepted e = [] ∨ ∃ it, accepted e = [it] ∧ overBudget sh q it = false.
Proof.
  intros He.
  destruct op; cbn [exec] in He; [..|by left; simplify_eq|by left; simplify_eq|by left; simplify_eq|by left; simplify_eq].
  - destruct (TryPushReason _ _ _) as [[[ok r] sh1] q1] eqn:E. simplify_eq.
    apply TryPushReason_cases in E as [Hok _]. destruct ok; [right|by left].
    exists it. split; [done|]. symmetry in Hok. unfold fits_primary in Hok. by bools.
  - destruct (TryCarry _ _ _) as [[[ok r] sh1] q1] eqn:E. simplify_eq.
    apply TryCarry_cases in E as [Hok _]. destruct ok; [right|by left].
    exists it. split; [done|]. symmetry in Hok. unfold fits_carry in Hok. by bools.
  - destruct (PushPark _ _ _) as [[o sh1] q1] eqn:E. simplify_eq.
    apply PushPark_cases in E as [(-> & _)|[(-> & Hf & _)|[(-> & _ & Hf & _)|(c & -> & _)]]];
      [by left|right|right|by left]; exists it; (split; [done|]);
      unfold fits_primary, fits_carry in Hf; by bools.
  - destruct (Pop _ _) as [[o sh1] q1]. simplify_eq. by left.
  - destruct (Close _ _) as [[n sh1] q1]. simplify_eq. by left.
Qed.

Lemma held_bytes_contents q : qinv q → held_bytes q = bytes_of (contents q).
Proof.
  intros Hq. unfold held_bytes, contents.
  by rewrite bytes_of_app, (qi_bytes q Hq), (qi_obytes q Hq).
Qed.

(** Nothing is accepted over the aggregate limit. *)
Lemma exec_budget op sh q e sh' q' :
  qinv q → data_op op = true → exec op sh q = (e, sh', q') → budget q = true →
  sh_budget sh ≤ budgetLimitLocked q → sh_budget sh' ≤ budgetLimitLocked q.
Proof.
  intros Hq Hop He Hb Hle.
  pose proof (held_bytes_contents q Hq) as Hh.
  pose proof (held_bytes_contents q' (qinv_exec _ _ _ _ _ _ Hq He)) as Hh'.
  pose proof (accounted_exec _ _ _ _ _ _ Hop He) as [_ [Hch _]]. rewrite Hb in Hch.
  pose proof (f_equal bytes_of (exec_fifo _ _ _ _ _ _ He)) as Hf. rewrite !bytes_of_app in Hf.
  pose proof (bytes_of_nonneg (popped e)). pose proof (bytes_of_nonneg (dropped e)).
  destruct (exec_accepts _ _ _ _ _ _ He) as [Ha|(it & Ha & Hit)]; rewrite Ha in Hf.
  - unfold bytes_of in Hf at 2. simpl in Hf. lia.
  - unfold overBudget in Hit. rewrite Hb in Hit. cbn [andb] in Hit. bools.
    assert (bytes_of [it] = isize it) by (unfold bytes_of; simpl; lia). lia.
Qed.

(** ** Many mailboxes over one budget *)

Module Mailboxes.

(** The mailboxes of a carrier, in creation order, over the shared counters. *)
Record boxes := mkBoxes { bx_shared : shared; bx_queues : list StreamQueue }.

(** What can happen: a stream is opened (its mailbox gets the carrier's limits
    and points to the carrier's counters), or one critical section of one
    mailbox runs. *)
Inductive event :=
| EOpen (mf mb : Z)
| EOp (i : nat) (op : qop).

Definition bx_step (limit : Z) (ev : event) (b : boxes) : boxes :=
  match ev with
  | EOpen mf mb =>
      mkBoxes (bx_shared b)
        (bx_queues b ++ [setQueuedItems true (SetStats true (NewStreamQueue mf mb true limit))])
  | EOp i op =>
      match bx_queues b !! i with
      | Some q => let '(_, sh', q') := exec op (bx_shared b) q in mkBoxes sh' (<[i:=q']> (bx_queues b))
      | None => b
      end
  end.

Definition bx_run (limit : Z) (evs : list event) (b : boxes) : boxes :=
  foldl (λ b ev, bx_step limit ev b) b evs.

Definition bx_init : boxes := mkBoxes (mkShared 0 0 zeroStats) [].

Definition event_ok (ev : event) : bool :=
  match ev with EOpen _ _ => true | EOp _ op => data_op op end.

(** Every mailbox is well formed and attached to the counters, and the counters
    are exactly the sums over the mailboxes. *)
Record bxinv (limit : Z) (b : boxes) : Prop := {
  bi_q : Forall (λ q, qinv q ∧ budget q = true ∧ queuedItems q = true
                      ∧ budgetLimitLocked q = limit) (bx_queues b);
  bi_bytes : sh_budget (bx_shared b) = zsum held_bytes (bx_queues b);
  bi_items : sh_items (bx_shared b) = zsum held_items (bx_queues b);
  bi_limit : sh_budget (bx_shared b) ≤ limit
}.

Lemma bxinv_open limit b mf mb : bxinv limit b → bxinv limit (bx_step limit (EOpen mf mb) b).
Proof.
  intros []. constructor; simpl; [|rewrite zsum_app; simpl; change (held_bytes _) with 0; lia
                                  |rewrite zsum_app; simpl; change (held_items _) with 0; lia|done].
  apply Forall_app; split; [done|]. constructor; [|done]. split_and!; [|done..].
  by destruct (qinv_new mf mb true limit).
Qed.

Lemma bxinv_op limit b i op :
  bxinv limit b → data_op op = true → bxinv limit (bx_step limit (EOp i op) b).
Proof.
  intros [Hq Hb Hi Hl] Hop. cbn [bx_step].
  destruct (bx_queues b !! i) as [q|] eqn:Ei; [|done].
  destruct (exec op (bx_shared b) q) as [[e sh'] q'] eqn:E.
  destruct (Forall_lookup_1 _ _ _ _ Hq Ei) as (Hqi & Hbud & Hqit & Hlim).
  pose proof (accounted_exec _ _ _ _ _ _ Hop E) as
    [(_ & _ & Hbud' & Hqit' & Hlim' & _) [Hch1 Hch2]].
  rewrite Hbud in Hch1. rewrite Hqit in Hch2.
  constructor; simpl.
  - apply Forall_insert; [done|]. rewrite Hbud', Hqit', Hlim'.
    split_and!; [by eapply qinv_exec|done..].
  - rewrite (zsum_insert _ _ _ q) by done. lia.
  - rewrite (zsum_insert _ _ _ q) by done. lia.
  - rewrite <- Hlim. eapply exec_budget; try done. by rewrite Hlim.
Qed.

Lemma bxinv_run limit evs b :
  bxinv limit b → forallb event_ok evs = true → bxinv limit (bx_run limit evs b).
Proof.
  revert b. induction evs as [|ev evs IH]; intros b Hb Hok; [done|].
  simpl in Hok. bools. apply IH; [|done].
  destruct ev; [by apply bxinv_open|by apply bxinv_op].
Qed.

Lemma bxinv_init limit : 0 ≤ limit → bxinv limit bx_init.
Proof. by constructor. Qed.

Lemma held_closed q : qinv q → q_closed q = true → held_bytes q = 0 ∧ held_items q = 0.
Proof.
  intros Hq Hc. destruct (qi_closed q Hq Hc) as [Hi Ho].
  unfold held_bytes, held_items. by rewrite (qi_bytes q Hq), (qi_obytes q Hq), Hi, Ho.
Qed.

(** Aggregate memory accounting.  However the mailboxes of a carrier are
    opened, pushed to, popped from and closed, in any interleaving of their
    critical sections, the shared byte and item counters equal the sums of the
    bytes and items actually held by all mailboxes, the byte counter never
    exceeds the aggregate limit, and once every mailbox is closed both counters
    are back to zero: no byte is leaked or released twice. *)
Theorem aggregate_budget_exact limit evs :
  0 ≤ limit → forallb event_ok evs = true →
  let b := bx_run limit evs bx_init in
  sh_budget (bx_shared b) = zsum held_bytes (bx_queues b)
  ∧ sh_items (bx_shared b) = zsum held_items (bx_queues b)
  ∧ 0 ≤ sh_budget (bx_shared b) ≤ limit
  ∧ (Forall (λ q, q_closed q = true) (bx_queues b) →
     sh_budget (bx_shared b) = 0 ∧ sh_items (bx_shared b) = 0).
Proof.
  intros Hl Hok b. destruct (bxinv_run _ evs _ (bxinv_init limit Hl) Hok) as [Hq Hb Hi Hlim].
  fold b in Hq, Hb, Hi, Hlim. split_and!; [done|done| |done|].
  - rewrite Hb. clear -Hq. induction Hq as [|q l (Hq & _) _ IH]; simpl; [lia|].
    rewrite held_bytes_contents by done. pose proof (bytes_of_nonneg (contents q)). lia.
  - intros Hc. rewrite Hb, Hi. clear -Hq Hc. induction Hq as [|q l (Hq & _) _ IH]; [done|].
    inversion Hc; subst. destruct (held_closed q) as [H1' H2']; [done..|].
    destruct IH as [H3 H4]; [done|]. simpl. by rewrite H1', H2', H3, H4.
Qed.

Definition item (n : nat) : queueItem := mkItem (replicate n (zb 7)) false.

Lemma aggregate_budget_exact_witness :
  let b := bx_run 10 [EOpen 4 8; EOpen 4 8; EOp 0 (OTryPush (item 6)); EOp 1 (OPushPark (item 3));
                      EOp 1 (OTryPush (item 2)); EOp 0 OPop; EOp 1 OClose] bx_init in
  sh_budget (bx_shared b) = zsum held_bytes (bx_queues b) ∧ 0 ≤ sh_budget (bx_shared b) ≤ 10.
Proof.
  destruct (aggregate_budget_exact 10
    [EOpen 4 8; EOpen 4 8; EOp 0 (OTryPush (item 6)); EOp 1 (OPushPark (item 3));
     EOp 1 (OTryPush (item 2)); EOp 0 OPop; EOp 1 OClose] ltac:(lia) eq_refl) as (H1 & _ & H2 & _).
  split; [exact H1|exact H2].
Defined.

End Mailboxes.

(** ** The dispatcher and the worker of one mailbox *)

Module Threads.

(** The dispatcher has the items [todo] to deliver and is inside PushPark for
    the first; [p_wait] is the channel it is parked on.  The worker loops on
    Pop; [c_wait] is the channel it is parked on and [c_done] is set when Pop
    reported the mailbox closed. *)
Record sys := mkSys {
  s_shared : shared;
  s_q : StreamQueue;
  todo : list queueItem;
  p_wait : option chan;
  got : list queueItem;
  c_wait : option chan;
  c_done : bool
}.

#[export] Instance sys_expandable : Expandable sys := {| expand := λ s,
  mkSys (s_shared s) (s_q s) (todo s) (p_wait s) (got s) (c_wait s) (c_done s) |}.

(** A receive on a channel nobody sends to returns only when it is closed. *)
Definition released (w : option chan) (q : StreamQueue) : bool :=
  match w with None => true | Some c => bool_decide (c ∈ closedChans q) end.

(** One critical section of the dispatcher; [None]: it cannot move. *)
Definition push_step (s : sys) : option sys :=
  match todo s with
  | [] => None
  | it :: rest =>
    if released (p_wait s) (s_q s) then
      let '(o, sh', q') := PushPark (s_shared s) (s_q s) it in
      let s' := s <| s_shared := sh' |> <| s_q := q' |> in
      Some match o with
           | PushAccepted_ => s' <| todo := rest |> <| p_wait := None |>
           | PushClosed => s' <| todo := [] |> <| p_wait := None |>
           | PushParked c => s' <| p_wait := Some c |>
           end
    else None
  end.

Definition pop_step (s : sys) : option sys :=
  if c_done s then None
  else if released (c_wait s) (s_q s) then
    let '(o, sh', q') := Pop (s_shared s) (s_q s) in
    let s' := s <| s_shared := sh' |> <| s_q := q' |> in
    Some match o with
         | Popped it => s' <| got := got s ++ [it] |> <| c_wait := None |>
         | PopClosed => s' <| c_done := true |> <| c_wait := None |>
         | PopParked c => s' <| c_wait := Some c |>
         end
  else None.

Definition close_step (s : sys) : sys :=
  let '(_, sh', q') := Close (s_shared s) (s_q s) in s <| s_shared := sh' |> <| s_q := q' |>.

Inductive step : sys → sys → Prop :=
| step_push s s' : push_step s = Some s' → step s s'
| step_pop s s' : pop_step s = Some s' → step s s'
| step_close s : step s (close_step s).

Definition init (mf mb limit : Z) (its : list queueItem) : sys :=
  mkSys (mkShared 0 0 zeroStats) (setQueuedItems true (NewStreamQueue mf mb true limit))
    its None [] None false.

(** The wake-up discipline: a goroutine parked on a channel that was not closed
    is still registered in the mailbox, and the registered pusher's item is one
    the mailbox refuses right now. *)
Record tinv (mf mb limit : Z) (s : sys) : Prop := {
  t_q : qinv (s_q s);
  t_config : maxFrames (s_q s) = mf ∧ maxBytes (s_q s) = mb
             ∧ budget (s_q s) = true ∧ budgetLimitLocked (s_q s) = limit;
  t_budget : sh_budget (s_shared s) = held_bytes (s_q s);
  t_todo : Forall (λ it, isize it ≤ mb ∧ isize it ≤ limit) (todo s);
  t_push : ∀ c, p_wait s = Some c → c ∉ closedChans (s_q s) →
    free (s_q s) = Some c ∧ 0 < nFreeWaiters (s_q s)
    ∧ ∃ it rest, todo s = it :: rest ∧ fits_primary (s_shared s) (s_q s) it = false;
  t_pop : ∀ c, c_wait s = Some c → c ∉ closedChans (s_q s) →
    wake (s_q s) = Some c ∧ 0 < nWaiters (s_q s);
  t_done : c_done s = true → q_closed (s_q s) = true
}.

(** Effects of the two wake-ups on the channels. *)
Lemma wakeLocked_chans q :
  free (wakeLocked q) = free q ∧ nFreeWaiters (wakeLocked q) = nFreeWaiters q
  ∧ closedChans q ⊆ closedChans (wakeLocked q)
  ∧ (∀ c, wake q = Some c → 0 < nWaiters q → c ∈ closedChans (wakeLocked q)).
Proof.
  unfold wakeLocked. destruct (nWaiters q >? 0) eqn:E; bools; simpl.
  - destruct (wake q); set_solver.
  - split_and!; try done. lia.
Qed.

Lemma signalFreeLocked_chans q :
  wake (signalFreeLocked q) = wake q ∧ nWaiters (signalFreeLocked q) = nWaiters q
  ∧ closedChans q ⊆ closedChans (signalFreeLocked q)
  ∧ (∀ c, free q = Some c → 0 < nFreeWaiters q → c ∈ closedChans (signalFreeLocked q)).
Proof.
  unfold signalFreeLocked. destruct (nFreeWaiters q >? 0) eqn:E; bools; simpl.
  - destruct (free q); set_solver.
  - split_and!; try done. lia.
Qed.

(** What an accepting push does to the channels: parked poppers are released,
    the pusher's own registration is untouched. *)
Lemma accept_chans sh q it sh' q' :
  acceptPrimary sh q it = (sh', q') ∨ acceptCarry sh q it = (sh', q') →
  closedChans q ⊆ closedChans q'
  ∧ (∀ c, wake q = Some c → 0 < nWaiters q → c ∈ closedChans q').
Proof.
  intros [[-> _]%acceptPrimary_spec|[-> _]%acceptCarry_spec].
  - by destruct (wakeLocked_chans (q <| items := items q ++ [it] |> <| nBytes := nBytes q + isize it |>))
      as (_ & _ & ? & ?).
  - by destruct (wakeLocked_chans (q <| overflow := overflow q ++ [it] |>
                  <| overflowBytes := overflowBytes q + isize it |>)) as (_ & _ & ? & ?).
Qed.

Lemma config_kept q q' (mf mb limit : Z) :
  config_eq q q' → maxFrames q = mf ∧ maxBytes q = mb ∧ budget q = true ∧ budgetLimitLocked q = limit →
  maxFrames q' = mf ∧ maxBytes q' = mb ∧ budget q' = true ∧ budgetLimitLocked q' = limit.
Proof. intros (? & ? & ? & _ & ? & _) (? & ? & ? & ?). repeat split; congruence. Qed.

Lemma budget_kept q q' sh sh' :
  budget q = true → accounted q q' sh sh' → sh_budget sh = held_bytes q →
  sh_budget sh' = held_bytes q'.
Proof. intros Hb [_ [Hc _]] Hs. rewrite Hb in Hc. lia. Qed.

(** Whether an item fits does not depend on the registrations. *)
Lemma fits_primary_park_wake sh q it : fits_primary sh (park_wake q) it = fits_primary sh q it.
Proof. unfold park_wake. by destruct (wake q). Qed.

Lemma fits_primary_park_free sh q it : fits_primary sh (park_free q) it = fits_primary sh q it.
Proof. unfold park_free. by destruct (free q). Qed.

Lemma park_free_chans q :
  closedChans (park_free q) = closedChans q ∧ wake (park_free q) = wake q
  ∧ nWaiters (park_free q) = nWaiters q ∧ nFreeWaiters (park_free q) = nFreeWaiters q + 1.
Proof. unfold park_free. by destruct (free q). Qed.

Lemma park_wake_chans q :
  closedChans (park_wake q) = closedChans q ∧ free (park_wake q) = free q
  ∧ nFreeWaiters (park_wake q) = nFreeWaiters q ∧ nWaiters (park_wake q) = nWaiters q + 1.
Proof. unfold park_wake. by destruct (wake q). Qed.

#[local] Opaque park_free park_wake.

Lemma tinv_push mf mb limit s s' : tinv mf mb limit s → push_step s = Some s' → tinv mf mb limit s'.
Proof.
  intros [Hq Hcf Hb Ht Hpu Hpo Hd] Hs. unfold push_step in Hs.
  destruct (todo s) as [|it rest] eqn:Et; [done|].
  destruct (released (p_wait s) (s_q s)) eqn:Er; [|done].
  destruct (PushPark (s_shared s) (s_q s) it) as [[o sh'] q'] eqn:E.
  pose proof (accounted_PushPark _ _ _ _ _ _ E) as Hacc.
  pose proof (qinv_PushPark _ _ _ _ _ _ Hq E) as Hq'.
  pose proof (config_kept _ _ _ _ _ (proj1 Hacc) Hcf) as Hcf'.
  pose proof (budget_kept _ _ _ _ (proj1 (proj2 (proj2 Hcf))) Hacc Hb) as Hb'.
  apply PushPark_cases in E as [(-> & Hc & -> & ->)|[(-> & Hf & Ha)|[(-> & _ & Hf & Ha)
    |(c & -> & Hc & Hf & _ & -> & -> & Hfr)]]].
  - simplify_eq. constructor; simpl; try done.
  - destruct (accept_chans _ _ _ _ _ (or_introl Ha)) as [Hsub Hwk].
    simplify_eq. constructor; simpl; try done.
    + by inversion Ht.
    + intros c Hc Hnc. destruct (Hpo c Hc); set_solver.
    + intros ?%Hd. unfold fits_primary in Hf. by rewrite H in Hf.
  - destruct (accept_chans _ _ _ _ _ (or_intror Ha)) as [Hsub Hwk].
    simplify_eq. constructor; simpl; try done.
    + by inversion Ht.
    + intros c Hc Hnc. destruct (Hpo c Hc); set_solver.
    + intros ?%Hd. unfold fits_carry in Hf. by rewrite H in Hf.
  - destruct (park_free_chans (s_q s)) as (Hp1 & Hp2 & Hp3 & Hp4).
    simplify_eq. constructor; simpl; rewrite ?Hp1, ?Hp2, ?Hp3, ?Hp4; try done.
    + by rewrite Et.
    + intros c' [= <-] _. split; [done|]. pose proof (qi_waiters _ Hq). split; [lia|].
      exists it, rest. split; [done|]. by rewrite fits_primary_park_free.
    + intros ?%Hd. congruence.
Qed.

Lemma tinv_pop mf mb limit s s' : tinv mf mb limit s → pop_step s = Some s' → tinv mf mb limit s'.
Proof.
  intros [Hq Hcf Hb Ht Hpu Hpo Hd] Hs. unfold pop_step in Hs.
  destruct (c_done s) eqn:Edn; [done|].
  destruct (released (c_wait s) (s_q s)) eqn:Er; [|done].
  destruct (Pop (s_shared s) (s_q s)) as [[o sh'] q'] eqn:E.
  pose proof (accounted_Pop _ _ _ _ _ E) as Hacc.
  pose proof (qinv_Pop _ _ _ _ _ Hq E) as Hq'.
  pose proof (config_kept _ _ _ _ _ (proj1 Hacc) Hcf) as Hcf'.
  pose proof (budget_kept _ _ _ _ (proj1 (proj2 (proj2 Hcf))) Hacc Hb) as Hb'.
  assert (∀ q1, q' = signalFreeLocked q1 → closedChans q1 = closedChans (s_q s) →
            free q1 = free (s_q s) → nFreeWaiters q1 = nFreeWaiters (s_q s) →
            ∀ c, p_wait s = Some c → c ∈ closedChans q') as Hrel.
  { intros q1 -> H1 H2 H3 c Hc. destruct (signalFreeLocked_chans q1) as (_ & _ & Hsub & Hin).
    destruct (decide (c ∈ closedChans (s_q s))) as [?|Hn]; [set_solver|].
    destruct (Hpu c Hc Hn) as (? & ? & _). apply Hin; congruence. }
  apply Pop_cases in E as [(it & rest & Hi & -> & Hq1 & _)|[(it & rest & Hi & Ho & -> & Hq1 & _)
      |[(He & Hc & -> & -> & ->)|(c & He & Hc & -> & -> & Hw & ->)]]].
  - simplify_eq. constructor; try done; simpl; [|by rewrite Edn].
    intros c Hc Hn. by destruct Hn; apply (Hrel _ eq_refl).
  - simplify_eq. constructor; try done; simpl; [|by rewrite Edn].
    intros c Hc Hn. by destruct Hn; apply (Hrel _ eq_refl).
  - simplify_eq. by constructor.
  - destruct (park_wake_chans (s_q s)) as (Hp1 & Hp2 & Hp3 & Hp4).
    simplify_eq. constructor; simpl; rewrite ?Hp1, ?Hp2, ?Hp3, ?Hp4; try done.
    + setoid_rewrite fits_primary_park_wake. done.
    + intros c' [= <-] _. split; [done|]. pose proof (qi_waiters _ Hq). lia.
    + by rewrite Edn.
Qed.

Lemma tinv_close mf mb limit s : tinv mf mb limit s → tinv mf mb limit (close_step s).
Proof.
  intros Hs. pose proof Hs as [Hq Hcf Hb Ht Hpu Hpo Hd]. unfold close_step.
  destruct (Close (s_shared s) (s_q s)) as [[n sh'] q'] eqn:E.
  pose proof (accounted_Close _ _ _ _ _ E) as Hacc.
  pose proof (qinv_Close _ _ _ _ _ Hq E) as Hq'.
  pose proof (config_kept _ _ _ _ _ (proj1 Hacc) Hcf) as Hcf'.
  pose proof (budget_kept _ _ _ _ (proj1 (proj2 (proj2 Hcf))) Hacc Hb) as Hb'.
  apply Close_cases in E as [(Hc & _ & -> & ->)|(Hc & _ & -> & _)]; [by destruct s|].
  destruct (wakeLocked_chans (emptied (s_q s))) as (Hf & Hn & Hs1 & Hin1).
  destruct (signalFreeLocked_chans (wakeLocked (emptied (s_q s)))) as (_ & _ & Hs2 & Hin2).
  constructor; try done; simpl.
  - intros c Hcw Hnc. destruct Hnc. destruct (decide (c ∈ closedChans (s_q s))) as [?|Hn']; [set_solver|].
    destruct (Hpu c Hcw Hn') as (? & ? & _). apply Hin2; [by rewrite Hf|by rewrite Hn].
  - intros c Hcw Hnc. destruct Hnc. destruct (decide (c ∈ closedChans (s_q s))) as [?|Hn']; [set_solver|].
    destruct (Hpo c Hcw Hn') as (? & ?). by apply Hs2, Hin1.
  - intros ?%Hd. congruence.
Qed.

Lemma tinv_step mf mb limit s s' : tinv mf mb limit s → step s s' → tinv mf mb limit s'.
Proof.
  intros Hs Hst. destruct Hst; [by eapply tinv_push|by eapply tinv_pop|by apply tinv_close].
Qed.

Lemma tinv_init mf mb limit its :
  Forall (λ it, isize it ≤ mb ∧ isize it ≤ limit) its → tinv mf mb limit (init mf mb limit its).
Proof.
  intros. constructor; simpl; try done. by destruct (qinv_new mf mb true limit).
Qed.

Lemma tinv_reachable mf mb limit its s :
  Forall (λ it, isize it ≤ mb ∧ isize it ≤ limit) its →
  rtc step (init mf mb limit its) s → tinv mf mb limit s.
Proof.
  intros Hits Hr. cut (tinv mf mb limit (init mf mb limit its)); [|by apply tinv_init].
  induction Hr; [done|]. eauto using tinv_step.
Qed.

(** No lost wakeup and no deadlock in a lone mailbox.  Let the dispatcher
    deliver any items that individually fit an empty mailbox, and the worker
    loop on Pop, interleaved arbitrarily at critical-section granularity and
    with Close at any time.  In every reachable state either one of the two
    can take a step, or the dispatcher has nothing left to deliver and the
    mailbox is empty: a parked goroutine is never forgotten while there is
    work it could do. *)
Theorem mailbox_no_lost_wakeup mf mb limit its s :
  0 < mf → Forall (λ it, isize it ≤ mb ∧ isize it ≤ limit) its →
  rtc step (init mf mb limit its) s →
  is_Some (push_step s) ∨ is_Some (pop_step s)
  ∨ (todo s = [] ∧ contents (s_q s) = []).
Proof.
  intros Hmf Hits Hr. destruct (tinv_reachable _ _ _ _ _ Hits Hr) as [Hq Hcf Hb Ht Hpu Hpo Hd].
  destruct (pop_step s) as [s'|] eqn:Epop; [right; left; done|].
  assert (contents (s_q s) = []) as Hn.
  { unfold pop_step in Epop. destruct (c_done s) eqn:Ed.
    - unfold contents. by destruct (qi_closed _ Hq (Hd eq_refl)) as [-> ->].
    - destruct (c_wait s) as [c|]; simpl in Epop; [|by destruct (Pop _ _) as [[[] ?] ?]].
      case_bool_decide as Hin; [by destruct (Pop _ _) as [[[] ?] ?]|].
      destruct (Hpo c eq_refl Hin) as [_ Hw]. by apply (qi_wake _ Hq Hw). }
  destruct (todo s) as [|it rest] eqn:Et; [by right; right|left].
  unfold push_step. rewrite Et. destruct (released (p_wait s) (s_q s)) eqn:Er;
    [by destruct (PushPark _ _ _) as [[[] ?] ?]|].
  destruct (p_wait s) as [c|]; [|done]. simpl in Er. bools.
  destruct (Hpu c eq_refl Er) as (_ & Hw & it' & rest' & [= <- <-] & Hfit).
  apply app_eq_nil in Hn as [Hi Ho]. inversion_clear Ht as [|? ? [Hs1 Hs2] _].
  assert (fits_primary (s_shared s) (s_q s) it = true); [|congruence].
  apply fits_primary_iff. destruct Hcf as (-> & -> & _ & ->).
  unfold held_bytes in Hb. rewrite (qi_bytes _ Hq), (qi_obytes _ Hq), Hi, Ho in *.
  split_and!; [by destruct (qi_free _ Hq Hw)|done|by unfold zlen; simpl; lia|done|].
  intros _. rewrite Hb. done.
Qed.

Definition item (n : nat) : queueItem := mkItem (replicate n (zb 7)) false.

Lemma mailbox_no_lost_wakeup_witness :
  is_Some (push_step (init 1 10 10 [item 9; item 2]))
  ∨ is_Some (pop_step (init 1 10 10 [item 9; item 2])).
Proof.
  destruct (mailbox_no_lost_wakeup 1 10 10 [item 9; item 2] (init 1 10 10 [item 9; item 2]))
    as [H|[H|[H _]]]; [lia| |apply rtc_refl|by left|by right|discriminate H].
  repeat constructor; unfold isize, zlen; simpl; lia.
Defined.

End Threads.

(** ** Two mailboxes: a wakeup that is never sent

    PushPark also parks on the aggregate budget, which the Pop of another
    mailbox frees; only a Pop of the same mailbox signals its parked pusher. *)

Module CrossMailbox.
Import Mailboxes.

Definition b0 : boxes :=
  bx_run 10 [EOpen 1 10; EOpen 1 10;
             EOp 0 (OPushPark (item 9)); EOp 1 (OPushPark (item 1))] bx_init.

(** The dispatcher parks on mailbox 1 with a 2-byte item; mailbox 1's worker
    pops (the dispatcher retries and parks again, now on the budget mailbox 0
    holds); then mailbox 0's worker pops. *)
Definition b1 : boxes :=
  bx_run 10 [EOp 1 (OPushPark (item 2)); EOp 1 OPop; EOp 1 (OPushPark (item 2)); EOp 0 OPop] b0.

(** Both mailboxes are empty, the budget is fully free and the item would fit,
    yet the dispatcher is still registered as parked on an open channel, no
    worker has anything to pop, and a further Pop of either mailbox parks
    without waking it. *)
Lemma cross_mailbox_lost_wakeup :
  sh_budget (bx_shared b1) = 0
  ∧ map contents (bx_queues b1) = [[]; []]
  ∧ match bx_queues b1 !! 1%nat with
    | Some q => nFreeWaiters q = 1 ∧ fits_primary (bx_shared b1) q (item 2) = true
                ∧ match free q with Some c => bool_decide (c ∈ closedChans q) = false | None => False end
    | None => False
    end
  ∧ map (λ q, (nFreeWaiters q, free q, closedChans q)) (bx_queues (bx_run 10 [EOp 0 OPop; EOp 1 OPop] b1))
    = map (λ q, (nFreeWaiters q, free q, closedChans q)) (bx_queues b1).
Proof. vm_compute. by repeat split. Qed.

End CrossMailbox.
