(* ===== verification/Backoff.v ===== *)
(** * The reconnect schedule (src/internal/backoff/backoff.go)

    [time.Duration] is an [int64] of nanoseconds, so the doubling by a left
    shift and the cumulative counter wrap around.  The random source is an
    argument of [Sleep]: the value [rnd.Int63n(n)] returned. *)
From S2P Require Export Prelude.
#[local] Open Scope Z_scope.

Definition millisecond : Z := 1000000.
Definition second : Z := 1000000000.

Record Backoff := mkBackoff {
  base : Z;
  max : Z;
  attempts : Z;
  window : Z;
  clamp : Z;
  slept : Z
}.

#[export] Instance Backoff_expandable : Expandable Backoff := {| expand := λ b,
  mkBackoff (base b) (max b) (attempts b) (window b) (clamp b) (slept b) |}.

Definition NewBounded (base max window clamp : Z) : Backoff :=
  let base := if base <=? 0 then millisecond else base in
  let max := if max <? base then base else max in
  let clamp := if (clamp >? 0) && (clamp >? max) then max else clamp in
  let window := if (window >? 0) && (clamp <=? 0) then 0 else window in
  let clamp := if (window <=? 0) && (clamp >? 0) then 0 else clamp in
  mkBackoff base max 0 window clamp 0.

Definition New (base max : Z) : Backoff := NewBounded base max 0 0.

(** [b.base << exp] on an int64. *)
Definition shl64 (x n : Z) : Z := wraps 64 (Z.shiftl x n).

Definition WindowExhausted (b : Backoff) : bool :=
  (window b >? 0) && (clamp b >? 0) && (slept b >=? window b).

Definition Next (b : Backoff) : Z * Backoff :=
  let exp := if attempts b >? 30 then 30 else attempts b in
  let d := shl64 (base b) exp in
  let d := if (d <=? 0) || (d >? max b) then max b else d in
  let d := if (window b >? 0) && (clamp b >? 0) && (slept b >=? window b) && (clamp b <? d)
           then clamp b else d in
  (d, b <| slept := wraps 64 (slept b + d) |> <| attempts := attempts b + 1 |>).

Definition Attempts (b : Backoff) : Z := attempts b.

Definition Reset (b : Backoff) : Backoff := b <| attempts := 0 |> <| slept := 0 |>.

(** The delay Sleep waits for, before the race with [ctx.Done()]; [r] is the
    value drawn from [Int63n(d/2 + 1)]. *)
Definition Sleep (b : Backoff) (r : Z) : Z * Backoff :=
  let '(d, b') := Next b in
  let j := Z.quot d 2 in
  ((if Z.quot d 2 >? 0 then j + r else j), b').

(** The range of [Int63n]'s argument for the delay [d]. *)
Definition draw_ok (d r : Z) : Prop := 0 ≤ r < Z.quot d 2 + 1.

(** ** Schedules *)

(** The delays handed out by [n] consecutive calls of Next. *)
Fixpoint delays (n : nat) (b : Backoff) : list Z :=
  match n with
  | O => []
  | S n => let '(d, b') := Next b in d :: delays n b'
  end.

Fixpoint after (n : nat) (b : Backoff) : Backoff :=
  match n with O => b | S n => after n (snd (Next b)) end.

(** ** Invariant *)

Record binv (b : Backoff) : Prop := {
  b_base : 0 < base b;
  b_max : base b ≤ max b < 2 ^ 63;
  b_clamp : 0 ≤ clamp b → clamp b ≤ max b;
  b_window : 0 < window b → 0 < clamp b;
  b_attempts : 0 ≤ attempts b
}.

Lemma binv_new ba mx w c : in_s 64 ba → in_s 64 mx → binv (NewBounded ba mx w c).
Proof.
  unfold in_s, NewBounded, millisecond. intros Hb Hm.
  destruct (ba <=? 0) eqn:E1; bools; constructor; simpl; repeat case_match; bools; lia.
Qed.

Lemma shl64_double ba k :
  0 < ba → 0 ≤ k → ba * 2 ^ k < 2 ^ 63 → shl64 ba k = ba * 2 ^ k.
Proof.
  intros. unfold shl64. rewrite Z.shiftl_mul_pow2 by lia. apply wraps_id; [lia|].
  unfold in_s. simpl. nia.
Qed.

(** What Next returns before the window clamp: the doubled base, capped.  The
    cap also absorbs the shifts that overflow: an int64 in [1, 2^63) shifted
    left by at most 30 either stays positive or is caught. *)
Definition exponential (b : Backoff) : Z :=
  let e := Z.min (attempts b) 30 in
  let d := shl64 (base b) e in
  if (d <=? 0) || (d >? max b) then max b else d.

Lemma exponential_range b : binv b → 0 < exponential b ≤ max b.
Proof.
  intros []. unfold exponential. destruct ((_ <=? 0) || _) eqn:E; bools; [lia|]. lia.
Qed.

(** Without overflow the cap is the minimum. *)
Lemma exponential_min b :
  binv b → base b * 2 ^ Z.min (attempts b) 30 < 2 ^ 63 →
  exponential b = Z.min (base b * 2 ^ Z.min (attempts b) 30) (max b).
Proof.
  intros [] Hov. unfold exponential. rewrite shl64_double by lia.
  destruct ((_ <=? 0) || _) eqn:E; bools; [|lia].
  pose proof (Z.pow_pos_nonneg 2 (Z.min (attempts b) 30) ltac:(lia) ltac:(lia)). nia.
Qed.

Lemma Next_delay b :
  fst (Next b) = if WindowExhausted b && (clamp b <? exponential b) then clamp b else exponential b.
Proof.
  unfold Next, WindowExhausted, exponential. simpl.
  replace (Z.min (attempts b) 30) with (if attempts b >? 30 then 30 else attempts b); [done|].
  destruct (_ >? 30) eqn:E; bools; lia.
Qed.

Lemma binv_next b : binv b → binv (snd (Next b)).
Proof. intros []. constructor; simpl; lia. Qed.

Lemma Next_range b : binv b → 0 < fst (Next b) ≤ max b.
Proof.
  intros Hb. pose proof (exponential_range b Hb). rewrite Next_delay.
  destruct (_ && _) eqn:E; [|done]. unfold WindowExhausted in E. bools. lia.
Qed.

Lemma Next_config b :
  max (snd (Next b)) = max b ∧ base (snd (Next b)) = base b ∧ window (snd (Next b)) = window b
  ∧ clamp (snd (Next b)) = clamp b ∧ attempts (snd (Next b)) = attempts b + 1.
Proof. done. Qed.

Lemma after_S n b : after (S n) b = snd (Next (after n b)).
Proof. revert b. induction n as [|n IH]; intros b; [done|]. cbn [after] in *. apply IH. Qed.

Lemma after_inv n b :
  binv b → binv (after n b) ∧ max (after n b) = max b ∧ base (after n b) = base b
           ∧ window (after n b) = window b ∧ clamp (after n b) = clamp b
           ∧ attempts (after n b) = attempts b + Z.of_nat n.
Proof.
  revert b. induction n as [|n IH]; intros b Hb.
  - cbn [after]. split_and!; try done. lia.
  - cbn [after]. destruct (IH _ (binv_next b Hb)) as (? & ? & ? & ? & ? & ->).
    split_and!; try done. simpl. lia.
Qed.

Lemma delays_lookup n b i : (i < n)%nat → delays n b !! i = Some (fst (Next (after i b))).
Proof.
  revert b i. induction n as [|n IH]; intros b [|i] Hi; [lia|lia|done|].
  cbn [delays after]. destruct (Next b) as [d b'] eqn:E. simpl. apply IH. lia.
Qed.

(** Every delay is a real delay under a real cap.  For any construction
    arguments that are int64 durations, however often Next was called and
    however large the base is (including when [base << 30] overflows int64),
    each delay is positive (no busy loop) and at most the sanitized maximum,
    and the jittered sleep lies in [d/2, d], so it never exceeds that cap. *)
Theorem backoff_delay_bounds ba mx w c n r :
  in_s 64 ba → in_s 64 mx →
  let b := after n (NewBounded ba mx w c) in
  let d := fst (Next b) in
  0 < d ≤ max (NewBounded ba mx w c)
  ∧ (draw_ok d r → Z.quot d 2 ≤ fst (Sleep b r) ≤ d).
Proof.
  intros Hba Hmx b d. pose proof (binv_new ba mx w c Hba Hmx) as Hb.
  destruct (after_inv n _ Hb) as (Hb' & <- & _). fold b in Hb' |- *.
  pose proof (Next_range b Hb') as Hd. fold d in Hd. split; [done|].
  unfold Sleep, draw_ok. rewrite (surjective_pairing (Next b)). fold d. simpl.
  pose proof (Z.quot_div_nonneg d 2 ltac:(lia) ltac:(lia)).
  pose proof (Z.div_mod d 2 ltac:(lia)). pose proof (Z.mod_pos_bound d 2 ltac:(lia)).
  destruct (_ >? 0) eqn:E; bools; lia.
Qed.

Lemma backoff_delay_bounds_witness :
  0 < fst (Next (after 40 (NewBounded (2 ^ 40) (2 ^ 62) 0 0))) ≤ 2 ^ 62.
Proof.
  apply (backoff_delay_bounds (2 ^ 40) (2 ^ 62) 0 0 40 0); unfold in_s; lia.
Defined.

(** The documented schedule.  Without a window, and as long as the doubled
    base fits an int64 (30 doublings at most are used), the (i+1)-st delay
    after a Reset is [min(base * 2^min(i,30), max)], so the schedule is
    monotone up to the cap. *)
Theorem backoff_schedule ba mx n i :
  0 < ba → ba ≤ mx → mx < 2 ^ 63 → ba * 2 ^ 30 < 2 ^ 63 → (i < n)%nat →
  delays n (Reset (New ba mx)) !! i = Some (Z.min (ba * 2 ^ Z.min (Z.of_nat i) 30) mx).
Proof.
  intros H1 H2 H3 H4 Hi. rewrite delays_lookup by done. f_equal. rewrite Next_delay.
  assert (Reset (New ba mx) = mkBackoff ba mx 0 0 0 0) as ->.
  { unfold New, NewBounded, Reset. simpl.
    destruct (ba <=? 0) eqn:E1; bools; [lia|].
    destruct (mx <? ba) eqn:E2; bools; [lia|]. done. }
  set (b := mkBackoff ba mx 0 0 0 0).
  assert (binv b) as Hb by (constructor; simpl; lia).
  destruct (after_inv i b Hb) as (Hb' & Hm & Hbs & Hw & Hc & Ha).
  unfold WindowExhausted. rewrite Hw. change (window b >? 0) with false. cbn [andb].
  rewrite exponential_min; [|done|]; rewrite ?Hbs, ?Hm, ?Ha; simpl; [done|].
  eapply Z.le_lt_trans; [|exact H4]. apply Z.mul_le_mono_nonneg_l; [lia|].
  apply Z.pow_le_mono_r; lia.
Qed.

Lemma backoff_schedule_witness :
  delays 7 (Reset (New (2 * second) (60 * second))) !! 5%nat = Some (60 * second).
Proof.
  rewrite (backoff_schedule (2 * second) (60 * second) 7 5)
    by (unfold second; lia). reflexivity.
Defined.

Lemma Next_slept b :
  - 2 ^ 63 ≤ slept b + fst (Next b) < 2 ^ 63 → slept (snd (Next b)) = slept b + fst (Next b).
Proof. intros H. unfold Next. cbn. apply wraps_id; [lia|]. exact H. Qed.

Lemma delays_length n b : length (delays n b) = n.
Proof. revert b. induction n as [|n IH]; intros b; [done|]. cbn. by rewrite IH. Qed.

(** Sum of the first delays, which is what [slept] counts. *)
Lemma slept_sum n b :
  binv b → slept b + Z.of_nat n * max b < 2 ^ 63 → 0 ≤ slept b →
  slept (after n b) = slept b + zsum id (delays n b)
  ∧ Forall (λ d, 0 < d ≤ max b) (delays n b).
Proof.
  revert b. induction n as [|n IH]; intros b Hb Hs H0; cbn [after delays]; [simpl; split; [lia|done]|].
  pose proof (Next_range b Hb) as Hd. pose proof (binv_next b Hb) as Hb'.
  pose proof (Next_slept b ltac:(nia)) as Hsl.
  destruct (Next_config b) as (Hm & _).
  destruct (Next b) as [d b']. cbn [fst snd] in *. rewrite <- Hm in *.
  destruct (IH b' Hb') as [IH1 IH2]; [nia|lia|].
  split; [|by constructor]. rewrite IH1, Hsl. cbn [zsum foldr]. unfold zsum, id. lia.
Qed.

(** Valid arguments are kept as they are. *)
Lemma NewBounded_valid ba mx w c :
  0 < ba → ba ≤ mx → 0 < w → 0 < c → c ≤ mx → NewBounded ba mx w c = mkBackoff ba mx 0 w c 0.
Proof.
  intros. unfold NewBounded. destruct (ba <=? 0) eqn:E1; bools; [lia|].
  destruct (mx <? ba) eqn:E2; bools; [lia|]. destruct (c >? mx) eqn:E3; bools; [lia|].
  rewrite andb_false_r. destruct (c <=? 0) eqn:E4; bools; [lia|]. rewrite andb_false_r.
  destruct (w <=? 0) eqn:E5; bools; [lia|]. done.
Qed.

(** The bounded reconnect window.  With a window and a clamp, once the
    cumulative nominal delay since the last Reset has reached the window every
    further delay is at most the clamp (until int64 arithmetic on the
    cumulative counter would overflow); and the cumulative delay at the moment
    the clamp engages is below [window + max]. *)
Theorem backoff_window_clamps ba mx w c n :
  0 < ba → ba ≤ mx → 0 < w → 0 < c → c ≤ mx → w + mx + Z.of_nat n * mx < 2 ^ 63 →
  let b0 := NewBounded ba mx w c in
  let b := after n b0 in
  (WindowExhausted b = true → fst (Next b) ≤ c ∧ WindowExhausted (snd (Next b)) = true)
  ∧ (WindowExhausted b = false → slept (snd (Next b)) < w + mx).
Proof.
  intros H1 H2 Hw Hc Hcm Hov b0 b.
  assert (b0 = mkBackoff ba mx 0 w c 0) as Hb0 by (by apply NewBounded_valid).
  assert (binv b0) as Hb by (rewrite Hb0; constructor; simpl; nia).
  destruct (after_inv n b0 Hb) as (Hb' & Hm & _ & Hwn & Hcl & _).
  destruct (slept_sum n b0 Hb) as [Hs Hall]; [rewrite Hb0; simpl; nia|by rewrite Hb0|].
  fold b in Hb', Hm, Hwn, Hcl, Hs. rewrite Hb0 in Hm, Hwn, Hcl, Hs, Hall. simpl in Hm, Hwn, Hcl, Hs, Hall.
  pose proof (Next_range b Hb') as Hd. rewrite Hm in Hd.
  assert (0 ≤ slept b ≤ Z.of_nat n * mx) as Hsb.
  { rewrite Hs. rewrite <- (delays_length n (mkBackoff ba mx 0 w c 0)) at 3. rewrite Z.add_0_l.
    apply (zsum_bounded id). eapply Forall_impl; [exact Hall|]. unfold id. simpl. lia. }
  pose proof (Next_slept b ltac:(lia)) as Hsl.
  split.
  - intros Hwe. rewrite Next_delay, Hwe. cbn [andb]. split.
    + rewrite Hcl. destruct (c <? exponential b) eqn:E; bools; lia.
    + unfold WindowExhausted in *. change (window (snd (Next b))) with (window b).
      change (clamp (snd (Next b))) with (clamp b). rewrite Hsl. bools.
      rewrite Hwn, Hcl in *. rewrite !andb_true_iff, !Z.gtb_lt, Z.geb_le. lia.
  - unfold WindowExhausted. rewrite Hwn, Hcl, Hsl. intros Hwe.
    assert ((w >? 0) = true) as Hw' by (by apply Z.gtb_lt).
    assert ((c >? 0) = true) as Hc' by (by apply Z.gtb_lt).
    rewrite Hw', Hc' in Hwe. cbn [andb] in Hwe. bools. lia.
Qed.

Lemma backoff_window_clamps_witness :
  slept (snd (Next (after 5 (NewBounded (1 * second) (10 * second) (30 * second) (5 * second)))))
    < 30 * second + 10 * second.
Proof.
  refine (proj2 (backoff_window_clamps (1 * second) (10 * second) (30 * second) (5 * second) 5
    _ _ _ _ _ _) _); unfold second; try lia. vm_compute. reflexivity.
Defined.
