(* ===== verification/Net.v ===== *)
(** * The parts of Go's [net], [strings] and [strconv] the tunnel relies on

    Go strings are byte strings, so they are [list byte].  This file defines
    IP-literal parsing and printing ([net.ParseIP], [IP.String], [IP.To4]), CIDR
    blocks ([net.ParseCIDR], [IPNet.Contains]), [net.SplitHostPort] and
    [net.JoinHostPort], decimal conversion and the byte-string searches that
    the sources under src/pkg/session, src/pkg/routing and src/pkg/node call.
    They follow the algorithms of Go's standard library (net/netip parsing). *)
From Stdlib Require Import Strings.String.
From S2P Require Export Bytes.
#[local] Open Scope Z_scope.

Abbreviation gostring := (list byte).

(** String literals. *)
Definition lit (s : string) : gostring := list_byte_of_string s.

(** ** Character classes *)

Definition is_digit (c : byte) : bool := (48 <=? bz c) && (bz c <=? 57).
Definition is_lower (c : byte) : bool := (97 <=? bz c) && (bz c <=? 122).
Definition is_upper (c : byte) : bool := (65 <=? bz c) && (bz c <=? 90).

Definition hex_value (c : byte) : option Z :=
  if is_digit c then Some (bz c - 48)
  else if (97 <=? bz c) && (bz c <=? 102) then Some (bz c - 87)
  else if (65 <=? bz c) && (bz c <=? 70) then Some (bz c - 55)
  else None.

Definition hex_digit (n : Z) : byte := if n <? 10 then zb (48 + n) else zb (87 + n).

Definition beqb (a b : byte) : bool := bool_decide (a = b).
Definition streqb (a b : gostring) : bool := bool_decide (a = b).

Lemma beqb_true a b : beqb a b = true ↔ a = b.
Proof. apply bool_decide_eq_true. Qed.

Lemma streqb_true a b : streqb a b = true ↔ a = b.
Proof. apply bool_decide_eq_true. Qed.

Lemma streqb_false a b : streqb a b = false ↔ a ≠ b.
Proof. apply bool_decide_eq_false. Qed.

Lemma streqb_refl a : streqb a a = true.
Proof. by apply streqb_true. Qed.

(** ** Searching byte strings *)

Fixpoint has_prefix (p s : gostring) : bool :=
  match p, s with
  | [], _ => true
  | c :: p', d :: s' => beqb c d && has_prefix p' s'
  | _ :: _, [] => false
  end.

Definition has_suffix (s p : gostring) : bool := has_prefix (reverse p) (reverse s).

Lemma has_prefix_iff p s : has_prefix p s = true ↔ ∃ k, s = p ++ k.
Proof.
  revert s. induction p as [|c p IH]; intros s; cbn [has_prefix]; [split; [by eexists|done]|].
  destruct s as [|d s]; [split; [done|by intros [k ?]]|].
  rewrite andb_true_iff, IH. rewrite beqb_true. split.
  - intros [-> [k ->]]. by exists k.
  - intros [k [= -> ->]]. split; [done|by exists k].
Qed.

Lemma has_suffix_iff s p : has_suffix s p = true ↔ ∃ k, s = k ++ p.
Proof.
  unfold has_suffix. rewrite has_prefix_iff. split.
  - intros [k Hk]. exists (reverse k). by rewrite <- (reverse_involutive s), Hk, reverse_app, reverse_involutive.
  - intros [k ->]. exists (reverse k). by rewrite reverse_app.
Qed.

Fixpoint contains (p s : gostring) : bool :=
  has_prefix p s || match s with [] => false | _ :: s' => contains p s' end.

(** The part before the first [c] and the part after it. *)
Fixpoint cut (c : byte) (s : gostring) : option (gostring * gostring) :=
  match s with
  | [] => None
  | d :: s' => if beqb c d then Some ([], s')
               else match cut c s' with
                    | Some (a, b) => Some (d :: a, b)
                    | None => None
                    end
  end.

(** [strings.Split(s, string(c))] *)
Fixpoint split_on (c : byte) (s : gostring) : list gostring :=
  match s with
  | [] => [[]]
  | d :: s' => if beqb c d then [] :: split_on c s'
               else match split_on c s' with
                    | l :: ls => (d :: l) :: ls
                    | [] => [[d]]
                    end
  end.

(** The lower case of an ASCII string. *)
Definition ascii (s : gostring) : bool := forallb (λ c, bz c <? 128) s.
Definition lower_byte (c : byte) : byte := if is_upper c then zb (bz c + 32) else c.
Definition lower (s : gostring) : gostring := map lower_byte s.

(** [strings.ToLower], given Unicode case mapping for the other strings. *)
Definition to_lower (unicode_lower : gostring → gostring) (s : gostring) : gostring :=
  if ascii s then lower s else unicode_lower s.

(** ** Decimal numbers *)

(** At most [fuel] digits of a natural number. *)
Fixpoint dec_digits (fuel : nat) (n : Z) : gostring :=
  match fuel with
  | O => []
  | S f => if n <? 10 then [zb (48 + n)] else dec_digits f (n / 10) ++ [zb (48 + n mod 10)]
  end.

Definition itoa (n : Z) : gostring := dec_digits 20 n.

(** [strconv.Itoa] *)
Definition Itoa (n : Z) : gostring := if n <? 0 then x2d :: itoa (- n) else itoa n.

(** [strconv.Atoi] on an unsigned decimal; a sign is accepted by Atoi, and a
    value outside int64 is an error. *)
Fixpoint digits_value (acc : Z) (s : gostring) : option Z :=
  match s with
  | [] => Some acc
  | c :: s' => if is_digit c then digits_value (acc * 10 + (bz c - 48)) s' else None
  end.

Definition Atoi (s : gostring) : option Z :=
  let '(neg, body) := match s with
                      | c :: s' => if beqb c x2d then (true, s') else if beqb c x2b then (false, s') else (false, s)
                      | [] => (false, [])
                      end in
  match body with
  | [] => None
  | _ => match digits_value 0 body with
         | Some v => let v := if neg : bool then - v else v in
                     if (- 2 ^ 63 <=? v) && (v <? 2 ^ 63) then Some v else None
         | None => None
         end
  end.

(** ** IPv4 literals *)

(** The loop of [netip.parseIPv4Fields]: [first] is [i == 0], [dot] says the
    previous character was a dot, [val] and [dig] are the value and digit count
    of the current octet, [acc] the octets so far, most recent first. *)
Fixpoint ipv4_loop (s : gostring) (first dot : bool) (val dig : Z) (acc : list byte)
  : option (list byte) :=
  match s with
  | [] => if bool_decide (length acc = 3%nat) then Some (rev (zb val :: acc)) else None
  | c :: s' =>
    if is_digit c then
      if (dig =? 1) && (val =? 0) then None
      else let val' := val * 10 + (bz c - 48) in
           if val' >? 255 then None else ipv4_loop s' false false val' (dig + 1) acc
    else if beqb c x2e then
      if first || match s' with [] => true | _ => false end || dot then None
      else if bool_decide (length acc = 3%nat) then None
      else ipv4_loop s' false true 0 0 (zb val :: acc)
    else None
  end.

Definition parseIPv4 (s : gostring) : option (list byte) := ipv4_loop s true false 0 0 [].

(** ** IPv6 literals *)

(** The inner loop over the hex digits of one group: the value, the number of
    digits and the rest of the input; [None] when the group has more than four
    digits. *)
Fixpoint hex_group (s : gostring) (off : nat) (acc : Z) : option (Z * nat * gostring) :=
  match s with
  | c :: s' =>
    match hex_value c with
    | Some d => if (3 <? off)%nat then None
                else let acc' := acc * 16 + d in
                     if acc' >? 65535 then None else hex_group s' (S off) acc'
    | None => Some (acc, off, s)
    end
  | [] => Some (acc, off, [])
  end.

(** The outer loop: [ip] are the bytes so far, [ellipsis] the position of the
    double colon.  Each round adds at least two bytes, so eight rounds end it.
    The result is the bytes, the ellipsis and the unread input. *)
Fixpoint ipv6_loop (fuel : nat) (s : gostring) (ip : list byte) (ellipsis : option nat)
  : option (list byte * option nat * gostring) :=
  match fuel with
  | O => Some (ip, ellipsis, s)
  | S f =>
    match hex_group s 0 0 with
    | None => None
    | Some (_, O, _) => None
    | Some (acc, _, rest) =>
      match rest with
      | c :: _ =>
        if beqb c x2e then
          if (match ellipsis with None => negb (bool_decide (length ip = 12%nat)) | Some _ => false end)
             || bool_decide (16 < length ip + 4)%nat
          then None
          else match parseIPv4 s with
               | Some v4 => Some (ip ++ v4, ellipsis, [])
               | None => None
               end
        else
          let ip' := ip ++ be_put 2 acc in
          if negb (beqb c x3a) then None
          else match rest with
               | _ :: d :: more =>
                 if beqb d x3a then
                   match ellipsis with
                   | Some _ => None
                   | None =>
                     match more with
                     | [] => Some (ip', Some (length ip'), [])
                     | _ => ipv6_loop f more ip' (Some (length ip'))
                     end
                   end
                 else ipv6_loop f (d :: more) ip' ellipsis
               | _ => None
               end
      | [] => Some (ip ++ be_put 2 acc, ellipsis, [])
      end
    end
  end.

Definition ipv6_finish (r : option (list byte * option nat * gostring)) : option (list byte) :=
  match r with
  | Some (ip, ellipsis, []) =>
    if bool_decide (length ip < 16)%nat then
      match ellipsis with
      | None => None
      | Some e => Some (take e ip ++ replicate (16 - length ip) x00 ++ drop e ip)
      end
    else match ellipsis with Some _ => None | None => Some ip end
  | _ => None
  end.

(** Zone-free IPv6 literals; a zone ([%eth0]) makes [net.ParseIP] fail. *)
Definition parseIPv6 (s : gostring) : option (list byte) :=
  if existsb (beqb x25) s then None
  else match s with
       | c :: d :: rest =>
         if beqb c x3a && beqb d x3a then
           match rest with
           | [] => Some (replicate 16 x00)
           | _ => ipv6_finish (ipv6_loop 8 rest [] (Some 0%nat))
           end
         else ipv6_finish (ipv6_loop 8 s [] None)
       | _ => ipv6_finish (ipv6_loop 8 s [] None)
       end.

Definition v4InV6Prefix : list byte := replicate 10 x00 ++ [xff; xff].

(** [net.ParseIP]: the first of dot, colon and percent decides the family; the
    result is always 16 bytes, IPv4 addresses in IPv4-mapped form. *)
Fixpoint ip_kind (s : gostring) : option bool :=
  match s with
  | [] => None
  | c :: s' => if beqb c x2e then Some true
               else if beqb c x3a then Some false
               else if beqb c x25 then None
               else ip_kind s'
  end.

Definition ParseIP (s : gostring) : option (list byte) :=
  match ip_kind s with
  | Some true => match parseIPv4 s with Some v4 => Some (v4InV6Prefix ++ v4) | None => None end
  | Some false => parseIPv6 s
  | None => None
  end.

Definition To4 (ip : list byte) : option (list byte) :=
  if bool_decide (length ip = 4%nat) then Some ip
  else if bool_decide (length ip = 16%nat) && bool_decide (take 12 ip = v4InV6Prefix)
  then Some (drop 12 ip) else None.

(** ** Printing addresses *)

Definition v4_string (ip : list byte) : gostring :=
  match ip with
  | [a; b; c; d] => itoa (bz a) ++ [x2e] ++ itoa (bz b) ++ [x2e] ++ itoa (bz c) ++ [x2e] ++ itoa (bz d)
  | _ => []
  end.

(** A 16-bit group without leading zeros. *)
Definition group_string (g : Z) : gostring :=
  let d i := hex_digit (Z.land (Z.shiftr g (4 * i)) 15) in
  if g >=? 4096 then [d 3; d 2; d 1; d 0]
  else if g >=? 256 then [d 2; d 1; d 0]
  else if g >=? 16 then [d 1; d 0] else [d 0].

Fixpoint groups (ip : list byte) : list Z :=
  match ip with
  | a :: b :: ip' => be_get [a; b] :: groups ip'
  | _ => []
  end.

Fixpoint zero_run (gs : list Z) : nat :=
  match gs with g :: gs' => if g =? 0 then S (zero_run gs') else 0%nat | [] => 0%nat end.

(** The first longest run of at least two zero groups. *)
Fixpoint best_run (gs : list Z) (i : nat) (best : option (nat * nat)) : option (nat * nat) :=
  match gs with
  | [] => best
  | _ :: gs' =>
    let l := zero_run gs in
    let best' := if (2 <=? l)%nat && (match best with None => 0 | Some (_, m) => m end <? l)%nat
                 then Some (i, l) else best in
    best_run gs' (S i) best'
  end.

Fixpoint join_groups (gs : list Z) : gostring :=
  match gs with
  | [] => []
  | [g] => group_string g
  | g :: gs' => group_string g ++ [x3a] ++ join_groups gs'
  end.

Definition v6_string (ip : list byte) : gostring :=
  let gs := groups ip in
  match best_run gs 0 None with
  | None => join_groups gs
  | Some (st, l) => join_groups (take st gs) ++ [x3a; x3a] ++ join_groups (drop (st + l) gs)
  end.

(** [net.IP(b).String()] for 4- and 16-byte addresses. *)
Definition IP_String (ip : list byte) : gostring :=
  match To4 ip with Some v4 => v4_string v4 | None => v6_string ip end.

(** ** CIDR blocks *)

Record IPNet := mkIPNet { n_ip : list byte; n_mask : list byte }.

Definition prefix_mask (ones : Z) (bits : nat) : list byte :=
  map (λ i, zb (256 - 2 ^ (8 - Z.max 0 (Z.min 8 (ones - 8 * Z.of_nat i))))) (seq 0 (bits / 8)).

Fixpoint and_bytes (a b : list byte) : list byte :=
  match a, b with
  | x :: a', y :: b' => zb (Z.land (bz x) (bz y)) :: and_bytes a' b'
  | _, _ => []
  end.

(** [net.ParseCIDR]: the prefix length is an unsigned decimal without sign. *)
Definition ParseCIDR (s : gostring) : option IPNet :=
  match cut x2f s with
  | None => None
  | Some (addr, mask) =>
    let '(ip, iplen) := match parseIPv4 addr with
                        | Some v4 => (Some v4, 4%nat)
                        | None => match ip_kind addr with
                                  | Some false => (parseIPv6 addr, 16%nat)
                                  | _ => (None, 16%nat)
                                  end
                        end in
    match ip, mask with
    | None, _ | _, [] => None
    | Some ip, _ =>
      match digits_value 0 mask with
      | Some n => if n >? 8 * Z.of_nat iplen then None
                  else let m := prefix_mask n (8 * iplen) in Some (mkIPNet (and_bytes ip m) m)
      | None => None
      end
    end
  end.

(** [IPNet.Contains]: IPv4 and IPv4-mapped addresses are compared in their
    4-byte form; a network of the other family contains nothing. *)
Definition Contains (n : IPNet) (ip : list byte) : bool :=
  let nip := default (n_ip n) (To4 (n_ip n)) in
  let nmask := if bool_decide (length nip = 4%nat) && bool_decide (length (n_mask n) = 16%nat)
               then drop 12 (n_mask n) else n_mask n in
  let ip := default ip (To4 ip) in
  bool_decide (length ip = length nip)
  && streqb (and_bytes nip nmask) (and_bytes ip nmask).

(** ** Host and port *)

Definition last_index (c : byte) (s : gostring) : option nat :=
  match cut c (reverse s) with Some (a, _) => Some (length s - 1 - length a)%nat | None => None end.

Definition has_char (c : byte) (s : gostring) : bool := existsb (beqb c) s.

Definition JoinHostPort (host port : gostring) : gostring :=
  if has_char x3a host then [x5b] ++ host ++ [x5d; x3a] ++ port else host ++ [x3a] ++ port.

(** [net.SplitHostPort]: the port follows the last colon; a host with colons
    must be bracketed and brackets may appear nowhere else. *)
Definition net_SplitHostPort (s : gostring) : option (gostring * gostring) :=
  match last_index x3a s with
  | None => None
  | Some i =>
    match s with
    | c :: s' =>
      if beqb c x5b then
        match cut x5d s' with
        | None => None
        | Some (host, _) =>
          let e := S (length host) in
          if bool_decide (S e = i) then
            if has_char x5b host || has_char x5b (drop (S e) s) || has_char x5d (drop (S e) s) then None
            else Some (host, drop (S i) s)
          else None
        end
      else
        let host := take i s in
        if has_char x3a host then None
        else if has_char x5b s || has_char x5d s then None
        else Some (host, drop (S i) s)
    | [] => None
    end
  end.

(** ** Facts about the library functions *)

(** One octet of a dotted quad: its decimal digits are read back. *)
Lemma ipv4_loop_octet b rest first dot acc :
  ipv4_loop (itoa (bz b) ++ rest) first dot 0 0 acc
  = ipv4_loop rest false false (bz b) (Z.of_nat (length (itoa (bz b)))) acc.
Proof. destruct b; reflexivity. Qed.

Lemma ip_kind_octet b rest : ip_kind (itoa (bz b) ++ x2e :: rest) = Some true.
Proof. destruct b; reflexivity. Qed.

Lemma itoa_cons b : ∃ c l, itoa (bz b) = c :: l.
Proof. destruct b; by eexists _, _. Qed.

(** A dot between two octets closes the first. *)
Lemma ipv4_loop_dot b rest val dig acc :
  length acc ≠ 3%nat →
  ipv4_loop (x2e :: itoa (bz b) ++ rest) false false val dig acc
  = ipv4_loop (itoa (bz b) ++ rest) false true 0 0 (zb val :: acc).
Proof.
  intros Hl. destruct (itoa_cons b) as (c & l & Hc). rewrite Hc. cbn [app ipv4_loop].
  change (is_digit x2e) with false. change (beqb x2e x2e) with true. cbn [orb].
  by rewrite bool_decide_false.
Qed.

Lemma parseIPv4_string a b c d : parseIPv4 (v4_string [a; b; c; d]) = Some [a; b; c; d].
Proof.
  unfold parseIPv4, v4_string. cbn [app].
  rewrite <- (app_nil_r (itoa (bz d))).
  rewrite ipv4_loop_octet, ipv4_loop_dot, ipv4_loop_octet, ipv4_loop_dot, ipv4_loop_octet,
    ipv4_loop_dot, ipv4_loop_octet by done.
  cbn. by rewrite !zb_bz.
Qed.

Lemma ParseIP_v4_string a b c d :
  ParseIP (v4_string [a; b; c; d]) = Some (v4InV6Prefix ++ [a; b; c; d]).
Proof.
  unfold ParseIP. rewrite parseIPv4_string. unfold v4_string. cbn [app].
  by rewrite ip_kind_octet.
Qed.

Lemma To4_mapped v4 : length v4 = 4%nat → To4 (v4InV6Prefix ++ v4) = Some v4.
Proof.
  intros Hl. unfold To4. rewrite length_app, Hl. cbn.
  rewrite drop_0, take_0. done.
Qed.

(** Lengths of parsed addresses. *)
Lemma ipv4_loop_length s first dot val dig acc l :
  ipv4_loop s first dot val dig acc = Some l → length l = 4%nat.
Proof.
  revert first dot val dig acc. induction s as [|c s IH]; intros first dot val dig acc; cbn [ipv4_loop].
  - case_bool_decide as Ha; [|done]. intros [= <-]. rewrite length_app, length_rev, Ha. done.
  - repeat case_match; try done; apply IH.
Qed.

Lemma ipv6_finish_length r l : ipv6_finish r = Some l →
  (∀ ip e s, r = Some (ip, e, s) → (length ip ≤ 16)%nat ∧ match e with Some k => (k ≤ length ip)%nat | None => True end) →
  length l = 16%nat.
Proof.
  unfold ipv6_finish. intros Hr Hb. destruct r as [[[ip e] s]|]; [|done].
  destruct (Hb _ _ _ eq_refl) as [Hl He]. destruct s; [|done].
  case_bool_decide as H; destruct e as [k|]; try done; simplify_eq; [|lia].
  rewrite !length_app, length_replicate, length_take, length_drop. lia.
Qed.

Lemma ipv6_loop_length fuel s ip e ip' e' s' :
  ipv6_loop fuel s ip e = Some (ip', e', s') →
  (length ip + 2 * fuel ≤ 16)%nat → match e with Some k => (k ≤ length ip)%nat | None => True end →
  (length ip' ≤ 16)%nat ∧ match e' with Some k => (k ≤ length ip')%nat | None => True end.
Proof.
  revert s ip e. induction fuel as [|f IH]; intros s ip e; cbn [ipv6_loop].
  - intros [= <- <- <-] ? ?. split; [lia|done].
  - destruct (hex_group s 0 0) as [[[acc off] rest]|]; [|done].
    destruct off as [|off]; [done|]. destruct rest as [|c rest].
    + intros [= <- <- <-] ? He. rewrite length_app. simpl. split; [lia|].
      destruct e; [lia|done].
    + destruct (beqb c x2e).
      * destruct (_ || _) eqn:E; [done|].
        destruct (parseIPv4 s) as [v4|] eqn:Ev; [|done]. intros [= <- <- <-] ? He.
        apply ipv4_loop_length in Ev. rewrite length_app, Ev. apply orb_false_iff in E as [_ E].
        bools. split; [lia|]. destruct e; [lia|done].
      * destruct (negb (beqb c x3a)); [done|]. destruct rest as [|d more]; [done|].
        destruct (beqb d x3a).
        -- destruct e; [done|]. destruct more as [|x more].
           ++ intros [= <- <- <-] ? _. rewrite length_app. simpl. lia.
           ++ intros H ? _. apply IH in H; [done| |lia]. rewrite length_app. simpl. lia.
        -- intros H ? He. apply IH in H; [done|rewrite length_app; simpl; lia|].
           destruct e; [rewrite length_app; lia|done].
Qed.

Lemma parseIPv6_length s l : parseIPv6 s = Some l → length l = 16%nat.
Proof.
  unfold parseIPv6. destruct (existsb _ s); [done|].
  assert (∀ s e, match e with Some k => (k ≤ 0)%nat | None => True end →
    ipv6_finish (ipv6_loop 8 s [] e) = Some l → length l = 16%nat) as Hgen.
  { intros s' e He Hf. eapply ipv6_finish_length; [exact Hf|].
    intros ip e' r Hr. eapply ipv6_loop_length; [exact Hr|simpl; lia|done]. }
  destruct s as [|c [|d rest]]; [by apply Hgen..|].
  destruct (_ && _); [|by apply Hgen]. destruct rest; [by intros [= <-]|by apply Hgen].
Qed.

Lemma ParseIP_length s l : ParseIP s = Some l → length l = 16%nat.
Proof.
  unfold ParseIP. destruct (ip_kind s) as [[]|]; [|apply parseIPv6_length|done].
  destruct (parseIPv4 s) eqn:E; [|done]. intros [= <-].
  apply ipv4_loop_length in E. simpl. by rewrite E.
Qed.

Lemma To4_length ip v4 : To4 ip = Some v4 → length v4 = 4%nat.
Proof.
  unfold To4. case_bool_decide; [by intros [= <-]|].
  case_bool_decide as H16; [|done]. case_bool_decide; [|done]. intros [= <-].
  rewrite length_drop, H16. done.
Qed.
