(* ===== verification/Destination.v ===== *)
(** * Destination headers (src/pkg/session/session.go)

    The SOCKS5-compatible destination header
    [\[atype\]\[address\]\[port\]] in its four implementations: the streaming
    reader and writer, and the buffer parser and writer. *)
From S2P Require Export Net Frame.
#[local] Open Scope Z_scope.

Definition AddrTypeIPv4 : Z := 1.
Definition AddrTypeDomain : Z := 3.
Definition AddrTypeIPv6 : Z := 4.

Definition SessionIDLen : nat := 16.
Definition MaxHeaderSize : nat := 1 + 1 + 255 + 2.

Record Destination := mkDest {
  AddrType : Z;      (* byte *)
  Addr : gostring;
  Port : Z           (* uint16 *)
}.

#[export] Instance Destination_eq_decision : EqDecision Destination.
Proof. solve_decision. Defined.

Inductive dest_error :=
| DestIO (e : io_error)
| UnknownAddressType
| InvalidIPv4
| InvalidIPv6
| DomainTooLong.

(** ** Streaming reader *)

Definition read (n : nat) (r : list byte) : res dest_error (list byte * list byte) :=
  match ReadFull n r with Ok x => Ok x | Err e => Err (DestIO e) end.

(** The address block for the given type; the [n > 255] test of the source can
    not fire on a byte. *)
Definition readAddr (r : list byte) (atype : Z) : res dest_error (gostring * list byte) :=
  if atype =? AddrTypeIPv4 then
    '(ip, r) ← read 4 r; Ok (IP_String ip, r)
  else if atype =? AddrTypeDomain then
    '(dl, r) ← read 1 r;
    let n := bz (nth 0 dl x00) in
    if n >? 255 then Err DomainTooLong
    else '(d, r) ← read (Z.to_nat n) r; Ok (d, r)
  else if atype =? AddrTypeIPv6 then
    '(ip, r) ← read 16 r; Ok (IP_String ip, r)
  else Err UnknownAddressType.

Definition readDestFromReader (r : list byte) (atype : Z) : res dest_error (Destination * list byte) :=
  '(addr, r) ← readAddr r atype;
  '(p, r) ← read 2 r;
  Ok (mkDest atype addr (be_get p), r).

Definition ReadDestinationEx (r : list byte) (atype : Z) := readDestFromReader r atype.

Definition ReadDestination (r : list byte) : res dest_error (Destination * list byte) :=
  '(at_, r) ← read 1 r;
  readDestFromReader r (bz (nth 0 at_ x00)).

(** ** Streaming writer

    The bytes written to a writer that does not fail, and the error; a failing
    call has already written the type byte. *)

Definition writeAddr (dest : Destination) : res dest_error (list byte) :=
  if AddrType dest =? AddrTypeIPv4 then
    match ParseIP (Addr dest) with
    | None => Err InvalidIPv4
    | Some ip => match To4 ip with None => Err InvalidIPv4 | Some v4 => Ok v4 end
    end
  else if AddrType dest =? AddrTypeDomain then
    if zlen (Addr dest) >? 255 then Err DomainTooLong
    else Ok (zb (zlen (Addr dest)) :: Addr dest)
  else if AddrType dest =? AddrTypeIPv6 then
    match ParseIP (Addr dest) with
    | None => Err InvalidIPv6
    | Some ip => match To4 ip with Some _ => Err InvalidIPv6 | None => Ok ip end
    end
  else Err UnknownAddressType.

Definition WriteDestination (dest : Destination) : list byte * option dest_error :=
  match writeAddr dest with
  | Err e => ([zb (AddrType dest)], Some e)
  | Ok addr => (zb (AddrType dest) :: addr ++ be_put 2 (Port dest), None)
  end.

(** ** Buffer writer and parser *)

(** [copy(buf\[pos:\], src)] within bounds. *)
Definition write_at (pos : nat) (src buf : list byte) : list byte :=
  take pos buf ++ src ++ drop (pos + length src) buf.

Definition WriteDestinationBuffer (buf : list byte) (dest : Destination) : nat * list byte :=
  if (length buf <? MaxHeaderSize)%nat then (0%nat, buf)
  else
    let buf := write_at 0 [zb (AddrType dest)] buf in
    let finish (pos : nat) (buf : list byte) :=
      ((pos + 2)%nat, write_at pos [zb (Z.shiftr (Port dest) 8); zb (Port dest)] buf) in
    if AddrType dest =? AddrTypeIPv4 then
      match ParseIP (Addr dest) with
      | None => (0%nat, buf)
      | Some ip => match To4 ip with
                   | None => (0%nat, buf)
                   | Some v4 => finish 5%nat (write_at 1 v4 buf)
                   end
      end
    else if AddrType dest =? AddrTypeDomain then
      let l := if zlen (Addr dest) >? 255 then 255%nat else length (Addr dest) in
      let buf := write_at 1 [zb (Z.of_nat l)] buf in
      finish (2 + l)%nat (write_at 2 (take l (Addr dest)) buf)
    else if AddrType dest =? AddrTypeIPv6 then
      match ParseIP (Addr dest) with
      | None => (0%nat, buf)
      | Some ip => match To4 ip with
                   | Some _ => (0%nat, buf)
                   | None => finish 17%nat (write_at 1 ip buf)
                   end
      end
    else (0%nat, buf).

Definition ParseDestinationFromBuf (buf : list byte) : option Destination :=
  if (length buf <? 4)%nat then None
  else
    let atype := bz (nth 0 buf x00) in
    let finish (addr : gostring) (pos : nat) :=
      if (length buf <? pos + 2)%nat then None
      else Some (mkDest atype addr (Z.lor (Z.shiftl (bz (nth pos buf x00)) 8) (bz (nth (pos + 1) buf x00)))) in
    if atype =? AddrTypeIPv4 then
      if (length buf <? 1 + 4 + 2)%nat then None
      else finish (IP_String (slice 1 5 buf)) 5%nat
    else if atype =? AddrTypeDomain then
      if (length buf <? 1 + 1 + 2)%nat then None
      else
        let n := Z.to_nat (bz (nth 1 buf x00)) in
        if (length buf <? 2 + n + 2)%nat then None
        else finish (slice 2 (2 + n) buf) (2 + n)%nat
    else if atype =? AddrTypeIPv6 then
      if (length buf <? 1 + 16 + 2)%nat then None
      else finish (IP_String (slice 1 17 buf)) 17%nat
    else None.

(** ** Round trips *)

(** What reading back gives: the same destination with the address in Go's
    canonical spelling. *)
Definition canonical (dest : Destination) : Destination :=
  if AddrType dest =? AddrTypeDomain then dest
  else match ParseIP (Addr dest) with
       | Some ip => mkDest (AddrType dest) (IP_String ip) (Port dest)
       | None => dest
       end.

(** The destinations the writer accepts. *)
Definition writable (dest : Destination) : Prop :=
  (AddrType dest = AddrTypeIPv4 ∧ ∃ ip v4, ParseIP (Addr dest) = Some ip ∧ To4 ip = Some v4)
  ∨ (AddrType dest = AddrTypeDomain ∧ zlen (Addr dest) ≤ 255)
  ∨ (AddrType dest = AddrTypeIPv6 ∧ ∃ ip, ParseIP (Addr dest) = Some ip ∧ To4 ip = None).

Lemma read_app n l s : length l = n → read n (l ++ s) = Ok (l, s).
Proof. intros. unfold read. by rewrite ReadFull_app. Qed.

Lemma IP_String_To4 ip v4 : To4 ip = Some v4 → IP_String ip = IP_String v4.
Proof.
  intros H. unfold IP_String. rewrite H. unfold To4.
  by rewrite bool_decide_true by by eapply To4_length.
Qed.

Lemma writeAddr_ok dest addr rest :
  writeAddr dest = Ok addr →
  readAddr (addr ++ rest) (AddrType dest) = Ok (Addr (canonical dest), rest)
  ∧ AddrType (canonical dest) = AddrType dest ∧ Port (canonical dest) = Port dest
  ∧ 0 ≤ AddrType dest < 256 ∧ writable dest.
Proof.
  unfold writeAddr, readAddr, canonical, writable.
  destruct (AddrType dest =? AddrTypeIPv4) eqn:E4; bools.
  { destruct (ParseIP (Addr dest)) as [ip|] eqn:Ep; [|done].
    destruct (To4 ip) as [v4|] eqn:Et; [|done]. intros [= <-].
    rewrite read_app by by eapply To4_length. rewrite E4. change (AddrTypeIPv4 =? AddrTypeDomain) with false.
    cbv beta iota. res_red. rewrite <- (IP_String_To4 ip v4) by done.
    split_and!; [done..|unfold AddrTypeIPv4; lia|unfold AddrTypeIPv4; lia|]. left. eauto. }
  destruct (AddrType dest =? AddrTypeDomain) eqn:Ed; bools.
  { destruct (zlen (Addr dest) >? 255) eqn:El; [done|]. intros [= <-]. bools.
    pose proof (zlen_nonneg (Addr dest)).
    change ((zb (zlen (Addr dest)) :: Addr dest) ++ rest) with ([zb (zlen (Addr dest))] ++ Addr dest ++ rest).
    rewrite read_app by done. res_red. cbn [nth]. rewrite bz_zb, wrapu_id by (unfold in_u; lia).
    destruct (_ >? 255) eqn:E255; bools; [lia|].
    rewrite read_app by (unfold zlen; lia).
    split_and!; [done..|rewrite Ed; unfold AddrTypeDomain; lia|rewrite Ed; unfold AddrTypeDomain; lia|].
    right; left. done. }
  destruct (AddrType dest =? AddrTypeIPv6) eqn:E6; bools; [|done].
  destruct (ParseIP (Addr dest)) as [ip|] eqn:Ep; [|done].
  destruct (To4 ip) as [v4|] eqn:Et; [done|]. intros [= <-].
  rewrite read_app by by eapply ParseIP_length. res_red. rewrite E6.
  split_and!; [done..|unfold AddrTypeIPv6; lia|unfold AddrTypeIPv6; lia|]. right; right. eauto.
Qed.

Lemma writeAddr_writable dest : writable dest → is_ok (writeAddr dest) = true.
Proof.
  unfold writable, writeAddr. intros [(-> & ip & v4 & -> & ->)|[[-> Hl]|(-> & ip & -> & ->)]]; cbn; [done| |done].
  destruct (zlen (Addr dest) >? 255) eqn:E; bools; [lia|done].
Qed.

Lemma WriteDestination_ReadDestination dest rest :
  in_u 16 (Port dest) →
  let '(bs, err) := WriteDestination dest in
  (err = None ↔ writable dest)
  ∧ (err = None → ReadDestination (bs ++ rest) = Ok (canonical dest, rest)).
Proof.
  intros Hp. unfold WriteDestination. destruct (writeAddr dest) as [addr|e] eqn:E.
  - destruct (writeAddr_ok dest addr (be_put 2 (Port dest) ++ rest) E) as (Hr & Ht & Hpo & Hrng & Hw).
    split; [done|]. intros _. unfold ReadDestination.
    change ((zb (AddrType dest) :: addr ++ be_put 2 (Port dest)) ++ rest)
      with ([zb (AddrType dest)] ++ ((addr ++ be_put 2 (Port dest)) ++ rest)).
    rewrite <- app_assoc. rewrite read_app by done. res_red. cbn [nth].
    rewrite bz_zb, wrapu_id by exact Hrng. unfold readDestFromReader. rewrite Hr. res_red.
    rewrite read_app by done. rewrite be_get_put_u by exact Hp.
    destruct (canonical dest); simpl in *. by rewrite Ht, Hpo.
  - split; [|done]. split; [done|]. intros Hw%writeAddr_writable. by rewrite E in Hw.
Qed.

(** Destination headers round-trip.  WriteDestination succeeds exactly for
    an IPv4 destination whose text parses to an IPv4 address, a domain of at
    most 255 bytes, or an IPv6 destination whose text parses to an address that
    is not IPv4; ReadDestination then reads back, from the written bytes
    followed by anything, the same type and port and the same address in
    canonical spelling, and leaves exactly what followed. *)
Theorem destination_roundtrip dest rest :
  in_u 16 (Port dest) →
  let '(bs, err) := WriteDestination dest in
  (err = None ↔ writable dest)
  ∧ (err = None → ReadDestination (bs ++ rest) = Ok (canonical dest, rest)).
Proof. apply WriteDestination_ReadDestination. Qed.

Definition example_dest : Destination := mkDest AddrTypeIPv6 (lit "2001:db8:0:0::1") 443.

Lemma destination_roundtrip_witness :
  ReadDestination (fst (WriteDestination example_dest) ++ [x01])
  = Ok (mkDest AddrTypeIPv6 (lit "2001:db8::1") 443, [x01]).
Proof.
  pose proof (destination_roundtrip example_dest [x01]) as H.
  assert (in_u 16 (Port example_dest)) as Hp by (unfold in_u; simpl; lia).
  specialize (H Hp). revert H. vm_compute (WriteDestination example_dest). cbv beta iota.
  intros [_ H]. specialize (H eq_refl). vm_compute (canonical example_dest) in H. exact H.
Defined.

(** ** The buffer parser and the streaming reader agree *)

Lemma read_Ok_iff n r : read n r = if (n <=? length r)%nat then Ok (take n r, drop n r)
  else Err (DestIO (match r with [] => EOF | _ => UnexpectedEOF end)).
Proof.
  unfold read, ReadFull. case_decide as H.
  - by rewrite (proj2 (Nat.leb_le _ _) H).
  - rewrite (proj2 (Nat.leb_gt _ _)) by lia. by destruct r.
Qed.

Lemma port_bytes (buf : list byte) pos :
  (pos + 2 ≤ length buf)%nat →
  be_get (take 2 (drop pos buf))
  = Z.lor (Z.shiftl (bz (nth pos buf x00)) 8) (bz (nth (pos + 1) buf x00)).
Proof.
  intros H. assert (∃ a b l, drop pos buf = a :: b :: l) as (a & b & l & Hd).
  { destruct (drop pos buf) as [|a [|b l]] eqn:E; [..|by eauto];
      apply (f_equal length) in E; rewrite length_drop in E; simpl in E; lia. }
  assert (∀ k, nth (pos + k) buf x00 = nth k (drop pos buf) x00) as Hn.
  { intros k. rewrite !nth_lookup, lookup_drop. done. }
  rewrite <- (Nat.add_0_r pos) at 2. rewrite !Hn, Hd. simpl.
  unfold be_get. simpl. by rewrite Z.lor_0_l.
Qed.

(** Reading the two port bytes after the first [n] bytes of an address. *)
Lemma read_port t (buf : list byte) n addr atype :
  (n ≤ length buf)%nat →
  (if (length (t :: buf) <? S n + 2)%nat then None
   else Some (mkDest atype addr (Z.lor (Z.shiftl (bz (nth (S n) (t :: buf) x00)) 8)
                                       (bz (nth (S n + 1) (t :: buf) x00)))))
  = match ('(p, r) ← read 2 (drop n buf); Ok (mkDest atype addr (be_get p), r)) with
    | Ok (d, _) => Some d
    | Err _ => None
    end.
Proof.
  intros Hn. rewrite read_Ok_iff, length_drop. cbn [length].
  destruct (2 <=? length buf - n)%nat eqn:E.
  - apply Nat.leb_le in E. rewrite (proj2 (Nat.ltb_ge _ _)) by lia. res_red.
    do 2 f_equal. symmetry. apply (port_bytes (t :: buf) (S n)). simpl. lia.
  - apply Nat.leb_gt in E. by rewrite (proj2 (Nat.ltb_lt _ _)) by lia.
Qed.

(** A fixed-width address block of [n] bytes. *)
Lemma read_fixed t (buf : list byte) n (f : list byte → gostring) atype :
  (if (length (t :: buf) <? 1 + n + 2)%nat then None
   else if (length (t :: buf) <? S n + 2)%nat then None
   else Some (mkDest atype (f (slice 1 (S n) (t :: buf)))
          (Z.lor (Z.shiftl (bz (nth (S n) (t :: buf) x00)) 8) (bz (nth (S n + 1) (t :: buf) x00)))))
  = match ('(addr, r) ← ('(ip, r) ← read n buf; Ok (f ip, r));
           '(p, r) ← read 2 r; Ok (mkDest atype addr (be_get p), r)) with
    | Ok (d, _) => Some d
    | Err _ => None
    end.
Proof.
  change (1 + n + 2)%nat with (S n + 2)%nat.
  destruct (length (t :: buf) <? S n + 2)%nat eqn:E.
  - apply Nat.ltb_lt in E. simpl in E. rewrite read_Ok_iff.
    destruct (n <=? length buf)%nat eqn:En; [|done]. apply Nat.leb_le in En. res_red.
    rewrite read_Ok_iff, length_drop. by rewrite (proj2 (Nat.leb_gt _ _)) by lia.
  - apply Nat.ltb_ge in E. simpl in E. rewrite (read_Ok_iff n).
    rewrite (proj2 (Nat.leb_le _ _)) by lia. rewrite res_bind_l. cbv beta iota. rewrite res_bind_l.
    cbv beta iota. rewrite <- (read_port t) by lia. rewrite (proj2 (Nat.ltb_ge _ _)) by (simpl; lia).
    unfold slice. cbn [drop]. by replace (S n - 1)%nat with n by lia.
Qed.

Lemma decoders_agree buf :
  ParseDestinationFromBuf buf
  = match ReadDestination buf with Ok (d, _) => Some d | Err _ => None end.
Proof.
  unfold ReadDestination, readDestFromReader, readAddr, ParseDestinationFromBuf.
  destruct buf as [|t buf]; [done|]. rewrite read_Ok_iff. change (1 <=? length (t :: buf))%nat with true.
  cbv iota. cbn [take drop nth]. rewrite drop_0, res_bind_l. cbv beta iota. cbn [nth]. set (a := bz t).
  destruct (a =? AddrTypeIPv4); [|destruct (a =? AddrTypeDomain); [|destruct (a =? AddrTypeIPv6)]].
  - rewrite <- (read_fixed t). destruct (length (t :: buf) <? 4)%nat eqn:E4; [|done].
    apply Nat.ltb_lt in E4. by rewrite (proj2 (Nat.ltb_lt _ _)) by lia.
  - destruct buf as [|n buf]; [done|]. rewrite read_Ok_iff. cbn [take drop nth].
    change (1 <=? length (n :: buf))%nat with true. cbv iota. rewrite drop_0, res_bind_l.
    cbv beta iota. cbn [nth]. pose proof (bz_range n). destruct (bz n >? 255) eqn:E; bools; [lia|].
    set (k := Z.to_nat (bz n)). rewrite <- (read_fixed n buf k (λ d, d)).
    destruct (length (t :: n :: buf) <? 4)%nat eqn:E4;
      [|change (1 + 1 + 2)%nat with 4%nat; rewrite E4; reflexivity].
    apply Nat.ltb_lt in E4. simpl in E4. by rewrite (proj2 (Nat.ltb_lt _ _)) by (simpl; lia).
  - rewrite <- (read_fixed t). destruct (length (t :: buf) <? 4)%nat eqn:E4; [|done].
    apply Nat.ltb_lt in E4. by rewrite (proj2 (Nat.ltb_lt _ _)) by lia.
  - by destruct (_ <? 4)%nat.
Qed.

(** The two decoders of the destination header agree.  On any buffer,
    ParseDestinationFromBuf succeeds exactly when ReadDestination succeeds on
    the same bytes, with the same destination; trailing bytes are ignored. *)
Theorem destination_decoders_agree buf :
  ParseDestinationFromBuf buf
  = match ReadDestination buf with Ok (d, _) => Some d | Err _ => None end.
Proof. apply decoders_agree. Qed.

Lemma write_at_next pre src buf pos :
  length pre = pos →
  write_at pos src (pre ++ drop pos buf) = (pre ++ src) ++ drop (pos + length src) buf.
Proof.
  intros <-. unfold write_at. rewrite take_app_length, <- app_assoc. do 2 f_equal.
  by rewrite drop_app_add, drop_drop.
Qed.

Lemma write_at_first src buf : write_at 0 src buf = src ++ drop (length src) buf.
Proof. done. Qed.

Lemma be_put2 z : [zb (Z.shiftr z 8); zb z] = be_put 2 z.
Proof. cbn. by rewrite Z.shiftr_0_r. Qed.

Lemma length_filled (bs buf : list byte) :
  (length bs ≤ length buf)%nat → length (bs ++ drop (length bs) buf) = length buf.
Proof. intros. rewrite length_app, length_drop. lia. Qed.

(** Writing the address and the port after the type byte. *)
Lemma write_rest t (addr : list byte) (pos : nat) port buf :
  pos = S (length addr) →
  write_at pos (be_put 2 port) ([t] ++ addr ++ drop pos buf)
  = (t :: addr ++ be_put 2 port) ++ drop (pos + 2) buf.
Proof.
  intros ->. change ([t] ++ addr ++ drop (S (length addr)) buf)
    with ((t :: addr) ++ drop (S (length addr)) buf).
  rewrite write_at_next by done. by rewrite length_be_put.
Qed.

(** The success case of the buffer writer, from its two outputs. *)
Lemma buffer_filled (buf bs buf' : list byte) n :
  n = length bs → buf' = bs ++ drop n buf → (n ≤ MaxHeaderSize ≤ length buf)%nat →
  length buf' = length buf
  ∧ ((length buf < MaxHeaderSize)%nat → n = 0%nat ∧ buf' = buf)
  ∧ ((MaxHeaderSize ≤ length buf)%nat → n = length bs ∧ buf' = bs ++ drop n buf).
Proof. intros -> -> ?. split_and!; [apply length_filled; lia|lia|done]. Qed.

(** The buffer writer agrees with the streaming writer.  Into a buffer of
    at least MaxHeaderSize bytes, WriteDestinationBuffer reports success exactly
    when WriteDestination succeeds, or when a domain is too long (which it cuts
    to 255 bytes); the reported prefix of the buffer is then exactly the bytes
    WriteDestination writes for the (cut) destination, the rest of the buffer
    is untouched, and the buffer keeps its length.  A shorter buffer is left
    alone. *)
Theorem WriteDestinationBuffer_agrees buf dest :
  let '(n, buf') := WriteDestinationBuffer buf dest in
  let dest' := if AddrType dest =? AddrTypeDomain
               then mkDest (AddrType dest) (take 255 (Addr dest)) (Port dest) else dest in
  length buf' = length buf
  ∧ ((length buf < MaxHeaderSize)%nat → n = 0%nat ∧ buf' = buf)
  ∧ ((MaxHeaderSize ≤ length buf)%nat →
       match WriteDestination dest' with
       | (bs, None) => n = length bs ∧ buf' = bs ++ drop n buf
       | (_, Some _) => n = 0%nat
       end).
Proof.
  unfold WriteDestinationBuffer, WriteDestination, writeAddr.
  destruct (length buf <? MaxHeaderSize)%nat eqn:El.
  { apply Nat.ltb_lt in El. split_and!; [done|done|lia]. }
  apply Nat.ltb_ge in El. rewrite write_at_first, be_put2. cbn [length].
  assert (length ([zb (AddrType dest)] ++ drop 1 buf) = length buf) as Hlen1
    by (apply (length_filled [_]); unfold MaxHeaderSize in El; simpl; lia).
  destruct (AddrType dest =? AddrTypeIPv4) eqn:E4.
  { assert ((AddrType dest =? AddrTypeDomain) = false) as -> by (bools; by rewrite E4).
    rewrite E4. destruct (ParseIP (Addr dest)) as [ip|]; [|split_and!; [done|lia|done]].
    destruct (To4 ip) as [v4|] eqn:Et; [|split_and!; [done|lia|done]].
    apply To4_length in Et. rewrite (write_at_next [_]), <- app_assoc, Et, write_rest by (simpl; lia).
    apply buffer_filled; [cbn [length]; by rewrite length_app, Et|done|unfold MaxHeaderSize in *; lia]. }
  destruct (AddrType dest =? AddrTypeDomain) eqn:Ed.
  { cbn [AddrType Addr Port]. rewrite E4, Ed.
    set (l := if zlen (Addr dest) >? 255 then 255%nat else length (Addr dest)).
    assert (l = length (take 255 (Addr dest)) ∧ (l ≤ 255)%nat ∧ take l (Addr dest) = take 255 (Addr dest))
      as (Hl & Hl' & ->).
    { unfold l, zlen. rewrite length_take. destruct (_ >? 255) eqn:E; bools; unfold zlen in E;
        (split_and!; [lia|lia|]); [done|by rewrite !take_ge by lia]. }
    assert ((zlen (take 255 (Addr dest)) >? 255) = false) as ->.
    { rewrite Z.gtb_ltb. apply Z.ltb_ge. unfold zlen. lia. }
    rewrite (write_at_next [_]), write_at_next, <- Hl by done.
    replace (zlen (take 255 (Addr dest))) with (Z.of_nat l) by (unfold zlen; lia).
    apply buffer_filled; [| |unfold MaxHeaderSize in *; lia].
    - cbn [length]. rewrite !length_app, length_be_put. cbn [length]. lia.
    - rewrite <- app_assoc.
      apply (write_rest (zb (AddrType dest)) (zb (Z.of_nat l) :: take 255 (Addr dest)) (2 + l)).
      simpl. lia. }
  cbn [AddrType Addr Port]. rewrite E4, Ed.
  destruct (AddrType dest =? AddrTypeIPv6) eqn:E6; [|split_and!; [done|lia|done]].
  destruct (ParseIP (Addr dest)) as [ip|] eqn:Ep; [|split_and!; [done|lia|done]].
  destruct (To4 ip) as [v4|] eqn:Et; [split_and!; [done|lia|done]|].
  apply ParseIP_length in Ep. rewrite (write_at_next [_]), <- app_assoc, Ep, write_rest by (simpl; lia).
  apply buffer_filled; [cbn [length]; by rewrite length_app, Ep|done|unfold MaxHeaderSize in *; lia].
Qed.
