(* ===== verification/Attachment.v ===== *)
(** * Carrier attachments (src/pkg/session/attachment.go)

    An [Attachment] is the transport binding of one session direction.  Every
    method is one critical section on [a.mu]; the runtime parts it touches, the
    grace timers started by [time.AfterFunc] and the [ready] channels, are
    explicit: a timer is armed, then due (it fired and its callback is waiting
    for the mutex), and [Stop] removes an armed timer but not a due one.  The
    second part is the versioned FrameRebind payload codec. *)
From S2P Require Export Destination.
#[local] Open Scope Z_scope.

(** ** State *)

Inductive AttachmentState := AttUnavailable | AttRebinding | AttAttached | AttClosed.

#[export] Instance AttachmentState_eq_decision : EqDecision AttachmentState.
Proof. solve_decision. Defined.

Definition timerID := nat.
Definition chanID := nat.

Record Attachment := mkAtt {
  state : AttachmentState;
  gen : Z;                       (* uint64 *)
  timer : option timerID;
  ready : chanID;
  readyClosed : bool;
  lastRebindGen : Z;
  epochDone : option chanID;
  (* the runtime: timers and channels *)
  armed : gset timerID;
  due : gset timerID;
  nextTimer : timerID;
  closedReady : gset chanID;
  nextReady : chanID;
  (* the states in which onTimeout was called, oldest first *)
  timeouts : list AttachmentState
}.

#[export] Instance Attachment_expandable : Expandable Attachment := {| expand := λ a,
  mkAtt (state a) (gen a) (timer a) (ready a) (readyClosed a) (lastRebindGen a) (epochDone a)
    (armed a) (due a) (nextTimer a) (closedReady a) (nextReady a) (timeouts a) |}.

(** ** Operations *)

Definition NewAttachment : Attachment :=
  {| state := AttUnavailable; gen := 0; timer := None; ready := 0%nat; readyClosed := false;
     lastRebindGen := 0; epochDone := None; armed := ∅; due := ∅; nextTimer := 0%nat;
     closedReady := ∅; nextReady := 1%nat; timeouts := [] |}.

Definition State (a : Attachment) : AttachmentState * Z := (state a, gen a).

(** [if a.timer != nil { a.timer.Stop(); a.timer = nil }] *)
Definition stopTimer (a : Attachment) : Attachment :=
  match timer a with
  | Some t => a <| armed := armed a ∖ {[t]} |> <| timer := None |>
  | None => a
  end.

(** [a.ready = make(chan struct{}); a.readyClosed = false] *)
Definition freshReady (a : Attachment) : Attachment :=
  a <| ready := nextReady a |> <| nextReady := S (nextReady a) |> <| readyClosed := false |>.

Definition closeReady (a : Attachment) : Attachment :=
  if readyClosed a then a
  else a <| closedReady := {[ready a]} ∪ closedReady a |> <| readyClosed := true |>.

Definition Attach (g : Z) (a : Attachment) : bool * Attachment :=
  match state a with
  | AttUnavailable | AttRebinding =>
    (true, closeReady (stopTimer (a <| state := AttAttached |> <| gen := g |>)))
  | _ => (false, a)
  end.

Definition startTimerLocked (a : Attachment) : Attachment :=
  match timer a with
  | Some _ => a
  | None => a <| timer := Some (nextTimer a) |> <| armed := {[nextTimer a]} ∪ armed a |>
              <| nextTimer := S (nextTimer a) |>
  end.

Definition Detach (g : Z) (a : Attachment) : bool * Attachment :=
  if negb (bool_decide (state a = AttAttached)) || negb (gen a =? g) then (false, a)
  else (true, startTimerLocked (freshReady (a <| state := AttUnavailable |> <| gen := 0 |>))).

Definition BeginRebind (a : Attachment) : bool * Attachment :=
  match state a with
  | AttUnavailable => (true, a <| state := AttRebinding |>)
  | _ => (false, a)
  end.

Definition FailRebind (a : Attachment) : bool * Attachment :=
  match state a with
  | AttRebinding => (true, a <| state := AttUnavailable |>)
  | _ => (false, a)
  end.

Definition Close (a : Attachment) : Attachment :=
  match state a with
  | AttClosed => a
  | _ => freshReady (stopTimer (a <| state := AttClosed |> <| gen := 0 |>))
  end.

Definition ReadySignal (a : Attachment) : chanID := ready a.
Definition LastRebindGen (a : Attachment) : Z := lastRebindGen a.
Definition SetLastRebindGen (g : Z) (a : Attachment) : Attachment := a <| lastRebindGen := g |>.
Definition SetEpochDone (d : chanID) (a : Attachment) : Attachment := a <| epochDone := Some d |>.

(** JoinEpoch waits for the recorded relay, up to a timeout: [Some c] is the
    channel the caller must see closed, [None] nothing to wait for. *)
Definition JoinEpoch (a : Attachment) : option chanID := epochDone a.

(** The runtime fires an armed timer: its callback goroutine is now due. *)
Definition fire (t : timerID) (a : Attachment) : Attachment :=
  if bool_decide (t ∈ armed a) then a <| armed := armed a ∖ {[t]} |> <| due := {[t]} ∪ due a |> else a.

(** The callback passed to [time.AfterFunc]. *)
Definition timerCallback (t : timerID) (a : Attachment) : Attachment :=
  if bool_decide (t ∈ due a) then
    let a := a <| due := due a ∖ {[t]} |> in
    match state a with
    | AttClosed => a
    | st => a <| timer := None |> <| timeouts := timeouts a ++ [st] |>
    end
  else a.

(** ** Runs *)

Inductive aop :=
| AAttach (g : Z) | ADetach (g : Z) | ABeginRebind | AFailRebind | AClose
| ASetLastRebindGen (g : Z) | ASetEpochDone (d : chanID)
| AFire (t : timerID) | ACallback (t : timerID).

Definition astep (op : aop) (a : Attachment) : bool * Attachment :=
  match op with
  | AAttach g => Attach g a
  | ADetach g => Detach g a
  | ABeginRebind => BeginRebind a
  | AFailRebind => FailRebind a
  | AClose => (true, Close a)
  | ASetLastRebindGen g => (true, SetLastRebindGen g a)
  | ASetEpochDone d => (true, SetEpochDone d a)
  | AFire t => (true, fire t a)
  | ACallback t => (true, timerCallback t a)
  end.

Definition arun (ops : list aop) (a : Attachment) : Attachment :=
  foldl (λ a op, snd (astep op a)) a ops.

(** ** Invariants *)

Record ainv (a : Attachment) : Prop := {
  ai_ready : readyClosed a = true ↔ state a = AttAttached;
  ai_chan : ready a ∈ closedReady a ↔ readyClosed a = true;
  ai_fresh : (ready a < nextReady a)%nat ∧ ∀ c, c ∈ closedReady a → (c < nextReady a)%nat;
  ai_timer : state a = AttAttached ∨ state a = AttClosed → timer a = None;
  ai_gen : state a ≠ AttAttached → gen a = 0;
  ai_tids : ∀ t, t ∈ armed a ∨ t ∈ due a ∨ timer a = Some t → (t < nextTimer a)%nat
}.

Lemma ainv_new : ainv NewAttachment.
Proof. constructor; simpl; try done; try set_solver; try lia. Qed.

Lemma ainv_Attach g a : ainv a → ainv (snd (Attach g a)).
Proof.
  intros Ha. unfold Attach. destruct (state a) eqn:Es; [..|done|done].
  all: destruct Ha as [Hr Hc [Hf1 Hf2] Ht Hg Hti]; unfold stopTimer, closeReady; rewrite Es in *;
    assert (readyClosed a = false) as Hrc by (destruct (readyClosed a); naive_solver);
    simpl; destruct (timer a) as [t|] eqn:Et; simpl; rewrite ?Hrc; simpl;
    constructor; simpl; try done; try set_solver; try (split; [lia|set_solver]).
Qed.

Lemma ainv_Detach g a : ainv a → ainv (snd (Detach g a)).
Proof.
  intros Ha. unfold Detach. case_bool_decide as Es; simpl; [|done].
  destruct (gen a =? g); simpl; [|done].
  destruct Ha as [Hr Hc [Hf1 Hf2] Ht Hg Hti]. unfold startTimerLocked, freshReady.
  simpl. rewrite (Ht (or_introl Es)). simpl.
  constructor; simpl; try done.
  - split; [|done]. intros Hin%Hf2. lia.
  - split; [lia|]. intros c Hin%Hf2. lia.
  - naive_solver.
  - intros t [[->%elem_of_singleton|?]%elem_of_union|[?|?]]; simplify_eq; [lia|..];
      [assert (t < nextTimer a)%nat by eauto; lia|assert (t < nextTimer a)%nat by eauto; lia|lia].
Qed.

Lemma ainv_Close a : ainv a → ainv (Close a).
Proof.
  intros Ha. unfold Close. destruct (state a) eqn:Es; [..|done].
  all: destruct Ha as [Hr Hc [Hf1 Hf2] Ht Hg Hti]; unfold stopTimer, freshReady;
    simpl; destruct (timer a) as [t|] eqn:Et; simpl;
    constructor; simpl; try done;
    first [split; [intros Hin%Hf2; lia|done]
          |split; [lia|intros c Hin%Hf2; lia]
          |intros t' [?|[?|?]]; simplify_eq; apply Hti; set_solver].
Qed.

Lemma ainv_timer t a : ainv a → ainv (fire t a) ∧ ainv (timerCallback t a).
Proof.
  intros Ha. split.
  - unfold fire. case_bool_decide; [|done]. destruct Ha as [Hr Hc Hf Ht Hg Hti].
    constructor; simpl; try done. intros t' H'. apply Hti. set_solver.
  - unfold timerCallback. case_bool_decide; [|done]. destruct Ha as [Hr Hc Hf Ht Hg Hti].
    simpl. destruct (state a) eqn:Es; constructor; simpl; rewrite ?Es; try done;
      intros t' H'; apply Hti; set_solver.
Qed.

Lemma ainv_step op a : ainv a → ainv (snd (astep op a)).
Proof.
  intros Ha. destruct op; simpl.
  - by apply ainv_Attach.
  - by apply ainv_Detach.
  - unfold BeginRebind. destruct (state a) eqn:Es; try done.
    destruct Ha as [Hr Hc Hf Ht Hg Hti]. rewrite Es in *.
    constructor; simpl; try done; [|naive_solver|by intros; apply Hg].
    split; [intros Hx%Hr|]; done.
  - unfold FailRebind. destruct (state a) eqn:Es; try done.
    destruct Ha as [Hr Hc Hf Ht Hg Hti]. rewrite Es in *.
    constructor; simpl; try done; [|naive_solver|by intros; apply Hg].
    split; [intros Hx%Hr|]; done.
  - by apply ainv_Close.
  - by destruct Ha.
  - by destruct Ha.
  - by apply ainv_timer.
  - by apply ainv_timer.
Qed.

Lemma ainv_run ops a : ainv a → ainv (arun ops a).
Proof.
  revert a. induction ops as [|op ops IH]; intros a Ha; [done|]. by apply IH, ainv_step.
Qed.

(** ** Properties of the binding *)

(** The binding state is coherent after every interleaving of Attach,
    Detach, BeginRebind, FailRebind, Close, timer expiries and (possibly late)
    timer callbacks: the ready channel handed out by ReadySignal is closed
    exactly while the attachment is Attached, a generation is recorded only
    while it is Attached, and an Attached or Closed attachment holds no grace
    timer. *)
Theorem attachment_coherent ops :
  let a := arun ops NewAttachment in
  ((ReadySignal a) ∈ closedReady a ↔ state a = AttAttached)
  ∧ (state a ≠ AttAttached → State a = (state a, 0))
  ∧ (state a = AttAttached ∨ state a = AttClosed → timer a = None).
Proof.
  intros a. destruct (ainv_run ops _ ainv_new) as [Hr Hc _ Ht Hg _]. fold a in Hr, Hc, Ht, Hg.
  unfold ReadySignal, State. split_and!; [by rewrite Hc|intros H; by rewrite Hg|done].
Qed.

(** Everything a waiter or the session can observe of a closed attachment. *)
Lemma astep_closed op a :
  state a = AttClosed →
  state (snd (astep op a)) = AttClosed ∧ timeouts (snd (astep op a)) = timeouts a
  ∧ ready (snd (astep op a)) = ready a ∧ closedReady (snd (astep op a)) = closedReady a.
Proof.
  intros Hs. destruct op; simpl; unfold Attach, Detach, BeginRebind, FailRebind, Close; rewrite ?Hs; try done.
  - unfold fire. by case_bool_decide.
  - unfold timerCallback. case_bool_decide; [|done]. simpl. by rewrite Hs.
Qed.

(** Closed is final.  Once an attachment is closed (its direction was
    half-closed or the session torn down) no sequence of calls and timer events
    re-binds it: Attach, Detach and BeginRebind keep returning false, it never
    calls onTimeout again, and its ready channel stays open for good. *)
Theorem attachment_closed_final ops a g :
  state a = AttClosed →
  let a' := arun ops a in
  state a' = AttClosed ∧ timeouts a' = timeouts a
  ∧ ready a' = ready a ∧ closedReady a' = closedReady a
  ∧ fst (Attach g a') = false ∧ fst (Detach g a') = false ∧ fst (BeginRebind a') = false.
Proof.
  intros Hs a'. assert (state a' = AttClosed ∧ timeouts a' = timeouts a
    ∧ ready a' = ready a ∧ closedReady a' = closedReady a) as (H1 & H2 & H3 & H4).
  { unfold a'. clear a'. revert a Hs. induction ops as [|op ops IH]; intros a Hs; [done|].
    destruct (astep_closed op a Hs) as (H1 & <- & <- & <-). by apply IH. }
  split_and!; [done..| | |]; unfold Attach, Detach, BeginRebind; by rewrite H1.
Qed.

Lemma attachment_closed_final_witness :
  state (arun [AAttach 9; AFire 0%nat; ACallback 0%nat] (arun [AAttach 1; ADetach 1; AClose] NewAttachment)) = AttClosed.
Proof.
  apply (attachment_closed_final [AAttach 9; AFire 0%nat; ACallback 0%nat]
           (arun [AAttach 1; ADetach 1; AClose] NewAttachment) 9). reflexivity.
Defined.

(** The stale-carrier guard.  Detach acts exactly when the attachment is
    bound to the very generation that died: then it becomes Unavailable with an
    armed grace timer and a new, open ready channel.  In every other case (not
    attached, or bound to another generation because the session already moved
    to a newer carrier) nothing at all changes. *)
Theorem detach_generation_guard ops g :
  let a := arun ops NewAttachment in
  let '(ok, a') := Detach g a in
  (ok = true ↔ State a = (AttAttached, g))
  ∧ (ok = false → a' = a)
  ∧ (ok = true → State a' = (AttUnavailable, 0) ∧ ((ReadySignal a') ∉ closedReady a')
                 ∧ ∃ t, timer a' = Some t ∧ t ∈ armed a').
Proof.
  intros a. pose proof (ainv_run ops _ ainv_new) as Ha. fold a in Ha.
  pose proof (ainv_Detach g a Ha) as Ha'. unfold Detach, State in *.
  case_bool_decide as Es; simpl in *; [|split_and!; [|done|done]; split; [done|congruence]].
  destruct (gen a =? g) eqn:Eg; simpl in *; bools; [|split_and!; [|done|done]; split; [done|congruence]].
  split_and!; [split; [intros _; by rewrite Es, Eg|done]|done|]. intros _. split_and!.
  - unfold startTimerLocked, freshReady. simpl. by destruct (timer a).
  - destruct Ha' as [Hr Hc _ _ _ _]. unfold ReadySignal. rewrite Hc, Hr.
    unfold startTimerLocked, freshReady. simpl. by destruct (timer a).
  - unfold startTimerLocked, freshReady. simpl. rewrite (ai_timer a Ha (or_introl Es)). simpl.
    eexists. split; [done|]. set_solver.
Qed.

(** ** Grace timers *)

(** A timer that expires and whose callback gets the mutex before anybody else:
    the schedule in which a stopped timer is never heard of again. *)
Inductive prompt_op := PCall (op : aop) | PTimeout (t : timerID).

Definition is_call (op : aop) : bool :=
  match op with AFire _ | ACallback _ => false | _ => true end.

Definition prompt_ok (p : prompt_op) : bool := match p with PCall op => is_call op | PTimeout _ => true end.

Definition pstep (p : prompt_op) (a : Attachment) : Attachment :=
  match p with
  | PCall op => snd (astep op a)
  | PTimeout t => timerCallback t (fire t a)
  end.

Definition prun (ps : list prompt_op) (a : Attachment) : Attachment := foldl (λ a p, pstep p a) a ps.

Record tinv (a : Attachment) : Prop := {
  ti_due : due a = ∅;
  ti_armed : ∀ t, t ∈ armed a ↔ timer a = Some t;
  ti_idle : state a = AttAttached ∨ state a = AttClosed → timer a = None;
  ti_out : Forall (λ st, st = AttUnavailable ∨ st = AttRebinding) (timeouts a);
  ti_tids : ∀ t, t ∈ armed a → (t < nextTimer a)%nat
}.

Lemma att_timer_step p a : prompt_ok p = true → tinv a → tinv (pstep p a).
Proof.
  intros Hp Ha. pose proof Ha as [Hd Har Hi Ho Ht]. destruct p as [op|t]; simpl.
  - destruct op; try done; simpl.
    + unfold Attach. destruct (state a) eqn:Es; [..|exact Ha|exact Ha];
        unfold stopTimer, closeReady; simpl; destruct (timer a) as [t|] eqn:Et; simpl;
        destruct (readyClosed a); constructor; simpl; try done; set_solver.
    + unfold Detach. case_bool_decide as Es; simpl; [|exact Ha].
      destruct (gen a =? g); simpl; [|exact Ha].
      unfold startTimerLocked, freshReady. simpl. rewrite (Hi (or_introl Es)) in *. simpl.
      constructor; simpl; try done;
        first [intros t [->%elem_of_singleton|Hin%Ht]%elem_of_union; lia|set_solver|naive_solver].
    + unfold BeginRebind. destruct (state a) eqn:Es; [|exact Ha..].
      constructor; simpl; try done; naive_solver.
    + unfold FailRebind. destruct (state a) eqn:Es; [exact Ha| |exact Ha..].
      constructor; simpl; try done; naive_solver.
    + unfold Close. destruct (state a) eqn:Es; [..|exact Ha];
        unfold stopTimer, freshReady; simpl; destruct (timer a) as [t|] eqn:Et; simpl;
        constructor; simpl; try done; set_solver.
  - unfold fire. case_bool_decide as Hin; unfold timerCallback.
    + simpl. rewrite bool_decide_true by set_solver.
      assert (timer a = Some t) as Het by by apply Har.
      destruct (state a) eqn:Es; try (rewrite Hi in Het; [done|naive_solver]);
        constructor; simpl; try done; try set_solver; try naive_solver.
      all: apply Forall_app; split; [done|]; constructor; [naive_solver|done].
    + rewrite bool_decide_false by set_solver. done.
Qed.

Lemma att_timer_run ps a : forallb prompt_ok ps = true → tinv a → tinv (prun ps a).
Proof.
  revert a. induction ps as [|p ps IH]; intros a Hp Ha; [done|]. simpl in Hp. bools.
  apply IH; [done|]. by apply att_timer_step.
Qed.

(** The grace window.  When expiring timers run their callback before
    another call gets the mutex, onTimeout is only ever called while the
    direction is Unavailable or Rebinding, the one armed timer is always the
    recorded one, and hence Attach and Close cancel every pending expiry: an
    Attached or Closed attachment has no armed timer. *)
Theorem grace_timer_sound ps :
  forallb prompt_ok ps = true →
  let a := prun ps NewAttachment in
  Forall (λ st, st = AttUnavailable ∨ st = AttRebinding) (timeouts a)
  ∧ (∀ t, t ∈ armed a ↔ timer a = Some t)
  ∧ (state a = AttAttached ∨ state a = AttClosed → armed a = ∅).
Proof.
  intros Hp a. assert (tinv a) as [Hd Har Hi Ho Ht].
  { apply att_timer_run; [done|]. constructor; simpl; try done; set_solver. }
  split_and!; [done|done|]. intros Hs%Hi. apply set_eq. intros t. rewrite Har, Hs. set_solver.
Qed.

Lemma grace_timer_sound_witness :
  armed (prun [PCall (AAttach 1); PCall (ADetach 1); PCall ABeginRebind; PCall (AAttach 2)] NewAttachment) = ∅.
Proof.
  apply (grace_timer_sound [PCall (AAttach 1); PCall (ADetach 1); PCall ABeginRebind; PCall (AAttach 2)]);
    [reflexivity|left; reflexivity].
Defined.

(** The same is not true when a callback that already fired is overtaken: the
    callback re-checks only for AttClosed.  A timer that expires just before a
    successful rebind still calls onTimeout, while the direction is Attached. *)
Lemma stale_grace_timer_fires_attached :
  timeouts (arun [AAttach 1; ADetach 1; AFire 0%nat; ABeginRebind; AAttach 2; ACallback 0%nat] NewAttachment)
  = [AttAttached].
Proof. reflexivity. Qed.

(** It also forgets the timer of a later loss, which the next Attach then
    cannot stop: the attachment is Attached with a timer still armed. *)
Lemma stale_grace_timer_leaks :
  let a := arun [AAttach 1; ADetach 1; AFire 0%nat; AAttach 2; ADetach 2; ACallback 0%nat; AAttach 3] NewAttachment in
  state a = AttAttached ∧ timer a = None ∧ armed a = {[1%nat]}.
Proof. vm_compute. done. Qed.

(** ** FrameRebind payloads *)

Definition RebindVersion : Z := 1.
Definition RebindVersionV2 : Z := 2.
Definition RebindPayloadSize : nat := 1 + SessionIDLen + 8.
Definition RebindMaxCarrierIDLen : nat := 32.

Record Rebind := mkRebind {
  rb_Version : Z;
  rb_SessionID : list byte;      (* [16]byte *)
  rb_CarrierID : gostring;
  rb_Gen : Z                     (* uint64 *)
}.

Definition EncodeRebind (sid : list byte) (g : Z) : list byte :=
  zb RebindVersion :: sid ++ be_put 8 g.

Definition EncodeRebindV2 (sid : list byte) (carrierID : gostring) (g : Z) : list byte :=
  let carrierID := if (RebindMaxCarrierIDLen <? length carrierID)%nat
                   then take RebindMaxCarrierIDLen carrierID else carrierID in
  zb RebindVersionV2 :: sid ++ [zb (zlen carrierID)] ++ carrierID ++ be_put 8 g.

Definition ParseRebind (payload : list byte) : option (list byte * Z) :=
  if negb (bool_decide (length payload = RebindPayloadSize))
     || negb (bz (nth 0 payload x00) =? RebindVersion) then None
  else Some (slice 1 17 payload, be_get (slice 17 25 payload)).

Definition ParseRebindAny (payload : list byte) : option Rebind :=
  if bool_decide (length payload = 0%nat) then None
  else
    let v := bz (nth 0 payload x00) in
    if v =? RebindVersion then
      if negb (bool_decide (length payload = RebindPayloadSize)) then None
      else Some (mkRebind RebindVersion (slice 1 17 payload) [] (be_get (slice 17 25 payload)))
    else if v =? RebindVersionV2 then
      if (length payload <? 1 + SessionIDLen + 1)%nat then None
      else
        let idLen := Z.to_nat (bz (nth 17 payload x00)) in
        if (RebindMaxCarrierIDLen <? idLen)%nat then None
        else if negb (bool_decide (length payload = 1 + SessionIDLen + 1 + idLen + 8)%nat) then None
        else Some (mkRebind RebindVersionV2 (slice 1 17 payload) (slice 18 (18 + idLen) payload)
                     (be_get (slice (18 + idLen) (18 + idLen + 8) payload)))
    else None.

(** The encoder that matches a decoded payload. *)
Definition EncodeRebindAny (r : Rebind) : list byte :=
  if rb_Version r =? RebindVersion then EncodeRebind (rb_SessionID r) (rb_Gen r)
  else EncodeRebindV2 (rb_SessionID r) (rb_CarrierID r) (rb_Gen r).

Definition rebind_wf (r : Rebind) : Prop :=
  length (rb_SessionID r) = SessionIDLen ∧ in_u 64 (rb_Gen r)
  ∧ ((rb_Version r = RebindVersion ∧ rb_CarrierID r = [])
     ∨ (rb_Version r = RebindVersionV2 ∧ (length (rb_CarrierID r) ≤ RebindMaxCarrierIDLen)%nat)).

Lemma slice_cons i j (x : byte) l : slice (S i) (S j) (x :: l) = slice i j l.
Proof. done. Qed.

Lemma slice_mid (a b c : list byte) i j :
  i = length a → j = (length a + length b)%nat → slice i j (a ++ b ++ c) = b.
Proof.
  intros -> ->. unfold slice. rewrite drop_app_length.
  replace (length a + length b - length a)%nat with (length b) by lia. apply take_app_length.
Qed.

Lemma ParseRebindAny_V1 sid g :
  length sid = SessionIDLen → in_u 64 g →
  ParseRebindAny (EncodeRebind sid g) = Some (mkRebind RebindVersion sid [] g).
Proof.
  intros Hs Hg. unfold ParseRebindAny, EncodeRebind. cbn [length nth].
  rewrite bool_decide_false by done. change (bz (zb RebindVersion) =? RebindVersion) with true.
  rewrite length_app, Hs, length_be_put, bool_decide_true by done. cbn [negb].
  rewrite !slice_cons. repeat f_equal.
  - apply (slice_mid [] sid); rewrite ?Hs; done.
  - rewrite <- (app_nil_r (be_put 8 g)), slice_mid by (rewrite ?Hs; done). by apply be_get_put_u.
Qed.

Lemma ParseRebindAny_V2 sid cid g :
  length sid = SessionIDLen → in_u 64 g → (length cid ≤ RebindMaxCarrierIDLen)%nat →
  ParseRebindAny (EncodeRebindV2 sid cid g) = Some (mkRebind RebindVersionV2 sid cid g).
Proof.
  intros Hs Hg Hc. unfold ParseRebindAny, EncodeRebindV2.
  rewrite (proj2 (Nat.ltb_ge _ _)) by done. cbn [nth]. rewrite bool_decide_false by done.
  change (bz (zb RebindVersionV2) =? RebindVersion) with false.
  change (bz (zb RebindVersionV2) =? RebindVersionV2) with true. cbv iota. cbv zeta.
  assert (length (zb RebindVersionV2 :: sid ++ [zb (zlen cid)] ++ cid ++ be_put 8 g)
          = (1 + SessionIDLen + 1 + length cid + 8)%nat) as Hl.
  { cbn [length]. rewrite !length_app, Hs, length_be_put. simpl. lia. }
  rewrite Hl, (proj2 (Nat.ltb_ge _ _)) by lia.
  assert (bz (nth 16 (sid ++ [zb (zlen cid)] ++ cid ++ be_put 8 g) x00) = zlen cid) as ->.
  { rewrite app_nth2, Hs by (rewrite Hs; unfold SessionIDLen; lia). simpl. rewrite bz_zb, wrapu_id; [done|].
    unfold in_u, zlen, RebindMaxCarrierIDLen in *. lia. }
  replace (Z.to_nat (zlen cid)) with (length cid) by (unfold zlen; lia).
  rewrite (proj2 (Nat.ltb_ge _ _)) by done. rewrite bool_decide_true by done. cbn [negb].
  change (18 + length cid)%nat with (S (17 + length cid)). change (S (17 + length cid) + 8)%nat with (S (17 + length cid + 8)).
  rewrite !slice_cons. repeat f_equal.
  - apply (slice_mid [] sid); rewrite ?Hs; done.
  - rewrite (app_assoc sid). apply slice_mid; rewrite length_app, Hs; done.
  - rewrite (app_assoc sid), (app_assoc (sid ++ _)), <- (app_nil_r (be_put 8 g)), slice_mid
      by (rewrite !length_app, Hs, ?length_be_put; simpl; lia). by apply be_get_put_u.
Qed.

Lemma split_slices (l : list byte) i j : (i ≤ j)%nat → drop i l = slice i j l ++ drop j l.
Proof.
  intros. unfold slice. rewrite <- (take_drop (j - i) (drop i l)) at 1. f_equal.
  rewrite drop_drop. f_equal. lia.
Qed.

Lemma slice_to_end (l : list byte) i j : length l = j → drop i l = slice i j l.
Proof. intros <-. unfold slice. rewrite take_ge; [done|]. rewrite length_drop. lia. Qed.

Lemma ParseRebindAny_V1_inv v p :
  bz v = RebindVersion → length (v :: p) = RebindPayloadSize →
  rebind_wf (mkRebind RebindVersion (slice 1 17 (v :: p)) [] (be_get (slice 17 25 (v :: p))))
  ∧ v :: p = EncodeRebind (slice 1 17 (v :: p)) (be_get (slice 17 25 (v :: p))).
Proof.
  intros Hv Hl. injection Hl as Hl. change (length p = 24%nat) in Hl. split.
  - unfold rebind_wf. cbn [rb_SessionID rb_Gen rb_Version rb_CarrierID]. split_and!; [| |by left].
    + apply length_slice. simpl. lia.
    + apply (be_get_slice_u 17 25). simpl. lia.
  - unfold EncodeRebind. rewrite <- Hv, zb_bz, !slice_cons. f_equal.
    rewrite be_put_get_n by (rewrite length_slice; lia).
    rewrite <- (slice_to_end p 16 24), <- split_slices by lia. by rewrite drop_0.
Qed.

Lemma ParseRebindAny_V2_inv v p k :
  bz v = RebindVersionV2 → k = Z.to_nat (bz (nth 17 (v :: p) x00)) → (k ≤ RebindMaxCarrierIDLen)%nat →
  length (v :: p) = (1 + SessionIDLen + 1 + k + 8)%nat →
  let r := mkRebind RebindVersionV2 (slice 1 17 (v :: p)) (slice 18 (18 + k) (v :: p))
             (be_get (slice (18 + k) (18 + k + 8) (v :: p))) in
  rebind_wf r ∧ v :: p = EncodeRebindV2 (rb_SessionID r) (rb_CarrierID r) (rb_Gen r).
Proof.
  intros Hv Hk Hle Hl r. injection Hl as Hl. change (length p = 17 + k + 8)%nat in Hl.
  assert (length (rb_CarrierID r) = k) as Hlen by (unfold r; cbn [rb_CarrierID]; rewrite length_slice; simpl; lia).
  split.
  - unfold rebind_wf. split_and!; [| |right; split; [done|by rewrite Hlen]].
    + apply length_slice. simpl. lia.
    + unfold r; cbn [rb_Gen]. replace 64 with (8 * Z.of_nat (18 + k + 8 - (18 + k))) by lia.
      apply be_get_slice_u. simpl. lia.
  - unfold EncodeRebindV2. assert ((RebindMaxCarrierIDLen <? length (rb_CarrierID r))%nat = false) as ->
      by (apply Nat.ltb_ge; lia).
    replace (zlen (rb_CarrierID r)) with (bz (nth 17 (v :: p) x00))
      by (unfold zlen; rewrite Hlen, Hk, Z2Nat.id by apply bz_range; done).
    rewrite <- Hv, !zb_bz. f_equal. unfold r. cbn [rb_SessionID rb_CarrierID rb_Gen].
    change (18 + k)%nat with (S (17 + k)). change (S (17 + k) + 8)%nat with (S (17 + k + 8)).
    rewrite !slice_cons. rewrite be_put_get_n by (rewrite length_slice; lia).
    rewrite <- (slice_to_end p (17 + k)) by lia. rewrite <- split_slices by lia.
    rewrite <- (drop_0 p) at 1. rewrite (split_slices p 0 16) by lia. f_equal. cbn [nth].
    destruct (lookup_lt_is_Some_2 p 16) as [x Hx]; [lia|].
    rewrite (drop_S p x 16 Hx), nth_lookup, Hx. done.
Qed.

(** The FrameRebind codec is a bijection.  Both payload versions decode to
    exactly what was encoded (session id, generation, and for version 2 the
    carrier id of at most 32 bytes), and conversely every payload ParseRebindAny
    accepts is byte for byte the encoding of what it decoded: no two payloads
    name the same rebind and a version-1 payload is never taken for version 2.
    The version-1-only parser accepts exactly the version-1 payloads. *)
Theorem rebind_codec_bijective :
  (∀ r, rebind_wf r → ParseRebindAny (EncodeRebindAny r) = Some r)
  ∧ (∀ p r, ParseRebindAny p = Some r → rebind_wf r ∧ p = EncodeRebindAny r)
  ∧ (∀ p sid g, ParseRebind p = Some (sid, g) ↔
       ParseRebindAny p = Some (mkRebind RebindVersion sid [] g)).
Proof.
  split_and!.
  - intros [v sid cid g] (Hs & Hg & [[Hv Hc]|[Hv Hc]]); simpl in *; subst.
    + by apply ParseRebindAny_V1.
    + by apply ParseRebindAny_V2.
  - intros p r. unfold ParseRebindAny. destruct p as [|v p]; [done|].
    rewrite bool_decide_false by done. cbn [nth].
    destruct (bz v =? RebindVersion) eqn:E1; bools.
    + case_bool_decide as Hl; [|done]. intros [= <-]. by apply ParseRebindAny_V1_inv.
    + destruct (bz v =? RebindVersionV2) eqn:E2; [|done]. bools.
      destruct (length (v :: p) <? _)%nat eqn:El; [done|]. set (k := Z.to_nat _).
      destruct (RebindMaxCarrierIDLen <? k)%nat eqn:Ek; [done|].
      apply Nat.ltb_ge in Ek. case_bool_decide as Hl; [|done]. intros [= <-].
      by apply (ParseRebindAny_V2_inv v p k).
  - intros p sid g. unfold ParseRebind, ParseRebindAny. destruct p as [|v p]; [done|].
    rewrite (bool_decide_false (length (v :: p) = 0%nat)) by done. cbn [nth].
    destruct (bz v =? RebindVersion) eqn:E1; case_bool_decide as Hl; cbn [orb negb].
    + split; [by intros [= <- <-]|by intros [= <- <-]].
    + done.
    + split; [done|]. intros H. repeat case_match; try done.
    + split; [done|]. intros H. repeat case_match; try done.
Qed.
