(* ===== verification/Session.v ===== *)
(** * Session lifecycle (src/pkg/session/session.go, streamstats.go)

    A session is torn down by whichever goroutine first moves it to Closing;
    the teardown itself runs outside the mutex, piece by piece, while other
    goroutines keep calling into the session.  Here every critical section is
    one atomic step, the teardown is a program counter [td] advanced by its own
    steps, and a run is any interleaving of calls and teardown steps.

    Ghost fields record what the outside world saw: how often the context was
    cancelled, which connections were closed, which hooks ran. *)
From S2P Require Export Attachment.
#[local] Open Scope Z_scope.

(** ** Lifecycle flags of the telemetry (streamstats.go) *)

Record SessionStats := mkSStats {
  FirstByte : bool;
  CleanHalfClose : bool;
  Terminated : bool;
  DataUndeliverable : bool;
  OpenNanos : Z;
  FirstByteNanos : Z
}.

#[export] Instance SessionStats_expandable : Expandable SessionStats := {| expand := λ s,
  mkSStats (FirstByte s) (CleanHalfClose s) (Terminated s) (DataUndeliverable s)
    (OpenNanos s) (FirstByteNanos s) |}.

(** [CompareAndSwap(false, true)]: whether this call won. *)
Definition MarkFirstByte (s : SessionStats) : bool * SessionStats :=
  if FirstByte s then (false, s) else (true, s <| FirstByte := true |>).

Definition MarkCleanHalfClose (s : SessionStats) : SessionStats := s <| CleanHalfClose := true |>.
Definition MarkTerminated (s : SessionStats) : SessionStats := s <| Terminated := true |>.
Definition MarkDataUndeliverable (s : SessionStats) : SessionStats := s <| DataUndeliverable := true |>.

Definition MarkFirstByteNanos (nanos : Z) (s : SessionStats) : SessionStats :=
  if negb (FirstByteNanos s =? 0) then s else s <| FirstByteNanos := nanos |>.

Definition TTFB (s : SessionStats) : Z :=
  let open := OpenNanos s in
  let first := FirstByteNanos s in
  if (open <=? 0) || (first <=? 0) || (first <? open) then 0 else first - open.

(** ** Session state *)

Inductive SessionState := StatePending | StateActive | StateClosing | StateClosed.

#[export] Instance SessionState_eq_decision : EqDecision SessionState.
Proof. solve_decision. Defined.

Inductive Direction := DirUp | DirDown.

#[export] Instance Direction_eq_decision : EqDecision Direction.
Proof. solve_decision. Defined.

Definition connID := nat.
Definition hookID := nat.

Definition BootstrapSuccess : Z := 0.
Definition BootstrapEndedWithoutResult : Z := 255.

(** Where the teardown is: what it does next.  [TdAtt dir] is the attachment
    close MarkDirClosed performs before it calls teardown. *)
Inductive tphase :=
| TdIdle
| TdAtt (dir : Direction)
| TdCancel | TdGate | TdBootstrap | TdClient | TdTarget | TdUpAtt | TdDownAtt
| TdHooks (rest : list hookID)
| TdFinish | TdDone
| TdFinished.

Record Session := mkSession {
  sstate : SessionState;
  upClosed : bool;
  downClosed : bool;
  reason : gostring;
  onClose : list hookID;
  bootstrapC : option (option Z);   (* nil channel, or its one-slot buffer *)
  ClientConn : option connID;
  TargetConn : option connID;
  clientConnClosed : bool;          (* the bootstrap gate *)
  UpAtt : option Attachment;
  DownAtt : option Attachment;
  StreamIDUp : Z;
  StreamIDDown : Z;
  (* goroutines inside the session *)
  td : tphase;
  pending : list Direction;         (* MarkDirClosed calls about to close an attachment *)
  (* ghost: observable effects *)
  cancels : Z;
  closedConns : list connID;
  hooksRun : list hookID;
  lateHooks : list hookID;
  doneCloses : Z;
  verdicts : list Z                 (* statuses received by WaitBootstrap *)
}.

#[export] Instance Session_expandable : Expandable Session := {| expand := λ s,
  mkSession (sstate s) (upClosed s) (downClosed s) (reason s) (onClose s) (bootstrapC s)
    (ClientConn s) (TargetConn s) (clientConnClosed s) (UpAtt s) (DownAtt s)
    (StreamIDUp s) (StreamIDDown s) (td s) (pending s) (cancels s) (closedConns s)
    (hooksRun s) (lateHooks s) (doneCloses s) (verdicts s) |}.

(** ** Operations *)

(** The attachments and stream ids are set by the node right after creation. *)
Definition NewSession (clientConn targetConn : option connID)
    (upAtt downAtt : option Attachment) (sidUp sidDown : Z) : Session :=
  {| sstate := StatePending; upClosed := false; downClosed := false; reason := [];
     onClose := []; bootstrapC := None; ClientConn := clientConn; TargetConn := targetConn;
     clientConnClosed := bool_decide (is_Some clientConn);
     UpAtt := upAtt; DownAtt := downAtt; StreamIDUp := sidUp; StreamIDDown := sidDown;
     td := TdIdle; pending := []; cancels := 0; closedConns := []; hooksRun := [];
     lateHooks := []; doneCloses := 0; verdicts := [] |}.

Definition Activate (s : Session) : bool * Session :=
  match sstate s with
  | StatePending => (true, s <| sstate := StateActive |>)
  | _ => (false, s)
  end.

Definition open (s : Session) : bool :=
  match sstate s with StatePending | StateActive => true | _ => false end.

Definition IsClosed (s : Session) : bool := bool_decide (sstate s = StateClosed).

Definition SetBootstrapChannel (s : Session) : bool * Session :=
  if negb (open s) then (false, s)
  else match bootstrapC s with
       | Some _ => (true, s)
       | None => (true, s <| bootstrapC := Some None |>)
       end.

(** A non-blocking send on the one-slot channel. *)
Definition ResolveBootstrap (status : Z) (s : Session) : bool * Session :=
  match bootstrapC s with
  | None => (false, s)
  | Some (Some _) => (false, s)
  | Some None => (true, s <| bootstrapC := Some (Some status) |>)
  end.

(** WaitBootstrap: [Some st] when a verdict is there to be received; [None]
    while it would block (until its context expires) or without a channel. *)
Definition WaitBootstrap (s : Session) : option Z * Session :=
  match bootstrapC s with
  | Some (Some st) => (Some st, s <| bootstrapC := Some None |> <| verdicts := verdicts s ++ [st] |>)
  | _ => (None, s)
  end.

Definition DirClosed (dir : Direction) (s : Session) : bool :=
  match dir with DirUp => upClosed s | DirDown => downClosed s end.

Definition Att (dir : Direction) (s : Session) : option Attachment :=
  match dir with DirUp => UpAtt s | DirDown => DownAtt s end.

Definition closeAtt (dir : Direction) (s : Session) : Session :=
  match dir with
  | DirUp => s <| UpAtt := Attachment.Close <$> UpAtt s |>
  | DirDown => s <| DownAtt := Attachment.Close <$> DownAtt s |>
  end.

Definition OnClose (fn : hookID) (s : Session) : Session :=
  if open s then s <| onClose := onClose s ++ [fn] |>
  else s <| lateHooks := lateHooks s ++ [fn] |>.

Definition setReason (r : gostring) (s : Session) : Session :=
  match reason s with [] => s <| reason := r |> | _ => s end.

Definition MarkDirClosed (dir : Direction) (r : gostring) (s : Session) : bool * Session :=
  match sstate s with
  | StateClosed | StateClosing | StatePending => (false, s)
  | StateActive =>
    if DirClosed dir s then (false, s)
    else
      let s := match dir with
               | DirUp => s <| upClosed := true |>
               | DirDown => s <| downClosed := true |>
               end in
      let s := setReason r s in
      let complete := upClosed s && downClosed s in
      (complete,
       if complete then s <| sstate := StateClosing |> <| td := TdAtt dir |>
       else s <| pending := pending s ++ [dir] |>)
  end.

(** The goroutine of an incomplete MarkDirClosed closes its attachment. *)
Definition flushPending (s : Session) : Session :=
  match pending s with
  | [] => s
  | dir :: rest => closeAtt dir (s <| pending := rest |>)
  end.

Definition AdoptConn (c : connID) (s : Session) : bool * Session :=
  if negb (open s) then (false, s)
  else (true, s <| ClientConn := Some c |> <| clientConnClosed := true |>).

Definition ClientConnAdopted (s : Session) : bool := clientConnClosed s.

(** Whether AwaitClientConn returns (its context apart). *)
Definition AwaitClientConn_returns (s : Session) : bool := clientConnClosed s || (0 <? doneCloses s).

Definition Close (r : gostring) (s : Session) : Session :=
  match sstate s with
  | StateClosed | StateClosing => s
  | _ => (setReason r (s <| sstate := StateClosing |>)) <| td := TdCancel |>
  end.

Definition closeConn (c : option connID) (s : Session) : Session :=
  match c with Some c => s <| closedConns := closedConns s ++ [c] |> | None => s end.

(** The body of [s.once.Do], one piece at a time. *)
Definition teardown (s : Session) : Session :=
  match td s with
  | TdIdle | TdFinished => s
  | TdAtt dir => (closeAtt dir s) <| td := TdCancel |>
  | TdCancel => s <| cancels := cancels s + 1 |> <| td := TdGate |>
  | TdGate => s <| clientConnClosed := true |> <| td := TdBootstrap |>
  | TdBootstrap => (snd (ResolveBootstrap BootstrapEndedWithoutResult s)) <| td := TdClient |>
  | TdClient => (closeConn (ClientConn s) s) <| td := TdTarget |>
  | TdTarget => (closeConn (TargetConn s) s) <| td := TdUpAtt |>
  | TdUpAtt => (closeAtt DirUp s) <| td := TdDownAtt |>
  | TdDownAtt => (closeAtt DirDown s) <| td := TdHooks (onClose s) |>
  | TdHooks (fn :: rest) => s <| hooksRun := hooksRun s ++ [fn] |> <| td := TdHooks rest |>
  | TdHooks [] => s <| td := TdFinish |>
  | TdFinish => s <| sstate := StateClosed |> <| td := TdDone |>
  | TdDone => s <| doneCloses := doneCloses s + 1 |> <| td := TdFinished |>
  end.

Definition SetOverflowReason (s : Session) : Session := s <| reason := lit "stream overflow terminated" |>.
Definition SetDataUndeliverableReason (s : Session) : Session :=
  s <| reason := lit "in-stream data undeliverable (byte gap)" |>.

(** ** Runs *)

Inductive sop :=
| SActivate | SSetBootstrap | SResolve (status : Z) | SWaitBootstrap
| SOnClose (fn : hookID) | SMarkDirClosed (dir : Direction) (r : gostring) | SFlush
| SAdopt (c : connID) | SClose (r : gostring)
| SSetOverflowReason | SSetUndeliverableReason
| SAtt (dir : Direction) (op : aop)
| STeardown.

Definition sstep (op : sop) (s : Session) : Session :=
  match op with
  | SActivate => snd (Activate s)
  | SSetBootstrap => snd (SetBootstrapChannel s)
  | SResolve st => snd (ResolveBootstrap st s)
  | SWaitBootstrap => snd (WaitBootstrap s)
  | SOnClose fn => OnClose fn s
  | SMarkDirClosed dir r => snd (MarkDirClosed dir r s)
  | SFlush => flushPending s
  | SAdopt c => snd (AdoptConn c s)
  | SClose r => Close r s
  | SSetOverflowReason => SetOverflowReason s
  | SSetUndeliverableReason => SetDataUndeliverableReason s
  | SAtt DirUp op => s <| UpAtt := (λ a, snd (astep op a)) <$> UpAtt s |>
  | SAtt DirDown op => s <| DownAtt := (λ a, snd (astep op a)) <$> DownAtt s |>
  | STeardown => teardown s
  end.

Definition srun (ops : list sop) (s : Session) : Session := foldl (λ s op, sstep op s) s ops.

(** ** Invariant *)

Definition prank (t : tphase) : nat :=
  match t with
  | TdIdle => 0 | TdAtt _ => 1 | TdCancel => 2 | TdGate => 3 | TdBootstrap => 4 | TdClient => 5
  | TdTarget => 6 | TdUpAtt => 7 | TdDownAtt => 8 | TdHooks _ => 9 | TdFinish => 10
  | TdDone => 11 | TdFinished => 12
  end.

(** The attachment of a direction is absent or permanently closed. *)
Definition att_done (a : option Attachment) : Prop :=
  match a with Some a => Attachment.state a = AttClosed | None => True end.

Definition hooks_ok (s : Session) : Prop :=
  match td s with
  | TdHooks rest => hooksRun s ++ rest = onClose s
  | t => hooksRun s = if (9 <? prank t)%nat then onClose s else []
  end.

Record sinv (s : Session) : Prop := {
  si_open : open s = true ↔ td s = TdIdle;
  si_closed : sstate s = StateClosed ↔ (11 ≤ prank (td s))%nat;
  si_cancel : cancels s = if (3 <=? prank (td s))%nat then 1 else 0;
  si_gate : (4 ≤ prank (td s))%nat → clientConnClosed s = true;
  si_boot : (5 ≤ prank (td s))%nat → bootstrapC s = Some None → verdicts s ≠ [];
  si_conns : closedConns s = (if (6 <=? prank (td s))%nat then option_list (ClientConn s) else [])
                             ++ (if (7 <=? prank (td s))%nat then option_list (TargetConn s) else []);
  si_up : (8 ≤ prank (td s))%nat → att_done (UpAtt s);
  si_down : (9 ≤ prank (td s))%nat → att_done (DownAtt s);
  si_hooks : hooks_ok s;
  si_done : doneCloses s = if (12 <=? prank (td s))%nat then 1 else 0;
  si_late : open s = true → lateHooks s = [];
  si_dir : ∀ d, DirClosed d s = true → d ∈ pending s ∨ att_done (Att d s) ∨ td s = TdAtt d;
  si_both : upClosed s && downClosed s = true → open s = false
}.

Lemma att_done_Close a : att_done (Attachment.Close <$> a).
Proof.
  destruct a as [a|]; simpl; [|done]. unfold Attachment.Close.
  destruct (Attachment.state a) eqn:E; [..|done];
    unfold stopTimer, freshReady; simpl; by destruct (timer a).
Qed.

Lemma att_done_step op a : att_done a → att_done ((λ a, snd (astep op a)) <$> a).
Proof. destruct a as [a|]; [|done]. simpl. intros H. by apply astep_closed. Qed.

(** Rebuild the invariant after a record update: the untouched fields are
    closed by [done], the impossible phases by arithmetic. *)
Ltac sinv_tac :=
  constructor; unfold open, hooks_ok, DirClosed, Att in *; simpl in *; try done; try (intros; lia);
  try (split; intros; first [done|lia|congruence]);
  try match goal with H : ?A ↔ _ |- ?A ↔ _ => rewrite H; first [done|lia|split; done] end;
  try match goal with H : (_ ≤ _)%nat → ?P |- (_ ≤ _)%nat → ?P => intros _; apply H; lia end;
  try match goal with H : ∀ d : Direction, _ |- ∀ d : Direction, _ =>
    let d := fresh "d" in let Hx := fresh "Hx" in
    intros d Hx; destruct (H d Hx) as [?|[?|?]]; [by left|by right; left|done] end.

Lemma sinv_new c t u d su sd : sinv (NewSession c t u d su sd).
Proof. sinv_tac. by intros []. Qed.

Lemma sinv_setReason r s : sinv s → sinv (setReason r s).
Proof. unfold setReason. destruct (reason s); [|done]. intros []. by constructor. Qed.

Lemma sinv_reason r s : sinv s → sinv (s <| reason := r |>).
Proof. intros []. by constructor. Qed.

Lemma open_idle s : sinv s → open s = true → td s = TdIdle.
Proof. intros []. naive_solver. Qed.

Lemma sinv_Activate s : sinv s → sinv (snd (Activate s)).
Proof.
  intros Hs. unfold Activate. destruct (sstate s) eqn:E; try done.
  assert (td s = TdIdle) as Htd by (apply open_idle; [done|]; unfold open; by rewrite E).
  destruct Hs as [Ho Hc ? ? ? ? ? ? Hh ? Hl Hd Hb].
  unfold hooks_ok, open in *. rewrite Htd, E in *. sinv_tac; rewrite ?Htd; simpl; try done; try (intros; lia).
  split; [done|lia].
Qed.

Lemma sinv_SetBootstrapChannel s : sinv s → sinv (snd (SetBootstrapChannel s)).
Proof.
  intros Hs. unfold SetBootstrapChannel. destruct (open s) eqn:E; [|done]. simpl.
  destruct (bootstrapC s); [done|]. pose proof (open_idle s Hs E) as Htd. destruct Hs. sinv_tac.
  rewrite Htd. simpl. lia.
Qed.

Lemma sinv_ResolveBootstrap st s : sinv s → sinv (snd (ResolveBootstrap st s)).
Proof.
  intros Hs. unfold ResolveBootstrap. destruct (bootstrapC s) as [[]|]; [done| |done].
  destruct Hs. sinv_tac.
Qed.

Lemma sinv_WaitBootstrap s : sinv s → sinv (snd (WaitBootstrap s)).
Proof.
  intros Hs. unfold WaitBootstrap. destruct (bootstrapC s) as [[]|]; [|done|done].
  destruct Hs. sinv_tac. intros _ _ []%app_eq_nil. done.
Qed.

Lemma sinv_OnClose fn s : sinv s → sinv (OnClose fn s).
Proof.
  intros Hs. unfold OnClose. destruct (open s) eqn:E.
  - pose proof (open_idle s Hs E) as Htd. destruct Hs as [? ? ? ? ? ? ? ? Hh ? ? ? ?].
    unfold hooks_ok in Hh. rewrite Htd in Hh. sinv_tac. by rewrite Htd.
  - destruct Hs. sinv_tac. unfold open in E. by rewrite E.
Qed.

Lemma sinv_AdoptConn c s : sinv s → sinv (snd (AdoptConn c s)).
Proof.
  intros Hs. unfold AdoptConn. destruct (open s) eqn:E; [|done].
  pose proof (open_idle s Hs E) as Htd. destruct Hs as [? ? ? ? ? Hc ? ? ? ? ? ? ?].
  rewrite Htd in Hc. sinv_tac. by rewrite Htd.
Qed.

Lemma sinv_closeAtt d s : sinv s → sinv (closeAtt d s).
Proof.
  intros []. destruct d; sinv_tac; try (intros; apply att_done_Close);
    intros []; [auto using att_done_Close|auto| auto|auto using att_done_Close].
Qed.

Lemma sinv_flush s : sinv s → sinv (flushPending s).
Proof.
  intros Hs. unfold flushPending. destruct (pending s) as [|d rest] eqn:Ep; [done|].
  destruct Hs as [? ? ? ? ? ? ? ? ? ? ? Hd ?].
  destruct d; sinv_tac; try (intros; apply att_done_Close).
  all: intros d' Hx; rewrite Ep in Hd; setoid_rewrite elem_of_cons in Hd;
    destruct (Hd d' Hx) as [[?|?]|[?|?]], d'; try done; auto using att_done_Close.
Qed.

Lemma sinv_SAtt d op s : sinv s → sinv (sstep (SAtt d op) s).
Proof.
  intros []. destruct d; sinv_tac; try (intros; apply att_done_step; auto).
  all: intros d' Hx; destruct (si_dir0 d' Hx) as [?|[?|?]], d'; auto using att_done_step.
Qed.

Lemma sinv_Close r s : sinv s → sinv (Close r s).
Proof.
  intros Hs. unfold Close. destruct (open s) eqn:E.
  2:{ unfold open in E. by destruct (sstate s). }
  pose proof (open_idle s Hs E) as Htd.
  assert (sinv (s <| sstate := StateClosing |> <| td := TdCancel |>)) as Hg.
  { destruct Hs as [? ? ? ? ? Hc ? ? Hh ? ? Hd ?]. unfold hooks_ok in Hh. rewrite Htd in *. sinv_tac. }
  unfold open in E. destruct (sstate s); try done;
    unfold setReason; simpl; destruct (reason s); try done; destruct Hg; by constructor.
Qed.

Lemma setReason_eq r s : ∃ x, setReason r s = s <| reason := x |>.
Proof. unfold setReason. destruct (reason s) eqn:E; eexists; [done|]. destruct s; simpl in *; by subst. Qed.

Lemma sinv_MarkDirClosed d r s : sinv s → sinv (snd (MarkDirClosed d r s)).
Proof.
  intros Hs. unfold MarkDirClosed. destruct (sstate s) eqn:Es; try done.
  destruct (DirClosed d s) eqn:Ed; [done|].
  assert (open s = true) as E by (unfold open; by rewrite Es).
  pose proof (open_idle s Hs E) as Htd.
  destruct Hs as [? ? ? ? ? ? ? ? Hh ? ? Hd Hb].
  unfold hooks_ok, open in *. rewrite Htd, Es in *. cbv zeta.
  destruct d; (destruct (setReason_eq r (s <| upClosed := true |>)) as [x ->]
               || destruct (setReason_eq r (s <| downClosed := true |>)) as [x ->]); simpl in *.
  - destruct (downClosed s) eqn:Edn; simpl; sinv_tac; rewrite ?Htd, ?Es, ?Edn; simpl; try done; try (intros; lia).
    all: first [split; [done|lia]|intros [] Hx; [auto|destruct (Hd DirDown Edn) as [?|[?|?]]; auto; done]
               |intros [] Hx; [left; set_solver|congruence]].
  - destruct (upClosed s) eqn:Edn; simpl; sinv_tac; rewrite ?Htd, ?Es, ?Edn; simpl; try done; try (intros; lia).
    all: first [split; [done|lia]|intros [] Hx; [destruct (Hd DirUp Edn) as [?|[?|?]]; auto; done|auto]
               |intros [] Hx; [congruence|left; set_solver]].
Qed.

Lemma sinv_teardown s : sinv s → sinv (teardown s).
Proof.
  intros Hs. unfold teardown. destruct (td s) as [|d| | | | | | | |[|fn rest]| | |] eqn:Htd.
  - done.
  - apply (sinv_closeAtt d) in Hs.
    assert (td (closeAtt d s) = TdAtt d) as Htd' by (by destruct d).
    assert (att_done (Att d (closeAtt d s))) as Hat by (destruct d; apply att_done_Close).
    destruct Hs as [? ? ? ? ? ? ? ? Hh ? ? Hd ?]. unfold hooks_ok in Hh. rewrite Htd' in *. sinv_tac.
    intros d' Hx. destruct (Hd d' Hx) as [?|[?|[= ->]]]; auto.
  - destruct Hs as [? ? ? ? ? ? ? ? Hh ? ? ? ?]. unfold hooks_ok in Hh. rewrite Htd in *. sinv_tac.
  - destruct Hs as [? ? ? ? ? ? ? ? Hh ? ? ? ?]. unfold hooks_ok in Hh. rewrite Htd in *. sinv_tac.
  - destruct Hs as [? ? ? ? ? ? ? ? Hh ? ? ? ?]. unfold hooks_ok in Hh. rewrite Htd in *.
    unfold ResolveBootstrap. destruct (bootstrapC s) as [[st|]|] eqn:Eb; simpl; sinv_tac; congruence.
  - destruct Hs as [? ? ? ? ? Hc ? ? Hh ? ? ? ?]. unfold hooks_ok in Hh. rewrite Htd in *.
    unfold closeConn. destruct (ClientConn s) eqn:Ec; sinv_tac; rewrite Ec; by rewrite Hc.
  - destruct Hs as [? ? ? ? ? Hc ? ? Hh ? ? ? ?]. unfold hooks_ok in Hh. rewrite Htd in *.
    unfold closeConn. destruct (TargetConn s) eqn:Ec; sinv_tac; rewrite Ec, Hc; by rewrite ?app_nil_r.
  - apply (sinv_closeAtt DirUp) in Hs.
    destruct Hs as [? ? ? ? ? ? ? ? Hh ? ? Hd ?]. unfold hooks_ok in Hh. simpl in *. rewrite Htd in *. sinv_tac.
    intros _. apply att_done_Close.
  - apply (sinv_closeAtt DirDown) in Hs.
    destruct Hs as [? ? ? ? ? ? ? ? Hh ? ? Hd ?]. unfold hooks_ok in Hh. simpl in *. rewrite Htd in *. sinv_tac.
    + intros _. apply att_done_Close.
    + by rewrite Hh.
  - destruct Hs as [? ? ? ? ? ? ? ? Hh ? ? Hd ?]. unfold hooks_ok in Hh. rewrite Htd in *. sinv_tac.
    by rewrite app_nil_r in Hh.
  - destruct Hs as [? ? ? ? ? ? ? ? Hh ? ? Hd ?]. unfold hooks_ok in Hh. rewrite Htd in *. sinv_tac.
    by rewrite <- app_assoc.
  - destruct Hs as [? ? ? ? ? ? ? ? Hh ? ? Hd ?]. unfold hooks_ok in Hh. rewrite Htd in *. sinv_tac.
  - destruct Hs as [? ? ? ? ? ? ? ? Hh ? ? Hd ?]. unfold hooks_ok in Hh. rewrite Htd in *. sinv_tac.
  - done.
Qed.

Lemma sinv_step op s : sinv s → sinv (sstep op s).
Proof.
  intros Hs. destruct op; cbn [sstep].
  - by apply sinv_Activate.
  - by apply sinv_SetBootstrapChannel.
  - by apply sinv_ResolveBootstrap.
  - by apply sinv_WaitBootstrap.
  - by apply sinv_OnClose.
  - by apply sinv_MarkDirClosed.
  - by apply sinv_flush.
  - by apply sinv_AdoptConn.
  - by apply sinv_Close.
  - by apply sinv_reason.
  - by apply sinv_reason.
  - by apply sinv_SAtt.
  - by apply sinv_teardown.
Qed.

Lemma sinv_run ops s : sinv s → sinv (srun ops s).
Proof. revert s. induction ops as [|op ops IH]; intros s Hs; [done|]. by apply IH, sinv_step. Qed.

(** ** Properties *)

Definition fresh_session (s : Session) : Prop :=
  ∃ c t u d su sd, s = NewSession c t u d su sd.

Lemma sinv_reachable s0 ops : fresh_session s0 → sinv (srun ops s0).
Proof. intros (c & t & u & d & su & sd & ->). apply sinv_run, sinv_new. Qed.

Lemma hooks_prefix s : sinv s → hooksRun s `prefix_of` onClose s.
Proof.
  intros [? ? ? ? ? ? ? ? Hh ? ? ? ?]. unfold hooks_ok in Hh.
  destruct (td s); simpl in Hh; rewrite ?Hh; try apply prefix_nil; try done.
  rewrite <- Hh. by apply prefix_app_r.
Qed.

(** C38: Teardown happens exactly once and releases everything.  Whatever calls
    and teardown pieces interleave: the context is cancelled at most once, Done
    is closed at most once, the hooks that ran are a prefix of the registered
    ones in registration order; while the session is open nothing at all has
    been released; and when it is Closed the context was cancelled once, each
    registered hook ran exactly once in order, the owned client and target
    connections were each closed exactly once, both attachments are closed for
    good, the client gate is open, and a bootstrap waiter (if there is a
    channel) has its verdict. *)
Theorem session_teardown_exactly_once s0 ops :
  fresh_session s0 →
  let s := srun ops s0 in
  cancels s ≤ 1 ∧ doneCloses s ≤ 1 ∧ hooksRun s `prefix_of` onClose s
  ∧ (open s = true → cancels s = 0 ∧ closedConns s = [] ∧ hooksRun s = [] ∧ lateHooks s = [] ∧ doneCloses s = 0)
  ∧ (sstate s = StateClosed →
       cancels s = 1 ∧ hooksRun s = onClose s
       ∧ closedConns s = option_list (ClientConn s) ++ option_list (TargetConn s)
       ∧ att_done (UpAtt s) ∧ att_done (DownAtt s)
       ∧ AwaitClientConn_returns s = true
       ∧ (bootstrapC s = Some None → verdicts s ≠ [])).
Proof.
  intros Hf s. pose proof (sinv_reachable s0 ops Hf) as Hs. fold s in Hs.
  pose proof (hooks_prefix s Hs) as Hp. destruct Hs as [Ho Hc Hca Hg Hb Hcn Hu Hd Hh Hdn Hl _ _].
  split_and!; [rewrite Hca; destruct (3 <=? _)%nat; lia|rewrite Hdn; destruct (12 <=? _)%nat; lia|done| |].
  - intros E. pose proof (Hl E). apply Ho in E. unfold hooks_ok in Hh. rewrite E in *. done.
  - intros E. apply Hc in E. unfold hooks_ok in Hh. unfold AwaitClientConn_returns.
    rewrite Hg by lia. rewrite Hca, Hcn, !(proj2 (Nat.leb_le _ _)) by lia.
    split_and!; [done| |done|apply Hu; lia|apply Hd; lia|done|apply Hb; lia].
    destruct (td s); simpl in *; try lia; done.
Qed.

Definition example_session : Session :=
  NewSession (Some 1%nat) (Some 2%nat) (Some NewAttachment) None 7 0.

Definition example_close : list sop :=
  [SActivate; SOnClose 10%nat; SOnClose 11%nat; SClose (lit "bye")] ++ replicate 13 STeardown.

Lemma session_teardown_exactly_once_witness :
  hooksRun (srun example_close example_session) = [10%nat; 11%nat].
Proof.
  destruct (session_teardown_exactly_once example_session example_close) as (_ & _ & _ & _ & H).
  { unfold fresh_session. do 6 eexists. reflexivity. }
  destruct H as (_ & -> & _); reflexivity.
Defined.

(** *** Progress of the teardown *)

(** How many pieces of the teardown are left. *)
Definition remaining (s : Session) : nat :=
  let n := length (onClose s) in
  match td s with
  | TdIdle | TdFinished => 0
  | TdDone => 1 | TdFinish => 2 | TdHooks rest => 3 + length rest
  | TdDownAtt => 4 + n | TdUpAtt => 5 + n | TdTarget => 6 + n | TdClient => 7 + n
  | TdBootstrap => 8 + n | TdGate => 9 + n | TdCancel => 10 + n | TdAtt _ => 11 + n
  end.

Lemma teardown_sstate s : sstate (teardown s) = sstate s ∨ sstate (teardown s) = StateClosed.
Proof.
  unfold teardown. destruct (td s) as [|[]| | | | | | | |[|? ?]| | |]; auto;
    unfold ResolveBootstrap, closeConn; repeat case_match; auto.
Qed.

(** No call other than the teardown itself moves the teardown of a closing
    session, or makes it open again. *)
Lemma sstep_closing op s :
  open s = false →
  open (sstep op s) = false
  ∧ (op = STeardown → td s ≠ TdIdle → remaining (sstep op s) = (remaining s - 1)%nat)
  ∧ (op ≠ STeardown → remaining (sstep op s) = remaining s ∧ td (sstep op s) = td s).
Proof.
  intros E. unfold open in E. destruct op; cbn [sstep].
  - unfold Activate. destruct (sstate s) eqn:Es; try done; unfold open; simpl; by rewrite Es.
  - unfold SetBootstrapChannel, open. by rewrite E.
  - unfold ResolveBootstrap. destruct (bootstrapC s) as [[]|]; done.
  - unfold WaitBootstrap. destruct (bootstrapC s) as [[]|]; done.
  - unfold OnClose, open. by rewrite E.
  - unfold MarkDirClosed. destruct (sstate s) eqn:Es; try done; unfold open; simpl; by rewrite Es.
  - unfold flushPending. destruct (pending s) as [|[] ?]; done.
  - unfold AdoptConn, open. by rewrite E.
  - unfold Close. destruct (sstate s) eqn:Es; try done; unfold open; simpl; by rewrite Es.
  - done.
  - done.
  - by destruct dir.
  - split; [|split; [intros _ Hn|done]].
    + unfold open. by destruct (teardown_sstate s) as [-> | ->].
    + unfold teardown, remaining. destruct (td s) as [|[]| | | | | | | |[|? ?]| | |] eqn:Ht; try done;
        first [simpl; lia|by rewrite Ht
              |unfold ResolveBootstrap; destruct (bootstrapC s) as [[]|]; simpl; lia
              |unfold closeConn; destruct (ClientConn s); simpl; lia
              |unfold closeConn; destruct (TargetConn s); simpl; lia].
Qed.

Fixpoint td_steps (ops : list sop) : nat :=
  match ops with
  | [] => 0
  | STeardown :: ops => S (td_steps ops)
  | _ :: ops => td_steps ops
  end.

Lemma remaining_run ops s :
  sinv s → open s = false →
  open (srun ops s) = false ∧ remaining (srun ops s) = (remaining s - td_steps ops)%nat.
Proof.
  revert s. induction ops as [|op ops IH]; intros s Hs E; [simpl; split; [done|lia]|].
  destruct (sstep_closing op s E) as (E' & Htd & Hot).
  destruct (IH (sstep op s) (sinv_step op s Hs) E') as [H1 H2]. split; [done|].
  simpl. change (srun ops (sstep op s)) with (srun (op :: ops) s) in *. rewrite H2.
  assert (td s ≠ TdIdle) as Hn. { intros H%(si_open s Hs). congruence. }
  destruct op; try (destruct Hot as [-> _]; [done|]; done). rewrite Htd by done. simpl. lia.
Qed.

(** Teardown always completes.  From any reachable session that has started
    closing, in any interleaving with further calls (late hooks, more Close
    calls, carrier events, bootstrap results), once the tearing-down goroutine
    has been scheduled for the remaining pieces, at most eleven plus the number
    of registered hooks, the session is Closed and Done has been closed exactly
    once. *)
Theorem session_teardown_completes s0 ops ops' :
  fresh_session s0 →
  let s := srun ops s0 in
  open s = false → (11 + length (onClose s) ≤ td_steps ops')%nat →
  let s' := srun ops' s in sstate s' = StateClosed ∧ doneCloses s' = 1.
Proof.
  intros Hf s E Hn s'. pose proof (sinv_reachable s0 ops Hf) as Hs. fold s in Hs.
  destruct (remaining_run ops' s Hs E) as [E' Hr]. fold s' in E', Hr.
  assert (sinv s') as Hs' by by apply sinv_run.
  assert (remaining s ≤ 11 + length (onClose s))%nat as Hle.
  { pose proof (si_hooks s Hs) as Hh. unfold hooks_ok in Hh. unfold remaining.
    destruct (td s); try lia. rewrite <- Hh, length_app. lia. }
  assert (td s' = TdFinished) as Ht.
  { assert (td s' ≠ TdIdle) by (intros H%(si_open s' Hs'); congruence).
    unfold remaining in Hr at 1. destruct (td s'); try done; lia. }
  destruct Hs' as [? Hc ? ? ? ? ? ? ? Hd ? ? ?]. rewrite Ht in *. split; [by apply Hc; simpl; lia|done].
Qed.

Lemma session_teardown_completes_witness :
  sstate (srun (replicate 13 STeardown)
    (srun [SActivate; SOnClose 10%nat; SMarkDirClosed DirUp []; SMarkDirClosed DirDown []] example_session))
  = StateClosed.
Proof.
  apply (session_teardown_completes example_session
    [SActivate; SOnClose 10%nat; SMarkDirClosed DirUp []; SMarkDirClosed DirDown []]
    (replicate 13 STeardown)); [unfold fresh_session; do 6 eexists; reflexivity|reflexivity|].
  vm_compute. lia.
Defined.

(** *** Monotone states and reasons *)

Definition srank (st : SessionState) : nat :=
  match st with StatePending => 0 | StateActive => 1 | StateClosing => 2 | StateClosed => 3 end.

(** The two node-side overrides of the close reason. *)
Definition overrides (op : sop) : bool :=
  match op with SSetOverflowReason | SSetUndeliverableReason => true | _ => false end.

Lemma setReason_sstate r s : sstate (setReason r s) = sstate s.
Proof. destruct (setReason_eq r s) as [x ->]. done. Qed.

Lemma setReason_keeps r s : reason s ≠ [] → reason (setReason r s) = reason s.
Proof. unfold setReason. by destruct (reason s) eqn:E. Qed.

Lemma sstep_monotone op s :
  sinv s →
  (srank (sstate s) ≤ srank (sstate (sstep op s)))%nat
  ∧ (overrides op = false → reason s ≠ [] → reason (sstep op s) = reason s).
Proof.
  intros Hs. destruct op; cbn [sstep overrides].
  - unfold Activate. destruct (sstate s) eqn:E; simpl; rewrite ?E; simpl; split; (done || lia).
  - unfold SetBootstrapChannel. by repeat case_match.
  - unfold ResolveBootstrap. by repeat case_match.
  - unfold WaitBootstrap. by repeat case_match.
  - unfold OnClose. by repeat case_match.
  - unfold MarkDirClosed. destruct (sstate s) eqn:E; simpl; rewrite ?E; try (split; [simpl; lia|done]).
    destruct (DirClosed dir s); simpl; rewrite ?E; [split; [simpl; lia|done]|].
    set (s1 := match dir with DirUp => _ | DirDown => _ end).
    assert (sstate s1 = StateActive ∧ reason s1 = reason s) as [E1 Er] by (by destruct dir).
    pose proof (setReason_sstate r s1) as E2. pose proof (setReason_keeps r s1) as E3. rewrite E1, Er in *.
    destruct (_ && _); simpl; rewrite ?E2; split; (done || simpl; lia).
  - unfold flushPending. destruct (pending s) as [|[] ?]; done.
  - unfold AdoptConn. by repeat case_match.
  - unfold Close. destruct (sstate s) eqn:E; simpl; rewrite ?E, ?setReason_sstate; simpl; try (split; [lia|done]);
      (split; [lia|]); intros _ Hr; by rewrite setReason_keeps.
  - done.
  - done.
  - by destruct dir.
  - split.
    + destruct (teardown_sstate s) as [-> | ->]; [done|]. destruct (sstate s); simpl; lia.
    + intros _ _. unfold teardown. destruct (td s) as [|[]| | | | | | | |[|? ?]| | |]; try done;
        unfold ResolveBootstrap, closeConn; by repeat case_match.
Qed.

(** The lifecycle only moves forward and the first reason wins.  Over any
    interleaving the state never goes back (Pending, Active, Closing, Closed in
    this order; in particular a session that started closing is never active
    again), and a recorded close reason is never replaced by a later Close or
    half-close; only the node's two explicit overrides (overflow, undeliverable
    data) change it. *)
Theorem session_monotone s0 ops ops' :
  fresh_session s0 →
  let s := srun ops s0 in
  let s' := srun ops' s in
  (srank (sstate s) ≤ srank (sstate s'))%nat
  ∧ (reason s ≠ [] → forallb (λ op, negb (overrides op)) ops' = true → reason s' = reason s).
Proof.
  intros Hf s s'. pose proof (sinv_reachable s0 ops Hf) as Hs. fold s in Hs. unfold s'. clear s'.
  clearbody s. revert s Hs. induction ops' as [|op ops' IH]; intros s Hs; [done|].
  destruct (sstep_monotone op s Hs) as [H1 H2].
  destruct (IH (sstep op s) (sinv_step op s Hs)) as [H3 H4]. split.
  - etrans; [exact H1|exact H3].
  - intros Hr Hall. simpl in Hall. bools. rewrite <- H2 in Hr |- * by done. by apply H4.
Qed.

Lemma session_monotone_witness :
  reason (srun [SClose (lit "second"); STeardown] (srun [SActivate; SClose (lit "first")] example_session))
  = lit "first".
Proof.
  apply (session_monotone example_session [SActivate; SClose (lit "first")] [SClose (lit "second"); STeardown]);
    [unfold fresh_session; do 6 eexists; reflexivity|discriminate|reflexivity].
Defined.

(** *** Half-close *)

Lemma setReason_fields r s :
  sstate (setReason r s) = sstate s ∧ upClosed (setReason r s) = upClosed s
  ∧ downClosed (setReason r s) = downClosed s ∧ td (setReason r s) = td s
  ∧ pending (setReason r s) = pending s ∧ UpAtt (setReason r s) = UpAtt s
  ∧ DownAtt (setReason r s) = DownAtt s.
Proof. destruct (setReason_eq r s) as [x ->]. done. Qed.

(** A half-close closes one direction only.  MarkDirClosed on an active
    session whose direction is still open marks exactly that direction; the
    session stays active (and nothing is torn down) unless the other direction
    was already closed, in which case, and only then, it returns true and the
    session is Closing.  In every other state, or for a direction already
    closed, it changes nothing.  And once the calls in flight have closed their
    attachment, a half-closed direction's attachment is closed for good, so no
    carrier reconnect re-binds it. *)
Theorem session_half_close s0 ops d r :
  fresh_session s0 →
  let s := srun ops s0 in
  let '(complete, s') := MarkDirClosed d r s in
  let other := match d with DirUp => DirDown | DirDown => DirUp end in
  (complete = true ↔ sstate s = StateActive ∧ DirClosed d s = false ∧ DirClosed other s = true)
  ∧ (sstate s ≠ StateActive ∨ DirClosed d s = true → s' = s)
  ∧ (sstate s = StateActive → DirClosed d s = false →
       DirClosed d s' = true ∧ DirClosed other s' = DirClosed other s
       ∧ Att other s' = Att other s
       ∧ sstate s' = if complete then StateClosing else StateActive)
  ∧ (∀ d', DirClosed d' s = true → pending s = [] → td s ≠ TdAtt d' → att_done (Att d' s)).
Proof.
  intros Hf s. pose proof (sinv_reachable s0 ops Hf) as Hs. fold s in Hs.
  assert (∀ d', DirClosed d' s = true → pending s = [] → td s ≠ TdAtt d' → att_done (Att d' s)) as Hatt.
  { intros d' Hd Hp Ht. destruct (si_dir s Hs d' Hd) as [Hin|[?|?]]; [|done|done].
    rewrite Hp in Hin. by apply elem_of_nil in Hin. }
  unfold MarkDirClosed. destruct (sstate s) eqn:Es.
  1,3,4: split_and!; try done; split; [done|]; intros (? & _); done.
  destruct (DirClosed d s) eqn:Ed.
  { split_and!; try done. split; [done|]. by intros (_ & ? & _). }
  set (s1 := match d with DirUp => s <| upClosed := true |> | DirDown => s <| downClosed := true |> end).
  assert (sstate s1 = StateActive) as E1 by (by destruct d).
  destruct (setReason_fields r s1) as (E2 & E3 & E4 & _ & _ & E5 & E6).
  assert (upClosed (setReason r s1) && downClosed (setReason r s1)
          = DirClosed (match d with DirUp => DirDown | DirDown => DirUp end) s) as Hco.
  { rewrite E3, E4. destruct d; simpl; [done|by rewrite andb_true_r]. }
  rewrite Hco. split_and!; [| | |done].
  - split; [done|]. by intros (_ & _ & ?).
  - intros [?|?]; done.
  - intros _ _. destruct (DirClosed (match d with DirUp => _ | DirDown => _ end) s) eqn:Eo; destruct d; simpl in *;
      rewrite ?E2, ?E3, ?E4, ?E5, ?E6; done.
Qed.

Lemma session_half_close_witness :
  sstate (snd (MarkDirClosed DirUp (lit "fin") (srun [SActivate] example_session))) = StateActive.
Proof.
  pose proof (session_half_close example_session [SActivate] DirUp (lit "fin")) as H.
  assert (fresh_session example_session) as Hf by (unfold fresh_session; do 6 eexists; reflexivity).
  specialize (H Hf). cbv zeta in H.
  destruct (MarkDirClosed DirUp (lit "fin") (srun [SActivate] example_session)) as [b s'] eqn:E.
  destruct H as (_ & _ & H & _). destruct H as (_ & _ & _ & H); [reflexivity..|].
  injection E as <- <-. exact H.
Defined.

(** *** Bootstrap verdict *)

(** The first verdict a waiter gets: received already, or in the buffer. *)
Definition first_verdict (s : Session) : option Z :=
  match verdicts s with
  | v :: _ => Some v
  | [] => match bootstrapC s with Some (Some v) => Some v | _ => None end
  end.

Lemma first_verdict_step op s v :
  first_verdict s = Some v → bootstrapC s ≠ None →
  first_verdict (sstep op s) = Some v ∧ bootstrapC (sstep op s) ≠ None.
Proof.
  intros Hv Hb. assert (∀ s', bootstrapC s' = bootstrapC s → verdicts s' = verdicts s →
    first_verdict s' = Some v ∧ bootstrapC s' ≠ None) as Hsame.
  { intros s' H1 H2. unfold first_verdict in *. by rewrite H1, H2. }
  assert (∀ st, first_verdict (snd (ResolveBootstrap st s)) = Some v
            ∧ bootstrapC (snd (ResolveBootstrap st s)) ≠ None) as Hres.
  { intros st. unfold ResolveBootstrap. destruct (bootstrapC s) as [[]|] eqn:E; [by apply Hsame| |done].
    split; [|done]. unfold first_verdict in *. simpl. rewrite E in Hv. by destruct (verdicts s). }
  destruct op; cbn [sstep].
  - apply Hsame; unfold Activate; by case_match.
  - apply Hsame; unfold SetBootstrapChannel; repeat case_match; done.
  - apply Hres.
  - unfold WaitBootstrap. destruct (bootstrapC s) as [[]|] eqn:E; [|by apply Hsame|done].
    split; [|done]. unfold first_verdict in *. simpl. rewrite E in Hv. by destruct (verdicts s).
  - apply Hsame; unfold OnClose; by case_match.
  - unfold MarkDirClosed. destruct (sstate s); try by apply Hsame. destruct (DirClosed dir s); [by apply Hsame|].
    set (s1 := match dir with DirUp => _ | DirDown => _ end).
    destruct (setReason_eq r s1) as [x Hx]. rewrite Hx. apply Hsame; destruct dir; by case_match.
  - apply Hsame; unfold flushPending; by destruct (pending s) as [|[] ?].
  - apply Hsame; unfold AdoptConn; by case_match.
  - unfold Close. destruct (sstate s); try by apply Hsame.
    all: destruct (setReason_eq r (s <| sstate := StateClosing |>)) as [x Hx]; rewrite Hx; by apply Hsame.
  - by apply Hsame.
  - by apply Hsame.
  - by apply Hsame; destruct dir.
  - unfold teardown. destruct (td s) as [|[]| | | | | | | |[|? ?]| | |]; try by apply Hsame.
    + apply (Hres BootstrapEndedWithoutResult).
    + unfold closeConn. by destruct (ClientConn s); apply Hsame.
    + unfold closeConn. by destruct (TargetConn s); apply Hsame.
Qed.

(** The bootstrap wait is decided once and never hangs.  Once a verdict has
    been committed on the bootstrap channel (the peer's ack or the teardown's
    "ended without result"), the first verdict a waiter receives is that one,
    whatever happens later: duplicate acks, a later failure or the teardown
    never overwrite it, and it does not matter whether the waiter arrives
    before or after.  And a session with a channel whose teardown got past the
    bootstrap step has a verdict, so the waiter always returns. *)
Theorem bootstrap_verdict_decided s0 ops ops' v :
  fresh_session s0 →
  let s := srun ops s0 in
  (first_verdict s = Some v → bootstrapC s ≠ None → first_verdict (srun ops' s) = Some v)
  ∧ (sstate s = StateClosed → bootstrapC s ≠ None → is_Some (first_verdict s)).
Proof.
  intros Hf s. pose proof (sinv_reachable s0 ops Hf) as Hs. fold s in Hs. split.
  - clear Hs. clearbody s. revert s. induction ops' as [|op ops' IH]; intros s Hv Hb; [done|].
    destruct (first_verdict_step op s v Hv Hb). by apply (IH (sstep op s)).
  - intros Hc Hb. apply (si_closed s Hs) in Hc. pose proof (si_boot s Hs ltac:(lia)) as Hn.
    unfold first_verdict. destruct (verdicts s); [|done]. destruct (bootstrapC s) as [[]|]; done || naive_solver.
Qed.

Lemma bootstrap_verdict_decided_witness :
  first_verdict (srun [SResolve 5; SClose []; STeardown; STeardown; STeardown; SWaitBootstrap; SResolve 1]
    (srun [SSetBootstrap; SResolve 0] example_session)) = Some 0.
Proof.
  apply (bootstrap_verdict_decided example_session [SSetBootstrap; SResolve 0]
    [SResolve 5; SClose []; STeardown; STeardown; STeardown; SWaitBootstrap; SResolve 1] 0);
    [unfold fresh_session; do 6 eexists; reflexivity|reflexivity|discriminate].
Defined.

(** ** The session store *)

(** The store maps session ids and carrier stream ids to sessions; sessions are
    shared objects, so the maps hold references into a heap of sessions. *)
Definition ref := nat.

Record SessionStore := mkStore {
  sessions : gmap (list byte) ref;
  streams : gmap Z ref
}.

#[export] Instance SessionStore_expandable : Expandable SessionStore := {| expand := λ ss,
  mkStore (sessions ss) (streams ss) |}.

Definition NewSessionStore : SessionStore := mkStore ∅ ∅.

Section store.
Context (heap : ref → Session).

Definition Add (id : list byte) (s : ref) (ss : SessionStore) : SessionStore :=
  if open (heap s) then ss <| sessions := <[id:=s]> (sessions ss) |> else ss.

Definition Get (id : list byte) (ss : SessionStore) : option ref := sessions ss !! id.

(** [if s.StreamIDUp != 0 { ss.streams\[s.StreamIDUp\] = s }], and the same down. *)
Definition AddStream (s : ref) (ss : SessionStore) : SessionStore :=
  if open (heap s) then
    let m := if StreamIDUp (heap s) =? 0 then streams ss else <[StreamIDUp (heap s):=s]> (streams ss) in
    let m := if StreamIDDown (heap s) =? 0 then m else <[StreamIDDown (heap s):=s]> m in
    ss <| streams := m |>
  else ss.

Definition GetByStream (sid : Z) (ss : SessionStore) : option ref := streams ss !! sid.

Definition removeStreamsLocked (s : ref) (ss : SessionStore) : SessionStore :=
  let m := if StreamIDUp (heap s) =? 0 then streams ss else delete (StreamIDUp (heap s)) (streams ss) in
  let m := if StreamIDDown (heap s) =? 0 then m else delete (StreamIDDown (heap s)) m in
  ss <| streams := m |>.

Definition RemoveStream (s : ref) (ss : SessionStore) : SessionStore := removeStreamsLocked s ss.

Definition Remove (id : list byte) (ss : SessionStore) : SessionStore :=
  match sessions ss !! id with
  | Some s => let ss := removeStreamsLocked s ss in ss <| sessions := delete id (sessions ss) |>
  | None => ss
  end.

Definition Snapshot (ss : SessionStore) : list ref := map snd (map_to_list (sessions ss)).
Definition Count (ss : SessionStore) : nat := size (sessions ss).

(** CloseAll calls Close on every session of a snapshot; the teardowns it
    triggers run as usual (and unindex the sessions through their hooks). *)
Definition close_ref (h : ref → Session) (r : ref) : ref → Session :=
  λ r', if bool_decide (r' = r) then Close (lit "store: close all") (h r') else h r'.

Definition CloseAll (ss : SessionStore) : ref → Session := foldl close_ref heap (Snapshot ss).

Lemma Close_not_open r s : open (Close r s) = false.
Proof.
  unfold Close. destruct (sstate s) eqn:E; unfold open; rewrite ?E; try done;
    simpl; by rewrite setReason_sstate.
Qed.

Lemma close_refs_open rs h r : r ∈ rs ∨ open (h r) = false → open (foldl close_ref h rs r) = false.
Proof.
  revert h. induction rs as [|r' rs IH]; intros h Hr; [by destruct Hr as [?%elem_of_nil|?]|].
  simpl. apply IH. unfold close_ref. case_bool_decide as E; [right; apply Close_not_open|].
  destruct Hr as [[->|?]%elem_of_cons|?]; [done|by left|by right].
Qed.

(** After CloseAll no session of the store is open. *)
Lemma CloseAll_closes ss r : r ∈ Snapshot ss → open (CloseAll ss r) = false.
Proof. intros. apply close_refs_open. by left. Qed.

(** The store never indexes a session that started closing, and removal is
    exact.  Add and AddStream leave the store untouched for a closing session
    and otherwise make exactly the session's id, respectively its non-zero
    stream ids, resolve to it; Remove makes the id and the session's stream ids
    unresolvable, keeps every other entry, and is idempotent. *)
Theorem store_index_exact id s ss :
  (open (heap s) = false → Add id s ss = ss ∧ AddStream s ss = ss)
  ∧ (open (heap s) = true →
       Get id (Add id s ss) = Some s
       ∧ (StreamIDUp (heap s) ≠ 0 → StreamIDUp (heap s) ≠ StreamIDDown (heap s) →
          GetByStream (StreamIDUp (heap s)) (AddStream s ss) = Some s)
       ∧ (StreamIDDown (heap s) ≠ 0 → GetByStream (StreamIDDown (heap s)) (AddStream s ss) = Some s)
       ∧ (∀ sid, sid ≠ StreamIDUp (heap s) → sid ≠ StreamIDDown (heap s) →
          GetByStream sid (AddStream s ss) = GetByStream sid ss))
  ∧ (Get id ss = Some s →
       Get id (Remove id ss) = None
       ∧ (∀ id', id' ≠ id → Get id' (Remove id ss) = Get id' ss)
       ∧ (∀ sid, sid ≠ 0 → sid = StreamIDUp (heap s) ∨ sid = StreamIDDown (heap s) →
          GetByStream sid (Remove id ss) = None)
       ∧ (∀ sid, sid ≠ StreamIDUp (heap s) → sid ≠ StreamIDDown (heap s) →
          GetByStream sid (Remove id ss) = GetByStream sid ss))
  ∧ Remove id (Remove id ss) = Remove id ss.
Proof.
  unfold Add, AddStream, Get, GetByStream, Remove, removeStreamsLocked. split_and!.
  - by intros ->.
  - intros ->. simpl. split_and!.
    + by rewrite lookup_insert_eq.
    + intros H1 H2. rewrite (proj2 (Z.eqb_neq _ _) H1). destruct (_ =? 0); [by rewrite lookup_insert_eq|].
      rewrite lookup_insert_ne by done. by rewrite lookup_insert_eq.
    + intros H1. rewrite (proj2 (Z.eqb_neq _ _) H1). by rewrite lookup_insert_eq.
    + intros sid H1 H2. destruct (StreamIDUp (heap s) =? 0), (StreamIDDown (heap s) =? 0);
        by rewrite ?lookup_insert_ne.
  - intros ->. simpl. split_and!.
    + by rewrite lookup_delete_eq.
    + intros id' H. by rewrite lookup_delete_ne.
    + intros sid H0 Hs. destruct (StreamIDUp (heap s) =? 0) eqn:E1, (StreamIDDown (heap s) =? 0) eqn:E2; bools;
        apply eq_None_ne_Some; intros x Hx; rewrite ?lookup_delete_Some in Hx; naive_solver.
    + intros sid H1 H2. destruct (StreamIDUp (heap s) =? 0), (StreamIDDown (heap s) =? 0);
        by rewrite ?lookup_delete_ne.
  - destruct (sessions ss !! id) as [r|] eqn:E; [|by rewrite E].
    simpl. by rewrite lookup_delete_eq.
Qed.
End store.
