(* ===== verification/Routing.v ===== *)
(** * The outbound routing engine (src/pkg/routing)

    Rule sets and their validation (rule.go), destination matching
    (matcher.go) and the per-stream dial with the WARP health gate (engine.go).

    [strings.ToLower] is the byte-wise lower case on ASCII strings; on strings
    with other bytes it applies Unicode case mapping, which is the parameter
    [unicode_lower].  The dials themselves (the node's direct dial, the
    transport to the WARP endpoint) are parameters too: their outcome. *)
From S2P Require Export Destination.
#[local] Open Scope Z_scope.

Definition MaxRules : nat := 500.
Definition MaxConfigBytes : Z := 65536.

Inductive OutboundKind := OutboundDirect | OutboundWarp | OutboundBlock.

#[export] Instance OutboundKind_eq_decision : EqDecision OutboundKind.
Proof. solve_decision. Defined.

Definition OutboundKind_String (k : OutboundKind) : gostring :=
  match k with
  | OutboundDirect => lit "direct" | OutboundWarp => lit "warp" | OutboundBlock => lit "block"
  end.

(** [None] is the error for an unknown action. *)
Definition ParseOutboundKind (s : gostring) : option OutboundKind :=
  if streqb s (lit "direct") then Some OutboundDirect
  else if streqb s (lit "warp") then Some OutboundWarp
  else if streqb s (lit "block") then Some OutboundBlock
  else None.

(** The Go zero value [0] that accompanies the error is OutboundDirect. *)
Definition kind_of (s : gostring) : OutboundKind := default OutboundDirect (ParseOutboundKind s).

Record Match := mkMatch {
  Domain : gostring;
  Keyword : gostring;
  IPCIDR : gostring;
  PortMin : Z;
  PortMax : Z
}.

Record Rule := mkRule {
  ID : gostring;
  Enabled : bool;
  rMatch : Match;
  Action : gostring;
  Fallback : gostring;
  Comment : gostring;
  (* precomputed by Sanitize *)
  mCIDR : option IPNet;
  mKW : gostring;
  mDom : gostring;
  mDomSuffix : bool
}.

#[export] Instance Rule_expandable : Expandable Rule := {| expand := λ r,
  mkRule (ID r) (Enabled r) (rMatch r) (Action r) (Fallback r) (Comment r)
    (mCIDR r) (mKW r) (mDom r) (mDomSuffix r) |}.

Record RuleSet := mkRuleSet {
  Version : Z;
  DefaultAction : gostring;
  Rules : list Rule
}.

#[export] Instance RuleSet_expandable : Expandable RuleSet := {| expand := λ rs,
  mkRuleSet (Version rs) (DefaultAction rs) (Rules rs) |}.

(** What the strict decoder of one rule yields before the defaults. *)
Record ruleAux := mkAux {
  aux_ID : gostring; aux_Enabled : option bool; aux_Match : Match;
  aux_Action : gostring; aux_Fallback : gostring; aux_Comment : gostring
}.

Definition UnmarshalJSON (aux : ruleAux) : Rule :=
  mkRule (aux_ID aux) (match aux_Enabled aux with None => true | Some b => b end)
    (aux_Match aux) (aux_Action aux) (aux_Fallback aux) (aux_Comment aux) None [] [] false.

(** ** Validation *)

Inductive rule_error :=
| ErrVersion | ErrDefaultUnknown | ErrDefaultBlock | ErrTooManyRules
| ErrIDRequired (idx : nat) | ErrDuplicateID (idx : nat)
| ErrActionRequired | ErrActionUnknown | ErrFallbackValue | ErrFallbackAction
| ErrNoCriterion | ErrDomain | ErrCIDR | ErrPortMin | ErrPortMax | ErrPortOrder.

Definition nonempty (s : gostring) : bool := match s with [] => false | _ => true end.

(** One label of a domain pattern: [range label] runs over the string, [i]
    being the byte offset; a hyphen may not be first or last. *)
Fixpoint validLabelChars (i n : nat) (label : gostring) : bool :=
  match label with
  | [] => true
  | c :: rest =>
    (if beqb c x2d then negb ((i =? 0)%nat || (i =? n - 1)%nat)
     else is_lower c || is_digit c)
    && validLabelChars (S i) n rest
  end.

Definition validLabel (label : gostring) : bool :=
  nonempty label && (length label <=? 63)%nat && negb (has_char x2a label)
  && validLabelChars 0 (length label) label.

Definition core_of (d : gostring) : gostring := if has_prefix [x2e] d then drop 1 d else d.

Definition validateDomain (d : gostring) : bool :=
  let core := core_of d in
  nonempty core && (length core <=? 253)%nat && forallb validLabel (split_on x2e core).

Section engine.
Context (unicode_lower : gostring → gostring).

Definition ToLower (s : gostring) : gostring := to_lower unicode_lower s.

Definition validateRule (r : Rule) : res rule_error Rule :=
  if negb (nonempty (Action r)) then Err ErrActionRequired
  else match ParseOutboundKind (Action r) with
  | None => Err ErrActionUnknown
  | Some _ =>
    if nonempty (Fallback r) && negb (streqb (Fallback r) (lit "direct")) then Err ErrFallbackValue
    else if nonempty (Fallback r) && negb (streqb (Action r) (lit "warp")) then Err ErrFallbackAction
    else
      let m := rMatch r in
      if negb (nonempty (Domain m) || nonempty (Keyword m) || nonempty (IPCIDR m)) then Err ErrNoCriterion
      else if nonempty (Domain m) && negb (validateDomain (Domain m)) then Err ErrDomain
      else
        let r := if nonempty (Domain m) then
                   let dom := ToLower (Domain m) in
                   if has_prefix [x2e] dom then r <| mDom := drop 1 dom |> <| mDomSuffix := true |>
                   else r <| mDom := dom |>
                 else r in
        let r := r <| mKW := ToLower (Keyword m) |> in
        match (if nonempty (IPCIDR m) then
                 match ParseCIDR (IPCIDR m) with
                 | None => Err ErrCIDR
                 | Some c => Ok (r <| mCIDR := Some c |>)
                 end
               else Ok r) with
        | Err e => Err e
        | Ok r =>
          if (PortMin m <? 0) || (PortMin m >? 65535) then Err ErrPortMin
          else if (PortMax m <? 0) || (PortMax m >? 65535) then Err ErrPortMax
          else if (PortMin m >? 0) && (PortMax m >? 0) && (PortMin m >? PortMax m) then Err ErrPortOrder
          else Ok r
        end
  end.

(** The loop over the rules: [seen] are the ids so far. *)
Fixpoint sanitizeRules (i : nat) (seen : list gostring) (rules : list Rule) : res rule_error (list Rule) :=
  match rules with
  | [] => Ok []
  | r :: rest =>
    if negb (nonempty (ID r)) then Err (ErrIDRequired i)
    else if bool_decide (ID r ∈ seen) then Err (ErrDuplicateID i)
    else r' ← validateRule r;
         rest' ← sanitizeRules (S i) (ID r :: seen) rest;
         Ok (r' :: rest')
  end.

Definition Sanitize (rs : RuleSet) : res rule_error RuleSet :=
  if negb (Version rs =? 1) then Err ErrVersion
  else
    let rs := if nonempty (DefaultAction rs) then rs else rs <| DefaultAction := lit "direct" |> in
    match ParseOutboundKind (DefaultAction rs) with
    | None => Err ErrDefaultUnknown
    | Some _ =>
      if streqb (DefaultAction rs) (lit "block") then Err ErrDefaultBlock
      else if (MaxRules <? length (Rules rs))%nat then Err ErrTooManyRules
      else rules ← sanitizeRules 0 [] (Rules rs); Ok (rs <| Rules := rules |>)
    end.

(** ** Matching *)

Record RDestination := mkRDest { Host : gostring; rPort : Z }.

Definition PortInRange (m : Match) (port : Z) : bool :=
  let lo := if PortMin m =? 0 then 1 else PortMin m in
  let hi := if PortMax m =? 0 then 65535 else PortMax m in
  (port >=? lo) && (port <=? hi).

Definition matchDomain (r : Rule) (host : gostring) : bool :=
  let h := ToLower host in
  match ParseIP h with
  | Some _ => false
  | None => if mDomSuffix r then streqb h (mDom r) || has_suffix h (x2e :: mDom r)
            else streqb h (mDom r)
  end.

Definition matchKeyword (r : Rule) (host : gostring) : bool := contains (mKW r) (ToLower host).

Definition matchCIDR (r : Rule) (host : gostring) : bool :=
  match ParseIP host, mCIDR r with
  | Some ip, Some n => Contains n ip
  | _, _ => false
  end.

Definition matchRule (r : Rule) (dst : RDestination) : bool :=
  if negb (Enabled r) then false
  else if negb (PortInRange (rMatch r) (rPort dst)) then false
  else if nonempty (Domain (rMatch r)) && matchDomain r (Host dst) then true
  else if nonempty (mKW r) && matchKeyword r (Host dst) then true
  else match mCIDR r with Some _ => matchCIDR r (Host dst) | None => false end.

Fixpoint evaluateRules (rules : list Rule) (dst : RDestination) : option (OutboundKind * gostring) :=
  match rules with
  | [] => None
  | r :: rest => if matchRule r dst then Some (kind_of (Action r), ID r) else evaluateRules rest dst
  end.

Definition Evaluate (rs : RuleSet) (dst : RDestination) : OutboundKind * gostring :=
  match evaluateRules (Rules rs) dst with
  | Some d => d
  | None => (kind_of (DefaultAction rs), [])
  end.

Definition SplitHostPort (addr : gostring) : option (gostring * Z) :=
  match net_SplitHostPort addr with
  | None => None
  | Some (h, p) =>
    match Atoi p with
    | None => None
    | Some port => if (port <? 1) || (port >? 65535) then None else Some (h, port)
    end
  end.

(** ** The engine *)

Inductive new_error := ErrWARPAddrNotConfigured.

(** The nil checks on Rules and Direct cannot fail here. *)
Definition New (rs : RuleSet) (warpAddr : gostring) : option new_error :=
  let needsWARP := streqb (DefaultAction rs) (lit "warp")
                   || existsb (λ r, streqb (Action r) (lit "warp")) (Rules rs) in
  if needsWARP && negb (nonempty warpAddr) then Some ErrWARPAddrNotConfigured else None.

Fixpoint find_rule (rules : list Rule) (id : gostring) : option Rule :=
  match rules with
  | [] => None
  | r :: rest => if streqb (ID r) id then Some r else find_rule rest id
  end.

Definition ruleByID (rs : RuleSet) (id : gostring) : option Rule :=
  if negb (nonempty id) then None else find_rule (Rules rs) id.

Definition buildConnectReq (host : gostring) (port : Z) : list byte :=
  [x05; x01; x00]
  ++ match ParseIP host with
     | Some ip => match To4 ip with
                  | Some v4 => x01 :: v4
                  | None => x04 :: ip
                  end
     | None => let hb := if (255 <? length host)%nat then take 255 host else host in
               x03 :: zb (zlen hb) :: hb
     end
  ++ [zb (Z.shiftr port 8); zb (Z.land port 255)].

Definition readN (r : list byte) (n : nat) : res io_error (list byte) :=
  match n with
  | O => Ok r
  | _ => match ReadFull n r with Ok (_, r') => Ok r' | Err e => Err e end
  end.

Inductive reply_error := ReplyIO (e : io_error) | UnknownAtype (a : Z).

Definition reply_io {A} (x : res io_error A) : res reply_error A :=
  match x with Ok a => Ok a | Err e => Err (ReplyIO e) end.

Definition readDomainAddrBlock (r : list byte) : res reply_error (list byte) :=
  '(lb, r) ← reply_io (ReadFull 1 r);
  reply_io (readN r (Z.to_nat (bz (nth 0 lb x00)) + 2)).

Definition readAddrBlock (r : list byte) (atype : byte) : res reply_error (list byte) :=
  if bz atype =? 1 then reply_io (readN r (4 + 2))
  else if bz atype =? 4 then reply_io (readN r (16 + 2))
  else if bz atype =? 3 then readDomainAddrBlock r
  else Err (UnknownAtype (bz atype)).

(** How far the conversation with the WARP endpoint gets: whether the TCP
    connect succeeds, which of our two writes fail, and the bytes it sends. *)
Record warp_peer := mkPeer {
  wp_connect : bool;
  wp_write_hello : bool;
  wp_write_connect : bool;
  wp_bytes : list byte
}.

Inductive dial_error :=
| ErrMalformedAddr
| ErrBlocked
| ErrWarpUnreachable (stage : nat)      (* wraps the sentinel *)
| ErrWarpRefused (rep : Z)
| ErrWarpMalformed (e : reply_error)
| ErrDirect (code : nat).

(** [errors.Is(err, ErrWarpUnreachable)] *)
Definition is_unreachable (e : dial_error) : bool :=
  match e with ErrWarpUnreachable _ => true | _ => false end.

(** A connection is described by what it is attached to. *)
Inductive conn := DirectConn (id : nat) | WarpConn (sent : list byte) (unread : list byte).

Record Engine := mkEngine {
  e_rs : RuleSet;
  e_warpAddr : gostring;
  e_warpProto : bool
}.

Definition dialWarp (e : Engine) (p : warp_peer) (addr : gostring) : res dial_error conn :=
  let '(host, port) := default ([], 0) (SplitHostPort addr) in
  if negb (wp_connect p) then Err (ErrWarpUnreachable 0)
  else if negb (e_warpProto e) then Ok (WarpConn [] (wp_bytes p))
  else if negb (wp_write_hello p) then Err (ErrWarpUnreachable 1)
  else match ReadFull 2 (wp_bytes p) with
  | Err _ => Err (ErrWarpUnreachable 2)
  | Ok (_, s) =>
    let req := buildConnectReq host port in
    if negb (wp_write_connect p) then Err (ErrWarpUnreachable 3)
    else match ReadFull 4 s with
    | Err _ => Err (ErrWarpUnreachable 4)
    | Ok (head, s) =>
      if negb (bz (nth 1 head x00) =? 0) then Err (ErrWarpRefused (bz (nth 1 head x00)))
      else match readAddrBlock s (nth 3 head x00) with
      | Err e => Err (ErrWarpMalformed e)
      | Ok s => Ok (WarpConn ([x05; x01; x00] ++ req) s)
      end
    end
  end.

(** [direct] is the outcome of the node's own dial. *)
Definition Dial (e : Engine) (direct : gostring → res nat nat) (p : warp_peer) (addr : gostring)
  : res dial_error conn :=
  let dial_direct := match direct addr with Ok c => Ok (DirectConn c) | Err x => Err (ErrDirect x) end in
  match SplitHostPort addr with
  | None => Err ErrMalformedAddr
  | Some (host, port) =>
    let '(kind, ruleID) := Evaluate (e_rs e) (mkRDest host port) in
    let rule := ruleByID (e_rs e) ruleID in
    match kind with
    | OutboundBlock => Err ErrBlocked
    | OutboundDirect => dial_direct
    | OutboundWarp =>
      match dialWarp e p addr with
      | Ok c => Ok c
      | Err err =>
        if is_unreachable err
           && match rule with Some r => streqb (Fallback r) (lit "direct") | None => false end
        then dial_direct
        else Err err
      end
    end
  end.

(** ** First match wins *)

Lemma evaluateRules_spec rules dst :
  match evaluateRules rules dst with
  | Some (k, id) => ∃ i r, rules !! i = Some r ∧ matchRule r dst = true
      ∧ (∀ j r', (j < i)%nat → rules !! j = Some r' → matchRule r' dst = false)
      ∧ k = kind_of (Action r) ∧ id = ID r
  | None => ∀ r, r ∈ rules → matchRule r dst = false
  end.
Proof.
  induction rules as [|r rules IH]; cbn [evaluateRules]; [by intros r ?%elem_of_nil|].
  destruct (matchRule r dst) eqn:E.
  - exists 0%nat, r. split_and!; try done. intros; lia.
  - destruct (evaluateRules rules dst) as [[k id]|].
    + destruct IH as (i & r' & ? & ? & Hlt & ? & ?). exists (S i), r'. split_and!; try done.
      intros [|j] r'' Hj Hl; simplify_eq/=; [done|]. apply (Hlt j); [lia|done].
    + intros r' [->|?]%elem_of_cons; auto.
Qed.

(** First match wins.  Evaluate returns the action and id of the first rule
    of the list that matches the destination (every earlier rule does not), or
    the default action with an empty id when no rule matches; a disabled rule
    and a rule whose port range excludes the destination port never match. *)
Theorem routing_first_match rs dst :
  let '(k, id) := Evaluate rs dst in
  ((∃ i r, Rules rs !! i = Some r ∧ matchRule r dst = true
      ∧ (∀ j r', (j < i)%nat → Rules rs !! j = Some r' → matchRule r' dst = false)
      ∧ k = kind_of (Action r) ∧ id = ID r)
   ∨ ((∀ r, r ∈ Rules rs → matchRule r dst = false) ∧ k = kind_of (DefaultAction rs) ∧ id = []))
  ∧ (∀ r, Enabled r = false ∨ PortInRange (rMatch r) (rPort dst) = false → matchRule r dst = false).
Proof.
  unfold Evaluate. pose proof (evaluateRules_spec (Rules rs) dst) as H.
  destruct (evaluateRules (Rules rs) dst) as [[k id]|].
  - split; [by left|]. intros r [Hr|Hr]; unfold matchRule; rewrite Hr; [done|]. by destruct (Enabled r).
  - split; [by right|]. intros r [Hr|Hr]; unfold matchRule; rewrite Hr; [done|]. by destruct (Enabled r).
Qed.

(** ** What validation guarantees *)

(** A validated rule: valid action, a fallback only on warp, at least one
    criterion, ports in range; the precomputed fields are those of the match. *)
Record rule_valid (r : Rule) : Prop := {
  rv_action : is_Some (ParseOutboundKind (Action r));
  rv_fallback : Fallback r = [] ∨ (Fallback r = lit "direct" ∧ Action r = lit "warp");
  rv_criterion : Domain (rMatch r) ≠ [] ∨ Keyword (rMatch r) ≠ [] ∨ IPCIDR (rMatch r) ≠ [];
  rv_domain : Domain (rMatch r) ≠ [] → validateDomain (Domain (rMatch r)) = true;
  rv_ports : 0 ≤ PortMin (rMatch r) ≤ 65535 ∧ 0 ≤ PortMax (rMatch r) ≤ 65535
             ∧ (0 < PortMin (rMatch r) → 0 < PortMax (rMatch r) → PortMin (rMatch r) ≤ PortMax (rMatch r));
  rv_kw : mKW r = ToLower (Keyword (rMatch r));
  rv_cidr : mCIDR r = if nonempty (IPCIDR (rMatch r)) then ParseCIDR (IPCIDR (rMatch r)) else None
}.

Lemma nonempty_true s : nonempty s = true ↔ s ≠ [].
Proof. by destruct s. Qed.

Lemma nonempty_false s : nonempty s = false ↔ s = [].
Proof. by destruct s. Qed.

(** The precomputed match state of a rule straight from the decoder is empty. *)
Definition decoded (r : Rule) : Prop := mCIDR r = None ∧ mDom r = [] ∧ mDomSuffix r = false.

Lemma validateRule_Ok r r' :
  decoded r → validateRule r = Ok r' →
  rule_valid r' ∧ ID r' = ID r ∧ Enabled r' = Enabled r ∧ rMatch r' = rMatch r
  ∧ Action r' = Action r ∧ Fallback r' = Fallback r
  ∧ (Domain (rMatch r) ≠ [] →
       let dom := ToLower (Domain (rMatch r)) in
       mDomSuffix r' = has_prefix [x2e] dom ∧ mDom r' = core_of dom).
Proof.
  intros (Hc & Hd & Hs). unfold validateRule.
  destruct (nonempty (Action r)) eqn:E0; [|done]. cbn [negb].
  destruct (ParseOutboundKind (Action r)) eqn:E1; [|done].
  destruct (_ && negb (streqb (Fallback r) _)) eqn:E2; [done|].
  destruct (_ && negb (streqb (Action r) _)) eqn:E3; [done|]. cbv zeta.
  destruct (negb (_ || _)) eqn:E4; [done|].
  destruct (_ && negb (validateDomain _)) eqn:E5; [done|].
  set (r1 := (if nonempty (Domain (rMatch r)) then _ else _) <| mKW := ToLower (Keyword (rMatch r)) |>).
  set (x := if nonempty (IPCIDR (rMatch r)) then _ else _).
  assert (ID r1 = ID r ∧ Enabled r1 = Enabled r ∧ rMatch r1 = rMatch r ∧ Action r1 = Action r
    ∧ Fallback r1 = Fallback r ∧ mKW r1 = ToLower (Keyword (rMatch r)) ∧ mCIDR r1 = None
    ∧ (Domain (rMatch r) ≠ [] → mDomSuffix r1 = has_prefix [x2e] (ToLower (Domain (rMatch r)))
         ∧ mDom r1 = core_of (ToLower (Domain (rMatch r))))) as (R1 & R2 & R3 & R4 & R5 & R6 & R7 & R8).
  { unfold r1, core_of. destruct (nonempty (Domain (rMatch r))) eqn:En; [destruct (has_prefix _ _) eqn:Ep|];
      simpl; split_and!; try done. by apply nonempty_false in En. }
  clearbody r1.
  assert (∀ r2, x = Ok r2 → ID r2 = ID r1 ∧ Enabled r2 = Enabled r1 ∧ rMatch r2 = rMatch r1
    ∧ Action r2 = Action r1 ∧ Fallback r2 = Fallback r1 ∧ mKW r2 = mKW r1
    ∧ mDomSuffix r2 = mDomSuffix r1 ∧ mDom r2 = mDom r1
    ∧ mCIDR r2 = if nonempty (IPCIDR (rMatch r)) then ParseCIDR (IPCIDR (rMatch r)) else None) as Hx.
  { unfold x. intros r2. destruct (nonempty (IPCIDR _)); [destruct (ParseCIDR _); [|done]|];
      intros [= <-]; simpl; split_and!; done. }
  clearbody x. destruct x as [r2|]; [|done]. destruct (Hx r2 eq_refl) as (X1 & X2 & X3 & X4 & X5 & X6 & X7 & X8 & X9).
  destruct (_ || (_ >? 65535)) eqn:E6; [done|]. destruct (_ || (PortMax _ >? 65535)) eqn:E7; [done|].
  destruct (_ && (PortMin _ >? PortMax _)) eqn:E8; [done|]. intros [= <-].
  rewrite X1, X2, X3, X4, X5, X7, X8, R1, R2, R3, R4, R5. split_and!; try done. constructor.
  - rewrite X4, R4, E1. done.
  - rewrite X5, X4, R5, R4. clear -E2 E3. destruct (Fallback r) as [|c l]; [by left|right].
    cbn [nonempty andb] in *. apply negb_false_iff in E2, E3. by rewrite !streqb_true in *.
  - rewrite X3, R3. rewrite <- !nonempty_true. apply negb_false_iff in E4. rewrite !orb_true_iff in E4. clear -E4. tauto.
  - rewrite X3, R3. rewrite <- nonempty_true. intros Hn. rewrite Hn in E5. simpl in E5. by apply negb_false_iff in E5.
  - rewrite X3, R3. apply orb_false_iff in E6 as [? ?], E7 as [? ?]. bools.
    destruct E8 as [[?|?]%andb_false_iff|?]; bools; lia.
  - by rewrite X6, X3, R6, R3.
  - by rewrite X9, X3, R3.
Qed.

Lemma sanitizeRules_Ok i seen rules rules' :
  Forall decoded rules → sanitizeRules i seen rules = Ok rules' →
  Forall rule_valid rules' ∧ map ID rules' = map ID rules
  ∧ NoDup (map ID rules') ∧ (∀ id, id ∈ map ID rules' → id ≠ [] ∧ id ∉ seen).
Proof.
  revert i seen rules'. induction rules as [|r rules IH]; intros i seen rules' Hd; cbn [sanitizeRules].
  { intros [= <-]. split_and!; [done|done|constructor|by intros ? ?%elem_of_nil]. }
  inversion_clear Hd as [|? ? Hr Hrs].
  destruct (nonempty (ID r)) eqn:En; [|done]. cbn [negb]. case_bool_decide as Hs; [done|].
  intros (r' & Hv & (rest' & Hrec & [= <-])%res_bind_Ok)%res_bind_Ok.
  destruct (validateRule_Ok r r' Hr Hv) as (Hval & Hid & _).
  destruct (IH _ _ _ Hrs Hrec) as (H1 & H2 & H3 & H4).
  split_and!.
  - by constructor.
  - simpl. by rewrite H2, Hid.
  - simpl. constructor; [|done]. rewrite Hid. intros Hin. destruct (H4 _ Hin) as [_ Hn]. apply Hn. set_solver.
  - intros id. simpl. rewrite Hid. intros [->|Hin]%elem_of_cons.
    + split; [by apply nonempty_true|done].
    + destruct (H4 _ Hin). set_solver.
Qed.

Lemma Sanitize_Ok rs rs' :
  Forall decoded (Rules rs) → Sanitize rs = Ok rs' →
  Forall rule_valid (Rules rs') ∧ NoDup (map ID (Rules rs')) ∧ ([] ∉ map ID (Rules rs'))
  ∧ (length (Rules rs') ≤ MaxRules)%nat
  ∧ (DefaultAction rs' = lit "direct" ∨ DefaultAction rs' = lit "warp").
Proof.
  intros Hd. unfold Sanitize. destruct (Version rs =? 1); [|done]. cbn [negb].
  set (rs1 := if nonempty (DefaultAction rs) then rs else _).
  assert (Rules rs1 = Rules rs) as Hr1 by (unfold rs1; by destruct (nonempty _)).
  destruct (ParseOutboundKind (DefaultAction rs1)) eqn:E1; [|done].
  destruct (streqb (DefaultAction rs1) (lit "block")) eqn:E2; [done|].
  destruct (MaxRules <? _)%nat eqn:E3; [done|]. apply Nat.ltb_ge in E3.
  intros (rules & Hs & [= <-])%res_bind_Ok. rewrite Hr1 in *.
  destruct (sanitizeRules_Ok _ _ _ _ Hd Hs) as (H1 & H2 & H3 & H4). simpl. split_and!; [done|done| | |].
  - intros Hin. by destruct (H4 _ Hin).
  - by rewrite <- (length_map ID), H2, length_map.
  - unfold ParseOutboundKind in E1. destruct (streqb _ (lit "direct")) eqn:Ed; [left; by apply streqb_true|].
    destruct (streqb _ (lit "warp")) eqn:Ew; [right; by apply streqb_true|]. by rewrite E2 in E1.
Qed.

Lemma find_rule_unique rules r :
  NoDup (map ID rules) → r ∈ rules → find_rule rules (ID r) = Some r.
Proof.
  induction rules as [|r' rules IH]; intros Hn Hin; [by apply elem_of_nil in Hin|].
  cbn [find_rule]. cbn [map] in Hn. apply NoDup_cons in Hn as [Hni Hn].
  apply elem_of_cons in Hin as [->|Hin].
  - by rewrite (proj2 (streqb_true _ _)).
  - destruct (streqb (ID r') (ID r)) eqn:E; [|by apply IH].
    apply streqb_true in E. destruct Hni. rewrite E. by apply list_elem_of_fmap_2.
Qed.

Lemma ParseOutboundKind_inv s k : ParseOutboundKind s = Some k → s = OutboundKind_String k.
Proof.
  unfold ParseOutboundKind. repeat case_match; intros; simplify_eq/=; by apply streqb_true.
Qed.

(** The decision of a validated rule set comes with the rule that made it. *)
Lemma Evaluate_rule rs rs' dst k id :
  Forall decoded (Rules rs) → Sanitize rs = Ok rs' → Evaluate rs' dst = (k, id) →
  (∃ r, r ∈ Rules rs' ∧ matchRule r dst = true ∧ Action r = OutboundKind_String k
        ∧ rule_valid r ∧ ruleByID rs' id = Some r)
  ∨ ((∀ r, r ∈ Rules rs' → matchRule r dst = false) ∧ DefaultAction rs' = OutboundKind_String k
     ∧ k ≠ OutboundBlock ∧ ruleByID rs' id = None).
Proof.
  intros Hd HS He. destruct (Sanitize_Ok rs rs' Hd HS) as (Hv & Hn & Hne & _ & Hda).
  pose proof (evaluateRules_spec (Rules rs') dst) as H. unfold Evaluate in He.
  destruct (evaluateRules (Rules rs') dst) as [[k' id']|]; simplify_eq.
  - left. destruct H as (i & r & Hl & Hm & _ & -> & ->). pose proof (list_elem_of_lookup_2 _ _ _ Hl) as Hin.
    exists r. pose proof (proj1 (Forall_forall _ _) Hv r Hin) as Hvr. split_and!; try done.
    + unfold kind_of. destruct (rv_action r Hvr) as [k Hk]. rewrite Hk. by apply ParseOutboundKind_inv.
    + unfold ruleByID. rewrite (proj2 (nonempty_true (ID r))); [by apply find_rule_unique|].
      intros Hx. apply Hne. rewrite <- Hx. by apply list_elem_of_fmap_2.
  - right. split; [done|]. unfold kind_of. by destruct Hda as [-> | ->].
Qed.

(** A validated rule set never blocks by default.  Whatever the operator's
    file said, a rule set that passed Sanitize has at most 500 rules with
    distinct non-empty ids and a default of direct or warp, and it refuses a
    destination only through an enabled block rule that states a criterion and
    whose criteria the destination satisfies. *)
Theorem routing_block_only_by_rule rs rs' dst id :
  Forall decoded (Rules rs) → Sanitize rs = Ok rs' →
  NoDup (map ID (Rules rs')) ∧ ([] ∉ map ID (Rules rs')) ∧ (length (Rules rs') ≤ MaxRules)%nat
  ∧ (DefaultAction rs' = lit "direct" ∨ DefaultAction rs' = lit "warp")
  ∧ (Evaluate rs' dst = (OutboundBlock, id) →
       ∃ r, r ∈ Rules rs' ∧ ruleByID rs' id = Some r ∧ Enabled r = true ∧ Action r = lit "block"
            ∧ matchRule r dst = true
            ∧ (Domain (rMatch r) ≠ [] ∨ Keyword (rMatch r) ≠ [] ∨ IPCIDR (rMatch r) ≠ [])).
Proof.
  intros Hd HS. destruct (Sanitize_Ok rs rs' Hd HS) as (Hv & Hn & Hne & Hl & Hda).
  split_and!; [done..|]. intros He.
  destruct (Evaluate_rule _ _ _ _ _ Hd HS He) as [(r & Hin & Hm & Ha & Hvr & Hid)|(_ & _ & Hk & _)]; [|done].
  exists r. split_and!; try done; [|by apply rv_criterion].
  unfold matchRule in Hm. by destruct (Enabled r).
Qed.


(** A failing WARP dial without permission to fall back is reported as it
    is: for a warp decision whose error is not "unreachable", or whose deciding
    rule has no fallback (or is the default), Dial returns the WARP error. *)
Theorem routing_fail_closed rs rs' warpAddr proto direct p addr host port id err :
  Forall decoded (Rules rs) → Sanitize rs = Ok rs' →
  let e := mkEngine rs' warpAddr proto in
  SplitHostPort addr = Some (host, port) →
  Evaluate rs' (mkRDest host port) = (OutboundWarp, id) →
  dialWarp e p addr = Err err →
  (is_unreachable err = false ∨ ∀ r, ruleByID rs' id = Some r → Fallback r = []) →
  Dial e direct p addr = Err err.
Proof.
  intros Hd HS e Hs He Hw Hno. unfold Dial. rewrite Hs. change (e_rs e) with rs'. rewrite He, Hw.
  destruct Hno as [-> |Hno]; [done|]. destruct (ruleByID rs' id) as [r|]; [|by rewrite andb_false_r].
  rewrite (Hno r eq_refl). by rewrite andb_false_r.
Qed.

(** ** Domain matching *)

(** Every character of a valid pattern is a dot, a hyphen, a digit or a
    lower-case letter, so lower-casing a valid pattern changes nothing. *)
Definition domain_char (c : byte) : bool := beqb c x2e || beqb c x2d || is_lower c || is_digit c.

Lemma validLabelChars_ok i n l c : validLabelChars i n l = true → c ∈ l → domain_char c = true.
Proof.
  revert i. induction l as [|d l IH]; intros i Hv Hin; [by apply elem_of_nil in Hin|].
  cbn [validLabelChars] in Hv. apply andb_true_iff in Hv as [Hd Hv].
  apply elem_of_cons in Hin as [->|Hin]; [|by eapply IH].
  unfold domain_char. destruct (beqb d x2d); [by rewrite orb_true_r|].
  apply orb_true_iff in Hd as [-> | ->]; by rewrite ?orb_true_r.
Qed.

Lemma split_on_elem c s d : d ∈ s → d = c ∨ ∃ l, l ∈ split_on c s ∧ d ∈ l.
Proof.
  induction s as [|x s IH]; intros Hin; [by apply elem_of_nil in Hin|]. cbn [split_on].
  unfold beqb. case_bool_decide as E.
  - subst. apply elem_of_cons in Hin as [->|Hin]; [by left|].
    destruct (IH Hin) as [?|(l & ? & ?)]; [by left|]. right. exists l. split; [by apply elem_of_cons; right|done].
  - destruct (split_on c s) as [|l0 ls] eqn:Es.
    + destruct s; [|exfalso; revert Es; cbn [split_on]; repeat case_match; done]. right. exists [x].
      split; [by apply elem_of_cons; left|]. apply elem_of_cons in Hin as [->|Hin]; [by apply elem_of_cons; left|by apply elem_of_nil in Hin].
    + apply elem_of_cons in Hin as [->|Hin].
      * right. exists (x :: l0). split; by apply elem_of_cons; left.
      * destruct (IH Hin) as [?|(l & Hl & Hd)]; [by left|]. right.
        apply elem_of_cons in Hl as [->|Hl].
        -- exists (x :: l0). split; [by apply elem_of_cons; left|by apply elem_of_cons; right].
        -- exists l. split; [by apply elem_of_cons; right|done].
Qed.

Lemma domain_char_lower c : domain_char c = true → (bz c <? 128) = true ∧ lower_byte c = c.
Proof. destruct c; done. Qed.

Lemma validateDomain_lower d : validateDomain d = true → ToLower d = d.
Proof.
  unfold validateDomain. intros Hv. apply andb_true_iff in Hv as [_ Hv].
  assert (∀ c, c ∈ d → domain_char c = true) as Hch.
  { intros c Hc. assert (c = x2e ∨ c ∈ core_of d) as [->|Hcore]; [|done|].
    { unfold core_of. destruct (has_prefix [x2e] d) eqn:Ep; [|by right].
      apply has_prefix_iff in Ep as [k ->]. simpl. rewrite drop_0. by apply elem_of_cons in Hc. }
    destruct (split_on_elem x2e _ _ Hcore) as [->|(l & Hl & Hcl)]; [done|].
    pose proof (proj1 (forallb_forall _ _) Hv l) as Hlab. rewrite <- list_elem_of_In in Hlab.
    specialize (Hlab Hl). unfold validLabel in Hlab. bools. by eapply validLabelChars_ok. }
  unfold ToLower, to_lower. assert (ascii d = true) as ->.
  { apply forallb_forall. intros c Hc. rewrite <- list_elem_of_In in Hc. by apply domain_char_lower, Hch. }
  clear Hv. unfold lower. induction d as [|c d IH]; [done|]. simpl. f_equal.
  - by apply domain_char_lower, Hch, elem_of_cons; left.
  - apply IH. intros c' Hc'. by apply Hch, elem_of_cons; right.
Qed.

(** Domain patterns mean what they say.  After validation, a pattern with a
    leading dot matches a host name exactly when the lower-cased host is the
    pattern's core or ends with a dot followed by the core (so ".example.com"
    matches "example.com" and "a.example.com" but not "badexample.com"); a
    pattern without it matches only the lower-cased host itself; and a host
    that is an IP literal is never matched by a domain pattern. *)
Theorem domain_match_semantics r r' host :
  decoded r → validateRule r = Ok r' → Domain (rMatch r) ≠ [] →
  let h := ToLower host in
  let core := core_of (Domain (rMatch r)) in
  (is_Some (ParseIP h) → matchDomain r' host = false)
  ∧ (ParseIP h = None →
       matchDomain r' host = true ↔
       if has_prefix [x2e] (Domain (rMatch r)) then h = core ∨ ∃ k, h = k ++ [x2e] ++ core
       else h = core).
Proof.
  intros Hd Hv Hne h core. destruct (validateRule_Ok r r' Hd Hv) as (Hval & _ & _ & Hm & _ & _ & Hdom).
  pose proof (validateDomain_lower _ (rv_domain r' Hval ltac:(by rewrite Hm))) as Hlow. rewrite Hm in Hlow.
  destruct (Hdom Hne) as [Hsuf Hcore]. rewrite Hlow in *. unfold matchDomain. fold h. split.
  - by intros [ip ->].
  - intros ->. rewrite Hsuf, Hcore. fold core. destruct (has_prefix _ _); [|apply streqb_true].
    rewrite orb_true_iff, streqb_true, has_suffix_iff. done.
Qed.

(** ** The CONNECT request *)

(** The destination a CONNECT request names. *)
Definition connect_dest (host : gostring) (port : Z) : Destination :=
  match ParseIP host with
  | Some ip => match To4 ip with
               | Some _ => mkDest AddrTypeIPv4 host port
               | None => mkDest AddrTypeIPv6 host port
               end
  | None => mkDest AddrTypeDomain (take 255 host) port
  end.

Lemma port_low port : zb (Z.land port 255) = zb port.
Proof.
  apply bz_inj. rewrite !bz_zb. unfold wrapu. change 255 with (Z.ones 8).
  rewrite Z.land_ones by lia. change (2 ^ 8) with 256. by rewrite Z.mod_mod.
Qed.

(** The SOCKS5 CONNECT request sent to WARP names the right destination:
    after the version, command and reserved bytes it is exactly the destination
    header of the host and port (IPv4 or IPv6 form for literals, domain form
    otherwise, so names are resolved by the endpoint), and the peer's decoder
    reads back that destination and nothing else. *)
Theorem connect_request_names_destination host port rest :
  0 < port ≤ 65535 →
  let req := buildConnectReq host port in
  let dest := connect_dest host port in
  req = [x05; x01; x00] ++ fst (WriteDestination dest)
  ∧ snd (WriteDestination dest) = None
  ∧ ReadDestination (drop 3 req ++ rest) = Ok (canonical dest, rest).
Proof.
  intros Hp req dest.
  assert (snd (WriteDestination dest) = None ∧ req = [x05; x01; x00] ++ fst (WriteDestination dest)) as [H1 H2].
  { unfold req, dest, buildConnectReq, connect_dest, WriteDestination, writeAddr.
    rewrite port_low, be_put2. destruct (ParseIP host) as [ip|] eqn:Ei.
    - destruct (To4 ip) as [v4|] eqn:E4; cbn [AddrType Addr Port]; rewrite Ei, E4; done.
    - cbn [AddrType Addr Port]. change (AddrTypeDomain =? AddrTypeIPv4) with false.
      change (AddrTypeDomain =? AddrTypeDomain) with true. cbv iota.
      assert ((if (255 <? length host)%nat then take 255 host else host) = take 255 host) as ->.
      { destruct (255 <? length host)%nat eqn:El; [done|]. apply Nat.ltb_ge in El. by rewrite take_ge. }
      assert ((zlen (take 255 host) >? 255) = false) as ->; [|done].
      rewrite Z.gtb_ltb. apply Z.ltb_ge. unfold zlen. rewrite length_take. lia. }
  split_and!; [done|done|]. rewrite H2. pose proof (WriteDestination_ReadDestination dest rest) as Hrt.
  assert (in_u 16 (Port dest)) as Hpo.
  { unfold dest, connect_dest, in_u. repeat case_match; simpl; lia. }
  specialize (Hrt Hpo). destruct (WriteDestination dest) as [bs err]. simpl in H1. subst err.
  change (drop 3 ([x05; x01; x00] ++ fst (bs, @None dest_error))) with bs. by apply Hrt.
Qed.
End engine.

(** ** Examples *)

Definition no_match : Match := mkMatch [] [] [] 0 0.

Definition example_rule (id : gostring) (m : Match) (action fallback : gostring) : Rule :=
  mkRule id true m action fallback [] None [] [] false.

Definition example_set : RuleSet :=
  mkRuleSet 1 []
    [ example_rule (lit "ads") (mkMatch (lit ".ads.example") [] [] 0 0) (lit "block") [];
      example_rule (lit "ai") (mkMatch [] (lit "openai") [] 443 443) (lit "warp") (lit "direct");
      example_rule (lit "corp") (mkMatch [] [] (lit "10.0.0.0/8") 0 0) (lit "warp") [] ].

Definition sanitized (rs : RuleSet) : RuleSet :=
  match Sanitize id rs with Ok rs' => rs' | Err _ => rs end.

Definition down_peer : warp_peer := mkPeer false true true [].

Lemma routing_block_only_by_rule_witness :
  DefaultAction (sanitized example_set) = lit "direct"
  ∨ DefaultAction (sanitized example_set) = lit "warp".
Proof.
  apply (routing_block_only_by_rule id example_set (sanitized example_set) (mkRDest [] 1) []);
    [repeat constructor|vm_compute; reflexivity].
Defined.


Lemma routing_fail_closed_witness :
  Dial id (mkEngine (sanitized example_set) (lit "127.0.0.1:40000") true) (λ _, Ok 5%nat) down_peer
    (lit "10.1.2.3:22") = Err (ErrWarpUnreachable 0).
Proof.
  apply (routing_fail_closed id example_set (sanitized example_set) (lit "127.0.0.1:40000") true
    (λ _, Ok 5%nat) down_peer (lit "10.1.2.3:22") (lit "10.1.2.3") 22 (lit "corp")).
  - repeat constructor.
  - vm_compute. reflexivity.
  - vm_compute. reflexivity.
  - vm_compute. reflexivity.
  - vm_compute. reflexivity.
  - right. vm_compute. intros r Hr. injection Hr as <-. reflexivity.
Defined.

Lemma domain_match_semantics_witness :
  matchDomain id (match validateRule id (example_rule (lit "ads") (mkMatch (lit ".ads.example") [] [] 0 0) (lit "block") [])
                  with Ok r => r | Err _ => example_rule [] no_match [] [] end) (lit "X.Ads.Example") = true.
Proof.
  apply (domain_match_semantics id
    (example_rule (lit "ads") (mkMatch (lit ".ads.example") [] [] 0 0) (lit "block") [])).
  - repeat constructor.
  - vm_compute. reflexivity.
  - discriminate.
  - vm_compute. reflexivity.
  - cbv iota. right. exists (lit "x"). vm_compute. reflexivity.
Defined.

Lemma connect_request_names_destination_witness :
  snd (WriteDestination (connect_dest (lit "example.org") 443)) = None.
Proof. apply (connect_request_names_destination (lit "example.org") 443 []). lia. Defined.
