(* ===== verification/Budget.v ===== *)
(** * The aggregate session-buffer budget (src/pkg/node/budget.go)

    Every method is one critical section on [b.mu]; chargeWait is two: the one
    that queues the request and, when the caller's context ends first, the one
    that withdraws it.  A waiter is identified by a number; [signalled] are the
    waiters whose [ready] channel was closed and [admitted] those among them
    that got their bytes.  Byte counts are int64 sums of socket-read sizes
    bounded by the limit, so they are unbounded integers here. *)
From S2P Require Export QueueStats.
#[local] Open Scope Z_scope.

Section budget.
Context {K : Type} `{Countable K}.

Record budgetWaiter := mkWaiter { w_id : nat; w_key : K; w_n : Z }.

Record sessionBufferBudget := mkBudget {
  limit : Z;
  accounted : Z;
  active : gmap K Z;
  waiters : list budgetWaiter;
  b_closed : bool;
  high : Z;                  (* Metrics.RelayBufferHigh *)
  nextWaiter : nat;
  admitted : gset nat;
  signalled : gset nat
}.

#[export] Instance sessionBufferBudget_expandable : Expandable sessionBufferBudget := {| expand := λ b,
  mkBudget (limit b) (accounted b) (active b) (waiters b) (b_closed b) (high b)
    (nextWaiter b) (admitted b) (signalled b) |}.

(** ** Operations *)

Definition newSessionBufferBudget (lim : Z) : sessionBufferBudget :=
  mkBudget lim 0 ∅ [] false 0 0 ∅ ∅.

Definition observeHighLocked (b : sessionBufferBudget) : sessionBufferBudget :=
  b <| high := atomicMax (high b) (accounted b) |>.

Definition begin (k : K) (b : sessionBufferBudget) : sessionBufferBudget :=
  if b_closed b then b else b <| active := <[k:=0]> (active b) |>.

(** One iteration of the grant loop for the waiter [w]: admitted when it fits,
    skipped otherwise. *)
Definition grantOne (w : budgetWaiter) (b : sessionBufferBudget) : bool * sessionBufferBudget :=
  if accounted b + w_n w >? limit b then (false, b)
  else
    let b := b <| accounted := accounted b + w_n w |>
               <| active := <[w_key w := default 0 (active b !! w_key w) + w_n w]> (active b) |> in
    (true, (observeHighLocked b) <| admitted := {[w_id w]} ∪ admitted b |>
                                 <| signalled := {[w_id w]} ∪ signalled b |>).

(** The loop: returns the waiters that stay. *)
Fixpoint grantLoop (ws : list budgetWaiter) (b : sessionBufferBudget)
  : list budgetWaiter * sessionBufferBudget :=
  match ws with
  | [] => ([], b)
  | w :: ws =>
    let '(ok, b1) := grantOne w b in
    let '(rest, b2) := grantLoop ws b1 in
    (if ok then rest else w :: rest, b2)
  end.

Definition grantWaitersLocked (b : sessionBufferBudget) : sessionBufferBudget :=
  if b_closed b || (limit b <=? 0) then b
  else let '(rest, b') := grantLoop (waiters b) b in b' <| waiters := rest |>.

(** The first critical section of chargeWait, for a caller whose context is not
    done: an immediate answer, or the number of the queued waiter (which may
    already have been admitted). *)
Inductive charge_result := ChargeNow (ok : bool) | ChargeQueued (id : nat).

Definition chargeWait (k : K) (n : Z) (b : sessionBufferBudget) : charge_result * sessionBufferBudget :=
  if n <=? 0 then (ChargeNow true, b)
  else if b_closed b then (ChargeNow false, b)
  else if limit b <=? 0 then (ChargeNow true, b)
  else match active b !! k with
  | None => (ChargeNow false, b)
  | Some _ =>
    let id := nextWaiter b in
    (ChargeQueued id,
     grantWaitersLocked (b <| waiters := waiters b ++ [mkWaiter id k n] |> <| nextWaiter := S id |>))
  end.

Definition removeWaiterLocked (id : nat) (b : sessionBufferBudget) : sessionBufferBudget :=
  b <| waiters := filter (λ w, w_id w ≠ id) (waiters b) |>.

(** The [ctx.Done()] branch of chargeWait. *)
Definition chargeCancel (id : nat) (b : sessionBufferBudget) : bool * sessionBufferBudget :=
  if bool_decide (id ∈ admitted b) then (true, b)
  else (false, grantWaitersLocked (removeWaiterLocked id b)).

Definition refund (k : K) (n : Z) (b : sessionBufferBudget) : Z * sessionBufferBudget :=
  if (n <=? 0) || (limit b <=? 0) || b_closed b then (0, b)
  else
    let cur := default 0 (active b !! k) in
    let n := if n >? cur then cur else n in
    if n =? 0 then (0, b)
    else
      let b := b <| accounted := accounted b - n |> <| active := <[k := cur - n]> (active b) |> in
      (n, grantWaitersLocked (observeHighLocked b)).

Definition end_ (k : K) (b : sessionBufferBudget) : Z * sessionBufferBudget :=
  match active b !! k with
  | None => (0, b)
  | Some cur =>
    let b := if (limit b >? 0) && negb (b_closed b) && (cur >? 0)
             then observeHighLocked (b <| accounted := accounted b - cur |>) else b in
    let b := b <| active := delete k (active b) |> in
    (cur, if cur >? 0 then grantWaitersLocked b else b)
  end.

Definition AccountedBytes (b : sessionBufferBudget) : Z := accounted b.
Definition ActiveRelays (b : sessionBufferBudget) : nat := size (active b).

Definition CloseBudget (b : sessionBufferBudget) : Z * sessionBufferBudget :=
  if b_closed b then (0, b)
  else
    let reclaimed := if limit b >? 0 then msum id (active b) else 0 in
    (reclaimed,
     observeHighLocked
       (b <| b_closed := true |> <| accounted := accounted b - reclaimed |> <| active := ∅ |>
          <| signalled := list_to_set (map w_id (waiters b)) ∪ signalled b |> <| waiters := [] |>)).

(** ** Runs *)

Inductive bop :=
| BBegin (k : K) | BCharge (k : K) (n : Z) | BCancel (id : nat)
| BRefund (k : K) (n : Z) | BEnd (k : K) | BClose.

Definition bstep (op : bop) (b : sessionBufferBudget) : sessionBufferBudget :=
  match op with
  | BBegin k => begin k b
  | BCharge k n => snd (chargeWait k n b)
  | BCancel id => snd (chargeCancel id b)
  | BRefund k n => snd (refund k n b)
  | BEnd k => snd (end_ k b)
  | BClose => snd (CloseBudget b)
  end.

(** A relay registers itself once: begin is called for a key not yet active. *)
Definition blegal (op : bop) (b : sessionBufferBudget) : Prop :=
  match op with BBegin k => active b !! k = None | _ => True end.

Inductive breach (lim : Z) : sessionBufferBudget → Prop :=
| breach_new : breach lim (newSessionBufferBudget lim)
| breach_step op b : breach lim b → blegal op b → breach lim (bstep op b).

(** ** Invariant *)

(** No queued waiter fits. *)
Definition saturated (b : sessionBufferBudget) : Prop :=
  Forall (λ w, limit b < accounted b + w_n w) (waiters b).

Record binv (b : sessionBufferBudget) : Prop := {
  bi_nonneg : ∀ k c, active b !! k = Some c → 0 ≤ c;
  bi_sum : accounted b = msum id (active b);
  bi_limit : 0 < limit b → accounted b ≤ limit b;
  bi_sizes : Forall (λ w, 0 < w_n w) (waiters b);
  bi_ids : Forall (λ w, (w_id w < nextWaiter b)%nat ∧ w_id w ∉ signalled b) (waiters b);
  bi_nodup : NoDup (map w_id (waiters b));
  bi_adm : admitted b ⊆ signalled b;
  bi_fresh : ∀ i, i ∈ signalled b → (i < nextWaiter b)%nat;
  bi_closed : b_closed b = true → active b = ∅ ∧ waiters b = []
}.

Lemma active_sum_update b k d :
  msum id (<[k := default 0 (active b !! k) + d]> (active b)) = msum id (active b) + d.
Proof.
  destruct (active b !! k) as [c|] eqn:E; simpl.
  - rewrite (msum_update _ _ _ c) by done. unfold id. lia.
  - rewrite msum_insert by done. unfold id at 1. lia.
Qed.

Lemma accounted_nonneg b : binv b → 0 ≤ accounted b.
Proof. intros []. rewrite bi_sum0. apply msum_nonneg. eauto. Qed.

(** Admitting one waiter out of the queue. *)
Lemma grantOne_inv b sk w ws b' :
  0 < limit b → binv (b <| waiters := sk ++ w :: ws |>) → grantOne w b = (true, b') →
  binv (b' <| waiters := sk ++ ws |>).
Proof.
  intros Hl Hb. unfold grantOne. destruct (_ >? _) eqn:E; [done|]. intros [= <-]. bools.
  destruct Hb as [Hnn Hs Hli Hsz Hid Hnd Had Hfr Hcl]. simpl in *.
  rewrite map_app, map_cons in Hnd. apply Forall_app in Hsz as [Hz1 Hz2], Hid as [Hi1 Hi2].
  inversion_clear Hz2 as [|? ? Hz Hz3]. inversion_clear Hi2 as [|? ? [Hw1 Hw2] Hi3].
  rewrite <- Permutation_middle in Hnd. apply NoDup_cons in Hnd as [Hni Hnd].
  assert (∀ v, v ∈ sk ++ ws → w_id v ≠ w_id w) as Hne.
  { intros v Hv Heq. apply Hni. rewrite <- Heq, <- map_app. by apply list_elem_of_fmap_2. }
  constructor; simpl.
  - intros k c. destruct (decide (k = w_key w)) as [->|Hk].
    + rewrite lookup_insert_eq. intros [= <-].
      destruct (active b !! w_key w) as [c|] eqn:Ea; simpl; [specialize (Hnn _ _ Ea)|]; lia.
    + rewrite lookup_insert_ne by done. apply Hnn.
  - rewrite active_sum_update. lia.
  - lia.
  - by apply Forall_app.
  - apply Forall_forall. intros v Hv. specialize (Hne v Hv).
    assert ((w_id v < nextWaiter b)%nat ∧ w_id v ∉ signalled b) as [? ?].
    { apply elem_of_app in Hv as [Hv|Hv];
        [apply (proj1 (Forall_forall _ _) Hi1 v Hv)|apply (proj1 (Forall_forall _ _) Hi3 v Hv)]. }
    set_solver.
  - by rewrite map_app.
  - set_solver.
  - intros i [->%elem_of_singleton|Hi]%elem_of_union; [done|by apply Hfr].
  - intros Hc. destruct (Hcl Hc) as [_ Hx]. by destruct sk.
Qed.

Lemma grantOne_limit w b ok b' :
  grantOne w b = (ok, b') → limit b' = limit b ∧ b_closed b' = b_closed b ∧ nextWaiter b' = nextWaiter b
  ∧ signalled b ⊆ signalled b' ∧ admitted b ⊆ admitted b'
  ∧ (0 < w_n w → accounted b ≤ accounted b')
  ∧ (ok = false → b' = b ∧ limit b < accounted b + w_n w)
  ∧ (ok = true → w_id w ∈ admitted b' ∧ accounted b' = accounted b + w_n w ∧ accounted b + w_n w ≤ limit b).
Proof.
  unfold grantOne. destruct (_ >? _) eqn:E; intros [= <- <-]; bools.
  - split_and!; try done; lia.
  - simpl. split_and!; try done; try set_solver; try lia.
Qed.

Lemma grantLoop_inv ws b sk rest b' :
  0 < limit b → binv (b <| waiters := sk ++ ws |>) → grantLoop ws b = (rest, b') →
  binv (b' <| waiters := sk ++ rest |>)
  ∧ limit b' = limit b ∧ b_closed b' = b_closed b ∧ nextWaiter b' = nextWaiter b
  ∧ accounted b ≤ accounted b' ∧ signalled b ⊆ signalled b' ∧ admitted b ⊆ admitted b'
  ∧ Forall (λ w, limit b < accounted b' + w_n w) rest
  ∧ rest `sublist_of` ws.
Proof.
  revert b sk rest. induction ws as [|w ws IH]; intros b sk rest Hl Hb; cbn [grantLoop].
  { intros [= <- <-]. split_and!; done || lia. }
  destruct (grantOne w b) as [ok b1] eqn:E1. destruct (grantLoop ws b1) as [rest1 b2] eqn:E2.
  intros [= <- <-]. pose proof (grantOne_limit _ _ _ _ E1) as (L1 & L2 & L3 & L4 & L5 & L6 & Lf & Lt).
  destruct ok.
  - pose proof (grantOne_inv _ _ _ _ _ Hl Hb E1) as Hb1.
    destruct (IH b1 sk rest1) as (H1 & -> & -> & -> & H5 & H6 & H7 & H8 & H9); [lia|done|done|].
    destruct (Lt eq_refl) as (_ & Ha & _).
    assert (0 < w_n w) as Hw.
    { destruct Hb as [_ _ _ Hsz _ _ _ _ _]. simpl in Hsz. apply Forall_app in Hsz as [_ Hsz]. by inversion Hsz. }
    split_and!; try done; [lia|set_solver|set_solver|by rewrite <- L1|by apply sublist_cons].
  - destruct (Lf eq_refl) as [-> Hgt].
    replace (sk ++ w :: ws) with ((sk ++ [w]) ++ ws) in Hb by (by rewrite <- app_assoc).
    destruct (IH b (sk ++ [w]) rest1) as (H1 & -> & -> & -> & H5 & H6 & H7 & H8 & H9); [done|done|done|].
    rewrite <- app_assoc in H1. split_and!; try done; [|by apply sublist_skip].
    constructor; [lia|done].
Qed.

(** The grant pass keeps the invariant and leaves no queued waiter that fits. *)
Lemma grantWaiters_inv b :
  binv b → b_closed b = false → 0 < limit b →
  binv (grantWaitersLocked b) ∧ saturated (grantWaitersLocked b)
  ∧ limit (grantWaitersLocked b) = limit b ∧ b_closed (grantWaitersLocked b) = b_closed b
  ∧ accounted b ≤ accounted (grantWaitersLocked b)
  ∧ nextWaiter (grantWaitersLocked b) = nextWaiter b.
Proof.
  intros Hb Hc Hl. unfold grantWaitersLocked. rewrite Hc, (proj2 (Z.leb_gt _ _)) by lia. cbn [orb].
  destruct (grantLoop (waiters b) b) as [rest b'] eqn:E.
  destruct (grantLoop_inv (waiters b) b [] rest b' Hl) as (H1 & H2 & H3 & H4 & H5 & _ & _ & H8 & _);
    [by destruct b, Hb|done|].
  split; [exact H1|]. split; [eapply Forall_impl; [exact H8|]; simpl; lia|].
  split_and!; simpl; congruence || lia.
Qed.

Lemma grantWaiters_off b : b_closed b = true ∨ limit b ≤ 0 → grantWaitersLocked b = b.
Proof.
  unfold grantWaitersLocked. intros [-> |Hl]; [done|].
  rewrite (proj2 (Z.leb_le _ _) Hl), orb_true_r. done.
Qed.

(** What holds between critical sections of an enabled budget. *)
Definition bok (lim : Z) (b : sessionBufferBudget) : Prop :=
  limit b = lim ∧ binv b ∧ (b_closed b = false → saturated b).

Lemma bok_grant lim b : 0 < lim → limit b = lim → b_closed b = false → binv b → bok lim (grantWaitersLocked b).
Proof.
  intros Hl Hli Hc Hb. destruct (grantWaiters_inv b Hb Hc) as (H1 & H2 & H3 & H4 & _); [lia|].
  split_and!; [congruence|done|done].
Qed.

Lemma bok_begin lim k b : bok lim b → active b !! k = None → bok lim (begin k b).
Proof.
  intros Hok Hk. pose proof Hok as (Hl & Hb & Hs). unfold begin. destruct (b_closed b) eqn:Ec; [exact Hok|].
  split_and!; [done| |by intros _; apply Hs]. destruct Hb. constructor; simpl; try done.
  - intros k' c. destruct (decide (k' = k)) as [->|]; [rewrite lookup_insert_eq; intros [= <-]; lia|].
    rewrite lookup_insert_ne by done. apply bi_nonneg0.
  - rewrite msum_insert by done. unfold id at 1. lia.
  - by rewrite Ec.
Qed.

Lemma bok_charge lim k n b : 0 < lim → bok lim b → bok lim (snd (chargeWait k n b)).
Proof.
  intros Hl Hok. pose proof Hok as (Hli & Hb & Hs). unfold chargeWait. destruct (n <=? 0) eqn:En; [exact Hok|].
  destruct (b_closed b) eqn:Ec; [exact Hok|]. destruct (limit b <=? 0); [exact Hok|].
  destruct (active b !! k); [|exact Hok]. simpl. bools.
  apply bok_grant; [done|done|done|]. destruct Hb. constructor; simpl; try done.
  - apply Forall_app. split; [done|]. by constructor.
  - apply Forall_app. split.
    + eapply Forall_impl; [exact bi_ids0|]. intros w [? ?]. split; [lia|done].
    + constructor; [|done]. simpl. split; [lia|]. intros Hin%bi_fresh0. lia.
  - rewrite map_app. apply NoDup_app. split_and!; [done| |apply NoDup_singleton].
    intros i Hi ->%list_elem_of_singleton. apply list_elem_of_fmap in Hi as (w & Hw & Hin).
    simpl in Hw. pose proof (proj1 (Forall_forall _ _) bi_ids0 w Hin) as [? _]. lia.
  - intros i Hi%bi_fresh0. lia.
  - by rewrite Ec.
Qed.

Lemma bok_cancel lim id b : 0 < lim → bok lim b → bok lim (snd (chargeCancel id b)).
Proof.
  intros Hl Hok. pose proof Hok as (Hli & Hb & Hs). unfold chargeCancel. case_bool_decide; [exact Hok|]. simpl.
  assert (binv (removeWaiterLocked id b)) as Hb'.
  { unfold removeWaiterLocked. destruct Hb. constructor; simpl; try done.
    - apply Forall_forall. intros w [_ Hw]%list_elem_of_filter. by apply (proj1 (Forall_forall _ _) bi_sizes0).
    - apply Forall_forall. intros w [_ Hw]%list_elem_of_filter. by apply (proj1 (Forall_forall _ _) bi_ids0).
    - apply (sublist_NoDup _ _ bi_nodup0), (fmap_sublist w_id), sublist_filter.
    - intros Hc. destruct (bi_closed0 Hc) as [? ->]. done. }
  destruct (b_closed b) eqn:Ec.
  - rewrite grantWaiters_off by (left; exact Ec). split_and!; [done|done|]. simpl. by rewrite Ec.
  - by apply bok_grant.
Qed.

Lemma binv_shrink b k cur n :
  binv b → active b !! k = Some cur → 0 ≤ n ≤ cur →
  binv (observeHighLocked (b <| accounted := accounted b - n |> <| active := <[k := cur - n]> (active b) |>)).
Proof.
  intros [] Hk Hn. constructor; simpl; try done.
  - intros k' c. destruct (decide (k' = k)) as [->|]; [rewrite lookup_insert_eq; intros [= <-]; lia|].
    rewrite lookup_insert_ne by done. apply bi_nonneg0.
  - rewrite (msum_update _ _ _ cur) by done. unfold id in *. lia.
  - lia.
  - intros Hc. destruct (bi_closed0 Hc) as [Ha ?]. by rewrite Ha, lookup_empty in Hk.
Qed.

Lemma bok_refund lim k n b : 0 < lim → bok lim b → bok lim (snd (refund k n b)).
Proof.
  intros Hl Hok. pose proof Hok as (Hli & Hb & Hs). unfold refund. destruct (_ || b_closed b) eqn:E; [exact Hok|].
  bools. destruct (active b !! k) as [cur|] eqn:Ek; simpl.
  - pose proof (bi_nonneg b Hb k cur Ek).
    destruct ((if n >? cur then cur else n) =? 0) eqn:E0; [exact Hok|]. simpl. bools.
    apply bok_grant; [done|done|done|].
    apply (binv_shrink b k cur); [done|done|]. destruct (n >? cur) eqn:En; bools; lia.
  - destruct (n >? 0) eqn:En; bools; [|lia]. exact Hok.
Qed.

Lemma binv_delete b k cur :
  binv b → active b !! k = Some cur →
  binv (observeHighLocked (b <| accounted := accounted b - cur |>) <| active := delete k (active b) |>).
Proof.
  intros [] Hk. constructor; simpl; try done.
  - intros k' c [_ ?]%lookup_delete_Some. eauto.
  - rewrite bi_sum0, (msum_delete _ _ _ _ Hk). unfold id at 1. lia.
  - specialize (bi_nonneg0 _ _ Hk). lia.
  - intros Hc. destruct (bi_closed0 Hc) as [Ha ?]. by rewrite Ha, lookup_empty in Hk.
Qed.

Lemma bok_end lim k b : 0 < lim → bok lim b → bok lim (snd (end_ k b)).
Proof.
  intros Hl Hok. pose proof Hok as (Hli & Hb & Hs). unfold end_. destruct (active b !! k) as [cur|] eqn:Ek; [|exact Hok]. cbn [snd].
  pose proof (bi_nonneg b Hb k cur Ek). pose proof (binv_delete b k cur Hb Ek) as Hd.
  assert (b_closed b = false) as Hc.
  { destruct (b_closed b) eqn:Ec; [|done]. destruct (bi_closed b Hb Ec) as [Ha _]. by rewrite Ha, lookup_empty in Ek. }
  assert ((limit b >? 0) && negb (b_closed b) && (cur >? 0) = (cur >? 0)) as ->.
  { rewrite Hc, (proj2 (Z.gtb_lt (limit b) 0)) by lia. done. }
  destruct (cur >? 0) eqn:E0; bools.
  - apply bok_grant; [done|exact Hli|exact Hc|exact Hd].
  - assert (cur = 0) as -> by lia. split_and!; [done| |].
    + destruct Hb. constructor; simpl; try done.
      * intros k' c [_ ?]%lookup_delete_Some. eauto.
      * rewrite bi_sum0, (msum_delete _ _ _ _ Ek). done.
      * rewrite Hc. done.
    + intros _. by apply Hs.
Qed.

Lemma bok_close lim b : 0 < lim → bok lim b → bok lim (snd (CloseBudget b)).
Proof.
  intros Hl Hok. pose proof Hok as (Hli & Hb & Hs). unfold CloseBudget. destruct (b_closed b) eqn:Ec; [exact Hok|].
  simpl. split_and!; [done| |done]. destruct Hb. rewrite (proj2 (Z.gtb_lt (limit b) 0)) by lia. constructor; simpl; try done.
  - rewrite msum_empty. lia.
  - lia.
  - constructor.
  - etrans; [exact bi_adm0|]. apply union_subseteq_r.
  - intros i [Hi|Hi]%elem_of_union; [|by apply bi_fresh0]. apply elem_of_list_to_set in Hi.
    apply list_elem_of_fmap in Hi as (w & -> & Hin). by apply (proj1 (Forall_forall _ _) bi_ids0 w Hin).
Qed.

Lemma bok_step lim op b : 0 < lim → bok lim b → blegal op b → bok lim (bstep op b).
Proof.
  intros Hl Hb Hle. destruct op; cbn [bstep].
  - by apply bok_begin.
  - by apply bok_charge.
  - by apply bok_cancel.
  - by apply bok_refund.
  - by apply bok_end.
  - by apply bok_close.
Qed.

Lemma bok_reach lim b : 0 < lim → breach lim b → bok lim b.
Proof.
  intros Hl. induction 1 as [|op b Hr IH Hle]; [|by apply bok_step].
  split_and!; [done| |by constructor]. constructor; simpl; try done; try lia; try set_solver. constructor.
Qed.

(** ** Properties *)

(** The aggregate is exact and never exceeded.  In every state reachable
    from a fresh budget by registrations, charges, withdrawals, refunds (of any
    amount, also more than was charged), relay ends and Close, the accounted
    total is exactly the sum of the bytes charged to the live relays, no relay
    has a negative charge, and the total stays between zero and the limit. *)
Theorem budget_exact lim b :
  0 < lim → breach lim b →
  accounted b = msum id (active b) ∧ 0 ≤ accounted b ≤ lim
  ∧ (∀ k c, active b !! k = Some c → 0 ≤ c).
Proof.
  intros Hl Hr. destruct (bok_reach lim b Hl Hr) as (Hli & Hb & _).
  pose proof (accounted_nonneg b Hb). destruct Hb. split_and!; [done|done|lia|done].
Qed.

(** Nobody waits for space that is there.  Between critical sections of an
    open budget no queued request fits into the remaining space; so whenever
    bytes are freed the requests they make room for have already been granted,
    and once every charge is refunded no request of at most the limit is left
    waiting.  Queued requests have not been signalled, and each waiter that
    was signalled has left the queue. *)
Theorem budget_no_idle_space lim b :
  0 < lim → breach lim b → b_closed b = false →
  (∀ w, w ∈ waiters b → lim < accounted b + w_n w ∧ w_id w ∉ signalled b)
  ∧ (accounted b = 0 → ∀ w, w ∈ waiters b → lim < w_n w).
Proof.
  intros Hl Hr Hc. destruct (bok_reach lim b Hl Hr) as (Hli & Hb & Hs). specialize (Hs Hc).
  assert (∀ w, w ∈ waiters b → lim < accounted b + w_n w ∧ w_id w ∉ signalled b) as Hw.
  { intros w Hw. split.
    - rewrite <- Hli. by apply (proj1 (Forall_forall _ _) Hs).
    - by apply (proj1 (Forall_forall _ _) (bi_ids b Hb)). }
  split; [done|]. intros H0 w Hin. destruct (Hw w Hin). lia.
Qed.

Lemma grantLoop_app l1 l2 b :
  grantLoop (l1 ++ l2) b =
  let '(r1, b1) := grantLoop l1 b in let '(r2, b2) := grantLoop l2 b1 in (r1 ++ r2, b2).
Proof.
  revert b. induction l1 as [|w l1 IH]; intros b; cbn [app grantLoop].
  - by destruct (grantLoop l2 b).
  - destruct (grantOne w b) as [ok b1]. rewrite IH. destruct (grantLoop l1 b1) as [r1 b2].
    destruct (grantLoop l2 b2) as [r2 b3]. by destruct ok.
Qed.

Lemma grantLoop_mono ws b rest b' :
  grantLoop ws b = (rest, b') → Forall (λ w, 0 < w_n w) ws →
  limit b' = limit b ∧ accounted b ≤ accounted b' ∧ rest `sublist_of` ws.
Proof.
  revert b rest. induction ws as [|w ws IH]; intros b rest; cbn [grantLoop].
  { intros [= <- <-] _. split_and!; done || lia. }
  destruct (grantOne w b) as [ok b1] eqn:E1. destruct (grantLoop ws b1) as [r b2] eqn:E2.
  intros [= <- <-] Hp. inversion_clear Hp as [|? ? Hw Hws].
  destruct (grantOne_limit _ _ _ _ E1) as (L1 & _ & _ & _ & _ & L6 & _).
  destruct (IH _ _ E2 Hws) as (-> & ? & ?). specialize (L6 Hw). split_and!; [done|lia|].
  destruct ok; [by apply sublist_cons|by apply sublist_skip].
Qed.

(** Admission is in arrival order among requests of the same size.  In one
    grant pass, if a request behind another one of at most its size is
    admitted, the earlier one is admitted in the same pass; and every request
    the pass leaves in the queue keeps its place. *)
Theorem budget_grant_fifo ws1 w1 ws2 w2 ws3 b rest b' :
  grantLoop (ws1 ++ w1 :: ws2 ++ w2 :: ws3) b = (rest, b') →
  Forall (λ w, 0 < w_n w) (ws1 ++ w1 :: ws2 ++ w2 :: ws3) →
  NoDup (map w_id (ws1 ++ w1 :: ws2 ++ w2 :: ws3)) →
  w_n w1 ≤ w_n w2 →
  rest `sublist_of` (ws1 ++ w1 :: ws2 ++ w2 :: ws3)
  ∧ (w1 ∈ rest → w2 ∈ rest).
Proof.
  intros HE Hp Hnd Hle. destruct (grantLoop_mono _ _ _ _ HE Hp) as (_ & _ & Hsub). split; [done|].
  intros Hin. rewrite grantLoop_app in HE. destruct (grantLoop ws1 b) as [r1 b1] eqn:E1.
  cbn [grantLoop] in HE. destruct (grantOne w1 b1) as [ok1 b2] eqn:E2.
  rewrite grantLoop_app in HE. destruct (grantLoop ws2 b2) as [r2 b3] eqn:E3.
  cbn [grantLoop] in HE. destruct (grantOne w2 b3) as [ok2 b4] eqn:E4.
  destruct (grantLoop ws3 b4) as [r3 b5] eqn:E5. injection HE as <- <-.
  apply Forall_app in Hp as [Hp1 Hp2]. inversion_clear Hp2 as [|? ? Hw1 Hp3].
  apply Forall_app in Hp3 as [Hp3 Hp4]. inversion_clear Hp4 as [|? ? Hw2 Hp5].
  destruct (grantLoop_mono _ _ _ _ E1 Hp1) as (_ & _ & S1).
  destruct (grantLoop_mono _ _ _ _ E3 Hp3) as (L3 & A3 & S3).
  destruct (grantLoop_mono _ _ _ _ E5 Hp5) as (_ & _ & S5).
  destruct (grantOne_limit _ _ _ _ E2) as (L2 & _ & _ & _ & _ & A2 & F2 & _).
  destruct (grantOne_limit _ _ _ _ E4) as (_ & _ & _ & _ & _ & _ & F4 & T4).
  destruct ok2; [|apply elem_of_app; right; destruct ok1; set_solver].
  destruct (T4 eq_refl) as (_ & _ & Hfit). exfalso. destruct ok1.
  - rewrite map_app, map_cons in Hnd. rewrite <- Permutation_middle in Hnd. apply NoDup_cons in Hnd as [Hni _].
    apply Hni. rewrite <- map_app. apply list_elem_of_fmap_2.
    apply elem_of_app in Hin as [Hin|Hin].
    + apply elem_of_app. left. by eapply elem_of_sublist.
    + apply elem_of_app. right. apply elem_of_app in Hin as [Hin|Hin].
      * apply elem_of_app. left. by eapply elem_of_sublist.
      * apply elem_of_app. right. apply elem_of_cons. right. by eapply elem_of_sublist.
  - destruct (F2 eq_refl) as [-> Hgt]. lia.
Qed.

(** Shutdown reclaims everything.  Closing a reachable budget returns
    exactly the bytes outstanding and leaves nothing accounted, no active relay
    and an empty queue; every request that was parked is signalled without
    being admitted, so its chargeWait returns false, as does every later one,
    and nothing is ever accounted again. *)
Theorem budget_close_reclaims lim b ops :
  0 < lim → breach lim b → b_closed b = false →
  let '(n, b') := CloseBudget b in
  n = accounted b ∧ AccountedBytes b' = 0 ∧ ActiveRelays b' = 0%nat
  ∧ (∀ w, w ∈ waiters b → w_id w ∈ signalled b' ∧ w_id w ∉ admitted b')
  ∧ (let b'' := foldl (λ b op, bstep op b) b' ops in
     accounted b'' = 0 ∧ active b'' = ∅ ∧ ∀ k m, 0 < m → fst (chargeWait k m b'') = ChargeNow false).
Proof.
  intros Hl Hr Hc. destruct (bok_reach lim b Hl Hr) as (Hli & Hb & _). unfold CloseBudget. rewrite Hc.
  rewrite (proj2 (Z.gtb_lt (limit b) 0)) by lia. pose proof Hb as [_ Hs _ _ Hid _ Had _ _].
  set (b' := observeHighLocked _). assert (b_closed b' = true ∧ accounted b' = 0 ∧ active b' = ∅ ∧ waiters b' = [])
    as (C1 & C2 & C3 & C4) by (unfold b'; simpl; split_and!; done || lia).
  split; [done|]. split; [done|]. split; [unfold ActiveRelays; by rewrite C3, map_size_empty|]. split.
  - intros w Hw. unfold b'. simpl. split.
    + apply elem_of_union_l, elem_of_list_to_set. by apply list_elem_of_fmap_2.
    + intros Hin%Had. by apply (proj1 (Forall_forall _ _) Hid w Hw).
  - clearbody b'. clear -C1 C2 C3 C4. revert b' C1 C2 C3 C4.
    induction ops as [|op ops IH]; intros b C1 C2 C3 C4.
    + simpl. split_and!; [done|done|]. intros k m Hm. unfold chargeWait.
      by rewrite (proj2 (Z.leb_gt _ _) Hm), C1.
    + cbn [foldl]. apply IH; clear IH; destruct op; cbn [bstep];
        unfold begin, chargeWait, chargeCancel, refund, end_, CloseBudget, removeWaiterLocked;
        rewrite ?C1, ?C3, ?lookup_empty, ?orb_true_r; try done;
        repeat case_match; try done; simpl; rewrite ?grantWaiters_off by (left; exact C1); simpl; rewrite ?C4; done.
Qed.
End budget.

Arguments budgetWaiter : clear implicits.
Arguments sessionBufferBudget K {_ _}.
Arguments bop : clear implicits.

(** ** Examples *)

Definition example_budget : sessionBufferBudget nat :=
  foldl (λ b op, bstep op b) (newSessionBufferBudget 10)
    [BBegin 1%nat; BBegin 2%nat; BCharge 1%nat 8; BCharge 2%nat 5].

Lemma example_budget_reach : breach 10 example_budget.
Proof. unfold example_budget. cbn [foldl]. repeat (apply breach_step; [|first [done|vm_compute; reflexivity]]). constructor. Qed.

Lemma budget_exact_witness : accounted example_budget = msum id (active example_budget).
Proof. apply (budget_exact 10 example_budget); [lia|apply example_budget_reach]. Defined.

Lemma budget_no_idle_space_witness :
  waiters example_budget ≠ [] ∧ Forall (λ w, 10 < accounted example_budget + w_n w) (waiters example_budget).
Proof.
  split; [done|]. apply Forall_forall. intros w Hw.
  apply (budget_no_idle_space 10 example_budget); [lia|apply example_budget_reach|reflexivity|done].
Defined.

Definition fifo_waiters : list (budgetWaiter nat) :=
  [mkWaiter 0%nat 1%nat 6; mkWaiter 1%nat 1%nat 2; mkWaiter 2%nat 1%nat 7].

Lemma budget_grant_fifo_witness :
  map w_id (fst (grantLoop fifo_waiters (newSessionBufferBudget 4))) = [0%nat; 2%nat]
  ∧ fst (grantLoop fifo_waiters (newSessionBufferBudget 4)) `sublist_of` fifo_waiters.
Proof.
  split; [vm_compute; reflexivity|].
  apply (budget_grant_fifo [] (mkWaiter 0%nat 1%nat 6) [mkWaiter 1%nat 1%nat 2] (mkWaiter 2%nat 1%nat 7) []
    (newSessionBufferBudget 4) _ (snd (grantLoop fifo_waiters (newSessionBufferBudget 4)))).
  - apply surjective_pairing.
  - repeat constructor.
  - simpl. apply (bool_decide_eq_true_1 (NoDup _)). vm_compute. reflexivity.
  - simpl. lia.
Defined.

Lemma budget_close_reclaims_witness : fst (CloseBudget example_budget) = accounted example_budget.
Proof.
  pose proof (budget_close_reclaims 10 example_budget [] ltac:(lia) example_budget_reach eq_refl) as H.
  destruct (CloseBudget example_budget) as [n b']. apply H.
Defined.
