(* ===== verification/Credit.v ===== *)
(** * Credit flow control (src/pkg/node/credit.go)

    The sender-side ledger, the per-node gate manager with its fallback timers,
    the receiver-side emitter, and the two ends composed over a control plane
    that may drop, repeat and reorder credits.  Counters are [uint64], windows
    [uint32]. *)
From S2P Require Export Frame.
#[local] Open Scope Z_scope.

Definition creditWindowMax : Z := 512 * 1024.
Definition creditUnackedAllowance : Z := 128 * 1024.
Definition creditPreLatchBound : Z := creditWindowMax + creditUnackedAllowance.
Definition CreditSafeWindow : Z := MaxPayload.
Definition creditBatchBytes : Z := MaxPayload.
Definition creditBatchMaxAge : Z := 100000000.
Definition creditInitialWindow : Z := creditWindowMax.

(** ** The ledger *)

Record creditLedger := mkLedger {
  outstanding : Z;
  lastSeen : Z;
  window : Z;
  latched : bool;
  safelyCapped : bool;
  l_gen : Z;
  l_ready : option nat;          (* the channel parked callers wait on *)
  l_nWaiters : Z;
  l_nextChan : nat;
  l_closed : gset nat
}.

#[export] Instance creditLedger_expandable : Expandable creditLedger := {| expand := λ l,
  mkLedger (outstanding l) (lastSeen l) (window l) (latched l) (safelyCapped l) (l_gen l)
    (l_ready l) (l_nWaiters l) (l_nextChan l) (l_closed l) |}.

Definition newLedger (gen : Z) : creditLedger :=
  mkLedger 0 0 creditInitialWindow false false gen None 0 0 ∅.

Definition wakeLocked (l : creditLedger) : creditLedger :=
  if l_nWaiters l >? 0 then
    l <| l_closed := match l_ready l with Some c => {[c]} ∪ l_closed l | None => l_closed l end |>
      <| l_ready := None |> <| l_nWaiters := 0 |>
  else l.

(** The bound canSendLocked compares with. *)
Definition sendLimit (l : creditLedger) (capBytes : Z) : Z :=
  let limit := if latched l then
                 if safelyCapped l then CreditSafeWindow else window l + creditUnackedAllowance
               else creditPreLatchBound in
  if limit >? capBytes then capBytes else limit.

Definition canSendLocked (l : creditLedger) (chunk capBytes : Z) : bool :=
  wrapu 64 (outstanding l + chunk) <=? sendLimit l capBytes.

Definition canSend := canSendLocked.

Definition recordSent (n : Z) (l : creditLedger) : creditLedger :=
  l <| outstanding := wrapu 64 (outstanding l + n) |>.

Definition onCredit (p : CreditPayload) (arrivingGen capBytes : Z) (l : creditLedger) : bool * creditLedger :=
  if StaleCreditGeneration (cpGen p) arrivingGen then (false, l)
  else if negb (cpGen p =? l_gen l) then (false, l)
  else if cpBytesConsumed p <? lastSeen l then (false, l)
  else
    let consumed := cpBytesConsumed p - lastSeen l in
    let consumed := if consumed >? outstanding l then outstanding l else consumed in
    let lowered := consumed >? 0 in
    let l1 := l <| outstanding := outstanding l - consumed |> <| lastSeen := cpBytesConsumed p |> in
    let l2 := if latched l1 then
                l1 <| window := ClampCreditWindow (cpWindowGranted p) (wrapu 32 capBytes) |>
                   <| safelyCapped := false |>
              else l1 in
    let l3 := l2 <| latched := true |> in
    (true, if lowered then wakeLocked l3 else l3).

Definition reset (gen : Z) (l : creditLedger) : creditLedger :=
  l <| outstanding := 0 |> <| lastSeen := 0 |> <| latched := false |> <| safelyCapped := false |>
    <| l_gen := gen |> <| window := creditInitialWindow |> <| l_ready := None |> <| l_nWaiters := 0 |>.

Definition latchSafelyCapped (l : creditLedger) : creditLedger :=
  l <| latched := true |> <| safelyCapped := true |> <| window := CreditSafeWindow |>.

(** The critical section of creditPark: [None] when nothing gates the chunk,
    otherwise the channel the caller waits on (next to its context and the
    two-second fallback). *)
Definition creditPark (chunk capBytes : Z) (l : creditLedger) : option nat * creditLedger :=
  if canSendLocked l chunk capBytes then (None, l)
  else
    let l1 := match l_ready l with
              | Some _ => l
              | None => l <| l_ready := Some (l_nextChan l) |> <| l_nextChan := S (l_nextChan l) |>
              end in
    (Some (default (l_nextChan l) (l_ready l1)), l1 <| l_nWaiters := l_nWaiters l1 + 1 |>).

(** ** The gate manager

    Ledgers are shared objects: [lg_heap] holds them, the registry maps stream
    ids to references.  A timer remembers its stream and its ledger. *)

Record creditGateManager := mkGate {
  lg_heap : gmap nat creditLedger;
  ledgers : gmap Z nat;
  timers : gmap Z nat;
  (* the runtime: every timer ever armed, those pending, the next references *)
  timer_info : gmap nat (Z * nat);
  tm_pending : gset nat;
  next_ref : nat
}.

#[export] Instance creditGateManager_expandable : Expandable creditGateManager := {| expand := λ g,
  mkGate (lg_heap g) (ledgers g) (timers g) (timer_info g) (tm_pending g) (next_ref g) |}.

Definition newCreditGateManager : creditGateManager := mkGate ∅ ∅ ∅ ∅ ∅ 0.

Definition stopTimer (sid : Z) (g : creditGateManager) : creditGateManager :=
  match timers g !! sid with
  | Some t => g <| tm_pending := tm_pending g ∖ {[t]} |>
  | None => g
  end.

Definition armTimerLocked (sid : Z) (l : nat) (g : creditGateManager) : creditGateManager :=
  let g := stopTimer sid g in
  let t := next_ref g in
  g <| timers := <[sid:=t]> (timers g) |> <| timer_info := <[t:=(sid, l)]> (timer_info g) |>
    <| tm_pending := {[t]} ∪ tm_pending g |> <| next_ref := S t |>.

Definition newLedgerRef (gen sid : Z) (g : creditGateManager) : nat * creditGateManager :=
  let r := next_ref g in
  (r, g <| lg_heap := <[r:=newLedger gen]> (lg_heap g) |> <| ledgers := <[sid:=r]> (ledgers g) |>
        <| next_ref := S r |>).

Definition ledger (gen sid : Z) (g : creditGateManager) : nat * creditGateManager :=
  match ledgers g !! sid with
  | Some r => (r, g)
  | None => let '(r, g) := newLedgerRef gen sid g in (r, armTimerLocked sid r g)
  end.

Definition resetStream (gen sid : Z) (g : creditGateManager) : creditGateManager :=
  let '(r, g) := match ledgers g !! sid with
                 | Some r => (r, g)
                 | None => newLedgerRef gen sid g
                 end in
  let g := armTimerLocked sid r g in
  g <| lg_heap := alter (reset gen) r (lg_heap g) |>.

Definition cancelTimerLocked (sid : Z) (g : creditGateManager) : creditGateManager :=
  match timers g !! sid with
  | Some _ => let g := stopTimer sid g in g <| timers := delete sid (timers g) |>
  | None => g
  end.

Definition cancelTimer := cancelTimerLocked.

Definition removeStream (sid : Z) (g : creditGateManager) : creditGateManager :=
  let g := cancelTimerLocked sid g in g <| ledgers := delete sid (ledgers g) |>.

(** The callback of timer [t], run to completion (also late, after Stop). *)
Definition timerCallback (t : nat) (g : creditGateManager) : creditGateManager :=
  match timer_info g !! t with
  | None => g
  | Some (sid, l) =>
    let isCurrent := bool_decide (timers g !! sid = Some t) in
    match ledgers g !! sid with
    | Some cur => if isCurrent && bool_decide (cur = l)
                  then g <| lg_heap := alter latchSafelyCapped l (lg_heap g) |> else g
    | None => g
    end
  end.

(** ** The emitter *)

Record streamCredit := mkRec {
  consumed : Z;
  pending : Z;
  peerGen : Z;
  lastEmit : Z;
  lastEmitTime : Z
}.

#[export] Instance streamCredit_expandable : Expandable streamCredit := {| expand := λ r,
  mkRec (consumed r) (pending r) (peerGen r) (lastEmit r) (lastEmitTime r) |}.

Definition newRecord (now : Z) : streamCredit := mkRec 0 0 0 0 now.

Definition timeDueLocked (now : Z) (rc : streamCredit) : bool := now - lastEmitTime rc >=? creditBatchMaxAge.

Definition recordPeerGen (gen : Z) (rc : streamCredit) : streamCredit := rc <| peerGen := gen |>.

Definition recordConsumed (now n : Z) (rc : streamCredit) : bool * streamCredit :=
  let rc := rc <| consumed := wrapu 64 (consumed rc + n) |> <| pending := wrapu 64 (pending rc + n) |> in
  ((pending rc >=? creditBatchBytes) || timeDueLocked now rc, rc).

Definition buildPayload (maxBytes : Z) (rc : streamCredit) (final : bool) : CreditPayload :=
  {| cpVersion := CreditVersion; cpGen := peerGen rc; cpBytesConsumed := consumed rc;
     cpWindowGranted := ClampCreditWindow creditWindowMax maxBytes;
     cpFlags := if final then CreditFlagsFinal else 0;
     cpReserved := replicate 10 x00 |}.

(** The payload handed to the control plane, if any. *)
Definition emit (now maxBytes : Z) (final : bool) (rc : streamCredit) : option CreditPayload * streamCredit :=
  if (pending rc =? 0) && negb final then (None, rc)
  else (Some (buildPayload maxBytes rc final),
        rc <| lastEmit := consumed rc |> <| pending := 0 |> <| lastEmitTime := now |>).

Definition emitAnchor (maxBytes : Z) (rc : streamCredit) : CreditPayload :=
  {| cpVersion := CreditVersion; cpGen := peerGen rc; cpBytesConsumed := 0;
     cpWindowGranted := ClampCreditWindow creditWindowMax maxBytes; cpFlags := 0;
     cpReserved := replicate 10 x00 |}.

Definition finalize (now maxBytes : Z) (rc : streamCredit) := emit now maxBytes true rc.

(** The emitter's table of records, one per carrier and stream. *)
Section emitter.
Context {C : Type} `{Countable C}.
Definition recordLocked (now : Z) (key : C * Z) (recs : gmap (C * Z) streamCredit) : streamCredit :=
  default (newRecord now) (recs !! key).
Definition emitter_resetStream (key : C * Z) (recs : gmap (C * Z) streamCredit) := delete key recs.
End emitter.

(** ** Properties of the ledger *)

Lemma onCredit_spec p arrivingGen capBytes l :
  0 ≤ outstanding l →
  let '(ok, l') := onCredit p arrivingGen capBytes l in
  (ok = true ↔ cpGen p = arrivingGen ∧ cpGen p = l_gen l ∧ lastSeen l ≤ cpBytesConsumed p)
  ∧ (ok = false → l' = l)
  ∧ (ok = true →
       outstanding l' = Z.max 0 (outstanding l - (cpBytesConsumed p - lastSeen l))
       ∧ lastSeen l' = cpBytesConsumed p ∧ latched l' = true ∧ l_gen l' = l_gen l
       ∧ (outstanding l' < outstanding l → ∀ c, 0 < l_nWaiters l → l_ready l = Some c →
            c ∈ l_closed l' ∧ l_nWaiters l' = 0)).
Proof.
  intros Ho. unfold onCredit, StaleCreditGeneration.
  destruct (cpGen p =? arrivingGen) eqn:E1; bools; cbn [negb]; [|split_and!; [split; [done|intros (?&?&?); done]|done|done]].
  destruct (cpGen p =? l_gen l) eqn:E2; bools; cbn [negb]; [|split_and!; [split; [done|intros (?&?&?); done]|done|done]].
  destruct (_ <? lastSeen l) eqn:E3; bools; [split_and!; [split; [done|intros (?&?&?); lia]|done|done]|].
  set (k := if _ >? outstanding l then _ else _).
  assert (k = Z.min (cpBytesConsumed p - lastSeen l) (outstanding l)) as Hk.
  { unfold k. destruct (_ >? _) eqn:E; bools; lia. }
  clearbody k. split_and!; [done|done|]. intros _.
  set (l3 := (if latched _ then _ else _) <| latched := true |>).
  assert (outstanding l3 = outstanding l - k ∧ lastSeen l3 = cpBytesConsumed p ∧ latched l3 = true
    ∧ l_gen l3 = l_gen l ∧ l_nWaiters l3 = l_nWaiters l ∧ l_ready l3 = l_ready l) as (F1 & F2 & F3 & F4 & F5 & F6).
  { unfold l3. simpl. by destruct (latched l). }
  clearbody l3. destruct (k >? 0) eqn:Ek; bools.
  - unfold wakeLocked. destruct (l_nWaiters l3 >? 0) eqn:Ew; bools; simpl; rewrite ?F1, ?F2, ?F3, ?F4.
    + split_and!; [lia|done|done|done|]. intros _ c _ Hc. rewrite F6, Hc. split; [set_solver|done].
    + split_and!; [lia|done|done|done|]. intros _ c Hw. lia.
  - rewrite F1, F2, F3, F4. split_and!; [lia|done|done|done|]. lia.
Qed.

(** A credit is accepted exactly when its generation is that of the carrier
    it arrived on and of the ledger, and its byte count is not behind the last
    accepted one.  A refused credit changes nothing.  An accepted one lowers
    the outstanding count by the newly reported bytes, never below zero,
    remembers the report, leaves the ledger latched, and wakes a parked sender
    whenever it lowered anything. *)
Theorem onCredit_exact p arrivingGen capBytes l :
  0 ≤ outstanding l →
  let '(ok, l') := onCredit p arrivingGen capBytes l in
  (ok = true ↔ cpGen p = arrivingGen ∧ cpGen p = l_gen l ∧ lastSeen l ≤ cpBytesConsumed p)
  ∧ (ok = false → l' = l)
  ∧ (ok = true →
       outstanding l' = Z.max 0 (outstanding l - (cpBytesConsumed p - lastSeen l))
       ∧ lastSeen l' = cpBytesConsumed p ∧ latched l' = true ∧ l_gen l' = l_gen l
       ∧ (outstanding l' < outstanding l → ∀ c, 0 < l_nWaiters l → l_ready l = Some c →
            c ∈ l_closed l' ∧ l_nWaiters l' = 0)).
Proof. apply onCredit_spec. Qed.

Definition sample_payload (gen n : Z) : CreditPayload :=
  mkCredit CreditVersion gen n creditWindowMax 0 (replicate 10 x00).

Lemma onCredit_exact_witness :
  outstanding (snd (onCredit (sample_payload 3 100) 3 700000 (recordSent 250 (newLedger 3)))) = 150.
Proof.
  pose proof (onCredit_exact (sample_payload 3 100) 3 700000 (recordSent 250 (newLedger 3))) as H.
  assert (0 ≤ outstanding (recordSent 250 (newLedger 3))) as Ho by (vm_compute; discriminate).
  specialize (H Ho). destruct (onCredit _ _ _ _) as [ok l'] eqn:E. destruct H as (H1 & _ & H2).
  assert (ok = true) as -> by (apply H1; vm_compute; repeat split; discriminate).
  destruct (H2 eq_refl) as [H3 _]. simpl. rewrite H3. reflexivity.
Defined.

(** ** The fallback timers *)

Definition heap_of (g : creditGateManager) := lg_heap g.

(** References and timers come from one counter. *)
Record ginv (g : creditGateManager) : Prop := {
  gi_cur : ∀ sid t, timers g !! sid = Some t →
    ∃ l, timer_info g !! t = Some (sid, l) ∧ (t < next_ref g)%nat;
  gi_info : ∀ t x, timer_info g !! t = Some x → (t < next_ref g)%nat;
  gi_led : ∀ sid r, ledgers g !! sid = Some r → is_Some (lg_heap g !! r) ∧ (r < next_ref g)%nat
}.

Inductive gop :=
| GLedger (gen sid : Z) | GReset (gen sid : Z) | GCancel (sid : Z) | GRemove (sid : Z) | GCallback (t : nat).

Definition gstep (op : gop) (g : creditGateManager) : creditGateManager :=
  match op with
  | GLedger gen sid => snd (ledger gen sid g)
  | GReset gen sid => resetStream gen sid g
  | GCancel sid => cancelTimer sid g
  | GRemove sid => removeStream sid g
  | GCallback t => timerCallback t g
  end.

Definition grun (ops : list gop) : creditGateManager := foldl (λ g op, gstep op g) newCreditGateManager ops.

Lemma stopTimer_fields sid g :
  lg_heap (stopTimer sid g) = lg_heap g ∧ ledgers (stopTimer sid g) = ledgers g
  ∧ timers (stopTimer sid g) = timers g ∧ timer_info (stopTimer sid g) = timer_info g
  ∧ next_ref (stopTimer sid g) = next_ref g.
Proof. unfold stopTimer. by destruct (timers g !! sid). Qed.

Lemma ginv_arm sid r g : ginv g → ginv (armTimerLocked sid r g).
Proof.
  intros [Hc Hi Hl]. unfold armTimerLocked. destruct (stopTimer_fields sid g) as (F1 & F2 & F3 & F4 & F5).
  constructor; simpl; rewrite ?F1, ?F2, ?F3, ?F4, ?F5.
  - intros s t. destruct (decide (s = sid)) as [->|Hs].
    + rewrite lookup_insert_eq. intros [= <-]. exists r. rewrite lookup_insert_eq. split; [done|lia].
    + rewrite lookup_insert_ne by done. intros (l & Hl' & Hlt)%Hc. exists l.
      rewrite lookup_insert_ne by lia. split; [done|lia].
  - intros t x. destruct (decide (t = next_ref g)) as [->|Ht]; [lia|].
    rewrite lookup_insert_ne by done. intros ?%Hi. lia.
  - intros s r' Hr. destruct (Hl s r' Hr). split; [done|lia].
Qed.

Lemma ginv_newLedger gen sid g : ginv g → ginv (snd (newLedgerRef gen sid g)).
Proof.
  intros [Hc Hi Hl]. constructor; simpl.
  - intros s t (l & ? & ?)%Hc. exists l. split; [done|lia].
  - intros t x ?%Hi. lia.
  - intros s r. destruct (decide (s = sid)) as [->|Hs].
    + rewrite lookup_insert_eq. intros [= <-]. rewrite lookup_insert_eq. split; [done|lia].
    + rewrite lookup_insert_ne by done. intros Hr. destruct (Hl s r Hr). rewrite lookup_insert_ne by lia.
      split; [done|lia].
Qed.

Lemma ginv_alter f r g : ginv g → ginv (g <| lg_heap := alter f r (lg_heap g) |>).
Proof.
  intros [Hc Hi Hl]. constructor; simpl; [done|done|]. intros s r' Hr. destruct (Hl s r' Hr) as [[x Hx] ?].
  split; [|done]. destruct (decide (r' = r)) as [->|];
    [rewrite lookup_alter_eq, Hx|rewrite lookup_alter_ne, Hx by done]; done.
Qed.

Lemma ginv_cancel sid g : ginv g → ginv (cancelTimerLocked sid g).
Proof.
  intros Hg. unfold cancelTimerLocked. destruct (timers g !! sid); [|done].
  destruct Hg as [Hc Hi Hl]. destruct (stopTimer_fields sid g) as (F1 & F2 & F3 & F4 & F5).
  constructor; simpl; rewrite ?F1, ?F2, ?F3, ?F4, ?F5; [|done|done].
  intros s t [_ Ht]%lookup_delete_Some. eauto.
Qed.

Lemma ginv_step op g : ginv g → ginv (gstep op g).
Proof.
  intros Hg. destruct op; cbn [gstep].
  - unfold ledger. destruct (ledgers g !! sid); [done|].
    pose proof (ginv_newLedger gen sid g Hg) as H1. destruct (newLedgerRef gen sid g) as [r g1].
    by apply ginv_arm.
  - unfold resetStream. destruct (ledgers g !! sid).
    + by apply ginv_alter, ginv_arm.
    + pose proof (ginv_newLedger gen sid g Hg) as H1. destruct (newLedgerRef gen sid g) as [r g1].
      by apply ginv_alter, ginv_arm.
  - by apply ginv_cancel.
  - unfold removeStream. apply (ginv_cancel sid) in Hg. destruct Hg as [Hc Hi Hl].
    constructor; simpl; [done|done|]. intros s r [_ Hr]%lookup_delete_Some. eauto.
  - unfold timerCallback. destruct (timer_info g !! t) as [[sid l]|]; [|done].
    destruct (ledgers g !! sid); [|done]. destruct (_ && _); [by apply ginv_alter|done].
Qed.

Lemma ginv_run ops : ginv (grun ops).
Proof.
  unfold grun. assert (ginv newCreditGateManager) as H0.
  { constructor; simpl; intros ? ?; by rewrite lookup_empty. }
  revert H0. generalize newCreditGateManager. induction ops as [|op ops IH]; intros g Hg; [done|].
  simpl. by apply IH, ginv_step.
Qed.

(** A stale fallback timer is harmless.  In every reachable state, after
    the stream was reset (rebind), its timer cancelled (a live credit), or the
    stream removed, running the callback of any timer armed before, even one
    that had already fired and lost the race, changes nothing. *)
Theorem stale_credit_timer_harmless ops op t sid l :
  let g := grun ops in
  timer_info g !! t = Some (sid, l) →
  (∃ gen, op = GReset gen sid) ∨ op = GCancel sid ∨ op = GRemove sid →
  timerCallback t (gstep op g) = gstep op g.
Proof.
  intros g Ht Hop. pose proof (ginv_run ops) as Hg. fold g in Hg.
  pose proof (gi_info g Hg t _ Ht) as Hlt.
  enough (timer_info (gstep op g) !! t = Some (sid, l) ∧ timers (gstep op g) !! sid ≠ Some t) as [H1 H2].
  { unfold timerCallback. rewrite H1. destruct (ledgers (gstep op g) !! sid); [|done].
    by rewrite bool_decide_false. }
  destruct Hop as [[gen ->]|[->| ->]]; cbn [gstep].
  - unfold resetStream. set (x := match ledgers g !! sid with Some _ => _ | None => _ end).
    assert (timer_info (snd x) = timer_info g ∧ (next_ref g ≤ next_ref (snd x))%nat) as [E1 E2].
    { unfold x. destruct (ledgers g !! sid); [done|]. simpl. split; [done|lia]. }
    destruct x as [r g1]. simpl in E1, E2. unfold armTimerLocked.
    destruct (stopTimer_fields sid g1) as (_ & _ & _ & F4 & F5). simpl. rewrite F4, F5, E1.
    rewrite lookup_insert_ne by lia. split; [done|]. rewrite lookup_insert_eq. intros [= ?]. lia.
  - unfold cancelTimer, cancelTimerLocked. destruct (timers g !! sid) eqn:E; simpl.
    + destruct (stopTimer_fields sid g) as (_ & _ & F3 & F4 & _). rewrite F3, F4. split; [done|].
      by rewrite lookup_delete_eq.
    + split; [done|]. by rewrite E.
  - unfold removeStream, cancelTimerLocked. destruct (timers g !! sid) eqn:E; simpl.
    + destruct (stopTimer_fields sid g) as (_ & _ & F3 & F4 & _). rewrite F3, F4. split; [done|].
      by rewrite lookup_delete_eq.
    + split; [done|]. by rewrite E.
Qed.

Lemma stale_credit_timer_harmless_witness :
  timerCallback 1 (gstep (GReset 8 5) (grun [GLedger 7 5])) = gstep (GReset 8 5) (grun [GLedger 7 5]).
Proof.
  apply (stale_credit_timer_harmless [GLedger 7 5] (GReset 8 5) 1 5 0); [reflexivity|left; by eexists].
Defined.

(** ** Sender and receiver together

    One stream in steady state: the sender issues chunks when the gate lets
    them through, the receiver writes bytes it received to its socket and emits
    credits, the control plane delivers any credit emitted so far, at any time,
    in any order, any number of times or never, and the fallback timer may
    degrade the window at any time. *)

Module Flow.

Record flow := mkFlow {
  f_ledger : creditLedger;
  f_rec : streamCredit;
  sent : Z;                        (* ghost: bytes issued since the attach *)
  emitted : list CreditPayload     (* every credit put on the control plane *)
}.

#[export] Instance flow_expandable : Expandable flow := {| expand := λ f,
  mkFlow (f_ledger f) (f_rec f) (sent f) (emitted f) |}.

Section flow.
Context (gen cap maxBytes : Z).

Inductive fstep : flow → flow → Prop :=
| f_send f n :
    0 < n ≤ MaxPayload → canSend (f_ledger f) n cap = true → sent f + n < 2 ^ 63 →
    fstep f (f <| f_ledger := recordSent n (f_ledger f) |> <| sent := sent f + n |>)
| f_consume f n now :
    0 < n → consumed (f_rec f) + n ≤ sent f →
    fstep f (f <| f_rec := snd (recordConsumed now n (f_rec f)) |>)
| f_emit f now final p rc :
    emit now maxBytes final (f_rec f) = (Some p, rc) →
    fstep f (f <| f_rec := rc |> <| emitted := emitted f ++ [p] |>)
| f_anchor f :
    fstep f (f <| emitted := emitted f ++ [emitAnchor maxBytes (f_rec f)] |>)
| f_deliver f p :
    p ∈ emitted f →
    fstep f (f <| f_ledger := snd (onCredit p gen cap (f_ledger f)) |>)
| f_timeout f :
    fstep f (f <| f_ledger := latchSafelyCapped (f_ledger f) |>).

(** Both ends just attached to carrier generation [gen]. *)
Definition flow_init (now : Z) : flow :=
  mkFlow (newLedger gen) (recordPeerGen gen (newRecord now)) 0 [].

Record finv (f : flow) : Prop := {
  fi_gen : l_gen (f_ledger f) = gen ∧ peerGen (f_rec f) = gen;
  fi_cons : 0 ≤ lastSeen (f_ledger f) ≤ consumed (f_rec f) ∧ consumed (f_rec f) ≤ sent f < 2 ^ 63;
  fi_out : outstanding (f_ledger f) = sent f - lastSeen (f_ledger f);
  fi_cap : outstanding (f_ledger f) ≤ Z.max 0 cap;
  fi_emit : Forall (λ p, cpGen p = gen ∧ 0 ≤ cpBytesConsumed p ≤ consumed (f_rec f)) (emitted f);
  fi_pend : 0 ≤ pending (f_rec f) ≤ consumed (f_rec f)
}.

Lemma sendLimit_cap l : sendLimit l cap ≤ cap.
Proof. unfold sendLimit. repeat case_match; bools; lia. Qed.

Lemma onCredit_finv f p :
  finv f → p ∈ emitted f → finv (f <| f_ledger := snd (onCredit p gen cap (f_ledger f)) |>).
Proof.
  intros Hf Hin. pose proof Hf as [[Hg1 Hg2] [Hc1 Hc2] Ho Hcap He Hp].
  destruct (proj1 (Forall_forall _ _) He p Hin) as [Hpg Hpc].
  pose proof (onCredit_spec p gen cap (f_ledger f) ltac:(lia)) as Hx.
  destruct (onCredit p gen cap (f_ledger f)) as [[] l'] eqn:E; destruct Hx as (_ & Hno & Hyes).
  - destruct (Hyes eq_refl) as (H1 & H2 & _ & H4 & _).
    assert (lastSeen (f_ledger f) ≤ cpBytesConsumed p).
    { revert E. unfold onCredit. repeat case_match; intros; simplify_eq; bools; done. }
    constructor; simpl; rewrite ?H1, ?H2, ?H4; try done; lia.
  - rewrite (Hno eq_refl). by destruct f.
Qed.

Lemma finv_step f f' : finv f → fstep f f' → finv f'.
Proof.
  intros Hf Hst. pose proof Hf as [[Hg1 Hg2] [Hc1 Hc2] Ho Hcap He Hp].
  destruct Hst as [f n Hn Hcan Hov|f n now Hn Hle|f now final p rc E|f|f p Hin|f].
  - unfold canSend, canSendLocked in Hcan. bools. pose proof (sendLimit_cap (f_ledger f)).
    unfold MaxPayload in Hn. rewrite wrapu_id in Hcan by (unfold in_u; lia).
    constructor; simpl; rewrite ?wrapu_id by (unfold in_u; lia); try done; lia.
  - constructor; simpl; rewrite ?wrapu_id by (unfold in_u; lia); try done; try lia.
    eapply Forall_impl; [exact He|]. simpl. intros p [? ?]. split; [done|lia].
  - unfold emit in E. destruct (_ && _); [done|]. injection E as <- <-.
    constructor; simpl; try done; try lia. apply Forall_app. split; [done|]. constructor; [|done].
    simpl. split; [done|lia].
  - constructor; simpl; try done. apply Forall_app. split; [done|]. constructor; [|done].
    simpl. split; [done|lia].
  - by apply onCredit_finv.
  - by constructor.
Qed.

Lemma finv_reach now f : rtc fstep (flow_init now) f → finv f.
Proof.
  intros Hr. cut (finv (flow_init now)); [|constructor; simpl; try done; lia].
  induction Hr; [done|]. eauto using finv_step.
Qed.

(** Flow control is safe whatever the control plane does.  However credits
    are dropped, repeated, delayed and reordered, and whenever the fallback
    fires: the sender's outstanding count is exactly the bytes issued minus the
    largest total the receiver has reported and the sender has seen; it is
    never less than the bytes really unconsumed and never more than the
    carrier's per-stream cap, so the receiver's mailbox cannot be overrun. *)
Theorem credit_flow_safe now f :
  rtc fstep (flow_init now) f →
  let l := f_ledger f in
  outstanding l = sent f - lastSeen l
  ∧ sent f - consumed (f_rec f) ≤ outstanding l ≤ Z.max 0 cap.
Proof.
  intros Hr l. destruct (finv_reach now f Hr) as [_ [Hc1 Hc2] Ho Hcap _ _]. fold l in Hc1, Ho, Hcap.
  split; [done|lia].
Qed.

(** A lost credit is only a delay.  In any reachable state, if the receiver
    emits one more credit and just that one is delivered, the sender's view
    becomes exact, outstanding equals the bytes not yet consumed, no matter
    which earlier credits were lost. *)
Theorem credit_loss_is_delay now now' f p rc :
  rtc fstep (flow_init now) f →
  emit now' maxBytes true (f_rec f) = (Some p, rc) →
  let '(ok, l') := onCredit p gen cap (f_ledger f) in
  ok = true ∧ outstanding l' = sent f - consumed (f_rec f) ∧ lastSeen l' = consumed (f_rec f).
Proof.
  intros Hr E. destruct (finv_reach now f Hr) as [[Hg1 Hg2] [Hc1 Hc2] Ho Hcap _ _].
  unfold emit in E. rewrite andb_false_r in E. injection E as <- <-.
  pose proof (onCredit_spec (buildPayload maxBytes (f_rec f) true) gen cap (f_ledger f) ltac:(lia)) as Hx.
  destruct (onCredit _ gen cap (f_ledger f)) as [ok l']. destruct Hx as (H1 & _ & H2).
  assert (ok = true) as -> by (apply H1; simpl; rewrite Hg1, Hg2; split_and!; done || lia).
  destruct (H2 eq_refl) as (H3 & H4 & _). simpl in H3, H4. split_and!; [done|lia|done].
Qed.
End flow.

(** One chunk sent, consumed and reported. *)
Definition flow1 : flow := (flow_init 3 0) <| f_ledger := recordSent 100 (newLedger 3) |> <| sent := 100 |>.

Lemma flow1_reach : rtc (fstep 3 1000 1000) (flow_init 3 0) flow1.
Proof.
  eapply rtc_l; [|apply rtc_refl]. apply (f_send 3 1000 1000 (flow_init 3 0) 100);
    [unfold MaxPayload; lia|reflexivity|simpl; lia].
Qed.

Lemma credit_flow_safe_witness : outstanding (f_ledger flow1) ≤ Z.max 0 1000.
Proof. apply (credit_flow_safe 3 1000 1000 0 flow1 flow1_reach). Defined.

Lemma credit_loss_is_delay_witness :
  fst (onCredit (buildPayload 1000 (f_rec flow1) true) 3 1000 (f_ledger flow1)) = true.
Proof.
  pose proof (credit_loss_is_delay 3 1000 1000 0 0 flow1 (buildPayload 1000 (f_rec flow1) true) _
    flow1_reach eq_refl) as H.
  destruct (onCredit _ _ _ _) as [ok l']. destruct H as [-> _]. reflexivity.
Defined.

End Flow.
