(* ===== verification/Registry.v ===== *)
(** * The per-direction carrier registry (pkg/node/carrier_registry.go)

    A registry keeps, for one direction, the installed carrier of each known
    carrier ID, with a static priority order.  A [*carrierHandle] is a pointer:
    [ref] is its identity, which is all that [ClearIf] compares.  What a handle
    points to (its generation, and whether its carrier's read loop is alive)
    changes under the carrier's own lock, so it is an argument of the lookups
    that read it.  A map entry holding a nil pointer and an absent entry read
    the same, and both are an absent key here. *)
From S2P Require Import Session.

Definition CarrierID := gostring.

Definition DefaultUpCarrierID : CarrierID := lit "up-cdn-ws".
Definition DefaultDownCarrierID : CarrierID := lit "down-reality-a".
Definition SecondDownCarrierID : CarrierID := lit "down-reality-b".

Definition FamilyCDNWS : gostring := lit "cdn-ws".
Definition FamilyReality : gostring := lit "reality".

Definition FamilyOfID (id : CarrierID) : gostring :=
  if streqb id DefaultUpCarrierID then FamilyCDNWS else FamilyReality.

Record CarrierDescriptor := mkDesc { d_ID : CarrierID; d_Dir : Direction; d_Family : gostring }.

Abbreviation href := nat.

Record carrierRegistry := mkRegistry {
  r_dir : Direction;
  allowed : gset CarrierID;
  order : list CarrierID;
  handles : gmap CarrierID href
}.

#[export] Instance expand_carrierRegistry : Expandable carrierRegistry :=
  {| expand := λ r, mkRegistry (r_dir r) (allowed r) (order r) (handles r) |}.

Definition newCarrierRegistry (desc : CarrierDescriptor) : carrierRegistry :=
  mkRegistry (d_Dir desc) {[d_ID desc]} [d_ID desc] ∅.

Definition newMultiCarrierRegistry (dir : Direction) (ids : list CarrierID) : carrierRegistry :=
  mkRegistry dir (foldl (λ a id, {[id]} ∪ a) ∅ ids) ids ∅.

(** node.go builds the down registry from the operator's list: an empty list
    means the default carrier, one element is the single-carrier shape. *)
Definition newDownRegistry (ids : list CarrierID) : carrierRegistry :=
  match ids with
  | [] => newCarrierRegistry (mkDesc DefaultDownCarrierID DirDown FamilyReality)
  | [id] => newCarrierRegistry (mkDesc id DirDown FamilyReality)
  | _ => newMultiCarrierRegistry DirDown ids
  end.

(** [r.order[0]] panics on an empty order; both constructors of the program
    give a non-empty one, and [None] stands for the panic. *)
Definition ID (r : carrierRegistry) : option CarrierID := head (order r).

Definition Descriptor (r : carrierRegistry) : option CarrierDescriptor :=
  id ← ID r; Some (mkDesc id (r_dir r) (FamilyOfID id)).

Definition KnownIDs (r : carrierRegistry) : list CarrierID := order r.
Definition IsKnown (id : CarrierID) (r : carrierRegistry) : bool := bool_decide (id ∈ allowed r).
Definition SingleEntry (r : carrierRegistry) : bool := Nat.eqb (length (order r)) 1.
Definition Handle (id : CarrierID) (r : carrierRegistry) : option href := handles r !! id.

Section lookups.
(** Whether a carrier is ready, and its generation, when the lookup reads it. *)
Variable carrierReady : href → bool.
Variable genOf : href → Z.

Definition readyAt (r : carrierRegistry) (id : CarrierID) : option href :=
  match handles r !! id with
  | Some h => if carrierReady h then Some h else None
  | None => None
  end.

Fixpoint firstReady (r : carrierRegistry) (ids : list CarrierID) : option href :=
  match ids with
  | [] => None
  | id :: ids => match readyAt r id with Some h => Some h | None => firstReady r ids end
  end.

Definition Primary (r : carrierRegistry) : option href := firstReady r (order r).

Fixpoint anyReady (r : carrierRegistry) (ids : list CarrierID) : bool :=
  match ids with
  | [] => false
  | id :: ids => match readyAt r id with Some _ => true | None => anyReady r ids end
  end.

Definition Ready (r : carrierRegistry) : bool := anyReady r (order r).

Fixpoint collectReadyIDs (r : carrierRegistry) (ids : list CarrierID) : list CarrierID :=
  match ids with
  | [] => []
  | id :: ids =>
      match readyAt r id with Some _ => id :: collectReadyIDs r ids | None => collectReadyIDs r ids end
  end.

Definition ReadyIDs (r : carrierRegistry) : list CarrierID := collectReadyIDs r (order r).

Fixpoint collectReadyExcept (exclude : CarrierID) (r : carrierRegistry) (ids : list CarrierID) : list href :=
  match ids with
  | [] => []
  | id :: ids =>
      if bool_decide (id = exclude) then collectReadyExcept exclude r ids
      else match readyAt r id with
           | Some h => h :: collectReadyExcept exclude r ids
           | None => collectReadyExcept exclude r ids
           end
  end.

Definition ReadyExcept (exclude : CarrierID) (r : carrierRegistry) : list href :=
  collectReadyExcept exclude r (order r).

Definition Generation (id : CarrierID) (r : carrierRegistry) : Z :=
  match handles r !! id with Some h => genOf h | None => 0 end.
End lookups.

Inductive add_error := NilHandle | ErrUnknownCarrierID (registry : option CarrierID) (got : CarrierID).

(** [h = None] is a nil handle. *)
Definition AddHandle (id : CarrierID) (h : option href) (r : carrierRegistry)
  : res add_error (option href) * carrierRegistry :=
  match h with
  | None => (Err NilHandle, r)
  | Some h =>
      if negb (IsKnown id r) then (Err (ErrUnknownCarrierID (ID r) id), r)
      else (Ok (handles r !! id), r <| handles := <[id := h]> (handles r) |>)
  end.

Definition ClearIf (id : CarrierID) (h : option href) (r : carrierRegistry) : carrierRegistry :=
  if bool_decide (handles r !! id = h) then r <| handles := delete id (handles r) |> else r.

Definition Clear (id : CarrierID) (r : carrierRegistry) : carrierRegistry :=
  r <| handles := delete id (handles r) |>.

Definition Handles (r : carrierRegistry) : list (option href) := map (λ id, handles r !! id) (order r).

Definition CountInstalled (r : carrierRegistry) : nat :=
  foldl (λ n id, match handles r !! id with Some _ => S n | None => n end) O (order r).

(** The snapshot loop of CloseAll; the second component is [toClose], whose
    carriers are closed after the lock is released. *)
Fixpoint closeLoop (ids : list CarrierID) (r : carrierRegistry) (toClose : list href)
  : carrierRegistry * list href :=
  match ids with
  | [] => (r, toClose)
  | id :: ids =>
      match handles r !! id with
      | Some h => closeLoop ids (r <| handles := delete id (handles r) |>) (toClose ++ [h])
      | None => closeLoop ids r toClose
      end
  end.

Definition CloseAllCarriers (r : carrierRegistry) : carrierRegistry * list href := closeLoop (order r) r [].

(** ** Operation sequences *)
Inductive rop :=
| RAdd (id : CarrierID) (h : option href)
| RClearIf (id : CarrierID) (h : option href)
| RClear (id : CarrierID)
| RCloseAll.

Definition rstep (op : rop) (r : carrierRegistry) : carrierRegistry :=
  match op with
  | RAdd id h => snd (AddHandle id h r)
  | RClearIf id h => ClearIf id h r
  | RClear id => Clear id r
  | RCloseAll => fst (CloseAllCarriers r)
  end.

Definition rrun (ops : list rop) (r : carrierRegistry) : carrierRegistry := foldl (λ r op, rstep op r) r ops.

(** Only known IDs are ever installed, and the known IDs are the priority
    order's. *)
Definition rinv (r : carrierRegistry) : Prop :=
  allowed r = list_to_set (order r) ∧ dom (handles r) ⊆ allowed r.

Lemma newCarrierRegistry_rinv desc : rinv (newCarrierRegistry desc).
Proof. split; simpl; set_solver. Qed.

Lemma allowed_fold (ids : list CarrierID) (s : gset CarrierID) :
  foldl (λ a id, {[id]} ∪ a) s ids = list_to_set ids ∪ s.
Proof. revert s. induction ids as [|id ids IH]; intros s; simpl; [set_solver|]. rewrite IH. set_solver. Qed.

Lemma newMultiCarrierRegistry_rinv dir ids : rinv (newMultiCarrierRegistry dir ids).
Proof. split; simpl; [|set_solver]. rewrite allowed_fold. set_solver. Qed.

Lemma newDownRegistry_rinv ids : rinv (newDownRegistry ids).
Proof.
  destruct ids as [|? [|??]]; [apply newCarrierRegistry_rinv..|apply newMultiCarrierRegistry_rinv].
Qed.

(** The handles a registry holds. *)
Definition installed (r : carrierRegistry) : list href := (map_to_list (handles r)).*2.

Lemma closeLoop_spec ids r acc :
  dom (handles r) ⊆ list_to_set ids →
  ∃ l, closeLoop ids r acc = (r <| handles := ∅ |>, acc ++ l) ∧ l ≡ₚ installed r.
Proof.
  revert r acc. induction ids as [|id ids IH]; intros r acc Hd; cbn [closeLoop]; simpl in Hd.
  - assert (handles r = ∅) as E by (apply dom_empty_iff_L; set_solver).
    exists []. unfold installed. rewrite E, app_nil_r, map_to_list_empty. split; [|done].
    destruct r; simpl in *. by rewrite E.
  - destruct (handles r !! id) as [h|] eqn:E.
    + destruct (IH (r <| handles := delete id (handles r) |>) (acc ++ [h])) as (l & -> & Hl).
      { simpl. rewrite dom_delete_L. set_solver. }
      exists (h :: l). rewrite <- app_assoc. split; [done|].
      unfold installed in *. rewrite <- (map_to_list_delete (handles r) id h E). simpl. by constructor.
    + apply IH. apply not_elem_of_dom in E. set_solver.
Qed.

Lemma rinv_installed r : rinv r → dom (handles r) ⊆ list_to_set (order r).
Proof. intros [Ha Hd]. by rewrite <- Ha. Qed.

Lemma CloseAll_spec r :
  rinv r → ∃ l, CloseAllCarriers r = (r <| handles := ∅ |>, l) ∧ l ≡ₚ installed r.
Proof. intros Hr%rinv_installed. apply (closeLoop_spec (order r) r [] Hr). Qed.

Lemma rstep_rinv op r : rinv r → rinv (rstep op r).
Proof.
  intros Hr. pose proof Hr as [Ha Hd]. destruct op as [id [h|]|id h|id|]; simpl.
  - unfold AddHandle, IsKnown. case_bool_decide; [|done]. split; simpl; [done|]. rewrite dom_insert_L. set_solver.
  - done.
  - unfold ClearIf. case_bool_decide; [|done]. split; simpl; [done|]. rewrite dom_delete_L. set_solver.
  - split; simpl; [done|]. rewrite dom_delete_L. set_solver.
  - destruct (CloseAll_spec r Hr) as (l & -> & _). split; simpl; [done|]. set_solver.
Qed.

Lemma rstep_static op r :
  rinv r → r_dir (rstep op r) = r_dir r ∧ allowed (rstep op r) = allowed r ∧ order (rstep op r) = order r.
Proof.
  intros Hr. destruct op as [id [h|]|id h|id|]; simpl; try done.
  - unfold AddHandle. by case_match.
  - unfold ClearIf. by case_match.
  - by destruct (CloseAll_spec r Hr) as (l & -> & _).
Qed.

Lemma rrun_rinv ops r : rinv r → rinv (rrun ops r) ∧ order (rrun ops r) = order r.
Proof.
  revert r. induction ops as [|op ops IH]; intros r Hr; simpl; [done|].
  destruct (IH _ (rstep_rinv op r Hr)) as [? ->]. split; [done|]. apply rstep_static, Hr.
Qed.

(** ** Lookups *)
Section lookup_facts.
Variable carrierReady : href → bool.

Lemma readyAt_Some r id h :
  readyAt carrierReady r id = Some h ↔ handles r !! id = Some h ∧ carrierReady h = true.
Proof.
  unfold readyAt. destruct (handles r !! id) as [h'|]; [|by split; [|intros []]].
  destruct (carrierReady h') eqn:E; split; intros H.
  - by injection H as ->.
  - destruct H as [[= ->] _]. done.
  - done.
  - destruct H as [[= ->] ?]. congruence.
Qed.

Lemma firstReady_spec r ids :
  firstReady carrierReady r ids = head (omap (readyAt carrierReady r) ids).
Proof. induction ids as [|id ids IH]; simpl; [done|]. by destruct (readyAt _ r id). Qed.

Lemma anyReady_spec r ids :
  anyReady carrierReady r ids = negb (bool_decide (omap (readyAt carrierReady r) ids = [])).
Proof. induction ids as [|id ids IH]; simpl; [done|]. by destruct (readyAt _ r id). Qed.

Lemma collectReadyIDs_spec r ids :
  collectReadyIDs carrierReady r ids = filter (λ id, is_Some (readyAt carrierReady r id)) ids.
Proof.
  induction ids as [|id ids IH]; [done|]. cbn [collectReadyIDs].
  destruct (readyAt _ r id) eqn:E; rewrite IH.
  - by rewrite filter_cons_True by (rewrite E; eauto).
  - rewrite filter_cons_False; [done|]. rewrite E. by intros [].
Qed.

Lemma collectReadyExcept_spec x r ids :
  collectReadyExcept carrierReady x r ids = omap (readyAt carrierReady r) (filter (λ id, id ≠ x) ids).
Proof.
  induction ids as [|id ids IH]; [done|]. cbn [collectReadyExcept].
  case_bool_decide; rewrite IH.
  - by rewrite filter_cons_False by naive_solver.
  - rewrite filter_cons_True by done. simpl. by destruct (readyAt _ r id).
Qed.
End lookup_facts.

Lemma live_in_order ids r ops id h :
  handles (rrun ops (newDownRegistry ids)) !! id = Some h → r = rrun ops (newDownRegistry ids) → id ∈ order r.
Proof.
  intros Hh ->. destruct (rrun_rinv ops _ (newDownRegistry_rinv ids)) as [[Ha Hd] _].
  apply elem_of_dom_2, Hd in Hh. rewrite Ha in Hh. by apply elem_of_list_to_set in Hh.
Qed.

Lemma head_omap_Some {A B} (f : A → option B) l b :
  head (omap f l) = Some b ↔
  ∃ pre a post, l = pre ++ a :: post ∧ f a = Some b ∧ ∀ a' b', a' ∈ pre → ¬ f a' = Some b'.
Proof.
  induction l as [|x l IH]; simpl.
  - split; [done|]. by intros ([|??] & ? & ? & ? & _).
  - destruct (f x) as [y|] eqn:E; simpl.
    + split.
      * intros [= ->]. exists [], x, l. split_and!; [done|done|]. intros a' b' []%not_elem_of_nil.
      * intros ([|z pre] & a & post & [= <- ->] & Ha & Hpre); [congruence|].
        destruct (Hpre x y); [left|done].
    + rewrite IH. split; intros (pre & a & post & Hl & Ha & Hpre).
      * exists (x :: pre), a, post. subst l. split_and!; [done|done|].
        intros a' b' [->|?]%elem_of_cons; [congruence|by apply Hpre].
      * destruct pre as [|z pre]; simpl in Hl; injection Hl as <- ->; [congruence|].
        exists pre, a, post. split_and!; [done|done|]. intros a' b' ?. apply Hpre. by right.
Qed.

Lemma omap_nil_iff {A B} (f : A → option B) l : omap f l = [] ↔ ∀ a, a ∈ l → f a = None.
Proof.
  induction l as [|x l IH]; simpl; [set_solver|]. destruct (f x) as [y|] eqn:E.
  - split; [done|]. intros H. rewrite (H x) in E; [done|left].
  - rewrite IH. set_solver.
Qed.

Lemma head_filter_is_Some {A B} (f g : A → option B) l :
  (∀ a b, f a = Some b → g a = Some b) →
  head (omap f l) = (a ← head (filter (λ a, is_Some (f a)) l); g a).
Proof.
  intros H. induction l as [|x l IH]; [done|]. destruct (f x) as [y|] eqn:E.
  - rewrite filter_cons_True by (rewrite E; eauto). simpl. rewrite E. simpl. by rewrite (H x y).
  - rewrite filter_cons_False by (rewrite E; by intros []). simpl. by rewrite E.
Qed.

(** Selection is by static priority.  Whatever was installed and removed,
    Primary is the handle of the first known ID, in configured order, whose
    slot holds a handle with a live carrier, and it is nil exactly when no
    slot does; Ready says whether it is non-nil; ReadyIDs lists every such ID
    in order, its first one being Primary's; and ReadyExcept lists in order
    exactly the live handles of the other IDs, the failover set. *)
Theorem registry_static_priority carrierReady ids ops r :
  r = rrun ops (newDownRegistry ids) →
  let live id h := handles r !! id = Some h ∧ carrierReady h = true in
  (∀ h, Primary carrierReady r = Some h ↔
     ∃ pre id post, order r = pre ++ id :: post ∧ live id h ∧ ∀ id' h', id' ∈ pre → ¬ live id' h')
  ∧ (Primary carrierReady r = None ↔ ∀ id h, ¬ live id h)
  ∧ Ready carrierReady r = bool_decide (is_Some (Primary carrierReady r))
  ∧ Primary carrierReady r = (id ← head (ReadyIDs carrierReady r); handles r !! id)
  ∧ (∀ id, id ∈ ReadyIDs carrierReady r ↔ ∃ h, live id h)
  ∧ (∀ x h, h ∈ ReadyExcept carrierReady x r ↔ ∃ id, id ≠ x ∧ live id h)
  ∧ ReadyIDs carrierReady r `sublist_of` order r.
Proof.
  intros -> live. set (r := rrun ops _).
  assert (∀ id h, live id h → id ∈ order r) as Hin.
  { intros id h [Hh _]. by eapply live_in_order. }
  unfold Primary, Ready, ReadyIDs, ReadyExcept.
  rewrite firstReady_spec, anyReady_spec, collectReadyIDs_spec.
  split_and!.
  - intros h. rewrite head_omap_Some. unfold live. by setoid_rewrite readyAt_Some.
  - rewrite head_None, omap_nil_iff. split; intros H.
    + intros id h Hl. specialize (H id (Hin _ _ Hl)). rewrite (proj2 (readyAt_Some carrierReady r id h) Hl) in H. done.
    + intros id _. destruct (readyAt _ r id) eqn:E; [|done]. by apply readyAt_Some, H in E.
  - by destruct (omap _ _).
  - apply head_filter_is_Some. intros id h [??]%readyAt_Some. done.
  - intros id. rewrite list_elem_of_filter. split.
    + intros [[h E%readyAt_Some] _]. by exists h.
    + intros [h Hl]. split; [|by eapply Hin]. exists h. by apply readyAt_Some.
  - intros x h. rewrite collectReadyExcept_spec, list_elem_of_omap. setoid_rewrite list_elem_of_filter.
    setoid_rewrite readyAt_Some. split.
    + intros (id & [? _] & Hl). by exists id.
    + intros (id & ? & Hl). exists id. split_and!; [done|by eapply Hin|apply Hl..].
  - apply sublist_filter.
Qed.

Lemma registry_static_priority_witness :
  let r := rrun [RAdd DefaultDownCarrierID (Some 1); RAdd SecondDownCarrierID (Some 2);
                 RAdd (lit "rogue") (Some 9)] (newDownRegistry [DefaultDownCarrierID; SecondDownCarrierID]) in
  Primary (λ h, Nat.eqb h 2) r = Some 2 ∧ 2 ∈ ReadyExcept (λ h, Nat.eqb h 2) DefaultDownCarrierID r.
Proof.
  intros r. destruct (registry_static_priority (λ h, Nat.eqb h 2)
    [DefaultDownCarrierID; SecondDownCarrierID] _ r eq_refl) as (_ & _ & _ & _ & _ & Hx & _).
  split; [by vm_compute|]. apply Hx. exists SecondDownCarrierID. split; [by vm_compute|split; by vm_compute].
Defined.

(** What one operation does to the slot of [id]. *)
Lemma rstep_slot op r id :
  rinv r →
  handles (rstep op r) !! id =
  match op with
  | RAdd id' (Some h) => if bool_decide (id' = id ∧ id' ∈ order r) then Some h else handles r !! id
  | RAdd _ None => handles r !! id
  | RClearIf id' h => if bool_decide (id' = id ∧ handles r !! id = h) then None else handles r !! id
  | RClear id' => if bool_decide (id' = id) then None else handles r !! id
  | RCloseAll => None
  end.
Proof.
  intros Hr. pose proof Hr as [Ha Hd].
  assert (∀ i, i ∈ allowed r ↔ i ∈ order r) as Hal by (intros i; rewrite Ha; by rewrite elem_of_list_to_set).
  destruct op as [id' [h|]|id' h|id'|]; cbn [rstep].
  - unfold AddHandle, IsKnown. rewrite (bool_decide_ext _ _ (Hal id')).
    destruct (decide (id' = id)) as [->|Hne].
    + destruct (decide (id ∈ order r)).
      * rewrite !bool_decide_true by done. simpl. by rewrite lookup_insert_eq.
      * by rewrite !bool_decide_false by tauto.
    + rewrite (bool_decide_false (id' = id ∧ _)) by tauto. case_bool_decide; simpl; [|done].
      by rewrite lookup_insert_ne.
  - done.
  - unfold ClearIf. destruct (decide (id' = id)) as [->|Hne].
    + destruct (decide (handles r !! id = h)).
      * rewrite !bool_decide_true by done. simpl. by rewrite lookup_delete_eq.
      * by rewrite !bool_decide_false by tauto.
    + rewrite (bool_decide_false (id' = id ∧ _)) by tauto. case_bool_decide; simpl; [|done].
      by rewrite lookup_delete_ne.
  - case_bool_decide; simpl; [subst; by rewrite lookup_delete_eq|by rewrite lookup_delete_ne].
  - destruct (CloseAll_spec r Hr) as (l & -> & _). simpl. by rewrite lookup_empty.
Qed.

(** The operations that name handle [h] in slot [id], or empty the slot
    unconditionally. *)
Definition touches (id : CarrierID) (h : href) (op : rop) : bool :=
  match op with
  | RAdd id' _ | RClear id' => bool_decide (id' = id)
  | RClearIf id' h' => bool_decide (id' = id ∧ h' = Some h)
  | RCloseAll => true
  end.

Lemma slot_kept id h ops r :
  rinv r → handles r !! id = Some h → forallb (λ op, negb (touches id h op)) ops = true →
  handles (rrun ops r) !! id = Some h.
Proof.
  revert r. induction ops as [|op ops IH]; intros r Hr Hh Hops; [done|].
  simpl in Hops. apply andb_true_iff in Hops as [Hop Hops]. simpl.
  apply IH; [by apply rstep_rinv| |done]. rewrite (rstep_slot op r id Hr), Hh.
  apply negb_true_iff in Hop. destruct op as [id' [h'|]|id' h'|id'|]; simpl in Hop; try done.
  - apply bool_decide_eq_false in Hop. by rewrite bool_decide_false by tauto.
  - apply bool_decide_eq_false in Hop. rewrite bool_decide_false; [done|]. intros [??]. by apply Hop.
  - by rewrite Hop.
Qed.

(** A slot belongs to the handle last installed in it.  Installing under
    an ID outside the configured list fails with ErrUnknownCarrierID and
    changes nothing.  Installing under a known ID returns the handle it
    displaced, touches no other slot, and the new handle then stays in its slot
    through every later operation except a new install in that slot, its own
    conditional clear, an unconditional Clear of the slot or CloseAll: the loss
    sweep of a displaced handle, or of any other carrier, never removes it. *)
Theorem registry_slot_ownership ids ops id h r :
  r = rrun ops (newDownRegistry ids) →
  let '(out, r') := AddHandle id (Some h) r in
  if bool_decide (id ∈ KnownIDs r)
  then out = Ok (Handle id r)
       ∧ (∀ id', id' ≠ id → Handle id' r' = Handle id' r)
       ∧ ∀ later, forallb (λ op, negb (touches id h op)) later = true → Handle id (rrun later r') = Some h
  else out = Err (ErrUnknownCarrierID (ID r) id) ∧ r' = r.
Proof.
  intros ->. set (r := rrun ops _).
  destruct (rrun_rinv ops _ (newDownRegistry_rinv ids)) as [Hr _]. fold r in Hr.
  pose proof (rstep_rinv (RAdd id (Some h)) r Hr) as Hr'. simpl in Hr'.
  unfold AddHandle, IsKnown, KnownIDs, Handle in *.
  assert (id ∈ allowed r ↔ id ∈ order r) as Hal by (rewrite (proj1 Hr); apply elem_of_list_to_set).
  rewrite (bool_decide_ext _ _ Hal) in *.
  case_bool_decide; cbn [negb]; [|done]. split_and!; [done| |].
  - intros id' ?. simpl. by rewrite lookup_insert_ne.
  - intros later Hl. apply slot_kept; [done| |done]. simpl. by rewrite lookup_insert_eq.
Qed.

Lemma registry_slot_ownership_witness :
  let r := rrun [RAdd DefaultDownCarrierID (Some 1)] (newDownRegistry []) in
  let r' := snd (AddHandle DefaultDownCarrierID (Some 2) r) in
  fst (AddHandle DefaultDownCarrierID (Some 2) r) = Ok (Some 1)
  ∧ Handle DefaultDownCarrierID (rrun [RClearIf DefaultDownCarrierID (Some 1)] r') = Some 2.
Proof.
  intros r r'.
  pose proof (registry_slot_ownership [] [RAdd DefaultDownCarrierID (Some 1)] DefaultDownCarrierID 2 r eq_refl) as H.
  unfold r'. destruct (AddHandle _ _ r) as [out s]. cbn [fst snd].
  rewrite bool_decide_true in H by (vm_compute; left). destruct H as (-> & _ & H).
  split; [by vm_compute|]. apply (H [RClearIf DefaultDownCarrierID (Some 1)]). by vm_compute.
Defined.

(** Shutdown closes every installed carrier exactly once: CloseAll closes
    precisely the installed handles, each as often as it is installed, whatever
    the configured order repeats, and leaves every slot empty, so that no
    lookup returns a carrier afterwards. *)
Theorem registry_close_all ids ops carrierReady r :
  r = rrun ops (newDownRegistry ids) →
  let '(r', closed) := CloseAllCarriers r in
  closed ≡ₚ installed r ∧ installed r' = [] ∧ Primary carrierReady r' = None ∧ CountInstalled r' = 0.
Proof.
  intros ->. destruct (rrun_rinv ops _ (newDownRegistry_rinv ids)) as [Hr _].
  destruct (CloseAll_spec _ Hr) as (l & -> & Hl).
  assert (∀ s, handles s = ∅ → ∀ ks, firstReady carrierReady s ks = None
    ∧ ∀ n, foldl (λ n id, match handles s !! id with Some _ => S n | None => n end) n ks = n) as Hs.
  { intros s Hs. induction ks as [|i ks [IH1 IH2]]; [done|]. split.
    - simpl. unfold readyAt. by rewrite Hs, lookup_empty.
    - intros n. simpl. rewrite IH2. by rewrite Hs, lookup_empty. }
  split_and!; [done|unfold installed; simpl; by rewrite map_to_list_empty|apply Hs; done|apply Hs; done].
Qed.

Lemma registry_close_all_witness :
  let r := rrun [RAdd DefaultDownCarrierID (Some 1)] (newDownRegistry [DefaultDownCarrierID; DefaultDownCarrierID]) in
  snd (CloseAllCarriers r) = [1] ∧ CountInstalled (fst (CloseAllCarriers r)) = 0.
Proof.
  intros r. split; [by vm_compute|].
  pose proof (registry_close_all _ _ (λ _, true) r eq_refl) as H.
  destruct (CloseAllCarriers r). apply H.
Defined.
