(* ===== verification/Governor.v ===== *)
(** * The target-dial governor (pkg/node/target_dial_governor.go)

    A per-target circuit breaker with an LRU-bounded table of failing targets,
    a jittered retry backoff and a bounded dial.  Times are nanoseconds of the
    governor's clock, passed to the operations that read it; the zero
    [time.Time] of [windowStart] is [None].  Each operation is one critical
    section of [g.mu], so every interleaving of concurrent dials is a sequence
    of [gov_op] steps. *)
From S2P Require Import Backoff Net.
#[local] Open Scope Z_scope.

(** ** dialBackoff *)
Record dialBackoff := mkDialBackoff { db_base : Z; db_max : Z; count : Z }.

#[export] Instance expand_dialBackoff : Expandable dialBackoff :=
  {| expand := λ b, mkDialBackoff (db_base b) (db_max b) (count b) |}.

Definition newDialBackoff (base max : Z) : dialBackoff :=
  let base := if base <=? 0 then millisecond else base in
  let max := if max <? base then base else max in
  mkDialBackoff base max 0.

(** [r] is the jitter drawn by [Int63n(d/2+1)]. *)
Definition nextDelay (r : Z) (b : dialBackoff) : Z * dialBackoff :=
  let exp := if count b >? 30 then 30 else count b in
  let d := shl64 (db_base b) exp in
  let d := if (d <=? 0) || (d >? db_max b) then db_max b else d in
  let b := b <| count := count b + 1 |> in
  let j := Z.quot d 2 in
  (if Z.quot d 2 >? 0 then j + r else j, b).

Definition resetBackoff (b : dialBackoff) : dialBackoff := b <| count := 0 |>.
Definition dialAttempts (b : dialBackoff) : Z := count b.

(** ** The bounded dial

    [fn] is the dialer ([None] for nil).  With a positive timeout the dial
    races the timer and the context; [race] is the winner. *)
Inductive race := DialReturned | TimerFired | CtxDone.

Section dial.
Context {conn err : Type}.

Inductive dial_error :=
| NilDialer | ErrTargetBreakerOpen | ErrTargetDialTimeout | CtxErr | DialErr (e : err).

Definition rawResult (r : res err conn) : res dial_error conn :=
  match r with Ok c => Ok c | Err e => Err (DialErr e) end.

Definition dialBounded (timeout : Z) (fn : option (gostring → res err conn)) (addr : gostring) (w : race)
  : res dial_error conn :=
  match fn with
  | None => Err NilDialer
  | Some fn =>
      if timeout <=? 0 then rawResult (fn addr)
      else match w with
           | DialReturned => rawResult (fn addr)
           | TimerFired => Err ErrTargetDialTimeout
           | CtxDone => Err CtxErr
           end
  end.
End dial.
Arguments dial_error : clear implicits.

(** ** Configuration and state *)
Record GovernorConfig := mkGovConfig {
  BoundedTimeout : Z;
  BreakerEnabled : bool;
  FailureWindow : Z;
  FailureThreshold : Z;
  Cooldown : Z;
  BackoffEnabled : bool;
  BackoffBase : Z;
  BackoffMax : Z;
  MaxTargets : Z
}.

Definition defaultFailureWindow : Z := 60 * second.
Definition defaultFailureThreshold : Z := 5.
Definition defaultCooldown : Z := 30 * second.
Definition defaultBackoffBase : Z := 500 * millisecond.
Definition defaultBackoffMax : Z := 30 * second.
Definition defaultMaxTargets : Z := 1024.

Record governorEntry := mkEntry {
  e_open : bool;
  openedAt : Z;
  failures : Z;
  windowStart : option Z;
  halfProbed : bool;
  bo : option dialBackoff;
  pendingRet : bool
}.

#[export] Instance expand_governorEntry : Expandable governorEntry :=
  {| expand := λ e, mkEntry (e_open e) (openedAt e) (failures e) (windowStart e) (halfProbed e) (bo e) (pendingRet e) |}.

Definition freshEntry : governorEntry := mkEntry false 0 0 None false None false.

Record TargetDialGovernor := mkGovernor {
  bound : Z;
  breakerEnabled : bool;
  g_window : Z;
  threshold : Z;
  cooldown : Z;
  backoffEnabled : bool;
  boffBase : Z;
  boffMax : Z;
  maxTargets : Z;
  entries : gmap gostring governorEntry;
  lru : list gostring
}.

#[export] Instance expand_TargetDialGovernor : Expandable TargetDialGovernor :=
  {| expand := λ g, mkGovernor (bound g) (breakerEnabled g) (g_window g) (threshold g) (cooldown g) (backoffEnabled g)
         (boffBase g) (boffMax g) (maxTargets g) (entries g) (lru g) |}.

Definition NewTargetDialGovernor (cfg : GovernorConfig) : TargetDialGovernor :=
  let base := if BackoffBase cfg <=? 0 then defaultBackoffBase else BackoffBase cfg in
  mkGovernor (BoundedTimeout cfg) (BreakerEnabled cfg)
    (if FailureWindow cfg <=? 0 then defaultFailureWindow else FailureWindow cfg)
    (if FailureThreshold cfg <=? 0 then defaultFailureThreshold else FailureThreshold cfg)
    (if Cooldown cfg <=? 0 then defaultCooldown else Cooldown cfg)
    (BackoffEnabled cfg) base
    (if (BackoffMax cfg <=? 0) || (BackoffMax cfg <? base) then defaultBackoffMax else BackoffMax cfg)
    (if MaxTargets cfg <=? 0 then defaultMaxTargets else MaxTargets cfg) ∅ [].

Definition BuildTargetDialGovernor (gc : GovernorConfig) : option TargetDialGovernor :=
  if negb (BreakerEnabled gc) && negb (BackoffEnabled gc) && (BoundedTimeout gc <=? 0) then None
  else Some (NewTargetDialGovernor gc).

(** ** Operations *)

(** [append(order[:i], order[i+1:]...)] at the first occurrence. *)
Fixpoint remove_first (t : gostring) (l : list gostring) : list gostring :=
  match l with
  | [] => []
  | x :: l => if bool_decide (x = t) then l else x :: remove_first t l
  end.

Definition setEntry (target : gostring) (e : governorEntry) (g : TargetDialGovernor) : TargetDialGovernor :=
  g <| entries := <[target := e]> (entries g) |>.

Definition touchMRU (target : gostring) (g : TargetDialGovernor) : governorEntry * TargetDialGovernor :=
  match entries g !! target with
  | None =>
      let g := match lru g with
               | evict :: rest =>
                   if Z.of_nat (size (entries g)) >=? maxTargets g
                   then g <| lru := rest |> <| entries := delete evict (entries g) |>
                   else g
               | [] => g
               end in
      (freshEntry, setEntry target freshEntry g <| lru := lru g ++ [target] |>)
  | Some e =>
      (e, if bool_decide (target ∈ lru g) then g <| lru := remove_first target (lru g) ++ [target] |> else g)
  end.

(** The result is (allowed, probe). *)
Definition Allow (now : Z) (target : gostring) (g : TargetDialGovernor) : bool * bool * TargetDialGovernor :=
  if negb (breakerEnabled g) then (true, false, g)
  else match entries g !! target with
  | None => (true, false, g)
  | Some e =>
      let '(_, g) := touchMRU target g in
      if negb (e_open e) then (true, false, g)
      else if now - openedAt e <? cooldown g then (false, false, g)
      else if halfProbed e then (false, false, g)
      else (true, true, setEntry target (e <| halfProbed := true |>) g)
  end.

Definition RecordSuccess (target : gostring) (g : TargetDialGovernor) : TargetDialGovernor :=
  match entries g !! target with
  | None => g
  | Some e =>
      let e := e <| e_open := false |> <| halfProbed := false |> <| failures := 0 |>
                 <| windowStart := None |> <| pendingRet := false |> in
      let e := if backoffEnabled g then e <| bo := resetBackoff <$> bo e |> else e in
      setEntry target e g
  end.

(** The breaker part of RecordFailure: the window of a closed entry starts at
    the first failure and restarts once it has elapsed. *)
Definition slideWindow (now : Z) (g : TargetDialGovernor) (e : governorEntry) : governorEntry :=
  let e := match windowStart e with None => e <| windowStart := Some now |> | Some _ => e end in
  match windowStart e with
  | Some w => if now - w >=? g_window g then e <| failures := 0 |> <| windowStart := Some now |> else e
  | None => e
  end.

Definition breakerFailure (now : Z) (g : TargetDialGovernor) (e : governorEntry) : governorEntry :=
  if e_open e then e <| openedAt := now |> <| halfProbed := false |>
  else
    let e := slideWindow now g e in
    let e := e <| failures := failures e + 1 |> in
    if breakerEnabled g && (failures e >=? threshold g)
    then e <| e_open := true |> <| halfProbed := false |> <| openedAt := now |> else e.

(** The backoff part. *)
Definition armBackoff (g : TargetDialGovernor) (e : governorEntry) : governorEntry :=
  if backoffEnabled g
  then (match bo e with None => e <| bo := Some (newDialBackoff (boffBase g) (boffMax g)) |> | Some _ => e end)
         <| pendingRet := true |>
  else e.

Definition RecordFailure (now : Z) (target : gostring) (g : TargetDialGovernor) : TargetDialGovernor :=
  let '(e, g) := touchMRU target g in
  setEntry target (armBackoff g (breakerFailure now g e)) g.

(** Wait takes the armed retry and advances its schedule; the result is the
    delay it sleeps, [None] when there is nothing to wait for.  [nextDelay]
    runs under the backoff's own lock right after [g.mu] is released. *)
Definition WaitDelay (r : Z) (target : gostring) (g : TargetDialGovernor) : option Z * TargetDialGovernor :=
  if negb (backoffEnabled g) then (None, g)
  else match entries g !! target with
  | Some e =>
      match pendingRet e, bo e with
      | true, Some b =>
          let '(d, b) := nextDelay r b in
          (Some d, setEntry target (e <| pendingRet := false |> <| bo := Some b |>) g)
      | _, _ => (None, g)
      end
  | None => (None, g)
  end.

(** One governed dial run to completion: [now1] and [now2] are the clock at
    the gate and at the failure, [cancelled] says that the context ended the
    backoff sleep, [w] the winner of the bounded dial.  The second component
    is the number of calls of the raw dialer. *)
Definition GovernedDial {conn err} (now1 now2 r : Z) (cancelled : bool) (w : race)
  (rawDial : option (gostring → res err conn)) (target : gostring) (g : TargetDialGovernor)
  : res (dial_error err) conn * nat * TargetDialGovernor :=
  match rawDial with
  | None => (Err NilDialer, 0%nat, g)
  | Some fn =>
      if (bound g <=? 0) && negb (breakerEnabled g) && negb (backoffEnabled g)
      then (rawResult (fn target), 1%nat, g)
      else
        let '(allowed, _, g) := Allow now1 target g in
        if negb allowed then (Err ErrTargetBreakerOpen, 0%nat, g)
        else
          let '(d, g) := WaitDelay r target g in
          match d, cancelled with
          | Some _, true => (Err CtxErr, 0%nat, g)
          | _, _ =>
              match dialBounded (bound g) rawDial target w with
              | Err e => (Err e, 1%nat, RecordFailure now2 target g)
              | Ok c => (Ok c, 1%nat, RecordSuccess target g)
              end
          end
  end.

Definition BackoffAttempts (target : gostring) (g : TargetDialGovernor) : Z :=
  match entries g !! target with
  | Some e => match bo e with Some b => dialAttempts b | None => 0 end
  | None => 0
  end.

Definition OpenCount (g : TargetDialGovernor) : Z :=
  Z.of_nat (size (filter (λ '(_, e), e_open e = true) (entries g))).

Definition Len (g : TargetDialGovernor) : Z := Z.of_nat (size (entries g)).

(** ** Interleavings *)
Inductive gov_op :=
| OAllow (now : Z) (t : gostring)
| OWait (r : Z) (t : gostring)
| OSuccess (t : gostring)
| OFailure (now : Z) (t : gostring).

Definition gov_step (op : gov_op) (g : TargetDialGovernor) : TargetDialGovernor :=
  match op with
  | OAllow now t => snd (Allow now t g)
  | OWait r t => snd (WaitDelay r t g)
  | OSuccess t => RecordSuccess t g
  | OFailure now t => RecordFailure now t g
  end.

Definition gov_run (ops : list gov_op) (g : TargetDialGovernor) : TargetDialGovernor :=
  foldl (λ g op, gov_step op g) g ops.

(** The table: at most [maxTargets] entries, and the recency list names each
    tracked target once. *)
Record gov_inv (g : TargetDialGovernor) : Prop := {
  gi_max : 0 < maxTargets g;
  gi_size : Z.of_nat (length (lru g)) ≤ maxTargets g;
  gi_nodup : NoDup (lru g);
  gi_dom : dom (entries g) = list_to_set (lru g)
}.

Definition same_config (g g' : TargetDialGovernor) : Prop :=
  bound g' = bound g ∧ breakerEnabled g' = breakerEnabled g ∧ g_window g' = g_window g
  ∧ threshold g' = threshold g ∧ cooldown g' = cooldown g ∧ backoffEnabled g' = backoffEnabled g
  ∧ maxTargets g' = maxTargets g.

Lemma remove_first_perm t l : t ∈ l → l ≡ₚ t :: remove_first t l.
Proof.
  induction l as [|x l IH]; simpl; [by intros ?%not_elem_of_nil|]. case_bool_decide as E; [by subst|].
  intros [->|Hin]%elem_of_cons; [done|]. rewrite (IH Hin) at 1. constructor.
Qed.

Lemma remove_first_move t l : t ∈ l → remove_first t l ++ [t] ≡ₚ l.
Proof. intros Hin. rewrite (remove_first_perm t l Hin) at 2. by rewrite Permutation_app_comm. Qed.

Lemma list_to_set_perm' (l k : list gostring) : l ≡ₚ k → list_to_set (C := gset gostring) l = list_to_set k.
Proof. intros H. apply set_eq. intros x. rewrite !elem_of_list_to_set. by rewrite H. Qed.

Lemma dom_elem g t e : gov_inv g → entries g !! t = Some e → t ∈ lru g.
Proof. intros Hg He%elem_of_dom_2. rewrite (gi_dom g Hg) in He. by apply elem_of_list_to_set in He. Qed.

Lemma Len_lru g : gov_inv g → Len g = Z.of_nat (length (lru g)).
Proof.
  intros Hg. unfold Len. f_equal. rewrite <- size_dom, (gi_dom g Hg).
  apply size_list_to_set, Hg.
Qed.

(** Overwriting the entry of a tracked target keeps the table. *)
Lemma setEntry_inv t e g : gov_inv g → t ∈ dom (entries g) → gov_inv (setEntry t e g).
Proof.
  intros [] Ht. constructor; simpl; try done. rewrite dom_insert_L, <- gi_dom0. set_solver.
Qed.

Lemma setEntry_lookup t e g t' :
  entries (setEntry t e g) !! t' = if bool_decide (t = t') then Some e else entries g !! t'.
Proof. simpl. case_bool_decide as E; [subst; apply lookup_insert_eq|by apply lookup_insert_ne]. Qed.

(** touchMRU leaves the target tracked with its own or a fresh entry, and the
    only other change to the table is that one target may be evicted. *)
Record touched (target : gostring) (g : TargetDialGovernor) (e : governorEntry) (g' : TargetDialGovernor) : Prop := {
  to_inv : gov_inv g';
  to_config : same_config g g';
  to_entry : entries g' !! target = Some e;
  to_own : e = default freshEntry (entries g !! target);
  to_others : ∀ t, t ≠ target → entries g' !! t = entries g !! t ∨ entries g' !! t = None;
  to_tracked : is_Some (entries g !! target) → entries g' = entries g
}.

Lemma touchMRU_known target e g :
  gov_inv g → entries g !! target = Some e → touched target g e (snd (touchMRU target g)).
Proof.
  intros Hg E. pose proof (dom_elem g target e Hg E) as Hin. unfold touchMRU. rewrite E. cbn [snd].
  rewrite bool_decide_true by done. destruct Hg.
  pose proof (remove_first_move target (lru g) Hin) as Hp.
  constructor; simpl; try done; try (by rewrite E); [|by left].
  constructor; simpl; [done|by rewrite (Permutation_length Hp)|by rewrite Hp|].
  by rewrite gi_dom0, (list_to_set_perm' _ _ Hp).
Qed.

Lemma insert_inv target g :
  gov_inv g → (target ∉ lru g) → Z.of_nat (length (lru g)) < maxTargets g →
  gov_inv (setEntry target freshEntry g <| lru := lru g ++ [target] |>).
Proof.
  intros [] Hni Hl. constructor; simpl; [done|rewrite length_app; simpl; lia| |].
  - apply NoDup_app. split_and!; [done|set_solver|apply NoDup_singleton].
  - rewrite dom_insert_L, gi_dom0. rewrite list_to_set_app_L. set_solver.
Qed.

Lemma evict_inv x rest g :
  gov_inv g → lru g = x :: rest →
  gov_inv (g <| lru := rest |> <| entries := delete x (entries g) |>).
Proof.
  intros [] E. rewrite E in *. apply NoDup_cons in gi_nodup0 as [Hx Hnd].
  constructor; simpl; [done|simpl in *; lia|done|]. rewrite dom_delete_L, gi_dom0. simpl.
  apply set_eq. intros y. rewrite elem_of_difference, elem_of_union, !elem_of_singleton, elem_of_list_to_set.
  destruct (decide (y = x)) as [->|]; tauto.
Qed.

Lemma touchMRU_spec target g :
  gov_inv g → touched target g (fst (touchMRU target g)) (snd (touchMRU target g)).
Proof.
  intros Hg. destruct (entries g !! target) as [e|] eqn:E.
  { pose proof (touchMRU_known target e g Hg E) as H. unfold touchMRU in *. by rewrite E in *. }
  assert (target ∉ lru g) as Hni.
  { rewrite <- (elem_of_list_to_set (C := gset gostring)), <- (gi_dom g Hg). by apply not_elem_of_dom. }
  pose proof (Len_lru g Hg) as HL. unfold Len in HL.
  unfold touchMRU. rewrite E. destruct (lru g) as [|x rest] eqn:El; cbn [fst snd].
  - constructor; [|done|by apply lookup_insert_eq|by rewrite E| |by rewrite E; intros []].
    + pose proof (gi_max g Hg). apply (insert_inv target g Hg); rewrite El; [set_solver|done].
    + intros t Ht. left. simpl. by rewrite lookup_insert_ne.
  - destruct (_ >=? maxTargets g) eqn:Ec; bools.
    + pose proof (evict_inv x rest g Hg El) as Hg'. pose proof (gi_size g Hg) as Hs. rewrite El in Hs. simpl in Hs.
      constructor; [|done|by apply lookup_insert_eq|by rewrite E| |by rewrite E; intros []].
      * apply (insert_inv target _ Hg'); simpl; [set_solver|lia].
      * intros t Ht. simpl. rewrite lookup_insert_ne by done.
        destruct (decide (t = x)) as [->|]; [right; apply lookup_delete_eq|left; by rewrite lookup_delete_ne].
    + constructor; [|done|by apply lookup_insert_eq|by rewrite E| |by rewrite E; intros []].
      * apply (insert_inv target g Hg); rewrite El; [done|simpl in *; lia].
      * intros t Ht. left. simpl. by rewrite lookup_insert_ne.
Qed.

Lemma same_config_refl g : same_config g g.
Proof. done. Qed.

(** Every operation keeps the table and the configuration. *)
Lemma gov_step_inv op g : gov_inv g → gov_inv (gov_step op g) ∧ same_config g (gov_step op g).
Proof.
  intros Hg. destruct op as [now t|r t|t|now t]; simpl.
  - unfold Allow. destruct (breakerEnabled g); [|done]. cbn [negb].
    destruct (entries g !! t) as [e|] eqn:E; [|done].
    pose proof (touchMRU_known t e g Hg E) as [Hi Hc He _ _ _].
    destruct (touchMRU t g) as [e' g']. simpl in *. repeat case_match; try done.
    simpl. split; [|done]. apply setEntry_inv; [done|]. by apply elem_of_dom_2 in He.
  - unfold WaitDelay. repeat case_match; try done. simpl. split; [|done].
    apply setEntry_inv; [done|]. by eapply elem_of_dom_2.
  - unfold RecordSuccess. case_match; [|done]. split; [|done].
    apply setEntry_inv; [done|]. by eapply elem_of_dom_2.
  - unfold RecordFailure. pose proof (touchMRU_spec t g Hg) as [Hi Hc He _ _ _].
    destruct (touchMRU t g) as [e g']. simpl in *. split; [|done].
    apply setEntry_inv; [done|]. by apply elem_of_dom_2 in He.
Qed.

Lemma same_config_trans g g' g'' : same_config g g' → same_config g' g'' → same_config g g''.
Proof. unfold same_config. intros ??. destruct_and!. split_and!; congruence. Qed.

Lemma gov_run_inv ops g : gov_inv g → gov_inv (gov_run ops g) ∧ same_config g (gov_run ops g).
Proof.
  revert g. induction ops as [|op ops IH]; intros g Hg; [done|]. simpl.
  destruct (gov_step_inv op g Hg) as [H1 H2]. destruct (IH _ H1) as [H3 H4].
  split; [done|]. by eapply same_config_trans.
Qed.

Lemma New_inv cfg : gov_inv (NewTargetDialGovernor cfg).
Proof.
  assert (0 < maxTargets (NewTargetDialGovernor cfg)).
  { simpl. destruct (MaxTargets cfg <=? 0) eqn:E; bools; [done|lia]. }
  constructor; [done|simpl in *; lia|apply NoDup_nil_2|done].
Qed.

(** The governor's memory is bounded.  From construction on, under any
    interleaving of gate checks, backoff waits and recorded outcomes, it tracks
    at most maxTargets targets, and its recency order names exactly the tracked
    targets, each once, so that an eviction always removes a tracked entry. *)
Theorem governor_bounded cfg ops :
  let g := gov_run ops (NewTargetDialGovernor cfg) in
  Len g ≤ maxTargets g
  ∧ maxTargets g = (if MaxTargets cfg <=? 0 then defaultMaxTargets else MaxTargets cfg)
  ∧ NoDup (lru g) ∧ ∀ t, t ∈ lru g ↔ is_Some (entries g !! t).
Proof.
  intros g. destruct (gov_run_inv ops _ (New_inv cfg)) as [Hg Hc]. fold g in Hg, Hc.
  rewrite (Len_lru g Hg). destruct Hc as (_ & _ & _ & _ & _ & _ & Hm). destruct Hg.
  split_and!; [done|by rewrite Hm|done|].
  intros t. rewrite <- elem_of_dom, gi_dom0. by rewrite elem_of_list_to_set.
Qed.

(** ** What the breaker knows

    The history of one target: the times of its failures since its last
    success, newest first, and whether a half-open probe has been admitted
    since its last recorded outcome. *)
Record history := mkHistory { h_gov : TargetDialGovernor; h_fails : list Z; h_probe : bool }.

Definition history_step (t : gostring) (op : gov_op) (h : history) : history :=
  mkHistory (gov_step op (h_gov h))
    (match op with
     | OFailure now t' => if bool_decide (t' = t) then now :: h_fails h else h_fails h
     | OSuccess t' => if bool_decide (t' = t) then [] else h_fails h
     | _ => h_fails h
     end)
    (match op with
     | OAllow now t' => h_probe h || (bool_decide (t' = t) && snd (fst (Allow now t' (h_gov h))))
     | OFailure _ t' | OSuccess t' => if bool_decide (t' = t) then false else h_probe h
     | OWait _ _ => h_probe h
     end).

Definition history_of (t : gostring) (ops : list gov_op) (g : TargetDialGovernor) : history :=
  foldl (λ h op, history_step t op h) (mkHistory g [] false) ops.

Lemma history_gov t ops h : h_gov (foldl (λ h op, history_step t op h) h ops) = gov_run ops (h_gov h).
Proof. revert h. induction ops as [|op ops IH]; intros h; [done|]. simpl. by rewrite IH. Qed.

(** Failures that fall in one window of the first of them (the last listed). *)
Definition burst (window : Z) (block : list Z) : Prop :=
  ∀ first τ, last block = Some first → τ ∈ block → τ - first < window.

Record entry_ok (g : TargetDialGovernor) (fs : list Z) (p : bool) (e : governorEntry) : Prop := {
  eo_probe : halfProbed e = true → p = true ∧ e_open e = true;
  eo_open : e_open e = true →
    breakerEnabled g = true ∧ head fs = Some (openedAt e)
    ∧ ∃ pre block post, fs = pre ++ block ++ post
        ∧ threshold g ≤ Z.of_nat (length block) ∧ burst (g_window g) block;
  eo_closed : e_open e = false →
    ∃ block post, fs = block ++ post ∧ failures e = Z.of_nat (length block)
      ∧ windowStart e = last block ∧ burst (g_window g) block
}.

Lemma burst_nil w : burst w [].
Proof. by intros ?? ?. Qed.

Lemma burst_one w x : 0 < w → burst w [x].
Proof. intros Hw f τ [= <-] ->%list_elem_of_singleton. lia. Qed.

Lemma burst_cons w x y l : last l = Some y → x - y < w → burst w l → burst w (x :: l).
Proof.
  intros Hl Hx Hb f τ Hf Hin. rewrite last_cons, Hl in Hf. injection Hf as <-.
  apply elem_of_cons in Hin as [->|Hin]; [done|by apply Hb].
Qed.

Lemma freshEntry_ok g fs p : entry_ok g fs p freshEntry.
Proof. constructor; [done|done|]. intros _. by exists [], fs. Qed.

(** A closed entry's run of counted failures after one more failure. *)
Lemma closed_failure now g fs e :
  0 < g_window g →
  (∃ block post, fs = block ++ post ∧ failures e = Z.of_nat (length block)
     ∧ windowStart e = last block ∧ burst (g_window g) block) →
  let e2 := slideWindow now g e in
  ∃ block post, now :: fs = block ++ post ∧ failures e2 + 1 = Z.of_nat (length block)
     ∧ windowStart e2 = last block ∧ burst (g_window g) block.
Proof.
  intros Hw (block & post & -> & Hf & Hws & Hb). destruct (last block) as [w|] eqn:El;
    unfold slideWindow; rewrite Hws; cbn.
  - rewrite Hws. destruct (now - w >=? g_window g) eqn:E; bools; cbn.
    + exists [now], (block ++ post). split_and!; [done|done|done|by apply burst_one].
    + exists (now :: block), post. rewrite Hws, last_cons, El.
      split_and!; [done|simpl; lia|done|by eapply burst_cons].
  - apply last_None in El. subst block. rewrite Z.sub_diag.
    destruct (0 >=? g_window g) eqn:E; bools; [lia|]. cbn.
    exists [now], post. split_and!; [done|simpl in *; lia|done|by apply burst_one].
Qed.

Lemma breakerFailure_ok now g fs p e :
  0 < g_window g → entry_ok g fs p e → entry_ok g (now :: fs) false (breakerFailure now g e).
Proof.
  intros Hw [Hp Ho Hc]. unfold breakerFailure. destruct (e_open e) eqn:Eo.
  - destruct (Ho eq_refl) as (Hb & _ & pre & block & post & -> & Hlen & Hburst).
    constructor; cbn; [done| |by rewrite Eo]. intros _. split_and!; [done|done|].
    by exists (now :: pre), block, post.
  - pose proof (closed_failure now g fs e Hw (Hc eq_refl)) as Hcl. cbv zeta in Hcl.
    set (e2 := slideWindow now g e) in *.
    assert (e_open e2 = false ∧ halfProbed e2 = halfProbed e) as [Hoe Hhe].
    { unfold e2, slideWindow. by repeat (case_match; cbn). }
    clearbody e2. destruct Hcl as (block & post & Hfs & Hlen & Hws & Hburst). cbn.
    destruct (breakerEnabled g && _) eqn:Eb.
    + apply andb_true_iff in Eb as [Eb Et]. bools. constructor; cbn; [done| |done].
      intros _. split_and!; [done|done|]. exists [], block, post. split_and!; [done|lia|done].
    + constructor; cbn; [|by rewrite Hoe|].
      * rewrite Hhe. intros [_ ?]%Hp. congruence.
      * intros _. by exists block, post.
Qed.

Lemma entry_ok_config g g' fs p e : same_config g g' → entry_ok g fs p e → entry_ok g' fs p e.
Proof.
  intros (_ & Hb & Hw & Ht & _) [Hp Ho Hc]. constructor; rewrite ?Hb, ?Hw, ?Ht; done.
Qed.

(** Only the breaker's fields matter. *)
Lemma entry_ok_breaker g fs p p' e e' :
  e_open e' = e_open e → openedAt e' = openedAt e → failures e' = failures e → windowStart e' = windowStart e →
  (halfProbed e' = true → e_open e = true → (halfProbed e = true → p = true) → p' = true ∧ e_open e = true) →
  (halfProbed e' = true → e_open e = true) →
  entry_ok g fs p e → entry_ok g fs p' e'.
Proof.
  intros H1 H2 H3 H4 H5 H6 [Hp Ho Hc]. constructor; rewrite ?H1, ?H2, ?H3, ?H4; [|done..].
  intros Hh. apply H5; [done|by apply H6|]. intros. by apply Hp.
Qed.

Lemma armBackoff_ok g g' fs p e : entry_ok g fs p e → entry_ok g fs p (armBackoff g' e).
Proof.
  intros He. unfold armBackoff. destruct (backoffEnabled g'); [|done]. destruct He as [Hp Ho Hc].
  by destruct (bo e); constructor.
Qed.

Definition hist_inv (t : gostring) (h : history) : Prop :=
  gov_inv (h_gov h) ∧ 0 < g_window (h_gov h)
  ∧ ∀ e, entries (h_gov h) !! t = Some e → entry_ok (h_gov h) (h_fails h) (h_probe h) e.

(** One operation, on the entry of [t]. *)
Lemma step_entry_ok t op g fs p e' :
  hist_inv t (mkHistory g fs p) →
  let h' := history_step t op (mkHistory g fs p) in
  entries (h_gov h') !! t = Some e' → entry_ok g (h_fails h') (h_probe h') e'.
Proof.
  intros (Hg & Hw & He) h'. cbn in Hg, Hw, He. unfold h'. cbn [history_step h_gov h_fails h_probe].
  destruct op as [now u|r u|u|now u]; cbn [gov_step].
  - unfold Allow. destruct (breakerEnabled g) eqn:Eb; cbn [negb fst snd];
      [|intros ?; rewrite andb_false_r, orb_false_r; by apply He].
    destruct (entries g !! u) as [e|] eqn:E; cbn [fst snd];
      [|intros ?; rewrite andb_false_r, orb_false_r; by apply He].
    pose proof (touchMRU_known u e g Hg E) as [_ _ _ _ _ Hsame]. rewrite E in Hsame.
    destruct (touchMRU u g) as [e0 g'] eqn:Et. cbn [snd] in *. specialize (Hsame ltac:(by eexists)).
    repeat case_match; cbn [fst snd]; rewrite ?Hsame, ?andb_false_r, ?orb_false_r; try (intros; by apply He).
    rewrite setEntry_lookup, Hsame, andb_true_r. case_bool_decide as Eu.
    + intros [= <-]. subst u. specialize (He e E). rewrite orb_true_r.
      eapply entry_ok_breaker; [..|exact He]; try done; cbn; by destruct (e_open e).
    + intros ?. rewrite orb_false_r. by apply He.
  - unfold WaitDelay. repeat case_match; cbn [snd]; try (by apply He).
    rewrite setEntry_lookup. case_bool_decide; [|by apply He]. intros [= <-]. subst u.
    specialize (He _ ltac:(eassumption)). by destruct He; constructor.
  - unfold RecordSuccess. case_match eqn:E; [|case_bool_decide; [subst; congruence|by apply He]].
    rewrite setEntry_lookup. case_bool_decide; [|by apply He]. intros [= <-].
    destruct (backoffEnabled g); (constructor; cbn; [done|done|]); intros _; by exists [], [].
  - unfold RecordFailure. pose proof (touchMRU_spec u g Hg) as [_ Hc _ Hown Hoth _].
    destruct (touchMRU u g) as [e0 g'] eqn:Et. cbn [fst snd] in *.
    rewrite setEntry_lookup. case_bool_decide as Eu.
    + intros [= <-]. subst u. apply armBackoff_ok.
      assert (entry_ok g fs p e0) as H0.
      { rewrite Hown. destruct (entries g !! t) eqn:E; [by apply He|apply freshEntry_ok]. }
      eapply (entry_ok_config g' g); [destruct Hc as (?&?&?&?&?&?&?); unfold same_config; split_and!; congruence|].
      eapply breakerFailure_ok; [destruct Hc as (?&?&->&?); done|]. by eapply entry_ok_config.
    + destruct (Hoth t ltac:(congruence)) as [->| ->]; [by apply He|done].
Qed.

Lemma history_step_inv t op h : hist_inv t h → hist_inv t (history_step t op h).
Proof.
  destruct h as [g fs p]. intros H. pose proof H as (Hg & Hw & _). cbn in Hg, Hw.
  destruct (gov_step_inv op g Hg) as [Hg' Hc].
  split_and!; [done|cbn; destruct Hc as (?&?&->&?); done|].
  intros e' E. eapply entry_ok_config; [exact Hc|]. by apply (step_entry_ok t op g fs p e' H).
Qed.

Lemma history_of_inv t ops cfg : hist_inv t (history_of t ops (NewTargetDialGovernor cfg)).
Proof.
  unfold history_of. assert (hist_inv t (mkHistory (NewTargetDialGovernor cfg) [] false)) as H.
  { split_and!; [apply New_inv| |done]. cbn. destruct (FailureWindow cfg <=? 0) eqn:E; bools; [done|lia]. }
  revert H. generalize (mkHistory (NewTargetDialGovernor cfg) [] false).
  induction ops as [|op ops IH]; intros h H; [done|]. by apply IH, history_step_inv.
Qed.

(** The breaker refuses only a target that keeps failing.  Whenever the
    gate refuses a dial, the breaker is enabled, at least threshold failures of
    that target with no success in between fell within one window of their
    first, and the target's last failure is either more recent than the
    cooldown or was followed by a half-open probe whose outcome is still
    outstanding.  An unknown or evicted target is never refused. *)
Theorem governor_refuses_only_failing cfg ops t now g' probe :
  let h := history_of t ops (NewTargetDialGovernor cfg) in
  let g := h_gov h in
  Allow now t g = (false, probe, g') →
  breakerEnabled g = true
  ∧ (∃ latest, head (h_fails h) = Some latest ∧ (now - latest < cooldown g ∨ h_probe h = true))
  ∧ ∃ later block earlier, h_fails h = later ++ block ++ earlier
      ∧ threshold g ≤ Z.of_nat (length block) ∧ burst (g_window g) block.
Proof.
  intros h g. destruct (history_of_inv t ops cfg) as (Hg & _ & He). fold h in Hg, He. fold g in Hg, He.
  unfold Allow. destruct (breakerEnabled g) eqn:Eb; cbn [negb]; [|done].
  destruct (entries g !! t) as [e|] eqn:E; [|done]. destruct (He e eq_refl) as [Hp Ho _].
  pose proof (touchMRU_known t e g Hg E) as [_ (_ & _ & _ & _ & Hcd & _) _ _ _ _].
  destruct (touchMRU t g) as [e0 g1]. cbn [snd] in Hcd. destruct (e_open e); [|done].
  destruct (Ho eq_refl) as (_ & Hh & Hb). cbn [negb]. rewrite Hcd.
  destruct (now - openedAt e <? cooldown g) eqn:Ec; bools; [intros _; split_and!; eauto|].
  destruct (halfProbed e); [|done]. intros _. split_and!; [done| |done].
  exists (openedAt e). split; [done|]. right. by apply Hp.
Qed.

Definition example_cfg : GovernorConfig := mkGovConfig 0 true 1000 2 500 false 0 0 0.
Definition example_target : gostring := lit "203.0.113.7:443".

Lemma governor_refuses_only_failing_witness :
  let h := history_of example_target [OFailure 10 example_target; OFailure 20 example_target]
             (NewTargetDialGovernor example_cfg) in
  Allow 30 example_target (h_gov h) = (false, false, snd (Allow 30 example_target (h_gov h)))
  ∧ h_fails h = [20; 10] ∧ breakerEnabled (h_gov h) = true.
Proof.
  intros h.
  assert (Allow 30 example_target (h_gov h) = (false, false, snd (Allow 30 example_target (h_gov h)))) as H
    by (by vm_compute).
  destruct (governor_refuses_only_failing example_cfg
    [OFailure 10 example_target; OFailure 20 example_target] example_target 30 _ _ H) as [Hb _].
  split_and!; [exact H|by vm_compute|exact Hb].
Defined.

(** ** The half-open state *)
Definition outcome_of (t : gostring) (op : gov_op) : bool :=
  match op with OSuccess u | OFailure _ u => bool_decide (u = t) | _ => false end.

Definition probing (t : gostring) (g : TargetDialGovernor) : Prop :=
  gov_inv g ∧ breakerEnabled g = true
  ∧ ∀ e, entries g !! t = Some e → e_open e = true ∧ halfProbed e = true.

Lemma probing_step t op g : probing t g → outcome_of t op = false → probing t (gov_step op g).
Proof.
  intros (Hg & Hb & He) Ho. destruct (gov_step_inv op g Hg) as [Hg' Hc].
  split_and!; [done|destruct Hc as (_ & -> & _); done|]. intros e'. revert Ho.
  destruct op as [now u|r u|u|now u]; cbn [gov_step outcome_of]; intros Ho.
  - unfold Allow. rewrite Hb. cbn [negb]. destruct (entries g !! u) as [e|] eqn:E; [|by apply He].
    pose proof (touchMRU_known u e g Hg E) as [_ _ _ _ _ Hsame]. rewrite E in Hsame.
    destruct (touchMRU u g) as [e0 g']. cbn [snd] in *. specialize (Hsame ltac:(by eexists)).
    repeat case_match; cbn [snd]; rewrite ?Hsame; try (by apply He).
    rewrite setEntry_lookup, Hsame. case_bool_decide; [|by apply He]. intros [= <-]. subst. cbn.
    split; [|done]. by apply (He e).
  - unfold WaitDelay. repeat case_match; cbn [snd]; try (by apply He).
    rewrite setEntry_lookup. case_bool_decide; [|by apply He]. intros [= <-]. subst. cbn. by apply He.
  - apply bool_decide_eq_false in Ho. unfold RecordSuccess. case_match; [|by apply He].
    rewrite setEntry_lookup. rewrite bool_decide_false by done. by apply He.
  - apply bool_decide_eq_false in Ho. unfold RecordFailure.
    pose proof (touchMRU_spec u g Hg) as [_ _ _ _ Hoth _].
    destruct (touchMRU u g) as [e0 g']. cbn [fst snd] in *.
    rewrite setEntry_lookup, bool_decide_false by done.
    destruct (Hoth t ltac:(congruence)) as [->| ->]; [by apply He|done].
Qed.

Lemma probing_run t ops g :
  probing t g → forallb (λ op, negb (outcome_of t op)) ops = true → probing t (gov_run ops g).
Proof.
  revert g. induction ops as [|op ops IH]; intros g Hg Ho; [done|]. simpl in Ho.
  apply andb_true_iff in Ho as [Ho1 Ho2]. apply negb_true_iff in Ho1.
  apply IH; [by apply probing_step|done].
Qed.

Lemma Allow_open now t e g :
  gov_inv g → breakerEnabled g = true → entries g !! t = Some e → e_open e = true →
  fst (Allow now t g) =
    (if now - openedAt e <? cooldown g then (false, false)
     else if halfProbed e then (false, false) else (true, true)).
Proof.
  intros Hg Hb He Ho. unfold Allow. rewrite Hb, He, Ho. cbn [negb].
  pose proof (touchMRU_known t e g Hg He) as [_ (_ & _ & _ & _ & Hcd & _) _ _ _ _].
  destruct (touchMRU t g) as [e0 g1]. cbn [snd] in Hcd. rewrite Hcd. by repeat case_match.
Qed.

Lemma Allow_probe now t g g1 :
  gov_inv g → Allow now t g = (true, true, g1) → probing t g1.
Proof.
  intros Hg H. pose proof (gov_step_inv (OAllow now t) g Hg) as [Hg1 (_ & Hb1 & _)]. cbn in Hg1, Hb1.
  rewrite H in Hg1, Hb1. cbn in Hg1, Hb1. revert H. unfold Allow.
  destruct (breakerEnabled g) eqn:Eb; cbn [negb]; [|done].
  destruct (entries g !! t) as [e|] eqn:E; [|done]. destruct (touchMRU t g) as [e0 g0].
  destruct (e_open e) eqn:Eo; [|done]. cbn [negb]. destruct (_ <? _); [done|]. destruct (halfProbed e); [done|].
  intros [= <-]. split_and!; [done|done|]. intros e'. rewrite setEntry_lookup, bool_decide_true by done.
  by intros [= <-].
Qed.

(** A half-open breaker admits one probe.  Once the gate has admitted a
    probe of a target, then until an outcome of that target is recorded, and
    whatever happens to other targets meanwhile, the gate admits no second
    probe: it refuses the target as long as it is tracked, and lets it through
    ungoverned only if it was evicted.  The probe's success closes the breaker
    at once.  Its failure refuses every dial for one cooldown, counted from the
    failure, and then admits exactly one probe again. *)
Theorem governor_single_probe cfg ops0 ops now t g1 :
  Allow now t (gov_run ops0 (NewTargetDialGovernor cfg)) = (true, true, g1) →
  forallb (λ op, negb (outcome_of t op)) ops = true →
  let g := gov_run ops g1 in
  (∀ now', fst (Allow now' t g) = (bool_decide (entries g !! t = None), false))
  ∧ (∀ now', fst (Allow now' t (RecordSuccess t g)) = (true, false))
  ∧ (is_Some (entries g !! t) → ∀ failed now',
       fst (Allow now' t (RecordFailure failed t g)) =
         (if now' - failed <? cooldown g then (false, false) else (true, true))).
Proof.
  intros H Hops g. destruct (gov_run_inv ops0 _ (New_inv cfg)) as [Hg0 _].
  pose proof (probing_run t ops g1 (Allow_probe now t _ g1 Hg0 H) Hops) as (Hg & Hb & He). fold g in Hg, Hb, He.
  split_and!.
  - intros now'. destruct (entries g !! t) as [e|] eqn:E.
    + destruct (He e eq_refl) as [Ho Hh]. rewrite (Allow_open now' t e g), Hh by done. by case_match.
    + unfold Allow. by rewrite Hb, E.
  - intros now'. unfold RecordSuccess. destruct (entries g !! t) as [e|] eqn:E.
    + set (e' := if backoffEnabled g then _ else _). unfold Allow.
      rewrite setEntry_lookup, bool_decide_true by done. change (breakerEnabled (setEntry t e' g)) with (breakerEnabled g).
      rewrite Hb. assert (e_open e' = false) as -> by (unfold e'; by case_match). cbn [negb].
      by destruct (touchMRU t (setEntry t e' g)).
    + unfold Allow. by rewrite Hb, E.
  - intros [e E] failed now'. destruct (He e E) as [Ho Hh].
    pose proof (gov_step_inv (OFailure failed t) g Hg) as [Hg2 (_ & Hb2 & _ & _ & Hcd2 & _)].
    cbn [gov_step] in *.
    set (e2 := armBackoff (snd (touchMRU t g)) (breakerFailure failed (snd (touchMRU t g)) e)).
    assert (entries (RecordFailure failed t g) !! t = Some e2) as E2.
    { unfold e2, RecordFailure, touchMRU. rewrite E. cbn [fst snd]. by rewrite setEntry_lookup, bool_decide_true. }
    assert (e_open e2 = true ∧ halfProbed e2 = false ∧ openedAt e2 = failed) as (H1 & H2 & H3).
    { unfold e2, breakerFailure, armBackoff. rewrite Ho. destruct (backoffEnabled (snd (touchMRU t g))); cbn; [|done]. by destruct (bo e). }
    rewrite (Allow_open now' t e2), H2, H3, Hcd2; [done|done|congruence|done|done].
Qed.

Lemma governor_single_probe_witness :
  let ops0 := [OFailure 10 example_target; OFailure 20 example_target] in
  let g1 := snd (Allow 600 example_target (gov_run ops0 (NewTargetDialGovernor example_cfg))) in
  Allow 600 example_target (gov_run ops0 (NewTargetDialGovernor example_cfg)) = (true, true, g1)
  ∧ fst (Allow 700 example_target (gov_run [OAllow 650 example_target] g1)) = (false, false).
Proof.
  intros ops0 g1.
  assert (Allow 600 example_target (gov_run ops0 (NewTargetDialGovernor example_cfg)) = (true, true, g1)) as H
    by (by vm_compute).
  destruct (governor_single_probe example_cfg ops0 [OAllow 650 example_target] 600 example_target g1 H
    ltac:(by vm_compute)) as [H1 _].
  split; [exact H|]. rewrite H1. by vm_compute.
Defined.
