(* ===== verification/Carrier.v ===== *)
(** * The multiplexed carrier (pkg/mux/carrier.go)

    One carrier multiplexes many streams over one connection.  The read loop
    feeds a bounded channel of frames, the dispatcher routes them into the
    streams' mailboxes, one worker per stream hands mailbox items to the
    consumer over a channel of capacity one, and Close tears all of it down.

    The goroutines run concurrently.  Each one is a phase of the state
    [CarrierConn], and [cstep] runs one atomic action of one of them: a critical
    section of a lock, one channel operation, or one arm of a select, which the
    label of the step picks.  A parked goroutine moves only when the channel it
    waits on was closed.  Every execution of the program is a sequence of
    labels, and the theorems hold for all sequences.

    A consumer channel carries [None] for a nil payload, which consumers read
    as the end of the stream: FrameClose is handed over as nil, and so is a DATA
    frame with an empty payload, for which the decoder leaves a nil slice.  Sending
    on a closed channel panics; [panicked] records that it happened. *)
From S2P Require Export Mailboxes.
Import Mailboxes.
#[local] Open Scope Z_scope.

(** ** Stream limits *)
Definition millisecond : Z := 1000000.

Record StreamLimits := mkLimits {
  MaxFramesPerStream : Z;
  MaxBytesPerStream : Z;
  MaxBytesTotal : Z;
  OverflowWait : Z;
  ConsumerStall : Z
}.

#[export] Instance expand_StreamLimits : Expandable StreamLimits := {| expand := λ l,
  mkLimits (MaxFramesPerStream l) (MaxBytesPerStream l) (MaxBytesTotal l) (OverflowWait l) (ConsumerStall l) |}.

Definition MaxFrames : Z := 16.

Definition DefaultStreamLimits : StreamLimits :=
  mkLimits MaxFrames (Z.shiftl 704 10) (Z.shiftl 16 20) (100 * millisecond) (30000 * millisecond).

(** The limits come back with the error, as in the source. *)
Definition SanitizeLimits (l : StreamLimits) : StreamLimits * bool :=
  let d := DefaultStreamLimits in
  let l := if (MaxFramesPerStream l <=? 0) || (MaxFramesPerStream l >? MaxFrames)
           then l <| MaxFramesPerStream := MaxFramesPerStream d |> else l in
  let l := if MaxBytesPerStream l <=? 0 then l <| MaxBytesPerStream := MaxBytesPerStream d |> else l in
  let l := if MaxBytesTotal l <=? 0 then l <| MaxBytesTotal := MaxBytesTotal d |> else l in
  let l := if OverflowWait l <=? 0 then l <| OverflowWait := OverflowWait d |> else l in
  let l := if ConsumerStall l <=? 0 then l <| ConsumerStall := ConsumerStall d |> else l in
  (l, negb (MaxBytesTotal l <? MaxBytesPerStream l)).

(** ** The read loop's frame rules *)
Inductive read_error := ReadIO (e : io_error) | ErrProtocolViolation | ReadCreditLength | ErrCreditUnknownStream.

(** [known] says whether the carrier has the frame's stream when it is read. *)
Definition frameRules (known : bool) (f : Frame) : option read_error :=
  if (Type_ f =? FrameAuth)
     || ((StreamID f =? 0) && negb (Type_ f =? FramePing) && negb (Type_ f =? FramePong))
  then Some ErrProtocolViolation
  else if Type_ f =? FrameCredit then
    if negb (bool_decide (length (Payload f) = CreditPayloadSize)) then Some ReadCreditLength
    else if negb known then Some ErrCreditUnknownStream
    else None
  else None.

(** The whole loop on the bytes of a connection: the frames it hands to the
    dispatcher and why it stopped.  [known] is asked with the number of frames
    read so far.  Each frame has a header, so the number of bytes is enough
    fuel. *)
Fixpoint readLoop (fuel : nat) (known : nat → Z → bool) (n : nat) (s : list byte) : list Frame * read_error :=
  match fuel with
  | O => ([], ReadIO EOF)
  | S fuel =>
      match ReadFrame s with
      | Err e => ([], ReadIO e)
      | Ok (f, s) =>
          match frameRules (known n (StreamID f)) f with
          | Some e => ([], e)
          | None => let '(fs, e) := readLoop fuel known (S n) s in (f :: fs, e)
          end
      end
  end.

(** ** Streams *)

(** A stream worker: about to Pop, parked in Pop, holding a popped item in its
    hand-off select, inside terminateStream, or gone. *)
Inductive wphase := WPop | WParked (c : chan) | WHand (it : queueItem) | WTerm | WDone.

(** The body of terminateStream, which stopOnce runs once: not started,
    [terminated] set, mailbox closed and about to hand over nil, finished. *)
Inductive hphase := HIdle | HMarked (signalPeer : bool) | HSending | HDone.

#[export] Instance hphase_eq_dec : EqDecision hphase.
Proof. solve_decision. Defined.

Record streamRec := mkStream {
  r_id : Z;
  r_q : StreamQueue;
  r_ch : list (option (list byte));   (* the buffered channel, capacity 1 *)
  r_chClosed : bool;
  r_terminated : bool;
  r_callback : bool;
  r_handoff : hphase;
  r_worker : wphase;
  (* history: the items the dispatcher took for this stream, what the worker
     handed over, and what the consumer received *)
  r_routed : list queueItem;
  r_wsent : list (option (list byte));
  r_recv : list (option (list byte))
}.

#[export] Instance expand_streamRec : Expandable streamRec := {| expand := λ r,
  mkStream (r_id r) (r_q r) (r_ch r) (r_chClosed r) (r_terminated r) (r_callback r) (r_handoff r)
    (r_worker r) (r_routed r) (r_wsent r) (r_recv r) |}.

(** What the consumer channel carries for an item. *)
Definition conv (it : queueItem) : option (list byte) :=
  if isClose it then None else match it_payload it with [] => None | p => Some p end.

(** ** The carrier *)

(** The dispatcher: not started, at the frames channel, or delivering an item
    to stream record [i]: before the first push, before the carry, before
    PushPark, parked in it, after PushPark reported a closed queue, after an
    aggregate refusal, inside terminateStream (followed by the undeliverable
    callback or not); or returned. *)
Inductive dphase :=
| DNew | DLoop
| DPush (i : nat) (it : queueItem) | DCarry (i : nat) (it : queueItem) | DCheck (i : nat) (it : queueItem)
| DPark (i : nat) (it : queueItem) | DParked (i : nat) (it : queueItem) (c : chan)
| DFail (i : nat) (it : queueItem) | DAggregate (i : nat) (it : queueItem)
| DTerm (i : nat) (undeliverable : bool) | DDone.

(** Close: not called; closing latched; closed; closing mailbox number [n]; all
    workers gone; dispatcher gone or never started; all Terminate calls gone;
    channels closed. *)
Inductive cphase := KOpen | KLatched | KClosed | KMailboxes (n : nat) | KWorkers | KDispatcher | KTerminates | KChannels.

Definition krank (k : cphase) : nat :=
  match k with
  | KOpen => 0 | KLatched => 1 | KClosed => 2 | KMailboxes _ => 3 | KWorkers => 4
  | KDispatcher => 5 | KTerminates => 6 | KChannels => 7
  end.

(** Calls of the carrier's callbacks and frames sent on the control plane. *)
Inductive cevent :=
| EvNewStream (id typ : Z) (i : nat)
| EvReset (id reason gen : Z)
| EvBootstrapAck (id status : Z)
| EvCredit (id : Z) (p : CreditPayload)
| EvTerminated (id : Z)
| EvUndeliverable (id : Z)
| EvControl (frame : list byte).

Record CarrierConn := mkCarrier {
  c_shared : shared;               (* queuedBytes, queuedItems, stats *)
  allStreams : list streamRec;
  streams : gmap Z nat;
  closing : bool;
  closedCh : bool;                 (* c.closed *)
  limits : StreamLimits;
  c_frames : list Frame;           (* the channel, capacity 256 *)
  framesClosed : bool;
  onNewStream : bool;              (* OnNewStream != nil *)
  sawPong : bool;
  disp : dphase;
  terms : list nat;                (* Terminate calls counted by termWG *)
  closer : cphase;
  panicked : bool;
  events : list cevent
}.

#[export] Instance expand_CarrierConn : Expandable CarrierConn := {| expand := λ c,
  mkCarrier (c_shared c) (allStreams c) (streams c) (closing c) (closedCh c) (limits c) (c_frames c)
    (framesClosed c) (onNewStream c) (sawPong c) (disp c) (terms c) (closer c) (panicked c) (events c) |}.

Definition newCarrierConn (l : StreamLimits) (onNew : bool) : CarrierConn :=
  mkCarrier (mkShared 0 0 zeroStats) [] ∅ false false l [] false onNew false DNew [] KOpen false [].

Definition putRec (i : nat) (r : streamRec) (c : CarrierConn) : CarrierConn :=
  c <| allStreams := <[i := r]> (allStreams c) |>.

Definition putQ (i : nat) (r : streamRec) (sh : shared) (q : StreamQueue) (c : CarrierConn) : CarrierConn :=
  putRec i (r <| r_q := q |>) (c <| c_shared := sh |>).

Definition emitEv (e : cevent) (c : CarrierConn) : CarrierConn := c <| events := events c ++ [e] |>.

Definition bumpStats (f : QueueStats → QueueStats) (c : CarrierConn) : CarrierConn :=
  c <| c_shared := (c_shared c) <| sh_stats := f (sh_stats (c_shared c)) |> |>.

(** The mailbox a new stream gets. *)
Definition newMailbox (l : StreamLimits) : StreamQueue :=
  setQueuedItems true (SetStats true (SetOverflowCap (MaxBytesPerStream l)
    (NewStreamQueue (MaxFramesPerStream l) (MaxBytesPerStream l) true (MaxBytesTotal l)))).

Definition newStreamRec (id : Z) (callback : bool) (l : StreamLimits) : streamRec :=
  mkStream id (newMailbox l) [] false false callback HIdle WPop [] [] [].

Definition createStreamLocked (id : Z) (callback : bool) (c : CarrierConn) : option nat * CarrierConn :=
  if id =? 0 then (None, c)
  else match streams c !! id with
  | Some i => (Some i, c)
  | None =>
      let i := length (allStreams c) in
      (Some i, c <| streams := <[id := i]> (streams c) |>
                 <| allStreams := allStreams c ++ [newStreamRec id callback (limits c)] |>)
  end.

(** The channel is named by its stream record. *)
Definition Register (id : Z) (c : CarrierConn) : option nat * CarrierConn :=
  if closing c || (id =? 0) then (None, c)
  else match streams c !! id with
  | Some i => (Some i, c)
  | None => createStreamLocked id false c
  end.

Definition Deregister (id : Z) (c : CarrierConn) : CarrierConn := c <| streams := delete id (streams c) |>.

Definition StreamCount (c : CarrierConn) : nat := size (streams c).

(** ** terminateStream

    The first caller runs the body and marks the stream; every caller returns
    when the body has finished. *)
Definition terminateStream (i : nat) (signalPeer : bool) (c : CarrierConn) : CarrierConn :=
  match allStreams c !! i with
  | Some r =>
      match r_handoff r with
      | HIdle => emitEv (EvTerminated (r_id r))
                   (putRec i (r <| r_handoff := HMarked signalPeer |> <| r_terminated := true |>) c)
      | _ => c
      end
  | None => c
  end.

(** How a select was resolved. *)
Inductive arm := ASend | AClosed | ATimeout.

(** A send of [x] on the channel of [r]: it needs room, and panics when the
    channel is closed. *)
Definition sendCh (i : nat) (x : option (list byte)) (r : streamRec) (c : CarrierConn)
  : option (streamRec * CarrierConn) :=
  if r_chClosed r then Some (r, c <| panicked := true |>)
  else match r_ch r with
       | [] => Some (r <| r_ch := [x] |>, c)
       | _ => None
       end.

(** The rest of the body: close the mailbox and signal the peer, then hand nil
    to the consumer unless the carrier closes or the consumer is stuck. *)
Definition handoffStep (i : nat) (a : arm) (c : CarrierConn) : option CarrierConn :=
  r ← allStreams c !! i;
  match r_handoff r with
  | HMarked signalPeer =>
      let '(_, sh, q) := Close (c_shared c) (r_q r) in
      let c := putQ i (r <| r_handoff := HSending |>) sh q c in
      Some (if signalPeer && negb (closing c)
            then emitEv (EvControl (encodeControlFrame (r_id r) FrameClose [])) c else c)
  | HSending =>
      match a with
      | ASend => '(r, c) ← sendCh i None r c; Some (putRec i (r <| r_handoff := HDone |>) c)
      | AClosed => if closedCh c then Some (putRec i (r <| r_handoff := HDone |>) c) else None
      | ATimeout => Some (putRec i (r <| r_handoff := HDone |>) c)
      end
  | _ => None
  end.

(** ** The public Terminate *)
Definition Terminate (id : Z) (c : CarrierConn) : CarrierConn :=
  let closingNow := closing c in
  let '(s, c) :=
    match streams c !! id with
    | Some i => (Some i, c)
    | None => if closingNow then (None, c) else createStreamLocked id false c
    end in
  match s with
  | Some i => if closingNow then c
              else terminateStream i true (c <| terms := terms c ++ [i] |>)
  | None => c
  end.

(** The Terminate call number [k] returns (termWG.Done). *)
Definition terminateReturn (k : nat) (c : CarrierConn) : option CarrierConn :=
  i ← terms c !! k; r ← allStreams c !! i;
  if bool_decide (r_handoff r = HDone) then Some (c <| terms := delete k (terms c) |>) else None.

(** ** The stream worker *)
Definition streamWorker (i : nat) (a : arm) (c : CarrierConn) : option CarrierConn :=
  r ← allStreams c !! i;
  match r_worker r with
  | WPop =>
      let '(o, sh, q) := Pop (c_shared c) (r_q r) in
      Some (putQ i (r <| r_worker := match o with
                                     | Popped it => WHand it
                                     | PopClosed => WDone
                                     | PopParked ch => WParked ch
                                     end |>) sh q c)
  | WParked ch =>
      if bool_decide (ch ∈ closedChans (r_q r)) then Some (putRec i (r <| r_worker := WPop |>) c) else None
  | WHand it =>
      match a with
      | ASend =>
          '(r, c) ← sendCh i (conv it) r c;
          Some (putRec i (r <| r_wsent := r_wsent r ++ [conv it] |>
                            <| r_worker := if isClose it then WDone else WPop |>) c)
      | AClosed => if closedCh c then Some (putRec i (r <| r_worker := WDone |>) c) else None
      | ATimeout =>
          let c := bumpStats overflowTerminatedWorker c in
          if isClose it
          then Some (emitEv (EvTerminated (r_id r))
                       (putRec i (r <| r_terminated := true |> <| r_worker := WDone |>) c))
          else Some (terminateStream i false (putRec i (r <| r_worker := WTerm |>) c))
      end
  | WTerm => if bool_decide (r_handoff r = HDone) then Some (putRec i (r <| r_worker := WDone |>) c) else None
  | WDone => None
  end.

(** ** Delivery *)

(** Counts the data frames lost and starts terminating the stream. *)
Definition failUndeliverableData (i : nat) (triggerLostData : bool) (r : streamRec) (c : CarrierConn) : CarrierConn :=
  if r_terminated r then c <| disp := DLoop |>
  else
    let lost := QueueDataLen (r_q r) + (if triggerLostData then 1 else 0) in
    let c := Nat.iter (Z.to_nat lost) (bumpStats droppedDataFrame) c in
    terminateStream i true c <| disp := DTerm i true |>.

(** One action of deliver and deliverClose for item [it] of stream [i]. *)
Definition deliverStep (d : dphase) (c : CarrierConn) : option CarrierConn :=
  match d with
  | DPush i it =>
      r ← allStreams c !! i;
      if r_terminated r then Some (c <| disp := DLoop |>)
      else
        let '(ok, reason, sh, q) := TryPushReason (c_shared c) (r_q r) it in
        let next := if ok : bool then DLoop
                    else if isClose it then DCarry i it
                    else match reason with
                         | rejectStreamFrames | rejectStreamBytes => DCarry i it
                         | _ => DAggregate i it
                         end in
        Some (putQ i r sh q c <| disp := next |>)
  | DCarry i it =>
      r ← allStreams c !! i;
      if r_terminated r then Some (c <| disp := DLoop |>)
      else
        let '(ok, _, sh, q) := TryCarry (c_shared c) (r_q r) it in
        Some (putQ i r sh q c <| disp := if ok : bool then DLoop else DCheck i it |>)
  | DCheck i it =>
      r ← allStreams c !! i;
      Some (c <| disp := if r_terminated r then DLoop else DPark i it |>)
  | DPark i it =>
      r ← allStreams c !! i;
      let '(o, sh, q) := PushPark (c_shared c) (r_q r) it in
      Some (putQ i r sh q c <| disp := match o with
                                       | PushAccepted_ => DLoop
                                       | PushClosed => DFail i it
                                       | PushParked ch => DParked i it ch
                                       end |>)
  | DParked i it ch =>
      r ← allStreams c !! i;
      if bool_decide (ch ∈ closedChans (r_q r)) then Some (c <| disp := DPark i it |>) else None
  | DFail i it =>
      r ← allStreams c !! i;
      if negb (r_terminated r) && negb (closing c)
      then Some (failUndeliverableData i (negb (isClose it)) r c)
      else Some (c <| disp := DLoop |>)
  | DAggregate i it =>
      r ← allStreams c !! i;
      if r_terminated r then Some (c <| disp := DLoop |>)
      else Some (failUndeliverableData i true r c)
  | DTerm i undeliverable =>
      r ← allStreams c !! i;
      if bool_decide (r_handoff r = HDone)
      then Some ((if undeliverable : bool then emitEv (EvUndeliverable (r_id r)) c else c) <| disp := DLoop |>)
      else None
  | _ => None
  end.

(** ** Dispatch *)

(** The pong the dispatcher answers a ping with. *)
Definition pongFrame : list byte := encodeControlFrame 0 FramePong [x00].

Definition isStreamFrame (typ : Z) : bool :=
  (typ =? FrameData) || (typ =? FrameHeader) || (typ =? FrameRebind) || (typ =? FrameClose).

(** What the decoder returns with an error. *)
Definition zeroCredit : CreditPayload := mkCredit 0 0 0 0 0 [].

(** Routing one stream frame: look the stream up, open it when it is unknown
    and the callback is set, announce it once, and start the delivery.  A nil
    record (stream 0) would be dereferenced. *)
Definition routeFrame (f : Frame) (c : CarrierConn) : CarrierConn :=
  let '(s, c) :=
    match streams c !! StreamID f with
    | Some i => (Some (Some i), c)
    | None => if onNewStream c && negb (closing c)
              then let '(i, c) := createStreamLocked (StreamID f) true c in (Some i, c)
              else (None, c)
    end in
  match s with
  | None => c
  | Some None => c <| panicked := true |>
  | Some (Some i) =>
      match allStreams c !! i with
      | None => c
      | Some r =>
          let it := if Type_ f =? FrameClose then mkItem [] true else mkItem (Payload f) false in
          let c := if r_callback r then emitEv (EvNewStream (StreamID f) (Type_ f) i) c else c in
          putRec i (r <| r_callback := false |> <| r_routed := r_routed r ++ [it] |>) c <| disp := DPush i it |>
      end
  end.

(** The body of Dispatch's loop. *)
Definition dispatchFrame (f : Frame) (c : CarrierConn) : CarrierConn :=
  if isStreamFrame (Type_ f) then routeFrame f c
  else if Type_ f =? FrameReset then
    match ParseResetPayload (Payload f) with
    | Ok (reason, gen) => emitEv (EvReset (StreamID f) reason gen) c
    | Err _ => c
    end
  else if Type_ f =? FrameBootstrapAck then
    match ParseBootstrapAckPayload (Payload f) with
    | Ok status => emitEv (EvBootstrapAck (StreamID f) status) c
    | Err _ => c
    end
  else if Type_ f =? FramePing then (if closing c then c else emitEv (EvControl pongFrame) c)
  else if Type_ f =? FramePong then c <| sawPong := true |>
  else if Type_ f =? FrameCredit then
    let p := match DecodeCreditPayload (Payload f) with Ok p => p | Err _ => zeroCredit end in
    match ValidateCreditPayload p with
    | Some _ =>
        match streams c !! StreamID f with
        | Some i => terminateStream i false c <| disp := DTerm i false |>
        | None => c
        end
    | None => emitEv (EvCredit (StreamID f) p) c
    end
  else c.

Definition Dispatch (c : CarrierConn) : option CarrierConn :=
  match disp c with
  | DLoop =>
      match c_frames c with
      | f :: fs => Some (dispatchFrame f (c <| c_frames := fs |>))
      | [] => if framesClosed c then Some (c <| disp := DDone |>) else None
      end
  | d => deliverStep d c
  end.

(** ** Close *)
Definition allWorkersDone (c : CarrierConn) : bool :=
  forallb (λ r, match r_worker r with WDone => true | _ => false end) (allStreams c).

Definition closeChannels (c : CarrierConn) : CarrierConn :=
  c <| streams := foldl (λ m r, delete (r_id r) m) (streams c) (allStreams c) |>
    <| allStreams := map (λ r, r <| r_chClosed := true |>) (allStreams c) |>.

Definition closeStep (c : CarrierConn) : option CarrierConn :=
  match closer c with
  | KOpen => Some (c <| closing := true |> <| closer := KLatched |>)
  | KLatched => Some (c <| closedCh := true |> <| closer := KClosed |>)
  | KClosed => Some (c <| closer := KMailboxes 0 |>)
  | KMailboxes n =>
      match allStreams c !! n with
      | Some r => let '(_, sh, q) := Close (c_shared c) (r_q r) in
                  Some (putQ n r sh q c <| closer := KMailboxes (S n) |>)
      | None => if allWorkersDone c then Some (c <| closer := KWorkers |>) else None
      end
  | KWorkers =>
      match disp c with
      | DNew | DDone => Some (c <| closer := KDispatcher |>)
      | _ => None
      end
  | KDispatcher => match terms c with [] => Some (c <| closer := KTerminates |>) | _ => None end
  | KTerminates => Some (closeChannels c <| closer := KChannels |>)
  | KChannels => None
  end.

(** ** The carrier as a transition system *)
Inductive label :=
| LFrame (f : Frame)            (* the read loop hands over a frame *)
| LReadEnd                      (* the read loop ends *)
| LStart                        (* Dispatch is called *)
| LDispatch                     (* one action of the dispatcher *)
| LWorker (i : nat) (a : arm)
| LHandoff (i : nat) (a : arm)
| LReceive (i : nat)            (* the consumer receives *)
| LRegister (id : Z) | LDeregister (id : Z) | LTerminate (id : Z)
| LTermReturn (k : nat)
| LClose.                       (* one action of Close *)

Definition cstep (l : label) (c : CarrierConn) : option CarrierConn :=
  match l with
  | LFrame f =>
      if framesClosed c || negb (Nat.ltb (length (c_frames c)) 256) then None
      else match frameRules (bool_decide (is_Some (streams c !! StreamID f))) f with
           | None => Some (c <| c_frames := c_frames c ++ [f] |>)
           | Some _ => None
           end
  | LReadEnd => Some (c <| framesClosed := true |>)
  | LStart => match disp c with DNew => Some (c <| disp := DLoop |>) | _ => None end
  | LDispatch => Dispatch c
  | LWorker i a => streamWorker i a c
  | LHandoff i a => handoffStep i a c
  | LReceive i =>
      r ← allStreams c !! i;
      match r_ch r with
      | x :: rest => Some (putRec i (r <| r_ch := rest |> <| r_recv := r_recv r ++ [x] |>) c)
      | [] => None
      end
  | LRegister id => Some (snd (Register id c))
  | LDeregister id => Some (Deregister id c)
  | LTerminate id => Some (Terminate id c)
  | LTermReturn k => terminateReturn k c
  | LClose => closeStep c
  end.

Fixpoint crun (ls : list label) (c : CarrierConn) : option CarrierConn :=
  match ls with
  | [] => Some c
  | l :: ls => c ← cstep l c; crun ls c
  end.
