(* ===== verification/CarrierSafety.v ===== *)
(** * Safety of the carrier's goroutines

    The invariant of the transition system of Carrier.v, one lemma per action
    of a goroutine, and what follows from it: Close never races a sender
    ([carrier_close_safe]), a live stream loses nothing ([carrier_deliver_or_fail])
    and a consumer sees a prefix of what was routed to it ([received_routed]).  The
    last section runs the system on concrete interleavings, among them three
    that show behaviour the comments of the source exclude. *)
From S2P Require Export Carrier.
Import Mailboxes.
#[local] Open Scope Z_scope.

(** ** The invariant *)

(** The stream record the dispatcher is working on, the item it has not placed
    yet, and whether it may still place it without looking at [terminated]. *)
Definition about (d : dphase) : option nat :=
  match d with
  | DPush i _ | DCarry i _ | DCheck i _ | DPark i _ | DParked i _ _ | DFail i _ | DAggregate i _ | DTerm i _ => Some i
  | DNew | DLoop | DDone => None
  end.

Definition inflight (d : dphase) (i : nat) : list queueItem :=
  match d with
  | DPush j it | DCarry j it | DCheck j it | DPark j it | DParked j it _ | DFail j it | DAggregate j it =>
      if bool_decide (j = i) then [it] else []
  | _ => []
  end.

Definition accepting (d : dphase) (i : nat) : bool :=
  match d with
  | DCarry j _ | DCheck j _ | DPark j _ | DParked j _ _ => bool_decide (j = i)
  | _ => false
  end.

Definition hand (r : streamRec) : list queueItem := match r_worker r with WHand it => [it] | _ => [] end.

Definition pending (h : hphase) : bool := match h with HMarked _ | HSending => true | _ => false end.

(** Every routed item is handed over, in the worker's hand, in the mailbox, or
    with the dispatcher, in that order, except a lost tail; or the worker gave
    up its item. *)
Definition exact (k : nat) (infl : list queueItem) (acc : bool) (r : streamRec) : Prop :=
  (∃ lost, map conv (r_routed r) = r_wsent r ++ map conv (hand r ++ contents (r_q r) ++ lost ++ infl)
     ∧ (lost ≠ [] → q_closed (r_q r) = true ∨ (r_terminated r = true ∧ acc = false)))
  ∨ ((r_worker r = WTerm ∨ r_worker r = WDone) ∧ (r_terminated r = true ∨ (2 ≤ k)%nat)).

(** What went into the consumer's channel is what the worker handed over, with
    the nil of terminateStream somewhere in between. *)
Definition channel_ok (r : streamRec) : Prop :=
  ∃ a b, r_wsent r = a ++ b
    ∧ (r_recv r ++ r_ch r = a ++ b ∨ (r_recv r ++ r_ch r = a ++ None :: b ∧ r_handoff r = HDone)).

Record rec_ok (k : nat) (d : dphase) (ts : list nat) (i : nat) (r : streamRec) : Prop := {
  ro_ch : r_chClosed r = true → k = 7%nat;
  ro_worker : (4 ≤ k)%nat → r_worker r = WDone;
  ro_owner : pending (r_handoff r) = true → r_worker r = WTerm ∨ (∃ u, d = DTerm i u) ∨ i ∈ ts;
  ro_marked : r_handoff r ≠ HIdle → r_terminated r = true;
  ro_wterm : r_worker r = WTerm → r_handoff r ≠ HIdle;
  ro_q : qinv (r_q r);
  ro_qclosed : q_closed (r_q r) = true → r_terminated r = true ∨ (3 ≤ k)%nat;
  ro_fail : ∀ it, d = DFail i it → q_closed (r_q r) = true;
  ro_order : r_wsent r `prefix_of` map conv (r_routed r);
  ro_exact : exact k (inflight d i) (accepting d i) r;
  ro_chan : channel_ok r
}.

Record cinv (c : CarrierConn) : Prop := {
  ci_panic : panicked c = false;
  ci_closing : closing c = true ↔ (1 ≤ krank (closer c))%nat;
  ci_closed : closedCh c = true ↔ (2 ≤ krank (closer c))%nat;
  ci_disp : (5 ≤ krank (closer c))%nat → disp c = DNew ∨ disp c = DDone;
  ci_terms : (6 ≤ krank (closer c))%nat → terms c = [];
  ci_about : ∀ i, about (disp c) = Some i → (i < length (allStreams c))%nat;
  ci_streams : ∀ id i, streams c !! id = Some i → (i < length (allStreams c))%nat;
  ci_ids : Forall (λ f, isStreamFrame (Type_ f) = true → StreamID f ≠ 0) (c_frames c);
  ci_recs : ∀ i r, allStreams c !! i = Some r → rec_ok (krank (closer c)) (disp c) (terms c) i r
}.

(** The dispatcher's phase matters only to the record it is about. *)
Lemma inflight_other d j : about d ≠ Some j → inflight d j = [] ∧ accepting d j = false.
Proof. intros H. destruct d; simpl in *; rewrite ?bool_decide_false by congruence; done. Qed.

Lemma rec_ok_disp k d d' ts j r :
  about d ≠ Some j → about d' ≠ Some j → rec_ok k d ts j r → rec_ok k d' ts j r.
Proof.
  intros H H' []. destruct (inflight_other d j H) as [E1 E2], (inflight_other d' j H') as [E1' E2'].
  constructor; try done.
  - intros Hp. destruct (ro_owner0 Hp) as [?|[[u ->]|?]]; [by left|done|by right; right].
  - intros it ->. done.
  - by rewrite E1', E2', <- E1, <- E2.
Qed.

Lemma rec_ok_terms k d ts ts' j r :
  (pending (r_handoff r) = true → j ∈ ts → j ∈ ts') → rec_ok k d ts j r → rec_ok k d ts' j r.
Proof.
  intros H []. constructor; try done.
  intros Hp. destruct (ro_owner0 Hp) as [?|[?|?]]; [by left|by right; left|right; right; auto].
Qed.

(** Two states that agree on everything but the records and the dispatcher. *)
Definition same_rest (c c' : CarrierConn) : Prop :=
  closer c' = closer c ∧ closing c' = closing c ∧ closedCh c' = closedCh c
  ∧ panicked c' = panicked c ∧ terms c' = terms c ∧ c_frames c' = c_frames c ∧ streams c' = streams c.

Lemma cinv_update i r' c c' :
  cinv c → same_rest c c' → allStreams c' = <[i := r']> (allStreams c) →
  (disp c' = disp c
   ∨ ((krank (closer c) < 5)%nat ∧ (about (disp c) = None ∨ about (disp c) = Some i)
      ∧ (about (disp c') = None ∨ about (disp c') = Some i))) →
  (i < length (allStreams c))%nat →
  rec_ok (krank (closer c)) (disp c') (terms c) i r' → cinv c'.
Proof.
  intros [] (E1 & E2 & E3 & E4 & E5 & E6 & E7) Ea Hd Hi Hr.
  constructor; rewrite ?E1, ?E2, ?E3, ?E4, ?E5, ?E6, ?E7; try done.
  - intros Hk. destruct Hd as [->|(? & _)]; [by apply ci_disp0|lia].
  - intros j. rewrite Ea, length_insert. destruct Hd as [->|(_ & _ & [->|Hab])]; [by apply ci_about0|done|].
    rewrite Hab. by intros [= <-].
  - intros id j. rewrite Ea, length_insert. apply ci_streams0.
  - intros j r. rewrite Ea. destruct (decide (i = j)) as [<-|Hne].
    + rewrite list_lookup_insert_eq by done. by intros [= <-].
    + rewrite list_lookup_insert_ne by done. intros Hj. specialize (ci_recs0 j r Hj).
      destruct Hd as [->|(_ & H1 & H2)]; [done|].
      eapply rec_ok_disp; [..|exact ci_recs0]; [destruct H1|destruct H2]; congruence.
Qed.

(** ** Each action on its record *)

(** terminateStream marks the record the first time. *)
Definition markRec (s : bool) (r : streamRec) : streamRec :=
  match r_handoff r with
  | HIdle => r <| r_handoff := HMarked s |> <| r_terminated := true |>
  | _ => r
  end.

Lemma terminateStream_spec i s c r :
  allStreams c !! i = Some r →
  allStreams (terminateStream i s c) = <[i := markRec s r]> (allStreams c)
  ∧ same_rest c (terminateStream i s c) ∧ disp (terminateStream i s c) = disp c
  ∧ limits (terminateStream i s c) = limits c ∧ c_shared (terminateStream i s c) = c_shared c.
Proof.
  intros Hr. unfold terminateStream, markRec. rewrite Hr. destruct (r_handoff r); try done;
    by rewrite list_insert_id.
Qed.

Lemma markRec_terminated s r : (r_handoff r ≠ HIdle → r_terminated r = true) → r_terminated (markRec s r) = true.
Proof. unfold markRec. destruct (r_handoff r); auto. Qed.

Lemma exact_terminated k infl acc r : exact k infl acc r → exact k infl acc (r <| r_terminated := true |>).
Proof. intros [(lost & He & Hl)|[? ?]]; [left|right; eauto]. exists lost. split; [done|]. cbn. tauto. Qed.

Lemma exact_mark k infl acc s r : exact k infl acc r → exact k infl acc (markRec s r).
Proof. intros He. unfold markRec. destruct (r_handoff r); try done. by apply exact_terminated in He. Qed.

Lemma channel_mark s r : channel_ok r → channel_ok (markRec s r).
Proof.
  unfold markRec. destruct (r_handoff r) eqn:E; try done. intros (a & b & H1 & [H2|[_ H2]]); [|congruence].
  exists a, b. split; [done|by left].
Qed.

Lemma rec_mark k d ts i r s :
  rec_ok k d ts i r → (r_worker r = WTerm ∨ (∃ u, d = DTerm i u) ∨ i ∈ ts) → rec_ok k d ts i (markRec s r).
Proof.
  intros Hok Ho. pose proof (exact_mark k _ _ s r (ro_exact _ _ _ _ _ Hok)) as He.
  pose proof (channel_mark s r (ro_chan _ _ _ _ _ Hok)) as Hc. destruct Hok.
  unfold markRec in *. destruct (r_handoff r) eqn:E; constructor; try done; rewrite ?E; try done.
  intros _. by left.
Qed.

(** Dropping the dispatcher's item is sound once the mailbox is closed or the
    stream is terminated. *)
Lemma exact_drop k infl acc r :
  r_terminated r = true ∨ q_closed (r_q r) = true → exact k infl acc r → exact k [] false r.
Proof.
  intros Ht [(lost & He & Hl)|H]; [left|by right]. exists (lost ++ infl). rewrite app_nil_r. split; [done|].
  intros _. destruct Ht; [by right|by left].
Qed.

(** The dispatcher leaves the record, or enters terminateStream for it. *)
Lemma rec_leave k d ts i r d' :
  r_terminated r = true ∨ q_closed (r_q r) = true →
  d' = DLoop ∨ (∃ u, d' = DTerm i u) → (∀ u, d ≠ DTerm i u) →
  rec_ok k d ts i r → rec_ok k d' ts i r.
Proof.
  intros Ht Hd' Hd Hok. pose proof (exact_drop k _ _ r Ht (ro_exact _ _ _ _ _ Hok)) as He. destruct Hok.
  constructor; try done.
  - intros Hp. destruct (ro_owner0 Hp) as [?|[[u Hu]|?]]; [by left|by destruct (Hd u)|by right; right].
  - intros it ->. by destruct Hd' as [|[]].
  - by destruct Hd' as [->|[u ->]].
Qed.

(** A record the dispatcher is done terminating. *)
Lemma rec_term_done k u ts i r :
  r_handoff r = HDone → rec_ok k (DTerm i u) ts i r → rec_ok k DLoop ts i r.
Proof. intros Hh []. constructor; try done. by rewrite Hh. Qed.

(** The dispatcher starts terminating a stream it holds no item of. *)
Lemma rec_dterm k ts i r s u :
  rec_ok k DLoop ts i r → rec_ok k (DTerm i u) ts i (markRec s r).
Proof.
  intros Hok. apply rec_mark; [|by right; left; exists u]. destruct Hok. constructor; try done.
  intros Hp. destruct (ro_owner0 Hp) as [?|[[? ?]|?]]; [by left|done|by right; right].
Qed.

Lemma rec_fail k d ts i r s u :
  (∀ u, d ≠ DTerm i u) → rec_ok k d ts i r → rec_ok k (DTerm i u) ts i (markRec s r).
Proof.
  intros Hd Hok.
  assert (exact k [] false (markRec s r)) as He.
  { eapply exact_drop; [left; apply markRec_terminated, Hok|]. apply exact_mark, Hok. }
  pose proof (channel_mark s r (ro_chan _ _ _ _ _ Hok)) as Hc. destruct Hok.
  unfold markRec in *. destruct (r_handoff r) eqn:E; constructor; try done; rewrite ?E; try done; intros; eauto.
Qed.

Lemma contents_closed q : qinv q → q_closed q = true → contents q = [].
Proof. intros Hq Hc. unfold contents. by destruct (qi_closed q Hq Hc) as [-> ->]. Qed.

Lemma Close_closed sh q n sh' q' : Close sh q = (n, sh', q') → q_closed q' = true.
Proof.
  intros [(? & _ & _ & ->)|(_ & _ & -> & _)]%Close_cases; [done|].
  unfold signalFreeLocked, wakeLocked. by repeat case_match.
Qed.

(** Closing the mailbox turns what it holds into the lost tail. *)
Lemma exact_close k infl acc r sh n sh' q' h :
  qinv (r_q r) → Close sh (r_q r) = (n, sh', q') →
  exact k infl acc r → exact k infl acc (r <| r_handoff := h |> <| r_q := q' |>).
Proof.
  intros Hq E [(lost & He & Hl)|H]; [left|by right]. exists (contents (r_q r) ++ lost).
  pose proof (contents_Close _ _ _ _ _ E) as Hc. cbn. split.
  - rewrite He. f_equal. unfold hand. cbn. destruct (q_closed (r_q r)) eqn:Eq; rewrite Hc; cbn.
    + by rewrite (contents_closed _ Hq Eq).
    + by rewrite <- app_assoc.
  - intros _. left. by eapply Close_closed.
Qed.

(** terminateStream closes the mailbox. *)
Lemma rec_handoff_close k d ts i r s sh n sh' q' :
  rec_ok k d ts i r → r_handoff r = HMarked s → Close sh (r_q r) = (n, sh', q') →
  rec_ok k d ts i (r <| r_handoff := HSending |> <| r_q := q' |>).
Proof.
  intros Hok Hh E.
  pose proof (exact_close k _ _ r sh n sh' q' HSending (ro_q _ _ _ _ _ Hok) E (ro_exact _ _ _ _ _ Hok)) as He.
  destruct Hok. rewrite Hh in *. constructor; try done; cbn.
  - intros _. by apply ro_marked0.
  - by eapply qinv_Close.
  - intros _. left. by apply ro_marked0.
  - intros. by eapply Close_closed.
  - destruct ro_chan0 as (a & b & H1 & [H2|[_ H2]]); [|congruence]. exists a, b. cbn. auto.
Qed.

(** Close closes a mailbox. *)
Lemma rec_close_mailbox k d ts i r sh n sh' q' :
  (3 ≤ k)%nat → rec_ok k d ts i r → Close sh (r_q r) = (n, sh', q') →
  rec_ok k d ts i (r <| r_q := q' |>).
Proof.
  intros Hk Hok E.
  pose proof (exact_close k _ _ r sh n sh' q' (r_handoff r) (ro_q _ _ _ _ _ Hok) E (ro_exact _ _ _ _ _ Hok)) as He.
  destruct Hok. constructor; try done; cbn.
  - by eapply qinv_Close.
  - intros _. by right.
  - intros. by eapply Close_closed.
Qed.

(** The end of terminateStream, with or without the nil. *)
Lemma rec_handoff_done k d ts i r :
  rec_ok k d ts i r → r_handoff r = HSending → rec_ok k d ts i (r <| r_handoff := HDone |>).
Proof.
  intros [] Hh. rewrite Hh in *. constructor; try done; cbn.
  - intros _. by apply ro_marked0.
  - destruct ro_chan0 as (a & b & H1 & [H2|[_ H2]]); [|congruence]. exists a, b. cbn. auto.
Qed.

Lemma rec_handoff_send k d ts i r :
  rec_ok k d ts i r → r_handoff r = HSending → r_ch r = [] →
  rec_ok k d ts i (r <| r_ch := [None] |> <| r_handoff := HDone |>).
Proof.
  intros [] Hh Hc. rewrite Hh in *. constructor; try done; cbn.
  - intros _. by apply ro_marked0.
  - destruct ro_chan0 as (a & b & H1 & [H2|[_ H2]]); [|congruence]. rewrite Hc, app_nil_r in H2.
    exists (a ++ b), []. cbn. rewrite app_nil_r. split; [done|]. right. by rewrite H2.
Qed.

(** ** The worker *)
Lemma rec_pop k d ts i r sh o sh' q' :
  rec_ok k d ts i r → r_worker r = WPop → Pop sh (r_q r) = (o, sh', q') →
  rec_ok k d ts i (r <| r_worker := match o with
                                    | Popped it => WHand it | PopClosed => WDone | PopParked ch => WParked ch
                                    end |> <| r_q := q' |>).
Proof.
  intros [] Hw E. pose proof (qinv_Pop _ _ _ _ _ ro_q0 E) as Hq'.
  pose proof (contents_Pop _ _ _ _ _ E) as Hc.
  assert (q_closed q' = q_closed (r_q r)) as Hcl.
  { apply Pop_cases in E as [(? & ? & _ & _ & -> & _)|[(? & ? & _ & _ & _ & -> & _)
      |[(_ & _ & _ & -> & _)|(? & _ & _ & _ & -> & _)]]]; [..|done|];
      unfold signalFreeLocked, park_wake; by repeat case_match. }
  rewrite Hw in *.
  constructor; try done; cbn; rewrite ?Hcl; try done.
  - intros Hk. by specialize (ro_worker0 Hk).
  - intros Hp. destruct (ro_owner0 Hp) as [?|[?|?]]; [done|by right; left|by right; right].
  - by destruct o.
  - destruct ro_exact0 as [(lost & He & Hl)|[[?|?] _]]; [|congruence..]. left. exists lost.
    cbn. rewrite Hcl. split; [|done]. rewrite He. f_equal. unfold hand. cbn. rewrite Hw, Hc.
    destruct o; cbn; done.
Qed.

Lemma rec_wake k d ts i r ch :
  rec_ok k d ts i r → r_worker r = WParked ch → rec_ok k d ts i (r <| r_worker := WPop |>).
Proof.
  intros [] Hw. rewrite Hw in *. constructor; try done; cbn.
  - intros Hk. by specialize (ro_worker0 Hk).
  - intros Hp. destruct (ro_owner0 Hp) as [?|[?|?]]; [done|by right; left|by right; right].
  - destruct ro_exact0 as [(lost & He & Hl)|[[?|?] _]]; [|congruence..]. left. exists lost.
    cbn. split; [|done]. rewrite He. unfold hand. cbn. by rewrite Hw.
Qed.

(** The worker hands its item over. *)
Lemma rec_hand k d ts i r it :
  rec_ok k d ts i r → r_worker r = WHand it → r_ch r = [] →
  rec_ok k d ts i (r <| r_ch := [conv it] |> <| r_wsent := r_wsent r ++ [conv it] |>
                     <| r_worker := if isClose it then WDone else WPop |>).
Proof.
  intros [] Hw Hc. rewrite Hw in *.
  destruct ro_exact0 as [(lost & He & Hl)|[[?|?] _]]; [|congruence..].
  unfold hand in He. rewrite Hw in He. cbn in He.
  constructor; try done; cbn.
  - intros Hk. by specialize (ro_worker0 Hk).
  - intros Hp. destruct (ro_owner0 Hp) as [?|[?|?]]; [done|by right; left|by right; right].
  - by destruct (isClose it).
  - rewrite He. exists (map conv (contents (r_q r) ++ lost ++ inflight d i)). by rewrite <- app_assoc.
  - left. exists lost. cbn. split; [|done]. rewrite He, <- app_assoc. f_equal.
    unfold hand. cbn. by destruct (isClose it).
  - destruct ro_chan0 as (a & b & H1 & H2). rewrite Hc, app_nil_r in H2. exists a, (b ++ [conv it]). cbn. rewrite H1.
    split; [by rewrite app_assoc|]. destruct H2 as [->|[-> ?]]; [left|right]; rewrite <- app_assoc; done.
Qed.

(** The worker gives its item up: the carrier closed, or the consumer stalled. *)
Lemma rec_worker_closed k d ts i r it :
  (2 ≤ k)%nat → rec_ok k d ts i r → r_worker r = WHand it → rec_ok k d ts i (r <| r_worker := WDone |>).
Proof.
  intros Hk [] Hw. rewrite Hw in *. constructor; try done; cbn.
  - intros Hp. destruct (ro_owner0 Hp) as [?|[?|?]]; [done|by right; left|by right; right].
  - right. cbn. split; [by right|by right].
Qed.

Lemma rec_worker_stall_close k d ts i r it :
  rec_ok k d ts i r → r_worker r = WHand it →
  rec_ok k d ts i (r <| r_terminated := true |> <| r_worker := WDone |>).
Proof.
  intros [] Hw. rewrite Hw in *. constructor; try done; cbn.
  - intros Hp. destruct (ro_owner0 Hp) as [?|[?|?]]; [done|by right; left|by right; right].
  - intros _. by left.
  - right. cbn. split; [by right|by left].
Qed.

Lemma rec_worker_stall k d ts i r it s :
  rec_ok k d ts i r → r_worker r = WHand it → rec_ok k d ts i (markRec s (r <| r_worker := WTerm |>)).
Proof.
  intros Hok Hw. pose proof (channel_mark s (r <| r_worker := WTerm |>) (ro_chan _ _ _ _ _ Hok)) as Hc.
  destruct Hok. rewrite Hw in *.
  assert (exact k (inflight d i) (accepting d i) (markRec s (r <| r_worker := WTerm |>))) as He.
  { right. split; [left; unfold markRec; cbn; by destruct (r_handoff r)|left].
    by apply markRec_terminated. }
  unfold markRec in *. cbn in *. destruct (r_handoff r) eqn:E; constructor; try done; cbn; rewrite ?E; try done.
  all: try (intros Hk; by specialize (ro_worker0 Hk)).
  all: try (intros _; by left).
  all: destruct r; simpl in *; subst; done.
Qed.

Lemma rec_worker_done k d ts i r :
  rec_ok k d ts i r → r_worker r = WTerm → r_handoff r = HDone → rec_ok k d ts i (r <| r_worker := WDone |>).
Proof.
  intros [] Hw Hh. rewrite Hw, Hh in *. constructor; try done; cbn; rewrite ?Hh; try done.
  right. cbn. split; [by right|left; by apply ro_marked0].
Qed.

(** ** The consumer *)
Lemma rec_receive k d ts i r x rest :
  rec_ok k d ts i r → r_ch r = x :: rest → rec_ok k d ts i (r <| r_ch := rest |> <| r_recv := r_recv r ++ [x] |>).
Proof.
  intros [] Hc. constructor; try done. destruct ro_chan0 as (a & b & H1 & H2). rewrite Hc in H2.
  exists a, b. cbn. rewrite <- app_assoc. done.
Qed.

(** ** The dispatcher *)

(** The mailbox took the dispatcher's item. *)
Lemma rec_accept k d ts i r it q' :
  rec_ok k d ts i r → (∀ u, d ≠ DTerm i u) → inflight d i = [it] →
  accepting d i = true ∨ r_terminated r = false →
  q_closed (r_q r) = false → qinv q' → contents q' = contents (r_q r) ++ [it] → q_closed q' = false →
  rec_ok k DLoop ts i (r <| r_q := q' |>).
Proof.
  intros [] Hd Hi Ha Hc Hq' Hct Hc'. rewrite Hi in *. constructor; try done; cbn.
  - intros Hp. destruct (ro_owner0 Hp) as [?|[[u Hu]|?]]; [by left|by destruct (Hd u)|by right; right].
  - by rewrite Hc'.
  - destruct ro_exact0 as [(lost & He & Hl)|H]; [left|by right].
    assert (lost = []) as ->.
    { destruct lost as [|x lost]; [done|]. destruct (Hl ltac:(done)) as [?|[? ?]]; [congruence|].
      destruct Ha; congruence. }
    exists []. cbn. split; [|done]. rewrite He, Hct. unfold hand. cbn.
    by rewrite app_nil_r.
Qed.

(** The dispatcher moves on with its item. *)
Lemma rec_move k d d' ts i r q' :
  rec_ok k d ts i r → (∀ u, d ≠ DTerm i u) → inflight d' i = inflight d i →
  (accepting d' i = true → accepting d i = true ∨ r_terminated r = false) →
  (∀ it, d' = DFail i it → q_closed q' = true) →
  qinv q' → contents q' = contents (r_q r) → q_closed q' = q_closed (r_q r) →
  rec_ok k d' ts i (r <| r_q := q' |>).
Proof.
  intros [] Hd Hi Ha Hf Hq' Hct Hc'. constructor; try done; cbn; rewrite ?Hc'; try done.
  - intros Hp. destruct (ro_owner0 Hp) as [?|[[u Hu]|?]]; [by left|by destruct (Hd u)|by right; right].
  - destruct ro_exact0 as [(lost & He & Hl)|H]; [left|by right]. exists lost. cbn.
    rewrite Hi, Hct, Hc'. split; [done|]. intros Hn. destruct (Hl Hn) as [?|[Ht ?]]; [by left|right].
    split; [done|]. destruct (accepting d' i) eqn:E; [|done]. destruct (Ha eq_refl); congruence.
Qed.

(** A new frame is routed to the stream. *)
Lemma rec_route k ts i r it :
  rec_ok k DLoop ts i r →
  rec_ok k (DPush i it) ts i (r <| r_callback := false |> <| r_routed := r_routed r ++ [it] |>).
Proof.
  intros []. constructor; try done; cbn.
  - intros Hp. destruct (ro_owner0 Hp) as [?|[[u Hu]|?]]; [by left|done|by right; right].
  - rewrite map_app. by apply prefix_app_r.
  - rewrite bool_decide_true by done.
    destruct ro_exact0 as [(lost & He & Hl)|H]; [left|by right]. exists lost. cbn. split; [|done].
    rewrite map_app, He. unfold hand. cbn. by rewrite !map_app, !app_nil_r, <- !app_assoc.
Qed.

Lemma newMailbox_ok l : qinv (newMailbox l) ∧ contents (newMailbox l) = [] ∧ q_closed (newMailbox l) = false.
Proof.
  split; [|done]. destruct (qinv_new (MaxFramesPerStream l) (MaxBytesPerStream l) true (MaxBytesTotal l)).
  by constructor.
Qed.

Lemma rec_new k d ts i id cb l :
  (k < 4)%nat → about d ≠ Some i → rec_ok k d ts i (newStreamRec id cb l).
Proof.
  intros Hk Hd. destruct (inflight_other d i Hd) as [Hi Ha]. destruct (newMailbox_ok l) as (Hq & Hc & Hcl).
  constructor; try done; cbn; rewrite ?Hi, ?Ha; try done.
  - lia.
  - intros it ->. done.
  - left. by exists [].
  - exists [], []. cbn. split; [done|by left].
Qed.

(** ** Every action keeps the invariant *)

Lemma active_krank c i : cinv c → about (disp c) = Some i → (krank (closer c) < 5)%nat.
Proof.
  intros Hc Hd. destruct (decide (5 ≤ krank (closer c))%nat) as [H|]; [|lia].
  destruct (ci_disp c Hc H) as [E|E]; rewrite E in Hd; done.
Qed.

Lemma loop_krank c : cinv c → disp c = DLoop → (krank (closer c) < 5)%nat.
Proof.
  intros Hc Hd. destruct (decide (5 ≤ krank (closer c))%nat) as [H|]; [|lia].
  destruct (ci_disp c Hc H) as [E|E]; rewrite E in Hd; done.
Qed.

Lemma cinv_create id cb c i c' :
  cinv c → closing c = false → createStreamLocked id cb c = (Some i, c') →
  cinv c' ∧ (i < length (allStreams c'))%nat ∧ disp c' = disp c ∧ closing c' = closing c ∧ closer c' = closer c
  ∧ terms c' = terms c.
Proof.
  intros Hc Hcl. unfold createStreamLocked. destruct (id =? 0); [done|].
  destruct (streams c !! id) as [j|] eqn:E; intros [= <- <-].
  - split_and!; try done. by eapply ci_streams.
  - assert (krank (closer c) < 1)%nat as Hk.
    { destruct (decide (1 ≤ krank (closer c))%nat) as [H|]; [|lia]. apply (ci_closing c Hc) in H. congruence. }
    split_and!; try done; [|cbn; rewrite length_app; cbn; lia].
    destruct Hc. constructor; try done; cbn.
    + intros j Hj. rewrite length_app. specialize (ci_about0 j Hj). lia.
    + intros id' j. rewrite length_app. destruct (decide (id = id')) as [<-|].
      * rewrite lookup_insert_eq. intros [= <-]. cbn. lia.
      * rewrite lookup_insert_ne by done. intros Hj. specialize (ci_streams0 _ _ Hj). lia.
    + intros j r [Hj|[Hj Hr]]%lookup_app_Some; [by apply ci_recs0|].
      apply list_lookup_singleton_Some in Hr as [Hr <-]. apply rec_new; [lia|].
      intros Ha. specialize (ci_about0 j Ha). lia.
Qed.

Lemma iter_bump n f c :
  ∃ sh, Nat.iter n (bumpStats f) c = c <| c_shared := sh |>
        ∧ sh_budget sh = sh_budget (c_shared c) ∧ sh_items sh = sh_items (c_shared c).
Proof.
  induction n as [|n (sh & IH & H1 & H2)]; [by exists (c_shared c); destruct c|].
  exists (sh <| sh_stats := f (sh_stats sh) |>).
  change (Nat.iter (S n) (bumpStats f) c) with (bumpStats f (Nat.iter n (bumpStats f) c)). rewrite IH. by destruct c.
Qed.

(** The record changed and the dispatcher went from [i] to [i] or to its loop. *)
Lemma cinv_disp_rec i r r' c c' :
  cinv c → about (disp c) = Some i → allStreams c !! i = Some r →
  same_rest c c' → allStreams c' = <[i := r']> (allStreams c) →
  about (disp c') = None ∨ about (disp c') = Some i →
  rec_ok (krank (closer c)) (disp c') (terms c) i r' → cinv c'.
Proof.
  intros Hc Ha Hr Hs He Hd Hok. eapply (cinv_update i r' c c'); try done.
  - right. split_and!; [by eapply active_krank|by right|done].
  - by eapply lookup_lt_Some.
Qed.

Lemma cinv_fail i lostData r c :
  cinv c → about (disp c) = Some i → allStreams c !! i = Some r → (∀ u, disp c ≠ DTerm i u) →
  cinv (failUndeliverableData i lostData r c).
Proof.
  intros Hc Ha Hr Hd. pose proof (ci_recs c Hc i r Hr) as Hok. unfold failUndeliverableData.
  destruct (r_terminated r) eqn:Et.
  - eapply (cinv_disp_rec i r r); try done; [by rewrite list_insert_id|by left|].
    eapply rec_leave; [by left|by left|exact Hd|done].
  - destruct (iter_bump (Z.to_nat (QueueDataLen (r_q r) + (if lostData then 1 else 0))) droppedDataFrame c)
      as (sh & -> & _).
    pose proof (terminateStream_spec i true (c <| c_shared := sh |> <| disp := DTerm i true |>) r) as Hspec.
    destruct (Hspec Hr) as (E & Hs & Hd' & _).
    eapply (cinv_disp_rec i r (markRec true r)); [done..|exact Hs|exact E|rewrite Hd'; by right|].
    rewrite Hd'. by eapply rec_fail.
Qed.

Lemma accept_open (sh : shared) q it sh' q' :
  qinv q → fits_primary sh q it = true → acceptPrimary sh q it = (sh', q') →
  q_closed q = false ∧ qinv q' ∧ contents q' = contents q ++ [it] ∧ q_closed q' = false.
Proof.
  intros Hq Hf Ha. assert (q_closed q = false) as Hc by (unfold fits_primary in Hf; by bools).
  split_and!; [done|by eapply qinv_acceptPrimary|by eapply contents_acceptPrimary|].
  apply acceptPrimary_spec in Ha as [-> _]. unfold wakeLocked. by destruct (_ >? _).
Qed.

Lemma carry_open (sh : shared) q it sh' q' :
  qinv q → fits_carry sh q it = true → acceptCarry sh q it = (sh', q') →
  q_closed q = false ∧ qinv q' ∧ contents q' = contents q ++ [it] ∧ q_closed q' = false.
Proof.
  intros Hq Hf Ha. assert (q_closed q = false) as Hc by (unfold fits_carry in Hf; by bools).
  split_and!; [done|by eapply qinv_acceptCarry|by eapply contents_acceptCarry|].
  apply acceptCarry_spec in Ha as [-> _]. unfold wakeLocked. by destruct (_ >? _).
Qed.

Lemma cinv_push c c' i it :
  cinv c → disp c = DPush i it → deliverStep (DPush i it) c = Some c' → cinv c'.
Proof.
  intros Hc Hd. cbn [deliverStep]. destruct (allStreams c !! i) as [r|] eqn:Hr; [|done]. cbn [mbind option_bind].
  pose proof (ci_recs c Hc i r Hr) as Hok. rewrite Hd in Hok.
  assert (about (disp c) = Some i) as Ha by (by rewrite Hd).
  destruct (r_terminated r) eqn:Et.
  { intros [= <-]. eapply (cinv_disp_rec i r r); try done; [by rewrite list_insert_id|by left|].
    eapply rec_leave; [by left|by left| |done]. done. }
  destruct (TryPushReason _ _ _) as [[[ok reason] sh] q] eqn:E. intros [= <-].
  apply TryPushReason_cases in E as [Hok' E]. pose proof (ro_q _ _ _ _ _ Hok) as Hq. destruct ok.
  - symmetry in Hok'. destruct (accept_open _ _ _ _ _ Hq Hok' E) as (H1 & H2 & H3 & H4).
    eapply (cinv_disp_rec i r (r <| r_q := _ |>)); try done; [by left|].
    eapply rec_accept; try done; [by cbn; rewrite bool_decide_true|by right].
  - destruct E as [-> ->]. eapply (cinv_disp_rec i r (r <| r_q := _ |>)); try done; cbn [disp putQ putRec setter].
    { destruct (isClose it); [by right|]. by destruct reason; right. }
    eapply rec_move; try done; [by destruct (isClose it), reason|by right|].
    by destruct (isClose it), reason.
Qed.

Lemma cinv_carry c c' i it :
  cinv c → disp c = DCarry i it → deliverStep (DCarry i it) c = Some c' → cinv c'.
Proof.
  intros Hc Hd. cbn [deliverStep]. destruct (allStreams c !! i) as [r|] eqn:Hr; [|done]. cbn [mbind option_bind].
  pose proof (ci_recs c Hc i r Hr) as Hok. rewrite Hd in Hok.
  assert (about (disp c) = Some i) as Ha by (by rewrite Hd).
  destruct (r_terminated r) eqn:Et.
  { intros [= <-]. eapply (cinv_disp_rec i r r); try done; [by rewrite list_insert_id|by left|].
    eapply rec_leave; [by left|by left| |done]. done. }
  destruct (TryCarry _ _ _) as [[[ok reason] sh] q] eqn:E. intros [= <-].
  apply TryCarry_cases in E as [Hok' E]. pose proof (ro_q _ _ _ _ _ Hok) as Hq. destruct ok.
  - symmetry in Hok'. destruct (carry_open _ _ _ _ _ Hq Hok' E) as (H1 & H2 & H3 & H4).
    eapply (cinv_disp_rec i r (r <| r_q := _ |>)); try done; [by left|].
    eapply rec_accept; try done; [by cbn; rewrite bool_decide_true|by right].
  - destruct E as [-> ->]. eapply (cinv_disp_rec i r (r <| r_q := _ |>)); try done; [by right|].
    eapply rec_move; try done. by right.
Qed.

Lemma cinv_park c c' i it :
  cinv c → disp c = DPark i it → deliverStep (DPark i it) c = Some c' → cinv c'.
Proof.
  intros Hc Hd. cbn [deliverStep]. destruct (allStreams c !! i) as [r|] eqn:Hr; [|done]. cbn [mbind option_bind].
  pose proof (ci_recs c Hc i r Hr) as Hok. rewrite Hd in Hok.
  assert (about (disp c) = Some i) as Ha by (by rewrite Hd).
  destruct (PushPark _ _ _) as [[o sh] q] eqn:E. intros [= <-].
  pose proof (ro_q _ _ _ _ _ Hok) as Hq. pose proof (qinv_PushPark _ _ _ _ _ _ Hq E) as Hq'.
  apply PushPark_cases in E as [(-> & Hcl & -> & ->)|[(-> & Hf & E)|[(-> & _ & Hf & E)|(ch & -> & Hcl & _ & _ & -> & -> & _)]]].
  - eapply (cinv_disp_rec i r (r <| r_q := _ |>)); try done; [by right|]. eapply rec_move; done.
  - destruct (accept_open _ _ _ _ _ Hq Hf E) as (H1 & H2 & H3 & H4).
    eapply (cinv_disp_rec i r (r <| r_q := _ |>)); try done; [by left|].
    eapply rec_accept; try done; [by cbn; rewrite bool_decide_true|left; by cbn; rewrite bool_decide_true].
  - destruct (carry_open _ _ _ _ _ Hq Hf E) as (H1 & H2 & H3 & H4).
    eapply (cinv_disp_rec i r (r <| r_q := _ |>)); try done; [by left|].
    eapply rec_accept; try done; [by cbn; rewrite bool_decide_true|left; by cbn; rewrite bool_decide_true].
  - eapply (cinv_disp_rec i r (r <| r_q := _ |>)); try done; [by right|]. eapply rec_move; try done; [by left| |];
      unfold park_free; by destruct (free (r_q r)).
Qed.

(** The remaining phases do not touch the mailbox. *)
Lemma cinv_deliver c c' : cinv c → deliverStep (disp c) c = Some c' → cinv c'.
Proof.
  intros Hc. destruct (disp c) as [| |i it|i it|i it|i it|i it ch|i it|i it|i u|] eqn:Hd; try done.
  - by eapply cinv_push.
  - by eapply cinv_carry.
  - cbn [deliverStep]. destruct (allStreams c !! i) as [r|] eqn:Hr; [|done]. intros [= <-].
    pose proof (ci_recs c Hc i r Hr) as Hok. rewrite Hd in Hok.
    eapply (cinv_disp_rec i r r); try done; [by rewrite Hd|by rewrite list_insert_id|by destruct (r_terminated r); [left|right]|].
    cbn. destruct (r_terminated r) eqn:Et; [eapply rec_leave; [by left|by left| |exact Hok]; done|].
    replace r with (r <| r_q := r_q r |>) by (by destruct r). eapply rec_move; [exact Hok|try done..]; [by left|apply Hok].
  - by eapply cinv_park.
  - cbn [deliverStep]. destruct (allStreams c !! i) as [r|] eqn:Hr; [|done]. cbn [mbind option_bind].
    case_bool_decide; [|done]. intros [= <-].
    pose proof (ci_recs c Hc i r Hr) as Hok. rewrite Hd in Hok.
    eapply (cinv_disp_rec i r r); try done; [by rewrite Hd|by rewrite list_insert_id|by right|].
    replace r with (r <| r_q := r_q r |>) by (by destruct r). eapply rec_move; [exact Hok|try done..]; [by left|apply Hok].
  - cbn [deliverStep]. destruct (allStreams c !! i) as [r|] eqn:Hr; [|done]. cbn [mbind option_bind].
    pose proof (ci_recs c Hc i r Hr) as Hok. rewrite Hd in Hok.
    destruct (_ && _); intros [= <-]; [apply cinv_fail; by rewrite ?Hd|].
    eapply (cinv_disp_rec i r r); try done; [by rewrite Hd|by rewrite list_insert_id|by left|].
    eapply rec_leave; [right; by eapply ro_fail|by left| |exact Hok]; done.
  - cbn [deliverStep]. destruct (allStreams c !! i) as [r|] eqn:Hr; [|done]. cbn [mbind option_bind].
    pose proof (ci_recs c Hc i r Hr) as Hok. rewrite Hd in Hok.
    destruct (r_terminated r) eqn:Et; intros [= <-]; [|apply cinv_fail; by rewrite ?Hd].
    eapply (cinv_disp_rec i r r); try done; [by rewrite Hd|by rewrite list_insert_id|by left|].
    eapply rec_leave; [by left|by left| |exact Hok]; done.
  - cbn [deliverStep]. destruct (allStreams c !! i) as [r|] eqn:Hr; [|done]. cbn [mbind option_bind].
    case_bool_decide as Hh; [|done]. intros [= <-].
    pose proof (ci_recs c Hc i r Hr) as Hok. rewrite Hd in Hok.
    eapply (cinv_disp_rec i r r); try done; [by rewrite Hd|by destruct u|destruct u; by rewrite list_insert_id|by left|].
    by eapply rec_term_done.
Qed.

(** A change that leaves records, dispatcher and close alone. *)
Lemma cinv_same c c' :
  cinv c → same_rest c c' → allStreams c' = allStreams c → disp c' = disp c → cinv c'.
Proof.
  intros [] (E1 & E2 & E3 & E4 & E5 & E6 & E7) Ea Ed.
  constructor; rewrite ?E1, ?E2, ?E3, ?E4, ?E5, ?E6, ?E7, ?Ea, ?Ed; done.
Qed.

Lemma cinv_rec i r r' c c' :
  cinv c → allStreams c !! i = Some r → same_rest c c' → allStreams c' = <[i := r']> (allStreams c) →
  disp c' = disp c → rec_ok (krank (closer c)) (disp c) (terms c) i r' → cinv c'.
Proof.
  intros Hc Hr Hs Ha Hd Hok. eapply (cinv_update i r'); try done; [by left|by eapply lookup_lt_Some|by rewrite Hd].
Qed.

Lemma cinv_pop_frame f fs c : cinv c → c_frames c = f :: fs → cinv (c <| c_frames := fs |>).
Proof. intros [] E. rewrite E in *. constructor; try done. by inversion ci_ids0. Qed.

Lemma cinv_dterm i s c :
  cinv c → disp c = DLoop → (i < length (allStreams c))%nat →
  cinv (terminateStream i s (c <| disp := DTerm i false |>)).
Proof.
  intros Hc Hd [r Hr]%lookup_lt_is_Some.
  pose proof (terminateStream_spec i s (c <| disp := DTerm i false |>) r) as Hspec.
  destruct (Hspec Hr) as (E & Hs & Hd' & _). pose proof (ci_recs c Hc i r Hr) as Hok. rewrite Hd in Hok.
  eapply (cinv_update i (markRec s r) c); [done|exact Hs|exact E| |by eapply lookup_lt_Some|].
  - right. split_and!; [by apply loop_krank|left; by rewrite Hd|right; by rewrite Hd'].
  - rewrite Hd'. by apply rec_dterm.
Qed.

(** The routed frame's record, once it exists. *)
Lemma cinv_route_rec i it r c c' :
  cinv c → disp c = DLoop → allStreams c !! i = Some r → same_rest c c' →
  allStreams c' = <[i := r <| r_callback := false |> <| r_routed := r_routed r ++ [it] |>]> (allStreams c) →
  disp c' = DPush i it → cinv c'.
Proof.
  intros Hc Hd Hr Hs Ha Hd'. pose proof (ci_recs c Hc i r Hr) as Hok. rewrite Hd in Hok.
  eapply (cinv_update i _ c c'); [done|done|exact Ha| |by eapply lookup_lt_Some|].
  - right. rewrite Hd', Hd. split_and!; [by apply loop_krank|by left|by right].
  - rewrite Hd'. by apply rec_route.
Qed.

Lemma cinv_route f c :
  cinv c → disp c = DLoop → StreamID f ≠ 0 → cinv (routeFrame f c).
Proof.
  intros Hc Hd Hid. unfold routeFrame.
  assert (∀ i c1, cinv c1 → disp c1 = DLoop →
    cinv (match allStreams c1 !! i with
          | None => c1
          | Some r =>
              let it := if Type_ f =? FrameClose then mkItem [] true else mkItem (Payload f) false in
              let c := if r_callback r then emitEv (EvNewStream (StreamID f) (Type_ f) i) c1 else c1 in
              putRec i (r <| r_callback := false |> <| r_routed := r_routed r ++ [it] |>) c <| disp := DPush i it |>
          end)) as Hmain.
  { intros i c1 Hc1 Hd1. destruct (allStreams c1 !! i) as [r|] eqn:Hr; [|done].
    eapply (cinv_route_rec i _ r c1); try done; by destruct (r_callback r). }
  destruct (streams c !! StreamID f) as [i|] eqn:E; [by apply Hmain|].
  destruct (onNewStream c && negb (closing c)) eqn:En; [|done].
  apply andb_true_iff in En as [_ Hcl]. apply negb_true_iff in Hcl.
  destruct (createStreamLocked (StreamID f) true c) as [[i|] c1] eqn:Ec.
  - destruct (cinv_create _ _ _ _ _ Hc Hcl Ec) as (Hc1 & _ & Hd1 & _). apply Hmain; [done|]. by rewrite Hd1.
  - unfold createStreamLocked in Ec. rewrite E in Ec. destruct (StreamID f =? 0) eqn:E0; [|done]. bools. done.
Qed.

Lemma cinv_dispatchFrame f c :
  cinv c → disp c = DLoop → (isStreamFrame (Type_ f) = true → StreamID f ≠ 0) → cinv (dispatchFrame f c).
Proof.
  intros Hc Hd Hid. unfold dispatchFrame. destruct (isStreamFrame (Type_ f)); [by apply cinv_route; auto|].
  destruct (Type_ f =? FrameReset); [destruct (ParseResetPayload _) as [[]|]; [by eapply cinv_same|done]|].
  destruct (Type_ f =? FrameBootstrapAck); [destruct (ParseBootstrapAckPayload _); [by eapply cinv_same|done]|].
  destruct (Type_ f =? FramePing); [destruct (closing c); [done|by eapply cinv_same]|].
  destruct (Type_ f =? FramePong); [by eapply cinv_same|].
  destruct (Type_ f =? FrameCredit); [|done]. cbv zeta. destruct (ValidateCreditPayload _); [|by eapply cinv_same].
  destruct (streams c !! StreamID f) as [i|] eqn:E; [|done].
  apply cinv_dterm; [done|done|]. by eapply ci_streams.
Qed.

Lemma cinv_dispatch c c' : cinv c → Dispatch c = Some c' → cinv c'.
Proof.
  intros Hc. unfold Dispatch. destruct (disp c) eqn:Hd; rewrite <- ?Hd; try (by apply cinv_deliver).
  destruct (c_frames c) as [|f fs] eqn:Ef.
  - destruct (framesClosed c); [|done]. intros [= <-]. pose proof (ci_recs c Hc) as Hrecs. rewrite Hd in Hrecs.
    destruct Hc. constructor; try done; [by right|].
    intros i r Hr. eapply rec_ok_disp; [..|by apply Hrecs]; done.
  - intros [= <-]. apply cinv_dispatchFrame; [by eapply cinv_pop_frame|done|].
    pose proof (ci_ids c Hc) as Hids. rewrite Ef in Hids. by inversion Hids.
Qed.

(** A send cannot panic: an open channel is all the sender needs. *)
Lemma sendCh_open i x r r1 c c1 :
  r_chClosed r = false → sendCh i x r c = Some (r1, c1) → r_ch r = [] ∧ r1 = r <| r_ch := [x] |> ∧ c1 = c.
Proof. intros Hc. unfold sendCh. rewrite Hc. destruct (r_ch r); [|done]. by intros [= <- <-]. Qed.

Lemma not_closed k d ts i r : rec_ok k d ts i r → k ≠ 7%nat → r_chClosed r = false.
Proof. intros [] Hk. destruct (r_chClosed r); [by destruct Hk; auto|done]. Qed.

Lemma hand_open k d ts i r it : rec_ok k d ts i r → r_worker r = WHand it → r_chClosed r = false ∧ (k < 4)%nat.
Proof.
  intros Hok Hw. assert (k < 4)%nat.
  { destruct (decide (4 ≤ k)%nat) as [H|]; [|lia]. apply (ro_worker _ _ _ _ _ Hok) in H. congruence. }
  split; [|done]. eapply not_closed; [done|lia].
Qed.

Lemma cinv_worker i a c c' : cinv c → streamWorker i a c = Some c' → cinv c'.
Proof.
  intros Hc. unfold streamWorker. destruct (allStreams c !! i) as [r|] eqn:Hr; [|done]. cbn [mbind option_bind].
  pose proof (ci_recs c Hc i r Hr) as Hok. destruct (r_worker r) as [|ch|it| |] eqn:Hw; [..|done].
  - destruct (Pop _ _) as [[o sh] q] eqn:E. intros [= <-]. eapply (cinv_rec i r); try done. by eapply rec_pop.
  - case_bool_decide; [|done]. intros [= <-]. eapply (cinv_rec i r); try done. by eapply rec_wake.
  - destruct (hand_open _ _ _ _ _ _ Hok Hw) as [Ho _]. destruct a.
    + destruct (sendCh _ _ _ _) as [[r1 c1]|] eqn:E; [|done]. apply sendCh_open in E as (Hch & -> & ->); [|done].
      intros [= <-]. eapply (cinv_rec i r); try done. by eapply rec_hand.
    + destruct (closedCh c) eqn:Ecl; [|done]. intros [= <-]. eapply (cinv_rec i r); try done.
      eapply rec_worker_closed; [by apply (ci_closed c Hc)|done..].
    + destruct (isClose it).
      * intros [= <-]. eapply (cinv_rec i r); try done. by eapply rec_worker_stall_close.
      * intros [= <-].
        pose proof (terminateStream_spec i false (putRec i (r <| r_worker := WTerm |>) (bumpStats overflowTerminatedWorker c))
          (r <| r_worker := WTerm |>)) as Hspec.
        assert (i < length (allStreams c))%nat as Hlt by (by eapply lookup_lt_Some).
        destruct Hspec as (E & Hs & Hd' & _); [by apply list_lookup_insert_eq|].
        eapply (cinv_rec i r (markRec false (r <| r_worker := WTerm |>)));
          [done|done|exact Hs|etransitivity; [exact E|apply list_insert_insert_eq]|exact Hd'|by eapply rec_worker_stall].
  - case_bool_decide; [|done]. intros [= <-]. eapply (cinv_rec i r); try done. by eapply rec_worker_done.
Qed.

Lemma cinv_handoff i a c c' : cinv c → handoffStep i a c = Some c' → cinv c'.
Proof.
  intros Hc. unfold handoffStep. destruct (allStreams c !! i) as [r|] eqn:Hr; [|done]. cbn [mbind option_bind].
  pose proof (ci_recs c Hc i r Hr) as Hok. destruct (r_handoff r) as [|s| |] eqn:Hh; try done.
  - destruct (Close _ _) as [[n sh] q] eqn:E. intros [= <-].
    eapply (cinv_rec i r (r <| r_handoff := HSending |> <| r_q := q |>)); [done|done|..].
    1,2,3: by destruct (_ && _). by eapply rec_handoff_close.
  - assert (r_chClosed r = false) as Ho.
    { eapply not_closed; [done|]. intros Hk.
      destruct (ro_owner _ _ _ _ _ Hok) as [Hw|[[u Hd]|Ht]]; [by rewrite Hh|..].
      - rewrite (ro_worker _ _ _ _ _ Hok) in Hw by lia. done.
      - destruct (ci_disp c Hc) as [E|E]; [lia|congruence..].
      - rewrite (ci_terms c Hc) in Ht by lia. by apply not_elem_of_nil in Ht. }
    destruct a.
    + destruct (sendCh _ _ _ _) as [[r1 c1]|] eqn:E; [|done]. apply sendCh_open in E as (Hch & -> & ->); [|done].
      intros [= <-]. eapply (cinv_rec i r); try done. by eapply rec_handoff_send.
    + destruct (closedCh c); [|done]. intros [= <-]. eapply (cinv_rec i r); try done. by eapply rec_handoff_done.
    + intros [= <-]. eapply (cinv_rec i r); try done. by eapply rec_handoff_done.
Qed.

Lemma cinv_register id c : cinv c → cinv (snd (Register id c)).
Proof.
  intros Hc. unfold Register. destruct (closing c) eqn:Ecl; [done|]. destruct (id =? 0) eqn:E0; [done|]. cbn [orb].
  destruct (streams c !! id) eqn:E; [done|].
  destruct (createStreamLocked id false c) as [[i|] c'] eqn:Ec; [by eapply cinv_create|].
  unfold createStreamLocked in Ec. rewrite E0, E in Ec. done.
Qed.

Lemma cinv_terms ts c : cinv c → (krank (closer c) < 6)%nat → (∀ i, i ∈ terms c → i ∈ ts) → cinv (c <| terms := ts |>).
Proof.
  intros [] Hk Hsub. constructor; try done; cbn; [lia|].
  intros i r Hr. eapply rec_ok_terms; [|by apply ci_recs0]. auto.
Qed.

Lemma open_krank c : cinv c → closing c = false → krank (closer c) = 0%nat.
Proof.
  intros Hc Hcl. destruct (decide (1 ≤ krank (closer c))%nat) as [H|]; [|lia].
  apply (ci_closing c Hc) in H. congruence.
Qed.

(** A tracked Terminate marks its stream. *)
Lemma cinv_terminate_at i c :
  cinv c → closing c = false → cinv (terminateStream i true (c <| terms := terms c ++ [i] |>)).
Proof.
  intros Hc Hcl. pose proof (open_krank c Hc Hcl) as Hk.
  assert (cinv (c <| terms := terms c ++ [i] |>)) as Hc1 by (apply cinv_terms; [done|lia|set_solver]).
  destruct (allStreams c !! i) as [r|] eqn:Hr.
  - pose proof (terminateStream_spec i true (c <| terms := terms c ++ [i] |>) r) as Hspec.
    destruct (Hspec Hr) as (E & Hs & Hd & _). pose proof (ci_recs _ Hc1 i r Hr) as Hok.
    eapply (cinv_rec i r (markRec true r)); [exact Hc1|exact Hr|exact Hs|exact E|exact Hd|].
    apply rec_mark; [done|]. right; right. cbn. set_solver.
  - unfold terminateStream. cbn. by rewrite Hr.
Qed.

Lemma cinv_Terminate id c : cinv c → cinv (Terminate id c).
Proof.
  intros Hc. unfold Terminate. destruct (closing c) eqn:Ecl.
  - by destruct (streams c !! id).
  - destruct (streams c !! id) as [i|] eqn:E; [by apply cinv_terminate_at|].
    destruct (createStreamLocked id false c) as [[i|] c'] eqn:Ec.
    + destruct (cinv_create _ _ _ _ _ Hc Ecl Ec) as (Hc' & _ & _ & Hcl' & _).
      apply cinv_terminate_at; [done|]. by rewrite Hcl'.
    + unfold createStreamLocked in Ec. rewrite E in Ec. destruct (id =? 0); [|done]. by injection Ec as <-.
Qed.

Lemma elem_of_delete_ne (k : nat) (l : list nat) x i : l !! k = Some i → x ≠ i → x ∈ l → x ∈ delete k l.
Proof.
  intros Hk Hne [j Hj]%list_elem_of_lookup. assert (j ≠ k) by congruence.
  destruct (decide (j < k)%nat).
  - apply (list_elem_of_lookup_2 _ j). by rewrite list_lookup_delete_lt.
  - apply (list_elem_of_lookup_2 _ (j - 1)). rewrite list_lookup_delete_ge by lia.
    by replace (S (j - 1)) with j by lia.
Qed.

Lemma cinv_termReturn k c c' : cinv c → terminateReturn k c = Some c' → cinv c'.
Proof.
  intros Hc. unfold terminateReturn. destruct (terms c !! k) as [i|] eqn:Hk; [|done]. cbn [mbind option_bind].
  destruct (allStreams c !! i) as [r|] eqn:Hr; [|done]. cbn [mbind option_bind]. case_bool_decide as Hh; [|done].
  intros [= <-]. destruct Hc. constructor; try done; cbn.
  - intros H6. by rewrite (ci_terms0 H6) in Hk.
  - intros j r' Hj. eapply rec_ok_terms; [|by apply ci_recs0].
    intros Hp Hin. destruct (decide (j = i)) as [->|]; [rewrite Hr in Hj; injection Hj as <-; by rewrite Hh in Hp|].
    by eapply elem_of_delete_ne.
Qed.

(** Close moves on; the records only see a later phase. *)
Lemma rec_ok_later k k' d ts i r :
  (k ≤ k' ≤ 6)%nat → ((k' < 4)%nat ∨ (4 ≤ k)%nat ∨ r_worker r = WDone) →
  rec_ok k d ts i r → rec_ok k' d ts i r.
Proof.
  intros Hk Hw []. constructor; try done.
  - intros Hc. specialize (ro_ch0 Hc). lia.
  - intros ?. destruct Hw as [?|[?|?]]; [lia|auto|done].
  - intros Hc. destruct (ro_qclosed0 Hc); [by left|right; lia].
  - destruct ro_exact0 as [?|[? [?|?]]]; [by left|right; split; [done|by left]|right; split; [done|right; lia]].
Qed.

Lemma cinv_later c c' :
  cinv c → streams c' = streams c → c_frames c' = c_frames c → panicked c' = panicked c →
  disp c' = disp c → terms c' = terms c → allStreams c' = allStreams c →
  (krank (closer c) ≤ krank (closer c') ≤ 6)%nat →
  (closing c' = true ↔ (1 ≤ krank (closer c'))%nat) → (closedCh c' = true ↔ (2 ≤ krank (closer c'))%nat) →
  ((5 ≤ krank (closer c'))%nat → disp c = DNew ∨ disp c = DDone) →
  ((6 ≤ krank (closer c'))%nat → terms c = []) →
  ((krank (closer c') < 4)%nat ∨ (4 ≤ krank (closer c))%nat ∨ allWorkersDone c = true) → cinv c'.
Proof.
  intros [] E1 E2 E3 E4 E5 E6 Hk H1 H2 H3 H4 H5.
  constructor; rewrite ?E1, ?E2, ?E3, ?E4, ?E5, ?E6; try done.
  intros i r Hr. eapply rec_ok_later; [exact Hk| |by apply ci_recs0].
  destruct H5 as [?|[?|Hw]]; [by left|by right; left|]. right; right.
  unfold allWorkersDone in Hw. rewrite forallb_forall in Hw.
  assert (In r (allStreams c)) as Hin by (eapply list_elem_of_In, list_elem_of_lookup_2, Hr).
  specialize (Hw r Hin). by destruct (r_worker r).
Qed.

Lemma fold_delete_Some (l : list streamRec) (m : gmap Z nat) id i :
  foldl (λ m r, delete (r_id r) m) m l !! id = Some i → m !! id = Some i.
Proof.
  revert m. induction l as [|r l IH]; intros m Hi; [done|]. cbn in Hi. apply IH in Hi.
  by apply lookup_delete_Some in Hi as [_ ?].
Qed.

Lemma cinv_closeChannels c : cinv c → closer c = KTerminates → cinv (closeChannels (c <| closer := KChannels |>)).
Proof.
  intros Hc Hk. pose proof (ci_disp c Hc) as Hd. pose proof (ci_terms c Hc) as Ht. pose proof (ci_recs c Hc) as Hrecs.
  pose proof (ci_closing c Hc) as H1. pose proof (ci_closed c Hc) as H2. rewrite Hk in *. cbn [krank] in *.
  specialize (Hd ltac:(lia)). specialize (Ht ltac:(lia)).
  constructor; cbn; try apply Hc; try (intros _); try done.
  - split; [intros _; lia|intros _; apply H1; lia].
  - split; [intros _; lia|intros _; apply H2; lia].
  - intros i Hi. by destruct Hd as [E|E]; rewrite E in Hi.
  - intros id i Hi. rewrite length_map. apply (ci_streams c Hc id). by eapply fold_delete_Some.
  - intros i r'. rewrite list_lookup_fmap. destruct (allStreams c !! i) as [r|] eqn:Hr; [|done].
    intros [= <-]. destruct (Hrecs i r Hr). constructor; try done; cbn.
    + intros _. apply ro_worker0. lia.
    + intros Hq. destruct (ro_qclosed0 Hq); [by left|right; lia].
    + destruct ro_exact0 as [?|[? [?|?]]]; [by left|right; split; [done|by left]|right; split; [done|right; cbn; lia]].
Qed.

(** The two latches against the phase number. *)
Ltac iffk H1 H2 :=
  split; [first [intros _; lia|intros Hx; first [apply H1 in Hx|apply H2 in Hx]; lia]
         |intros Hx; first [done|exfalso; lia|apply H1; lia|apply H2; lia]].

Lemma cinv_close c c' : cinv c → closeStep c = Some c' → cinv c'.
Proof.
  intros Hc. unfold closeStep. pose proof (ci_closing c Hc) as H1. pose proof (ci_closed c Hc) as H2.
  destruct (closer c) as [| | |n| | | |] eqn:Hk; cbn [krank] in *.
  - intros [= <-]. eapply (cinv_later c); try done; rewrite ?Hk; cbn; try lia.
    all: iffk H1 H2.
  - intros [= <-]. eapply (cinv_later c); try done; rewrite ?Hk; cbn; try lia.
    all: iffk H1 H2.
  - intros [= <-]. eapply (cinv_later c); try done; rewrite ?Hk; cbn; try lia.
    all: iffk H1 H2.
  - destruct (allStreams c !! n) as [r|] eqn:Hr.
    + destruct (Close _ _) as [[m sh] q] eqn:E. intros [= <-].
      pose proof (ci_recs c Hc n r Hr) as Hok.
      assert (cinv (c <| closer := KMailboxes (S n) |>)) as Hc1.
      { destruct Hc. rewrite Hk in *. by constructor. }
      eapply (cinv_rec n r (r <| r_q := q |>) (c <| closer := KMailboxes (S n) |>)); try done.
      eapply rec_close_mailbox; [|by rewrite Hk in Hok|exact E]. cbn. lia.
    + destruct (allWorkersDone c) eqn:Ew; [|done]. intros [= <-].
      eapply (cinv_later c); try done; rewrite ?Hk; cbn; try lia.
      1,2: iffk H1 H2. by right; right.
  - destruct (disp c) eqn:Hd; try done; intros [= <-];
      (eapply (cinv_later c); try done; rewrite ?Hk, ?Hd; cbn; try lia;
       [iffk H1 H2|iffk H1 H2|by intros _; auto]).
  - destruct (terms c) eqn:Ht; [|done]. intros [= <-].
    eapply (cinv_later c); try done; rewrite ?Hk; cbn; try lia.
    1,2: iffk H1 H2.
    intros _. apply (ci_disp c Hc). rewrite Hk. cbn. lia.
  - intros [= <-]. by apply cinv_closeChannels.
  - done.
Qed.

(** ** Reachable states

    Dispatch is called once, by the goroutine that installs the carrier.  A
    call is timely when Close has not yet looked whether there is a dispatcher
    to wait for. *)
Inductive reach (l : StreamLimits) (onNew : bool) : CarrierConn → Prop :=
| reach_init : reach l onNew (newCarrierConn l onNew)
| reach_step lb c c' :
    reach l onNew c → (lb = LStart → (krank (closer c) < 5)%nat) → cstep lb c = Some c' → reach l onNew c'.

Lemma cinv_step lb c c' :
  cinv c → (lb = LStart → (krank (closer c) < 5)%nat) → cstep lb c = Some c' → cinv c'.
Proof.
  intros Hc Hl. destruct lb as [f| | | |i a|i a|i|id|id|id|k|]; cbn [cstep].
  - destruct (framesClosed c || _); [done|]. destruct (frameRules _ f) eqn:Ef; [done|]. intros [= <-].
    destruct Hc. constructor; try done. cbn. apply Forall_app; split; [done|]. constructor; [|done].
    intros Ht H0. unfold frameRules in Ef. rewrite H0 in Ef. cbn in Ef.
    unfold isStreamFrame, FramePing, FramePong, FrameData, FrameHeader, FrameRebind, FrameClose, FrameAuth in *.
    destruct (Type_ f =? 1) eqn:E1; [done|]. destruct (Type_ f =? 2) eqn:E2, (Type_ f =? 3) eqn:E3; cbn in Ef; try done; bools;
      rewrite ?orb_true_iff, ?Z.eqb_eq in Ht; lia.
  - intros [= <-]. by eapply cinv_same.
  - destruct (disp c) eqn:Hd; try done. intros [= <-]. specialize (Hl eq_refl). pose proof (ci_recs c Hc) as Hrecs.
    destruct Hc. constructor; try done; cbn; [lia|]. intros i r Hr.
    eapply rec_ok_disp; [..|by apply Hrecs]; [by rewrite Hd|done].
  - by apply cinv_dispatch.
  - by apply cinv_worker.
  - by apply cinv_handoff.
  - destruct (allStreams c !! i) as [r|] eqn:Hr; [|done]. cbn [mbind option_bind].
    destruct (r_ch r) as [|x rest] eqn:Ech; [done|]. intros [= <-].
    eapply (cinv_rec i r); try done. eapply rec_receive; [by apply (ci_recs c Hc)|done].
  - intros [= <-]. by apply cinv_register.
  - intros [= <-]. destruct Hc. constructor; try done. cbn. intros id' i [_ Hi]%lookup_delete_Some. by eapply ci_streams0.
  - intros [= <-]. by apply cinv_Terminate.
  - by apply cinv_termReturn.
  - by apply cinv_close.
Qed.

Lemma cinv_init l onNew : cinv (newCarrierConn l onNew).
Proof. constructor; cbn; try done; lia. Qed.

Lemma cinv_reach l onNew c : reach l onNew c → cinv c.
Proof. induction 1; [apply cinv_init|by eapply cinv_step]. Qed.

(** C3: Closing a carrier is safe.  In every interleaving of the read loop, the
    dispatcher, the stream workers, the consumers, Register, Deregister and
    Terminate calls and Close, provided Dispatch was not started after Close
    had checked for it, no goroutine ever sends on a closed channel or
    dereferences a missing stream; a consumer channel is closed only when every
    worker has exited, the dispatcher has returned or never ran, and no
    Terminate call is still handing over its nil. *)
Theorem carrier_close_safe l onNew c :
  reach l onNew c →
  panicked c = false
  ∧ (Exists (λ r, r_chClosed r = true) (allStreams c) →
     Forall (λ r, r_worker r = WDone ∧ pending (r_handoff r) = false) (allStreams c)
     ∧ (disp c = DNew ∨ disp c = DDone) ∧ terms c = []).
Proof.
  intros Hr. pose proof (cinv_reach _ _ _ Hr) as Hc. split; [apply Hc|].
  intros (r0 & (i0 & Hi0)%list_elem_of_lookup & Hcl)%Exists_exists.
  assert (krank (closer c) = 7)%nat as Hk by (by apply (ro_ch _ _ _ _ _ (ci_recs c Hc i0 r0 Hi0))).
  assert (disp c = DNew ∨ disp c = DDone) as Hd by (apply (ci_disp c Hc); lia).
  assert (terms c = []) as Ht by (apply (ci_terms c Hc); lia).
  split_and!; [|done|done]. apply Forall_lookup. intros i r Hi. pose proof (ci_recs c Hc i r Hi) as Hok.
  assert (r_worker r = WDone) as Hw by (apply (ro_worker _ _ _ _ _ Hok); lia). split; [done|].
  destruct (pending (r_handoff r)) eqn:Ep; [|done].
  destruct (ro_owner _ _ _ _ _ Hok Ep) as [?|[[u Hu]|Hin]]; [congruence| |].
  - destruct Hd; congruence.
  - rewrite Ht in Hin. by apply not_elem_of_nil in Hin.
Qed.

(** C2: Deliver or fail.  On a stream that is not terminated, while the carrier
    is not closed, no item is lost, duplicated or reordered between the
    dispatcher and the consumer: what the consumer received, followed by what
    is in its channel, in the worker's hand, in the mailbox and with the
    dispatcher, is exactly the sequence of items routed to the stream. *)
Theorem carrier_deliver_or_fail l onNew c i r :
  reach l onNew c → allStreams c !! i = Some r → r_terminated r = false → closedCh c = false →
  map conv (r_routed r)
  = r_recv r ++ r_ch r ++ map conv (hand r ++ contents (r_q r) ++ inflight (disp c) i).
Proof.
  intros Hr Hi Ht Hcl. pose proof (cinv_reach _ _ _ Hr) as Hc. pose proof (ci_recs c Hc i r Hi) as Hok.
  assert (krank (closer c) < 2)%nat as Hk.
  { destruct (decide (2 ≤ krank (closer c))%nat) as [H|]; [|lia]. apply (ci_closed c Hc) in H. congruence. }
  destruct Hok. destruct ro_exact0 as [(lost & He & Hl)|[_ [?|?]]]; [|congruence|lia].
  assert (lost = []) as ->.
  { destruct lost; [done|]. destruct (Hl ltac:(done)) as [Hq|[? _]]; [|congruence].
    destruct (ro_qclosed0 Hq); [congruence|lia]. }
  assert (r_handoff r = HIdle) as Hh.
  { destruct (decide (r_handoff r = HIdle)) as [|Hn]; [done|]. by rewrite (ro_marked0 Hn) in Ht. }
  destruct ro_chan0 as (a & b & H1 & [H2|[_ H2]]); [|congruence].
  by rewrite He, (app_assoc (r_recv r)), H2, <- H1.
Qed.

(** Up to the first nil. *)
Fixpoint seen (l : list (option (list byte))) : list (list byte) :=
  match l with Some p :: l => p :: seen l | _ => [] end.

Lemma seen_app a b : seen (a ++ b) = seen a ++ (if forallb (λ x, bool_decide (is_Some x)) a then seen b else []).
Proof. induction a as [|[p|] a IH]; cbn; [done| |done]. by rewrite IH. Qed.

Lemma seen_prefix a b : a `prefix_of` b → seen a `prefix_of` seen b.
Proof. intros [k ->]. rewrite seen_app. by eexists. Qed.

(** What a consumer received before its first nil is a prefix of what was routed
    to it, whatever happens. *)
Lemma received_routed l onNew c i r :
  reach l onNew c → allStreams c !! i = Some r → seen (r_recv r) `prefix_of` seen (map conv (r_routed r)).
Proof.
  intros Hr Hi. destruct (ci_recs c (cinv_reach _ _ _ Hr) i r Hi).
  etrans; [|by apply seen_prefix]. destruct ro_chan0 as (a & b & H1 & H2).
  assert (seen (r_recv r) `prefix_of` seen (r_recv r ++ r_ch r)) as Hp by (apply seen_prefix; by eexists).
  etrans; [exact Hp|]. rewrite H1. destruct H2 as [->|[-> _]]; [done|].
  rewrite !seen_app. destruct (forallb _ a); [|done]. apply prefix_app. cbn. apply prefix_nil.
Qed.

(** ** Concrete runs *)
Fixpoint crun_timely (ls : list label) (c : CarrierConn) : option CarrierConn :=
  match ls with
  | [] => Some c
  | lb :: ls =>
      if (match lb with LStart => true | _ => false end) && Nat.leb 5 (krank (closer c)) then None
      else c ← cstep lb c; crun_timely ls c
  end.

Lemma crun_timely_reach l onNew ls c c' : reach l onNew c → crun_timely ls c = Some c' → reach l onNew c'.
Proof.
  revert c. induction ls as [|lb ls IH]; intros c Hr; cbn [crun_timely]; [by intros [= <-]|].
  destruct (_ && _) eqn:E; [done|]. destruct (cstep lb c) as [c1|] eqn:Es; [|done].
  apply IH. eapply reach_step; [done| |done]. intros ->. cbn in E. destruct (krank (closer c)) as [|[|[|[|[|]]]]]; try done; lia.
Qed.

Definition data_frame (id : Z) (p : list byte) : Frame := mkFrame id FrameData (zlen p) p.

Definition delivery_run : list label :=
  [LRegister 5; LStart; LFrame (data_frame 5 [x41]); LFrame (data_frame 5 [x42]);
   LDispatch; LDispatch; LDispatch; LDispatch; LWorker 0 ASend; LWorker 0 ASend; LReceive 0].

Definition delivery_state : CarrierConn :=
  default (newCarrierConn DefaultStreamLimits true) (crun_timely delivery_run (newCarrierConn DefaultStreamLimits true)).

Lemma delivery_reach : reach DefaultStreamLimits true delivery_state.
Proof. eapply (crun_timely_reach _ _ delivery_run); [apply reach_init|by vm_compute]. Qed.

Definition delivery_rec : streamRec := default (newStreamRec 5 false DefaultStreamLimits) (allStreams delivery_state !! 0%nat).

Lemma carrier_deliver_or_fail_witness :
  map conv (r_routed delivery_rec) = [Some [x41]; Some [x42]]
  ∧ map conv (r_routed delivery_rec)
    = r_recv delivery_rec ++ r_ch delivery_rec
        ++ map conv (hand delivery_rec ++ contents (r_q delivery_rec) ++ inflight (disp delivery_state) 0).
Proof.
  split; [by vm_compute|].
  apply (carrier_deliver_or_fail _ _ delivery_state 0 delivery_rec delivery_reach); by vm_compute.
Defined.

(** A full teardown after a delivery. *)
Definition close_run : list label :=
  delivery_run ++ [LTerminate 5; LClose; LClose; LHandoff 0 AClosed; LHandoff 0 AClosed; LReadEnd; LDispatch;
                   LClose; LClose; LWorker 0 AClosed; LClose; LClose; LTermReturn 0; LClose; LClose].

Definition closed_state : CarrierConn :=
  default (newCarrierConn DefaultStreamLimits true) (crun_timely close_run (newCarrierConn DefaultStreamLimits true)).

Lemma carrier_close_safe_witness :
  closer closed_state = KChannels ∧ panicked closed_state = false.
Proof.
  split; [by vm_compute|].
  apply (carrier_close_safe DefaultStreamLimits true closed_state).
  eapply (crun_timely_reach _ _ close_run); [apply reach_init|by vm_compute].
Defined.

(** The proviso of [carrier_close_safe] is needed: when Dispatch is first
    called after Close found no dispatcher to wait for, and before Close closes
    the stream channels, a buffered frame of a registered stream drives the
    dispatcher into terminateStream, whose hand-off then sends on the channel
    Close has closed. *)
Definition late_start_run : list label :=
  [LRegister 5; LFrame (data_frame 5 [x41]); LReadEnd;
   LClose; LClose; LClose; LClose; LWorker 0 ASend; LClose; LClose;
   LStart; LDispatch; LDispatch; LDispatch; LHandoff 0 ASend; LClose; LClose; LHandoff 0 ASend].

Lemma late_dispatch_panics :
  ∃ c, crun late_start_run (newCarrierConn DefaultStreamLimits false) = Some c ∧ panicked c = true.
Proof. eexists. split; by vm_compute. Qed.

(** A frame that is dispatched while Close is tearing the carrier down meets a
    closed mailbox and is classified as undeliverable data, although nothing
    but the clean teardown ended the stream. *)
Definition teardown_run : list label :=
  [LRegister 5; LStart; LFrame (data_frame 5 [x41]); LClose; LClose; LClose; LClose;
   LDispatch; LDispatch; LDispatch; LHandoff 0 AClosed; LHandoff 0 AClosed; LDispatch].

Lemma teardown_counts_undeliverable :
  ∃ c, crun_timely teardown_run (newCarrierConn DefaultStreamLimits false) = Some c
    ∧ EvUndeliverable 5 ∈ events c.
Proof. eexists. split; [by vm_compute|]. vm_compute. right; left. Qed.

(** After a FrameClose was handed over the worker is gone, but the mailbox
    stays open and registered: further frames of the peer on that stream fill
    it and then park the dispatcher of the whole carrier, and neither the
    worker nor the consumer can release it any more. *)
Definition tiny : StreamLimits := mkLimits 1 1 100 1 1.

Definition after_close_run : list label :=
  [LRegister 5; LStart; LFrame (mkFrame 5 FrameClose 0 []); LDispatch; LDispatch; LWorker 0 ASend; LWorker 0 ASend;
   LReceive 0; LFrame (data_frame 5 [x41]); LFrame (data_frame 5 [x42]); LFrame (data_frame 5 [x43]);
   LDispatch; LDispatch; LDispatch; LDispatch; LDispatch; LDispatch; LDispatch; LDispatch; LDispatch; LDispatch].

Lemma frames_after_close_park_dispatcher :
  ∃ c r ch, crun_timely after_close_run (newCarrierConn tiny false) = Some c
    ∧ allStreams c !! 0%nat = Some r ∧ r_worker r = WDone ∧ r_terminated r = false
    ∧ disp c = DParked 0 (mkItem [x43] false) ch
    ∧ (∀ a, cstep (LWorker 0 a) c = None ∧ cstep (LHandoff 0 a) c = None)
    ∧ cstep (LReceive 0) c = None ∧ cstep LDispatch c = None.
Proof.
  eexists. eexists. eexists. split; [by vm_compute|]. split; [by vm_compute|]. split; [by vm_compute|].
  split; [by vm_compute|]. split; [by vm_compute|]. split; [intros []; split; by vm_compute|]. split; by vm_compute.
Qed.
