(* ===== verification/CarrierMemory.v ===== *)
(** * Memory of the carrier

    Every action of the transition system of Carrier.v does at most one mailbox
    operation, so the exact accounting of Mailboxes.v carries over to the whole
    carrier, and Close gives everything back. *)
From S2P Require Import CarrierSafety.
Import Mailboxes.
#[local] Open Scope Z_scope.

(** What one action does to the mailboxes and the carrier's counters: nothing,
    one mailbox operation, or the mailbox of a new stream. *)
Definition queues (c : CarrierConn) : list StreamQueue := map r_q (allStreams c).

Definition counters_eq (sh sh' : shared) : Prop := sh_budget sh' = sh_budget sh ∧ sh_items sh' = sh_items sh.

Definition qstep (c c' : CarrierConn) : Prop :=
  limits c' = limits c
  ∧ ((queues c' = queues c ∧ counters_eq (c_shared c) (c_shared c'))
     ∨ (∃ i op q e sh q', data_op op = true ∧ queues c !! i = Some q ∧ exec op (c_shared c) q = (e, sh, q')
          ∧ queues c' = <[i := q']> (queues c) ∧ counters_eq sh (c_shared c'))
     ∨ (closing c = false ∧ queues c' = queues c ++ [newMailbox (limits c)] ∧ counters_eq (c_shared c) (c_shared c'))).

Lemma queues_insert i r r' c :
  allStreams c !! i = Some r → r_q r' = r_q r → map r_q (<[i := r']> (allStreams c)) = queues c.
Proof.
  intros Hr Hq. unfold queues. rewrite list_fmap_insert, Hq. apply list_insert_id.
  by rewrite list_lookup_fmap, Hr.
Qed.

Lemma qstep_same c c' : limits c' = limits c → queues c' = queues c → counters_eq (c_shared c) (c_shared c') → qstep c c'.
Proof. intros; split; [done|by left]. Qed.

Lemma qstep_rec i r r' c c' :
  allStreams c !! i = Some r → allStreams c' = <[i := r']> (allStreams c) → r_q r' = r_q r →
  limits c' = limits c → counters_eq (c_shared c) (c_shared c') → qstep c c'.
Proof. intros Hr Ha Hq Hl Hs. apply qstep_same; [done| |done]. unfold queues at 1. rewrite Ha. by eapply queues_insert. Qed.

Lemma qstep_op i r r' op e sh q' c c' :
  allStreams c !! i = Some r → data_op op = true → exec op (c_shared c) (r_q r) = (e, sh, q') →
  limits c' = limits c → allStreams c' = <[i := r']> (allStreams c) → r_q r' = q' →
  counters_eq sh (c_shared c') → qstep c c'.
Proof.
  intros Hr Hop He Hl Ha Hq Hs. split; [done|]. right; left. exists i, op, (r_q r), e, sh, q'.
  split_and!; try done; unfold queues.
  - by rewrite list_lookup_fmap, Hr.
  - by rewrite Ha, list_fmap_insert, Hq.
Qed.

Lemma markRec_q s r : r_q (markRec s r) = r_q r.
Proof. unfold markRec. by destruct (r_handoff r). Qed.

Lemma qstep_terminate i s c c0 :
  limits c0 = limits c → allStreams c0 = allStreams c → counters_eq (c_shared c) (c_shared c0) →
  qstep c (terminateStream i s c0).
Proof.
  intros Hl Ha Hs. destruct (allStreams c0 !! i) as [r|] eqn:Hr.
  - destruct (terminateStream_spec i s c0 r Hr) as (E & _ & _ & El & Es).
    eapply (qstep_rec i r (markRec s r)); [by rewrite <- Ha|by rewrite <- Ha|apply markRec_q|by rewrite El|by rewrite Es].
  - unfold terminateStream. rewrite Hr. apply qstep_same; [done|unfold queues; by rewrite Ha|done].
Qed.

Lemma qstep_fail i lostData r c c0 :
  limits c0 = limits c → allStreams c0 = allStreams c → counters_eq (c_shared c) (c_shared c0) →
  qstep c (failUndeliverableData i lostData r c0).
Proof.
  intros Hl Ha [Hs1 Hs2]. unfold failUndeliverableData. destruct (r_terminated r).
  - apply qstep_same; [done|unfold queues; cbn; by rewrite Ha|done].
  - destruct (iter_bump (Z.to_nat (QueueDataLen (r_q r) + (if lostData then 1 else 0))) droppedDataFrame c0)
      as (sh & -> & H1 & H2).
    apply qstep_terminate; [done|done|]. split; cbn; congruence.
Qed.

Lemma qstep_create id cb c i c' :
  closing c = false → createStreamLocked id cb c = (i, c') → qstep c c'.
Proof.
  intros Hcl. unfold createStreamLocked. destruct (id =? 0); [by intros [= _ <-]; apply qstep_same|].
  destruct (streams c !! id); intros [= _ <-]; [by apply qstep_same|].
  split; [done|]. right; right. split_and!; [done| |done]. unfold queues. cbn. by rewrite map_app.
Qed.

(** A step whose second half touches no mailbox. *)
Lemma qstep_then c c1 c' :
  qstep c c1 → limits c' = limits c1 → queues c' = queues c1 → counters_eq (c_shared c1) (c_shared c') → qstep c c'.
Proof.
  intros [Hl H] Hl' Hq [Hs1 Hs2]. split; [congruence|]. rewrite Hq.
  destruct H as [[? [? ?]]|[(i & op & q & e & sh & q' & ? & ? & ? & ? & ? & ?)|(? & ? & ? & ?)]].
  - left. split; [done|]. split; congruence.
  - right; left. exists i, op, q, e, sh, q'. split_and!; try done. split; congruence.
  - right; right. split_and!; try done. split; congruence.
Qed.

Lemma qstep_deliver c c' : deliverStep (disp c) c = Some c' → qstep c c'.
Proof.
  destruct (disp c) as [| |i it|i it|i it|i it|i it ch|i it|i it|i u|]; cbn [deliverStep]; try done;
    (destruct (allStreams c !! i) as [r|] eqn:Hr; [|done]); cbn [mbind option_bind].
  - destruct (r_terminated r); [intros [= <-]; by apply qstep_same|].
    destruct (TryPushReason _ _ _) as [[[ok reason] sh] q] eqn:E. intros [= <-].
    eapply (qstep_op i r _ (OTryPush it)); [done|done|cbn [exec]; by rewrite E|done..].
  - destruct (r_terminated r); [intros [= <-]; by apply qstep_same|].
    destruct (TryCarry _ _ _) as [[[ok reason] sh] q] eqn:E. intros [= <-].
    eapply (qstep_op i r _ (OTryCarry it)); [done|done|cbn [exec]; by rewrite E|done..].
  - intros [= <-]. by apply qstep_same.
  - destruct (PushPark _ _ _) as [[o sh] q] eqn:E. intros [= <-].
    eapply (qstep_op i r _ (OPushPark it)); [done|done|cbn [exec]; by rewrite E|done..].
  - case_bool_decide; [|done]. intros [= <-]. by apply qstep_same.
  - destruct (_ && _); intros [= <-]; [by apply qstep_fail|by apply qstep_same].
  - destruct (r_terminated r); intros [= <-]; [by apply qstep_same|by apply qstep_fail].
  - case_bool_decide; [|done]. intros [= <-]. by destruct u; apply qstep_same.
Qed.

Lemma qstep_route f c c0 :
  allStreams c0 = allStreams c → limits c0 = limits c → c_shared c0 = c_shared c → closing c0 = closing c →
  qstep c (routeFrame f c0).
Proof.
  intros Ha Hl Hs Hcl. unfold routeFrame.
  assert (qstep c c0) as H0 by (apply qstep_same; [done|unfold queues; by rewrite Ha|by rewrite Hs]).
  assert (∀ i c1, qstep c c1 →
    qstep c (match allStreams c1 !! i with
          | None => c1
          | Some r =>
              let it := if Type_ f =? FrameClose then mkItem [] true else mkItem (Payload f) false in
              let c := if r_callback r then emitEv (EvNewStream (StreamID f) (Type_ f) i) c1 else c1 in
              putRec i (r <| r_callback := false |> <| r_routed := r_routed r ++ [it] |>) c <| disp := DPush i it |>
          end)) as Hmain.
  { intros i c1 H1. destruct (allStreams c1 !! i) as [r|] eqn:Hr; [|done].
    eapply qstep_then; [exact H1|by destruct (r_callback r)| |by destruct (r_callback r)].
    destruct (r_callback r); refine (queues_insert i r _ c1 Hr _); done. }
  destruct (streams c0 !! StreamID f) as [i|] eqn:E; [by apply Hmain|].
  destruct (onNewStream c0 && negb (closing c0)) eqn:En; [|done].
  apply andb_true_iff in En as [_ Hn]. apply negb_true_iff in Hn.
  destruct (createStreamLocked (StreamID f) true c0) as [o c1] eqn:Ec.
  assert (qstep c c1) as H1.
  { destruct (qstep_create _ _ _ _ _ Hn Ec) as [Hl1 H1]. unfold queues in *. rewrite Ha, Hl, Hs, Hcl in *. split; [done|].
    destruct H1 as [?|[?|?]]; [by left|by right; left|by right; right]. }
  destruct o as [i|]; [by apply Hmain|]. by eapply qstep_then.
Qed.

Lemma qstep_dispatch c c' : Dispatch c = Some c' → qstep c c'.
Proof.
  unfold Dispatch. destruct (disp c) eqn:Hd; rewrite <- ?Hd; try (by apply qstep_deliver).
  destruct (c_frames c) as [|f fs]; [destruct (framesClosed c); [intros [= <-]; by apply qstep_same|done]|].
  intros [= <-]. unfold dispatchFrame. destruct (isStreamFrame (Type_ f)); [by apply qstep_route|].
  destruct (Type_ f =? FrameReset); [destruct (ParseResetPayload _) as [[]|]; by apply qstep_same|].
  destruct (Type_ f =? FrameBootstrapAck); [destruct (ParseBootstrapAckPayload _); by apply qstep_same|].
  destruct (Type_ f =? FramePing); [cbn; destruct (closing c); by apply qstep_same|].
  destruct (Type_ f =? FramePong); [by apply qstep_same|].
  destruct (Type_ f =? FrameCredit); [|by apply qstep_same]. cbv zeta.
  destruct (ValidateCreditPayload _); [|by apply qstep_same].
  cbn [streams setter]. destruct (streams c !! StreamID f) as [i|]; [by apply qstep_terminate|by apply qstep_same].
Qed.

Lemma qstep_worker i a c c' : streamWorker i a c = Some c' → qstep c c'.
Proof.
  unfold streamWorker. destruct (allStreams c !! i) as [r|] eqn:Hr; [|done]. cbn [mbind option_bind].
  destruct (r_worker r) as [|ch|it| |]; [..|done].
  - destruct (Pop _ _) as [[o sh] q] eqn:E. intros [= <-].
    eapply (qstep_op i r _ OPop); [done|done|cbn [exec]; by rewrite E|done..].
  - case_bool_decide; [|done]. intros [= <-]. by eapply qstep_rec.
  - destruct a.
    + unfold sendCh. destruct (r_chClosed r); [intros [= <-]; by eapply qstep_rec|].
      destruct (r_ch r); [|done]. intros [= <-]. by eapply qstep_rec.
    + destruct (closedCh c); [|done]. intros [= <-]. by eapply qstep_rec.
    + destruct (isClose it); intros [= <-]; [by eapply qstep_rec|].
      match goal with |- qstep _ (terminateStream _ _ ?x) => set (c0 := x) end.
      destruct (allStreams c0 !! i) as [r0|] eqn:Hr0.
      * destruct (terminateStream_spec i false c0 r0 Hr0) as (E & _ & _ & El & Es).
        eapply (qstep_then c c0); [by eapply qstep_rec|done| |by rewrite Es].
        unfold queues at 1. rewrite E. eapply queues_insert; [done|apply markRec_q].
      * unfold terminateStream. rewrite Hr0. by eapply qstep_rec.
  - case_bool_decide; [|done]. intros [= <-]. by eapply qstep_rec.
Qed.

Lemma qstep_handoff i a c c' : handoffStep i a c = Some c' → qstep c c'.
Proof.
  unfold handoffStep. destruct (allStreams c !! i) as [r|] eqn:Hr; [|done]. cbn [mbind option_bind].
  destruct (r_handoff r) as [|s| |]; try done.
  - destruct (Close _ _) as [[n sh] q] eqn:E. intros [= <-].
    eapply (qstep_op i r (r <| r_handoff := HSending |> <| r_q := q |>) OClose); [done|done|cbn [exec]; by rewrite E|..];
      first [done|by destruct (_ && _)].
  - destruct a.
    + unfold sendCh. destruct (r_chClosed r); [intros [= <-]; by eapply qstep_rec|].
      destruct (r_ch r); [|done]. intros [= <-]. by eapply qstep_rec.
    + destruct (closedCh c); [|done]. intros [= <-]. by eapply qstep_rec.
    + intros [= <-]. by eapply qstep_rec.
Qed.

Lemma qstep_Terminate id c : qstep c (Terminate id c).
Proof.
  unfold Terminate. destruct (closing c) eqn:Ecl; [by destruct (streams c !! id); apply qstep_same|].
  destruct (streams c !! id) as [i|]; [by apply qstep_terminate|].
  destruct (createStreamLocked id false c) as [[i|] c1] eqn:Ec; [|by eapply qstep_create].
  pose proof (qstep_create _ _ _ _ _ Ecl Ec) as H1.
  destruct (allStreams c1 !! i) as [r|] eqn:Hr.
  - pose proof (terminateStream_spec i true (c1 <| terms := terms c1 ++ [i] |>) r) as Hspec.
    destruct (Hspec Hr) as (E & _ & _ & El & Es). eapply (qstep_then c c1); [done|by rewrite El| |by rewrite Es].
    unfold queues at 1. rewrite E. refine (queues_insert i r _ c1 Hr _). apply markRec_q.
  - unfold terminateStream. cbn. rewrite Hr. by eapply qstep_then.
Qed.

Lemma qstep_close c c' : closeStep c = Some c' → qstep c c'.
Proof.
  unfold closeStep. destruct (closer c) as [| | |n| | | |]; try (intros [= <-]; by apply qstep_same).
  - destruct (allStreams c !! n) as [r|] eqn:Hr.
    + destruct (Close _ _) as [[m sh] q] eqn:E. intros [= <-].
      eapply (qstep_op n r _ OClose); [done|done|cbn [exec]; by rewrite E|done..].
    + destruct (allWorkersDone c); [|done]. intros [= <-]. by apply qstep_same.
  - destruct (disp c); try done; intros [= <-]; by apply qstep_same.
  - destruct (terms c); [|done]. intros [= <-]. by apply qstep_same.
  - intros [= <-]. apply qstep_same; [done| |done]. unfold queues, closeChannels. cbn. rewrite map_map. by apply map_ext.
Qed.

Lemma cstep_qstep lb c c' : cstep lb c = Some c' → qstep c c'.
Proof.
  destruct lb as [f| | | |i a|i a|i|id|id|id|k|]; cbn [cstep].
  - repeat case_match; try done. intros [= <-]. by apply qstep_same.
  - intros [= <-]. by apply qstep_same.
  - destruct (disp c); try done. intros [= <-]. by apply qstep_same.
  - apply qstep_dispatch.
  - apply qstep_worker.
  - apply qstep_handoff.
  - destruct (allStreams c !! i) as [r|] eqn:Hr; [|done]. cbn [mbind option_bind].
    destruct (r_ch r); [done|]. intros [= <-]. by eapply qstep_rec.
  - intros [= <-]. unfold Register. destruct (closing c) eqn:Ecl; [by apply qstep_same|].
    destruct (id =? 0); [by apply qstep_same|]. cbn [orb]. destruct (streams c !! id); [by apply qstep_same|].
    destruct (createStreamLocked id false c) as [o c1] eqn:E. by eapply qstep_create.
  - intros [= <-]. by apply qstep_same.
  - intros [= <-]. apply qstep_Terminate.
  - unfold terminateReturn. destruct (terms c !! k) as [i|]; [|done]. cbn [mbind option_bind].
    destruct (allStreams c !! i); [|done]. cbn [mbind option_bind]. case_bool_decide; [|done].
    intros [= <-]. by apply qstep_same.
  - apply qstep_close.
Qed.

(** Every mailbox Close has passed is closed. *)
Definition passed (k : cphase) (j : nat) : Prop :=
  match k with KMailboxes n => (j < n)%nat | _ => (4 ≤ krank k)%nat end.

Record minv (limit : Z) (c : CarrierConn) : Prop := {
  mi_limit : MaxBytesTotal (limits c) = limit;
  mi_boxes : bxinv limit (mkBoxes (c_shared c) (queues c));
  mi_closing : closing c = true ↔ (1 ≤ krank (closer c))%nat;
  mi_passed : ∀ j q, queues c !! j = Some q → passed (closer c) j → q_closed q = true
}.

Lemma exec_stays_closed op sh q e sh' q' :
  qinv q → exec op sh q = (e, sh', q') → q_closed q = true → q_closed q' = true.
Proof. intros Hq He Hc. by eapply exec_closed. Qed.

Lemma bxinv_counters limit sh sh' qs : counters_eq sh sh' → bxinv limit (mkBoxes sh qs) → bxinv limit (mkBoxes sh' qs).
Proof. intros [H1 H2] []. constructor; cbn in *; rewrite ?H1, ?H2; done. Qed.

Lemma bxinv_new sh qs l :
  bxinv (MaxBytesTotal l) (mkBoxes sh qs) → bxinv (MaxBytesTotal l) (mkBoxes sh (qs ++ [newMailbox l])).
Proof.
  intros []. constructor; cbn [bx_shared bx_queues] in *; [|rewrite zsum_app; simpl; change (held_bytes _) with 0; lia
    |rewrite zsum_app; simpl; change (held_items _) with 0; lia|done].
  apply Forall_app; split; [done|]. constructor; [|done]. split_and!; [apply newMailbox_ok|done..].
Qed.

Lemma qstep_boxes limit c c' :
  MaxBytesTotal (limits c) = limit → qstep c c' →
  bxinv limit (mkBoxes (c_shared c) (queues c)) → bxinv limit (mkBoxes (c_shared c') (queues c')).
Proof.
  intros <- [_ [[-> Hs]|[(i & op & q & e & sh & q' & Hop & Hi & He & -> & Hs)|(_ & -> & Hs)]]] Hb.
  - by eapply bxinv_counters.
  - eapply bxinv_counters; [exact Hs|]. pose proof (bxinv_op _ _ i op Hb Hop) as H. cbn in H.
    rewrite Hi, He in H. exact H.
  - eapply bxinv_counters; [exact Hs|]. by apply bxinv_new.
Qed.

(** Mailboxes never reopen, and none is added once the carrier is closing. *)
Lemma qstep_closed limit c c' j q' :
  bxinv limit (mkBoxes (c_shared c) (queues c)) → qstep c c' → closing c = true → queues c' !! j = Some q' →
  ∃ q, queues c !! j = Some q ∧ (q_closed q = true → q_closed q' = true).
Proof.
  intros Hb [_ [[-> _]|[(i & op & q & e & sh & q1 & Hop & Hi & He & -> & _)|(Hcl & _)]]] Hc Hj; [eauto| |congruence].
  destruct (decide (i = j)) as [<-|Hne].
  - rewrite list_lookup_insert_eq in Hj by (by eapply lookup_lt_Some). injection Hj as <-. exists q. split; [done|].
    eapply exec_stays_closed; [|exact He]. by apply (proj1 (Forall_lookup _ _) (bi_q _ _ Hb) i q Hi).
  - rewrite list_lookup_insert_ne in Hj by done. eauto.
Qed.

Lemma terminateStream_closer i s c : closer (terminateStream i s c) = closer c.
Proof. unfold terminateStream. by repeat case_match. Qed.

Lemma create_closer id cb c i c' : createStreamLocked id cb c = (i, c') → closer c' = closer c.
Proof. unfold createStreamLocked. repeat case_match; by intros [= _ <-]. Qed.

Lemma fail_closer i b r c : closer (failUndeliverableData i b r c) = closer c.
Proof.
  unfold failUndeliverableData. destruct (r_terminated r); [done|].
  match goal with |- context [Nat.iter ?n ?f c] => destruct (iter_bump n droppedDataFrame c) as (sh & -> & _) end.
  by rewrite terminateStream_closer.
Qed.

Lemma route_closer f c : closer (routeFrame f c) = closer c.
Proof.
  unfold routeFrame. destruct (streams c !! StreamID f) as [i|]; [by repeat case_match|].
  destruct (_ && _); [|done].
  destruct (createStreamLocked (StreamID f) true c) as [[i|] c1] eqn:Ec; apply create_closer in Ec;
    by repeat case_match.
Qed.

Lemma dispatch_closer c c' : Dispatch c = Some c' → closer c' = closer c.
Proof.
  unfold Dispatch. destruct (disp c) eqn:Hd; cbn [deliverStep]; try done.
  { destruct (c_frames c) as [|f fs]; [destruct (framesClosed c); [by intros [= <-]|done]|].
    intros [= <-]. unfold dispatchFrame.
    destruct (isStreamFrame (Type_ f)); [by rewrite route_closer|].
    by repeat (case_match; try done); rewrite ?terminateStream_closer. }
  all: (destruct (allStreams c !! i) as [r|]; [|done]); cbn [mbind option_bind];
       repeat case_match; intros; simplify_eq; rewrite ?fail_closer; done.
Qed.

Lemma cstep_closer lb c c' : cstep lb c = Some c' → lb ≠ LClose → closer c' = closer c.
Proof.
  intros E Hl. destruct lb as [f| | | |i a|i a|i|id|id|id|k|]; cbn [cstep] in E; [..|done].
  - by repeat case_match; simplify_eq.
  - by simplify_eq.
  - by destruct (disp c); simplify_eq.
  - by apply dispatch_closer.
  - unfold streamWorker, sendCh in E. destruct (allStreams c !! i); [|done]. cbn [mbind option_bind] in E.
    repeat (case_match; cbn [mbind option_bind] in E; try done); injection E as <-; by rewrite ?terminateStream_closer.
  - unfold handoffStep, sendCh in E. destruct (allStreams c !! i); [|done]. cbn [mbind option_bind] in E.
    by repeat (case_match; cbn [mbind option_bind] in E; try done); injection E as <-.
  - destruct (allStreams c !! i) as [r|]; [|done]. cbn in E. by destruct (r_ch r); simplify_eq.
  - simplify_eq. unfold Register. repeat case_match; try done. destruct (createStreamLocked id false c) eqn:Ec.
    by eapply create_closer.
  - by simplify_eq.
  - simplify_eq. unfold Terminate. repeat case_match; simplify_eq; rewrite ?terminateStream_closer; try done;
      by erewrite <- (create_closer _ _ c) by eassumption.
  - unfold terminateReturn in E. destruct (terms c !! k) as [i|]; [|done]. cbn [mbind option_bind] in E.
    destruct (allStreams c !! i); [|done]. cbn [mbind option_bind] in E. by case_bool_decide; simplify_eq.
Qed.

Lemma close_passed c c' j :
  closeStep c = Some c' → closing c = true → passed (closer c') j → (j < length (queues c))%nat →
  passed (closer c) j ∨ (closer c = KMailboxes j).
Proof.
  unfold closeStep, queues. rewrite length_map. intros E Hcl.
  destruct (closer c) as [| | |n| | | |] eqn:Hk; try (injection E as <-; cbn; intros; lia || (left; cbn; lia)); [|..|done].
  - destruct (allStreams c !! n) as [r|] eqn:Hr.
    + destruct (Close _ _) as [[m sh] q]. injection E as <-. cbn. intros ? ?.
      destruct (decide (j = n)) as [->|]; [by right|left; lia].
    + destruct (allWorkersDone c); [|done]. injection E as <-. cbn. intros _ Hj.
      apply lookup_ge_None in Hr. left. lia.
  - intros _ _. left. cbn. lia.
  - intros _ _. left. cbn. lia.
Qed.

Lemma minv_step limit lb c c' : cinv c → cinv c' → minv limit c → cstep lb c = Some c' → minv limit c'.
Proof.
  intros Hc Hc' [Hl Hb Hcl Hp] E. pose proof (cstep_qstep _ _ _ E) as Hq.
  constructor; [rewrite (proj1 Hq); done|by eapply qstep_boxes|by apply ci_closing|].
  intros j q' Hj Hpj.
  assert (lb = LClose ∨ lb ≠ LClose) as Hlb by (destruct lb; auto).
  assert (closing c = true) as Hcg.
  { apply Hcl. destruct Hlb as [->|Hne].
    - cbn [cstep] in E. unfold closeStep in E. destruct (closer c) eqn:Hk; cbn; try lia. injection E as <-.
      cbn in Hpj. lia.
    - rewrite (cstep_closer _ _ _ E Hne) in Hpj. destruct (closer c); cbn in *; lia. }
  destruct (qstep_closed _ _ _ _ _ Hb Hq Hcg Hj) as (q & Hjq & Hkeep).
  destruct Hlb as [->|Hne]; [|apply Hkeep, (Hp j q Hjq); by rewrite <- (cstep_closer _ _ _ E Hne)].
  cbn [cstep] in E. destruct (close_passed c c' j E Hcg Hpj) as [Hpc|Hk]; [by eapply lookup_lt_Some|by apply Hkeep, (Hp j q)|].
  unfold closeStep in E. rewrite Hk in E. destruct (allStreams c !! j) as [r|] eqn:Hr.
  - destruct (Close (c_shared c) (r_q r)) as [[m sh] q1] eqn:Ec. injection E as <-.
    unfold queues in Hj. cbn in Hj. rewrite list_lookup_fmap, list_lookup_insert_eq in Hj by (by eapply lookup_lt_Some).
    injection Hj as <-. cbn. by eapply Close_closed.
  - unfold queues in Hjq. by rewrite list_lookup_fmap, Hr in Hjq.
Qed.

Lemma minv_reach l onNew c : 0 ≤ MaxBytesTotal l → reach l onNew c → minv (MaxBytesTotal l) c.
Proof.
  intros Hl. induction 1 as [|lb c c' Hr IH Hs E].
  - constructor; cbn; [done|by constructor|split; [done|lia]|done].
  - eapply minv_step; [by eapply cinv_reach|by eapply cinv_reach, reach_step|done|done].
Qed.

(** C35: A carrier's memory is bounded and given back.  In every interleaving,
    the carrier's byte and item counters equal what its mailboxes hold, the
    bytes never exceed MaxBytesTotal, every mailbox stays within its frame and
    byte bounds, and once Close has passed the mailboxes every one of them is
    closed and empty and both counters are zero. *)
Theorem carrier_memory_bounded l onNew c :
  0 ≤ MaxBytesTotal l → reach l onNew c →
  sh_budget (c_shared c) = zsum held_bytes (queues c)
  ∧ sh_items (c_shared c) = zsum held_items (queues c)
  ∧ sh_budget (c_shared c) ≤ MaxBytesTotal l
  ∧ Forall (λ q, zlen (items q) ≤ Z.max 0 (maxFrames q) ∧ nBytes q ≤ Z.max 0 (maxBytes q)) (queues c)
  ∧ ((4 ≤ krank (closer c))%nat →
     Forall (λ q, q_closed q = true ∧ contents q = []) (queues c)
     ∧ sh_budget (c_shared c) = 0 ∧ sh_items (c_shared c) = 0).
Proof.
  intros Hl Hr. destruct (minv_reach l onNew c Hl Hr) as [_ [Hq Hb Hi Hlim] _ Hp]. cbn [bx_shared bx_queues] in *.
  split_and!; [done|done|done| |].
  - eapply Forall_impl; [exact Hq|]. intros q [[] _]. done.
  - intros Hk. assert (Forall (λ q, q_closed q = true) (queues c)) as Hcl.
    { apply Forall_lookup. intros j q Hj. apply (Hp j q Hj). destruct (closer c); cbn in *; lia. }
    split.
    + apply Forall_lookup. intros j q Hj. pose proof (proj1 (Forall_lookup _ _) Hcl j q Hj) as Hc.
      pose proof (proj1 (Forall_lookup _ _) Hq j q Hj) as [Hqi _]. split; [done|by apply contents_closed].
    + rewrite Hb, Hi. clear -Hq Hcl. induction Hq as [|q qs [Hq _] _ IH]; [done|]. inversion Hcl; subst.
      destruct (held_closed q) as [E1 E2]; [done..|]. destruct IH as [E3 E4]; [done|]. simpl. by rewrite E1, E2, E3, E4.
Qed.

Lemma carrier_memory_bounded_witness :
  sh_budget (c_shared delivery_state) = 1 ∧ sh_items (c_shared delivery_state) = zsum held_items (queues delivery_state).
Proof.
  split; [by vm_compute|].
  apply (carrier_memory_bounded DefaultStreamLimits true delivery_state ltac:(by vm_compute) delivery_reach).
Defined.
