(* ===== verification/CarrierReader.v ===== *)
(** * The carrier's read loop, limits and liveness detection

    The sequential parts of pkg/mux/carrier.go: what the read loop accepts from
    an arbitrary byte stream, what SanitizeLimits guarantees, and when the
    keepalive loop declares the path dead. *)
From S2P Require Import Carrier.
#[local] Open Scope Z_scope.

(** ** Read loop *)

(** The bytes of a frame as they are on the wire. *)
Definition wire (f : Frame) : list byte := header (StreamID f) (Type_ f) (Length f) ++ Payload f.

Lemma readLoop_fuel fuel known n s fs e :
  (length s < fuel)%nat → readLoop fuel known n s = (fs, e) →
  ∃ rest, s = concat (map wire fs) ++ rest
    ∧ (∀ i f, fs !! i = Some f → frameRules (known (n + i)%nat (StreamID f)) f = None)
    ∧ ((∃ e', e = ReadIO e' ∧ ReadFrame rest = Err e')
       ∨ (∃ f rest', ReadFrame rest = Ok (f, rest')
            ∧ frameRules (known (n + length fs)%nat (StreamID f)) f = Some e)).
Proof.
  revert n s fs. induction fuel as [|fuel IH]; intros n s fs Hf; [lia|]. cbn [readLoop].
  destruct (ReadFrame s) as [[f s']|e'] eqn:E.
  - destruct (frameRules (known n (StreamID f)) f) as [e1|] eqn:Er.
    + intros [= <- <-]. exists s. split_and!; [done|intros i g Hg; by rewrite lookup_nil in Hg|].
      right. exists f, s'. cbn. by rewrite Nat.add_0_r.
    + destruct (readLoop fuel known (S n) s') as [fs' e1] eqn:El. intros [= <- <-].
      pose proof (ReadFrame_length _ _ _ E) as Hlen. unfold HeaderSize in Hlen.
      destruct (IH (S n) s' fs' ltac:(lia) El) as (rest & Hs & Hall & Hend).
      apply ReadFrame_inv in E as (-> & _). exists rest. split_and!.
      * cbn. unfold wire at 1. by rewrite Hs, <- !app_assoc.
      * intros [|i] g Hg; cbn in Hg; [injection Hg as <-; by rewrite Nat.add_0_r|].
        rewrite <- Nat.add_succ_comm. by apply Hall.
      * cbn [length]. by rewrite <- Nat.add_succ_comm.
  - intros [= <- <-]. exists s. split_and!; [done|intros i g Hg; by rewrite lookup_nil in Hg|]. left. eauto.
Qed.

(** A frame the encoders produce. *)
Definition wf_frame (f : Frame) : Prop :=
  in_u 32 (StreamID f) ∧ in_u 8 (Type_ f) ∧ Length f = zlen (Payload f) ∧ zlen (Payload f) ≤ MaxPayload.

Lemma ReadFrame_wire f rest : wf_frame f → ReadFrame (wire f ++ rest) = Ok (f, rest).
Proof.
  destruct f as [sid typ len p]. intros (H1 & H2 & H3 & H4). unfold wire. cbn [StreamID Type_ Length Payload] in *. subst len. rewrite <- app_assoc. by apply ReadFrame_header.
Qed.

(** Bytes no prefix of which is a whole frame: nothing, or a frame cut short. *)
Definition cut_short (s : list byte) : Prop := ∀ k, ∃ e, ReadFrame (take k s) = Err e.

Lemma cut_short_nil : cut_short [].
Proof. intros k. rewrite take_nil. by eexists. Qed.

Lemma cut_short_frame f k : wf_frame f → (k < length (wire f))%nat → cut_short (take k (wire f)).
Proof.
  destruct f as [sid typ len p]. intros (H1 & H2 & H3 & H4) Hk k'. unfold wire in *. cbn [StreamID Type_ Length Payload] in *. subst len.
  rewrite take_take. rewrite length_app, length_header in Hk.
  rewrite frame_truncated_fails by (done || lia). by eexists.
Qed.

(** Of a stream of frames that ends anywhere, the loop reads a prefix. *)
Lemma readLoop_prefix fuel known n s fs tail :
  Forall wf_frame fs → cut_short tail → s `prefix_of` concat (map wire fs) ++ tail →
  fst (readLoop fuel known n s) `prefix_of` fs.
Proof.
  intros Hwf Ht. revert fuel n s. induction Hwf as [|f fs Hf Hwf IH]; intros [|fuel] n s Hs; cbn [readLoop];
    try apply prefix_nil.
  - destruct Hs as [k Hs]. destruct (Ht (length s)) as [e He]. cbn [concat map app] in Hs.
    rewrite Hs, take_app_length in He. by rewrite He.
  - cbn [map concat] in Hs. rewrite <- app_assoc in Hs.
    destruct (decide (length s < length (wire f))%nat) as [Hlt|Hge].
    + assert (s = take (length s) (wire f)) as ->.
      { destruct Hs as [k Hs]. apply (f_equal (take (length s))) in Hs.
        rewrite take_app_length, take_app_le in Hs by lia. done. }
      destruct (cut_short_frame f (length s) Hf Hlt (length s)) as [e He]. rewrite take_take, Nat.min_id in He.
      rewrite He. apply prefix_nil.
    + assert (∃ s', s = wire f ++ s' ∧ s' `prefix_of` concat (map wire fs) ++ tail) as (s' & -> & Hs').
      { destruct Hs as [k Hs]. exists (drop (length (wire f)) s).
        assert (take (length (wire f)) s = wire f) as E.
        { apply (f_equal (take (length (wire f)))) in Hs. by rewrite take_app_length, take_app_le in Hs by lia. }
        split; [by rewrite <- E at 1; rewrite take_drop|]. exists k.
        apply (f_equal (drop (length (wire f)))) in Hs. by rewrite drop_app_length, drop_app_le in Hs by lia. }
      rewrite ReadFrame_wire by done. destruct (frameRules _ f); [apply prefix_nil|].
      specialize (IH fuel (S n) s' Hs'). destruct (readLoop fuel known (S n) s') as [gs e]. by apply prefix_cons.
Qed.

(** C36: The read loop against any peer.  On an arbitrary byte stream the loop
    stays in step with the frame boundaries: the frames it hands to the
    dispatcher are exactly the frames encoded by a prefix of the stream, each
    one allowed by the post-handshake rules (no FrameAuth, only ping and pong
    on stream 0, credits of 32 bytes for a known stream), and it stops at the
    first frame that breaks a rule, with that rule's error, or where the
    stream ends or is cut, with the decoder's error. *)
Theorem read_loop_exact known s :
  let '(fs, e) := readLoop (S (length s)) known 0 s in
  ∃ rest, s = concat (map wire fs) ++ rest
    ∧ (∀ i f, fs !! i = Some f →
         frameRules (known i (StreamID f)) f = None
         ∧ Type_ f ≠ FrameAuth
         ∧ (StreamID f = 0 → Type_ f = FramePing ∨ Type_ f = FramePong)
         ∧ (Type_ f = FrameCredit → length (Payload f) = CreditPayloadSize ∧ known i (StreamID f) = true))
    ∧ ((∃ e', e = ReadIO e' ∧ ReadFrame rest = Err e')
       ∨ (∃ f rest', ReadFrame rest = Ok (f, rest')
            ∧ frameRules (known (length fs) (StreamID f)) f = Some e)).
Proof.
  destruct (readLoop (S (length s)) known 0 s) as [fs e] eqn:E.
  destruct (readLoop_fuel (S (length s)) known 0 s fs e ltac:(lia) E) as (rest & Hs & Hall & Hend).
  exists rest. split_and!; [done| |done]. intros i f Hf. specialize (Hall i f Hf). cbn in Hall.
  split; [done|]. unfold frameRules in Hall.
  destruct (Type_ f =? FrameAuth) eqn:E1; [done|]. bools. cbn [orb] in Hall.
  destruct (StreamID f =? 0) eqn:E2; bools; cbn [andb] in Hall.
  - destruct (Type_ f =? FramePing) eqn:E3, (Type_ f =? FramePong) eqn:E4; bools; cbn in Hall; try done;
      (split_and!; [done|tauto|intros E5; unfold FrameCredit, FramePing, FramePong in *; lia]).
  - split_and!; [done|tauto|]. intros E5. rewrite E5 in Hall. cbn [Z.eqb FrameCredit Pos.eqb] in Hall.
    case_bool_decide; [|done]. cbn in Hall. by destruct (known i (StreamID f)).
Qed.

(** ** Limits *)

Definition or_default (x d : Z) : Z := if x <=? 0 then d else x.
Definition frame_bound (x : Z) : Z := if (x <=? 0) || (x >? 16) then 16 else x.

Lemma SanitizeLimits_fields mf mb mt ow cs :
  SanitizeLimits (mkLimits mf mb mt ow cs) =
  let l := mkLimits (frame_bound mf) (or_default mb 720896) (or_default mt 16777216)
             (or_default ow 100000000) (or_default cs 30000000000) in
  (l, negb (MaxBytesTotal l <? MaxBytesPerStream l)).
Proof.
  unfold SanitizeLimits, frame_bound, or_default, MaxFrames. cbn [MaxFramesPerStream].
  destruct ((mf <=? 0) || (mf >? 16)); cbn; destruct (mb <=? 0); cbn; destruct (mt <=? 0); cbn;
    destruct (ow <=? 0); cbn; destruct (cs <=? 0); reflexivity.
Qed.

Lemma or_default_pos x d : 0 < d → 0 < or_default x d.
Proof. intros. unfold or_default. destruct (x <=? 0) eqn:E; bools; lia. Qed.

Lemma or_default_id x d : 0 < x → or_default x d = x.
Proof. intros. unfold or_default. destruct (x <=? 0) eqn:E; bools; lia. Qed.

Lemma frame_bound_range x : 1 ≤ frame_bound x ≤ 16.
Proof. unfold frame_bound. destruct (x <=? 0) eqn:E1, (x >? 16) eqn:E2; bools; cbn; lia. Qed.

Lemma frame_bound_id x : 1 ≤ x ≤ 16 → frame_bound x = x.
Proof. intros. unfold frame_bound. destruct (x <=? 0) eqn:E1, (x >? 16) eqn:E2; bools; cbn; lia. Qed.

(** Sanitized limits are usable.  Whatever the configuration, the sanitized
    limits have a frame bound between 1 and MaxFrames and positive byte bounds,
    wait and stall times; a field that was already valid is kept; the error is
    raised exactly when the carrier-wide budget is smaller than one stream's,
    so accepted limits always let one full stream in; and sanitizing twice
    changes nothing. *)
Theorem sanitize_limits_usable l :
  let '(l', ok) := SanitizeLimits l in
  1 ≤ MaxFramesPerStream l' ≤ MaxFrames ∧ 0 < MaxBytesPerStream l' ∧ 0 < MaxBytesTotal l'
  ∧ 0 < OverflowWait l' ∧ 0 < ConsumerStall l'
  ∧ (1 ≤ MaxFramesPerStream l ≤ MaxFrames → MaxFramesPerStream l' = MaxFramesPerStream l)
  ∧ (0 < MaxBytesPerStream l → MaxBytesPerStream l' = MaxBytesPerStream l)
  ∧ (0 < MaxBytesTotal l → MaxBytesTotal l' = MaxBytesTotal l)
  ∧ (0 < OverflowWait l → OverflowWait l' = OverflowWait l)
  ∧ (0 < ConsumerStall l → ConsumerStall l' = ConsumerStall l)
  ∧ (ok = true ↔ MaxBytesPerStream l' ≤ MaxBytesTotal l')
  ∧ SanitizeLimits l' = (l', ok).
Proof.
  destruct l as [mf mb mt ow cs]. rewrite SanitizeLimits_fields.
  pose proof (frame_bound_range mf). pose proof (or_default_pos mb 720896 ltac:(lia)).
  pose proof (or_default_pos mt 16777216 ltac:(lia)). pose proof (or_default_pos ow 100000000 ltac:(lia)).
  pose proof (or_default_pos cs 30000000000 ltac:(lia)). unfold MaxFrames.
  cbn [MaxFramesPerStream MaxBytesPerStream MaxBytesTotal OverflowWait ConsumerStall].
  split_and!; try lia; try apply frame_bound_id; try apply or_default_id.
  rewrite SanitizeLimits_fields. rewrite (frame_bound_id (frame_bound mf)) by done.
  rewrite (or_default_id (or_default mb _)), (or_default_id (or_default mt _)),
    (or_default_id (or_default ow _)), (or_default_id (or_default cs _)) by done. done.
Qed.

(** ** Liveness *)

(** One round of the keepalive loop after its ping: [saw] is the latched pong,
    which the round clears.  The second component says that the path is
    declared dead. *)
Definition livenessRound (rounds : Z) (saw : bool) (missed : Z) : Z * bool :=
  let missed := if saw then 0 else missed + 1 in
  (missed, missed >=? rounds).

Definition SetLivenessRounds (rounds cur : Z) : Z := if rounds >? 0 then rounds else cur.

Definition DefaultLivenessRounds : Z := 3.

(** The loop over a history of rounds: after which rounds it declared the path
    dead. *)
Fixpoint liveness (rounds missed : Z) (saws : list bool) : list bool :=
  match saws with
  | [] => []
  | saw :: saws => let '(missed, dead) := livenessRound rounds saw missed in dead :: liveness rounds missed saws
  end.

(** The unanswered rounds at the end of a history. *)
Fixpoint unanswered (missed : Z) (saws : list bool) : Z :=
  match saws with [] => missed | saw :: saws => unanswered (if saw then 0 else missed + 1) saws end.

Lemma unanswered_app missed a b : unanswered missed (a ++ b) = unanswered (unanswered missed a) b.
Proof. revert missed. induction a as [|x a IH]; intros missed; [done|]. apply IH. Qed.

Lemma unanswered_snoc l saw : unanswered 0 (l ++ [saw]) = if saw then 0 else unanswered 0 l + 1.
Proof. by rewrite unanswered_app. Qed.

Lemma unanswered_run l n :
  Z.of_nat n ≤ unanswered 0 l ↔ ∃ before, l = before ++ replicate n false.
Proof.
  revert n. induction l as [|saw l IH] using rev_ind; intros n.
  - cbn. split; [intros ?; exists []; by replace n with 0%nat by lia|].
    intros [before E]. destruct before; [|done]. by destruct n.
  - rewrite unanswered_snoc. destruct n as [|n].
    + split; [intros _; exists (l ++ [saw]); by rewrite app_nil_r|]. intros _.
      destruct saw; [done|]. pose proof (proj2 (IH 0%nat) (ex_intro _ l (eq_sym (app_nil_r l)))). lia.
    + rewrite replicate_S_end. destruct saw.
      * split; [lia|]. intros [before E]. rewrite app_assoc in E. by apply app_inj_tail in E as [_ ?].
      * rewrite Nat2Z.inj_succ. transitivity (Z.of_nat n ≤ unanswered 0 l); [lia|]. rewrite IH. split.
        -- intros [before ->]. exists before. by rewrite app_assoc.
        -- intros [before E]. rewrite app_assoc in E. apply app_inj_tail in E as [-> _]. by exists before.
Qed.

Lemma liveness_lookup rounds missed saws i :
  liveness rounds missed saws !! i = (λ _, unanswered missed (take (S i) saws) >=? rounds) <$> saws !! i.
Proof.
  revert missed i. induction saws as [|saw saws IH]; intros missed [|i]; [done..|].
  cbn [liveness livenessRound]. rewrite lookup_cons_ne_0 by done. cbn [Nat.pred]. rewrite IH. done.
Qed.

(** Blackhole detection is exact.  With a positive round count, the
    keepalive loop declares the path dead after a round if and only if that
    round and at least rounds - 1 rounds immediately before it all passed
    without a pong; a pong in every window of that many rounds keeps the
    carrier up for ever, and rounds silent rounds in a row always end it. *)
Theorem liveness_exact rounds saws i saw :
  0 < rounds → saws !! i = Some saw →
  (liveness rounds 0 saws !! i = Some true
   ↔ ∃ before, take (S i) saws = before ++ replicate (Z.to_nat rounds) false).
Proof.
  intros Hr Hi. rewrite liveness_lookup, Hi. cbn [fmap option_fmap option_map].
  rewrite <- unanswered_run, Z2Nat.id by lia. split.
  - intros [= H]. bools. lia.
  - intros H. f_equal. apply Z.geb_le. lia.
Qed.

Lemma liveness_exact_witness :
  liveness 3 0 [true; false; false; false; true] = [false; false; false; true; false]
  ∧ (liveness 3 0 [true; false; false; false; true] !! 3%nat = Some true
     ↔ ∃ before, [true; false; false; false] = before ++ replicate 3 false).
Proof.
  split; [by vm_compute|].
  apply (liveness_exact 3 [true; false; false; false; true] 3 false); [lia|done].
Defined.
