(* ===== verification/CarrierWrites.v ===== *)
(** * The carrier's write path (pkg/mux/carrier.go)

    Every frame is written by one writer goroutine that serves two queues, data
    ([writeCh]) and control ([ctrlCh]).  A caller of [write] or [writeControl]
    registers with a wait group while the carrier is open, enqueues its request
    or gives up when the carrier closes, and waits for the request's result.
    Close latches [closing], closes [closed], waits for the registered callers
    of each queue and fails what is still queued.

    Requests are numbered in the order of the calls; each request's phase says
    where it is.  One label is one atomic action of one goroutine. *)
From S2P Require Export Frame.
#[local] Open Scope Z_scope.

Inductive plane := Control | Data.

#[export] Instance plane_eq_dec : EqDecision plane.
Proof. solve_decision. Defined.

Inductive wresult := Written (ok : bool) | ErrCarrierClosed.

(** A request: registered and selecting on its queue, queued, being written,
    resolved (its result was sent on [done]), given up before it was queued, or
    dropped by TryWriteControlFrame on a full queue. *)
Inductive rphase := REnter | RQueued | RWriting | RResolved (r : wresult) | RAborted | RDropped.

Record request := mkReq { rq_plane : plane; rq_try : bool; rq_data : list byte; rq_phase : rphase }.

#[export] Instance expand_request : Expandable request :=
  {| expand := λ r, mkReq (rq_plane r) (rq_try r) (rq_data r) (rq_phase r) |}.

(** The writer: at its non-blocking look at the control queue, at its blocking
    select, writing a request, or returned. *)
Inductive writer := WPeek | WSelect | WWriting (id : nat) | WExited.

(** Close up to the drains: not started, closing, closed, draining control,
    waiting for data callers, draining data, past the write path. *)
Inductive wclose := COpen | CClosing | CClosed | CDrainCtrl | CWaitData | CDrainData | CPast.

Definition crank (k : wclose) : nat :=
  match k with COpen => 0 | CClosing => 1 | CClosed => 2 | CDrainCtrl => 3 | CWaitData => 4 | CDrainData => 5 | CPast => 6 end.

Record wstate := mkW {
  reqs : list request;
  ctrlCh : list nat;
  writeCh : list nat;
  w_writer : writer;
  w_close : wclose;
  wire_out : list nat              (* the requests the connection took in full, in order *)
}.

#[export] Instance expand_wstate : Expandable wstate :=
  {| expand := λ w, mkW (reqs w) (ctrlCh w) (writeCh w) (w_writer w) (w_close w) (wire_out w) |}.

(** The bytes of those requests. *)
Definition onWire (w : wstate) : list (list byte) := omap (λ id, rq_data <$> reqs w !! id) (wire_out w).

Definition w_init : wstate := mkW [] [] [] WPeek COpen [].

Definition closingW (w : wstate) : bool := Nat.leb 1 (crank (w_close w)).
Definition closedW (w : wstate) : bool := Nat.leb 2 (crank (w_close w)).

Definition setPhase (id : nat) (p : rphase) (w : wstate) : wstate :=
  w <| reqs := alter (λ r, r <| rq_phase := p |>) id (reqs w) |>.

Definition queue (p : plane) (w : wstate) : list nat := match p with Control => ctrlCh w | Data => writeCh w end.
Definition capacity (p : plane) : nat := match p with Control => 64 | Data => 256 end.
Definition setQueue (p : plane) (l : list nat) (w : wstate) : wstate :=
  match p with Control => w <| ctrlCh := l |> | Data => w <| writeCh := l |> end.

(** The callers still counted by the queue's wait group. *)
Definition entering (p : plane) (w : wstate) : bool :=
  existsb (λ r, bool_decide (rq_plane r = p) && match rq_phase r with REnter => true | _ => false end) (reqs w).

Inductive wlabel :=
| WCall (p : plane) (try : bool) (data : list byte)  (* write, writeControl, TryWriteControlFrame *)
| WEnqueue (id : nat)
| WGiveUp (id : nat)
| WLoop (p : plane)            (* the writer takes from a queue, or looks and goes on *)
| WExit                        (* the writer's select sees closed *)
| WWrote (ok : bool)           (* rwc.Write returns *)
| WClose.

(** The first critical section of write and writeControl: once closing is set
    the call returns ErrCarrierClosed without a request. *)
Definition call (p : plane) (try : bool) (data : list byte) (w : wstate) : wstate :=
  if closingW w then w else w <| reqs := reqs w ++ [mkReq p try data REnter] |>.

(** The select: enqueue when there is room. *)
Definition enqueue (id : nat) (w : wstate) : option wstate :=
  r ← reqs w !! id;
  match rq_phase r with
  | REnter =>
      if Nat.ltb (length (queue (rq_plane r) w)) (capacity (rq_plane r))
      then Some (setQueue (rq_plane r) (queue (rq_plane r) w ++ [id]) (setPhase id RQueued w))
      else None
  | _ => None
  end.

(** Its other arm: closed for the blocking calls, default for the try call. *)
Definition giveUp (id : nat) (w : wstate) : option wstate :=
  r ← reqs w !! id;
  match rq_phase r with
  | REnter =>
      if rq_try r
      then if Nat.ltb (length (queue (rq_plane r) w)) (capacity (rq_plane r)) then None
           else Some (setPhase id RDropped w)
      else if closedW w then Some (setPhase id RAborted w) else None
  | _ => None
  end.

(** The writer loop: the look at ctrlCh, then the select over both queues. *)
Definition writeLoop (p : plane) (w : wstate) : option wstate :=
  match w_writer w with
  | WPeek =>
      match ctrlCh w with
      | id :: rest => Some (setPhase id RWriting (w <| ctrlCh := rest |> <| w_writer := WWriting id |>))
      | [] => Some (w <| w_writer := WSelect |>)
      end
  | WSelect =>
      match queue p w with
      | id :: rest => Some (setPhase id RWriting (setQueue p rest w <| w_writer := WWriting id |>))
      | [] => None
      end
  | _ => None
  end.

Definition writerExit (w : wstate) : option wstate :=
  match w_writer w with
  | WSelect => if closedW w then Some (w <| w_writer := WExited |>) else None
  | _ => None
  end.

(** writeOne: the result is ErrCarrierClosed once the carrier is closed. *)
Definition writeOne (ok : bool) (w : wstate) : option wstate :=
  match w_writer w with
  | WWriting id =>
      r ← reqs w !! id;
      let w := if ok then w <| wire_out := wire_out w ++ [id] |> else w in
      Some (setPhase id (RResolved (if closedW w then ErrCarrierClosed else Written ok)) (w <| w_writer := WPeek |>))
  | _ => None
  end.

(** The write path's part of Close. *)
Definition closeWrites (w : wstate) : option wstate :=
  match w_close w with
  | COpen => Some (w <| w_close := CClosing |>)
  | CClosing => Some (w <| w_close := CClosed |>)
  | CClosed => if entering Control w then None else Some (w <| w_close := CDrainCtrl |>)
  | CDrainCtrl =>
      match ctrlCh w with
      | id :: rest => Some (setPhase id (RResolved ErrCarrierClosed) (w <| ctrlCh := rest |>))
      | [] => Some (w <| w_close := CWaitData |>)
      end
  | CWaitData => if entering Data w then None else Some (w <| w_close := CDrainData |>)
  | CDrainData =>
      match writeCh w with
      | id :: rest => Some (setPhase id (RResolved ErrCarrierClosed) (w <| writeCh := rest |>))
      | [] => Some (w <| w_close := CPast |>)
      end
  | CPast => None
  end.

Definition wstep (l : wlabel) (w : wstate) : option wstate :=
  match l with
  | WCall p try data => Some (call p try data w)
  | WEnqueue id => enqueue id w
  | WGiveUp id => giveUp id w
  | WLoop p => writeLoop p w
  | WExit => writerExit w
  | WWrote ok => writeOne ok w
  | WClose => closeWrites w
  end.

Fixpoint wrun (ls : list wlabel) (w : wstate) : option wstate :=
  match ls with [] => Some w | l :: ls => w ← wstep l w; wrun ls w end.

(** ** Invariant *)
Definition has (w : wstate) (id : nat) (p : plane) (ph : rphase) : Prop :=
  ∃ r, reqs w !! id = Some r ∧ rq_plane r = p ∧ rq_phase r = ph.

Record winv (w : wstate) : Prop := {
  wi_nodup : NoDup (ctrlCh w) ∧ NoDup (writeCh w);
  wi_queue : ∀ p id, id ∈ queue p w ↔ has w id p RQueued;
  wi_writing : ∀ id, (∃ p, has w id p RWriting) ↔ w_writer w = WWriting id;
  wi_ctrl : ((3 ≤ crank (w_close w))%nat → ∀ id, ¬ has w id Control REnter)
            ∧ ((4 ≤ crank (w_close w))%nat → ctrlCh w = []);
  wi_data : ((5 ≤ crank (w_close w))%nat → ∀ id, ¬ has w id Data REnter)
            ∧ ((6 ≤ crank (w_close w))%nat → writeCh w = [])
}.

Lemma has_setPhase id ph w id' p ph' :
  has (setPhase id ph w) id' p ph' ↔
  if bool_decide (id' = id) then (∃ r, reqs w !! id = Some r ∧ rq_plane r = p) ∧ ph' = ph else has w id' p ph'.
Proof.
  unfold has, setPhase. cbn [reqs setter]. case_bool_decide as E.
  - subst id'. rewrite list_lookup_alter_eq. split.
    + intros (r & Hr & Hp & Hph). destruct (reqs w !! id) as [r0|]; [|done]. injection Hr as <-. cbn in *. eauto.
    + intros [(r & -> & Hp) ->]. eexists. split; [done|]. done.
  - by rewrite list_lookup_alter_ne.
Qed.

Lemma entering_has p w : entering p w = false → ∀ id, ¬ has w id p REnter.
Proof.
  intros He id (r & Hr & Hp & Hph). unfold entering in He.
  assert (existsb (λ r, bool_decide (rq_plane r = p) && match rq_phase r with REnter => true | _ => false end) (reqs w) = true).
  { apply existsb_exists. exists r. split; [by eapply list_elem_of_In, list_elem_of_lookup_2|].
    rewrite bool_decide_true by done. by rewrite Hph. }
  congruence.
Qed.

Lemma entering_true p w : entering p w = true → ∃ id, has w id p REnter.
Proof.
  unfold entering. intros (r & [id Hr]%list_elem_of_In%list_elem_of_lookup & H)%existsb_exists.
  exists id, r. apply andb_true_iff in H as [H1 H2]. apply bool_decide_eq_true in H1. by destruct (rq_phase r).
Qed.

(** A request leaves the head of its queue. *)
Definition removed (p : plane) (rest : list nat) (id : nat) (ph : rphase) (wr : writer) (w : wstate) : wstate :=
  setPhase id ph (setQueue p rest w <| w_writer := wr |>).

Lemma winv_remove p id rest ph wr w :
  winv w → queue p w = id :: rest → ph ≠ RQueued → ph ≠ REnter →
  (∀ j, w_writer w = WWriting j → wr = w_writer w) →
  (ph = RWriting ↔ wr = WWriting id) → (wr = w_writer w ∨ wr = WWriting id) →
  winv (removed p rest id ph wr w).
Proof.
  intros [Hnd Hq Hw Hc Hd] E Hp1 Hp2 Hwr1 Hwr2 Hwr3.
  assert (has w id p RQueued) as Hid by (apply Hq; rewrite E; left).
  assert (∃ r, reqs w !! id = Some r ∧ rq_plane r = p) as Hr by (destruct Hid as (r & ? & ? & _); eauto).
  assert (id ∉ rest) as Hni.
  { destruct Hnd as [Hn1 Hn2]. destruct p; cbn in E; [rewrite E in Hn1|rewrite E in Hn2];
      [by apply NoDup_cons in Hn1 as []|by apply NoDup_cons in Hn2 as []]. }
  assert (∀ j q ph', has (removed p rest id ph wr w) j q ph' ↔
    if bool_decide (j = id) then (∃ r, reqs w !! id = Some r ∧ rq_plane r = q) ∧ ph' = ph else has w j q ph') as Hhas.
  { intros j q ph'. unfold removed. rewrite has_setPhase. by destruct p. }
  assert (w_writer (removed p rest id ph wr w) = wr ∧ w_close (removed p rest id ph wr w) = w_close w) as [Hw' Hcl']
    by (by destruct p).
  constructor; rewrite ?Hcl'.
  - destruct Hnd as [Hn1 Hn2]. destruct p; cbn in *; rewrite E in *.
    + split; [by apply NoDup_cons in Hn1 as []|done].
    + split; [done|by apply NoDup_cons in Hn2 as []].
  - intros q j. rewrite Hhas. case_bool_decide as Ej.
    + subst j. split; [|intros [_ ?]; done]. intros Hin. exfalso.
      destruct p, q; cbn in Hin; try done; first [apply (Hq Control id) in Hin|apply (Hq Data id) in Hin]; destruct Hin as (r1 & H1 & H2 & _), Hid as (r2 & H3 & H4 & _); congruence.
    + rewrite <- Hq. destruct p, q; cbn in *; rewrite ?E; rewrite ?elem_of_cons; try done; set_solver.
  - intros j. setoid_rewrite Hhas. case_bool_decide as Ej.
    + subst j. rewrite Hw', <- Hwr2. split.
      * by intros [q [_ ->]].
      * intros ->. destruct Hr as (r & ? & ?). eauto 10.
    + rewrite Hw, Hw'. split; [intros Hj; by rewrite (Hwr1 j Hj)|].
      intros Hj. destruct Hwr3; congruence.
  - split.
    + intros Hk j. rewrite Hhas. case_bool_decide; [by intros [_ ?]|]. by apply Hc.
    + intros Hk. specialize (proj2 Hc Hk) as Hn. destruct p; cbn in *; congruence.
  - split.
    + intros Hk j. rewrite Hhas. case_bool_decide; [by intros [_ ?]|]. by apply Hd.
    + intros Hk. specialize (proj2 Hd Hk) as Hn. destruct p; cbn in *; congruence.
Qed.

(** A request changes phase without moving between the queues. *)
Lemma winv_phase id p ph0 ph w :
  winv w → has w id p ph0 → ph0 ≠ RQueued → ph0 ≠ RWriting → ph ≠ RQueued → ph ≠ RWriting → ph ≠ REnter →
  winv (setPhase id ph w).
Proof.
  intros [Hnd Hq Hw Hc Hd] Hid H0 H1 H2 H3 H4. constructor; [done|..].
  - intros q j. rewrite has_setPhase. case_bool_decide as Ej; [|apply Hq]. subst j.
    split; [|by intros [_ ?]]. intros Hin. apply Hq in Hin. destruct Hin as (r & Hr & _ & Hph), Hid as (r' & Hr' & _ & Hph'). congruence.
  - intros j. setoid_rewrite has_setPhase. case_bool_decide as Ej; [|apply Hw]. subst j. split; [by intros [_ [_ ?]]|].
    intros Hj. apply Hw in Hj as (q & r & Hr & _ & Hph). destruct Hid as (r' & Hr' & _ & Hph'). congruence.
  - split; [|apply Hc]. intros Hk j. rewrite has_setPhase. case_bool_decide; [by intros [_ ?]|by apply Hc].
  - split; [|apply Hd]. intros Hk j. rewrite has_setPhase. case_bool_decide; [by intros [_ ?]|by apply Hd].
Qed.

(** A request enters its queue. *)
Lemma winv_enqueue id p w :
  winv w → has w id p REnter → winv (setQueue p (queue p w ++ [id]) (setPhase id RQueued w)).
Proof.
  intros [Hnd Hq Hw Hc Hd] Hid.
  assert (∀ q, id ∉ queue q w) as Hni.
  { intros q Hin. apply Hq in Hin as (r & Hr & _ & Hph). destruct Hid as (r' & Hr' & _ & Hph'). congruence. }
  assert (∀ j q ph', has (setQueue p (queue p w ++ [id]) (setPhase id RQueued w)) j q ph' ↔
    if bool_decide (j = id) then (∃ r, reqs w !! id = Some r ∧ rq_plane r = q) ∧ ph' = RQueued else has w j q ph') as Hhas.
  { intros j q ph'. rewrite <- has_setPhase. by destruct p. }
  assert (NoDup (queue p w ++ [id])) as Hnd'.
  { apply NoDup_app. split_and!; [by destruct p; apply Hnd| |apply NoDup_singleton].
    intros x Hx ->%list_elem_of_singleton. by eapply Hni. }
  set (w' := setQueue _ _ _) in *.
  assert (w_writer w' = w_writer w ∧ w_close w' = w_close w) as [Hw' Hcl'] by (unfold w'; by destruct p).
  constructor; rewrite ?Hcl'.
  - destruct Hnd. unfold w'. destruct p; by split.
  - intros q j. rewrite Hhas. unfold w'. case_bool_decide as Ej.
    + subst j. destruct Hid as (r & Hr & Hp & _). specialize (Hni q). destruct p, q; cbn in *; (split; [intros Hin|intros [(r' & Hr' & Hp') _]]);
        try (rewrite elem_of_app; right; left); try (split; [eauto|done]); try done; congruence.
    + rewrite <- Hq. destruct p, q; cbn; rewrite ?elem_of_app, ?list_elem_of_singleton; tauto.
  - intros j. setoid_rewrite Hhas. rewrite Hw'. case_bool_decide as Ej; [|apply Hw]. subst j. split; [by intros [_ [_ ?]]|].
    intros Hj. apply Hw in Hj as (q & r & Hr & _ & Hph). destruct Hid as (r' & Hr' & _ & Hph'). congruence.
  - split.
    + intros Hk j. rewrite Hhas. case_bool_decide; [by intros [_ ?]|by apply Hc].
    + intros Hk. destruct p; [|by apply Hc]. exfalso. eapply (proj1 Hc); [lia|exact Hid].
  - split.
    + intros Hk j. rewrite Hhas. case_bool_decide; [by intros [_ ?]|by apply Hd].
    + intros Hk. destruct p; [by apply Hd|]. exfalso. eapply (proj1 Hd); [lia|exact Hid].
Qed.

Lemma winv_call p try data w : winv w → winv (call p try data w).
Proof.
  intros Hw0. unfold call. destruct (closingW w) eqn:Ecl; [done|]. destruct Hw0 as [Hnd Hq Hw Hc Hd].
  assert (crank (w_close w) = 0%nat) as Hk by (unfold closingW in Ecl; destruct (w_close w); done).
  assert (∀ j q ph', ph' ≠ REnter → has (w <| reqs := reqs w ++ [mkReq p try data REnter] |>) j q ph' ↔ has w j q ph') as Hhas.
  { intros j q ph' Hne. unfold has. cbn. split; intros (r & Hr & Hp & Hph); exists r; (split; [|done]).
    - apply lookup_app_Some in Hr as [?|[_ Hr]]; [done|]. apply list_lookup_singleton_Some in Hr as [_ <-]. done.
    - by apply lookup_app_l_Some. }
  constructor; cbn; [done|..|rewrite Hk; lia|rewrite Hk; lia].
  - intros q j. rewrite Hhas by done. apply Hq.
  - intros j. rewrite <- Hw. split; intros [q H]; exists q; by apply Hhas.
Qed.

Lemma winv_close w k :
  winv w → w_close w = k → ∀ k', crank k' = S (crank k) →
  (k' = CDrainCtrl → entering Control w = false) → (k' = CWaitData → ctrlCh w = []) →
  (k' = CDrainData → entering Data w = false) → (k' = CPast → writeCh w = []) →
  winv (w <| w_close := k' |>).
Proof.
  intros [Hnd Hq Hw Hc Hd] <- k' Hk H1 H2 H3 H4. constructor; try done; cbn.
  - split; intros Hge; destruct k'; cbn in *; try lia; try (intros id; apply Hc; lia); try (by apply Hc; lia);
      try (by apply entering_has; auto); auto.
  - split; intros Hge; destruct k'; cbn in *; try lia; try (intros id; apply Hd; lia); try (by apply Hd; lia);
      try (by apply entering_has; auto); auto.
Qed.

Lemma winv_writer wr w :
  (∀ id, w_writer w ≠ WWriting id) → (∀ id, wr ≠ WWriting id) → winv w → winv (w <| w_writer := wr |>).
Proof.
  intros H1 H2 [Hnd Hq Hw Hc Hd]. constructor; try done. intros id. cbn. split.
  - intros H. by destruct (H1 id (proj1 (Hw id) H)).
  - intros H. by destruct (H2 id H).
Qed.

(** The write of a request ends and its result is sent. *)
Lemma winv_wrote id res w w1 :
  winv w → w_writer w = WWriting id →
  reqs w1 = reqs w → ctrlCh w1 = ctrlCh w → writeCh w1 = writeCh w → w_close w1 = w_close w →
  winv (setPhase id (RResolved res) (w1 <| w_writer := WPeek |>)).
Proof.
  intros [Hnd Hq Hw Hc Hd] Ew E1 E2 E3 E4.
  assert (∀ j q ph', has (setPhase id (RResolved res) (w1 <| w_writer := WPeek |>)) j q ph'
    ↔ if bool_decide (j = id) then (∃ r, reqs w !! id = Some r ∧ rq_plane r = q) ∧ ph' = RResolved res
      else has w j q ph') as Hhas.
  { intros j q ph'. rewrite has_setPhase. unfold has. cbn [reqs setter]. by rewrite E1. }
  set (w2 := setPhase _ _ _) in *.
  assert (ctrlCh w2 = ctrlCh w ∧ writeCh w2 = writeCh w ∧ w_close w2 = w_close w ∧ w_writer w2 = WPeek) as (F1 & F2 & F3 & F4)
    by (unfold w2; by rewrite <- E2, <- E3, <- E4).
  assert (∀ q, queue q w2 = queue q w) as Hqq by (by intros []).
  assert (∃ p, has w id p RWriting) as [p Hid] by (by apply Hw).
  clearbody w2. constructor; rewrite ?F1, ?F2, ?F3, ?F4; [done|..].
  - intros q j. rewrite Hhas, Hqq, Hq. case_bool_decide as Ej; [|done]. subst j. split; [|by intros [_ ?]].
    intros (r1 & Hr1 & _ & Hp1). destruct Hid as (r2 & Hr2 & _ & Hp2). congruence.
  - intros j. setoid_rewrite Hhas. split; [|done]. intros [q H]. case_bool_decide; [by destruct H|].
    assert (w_writer w = WWriting j) as Hj by (apply Hw; eauto). congruence.
  - split; [|apply Hc]. intros Hk j. rewrite Hhas. case_bool_decide; [by intros [_ ?]|by apply Hc].
  - split; [|apply Hd]. intros Hk j. rewrite Hhas. case_bool_decide; [by intros [_ ?]|by apply Hd].
Qed.

Lemma winv_step l w w' : winv w → wstep l w = Some w' → winv w'.
Proof.
  intros Hw. destruct l as [p try data|id|id|p| |ok|]; cbn [wstep].
  - intros [= <-]. by apply winv_call.
  - unfold enqueue. destruct (reqs w !! id) as [r|] eqn:Hr; [|done]. cbn [mbind option_bind].
    destruct (rq_phase r) eqn:Hph; try done. destruct (Nat.ltb _ _); [|done]. intros [= <-].
    apply winv_enqueue; [done|]. by exists r.
  - unfold giveUp. destruct (reqs w !! id) as [r|] eqn:Hr; [|done]. cbn [mbind option_bind].
    destruct (rq_phase r) eqn:Hph; try done.
    destruct (rq_try r); [destruct (Nat.ltb _ _); [done|]|destruct (closedW w); [|done]]; intros [= <-];
      (eapply (winv_phase id (rq_plane r) REnter); [done|by exists r|done..]).
  - unfold writeLoop. destruct (w_writer w) eqn:Ew; try done.
    + destruct (ctrlCh w) as [|id rest] eqn:Ec; intros [= <-].
      * apply winv_writer; [by rewrite Ew|done|done].
      * apply (winv_remove Control id rest RWriting (WWriting id) w); try done; [by rewrite Ew|by right].
    + destruct (queue p w) as [|id rest] eqn:Ec; [done|]. intros [= <-].
      apply (winv_remove p id rest RWriting (WWriting id) w); try done; [by rewrite Ew|by right].
  - unfold writerExit. destruct (w_writer w) eqn:Ew; try done. destruct (closedW w); [|done]. intros [= <-].
    apply winv_writer; [by rewrite Ew|done|done].
  - unfold writeOne. destruct (w_writer w) as [| |id|] eqn:Ew; try done.
    destruct (reqs w !! id) as [r|] eqn:Hr; [|done]. cbn [mbind option_bind]. intros [= <-].
    apply (winv_wrote id _ w); by destruct ok.
  - unfold closeWrites. destruct (w_close w) eqn:Ek.
    + intros [= <-]. by eapply winv_close.
    + intros [= <-]. by eapply winv_close.
    + destruct (entering Control w) eqn:Ee; [done|]. intros [= <-]. by eapply winv_close.
    + destruct (ctrlCh w) as [|id rest] eqn:Ec; intros [= <-]; [by eapply winv_close|].
      apply (winv_remove Control id rest (RResolved ErrCarrierClosed) (w_writer w) w); try done; [|by left].
      split; [done|]. intros Hj. apply (wi_writing w Hw) in Hj as (q & r & Hr & _ & Hph).
      assert (id ∈ queue Control w) as Hin by (cbn; rewrite Ec; left).
      apply (wi_queue w Hw) in Hin as (r' & Hr' & _ & Hph'). congruence.
    + destruct (entering Data w) eqn:Ee; [done|]. intros [= <-]. by eapply winv_close.
    + destruct (writeCh w) as [|id rest] eqn:Ec; intros [= <-]; [by eapply winv_close|].
      apply (winv_remove Data id rest (RResolved ErrCarrierClosed) (w_writer w) w); try done; [|by left].
      split; [done|]. intros Hj. apply (wi_writing w Hw) in Hj as (q & r & Hr & _ & Hph).
      assert (id ∈ queue Data w) as Hin by (cbn; rewrite Ec; left).
      apply (wi_queue w Hw) in Hin as (r' & Hr' & _ & Hph'). congruence.
    + done.
Qed.

Lemma winv_init : winv w_init.
Proof.
  assert (∀ id p ph, ¬ has w_init id p ph) as Hno by (intros id p ph (r & Hr & _); done).
  constructor; cbn; try done.
  - split; apply NoDup_nil_2.
  - intros p id. split; [destruct p; cbn; intros H; by apply elem_of_nil in H|by intros ?%Hno].
  - intros id. split; [intros [p Hp]; by apply Hno in Hp|done].
Qed.

Lemma winv_run ls : ∀ w w', winv w → wrun ls w = Some w' → winv w'.
Proof.
  induction ls as [|l ls IH]; intros w w' Hw; cbn [wrun]; [by intros [= <-]|].
  destruct (wstep l w) as [w1|] eqn:E; [|done]. cbn [mbind option_bind]. eauto using winv_step.
Qed.

(** ** Results are final *)

(** What a caller has been told, or that it was never queued. *)
Definition settled (r : request) : bool :=
  match rq_phase r with RResolved _ | RAborted | RDropped => true | _ => false end.

Lemma setPhase_settled j ph w id r r0 :
  reqs w !! id = Some r → settled r = true → reqs w !! j = Some r0 → settled r0 = false →
  reqs (setPhase j ph w) !! id = Some r.
Proof.
  intros Hr Hs Hj Hn. cbn. rewrite list_lookup_alter_ne; [done|]. intros ->. congruence.
Qed.

Lemma settled_step l w w' id r :
  winv w → wstep l w = Some w' → reqs w !! id = Some r → settled r = true → reqs w' !! id = Some r.
Proof.
  intros Hw Hstep Hr Hs.
  assert (∀ p j, j ∈ queue p w → ∃ r0, reqs w !! j = Some r0 ∧ settled r0 = false) as Hqueue.
  { intros p j (r0 & Hr0 & _ & Hph)%(wi_queue w Hw). exists r0. unfold settled. by rewrite Hph. }
  assert (∀ j, w_writer w = WWriting j → ∃ r0, reqs w !! j = Some r0 ∧ settled r0 = false) as Hwrite.
  { intros j (q & r0 & Hr0 & _ & Hph)%(wi_writing w Hw). exists r0. unfold settled. by rewrite Hph. }
  destruct l as [p try data|j|j|p| |ok|]; cbn [wstep] in Hstep.
  - injection Hstep as <-. unfold call. destruct (closingW w); [done|]. cbn. by apply lookup_app_l_Some.
  - unfold enqueue in Hstep. destruct (reqs w !! j) as [r0|] eqn:Hj; [|done]. cbn [mbind option_bind] in Hstep.
    destruct (rq_phase r0) eqn:Hph; try done. destruct (Nat.ltb _ _); [|done]. injection Hstep as <-.
    transitivity (reqs (setPhase j RQueued w) !! id); [by destruct (rq_plane r0)|].
    eapply setPhase_settled; eauto. unfold settled. by rewrite Hph.
  - unfold giveUp in Hstep. destruct (reqs w !! j) as [r0|] eqn:Hj; [|done]. cbn [mbind option_bind] in Hstep.
    destruct (rq_phase r0) eqn:Hph; try done.
    assert (settled r0 = false) as Hn by (unfold settled; by rewrite Hph).
    destruct (rq_try r0); [destruct (Nat.ltb _ _); [done|]|destruct (closedW w); [|done]]; injection Hstep as <-;
      by eapply setPhase_settled.
  - unfold writeLoop in Hstep. destruct (w_writer w) eqn:Ew; try done.
    + destruct (ctrlCh w) as [|j rest] eqn:Ec; injection Hstep as <-; [done|].
      destruct (Hqueue Control j) as (r0 & Hj & Hn); [cbn; rewrite Ec; left|]. by eapply setPhase_settled.
    + destruct (queue p w) as [|j rest] eqn:Ec; [done|]. injection Hstep as <-.
      destruct (Hqueue p j) as (r0 & Hj & Hn); [rewrite Ec; left|].
      transitivity (reqs (setPhase j RWriting w) !! id); [by destruct p|]. by eapply setPhase_settled.
  - unfold writerExit in Hstep. destruct (w_writer w); try done. destruct (closedW w); [|done]. by injection Hstep as <-.
  - unfold writeOne in Hstep. destruct (w_writer w) as [| |j|] eqn:Ew; try done. destruct (Hwrite j eq_refl) as (r0 & Hj & Hn).
    rewrite Hj in Hstep. cbn [mbind option_bind] in Hstep. injection Hstep as <-.
    transitivity (reqs (setPhase j (RResolved ErrCarrierClosed) w) !! id); [|by eapply setPhase_settled].
    cbn. rewrite !list_lookup_alter_ne; [by destruct ok|intros ->; congruence..].
  - unfold closeWrites in Hstep. destruct (w_close w); try done; try (by injection Hstep as <-).
    + destruct (entering Control w); [done|]. by injection Hstep as <-.
    + destruct (ctrlCh w) as [|j rest] eqn:Ec; injection Hstep as <-; [done|].
      destruct (Hqueue Control j) as (r0 & Hj & Hn); [cbn; rewrite Ec; left|]. by eapply setPhase_settled.
    + destruct (entering Data w); [done|]. by injection Hstep as <-.
    + destruct (writeCh w) as [|j rest] eqn:Ec; injection Hstep as <-; [done|].
      destruct (Hqueue Data j) as (r0 & Hj & Hn); [cbn; rewrite Ec; left|]. by eapply setPhase_settled.
Qed.

Lemma settled_run ls : ∀ w w' id r,
  winv w → wrun ls w = Some w' → reqs w !! id = Some r → settled r = true → reqs w' !! id = Some r.
Proof.
  induction ls as [|l ls IH]; intros w w' id r Hw; cbn [wrun]; [by intros [= <-]|].
  destruct (wstep l w) as [w1|] eqn:E; [|done]. cbn [mbind option_bind]. intros Hr Hid Hs.
  eapply IH; [by eapply winv_step|done|by eapply settled_step|done].
Qed.

(** ** Close always has a way on *)
Lemma entering_can_leave w p : closedW w = true → entering p w = true →
  ∃ id, is_Some (enqueue id w) ∨ is_Some (giveUp id w).
Proof.
  intros Hc (id & r & Hr & Hp & Hph)%entering_true. exists id. unfold enqueue, giveUp.
  rewrite Hr. cbn [mbind option_bind]. rewrite Hph. destruct (Nat.ltb _ _); [by left|].
  right. rewrite Hc. by destruct (rq_try r).
Qed.

(** C37: every write request is resolved by shutdown.  In any interleaving of
    callers, the writer and Close: (1) once Close is past its two drains both
    queues are empty and every request ever made has its result, was given up
    before it was queued, or is the one the writer is inside rwc.Write with;
    no caller is left waiting on a queue; (2) what a caller was told never
    changes afterwards; (3) Close is never stuck: while it waits for the
    callers of a queue, some caller can enqueue or give up. *)
Theorem carrier_writes_resolved ls w :
  wrun ls w_init = Some w →
  (w_close w = CPast →
     ctrlCh w = [] ∧ writeCh w = [] ∧
     ∀ id r, reqs w !! id = Some r → settled r = true ∨ (rq_phase r = RWriting ∧ w_writer w = WWriting id))
  ∧ (∀ ls' w' id r, wrun ls' w = Some w' → reqs w !! id = Some r → settled r = true → reqs w' !! id = Some r)
  ∧ (closeWrites w = None → w_close w ≠ CPast → ∃ id, is_Some (enqueue id w) ∨ is_Some (giveUp id w)).
Proof.
  intros Hw%winv_run; [|apply winv_init]. split_and!.
  - intros Hp. destruct Hw as [Hnd Hq Hww Hc Hd]. rewrite Hp in Hc, Hd. cbn in Hc, Hd.
    destruct Hc as [Hc1 Hc2]; destruct Hd as [Hd1 Hd2].
    assert (∀ p, queue p w = []) as Hempty by (intros []; [apply Hc2|apply Hd2]; lia).
    split_and!; [apply Hc2; lia|apply Hd2; lia|]. intros id r Hr. unfold settled.
    destruct (rq_phase r) eqn:Hph; try (by left).
    + exfalso. destruct (rq_plane r) eqn:Hpl; [apply (Hc1 ltac:(lia) id)|apply (Hd1 ltac:(lia) id)]; by exists r.
    + exfalso. assert (id ∈ queue (rq_plane r) w) as Hin by (apply Hq; by exists r).
      rewrite Hempty in Hin. by apply elem_of_nil in Hin.
    + right. split; [done|]. apply Hww. exists (rq_plane r), r. done.
  - intros ls' w' id r. by apply settled_run.
  - unfold closeWrites. destruct (w_close w) eqn:Ek; try done.
    + destruct (entering Control w) eqn:Ee; [|done]. intros _ _. eapply entering_can_leave; [|done].
      unfold closedW. by rewrite Ek.
    + by destruct (ctrlCh w).
    + destruct (entering Data w) eqn:Ee; [|done]. intros _ _. eapply entering_can_leave; [|done].
      unfold closedW. by rewrite Ek.
    + by destruct (writeCh w).
Qed.

(** One data and one control request; Close overtakes both. *)
Definition close_overtakes : list wlabel :=
  [WCall Data false [x01]; WCall Control false [x02]; WCall Control true [x03]; WEnqueue 0; WLoop Data; WLoop Data;
   WEnqueue 2; WClose; WClose; WGiveUp 1; WClose; WClose; WClose; WClose; WClose].

Lemma carrier_writes_resolved_witness :
  ∃ w, wrun close_overtakes w_init = Some w ∧ w_close w = CPast ∧ w_writer w = WWriting 0
       ∧ map rq_phase (reqs w) = [RWriting; RAborted; RResolved ErrCarrierClosed] ∧ ctrlCh w = [].
Proof.
  eexists. split; [reflexivity|]. split_and!; [reflexivity..|].
  eapply (carrier_writes_resolved close_overtakes); reflexivity.
Defined.

(** A request the connection took in full just as Close closed the carrier is
    reported as failed: its caller cannot tell it from one that was not written. *)
Definition written_but_failed : list wlabel :=
  [WCall Data false [x01]; WEnqueue 0; WLoop Data; WLoop Data; WClose; WClose; WWrote true].

Example closed_write_reported_failed :
  (λ w, (map rq_phase (reqs w), onWire w)) <$> wrun written_but_failed w_init =
  Some ([RResolved ErrCarrierClosed], [[x01]]).
Proof. reflexivity. Qed.
