(* ===== verification/CarrierStreams.v ===== *)
(** * What a carrier's consumers see of the frames it was fed

    [received_routed] relates a consumer to the items routed to its stream record.
    This file relates those items to the frames the read loop handed
    over: a stream record gets, in order and without gaps, the stream's frames
    from the moment the record is the stream's. *)
From S2P Require Export CarrierSafety.
#[local] Open Scope Z_scope.

(** The mailbox item of a stream frame, and those of one stream. *)
Definition itemOf (f : Frame) : queueItem :=
  if Type_ f =? FrameClose then mkItem [] true else mkItem (Payload f) false.
Definition frameOf (id : Z) (f : Frame) : bool := isStreamFrame (Type_ f) && (StreamID f =? id).
Definition items (id : Z) (fs : list Frame) : list queueItem := map itemOf (List.filter (frameOf id) fs).

(** The frames a run feeds to the dispatcher. *)
Definition fed (ls : list label) : list Frame := omap (λ l, match l with LFrame f => Some f | _ => None end) ls.

Lemma items_app id fs gs : items id (fs ++ gs) = items id fs ++ items id gs.
Proof. unfold items. by rewrite List.filter_app, map_app. Qed.

Lemma items_other id f : frameOf id f = false → items id [f] = [].
Proof. intros H. unfold items. cbn. by rewrite H. Qed.

Lemma items_own id f : frameOf id f = true → items id [f] = [itemOf f].
Proof. intros H. unfold items. cbn. by rewrite H. Qed.

Lemma fed_app ls ls' : fed (ls ++ ls') = fed ls ++ fed ls'.
Proof. apply omap_app. Qed.

(** ** Steps that route nothing *)

(** Records keep their stream and their history, new ones start without one,
    and the stream table only gains new records. *)
Record kept (c c' : CarrierConn) : Prop := {
  k_cb : onNewStream c' = onNewStream c;
  k_closing : closing c = true → closing c' = true;
  k_recs : ∀ i r, allStreams c !! i = Some r →
             ∃ r', allStreams c' !! i = Some r' ∧ r_id r' = r_id r ∧ r_routed r' = r_routed r;
  k_new : ∀ i r', allStreams c' !! i = Some r' → allStreams c !! i = None → r_routed r' = [] ∧ closing c = false;
  k_table : ∀ id i, streams c' !! id = Some i →
              streams c !! id = Some i
              ∨ (allStreams c !! i = None ∧ ∃ r', allStreams c' !! i = Some r' ∧ r_id r' = id)
}.

Lemma kept_refl c : kept c c.
Proof. constructor; eauto. intros i r' H H'. congruence. Qed.

Lemma kept_trans c1 c2 c3 : kept c1 c2 → kept c2 c3 → kept c1 c3.
Proof.
  intros [A1 A2 A3 A4 A5] [B1 B2 B3 B4 B5]. constructor; [congruence|auto|..].
  - intros i r (r' & Hr & E1 & E2)%A3. apply B3 in Hr as (r2 & Hr & F1 & F2). exists r2. split_and!; congruence.
  - intros i r' Hi Hn. destruct (allStreams c2 !! i) as [r2|] eqn:E.
    + destruct (A4 i r2 E Hn) as [E1 E2]. apply B3 in E as (r3 & Hr & F1 & F2). split; [|done]. congruence.
    + destruct (B4 i r' Hi E) as [E1 E2]. split; [done|]. destruct (closing c1) eqn:Ec; [|done]. by rewrite A2 in E2.
  - intros id i [Hi|(Hn & r' & Hr & Hid)]%B5; [apply A5 in Hi as [?|(Hn & r' & Hr & Hid)]; [by left|]|].
    + right. split; [done|]. apply B3 in Hr as (r3 & Hr & F1 & F2). exists r3. split; congruence.
    + right. split; [|by eauto]. destruct (allStreams c1 !! i) as [r1|] eqn:E; [|done].
      apply A3 in E as (? & ? & _). congruence.
Qed.

(** The frame of every other case: the records are the same, or one of them was
    replaced by one of the same stream and history. *)
Lemma kept_same c c' :
  allStreams c' = allStreams c → streams c' = streams c → onNewStream c' = onNewStream c → (closing c = true → closing c' = true) →
  kept c c'.
Proof.
  intros E1 E2 E3 E4. constructor; rewrite ?E1, ?E2; auto; [by eauto|]. intros i r' H H'. congruence.
Qed.

Lemma kept_put i r r' c c' :
  allStreams c !! i = Some r → allStreams c' = <[i := r']> (allStreams c) → r_id r' = r_id r → r_routed r' = r_routed r →
  streams c' = streams c → onNewStream c' = onNewStream c → (closing c = true → closing c' = true) → kept c c'.
Proof.
  intros Hi Ea E1 E2 Es Eo Ec. pose proof (lookup_lt_Some _ _ _ Hi) as Hl.
  constructor; rewrite ?Ea, ?Es; auto.
  - intros j rj Hj. destruct (decide (i = j)) as [<-|Hne].
    + exists r'. rewrite list_lookup_insert_eq by done. split_and!; congruence.
    + exists rj. by rewrite list_lookup_insert_ne.
  - intros j rj Hj Hn. destruct (decide (i = j)) as [<-|Hne]; [congruence|]. rewrite list_lookup_insert_ne in Hj by done. congruence.
Qed.

Lemma kept_create id cb c : closing c = false → kept c (snd (createStreamLocked id cb c)).
Proof.
  intros Hc. unfold createStreamLocked. destruct (id =? 0); [apply kept_refl|].
  destruct (streams c !! id) eqn:E; [apply kept_refl|]. constructor; cbn; auto.
  - intros i r Hi. exists r. by rewrite (lookup_app_l_Some _ _ _ _ Hi).
  - intros i r' [Hi|[_ Hi]]%lookup_app_Some Hn; [congruence|]. by apply list_lookup_singleton_Some in Hi as [_ <-].
  - intros id' i. destruct (decide (id = id')) as [<-|]; [|rewrite lookup_insert_ne by done; by left].
    rewrite lookup_insert_eq. intros [= <-]. right. split; [by apply lookup_ge_None|].
    exists (newStreamRec id cb (limits c)). split; [|done]. by rewrite lookup_app_r, Nat.sub_diag by lia.
Qed.

Lemma kept_delete id c : kept c (Deregister id c).
Proof.
  constructor; cbn; eauto; [intros i r' H H'; congruence|]. intros id' i [_ ?]%lookup_delete_Some. by left.
Qed.

Lemma kept_terminate i s c : kept c (terminateStream i s c).
Proof.
  unfold terminateStream. destruct (allStreams c !! i) as [r|] eqn:E; [|apply kept_refl].
  destruct (r_handoff r); try apply kept_refl. by eapply kept_put.
Qed.

Lemma sendCh_kept i x r r1 c c1 :
  sendCh i x r c = Some (r1, c1) →
  r_id r1 = r_id r ∧ r_routed r1 = r_routed r ∧ allStreams c1 = allStreams c ∧ streams c1 = streams c
  ∧ onNewStream c1 = onNewStream c ∧ closing c1 = closing c ∧ c_frames c1 = c_frames c.
Proof.
  unfold sendCh. destruct (r_chClosed r); [by intros [= <- <-]|]. destruct (r_ch r); [|done]. by intros [= <- <-].
Qed.

Ltac kept_put := eapply kept_put; [eassumption|reflexivity|reflexivity|reflexivity|reflexivity|reflexivity|done].

Lemma frames_terminate i s c : c_frames (terminateStream i s c) = c_frames c.
Proof. unfold terminateStream. destruct (allStreams c !! i) as [r|]; [|done]. by destruct (r_handoff r). Qed.

Lemma kept_worker i a c c' : streamWorker i a c = Some c' → kept c c' ∧ c_frames c' = c_frames c.
Proof.
  unfold streamWorker. destruct (allStreams c !! i) as [r|] eqn:E; [|done]. cbn [mbind option_bind].
  destruct (r_worker r) as [|ch|it| |].
  - destruct (Pop _ _) as [[o sh] q]. intros [= <-]. split; [kept_put|done].
  - case_bool_decide; [|done]. intros [= <-]. split; [kept_put|done].
  - destruct a.
    + destruct (sendCh i (conv it) r c) as [[r1 c1]|] eqn:Es; [|done]. cbn [mbind option_bind]. intros [= <-].
      apply sendCh_kept in Es as (E1 & E2 & E3 & E4 & E5 & E6 & E7). split; [|done].
      eapply kept_put; [exact E|cbn; rewrite E3; reflexivity|cbn; by rewrite ?E1, ?E2, ?E4, ?E5, ?E6..].
    + destruct (closedCh c); [|done]. intros [= <-]. split; [kept_put|done].
    + destruct (isClose it); intros [= <-].
      * split; [kept_put|done].
      * split; [eapply kept_trans; [|apply kept_terminate]; kept_put|]. by rewrite frames_terminate.
  - case_bool_decide; [|done]. intros [= <-]. split; [kept_put|done].
  - done.
Qed.

Lemma kept_handoff i a c c' : handoffStep i a c = Some c' → kept c c' ∧ c_frames c' = c_frames c.
Proof.
  unfold handoffStep. destruct (allStreams c !! i) as [r|] eqn:E; [|done]. cbn [mbind option_bind].
  destruct (r_handoff r) as [|s| |]; try done.
  - destruct (Close _ _) as [[n sh] q]. intros [= <-]. destruct (s && negb (closing _)); (split; [kept_put|done]).
  - destruct a.
    + destruct (sendCh i None r c) as [[r1 c1]|] eqn:Es; [|done]. cbn [mbind option_bind]. intros [= <-].
      apply sendCh_kept in Es as (E1 & E2 & E3 & E4 & E5 & E6 & E7). split; [|done].
      eapply kept_put; [exact E|cbn; rewrite E3; reflexivity|cbn; by rewrite ?E1, ?E2, ?E4, ?E5, ?E6..].
    + destruct (closedCh c); [|done]. intros [= <-]. split; [kept_put|done].
    + intros [= <-]. split; [kept_put|done].
Qed.

Lemma bump_kept n f c : kept c (Nat.iter n (bumpStats f) c) ∧ c_frames (Nat.iter n (bumpStats f) c) = c_frames c.
Proof.
  induction n as [|n [IH1 IH2]]; [split; [apply kept_refl|done]|]. cbn [Nat.iter nat_rect]. split; [|by rewrite <- IH2].
  eapply kept_trans; [exact IH1|]. by apply kept_same.
Qed.

Lemma kept_fail i t r c : kept c (failUndeliverableData i t r c) ∧ c_frames (failUndeliverableData i t r c) = c_frames c.
Proof.
  unfold failUndeliverableData. destruct (r_terminated r); [split; [by apply kept_same|done]|].
  cbv zeta. set (n := Z.to_nat _). destruct (bump_kept n droppedDataFrame c) as [H1 H2]. split.
  - eapply kept_trans; [exact H1|]. eapply kept_trans; [|apply kept_terminate]. by apply kept_same.
  - by rewrite frames_terminate.
Qed.

Lemma kept_deliver d c c' : deliverStep d c = Some c' → kept c c' ∧ c_frames c' = c_frames c.
Proof.
  destruct d as [| |i it|i it|i it|i it|i it ch|i it|i it|i u|]; cbn [deliverStep]; try done;
    (destruct (allStreams c !! i) as [r|] eqn:E; [|done]); cbn [mbind option_bind].
  - destruct (r_terminated r); [intros [= <-]; split; [by apply kept_same|done]|].
    destruct (TryPushReason _ _ _) as [[[ok rs] sh] q]. intros [= <-]. split; [kept_put|done].
  - destruct (r_terminated r); [intros [= <-]; split; [by apply kept_same|done]|].
    destruct (TryCarry _ _ _) as [[[ok rs] sh] q]. intros [= <-]. split; [kept_put|done].
  - intros [= <-]. split; [by apply kept_same|done].
  - destruct (PushPark _ _ _) as [[o sh] q]. intros [= <-]. split; [kept_put|done].
  - case_bool_decide; [|done]. intros [= <-]. split; [by apply kept_same|done].
  - destruct (_ && _); intros [= <-]; [apply kept_fail|split; [by apply kept_same|done]].
  - destruct (r_terminated r); intros [= <-]; [split; [by apply kept_same|done]|apply kept_fail].
  - case_bool_decide; [|done]. destruct u; intros [= <-]; (split; [by apply kept_same|done]).
Qed.

Lemma kept_register id c : kept c (snd (Register id c)) ∧ c_frames (snd (Register id c)) = c_frames c.
Proof.
  unfold Register. destruct (closing c) eqn:Ec; cbn [orb]; [split; [apply kept_refl|done]|].
  destruct (id =? 0) eqn:Ez; [split; [apply kept_refl|done]|].
  destruct (streams c !! id) eqn:E; [split; [apply kept_refl|done]|]. split; [by apply kept_create|].
  unfold createStreamLocked. by rewrite Ez, E.
Qed.

Lemma kept_Terminate id c : kept c (Terminate id c) ∧ c_frames (Terminate id c) = c_frames c.
Proof.
  unfold Terminate. destruct (closing c) eqn:Ec; [destruct (streams c !! id); split; [apply kept_refl|done|apply kept_refl|done]|].
  destruct (streams c !! id) as [i|] eqn:E.
  - split; [|by rewrite frames_terminate]. eapply kept_trans; [|apply kept_terminate]. by apply kept_same.
  - pose proof (kept_create id false c Ec) as Hk. assert (c_frames (snd (createStreamLocked id false c)) = c_frames c) as Hf.
    { unfold createStreamLocked. destruct (id =? 0); [done|]. by rewrite E. }
    destruct (createStreamLocked id false c) as [[i|] c1]; cbn [snd] in *; [|done].
    split; [|by rewrite frames_terminate]. eapply kept_trans; [exact Hk|]. eapply kept_trans; [|apply kept_terminate].
    by apply kept_same.
Qed.

Lemma kept_close c c' : closeStep c = Some c' → kept c c' ∧ c_frames c' = c_frames c.
Proof.
  unfold closeStep. destruct (closer c) as [| | |n| | | |]; try done.
  - intros [= <-]. split; [by apply kept_same|done].
  - intros [= <-]. split; [by apply kept_same|done].
  - intros [= <-]. split; [by apply kept_same|done].
  - destruct (allStreams c !! n) as [r|] eqn:E.
    + destruct (Close _ _) as [[m sh] q]. intros [= <-]. split; [kept_put|done].
    + destruct (allWorkersDone c); [|done]. intros [= <-]. split; [by apply kept_same|done].
  - destruct (disp c); try done; intros [= <-]; (split; [by apply kept_same|done]).
  - destruct (terms c); [|done]. intros [= <-]. split; [by apply kept_same|done].
  - intros [= <-]. split; [|done]. constructor; cbn; auto.
    + intros i r Hi. exists (r <| r_chClosed := true |>). by rewrite list_lookup_fmap, Hi.
    + intros i r'. rewrite list_lookup_fmap. intros (r & -> & _)%fmap_Some. done.
    + intros id i Hi%fold_delete_Some. by left.
Qed.

(** ** Which frames a record gets *)

(** Record [i] got the frames of stream [id] among the dispatched frames [D], up
    to the moment it stopped being the stream's record. *)
Definition owned (i : nat) (id : Z) (D : list Frame) (c : CarrierConn) : Prop :=
  ∃ r, allStreams c !! i = Some r ∧ r_id r = id ∧ r_routed r `prefix_of` items id D
       ∧ (streams c !! id = Some i → r_routed r = items id D).

Definition table_ok (c : CarrierConn) : Prop :=
  ∀ id i, streams c !! id = Some i → ∃ r, allStreams c !! i = Some r ∧ r_id r = id.

Definition first_of (i : nat) (id : Z) (c : CarrierConn) : Prop :=
  ∀ j r, (j < i)%nat → allStreams c !! j = Some r → r_id r ≠ id.

Lemma table_kept c c' : kept c c' → table_ok c → table_ok c'.
Proof.
  intros [K1 K2 K3 K4 K5] Ht id i [Hi|[_ H]]%K5; [|done]. apply Ht in Hi as (r & Hr & Hid).
  apply K3 in Hr as (r' & Hr & E & _). exists r'. split; congruence.
Qed.

Lemma owned_kept i id D c c' : kept c c' → owned i id D c → owned i id D c'.
Proof.
  intros [K1 K2 K3 K4 K5] (r & Hr & Hid & Hp & He). destruct (K3 i r Hr) as (r' & Hr' & E1 & E2).
  exists r'. rewrite E2. split_and!; [done|congruence|done|]. intros [Hs|[Hn _]]%K5; [by apply He|congruence].
Qed.

Lemma owned_other i id D f c : frameOf id f = false → owned i id D c → owned i id (D ++ [f]) c.
Proof. intros Hf H. unfold owned. rewrite items_app, (items_other id f Hf), app_nil_r. exact H. Qed.

Lemma owned_behind i id D f c : streams c !! id ≠ Some i → owned i id D c → owned i id (D ++ [f]) c.
Proof.
  intros Hn (r & Hr & Hid & Hp & _). exists r. split_and!; [done|done| |done].
  rewrite items_app. by apply prefix_app_r.
Qed.

(** Routing frame [f] to the stream's record [i0]. *)
Definition routed_to (i0 : nat) (f : Frame) (c c' : CarrierConn) : Prop :=
  streams c !! StreamID f = Some i0 ∧ streams c' = streams c ∧ onNewStream c' = onNewStream c ∧ closing c' = closing c
  ∧ c_frames c' = c_frames c
  ∧ ∃ r r', allStreams c !! i0 = Some r ∧ allStreams c' = <[i0 := r']> (allStreams c) ∧ r_id r' = r_id r
            ∧ r_routed r' = r_routed r ++ [itemOf f].

Lemma owned_routed i id i0 D f c c' :
  isStreamFrame (Type_ f) = true → table_ok c → routed_to i0 f c c' → owned i id D c → owned i id (D ++ [f]) c'.
Proof.
  intros Hf Ht (H1 & H2 & H3 & H4 & _ & r0 & r0' & Hr0 & Ha & Eid & Ert) (r & Hr & Hid & Hp & He).
  pose proof (lookup_lt_Some _ _ _ Hr0) as Hl. unfold owned. rewrite Ha, H2.
  destruct (decide (i0 = i)) as [<-|Hne].
  - rewrite Hr0 in Hr. injection Hr as <-. apply Ht in H1 as H1'. destruct H1' as (r1 & Hr1 & Hid1).
    rewrite Hr0 in Hr1. injection Hr1 as <-. assert (id = StreamID f) as -> by congruence.
    assert (frameOf (StreamID f) f = true) as Hof by (unfold frameOf; by rewrite Hf, Z.eqb_refl).
    exists r0'. rewrite list_lookup_insert_eq, Ert, items_app, (items_own _ f Hof), (He H1) by done.
    split_and!; [done|congruence|done|done].
  - exists r. rewrite list_lookup_insert_ne by done. rewrite items_app. destruct (decide (id = StreamID f)) as [->|Hn].
    + split_and!; [done|done|by apply prefix_app_r|]. rewrite H1. congruence.
    + rewrite items_other, app_nil_r by (unfold frameOf; rewrite Hf; cbn; apply Z.eqb_neq; congruence). done.
Qed.

Lemma table_routed i0 f c c' : routed_to i0 f c c' → table_ok c → table_ok c'.
Proof.
  intros (H1 & H2 & H3 & H4 & _ & r0 & r0' & Hr0 & Ha & Eid & Ert) Ht id i. rewrite H2, Ha. intros (r & Hr & Hid)%Ht.
  destruct (decide (i0 = i)) as [<-|Hne].
  - exists r0'. rewrite list_lookup_insert_eq by (by eapply lookup_lt_Some). split; congruence.
  - exists r. by rewrite list_lookup_insert_ne.
Qed.

(** With OnNewStream set, the first record of a stream is made by its first
    frame or before it. *)
Record tracked (D : list Frame) (c : CarrierConn) : Prop := {
  tr_table : table_ok c;
  tr_fresh : onNewStream c = true → closing c = false →
             ∀ id, (∀ i r, allStreams c !! i = Some r → r_id r ≠ id) → items id D = [];
  tr_first : onNewStream c = true → ∀ i r, allStreams c !! i = Some r → first_of i (r_id r) c → owned i (r_id r) D c
}.

Lemma tracked_kept D c c' : kept c c' → tracked D c → tracked D c'.
Proof.
  intros K [T1 T2 T3]. constructor; [by eapply table_kept|..].
  - intros Ho Hc id Hid. destruct K as [K1 K2 K3 K4 K5]. apply T2; [congruence|by destruct (closing c); [rewrite K2 in Hc|]|].
    intros i r Hi. apply K3 in Hi as (r' & Hi & E & _). rewrite <- E. by eapply Hid.
  - intros Ho i r' Hi Hf. assert (onNewStream c = true) as Ho' by (rewrite <- Ho; symmetry; apply (k_cb _ _ K)).
    destruct (allStreams c !! i) as [r|] eqn:Hr.
    + eapply owned_kept; [exact K|]. destruct (k_recs _ _ K i r Hr) as (r2 & Hi2 & E & _).
      assert (r_id r' = r_id r) as E' by congruence. rewrite E' in *. apply T3; [done|done|].
      intros j rj Hj Hrj. destruct (k_recs _ _ K j rj Hrj) as (r3 & Hi3 & E3 & _). rewrite <- E3. by eapply Hf.
    + destruct (k_new _ _ K i r' Hi Hr) as [E1 E2].
      assert (items (r_id r') D = []) as Hnil.
      { apply T2; [done|done|]. intros j rj Hrj. destruct (k_recs _ _ K j rj Hrj) as (r3 & Hi3 & E3 & _). rewrite <- E3.
        apply (Hf j); [|done]. apply lookup_ge_None in Hr. apply lookup_lt_Some in Hrj. lia. }
      exists r'. rewrite E1, Hnil. done.
Qed.

Lemma tracked_other D f c : isStreamFrame (Type_ f) = false → tracked D c → tracked (D ++ [f]) c.
Proof.
  intros Hf [T1 T2 T3]. assert (∀ id, frameOf id f = false) as Hno by (intros; unfold frameOf; by rewrite Hf).
  constructor; [done|..].
  - intros Ho Hc id Hid. rewrite items_app, (items_other id f), app_nil_r by done. auto.
  - intros Ho i r Hi Hfirst. apply owned_other; auto.
Qed.

Lemma tracked_routed i0 D f c c' :
  isStreamFrame (Type_ f) = true → routed_to i0 f c c' → tracked D c → tracked (D ++ [f]) c'.
Proof.
  intros Hf Hr [T1 T2 T3]. pose proof Hr as (H1 & H2 & H3 & H4 & _ & r0 & r0' & Hr0 & Ha & Eid & Ert).
  assert (∀ j rj', allStreams c' !! j = Some rj' → ∃ rj, allStreams c !! j = Some rj ∧ r_id rj = r_id rj') as Hback.
  { intros j rj'. rewrite Ha. destruct (decide (i0 = j)) as [<-|Hne]; [|rewrite list_lookup_insert_ne by done; eauto].
    rewrite list_lookup_insert_eq by (by eapply lookup_lt_Some). intros [= <-]. eauto. }
  assert (∀ j rj, allStreams c !! j = Some rj → ∃ rj', allStreams c' !! j = Some rj' ∧ r_id rj' = r_id rj) as Hforth.
  { intros j rj Hj. rewrite Ha. destruct (decide (i0 = j)) as [<-|Hne]; [|rewrite list_lookup_insert_ne by done; eauto].
    rewrite list_lookup_insert_eq by (by eapply lookup_lt_Some). exists r0'. split; congruence. }
  constructor; [by eapply table_routed|..].
  - intros Ho Hc id Hid. assert (id ≠ StreamID f) as Hne.
    { intros ->. destruct (T1 _ _ H1) as (r1 & Hr1 & E1). apply Hforth in Hr1 as (r1' & Hr1' & E1'). apply (Hid i0 r1' Hr1'). congruence. }
    rewrite items_app, items_other, app_nil_r by (unfold frameOf; rewrite Hf; cbn; apply Z.eqb_neq; congruence).
    apply T2; [congruence|congruence|]. intros i r Hi. apply Hforth in Hi as (r' & Hi & E). rewrite <- E. by eapply Hid.
  - intros Ho i r' (r & Hi & E)%Hback Hfirst. rewrite <- E in *. eapply owned_routed; [done|done|done|].
    apply T3; [congruence|done|]. intros j rj Hj Hrj. apply Hforth in Hrj as (rj' & Hrj & E'). rewrite <- E'. by eapply Hfirst.
Qed.

(** ** Steps *)
Lemma route_shape f c :
  StreamID f ≠ 0 → table_ok c →
  (routeFrame f c = c ∧ streams c !! StreamID f = None ∧ (onNewStream c = true → closing c = true))
  ∨ ∃ c1 i0, kept c c1 ∧ c_frames c1 = c_frames c ∧ routed_to i0 f c1 (routeFrame f c).
Proof.
  intros Hid Ht. unfold routeFrame.
  assert (∀ i c1, kept c c1 → c_frames c1 = c_frames c → streams c1 !! StreamID f = Some i →
    ∃ c2 i0, kept c c2 ∧ c_frames c2 = c_frames c ∧ routed_to i0 f c2
      (match allStreams c1 !! i with
       | None => c1
       | Some r =>
           let it := if Type_ f =? FrameClose then mkItem [] true else mkItem (Payload f) false in
           let c := if r_callback r then emitEv (EvNewStream (StreamID f) (Type_ f) i) c1 else c1 in
           putRec i (r <| r_callback := false |> <| r_routed := r_routed r ++ [it] |>) c <| disp := DPush i it |>
       end)) as Hmain.
  { intros i c1 Hk Hf Hs. exists c1, i. split; [done|]. split; [done|].
    destruct (table_kept _ _ Hk Ht _ _ Hs) as (r & Hr & Er). rewrite Hr.
    destruct (r_callback r); (split_and!; try done; eexists r, _; split_and!; [done|reflexivity..]). }
  destruct (streams c !! StreamID f) as [i|] eqn:E; [right; by apply Hmain; [apply kept_refl|..]|].
  destruct (onNewStream c && negb (closing c)) eqn:En.
  - right. apply andb_true_iff in En as [_ Hcl%negb_true_iff]. pose proof (kept_create (StreamID f) true c Hcl) as Hk.
    unfold createStreamLocked in *. rewrite (proj2 (Z.eqb_neq _ _) Hid), E in *. cbn [snd] in Hk.
    apply Hmain; [done|done|]. cbn. apply lookup_insert_eq.
  - left. split_and!; [done|done|]. intros Ho. rewrite Ho in En. by apply negb_false_iff in En.
Qed.

Lemma other_shape f c :
  isStreamFrame (Type_ f) = false → kept c (dispatchFrame f c) ∧ c_frames (dispatchFrame f c) = c_frames c.
Proof.
  intros Hf. unfold dispatchFrame. rewrite Hf.
  destruct (Type_ f =? FrameReset); [destruct (ParseResetPayload _) as [[]|]; (split; [by apply kept_same|done])|].
  destruct (Type_ f =? FrameBootstrapAck); [destruct (ParseBootstrapAckPayload _); (split; [by apply kept_same|done])|].
  destruct (Type_ f =? FramePing); [destruct (closing c); (split; [by apply kept_same|done])|].
  destruct (Type_ f =? FramePong); [split; [by apply kept_same|done]|].
  destruct (Type_ f =? FrameCredit); [|split; [apply kept_refl|done]].
  cbv zeta. destruct (ValidateCreditPayload _); [|split; [by apply kept_same|done]].
  destruct (streams c !! StreamID f) as [i|]; [|split; [apply kept_refl|done]].
  split; [|by rewrite frames_terminate]. eapply kept_trans; [|apply kept_terminate]. by apply kept_same.
Qed.

(** One step: the dispatched frames, the records it leaves and the frames that
    wait. *)
Lemma step_shape lb c c' :
  cinv c → table_ok c → cstep lb c = Some c' →
  (kept c c' ∧ c_frames c' = c_frames c ++ fed [lb])
  ∨ ∃ f, c_frames c = f :: c_frames c' ∧ fed [lb] = []
      ∧ ((isStreamFrame (Type_ f) = false ∧ kept c c')
         ∨ (isStreamFrame (Type_ f) = true
            ∧ ((kept c c' ∧ streams c' !! StreamID f = None ∧ (onNewStream c' = true → closing c' = true))
               ∨ ∃ c1 i0, kept c c1 ∧ routed_to i0 f c1 c'))).
Proof.
  intros Hc Ht. destruct lb as [f| | | |i a|i a|i|id|id|id|k|]; cbn [cstep fed omap list_omap]; rewrite ?app_nil_r.
  - destruct (framesClosed c || _); [done|]. destruct (frameRules _ f); [done|]. intros [= <-]. left.
    split; [by apply kept_same|done].
  - intros [= <-]. left. split; [by apply kept_same|done].
  - destruct (disp c); try done. intros [= <-]. left. split; [by apply kept_same|done].
  - unfold Dispatch. destruct (disp c) eqn:Hd; try (intros H%kept_deliver; by left). destruct (c_frames c) as [|f fs] eqn:Ef.
    + destruct (framesClosed c); [|done]. intros [= <-]. left. split; [by apply kept_same|by cbn; rewrite Ef].
    + set (c0 := c <| c_frames := fs |>). assert (kept c c0) as K0 by (by apply kept_same).
      intros H. apply (inj Some) in H. subst c'. right. exists f.
      destruct (isStreamFrame (Type_ f)) eqn:Hf.
      * assert (StreamID f ≠ 0) as Hid.
        { pose proof (ci_ids c Hc) as H. rewrite Ef in H. inversion H as [|? ? Hh]. auto. }
        unfold dispatchFrame. rewrite Hf.
        destruct (route_shape f c0 Hid Ht) as [(-> & E1 & E2)|(c1 & i0 & K1 & E1 & R)].
        -- split_and!; [done|done|]. right. split; [done|]. left. split_and!; [done|done|done].
        -- assert (c_frames (routeFrame f c0) = fs) as -> by (destruct R as (_ & _ & _ & _ & -> & _); by rewrite E1).
           split_and!; [done|done|]. right. split; [done|]. right. exists c1, i0. split; [by eapply kept_trans|done].
      * destruct (other_shape f c0 Hf) as [K1 E1]. rewrite E1. split_and!; [done|done|]. left. split; [done|]. by eapply kept_trans.
  - intros H%kept_worker. by left.
  - intros H%kept_handoff. by left.
  - destruct (allStreams c !! i) as [r|] eqn:Hr; [|done]. cbn [mbind option_bind].
    destruct (r_ch r) as [|x rest]; [done|]. intros [= <-]. left. split; [kept_put|done].
  - intros [= <-]. left. apply kept_register.
  - intros [= <-]. left. split; [apply kept_delete|done].
  - intros [= <-]. left. apply kept_Terminate.
  - unfold terminateReturn. destruct (terms c !! k) as [i|]; [|done]. cbn [mbind option_bind].
    destruct (allStreams c !! i) as [r|]; [|done]. cbn [mbind option_bind]. case_bool_decide; [|done].
    intros [= <-]. left. split; [by apply kept_same|done].
  - intros H%kept_close. by left.
Qed.

(** ** Runs *)

(** What the invariants say after the frames [D], and after one or more steps
    that dispatched [E]. *)
Definition carries (D E : list Frame) (c c' : CarrierConn) : Prop :=
  (table_ok c → table_ok c') ∧ (tracked D c → tracked (D ++ E) c')
  ∧ ∀ i id, table_ok c → owned i id D c → owned i id (D ++ E) c'.

Lemma step_carries lb D c c' :
  cinv c → table_ok c → cstep lb c = Some c' →
  ∃ E, c_frames c ++ fed [lb] = E ++ c_frames c' ∧ carries D E c c'.
Proof.
  intros Hc Ht Hs. destruct (step_shape lb c c' Hc Ht Hs) as [[K Ef]|(f & Ef & Hfed & H)].
  - exists []. rewrite Ef. split; [done|]. unfold carries. rewrite app_nil_r. split_and!.
    + by apply table_kept.
    + by apply tracked_kept.
    + intros i id _. by apply owned_kept.
  - exists [f]. rewrite Hfed, app_nil_r, Ef. split; [done|].
    destruct H as [[Hf K]|[Hf [(K & Hn & Hcl)|(c1 & i0 & K & R)]]]; unfold carries; split_and!.
    + by apply table_kept.
    + intros T. eapply tracked_kept in T; [|exact K]. by apply tracked_other.
    + intros i id _ O. eapply owned_kept in O; [|exact K]. apply owned_other; [unfold frameOf; by rewrite Hf|done].
    + by apply table_kept.
    + intros T. eapply tracked_kept in T; [|exact K]. destruct T as [T1 T2 T3]. constructor; [done|..].
      * intros Ho Hco. specialize (Hcl Ho). congruence.
      * intros Ho i r Hi Hfirst. destruct (decide (r_id r = StreamID f)) as [E|Hne].
        -- apply owned_behind; [rewrite E; congruence|]. by apply T3.
        -- apply owned_other; [|by apply T3]. unfold frameOf. rewrite Hf. cbn. apply Z.eqb_neq. congruence.
    + intros i id _ O. eapply owned_kept in O; [|exact K]. destruct (decide (id = StreamID f)) as [->|Hne].
      * apply owned_behind; [congruence|done].
      * apply owned_other; [|done]. unfold frameOf. rewrite Hf. cbn. apply Z.eqb_neq. congruence.
    + intros T. eapply table_routed; [exact R|]. by eapply table_kept.
    + intros T. eapply tracked_routed; [done|exact R|]. by eapply tracked_kept.
    + intros i id T O. eapply owned_routed; [done| |exact R|by eapply owned_kept]. by eapply table_kept.
Qed.

Lemma crun_cons lb ls l onNew c c' :
  reach l onNew c → crun_timely (lb :: ls) c = Some c' →
  ∃ c1, cstep lb c = Some c1 ∧ reach l onNew c1 ∧ crun_timely ls c1 = Some c'.
Proof.
  intros Hr. cbn [crun_timely]. destruct (_ && _) eqn:El; [done|]. destruct (cstep lb c) as [c1|] eqn:Es; [|done].
  cbn [mbind option_bind]. intros Hrun. exists c1. split_and!; [done| |done]. eapply reach_step; [exact Hr| |exact Es].
  intros ->. cbn [andb] in El. apply Nat.leb_gt in El. lia.
Qed.

Lemma run_carries ls D c c' l onNew :
  reach l onNew c → table_ok c → crun_timely ls c = Some c' →
  ∃ E, c_frames c ++ fed ls = E ++ c_frames c' ∧ carries D E c c'.
Proof.
  revert D c. induction ls as [|lb ls IH]; intros D c Hr Ht.
  - intros [= <-]. exists []. cbn. rewrite app_nil_r. split; [done|]. unfold carries. by rewrite app_nil_r.
  - intros (c1 & Es & Hr1 & Hrun)%(crun_cons _ _ _ _ _ _ Hr).
    destruct (step_carries lb D c c1 (cinv_reach _ _ _ Hr) Ht Es) as (E1 & F1 & H1 & H2 & H3).
    destruct (IH (D ++ E1) c1 Hr1 (H1 Ht) Hrun) as (E2 & F2 & G1 & G2 & G3).
    exists (E1 ++ E2). change (lb :: ls) with ([lb] ++ ls). rewrite fed_app, app_assoc, F1, <- app_assoc, F2. split; [by rewrite app_assoc|].
    unfold carries. rewrite app_assoc. split_and!; auto.
Qed.

Lemma run_reach ls l onNew c : crun_timely ls (newCarrierConn l onNew) = Some c → reach l onNew c.
Proof. apply crun_timely_reach. apply reach_init. Qed.

(** ** The stream a consumer reads *)

(** Record [i] is the one of stream [id] from the stream's first frame on: it is
    the first record of the stream on a carrier that opens streams by itself,
    or it was registered when no frame of the stream had been fed. *)
Definition opened (l : StreamLimits) (onNew : bool) (ls : list label) (id : Z) (i : nat) : Prop :=
  (onNew = true ∧ ∀ c, crun_timely ls (newCarrierConn l onNew) = Some c → first_of i id c)
  ∨ ∃ ls1 ls2 c1, ls = ls1 ++ LRegister id :: ls2 ∧ crun_timely ls1 (newCarrierConn l onNew) = Some c1
      ∧ id ≠ 0 ∧ streams c1 !! id = None ∧ closing c1 = false ∧ i = length (allStreams c1) ∧ items id (fed ls1) = [].

Lemma crun_timely_app ls ls' c :
  crun_timely (ls ++ ls') c = c1 ← crun_timely ls c; crun_timely ls' c1.
Proof.
  revert c. induction ls as [|lb ls IH]; intros c; [done|]. cbn [app crun_timely].
  destruct (_ && _); [done|]. destruct (cstep lb c); [|done]. cbn [mbind option_bind]. apply IH.
Qed.

Lemma items_prefix id fs gs : fs `prefix_of` gs → items id fs `prefix_of` items id gs.
Proof. intros [k ->]. rewrite items_app. by eexists. Qed.

Lemma init_tracked l onNew : tracked [] (newCarrierConn l onNew).
Proof. constructor; done. Qed.

Lemma run_onNew l onNew ls c c' :
  reach l onNew c → table_ok c → crun_timely ls c = Some c' → onNewStream c' = onNewStream c.
Proof.
  revert c. induction ls as [|lb ls IH]; intros c Hr Ht Hrun; [by injection Hrun as <-|].
  apply (crun_cons _ _ _ _ _ _ Hr) in Hrun as (c1 & Es & Hr1 & Hrun). pose proof (cinv_reach _ _ _ Hr) as Hc.
  destruct (step_carries lb [] c c1 Hc Ht Es) as (_ & _ & Ht1 & _). rewrite (IH c1 Hr1 (Ht1 Ht) Hrun).
  destruct (step_shape lb c c1 Hc Ht Es) as [[K _]|(f & _ & _ & [[_ K]|[_ [(K & _)|(c2 & i0 & K & R)]]])];
    try apply (k_cb _ _ K). destruct R as (_ & _ & -> & _). apply (k_cb _ _ K).
Qed.

(** A record that is new for its stream owns what comes after. *)
Lemma registered_owned id D c :
  id ≠ 0 → streams c !! id = None → closing c = false → items id D = [] →
  owned (length (allStreams c)) id D (snd (Register id c)).
Proof.
  intros H0 Hn Hcl Hnil. unfold Register. rewrite Hcl, Hn, (proj2 (Z.eqb_neq _ _) H0). cbn [orb].
  unfold createStreamLocked. rewrite (proj2 (Z.eqb_neq _ _) H0), Hn.
  exists (newStreamRec id false (limits c)). rewrite Hnil. cbn. by rewrite lookup_app_r, Nat.sub_diag by lia.
Qed.

(** The items of a stream's record are a prefix of the stream's frames. *)
Lemma routed_prefix l onNew ls c id i r :
  crun_timely ls (newCarrierConn l onNew) = Some c → allStreams c !! i = Some r → r_id r = id → opened l onNew ls id i →
  r_routed r `prefix_of` items id (fed ls).
Proof.
  intros Hrun Hi Hid Ho. pose proof (reach_init l onNew) as Hr0.
  assert (∃ D, D `prefix_of` fed ls ∧ owned i id D c) as (D & Hp & r' & Hr' & _ & Hpre & _).
  { destruct Ho as [[Hcb Hfirst]|(ls1 & ls2 & c1 & -> & Hrun1 & Hid0 & Hn & Hcl & -> & Hnil)].
    - destruct (run_carries ls [] _ c l onNew Hr0 ltac:(done) Hrun) as (E & Ef & _ & HT & _).
      exists E. cbn in Ef. split; [rewrite Ef; by eexists|]. destruct (HT (init_tracked l onNew)) as [_ _ T3].
      subst id. apply T3; [|done|by apply Hfirst]. by rewrite (run_onNew l onNew ls _ c Hr0 ltac:(done) Hrun).
    - rewrite crun_timely_app, Hrun1 in Hrun. cbn [mbind option_bind crun_timely cstep andb] in Hrun.
      destruct (run_carries ls1 [] _ c1 l onNew Hr0 ltac:(done) Hrun1) as (D1 & E1 & Ht1 & _). cbn in E1.
      pose proof (run_reach _ _ _ _ Hrun1) as Hr1. specialize (Ht1 ltac:(done)).
      destruct (kept_register id c1) as [K Ef]. set (c2 := snd (Register id c1)) in *.
      assert (reach l onNew c2) as Hr2 by (by apply (reach_step l onNew (LRegister id) c1)).
      destruct (run_carries ls2 D1 c2 c l onNew Hr2 (table_kept _ _ K Ht1) Hrun) as (E & F & _ & _ & HO).
      exists (D1 ++ E). change (LRegister id :: ls2) with ([LRegister id] ++ ls2). rewrite !fed_app, E1.
      cbn [fed omap list_omap app]. fold (fed ls2). rewrite <- app_assoc, <- Ef, F, app_assoc. split; [by eexists|].
      apply HO; [by eapply table_kept|]. apply registered_owned; try done.
      rewrite E1, items_app in Hnil. by apply app_nil in Hnil as [? _]. }
  rewrite Hi in Hr'. injection Hr' as <-. etrans; [exact Hpre|]. by apply items_prefix.
Qed.

(** What the carrier's channel shows of the stream's frames. *)
Definition payloads (id : Z) (fs : list Frame) : list (list byte) := seen (map conv (items id fs)).

Lemma received_prefix l onNew ls c id i r :
  crun_timely ls (newCarrierConn l onNew) = Some c → allStreams c !! i = Some r → r_id r = id → opened l onNew ls id i →
  seen (r_recv r) `prefix_of` payloads id (fed ls).
Proof.
  intros Hrun Hi Hid Ho. etrans; [eapply received_routed; [by eapply run_reach|exact Hi]|].
  apply seen_prefix. destruct (routed_prefix _ _ _ _ _ _ _ Hrun Hi Hid Ho) as [k E]. exists (map conv k).
  unfold items in E. by rewrite <- map_app, <- E.
Qed.

(** C4: Consumers see a prefix of the stream.  Take any interleaving of the read
    loop, the dispatcher, the workers, Terminate and Close, and a stream whose
    record was there when the stream's first frame was dispatched.  Whatever
    happens, overflow, termination and Close at any point included, the
    payloads its consumer receives before its first nil are a prefix, in order
    and without gaps or repetitions, of the payloads of the stream's frames
    the read loop handed over before the first close. *)
Theorem carrier_stream_order l onNew ls c id i r :
  crun_timely ls (newCarrierConn l onNew) = Some c → allStreams c !! i = Some r → r_id r = id → opened l onNew ls id i →
  seen (r_recv r) `prefix_of` payloads id (fed ls).
Proof. apply received_prefix. Qed.

Lemma carrier_stream_order_witness :
  payloads 5 (fed delivery_run) = [[x41]; [x42]]
  ∧ seen (r_recv delivery_rec) `prefix_of` payloads 5 (fed delivery_run).
Proof.
  split; [by vm_compute|].
  apply (carrier_stream_order DefaultStreamLimits true delivery_run delivery_state 5 0); [by vm_compute..|].
  left. split; [done|]. intros c _ j r Hj. lia.
Defined.
