(* ===== verification/CarrierCallers.v ===== *)
(** * What one caller's frames look like on the wire

    The relay of a session, and the code that opens its stream before it, call
    WriteFrame one after the other: a call is made when the one before has
    returned.  Whatever the other goroutines of the carrier write meanwhile, the
    frames of such a caller are on the wire in the order of its calls, each at
    most once, and the successful ones all are. *)
From S2P Require Export CarrierWrites.
#[local] Open Scope Z_scope.

(** A step adds a request, moves one request to another phase, or neither; only
    the writer's own request gets onto the wire. *)
Lemma step_reqs l w w' :
  wstep l w = Some w' →
  (wire_out w' = wire_out w ∧ (reqs w' = reqs w ∨ ∃ r, reqs w' = reqs w ++ [r] ∧ rq_phase r = REnter))
  ∨ ∃ id ph, reqs w' = alter (λ r, r <| rq_phase := ph |>) id (reqs w)
      ∧ ((wire_out w' = wire_out w ∧ ph ≠ RResolved (Written true))
         ∨ (wire_out w' = wire_out w ++ [id] ∧ w_writer w = WWriting id ∧ ∃ x, ph = RResolved x)).
Proof.
  destruct l as [p try data|j|j|p| |ok|]; cbn [wstep].
  - intros [= <-]. left. unfold call. destruct (closingW w); [by auto|]. split; [done|]. right. eexists. done.
  - unfold enqueue. destruct (reqs w !! j) as [r|]; [|done]. cbn [mbind option_bind].
    destruct (rq_phase r); try done. destruct (Nat.ltb _ _); [|done]. intros [= <-]. right. exists j, RQueued.
    split; [by destruct (rq_plane r)|]. left. by destruct (rq_plane r).
  - unfold giveUp. destruct (reqs w !! j) as [r|]; [|done]. cbn [mbind option_bind].
    destruct (rq_phase r); try done. destruct (rq_try r); [destruct (Nat.ltb _ _); [done|]|destruct (closedW w); [|done]];
      intros [= <-]; right; [exists j, RDropped|exists j, RAborted]; (split; [done|by left]).
  - unfold writeLoop. destruct (w_writer w); try done.
    + destruct (ctrlCh w) as [|j rest]; intros [= <-]; [by left; auto|]. right. exists j, RWriting. split; [done|by left].
    + destruct (queue p w) as [|j rest]; [done|]. intros [= <-]. right. exists j, RWriting.
      split; [by destruct p|]. left. by destruct p.
  - unfold writerExit. destruct (w_writer w); try done. destruct (closedW w); [|done]. intros [= <-]. left. auto.
  - unfold writeOne. destruct (w_writer w) as [| |j|]; try done. destruct (reqs w !! j) as [r|]; [|done].
    cbn [mbind option_bind]. destruct ok; intros [= <-]; right; eexists j, _; (split; [reflexivity|]).
    + right. split_and!; [done|done|eauto].
    + left. split; [done|]. by destruct (closedW w).
  - unfold closeWrites. destruct (w_close w); try done; try (intros [= <-]; left; by auto).
    + destruct (entering Control w); [done|]. intros [= <-]. left. auto.
    + destruct (ctrlCh w) as [|j rest]; intros [= <-]; [by left; auto|]. right. eexists j, _. split; [reflexivity|]. by left.
    + destruct (entering Data w); [done|]. intros [= <-]. left. auto.
    + destruct (writeCh w) as [|j rest]; intros [= <-]; [by left; auto|]. right. eexists j, _. split; [reflexivity|]. by left.
Qed.

Record wire_ok (w : wstate) : Prop := {
  wo_nodup : NoDup (wire_out w);
  wo_settled : ∀ id, id ∈ wire_out w → ∃ r, reqs w !! id = Some r ∧ settled r = true;
  wo_written : ∀ id r, reqs w !! id = Some r → rq_phase r = RResolved (Written true) → id ∈ wire_out w
}.

Lemma wire_step l w w' : winv w → wire_ok w → wstep l w = Some w' → wire_ok w'.
Proof.
  intros Hw [H1 H2 H3] Hs. assert (∀ id r, reqs w !! id = Some r → settled r = true → reqs w' !! id = Some r) as Hkeep
    by (intros; by eapply settled_step).
  destruct (step_reqs l w w' Hs) as [[Ew Er]|(id & ph & Er & Hcase)].
  - constructor; rewrite Ew; [done|..].
    + intros j (r & Hr & Hset)%H2. exists r. auto.
    + intros j r Hr Hph. destruct Er as [Er|(r0 & Er & E0)]; rewrite Er in Hr; [by eapply H3|].
      apply lookup_app_Some in Hr as [Hr|[_ Hr]]; [by eapply H3|]. apply list_lookup_singleton_Some in Hr as [_ <-]. congruence.
  - assert (∀ j r, j ≠ id → reqs w' !! j = Some r → reqs w !! j = Some r) as Hother
      by (intros j r Hne; by rewrite Er, list_lookup_alter_ne by done).
    assert (∀ r, reqs w' !! id = Some r → rq_phase r = ph) as Hself.
    { intros r. rewrite Er, list_lookup_alter_eq. by intros (r0 & _ & ->)%fmap_Some. }
    destruct Hcase as [[Ew Hph]|(Ew & Hwr & x & ->)]; constructor; rewrite Ew.
    + done.
    + intros j (r & Hr & Hset)%H2. exists r. auto.
    + intros j r Hr Hp. destruct (decide (j = id)) as [->|Hne]; [|by eapply H3, Hp; apply Hother].
      apply Hself in Hr. congruence.
    + apply NoDup_app. split_and!; [done| |apply NoDup_singleton]. intros j (r & Hr & Hset)%H2 ->%list_elem_of_singleton.
      apply (wi_writing w Hw) in Hwr as (p & r' & Hr' & _ & Hp). unfold settled in Hset.
      rewrite Hr in Hr'. injection Hr' as <-. by rewrite Hp in Hset.
    + intros j [(r & Hr & Hset)%H2| ->%list_elem_of_singleton]%elem_of_app; [exists r; auto|].
      apply (wi_writing w Hw) in Hwr as (p & r' & Hr' & _ & Hp). rewrite Er, list_lookup_alter_eq, Hr'.
      eexists. split; [reflexivity|done].
    + intros j r Hr Hp. rewrite elem_of_app, list_elem_of_singleton. destruct (decide (j = id)) as [->|Hne]; [by right|left].
      by eapply H3, Hp; apply Hother.
Qed.

(** What a run leaves of earlier requests. *)
Record grown (w w' : wstate) : Prop := {
  gr_wire : ∃ k, wire_out w' = wire_out w ++ k ∧ ∀ id r, reqs w !! id = Some r → settled r = true → id ∉ k;
  gr_data : ∀ id r, reqs w !! id = Some r → ∃ r', reqs w' !! id = Some r' ∧ rq_data r' = rq_data r;
  gr_settled : ∀ id r, reqs w !! id = Some r → settled r = true → reqs w' !! id = Some r
}.

Lemma grown_step l w w' : winv w → wstep l w = Some w' → grown w w'.
Proof.
  intros Hw Hs. constructor; [| |by intros; eapply settled_step].
  - destruct (step_reqs l w w' Hs) as [[Ew _]|(id & ph & _ & [[Ew _]|(Ew & Hwr & _)])];
      [exists []; rewrite app_nil_r; split; [done|set_solver]..|].
    exists [id]. split; [done|]. intros j r Hr Hset ->%list_elem_of_singleton.
    apply (wi_writing w Hw) in Hwr as (p & r' & Hr' & _ & Hp). unfold settled in Hset.
    rewrite Hr in Hr'. injection Hr' as <-. by rewrite Hp in Hset.
  - intros j r Hr. destruct (step_reqs l w w' Hs) as [[_ [->|(r0 & -> & _)]]|(id & ph & -> & _)]; [by eauto| |].
    + exists r. by rewrite (lookup_app_l_Some _ _ _ _ Hr).
    + destruct (decide (j = id)) as [->|Hne]; [|exists r; by rewrite list_lookup_alter_ne].
      rewrite list_lookup_alter_eq, Hr. by eexists.
Qed.

Lemma grown_trans w1 w2 w3 : grown w1 w2 → grown w2 w3 → grown w1 w3.
Proof.
  intros [(k & E1 & A1) B1 C1] [(k' & E2 & A2) B2 C2]. constructor.
  - exists (k ++ k'). rewrite E2, E1, app_assoc. split; [done|]. intros id r Hr Hs [Hin|Hin]%elem_of_app; [by eapply A1|].
    eapply A2; [by apply C1|done|done].
  - intros id r (r2 & Hr2 & Ed)%B1. apply B2 in Hr2 as (r3 & Hr3 & Ed'). exists r3. split; congruence.
  - eauto.
Qed.

Lemma grown_refl w : grown w w.
Proof. constructor; [exists []; rewrite app_nil_r; split; [done|set_solver]|eauto..]. Qed.

Lemma run_grown ls : ∀ w w', winv w → wire_ok w → wrun ls w = Some w' → winv w' ∧ wire_ok w' ∧ grown w w'.
Proof.
  induction ls as [|l ls IH]; intros w w' Hw Ho; cbn [wrun]; [intros [= <-]; split_and!; [done..|apply grown_refl]|].
  destruct (wstep l w) as [w1|] eqn:E; [|done]. cbn [mbind option_bind]. intros Hr.
  destruct (IH w1 w') as (A & B & G); [by eapply winv_step|by eapply wire_step|done|].
  split_and!; [done..|]. eapply grown_trans; [by eapply grown_step|done].
Qed.

Lemma wire_init : wire_ok w_init.
Proof. constructor; cbn; [apply NoDup_nil_2|set_solver|done]. Qed.

(** ** A sequential caller *)

(** The requests a sequential caller of WriteFrame has made, in order, when the
    write path is in state [w]. *)
Inductive caller : list nat → wstate → Prop :=
| caller_idle ls w : wrun ls w_init = Some w → caller [] w
| caller_call own w data ls w' :
    caller own w → (∀ id, id ∈ own → ∃ r, reqs w !! id = Some r ∧ settled r = true) → closingW w = false →
    wrun ls (call Data false data w) = Some w' → caller (own ++ [length (reqs w)]) w'.

Lemma call_request data w : closingW w = false → reqs (call Data false data w) = reqs w ++ [mkReq Data false data REnter].
Proof. intros H. unfold call. by rewrite H. Qed.

Lemma caller_run own w : caller own w → ∃ ls, wrun ls w_init = Some w.
Proof.
  assert (∀ ls1 ls2 w1, wrun (ls1 ++ ls2) w1 = w2 ← wrun ls1 w1; wrun ls2 w2) as Happ.
  { induction ls1 as [|l ls1 IH]; intros ls2 w1; [done|]. cbn. destruct (wstep l w1); [|done]. cbn. apply IH. }
  induction 1 as [ls w Hr|own w data ls w' _ [ls0 IH] _ _ Hr]; [by exists ls|].
  exists (ls0 ++ WCall Data false data :: ls). by rewrite Happ, IH.
Qed.

Lemma caller_ok own w : caller own w → winv w ∧ wire_ok w.
Proof.
  intros [ls Hr]%caller_run. destruct (run_grown ls _ _ winv_init wire_init Hr) as (? & ? & _). done.
Qed.

Lemma filter_none {A} (P : A → Prop) `{∀ x, Decision (P x)} (l : list A) : (∀ x, x ∈ l → ¬ P x) → filter P l = [].
Proof.
  induction l as [|x l IH]; intros Hn; [done|]. rewrite filter_cons_False by (apply Hn; left).
  apply IH. intros y Hy. apply Hn. by right.
Qed.

Lemma filter_congr {A} (P Q : A → Prop) `{∀ x, Decision (P x), ∀ x, Decision (Q x)} (l : list A) :
  (∀ x, x ∈ l → P x ↔ Q x) → filter P l = filter Q l.
Proof.
  induction l as [|x l IH]; intros Hpq; [done|]. rewrite !filter_cons, IH by (intros; apply Hpq; by right).
  assert (P x ↔ Q x) as Hx by (apply Hpq; left). destruct (decide (P x)), (decide (Q x)); tauto.
Qed.

(** The frames of a sequential caller are on the wire in the order of the calls. *)
Lemma caller_order own w :
  caller own w →
  filter (λ id, id ∈ own) (wire_out w) = filter (λ id, id ∈ wire_out w) own ∧ Forall (λ id, id < length (reqs w))%nat own.
Proof.
  induction 1 as [ls w Hr|own w data ls w' Hown IH Hset Hcl Hr].
  { split; [|done]. apply filter_none. set_solver. }
  destruct IH as [IH Hlt], (caller_ok _ _ Hown) as [Hw Ho].
  set (j := length (reqs w)) in *. set (w1 := call Data false data w) in *.
  assert (wstep (WCall Data false data) w = Some w1) as Hstep by done.
  assert (wire_out w1 = wire_out w) as Ew1 by (unfold w1, call; by destruct (closingW w)).
  destruct (run_grown ls w1 w') as (Hw' & Ho' & [(k & Ek & Hk) Hd Hs]);
    [by eapply winv_step|by eapply wire_step|done|].
  assert (reqs w1 !! j = Some (mkReq Data false data REnter)) as Hj1.
  { unfold w1. rewrite call_request, lookup_app_r by done. by rewrite Nat.sub_diag. }
  assert (∀ id, id ∈ own → id ∉ k) as Hnk.
  { intros id Hin. destruct (Hset id Hin) as (r & Hrq & Hst). eapply Hk; [|exact Hst]. by apply (settled_step (WCall Data false data) w w1 id r). }
  assert (j ∉ wire_out w) as Hjw.
  { intros (r & Hrq & _)%(wo_settled w Ho). apply lookup_lt_Some in Hrq. lia. }
  assert (j ∉ own) as Hjo by (intros Hin; rewrite Forall_forall in Hlt; specialize (Hlt j Hin); lia).
  rewrite Ew1 in Ek. pose proof (wo_nodup w' Ho') as Hnd. rewrite Ek in Hnd. apply NoDup_app in Hnd as (_ & Hdis & Hndk).
  rewrite Ek, !filter_app. split.
  - f_equal.
    + rewrite (filter_congr _ (λ id, id ∈ own) (wire_out w)).
      * rewrite IH. apply filter_congr. intros x Hx. rewrite elem_of_app. specialize (Hnk x Hx). tauto.
      * intros x Hx. rewrite elem_of_app, list_elem_of_singleton. split; [intros [?| ->]; done|by left].
    + rewrite (filter_congr (λ id, id ∈ own ++ [j]) (λ id, id = j) k).
      2:{ intros x Hx. rewrite elem_of_app, list_elem_of_singleton. split; [intros [Hin|?]; [by destruct (Hnk x)|done]|by right]. }
      rewrite filter_cons, filter_nil. destruct (decide (j ∈ wire_out w ++ k)) as [[Hin|Hjk]%elem_of_app|Hin]; [done| |].
      * apply list_elem_of_split in Hjk as (l1 & l2 & ->). apply NoDup_app in Hndk as (_ & Hd1 & Hnd2).
        apply NoDup_cons in Hnd2 as [Hnj2 _].
        rewrite filter_app, filter_cons_True, !filter_none; [done|..|done]; intros x Hx ->; [done|].
        apply (Hd1 j Hx). left.
      * rewrite filter_none; [done|]. intros x Hx ->. apply Hin, elem_of_app. by right.
  - apply Forall_app. split.
    + eapply Forall_impl; [exact Hlt|]. intros id Hid. destruct (lookup_lt_is_Some_2 (reqs w1) id) as [r Hr1].
      { unfold w1. rewrite call_request, length_app by done. cbn in *. fold j. lia. }
      apply Hd in Hr1 as (r' & Hr' & _). by eapply lookup_lt_Some.
    + apply Forall_singleton. apply Hd in Hj1 as (r' & Hr' & _). by eapply lookup_lt_Some.
Qed.
