(* ===== verification/Auth.v ===== *)
(** * Carrier authentication (src/pkg/mux/auth.go, src/pkg/mux/secret.go)

    The three-message challenge/response handshake that precedes every carrier,
    and the startup policy for the shared secret.  HMAC-SHA256 ([hmac], of a key
    and a message), SHA-256 ([sha256]) and Unicode case mapping are parameters.
    A handshake is a function of the bytes that arrive and of the environment
    (clock readings, nonces, the outcome of reads and writes). *)
From S2P Require Export Frame Net.
#[local] Open Scope Z_scope.

(** ** Messages *)

Definition AuthVersion : Z := 2.

(** [CarrierRole] is a [uint8]. *)
Definition RoleUpload : byte := x55.
Definition RoleDownload : byte := x44.

Definition valid (r : byte) : bool := bool_decide (r = RoleUpload) || bool_decide (r = RoleDownload).

Definition authChallengeSize : nat := 22.
Definition authResponseSize : nat := 74.
Definition authConfirmSize : nat := 50.
Definition authNonceSize : nat := 16.

Definition second : Z := 1000000000.
Definition AuthMaxClockSkew : Z := 60 * second.

Inductive auth_error :=
| ErrAuthInvalidRole | ErrAuthProtocol | ErrAuthVersion | ErrAuthRoleMismatch | ErrAuthFreshness | ErrAuthMAC
| AuthRead (e : io_error) | AuthWrite | AuthContext | AuthDeadline.

(** [authNow]: the Unix second of a clock reading in nanoseconds, truncated to
    [uint32]. *)
Definition authNow (now : Z) : list byte := be_put 4 (wrapu 32 (now / second)).

(** [time.Since] saturates at the ends of [time.Duration]. *)
Definition duration (d : Z) : Z := Z.max (- 2 ^ 63) (Z.min (2 ^ 63 - 1) d).

Definition authClockOK (now : Z) (ts : list byte) : bool :=
  let d := duration (now - be_get ts * second) in
  let d := if d <? 0 then wraps 64 (- d) else d in
  d <=? AuthMaxClockSkew.

Definition buildChallenge (role : byte) (now : Z) (nonce : list byte) : list byte :=
  [zb AuthVersion; role] ++ authNow now ++ copy_into authNonceSize nonce.

(** [subtle.ConstantTimeCompare(x, y) == 1] *)
Definition ctcompare (x y : list byte) : bool := bool_decide (x = y).

Section auth.
Context (hmac : list byte → list byte → list byte).

Definition authMAC (secret : list byte) (parts : list (list byte)) : list byte := hmac secret (concat parts).

Definition buildResponse (secret : list byte) (role : byte) (challenge tsC nonceC : list byte) : list byte :=
  [zb AuthVersion; role] ++ copy_into 4 tsC ++ copy_into 4 (slice 2 6 challenge) ++ copy_into 16 (drop 6 challenge)
  ++ copy_into 16 nonceC ++ copy_into 32 (authMAC secret [challenge; tsC; nonceC]).

Definition buildConfirm (secret : list byte) (role : byte) (challenge response nonceS2 : list byte) : list byte :=
  [zb AuthVersion; role] ++ copy_into 16 nonceS2 ++ copy_into 32 (authMAC secret [challenge; response; nonceS2]).

(** [None] is success.  [r] has [authResponseSize] bytes (readAuthFrame). *)
Definition verifyResponse (secret : list byte) (role : byte) (challenge r : list byte) (now : Z) : option auth_error :=
  if negb (bz (nth 0 r x00) =? AuthVersion) then Some ErrAuthVersion
  else if negb (beqb (nth 1 r x00) role) then Some ErrAuthRoleMismatch
  else if negb (ctcompare (slice 6 10 r) (slice 2 6 challenge)) || negb (ctcompare (slice 10 26 r) (drop 6 challenge))
  then Some ErrAuthProtocol
  else if negb (authClockOK now (slice 2 6 r)) then Some ErrAuthFreshness
  else if negb (ctcompare (authMAC secret [challenge; slice 2 6 r; slice 26 42 r]) (drop 42 r)) then Some ErrAuthMAC
  else None.

(** The client's checks of the challenge and of the confirmation. *)
Definition checkChallenge (role : byte) (challenge : list byte) (now : Z) : option auth_error :=
  if negb (bz (nth 0 challenge x00) =? AuthVersion) then Some ErrAuthVersion
  else if negb (beqb (nth 1 challenge x00) role) then Some ErrAuthRoleMismatch
  else if negb (authClockOK now (slice 2 6 challenge)) then Some ErrAuthFreshness
  else None.

Definition checkConfirm (secret : list byte) (role : byte) (challenge resp confirm : list byte) : option auth_error :=
  if negb (bz (nth 0 confirm x00) =? AuthVersion) then Some ErrAuthVersion
  else if negb (beqb (nth 1 confirm x00) role) then Some ErrAuthRoleMismatch
  else if negb (ctcompare (authMAC secret [challenge; resp; slice 2 18 confirm]) (drop 18 confirm)) then Some ErrAuthMAC
  else None.

(** ** The handshake over a connection *)

(** How a handshake read can be cut short: the context ends or the bound expires
    on a transport without deadlines (the connection is closed), or the
    transport's own deadline fires. *)
Inductive interrupt := CtxDone | BoundReached | SocketDeadline.

(** What the surroundings contribute: the context's error at entry; for the
    first and the second stage the interruption of the read, the outcome of the
    write, the clock and the nonce drawn. *)
Record authEnv := mkEnv {
  ctx_err : bool;
  read1 : option interrupt; read2 : option interrupt;
  write1 : bool; write2 : bool;
  now1 : Z; now2 : Z;
  nonce1 : list byte; nonce2 : list byte
}.

(** The connection as the handshake leaves it: the frames written and whether
    the handshake closed it itself. *)
Record conn := mkConn { sent : list (list byte); conn_closed : bool }.

Definition readAuthFrame (wantLen : nat) (i : option interrupt) (c : conn) (s : list byte)
  : conn * res auth_error (list byte * list byte) :=
  match i with
  | Some CtxDone => (mkConn (sent c) true, Err AuthContext)
  | Some BoundReached => (mkConn (sent c) true, Err AuthDeadline)
  | Some SocketDeadline => (c, Err AuthDeadline)
  | None =>
      (c, match ReadFrame s with
          | Err e => Err (AuthRead e)
          | Ok (f, s') =>
              if negb (Type_ f =? FrameAuth) || negb (StreamID f =? 0) then Err ErrAuthProtocol
              else if negb (bool_decide (length (Payload f) = wantLen)) then Err ErrAuthProtocol
              else Ok (Payload f, s')
          end)
  end.

(** A failed write may have put any prefix of the frame on the wire; the
    connection records completed writes only. *)
Definition writeAuth (ok : bool) (payload : list byte) (c : conn) : conn * res auth_error unit :=
  match WriteFrame 0 FrameAuth payload with
  | Ok bs => if ok then (mkConn (sent c ++ [bs]) (conn_closed c), Ok tt) else (c, Err AuthWrite)
  | Err _ => (c, Err AuthWrite)
  end.

Definition authServer (e : authEnv) (role : byte) (secret s : list byte) : conn * res auth_error (list byte) :=
  let c0 := mkConn [] false in
  let challenge := buildChallenge role (now1 e) (nonce1 e) in
  match writeAuth (write1 e) challenge c0 with
  | (c1, Err x) => (c1, Err x)
  | (c1, Ok _) =>
      match readAuthFrame authResponseSize (read1 e) c1 s with
      | (c2, Err x) => (c2, Err x)
      | (c2, Ok (resp, rest)) =>
          match verifyResponse secret role challenge resp (now2 e) with
          | Some x => (c2, Err x)
          | None =>
              match writeAuth (write2 e) (buildConfirm secret role challenge resp (copy_into authNonceSize (nonce2 e))) c2 with
              | (c3, Err x) => (c3, Err x)
              | (c3, Ok _) => (c3, Ok rest)
              end
          end
      end
  end.

Definition authClient (e : authEnv) (role : byte) (secret s : list byte) : conn * res auth_error (list byte) :=
  let c0 := mkConn [] false in
  match readAuthFrame authChallengeSize (read1 e) c0 s with
  | (c1, Err x) => (c1, Err x)
  | (c1, Ok (challenge, s1)) =>
      match checkChallenge role challenge (now1 e) with
      | Some x => (c1, Err x)
      | None =>
          let resp := buildResponse secret role challenge (authNow (now2 e)) (copy_into authNonceSize (nonce1 e)) in
          match writeAuth (write1 e) resp c1 with
          | (c2, Err x) => (c2, Err x)
          | (c2, Ok _) =>
              match readAuthFrame authConfirmSize (read2 e) c2 s1 with
              | (c3, Err x) => (c3, Err x)
              | (c3, Ok (confirm, rest)) =>
                  match checkConfirm secret role challenge resp confirm with
                  | Some x => (c3, Err x)
                  | None => (c3, Ok rest)
                  end
              end
          end
      end
  end.

(** The result's bytes are what the returned reader still holds. *)
Definition CarrierAuth (e : authEnv) (isClient : bool) (role : byte) (secret s : list byte)
  : conn * res auth_error (list byte) :=
  if negb (valid role) then (mkConn [] false, Err ErrAuthInvalidRole)
  else if ctx_err e then (mkConn [] false, Err AuthContext)
  else if isClient then authClient e role secret s else authServer e role secret s.

(** ** Lemmas on the messages *)

Lemma length_copy_into n l : length (copy_into n l) = n.
Proof. unfold copy_into. rewrite length_app, length_take, length_replicate. lia. Qed.

Lemma copy_into_id n l : length l = n → copy_into n l = l.
Proof. intros <-. unfold copy_into. rewrite Nat.sub_diag, take_ge by lia. apply app_nil_r. Qed.

Lemma length_authNow now : length (authNow now) = 4%nat.
Proof. apply length_be_put. Qed.

Lemma length_challenge role now nonce : length (buildChallenge role now nonce) = authChallengeSize.
Proof. unfold buildChallenge. by rewrite !length_app, length_authNow, length_copy_into. Qed.

Lemma length_response secret role ch ts n : length (buildResponse secret role ch ts n) = authResponseSize.
Proof. unfold buildResponse. by rewrite !length_app, !length_copy_into. Qed.

Lemma length_confirm secret role ch r n : length (buildConfirm secret role ch r n) = authConfirmSize.
Proof. unfold buildConfirm. by rewrite !length_app, !length_copy_into. Qed.

(** A byte string cut at the offsets of a message. *)
Lemma slices_eq (i : nat) l : (i ≤ length l)%nat → ∀ j, (i ≤ j)%nat → drop i l = slice i j l ++ drop j l.
Proof.
  intros Hi j Hj. unfold slice. rewrite <- (take_drop (j - i) (drop i l)) at 1. f_equal.
  rewrite drop_drop. f_equal. lia.
Qed.

Lemma two_bytes (l : list byte) : (2 ≤ length l)%nat → l = [nth 0 l x00; nth 1 l x00] ++ drop 2 l.
Proof. destruct l as [|a [|b l]]; simpl; (lia || done). Qed.

Lemma version_byte b : (bz b =? AuthVersion) = true → b = zb AuthVersion.
Proof. intros H%Z.eqb_eq. rewrite <- H. by rewrite zb_bz. Qed.

Lemma ctcompare_true a b : ctcompare a b = true ↔ a = b.
Proof. apply bool_decide_eq_true. Qed.

(** HMAC-SHA256 tags have 32 bytes. *)
Hypothesis hmac_length : ∀ k m, length (hmac k m) = 32%nat.

Lemma response_fields secret role ch ts n :
  length ch = authChallengeSize → length ts = 4%nat → length n = 16%nat →
  let r := buildResponse secret role ch ts n in
  nth 0 r x00 = zb AuthVersion ∧ nth 1 r x00 = role ∧ slice 2 6 r = ts ∧ slice 6 10 r = slice 2 6 ch
  ∧ slice 10 26 r = drop 6 ch ∧ slice 26 42 r = n ∧ drop 42 r = authMAC secret [ch; ts; n].
Proof.
  intros Hc Ht Hn. unfold authChallengeSize in *. cbv zeta. unfold buildResponse.
  rewrite !copy_into_id;
    [|first [done|apply hmac_length|rewrite length_slice by lia; lia|rewrite length_drop; lia]..].
  assert (length (slice 2 6 ch) = 4%nat) as H4 by (rewrite length_slice by lia; done).
  assert (length (drop 6 ch) = 16%nat) as H16 by (rewrite length_drop; lia).
  generalize dependent (slice 2 6 ch). generalize dependent (drop 6 ch). intros e He d Hd.
  do 5 (destruct ts as [|? ts]; try done). do 5 (destruct d as [|? d]; try done).
  do 17 (destruct e as [|? e]; try done). do 17 (destruct n as [|? n]; try done).
Qed.

Lemma response_split secret role ch r :
  length r = authResponseSize → length ch = authChallengeSize →
  nth 0 r x00 = zb AuthVersion → nth 1 r x00 = role → slice 6 10 r = slice 2 6 ch → slice 10 26 r = drop 6 ch →
  drop 42 r = authMAC secret [ch; slice 2 6 r; slice 26 42 r] →
  r = buildResponse secret role ch (slice 2 6 r) (slice 26 42 r).
Proof.
  intros Hr Hc H0 H1 H2 H3 H4. unfold authChallengeSize, authResponseSize in *. unfold buildResponse.
  rewrite !copy_into_id;
    [|first [apply hmac_length|rewrite length_slice by lia; lia|rewrite length_drop; lia]..].
  rewrite (two_bytes r) at 1 by lia. rewrite H0, H1. rewrite (slices_eq 2 r ltac:(lia) 6) by lia.
  rewrite (slices_eq 6 r ltac:(lia) 10), (slices_eq 10 r ltac:(lia) 26), (slices_eq 26 r ltac:(lia) 42) by lia.
  by rewrite H2, H3, H4.
Qed.

(** A response is accepted exactly when it is the one an honest client builds
    for this challenge, with some fresh time stamp and nonce. *)
Lemma verifyResponse_spec secret role ch r now :
  length ch = authChallengeSize → length r = authResponseSize →
  verifyResponse secret role ch r now = None ↔
  r = buildResponse secret role ch (slice 2 6 r) (slice 26 42 r) ∧ authClockOK now (slice 2 6 r) = true.
Proof.
  intros Hc Hr. split.
  - unfold verifyResponse. destruct (bz (nth 0 r x00) =? AuthVersion) eqn:E0; [|done].
    destruct (beqb (nth 1 r x00) role) eqn:E1; [|done].
    destruct (ctcompare (slice 6 10 r) _) eqn:E2; [|done]. destruct (ctcompare (slice 10 26 r) _) eqn:E3; [|done].
    destruct (authClockOK _ _) eqn:E4; [|done]. destruct (ctcompare _ (drop 42 r)) eqn:E5; [|done]. intros _.
    split; [|done]. apply version_byte in E0. apply beqb_true in E1. apply ctcompare_true in E2, E3, E5.
    by apply response_split.
  - intros [He Hk]. assert (length (slice 2 6 r) = 4%nat ∧ length (slice 26 42 r) = 16%nat) as [Ht Hn].
    { unfold authResponseSize in Hr. rewrite !length_slice by lia. done. }
    pose proof (response_fields secret role ch _ _ Hc Ht Hn) as Hf. cbv zeta in Hf. rewrite <- He in Hf.
    destruct Hf as (F0 & F1 & _ & F3 & F4 & _ & F6). unfold verifyResponse.
    rewrite F0, F1, F3, F4, F6, Hk. change (bz (zb AuthVersion) =? AuthVersion) with true.
    unfold beqb, ctcompare. by rewrite !bool_decide_true.
Qed.

Lemma confirm_fields secret role ch r n :
  length n = 16%nat →
  let k := buildConfirm secret role ch r n in
  nth 0 k x00 = zb AuthVersion ∧ nth 1 k x00 = role ∧ slice 2 18 k = n ∧ drop 18 k = authMAC secret [ch; r; n].
Proof.
  intros Hn. cbv zeta. unfold buildConfirm. rewrite !copy_into_id; [|first [apply hmac_length|done]..].
  do 17 (destruct n as [|? n]; try done).
Qed.

(** The same of a confirmation. *)
Lemma checkConfirm_spec secret role ch r k :
  length k = authConfirmSize →
  checkConfirm secret role ch r k = None ↔ k = buildConfirm secret role ch r (slice 2 18 k).
Proof.
  intros Hk. unfold authConfirmSize in Hk. assert (length (slice 2 18 k) = 16%nat) as Hn by (rewrite length_slice by lia; done).
  split.
  - unfold checkConfirm. destruct (bz (nth 0 k x00) =? AuthVersion) eqn:E0; [|done].
    destruct (beqb (nth 1 k x00) role) eqn:E1; [|done]. destruct (ctcompare _ (drop 18 k)) eqn:E5; [|done]. intros _.
    apply version_byte in E0. apply beqb_true in E1. apply ctcompare_true in E5. unfold buildConfirm.
    rewrite !copy_into_id; [|first [apply hmac_length|done]..].
    rewrite (two_bytes k) at 1 by lia. by rewrite E0, E1, (slices_eq 2 k ltac:(lia) 18), E5 by lia.
  - intros He. pose proof (confirm_fields secret role ch r _ Hn) as Hf. cbv zeta in Hf. rewrite <- He in Hf.
    destruct Hf as (F0 & F1 & _ & F3). unfold checkConfirm. rewrite F0, F1, F3.
    change (bz (zb AuthVersion) =? AuthVersion) with true. unfold beqb, ctcompare. by rewrite !bool_decide_true.
Qed.

Lemma challenge_split (ch : list byte) :
  length ch = authChallengeSize → ch = [nth 0 ch x00; nth 1 ch x00] ++ slice 2 6 ch ++ drop 6 ch.
Proof. unfold authChallengeSize. intros Hc. rewrite <- (slices_eq 2) by lia. apply two_bytes. lia. Qed.

(** The challenge a client goes on with names its version and role. *)
Lemma checkChallenge_spec role ch now :
  length ch = authChallengeSize →
  checkChallenge role ch now = None ↔
  ch = [zb AuthVersion; role] ++ slice 2 6 ch ++ drop 6 ch ∧ authClockOK now (slice 2 6 ch) = true.
Proof.
  intros Hc. unfold checkChallenge. pose proof (challenge_split ch Hc) as Hs.
  split.
  - destruct (bz (nth 0 ch x00) =? AuthVersion) eqn:E0; [|done]. destruct (beqb (nth 1 ch x00) role) eqn:E1; [|done].
    destruct (authClockOK _ _); [|done]. intros _. apply version_byte in E0. apply beqb_true in E1.
    split; [|done]. by rewrite <- E0, <- E1.
  - intros [He ->]. assert (nth 0 ch x00 = zb AuthVersion ∧ nth 1 ch x00 = role) as [-> ->].
    { rewrite Hs in He at 1. cbn [app] in He. by injection He. }
    change (bz (zb AuthVersion) =? AuthVersion) with true. unfold beqb. by rewrite bool_decide_true.
Qed.

(** ** What a handshake accepts *)

Definition authFrame (payload : list byte) : list byte := header 0 FrameAuth (zlen payload) ++ payload.

Lemma readAuthFrame_spec want i c s c' p rest :
  Z.of_nat want ≤ MaxPayload →
  readAuthFrame want i c s = (c', Ok (p, rest)) ↔ i = None ∧ c' = c ∧ s = authFrame p ++ rest ∧ length p = want.
Proof.
  intros Hw. unfold readAuthFrame, authFrame. split.
  - destruct i as [[]|]; try done. destruct (ReadFrame s) as [[f s']|] eqn:E; [|done].
    destruct (Type_ f =? FrameAuth) eqn:E1; [|done]. destruct (StreamID f =? 0) eqn:E2; [|done].
    cbn [negb orb]. case_bool_decide as E3; [|done]. intros [= <- <- <-].
    apply ReadFrame_inv in E as (-> & _ & _ & HL & _). apply Z.eqb_eq in E1, E2. rewrite E1, E2, HL, <- app_assoc. done.
  - intros (-> & -> & -> & Hp). rewrite <- app_assoc, ReadFrame_header; [|done..|by unfold zlen; rewrite Hp].
    unfold frame_of. cbn [Type_ StreamID Payload]. by rewrite bool_decide_true.
Qed.

Lemma readAuthFrame_ok want c p rest :
  Z.of_nat want ≤ MaxPayload → length p = want → readAuthFrame want None c (authFrame p ++ rest) = (c, Ok (p, rest)).
Proof. intros Hw Hp. by apply readAuthFrame_spec. Qed.

Lemma writeAuth_spec ok p c :
  zlen p ≤ MaxPayload →
  writeAuth ok p c = if ok then (mkConn (sent c ++ [authFrame p]) (conn_closed c), Ok tt) else (c, Err AuthWrite).
Proof. intros Hp. unfold writeAuth. by rewrite WriteFrame_Ok. Qed.

Lemma authServer_spec e role secret s c rest :
  let ch := buildChallenge role (now1 e) (nonce1 e) in
  authServer e role secret s = (c, Ok rest) ↔
  read1 e = None ∧ write1 e = true ∧ write2 e = true
  ∧ ∃ ts n, length ts = 4%nat ∧ length n = 16%nat ∧ authClockOK (now2 e) ts = true
      ∧ let r := buildResponse secret role ch ts n in
        s = authFrame r ++ rest
        ∧ c = mkConn [authFrame ch; authFrame (buildConfirm secret role ch r (copy_into 16 (nonce2 e)))] false.
Proof.
  intros ch. unfold authServer. fold ch. pose proof (length_challenge role (now1 e) (nonce1 e)) as Hch. fold ch in Hch.
  rewrite writeAuth_spec by (unfold zlen; by rewrite Hch). split.
  - destruct (write1 e) eqn:E1; [|done].
    destruct (readAuthFrame _ _ _ s) as [c2 [[r s']|]] eqn:E2; [|done].
    apply readAuthFrame_spec in E2 as (Hr1 & -> & -> & Hr); [|done].
    destruct (verifyResponse _ _ _ _ _) eqn:E3; [done|]. rewrite writeAuth_spec by (unfold zlen; by rewrite length_confirm).
    destruct (write2 e) eqn:E4; [|done]. intros [= <- <-]. apply verifyResponse_spec in E3 as [He Hk]; [|done..].
    split_and!; [done..|]. exists (slice 2 6 r), (slice 26 42 r). unfold authResponseSize in Hr.
    rewrite !length_slice by lia. cbv zeta. rewrite <- He. done.
  - intros (Hr1 & -> & -> & ts & n & Ht & Hn & Hk & Hs & ->). set (r := buildResponse _ _ _ _ _) in *.
    pose proof (length_response secret role ch ts n) as Hr. fold r in Hr.
    rewrite Hr1, Hs, readAuthFrame_ok by done.
    destruct (response_fields secret role ch ts n Hch Ht Hn) as (_ & _ & F2 & _ & _ & F5 & _). fold r in F2, F5.
    rewrite (proj2 (verifyResponse_spec secret role ch r _ Hch Hr)); [|by rewrite F2, F5].
    by rewrite writeAuth_spec by (unfold zlen; by rewrite length_confirm).
Qed.

(** The challenge with a given time stamp and nonce. *)
Definition challengeOf (role : byte) (ts nonce : list byte) : list byte := [zb AuthVersion; role] ++ ts ++ nonce.

Lemma authClient_spec e role secret s c rest :
  authClient e role secret s = (c, Ok rest) ↔
  read1 e = None ∧ read2 e = None ∧ write1 e = true
  ∧ ∃ ts n n2, length ts = 4%nat ∧ length n = 16%nat ∧ length n2 = 16%nat ∧ authClockOK (now1 e) ts = true
      ∧ let ch := challengeOf role ts n in
        let r := buildResponse secret role ch (authNow (now2 e)) (copy_into 16 (nonce1 e)) in
        s = authFrame ch ++ authFrame (buildConfirm secret role ch r n2) ++ rest ∧ c = mkConn [authFrame r] false.
Proof.
  unfold authClient. split.
  - destruct (readAuthFrame _ _ _ s) as [c1 [[ch s1]|]] eqn:E1; [|done].
    apply readAuthFrame_spec in E1 as (Hr1 & -> & -> & Hc); [|done].
    destruct (checkChallenge _ _ _) eqn:E2; [done|]. apply checkChallenge_spec in E2 as [He Hk]; [|done].
    rewrite writeAuth_spec by (unfold zlen; by rewrite length_response). destruct (write1 e); [|done].
    destruct (readAuthFrame _ _ _ s1) as [c3 [[k s2]|]] eqn:E3; [|done].
    apply readAuthFrame_spec in E3 as (Hr2 & -> & -> & Hkl); [|done].
    destruct (checkConfirm _ _ _ _ _) eqn:E4; [done|]. apply checkConfirm_spec in E4; [|done]. intros [= <- <-].
    split_and!; [done..|]. exists (slice 2 6 ch), (drop 6 ch), (slice 2 18 k).
    unfold authChallengeSize, authConfirmSize in Hc, Hkl.
    rewrite !length_slice, length_drop, Hc by lia. cbv zeta. unfold challengeOf, authNonceSize in *. rewrite <- He, <- E4. done.
  - intros (Hr1 & Hr2 & -> & ts & n & n2 & Ht & Hn & Hn2 & Hk & Hs & ->). unfold authNonceSize.
    set (ch := challengeOf role ts n) in *. set (r := buildResponse _ _ _ _ _) in *.
    assert (length ch = authChallengeSize) as Hc by (unfold ch, challengeOf; rewrite !length_app, Ht, Hn; done).
    rewrite Hr1, Hs, readAuthFrame_ok by done.
    assert (slice 2 6 ch = ts ∧ drop 6 ch = n) as [Hts Hnn].
    { clear -Ht Hn. unfold ch, challengeOf. do 5 (destruct ts as [|? ts]; try done). }
    rewrite (proj2 (checkChallenge_spec role ch _ Hc)); [|by rewrite Hts, Hnn].
    rewrite writeAuth_spec by (unfold zlen; unfold r; by rewrite length_response).
    set (k := buildConfirm _ _ _ _ _) in *.
    assert (length k = authConfirmSize) as Hkl by apply length_confirm.
    rewrite Hr2, readAuthFrame_ok by done.
    fold r. rewrite (proj2 (checkConfirm_spec secret role ch r k Hkl)); [done|].
    destruct (confirm_fields secret role ch r n2 Hn2) as (_ & _ & F2 & _). fold k in F2. by rewrite F2.
Qed.

(** ** Theorems *)

(** C10: the handshake accepts exactly the transcripts of an honest peer with the
    same secret and role: a responder returns the reader iff the first thing on
    the connection is one FrameAuth frame holding the response an honest
    initiator builds for this very challenge (fresh time stamp, any nonce), an
    initiator iff it is a fresh challenge for its role followed by the
    confirmation an honest responder builds for the response just sent.  No
    other frame is accepted, and the reader returned holds every byte after the
    handshake's frames. *)
Theorem auth_accepts_exactly e role secret s c rest :
  (CarrierAuth e false role secret s = (c, Ok rest) ↔
    valid role = true ∧ ctx_err e = false ∧ read1 e = None ∧ write1 e = true ∧ write2 e = true
    ∧ ∃ ts n, length ts = 4%nat ∧ length n = 16%nat ∧ authClockOK (now2 e) ts = true
        ∧ let ch := buildChallenge role (now1 e) (nonce1 e) in
          let r := buildResponse secret role ch ts n in
          s = authFrame r ++ rest
          ∧ c = mkConn [authFrame ch; authFrame (buildConfirm secret role ch r (copy_into 16 (nonce2 e)))] false)
  ∧ (CarrierAuth e true role secret s = (c, Ok rest) ↔
    valid role = true ∧ ctx_err e = false ∧ read1 e = None ∧ read2 e = None ∧ write1 e = true
    ∧ ∃ ts n n2, length ts = 4%nat ∧ length n = 16%nat ∧ length n2 = 16%nat ∧ authClockOK (now1 e) ts = true
        ∧ let ch := challengeOf role ts n in
          let r := buildResponse secret role ch (authNow (now2 e)) (copy_into 16 (nonce1 e)) in
          s = authFrame ch ++ authFrame (buildConfirm secret role ch r n2) ++ rest ∧ c = mkConn [authFrame r] false).
Proof.
  unfold CarrierAuth. destruct (valid role); [|by split; (split; [done|intros [? _]])].
  destruct (ctx_err e); [by split; (split; [done|intros (_ & ? & _)])|]. cbn [negb].
  rewrite authServer_spec, authClient_spec. split; (split; [by intros H|by intros (_ & _ & H)]).
Qed.

(** Two clock readings at most a minute apart, in the range of a [uint32] of
    seconds. *)
Lemma authClockOK_near now now' :
  0 ≤ now' < 2 ^ 32 * second → 0 ≤ now < 2 ^ 32 * second → now' ≤ now ≤ now' + 59 * second ∨ now ≤ now' ≤ now + 59 * second →
  authClockOK now (authNow now') = true.
Proof.
  intros Hr' Hr Hn. unfold authClockOK, authNow, second, AuthMaxClockSkew, second, duration in *.
  assert (0 ≤ now' / 1000000000 < 2 ^ 32) as Hs by (split; [apply Z.div_pos; lia|apply Z.div_lt_upper_bound; lia]).
  rewrite wrapu_id by done. rewrite (be_get_put_u 4) by done.
  pose proof (Z.div_mod now' 1000000000 ltac:(lia)). pose proof (Z.mod_pos_bound now' 1000000000 ltac:(lia)).
  set (q := now' / 1000000000) in *. cbv zeta. apply Z.leb_le.
  destruct (_ <? 0) eqn:E; [|bools; lia]. bools.
  rewrite wraps_id; [lia|lia|]. unfold in_s. change (64 - 1) with 63. lia.
Qed.

(** two honest ends with the same secret and the same role complete the
    handshake with each other: whatever bytes already follow on either side, if
    the reads and writes work and the clocks involved are within 59 seconds,
    each end accepts what the other writes, and is left with exactly the bytes
    that follow. *)
Theorem auth_honest_handshake es ec role secret restS restC :
  valid role = true →
  ctx_err es = false → read1 es = None → write1 es = true → write2 es = true →
  ctx_err ec = false → read1 ec = None → read2 ec = None → write1 ec = true →
  Forall (λ t, 0 ≤ t < 2 ^ 32 * second) [now1 es; now2 es; now1 ec; now2 ec] →
  now1 es ≤ now1 ec ≤ now1 es + 59 * second ∨ now1 ec ≤ now1 es ≤ now1 ec + 59 * second →
  now2 ec ≤ now2 es ≤ now2 ec + 59 * second ∨ now2 es ≤ now2 ec ≤ now2 es + 59 * second →
  ∃ outS outC,
    CarrierAuth es false role secret (concat outC ++ restS) = (mkConn outS false, Ok restS)
    ∧ CarrierAuth ec true role secret (concat outS ++ restC) = (mkConn outC false, Ok restC).
Proof.
  intros Hv C1 C2 C3 C4 C5 C6 C7 C8 Hr K1 K2.
  rewrite !Forall_cons in Hr. destruct Hr as (R1 & R2 & R3 & R4 & _).
  set (ch := buildChallenge role (now1 es) (nonce1 es)).
  set (r := buildResponse secret role ch (authNow (now2 ec)) (copy_into 16 (nonce1 ec))).
  exists [authFrame ch; authFrame (buildConfirm secret role ch r (copy_into 16 (nonce2 es)))], [authFrame r].
  split.
  - unfold CarrierAuth. rewrite Hv, C1. apply authServer_spec. split_and!; [done..|]. exists (authNow (now2 ec)), (copy_into 16 (nonce1 ec)).
    cbn [concat]. rewrite length_authNow, length_copy_into, app_nil_r. split_and!; try done. by apply authClockOK_near.
  - unfold CarrierAuth. rewrite Hv, C5. apply authClient_spec. split_and!; [done..|].
    exists (authNow (now1 es)), (copy_into 16 (nonce1 es)), (copy_into 16 (nonce2 es)).
    cbn [concat]. rewrite length_authNow, !length_copy_into, app_nil_r, <- app_assoc. split_and!; try done.
    by apply authClockOK_near.
Qed.

(** ** Many handshakes against an adversary

    Any number of responder and initiator handshakes run under one secret while
    the network is the adversary: it chooses when a handshake starts, every byte
    that is delivered, the clocks and the nonces.  [maced] lists the messages
    honest ends computed a tag of.  [forged] records that a tag was accepted on
    a message no honest end had tagged: the event that the unforgeability of
    HMAC excludes. *)
Section agreement.
Context (secret : list byte).

Record server_session := mkServer { ss_role : byte; ss_challenge : list byte; ss_accepted : option (list byte * list byte) }.
Record client_session := mkClient {
  cs_role : byte; cs_challenge : list byte; cs_response : list byte; cs_accepted : option (list byte)
}.

Record world := mkWorld { servers : list server_session; clients : list client_session; maced : list (list byte); forged : bool }.

Inductive auth_label :=
| LChallenge (role : byte) (now : Z) (nonce : list byte)              (* a responder starts *)
| LRespond (role : byte) (ch : list byte) (now now' : Z) (nonce : list byte)  (* an initiator receives [ch] *)
| LResponse (i : nat) (r : list byte) (now : Z) (nonce : list byte)   (* responder [i] receives [r] *)
| LConfirm (j : nat) (k : list byte).                                  (* initiator [j] receives [k] *)

(** What the response's and the confirmation's tag are computed of. *)
Definition responseMessage (ch r : list byte) : list byte := ch ++ slice 2 6 r ++ slice 26 42 r.
Definition confirmMessage (ch r k : list byte) : list byte := ch ++ r ++ slice 2 18 k.

Definition seen_tag (m : list byte) (w : world) : bool := bool_decide (m ∈ maced w).

Definition auth_step (l : auth_label) (w : world) : option world :=
  match l with
  | LChallenge role now nonce =>
      Some (mkWorld (servers w ++ [mkServer role (buildChallenge role now nonce) None]) (clients w) (maced w) (forged w))
  | LRespond role ch now now' nonce =>
      if bool_decide (length ch = authChallengeSize) then
        match checkChallenge role ch now with
        | Some _ => Some w
        | None =>
            let r := buildResponse secret role ch (authNow now') (copy_into authNonceSize nonce) in
            Some (mkWorld (servers w) (clients w ++ [mkClient role ch r None]) (responseMessage ch r :: maced w) (forged w))
        end
      else Some w
  | LResponse i r now nonce =>
      s ← servers w !! i;
      match ss_accepted s with
      | Some _ => None
      | None =>
          if bool_decide (length r = authResponseSize) then
            match verifyResponse secret (ss_role s) (ss_challenge s) r now with
            | Some _ => Some w
            | None =>
                let k := buildConfirm secret (ss_role s) (ss_challenge s) r (copy_into authNonceSize nonce) in
                Some (mkWorld (<[i := mkServer (ss_role s) (ss_challenge s) (Some (r, k))]> (servers w)) (clients w)
                  (confirmMessage (ss_challenge s) r k :: maced w)
                  (forged w || negb (seen_tag (responseMessage (ss_challenge s) r) w)))
            end
          else Some w
      end
  | LConfirm j k =>
      c ← clients w !! j;
      match cs_accepted c with
      | Some _ => None
      | None =>
          if bool_decide (length k = authConfirmSize) then
            match checkConfirm secret (cs_role c) (cs_challenge c) (cs_response c) k with
            | Some _ => Some w
            | None =>
                Some (mkWorld (servers w) (<[j := mkClient (cs_role c) (cs_challenge c) (cs_response c) (Some k)]> (clients w))
                  (maced w) (forged w || negb (seen_tag (confirmMessage (cs_challenge c) (cs_response c) k) w)))
            end
          else Some w
      end
  end.

Fixpoint auth_run (ls : list auth_label) (w : world) : option world :=
  match ls with [] => Some w | l :: ls => w ← auth_step l w; auth_run ls w end.

Definition world0 : world := mkWorld [] [] [] false.

(** A responder's and an initiator's session as the code leaves them. *)
Definition server_ok (s : server_session) : Prop :=
  length (ss_challenge s) = authChallengeSize ∧ nth 1 (ss_challenge s) x00 = ss_role s.

Definition client_ok (c : client_session) : Prop :=
  length (cs_challenge c) = authChallengeSize ∧ nth 1 (cs_challenge c) x00 = cs_role c
  ∧ nth 0 (cs_challenge c) x00 = zb AuthVersion
  ∧ cs_response c = buildResponse secret (cs_role c) (cs_challenge c) (slice 2 6 (cs_response c)) (slice 26 42 (cs_response c)).

Definition server_agrees (w : world) (s : server_session) (r k : list byte) : Prop :=
  k = buildConfirm secret (ss_role s) (ss_challenge s) r (slice 2 18 k) ∧ length r = authResponseSize
  ∧ (forged w = false → ∃ c, c ∈ clients w ∧ cs_role c = ss_role s ∧ cs_challenge c = ss_challenge s ∧ cs_response c = r).

Definition client_agrees (w : world) (c : client_session) (k : list byte) : Prop :=
  forged w = false →
  ∃ s, s ∈ servers w ∧ ss_role s = cs_role c ∧ ss_challenge s = cs_challenge c ∧ ss_accepted s = Some (cs_response c, k).

(** Every tagged message is one session's. *)
Definition tag_origin (w : world) (m : list byte) : Prop :=
  (∃ c, c ∈ clients w ∧ m = responseMessage (cs_challenge c) (cs_response c))
  ∨ (∃ s r k, s ∈ servers w ∧ ss_accepted s = Some (r, k) ∧ m = confirmMessage (ss_challenge s) r k).

(** Worlds only grow: initiators keep their role, challenge and response, a
    responder that accepted never changes, a forgery stays recorded. *)
Definition grows (w w' : world) : Prop :=
  (∀ c, c ∈ clients w → ∃ c', c' ∈ clients w' ∧ cs_role c' = cs_role c ∧ cs_challenge c' = cs_challenge c
                                ∧ cs_response c' = cs_response c)
  ∧ (∀ s x, s ∈ servers w → ss_accepted s = Some x → s ∈ servers w')
  ∧ (forged w' = false → forged w = false).

Lemma origin_grows w w' m : grows w w' → tag_origin w m → tag_origin w' m.
Proof.
  intros (Hc & Hs & _) [(c & Hin & ->)|(s & r & k & Hin & Ha & ->)].
  - left. destruct (Hc c Hin) as (c' & Hin' & _ & E2 & E3). exists c'. by rewrite E2, E3.
  - right. exists s, r, k. eauto.
Qed.

Lemma server_agrees_grows w w' s r k : grows w w' → server_agrees w s r k → server_agrees w' s r k.
Proof.
  intros (Hc & _ & Hf) (H1 & H2 & H3). split_and!; [done..|]. intros Hf'. destruct (H3 (Hf Hf')) as (c & Hin & E1 & E2 & E3).
  destruct (Hc c Hin) as (c' & Hin' & F1 & F2 & F3). exists c'. split_and!; congruence.
Qed.

Lemma client_agrees_grows w w' c k : grows w w' → client_agrees w c k → client_agrees w' c k.
Proof.
  intros (_ & Hs & Hf) H1 Hf'. destruct (H1 (Hf Hf')) as (s & Hin & E1 & E2 & E3). exists s. eauto.
Qed.

Record agree_inv (w : world) : Prop := {
  ag_servers : ∀ s, s ∈ servers w → server_ok s;
  ag_clients : ∀ c, c ∈ clients w → client_ok c;
  ag_tags : ∀ m, m ∈ maced w → tag_origin w m;
  ag_accept : ∀ s r k, s ∈ servers w → ss_accepted s = Some (r, k) → server_agrees w s r k;
  ag_confirm : ∀ c k, c ∈ clients w → cs_accepted c = Some k → client_agrees w c k
}.

(** What a successful verification says about a tagged message: the response's
    message is tagged by the initiator that sent this response. *)
Lemma response_origin w s r now :
  agree_inv w → s ∈ servers w → length r = authResponseSize →
  verifyResponse secret (ss_role s) (ss_challenge s) r now = None →
  seen_tag (responseMessage (ss_challenge s) r) w = true →
  ∃ c, c ∈ clients w ∧ cs_role c = ss_role s ∧ cs_challenge c = ss_challenge s ∧ cs_response c = r.
Proof.
  intros Hw Hs Hr Hv Hm%bool_decide_eq_true. destruct (ag_servers w Hw s Hs) as [Hl Hrole].
  apply verifyResponse_spec in Hv as [Hv _]; [|done..].
  unfold authResponseSize, authChallengeSize in *.
  destruct (ag_tags w Hw _ Hm) as [(c & Hc & E)|(s' & r' & k' & Hs' & Ha & E)].
  - destruct (ag_clients w Hw c Hc) as (Hcl & Hcr & _ & Hce). unfold authChallengeSize in Hcl. unfold responseMessage in E.
    assert (length (cs_response c) = 74%nat) as Hc74 by (rewrite Hce; apply length_response).
    apply app_inj_1 in E as [E1 E]; [|congruence].
    apply app_inj_1 in E as [E2 E3]; [|rewrite !length_slice by lia; done].
    exists c. assert (cs_role c = ss_role s) as Erole by congruence. split_and!; [done|done|done|]. congruence.
  - exfalso. destruct (ag_accept w Hw s' r' k' Hs' Ha) as (Hk & Hr' & _). destruct (ag_servers w Hw s' Hs') as [Hl' _].
    apply (f_equal length) in E. unfold responseMessage, confirmMessage, authChallengeSize, authResponseSize in *.
    rewrite !length_app, !length_slice, Hl, Hl', Hr' in E by lia. lia.
Qed.

Lemma confirm_origin w c k :
  agree_inv w → c ∈ clients w → length k = authConfirmSize →
  checkConfirm secret (cs_role c) (cs_challenge c) (cs_response c) k = None →
  seen_tag (confirmMessage (cs_challenge c) (cs_response c) k) w = true →
  ∃ s, s ∈ servers w ∧ ss_role s = cs_role c ∧ ss_challenge s = cs_challenge c ∧ ss_accepted s = Some (cs_response c, k).
Proof.
  intros Hw Hc Hk Hv Hm%bool_decide_eq_true. destruct (ag_clients w Hw c Hc) as (Hcl & Hcr & _ & Hce).
  apply checkConfirm_spec in Hv; [|done].
  assert (length (cs_response c) = 74%nat) as Hc74 by (rewrite Hce; apply length_response).
  assert (length (slice 2 18 k) = 16%nat) as Hsl by (rewrite length_slice by (rewrite Hk; unfold authConfirmSize; lia); done).
  unfold authResponseSize, authChallengeSize in *.
  destruct (ag_tags w Hw _ Hm) as [(c' & Hc' & E)|(s' & r' & k' & Hs' & Ha & E)].
  - exfalso. destruct (ag_clients w Hw c' Hc') as (Hcl' & _ & _ & Hce').
    assert (length (cs_response c') = 74%nat) as Hc74' by (rewrite Hce'; apply length_response).
    apply (f_equal length) in E. unfold responseMessage, confirmMessage, authChallengeSize in *.
    rewrite !length_app, Hsl, Hcl, Hcl', !length_slice in E by lia. lia.
  - destruct (ag_accept w Hw s' r' k' Hs' Ha) as (Hk' & Hr' & _). destruct (ag_servers w Hw s' Hs') as [Hl' Hrole'].
    unfold confirmMessage, authResponseSize, authChallengeSize in *.
    apply app_inj_1 in E as [E1 E]; [|congruence]. apply app_inj_1 in E as [E2 E3]; [|congruence].
    exists s'. assert (ss_role s' = cs_role c) as Erole by congruence. split_and!; [done|done|done|]. congruence.
Qed.

(** The invariant of a grown world: what is new must hold of it. *)
Lemma agree_inv_grows w w' :
  agree_inv w → grows w w' →
  (∀ s, s ∈ servers w' → server_ok s) → (∀ c, c ∈ clients w' → client_ok c) →
  (∀ m, m ∈ maced w' → m ∈ maced w ∨ tag_origin w' m) →
  (∀ s r k, s ∈ servers w' → ss_accepted s = Some (r, k) → s ∈ servers w ∨ server_agrees w' s r k) →
  (∀ c k, c ∈ clients w' → cs_accepted c = Some k → c ∈ clients w ∨ client_agrees w' c k) →
  agree_inv w'.
Proof.
  intros Hw Hg H1 H2 H3 H4 H5. constructor; [done|done|..].
  - intros m Hm. destruct (H3 m Hm) as [?|?]; [|done]. by eapply origin_grows, ag_tags.
  - intros s r k Hs Ha. destruct (H4 s r k Hs Ha) as [?|?]; [|done]. by eapply server_agrees_grows, ag_accept.
  - intros c k Hc Ha. destruct (H5 c k Hc Ha) as [?|?]; [|done]. by eapply client_agrees_grows, ag_confirm.
Qed.

Lemma elem_of_insert_list {A} (i : nat) (y x : A) (l : list A) : x ∈ <[i:=y]> l → x = y ∨ x ∈ l.
Proof.
  intros [j Hj]%list_elem_of_lookup. destruct (decide (i = j)) as [<-|Hne].
  - apply list_lookup_insert_Some in Hj as [(_ & <- & _)|[? _]]; [by left|done].
  - rewrite list_lookup_insert_ne in Hj by done. right. by eapply list_elem_of_lookup_2.
Qed.

Lemma elem_of_insert_self {A} (i : nat) (y x : A) (l : list A) : l !! i = Some x → y ∈ <[i:=y]> l.
Proof. intros Hi. eapply list_elem_of_lookup_2, list_lookup_insert_eq. by eapply lookup_lt_Some. Qed.

Lemma elem_of_insert_other {A} (i : nat) (y x z : A) (l : list A) : l !! i = Some x → z ∈ l → z ≠ x → z ∈ <[i:=y]> l.
Proof.
  intros Hi [j Hj]%list_elem_of_lookup Hne. eapply (list_elem_of_lookup_2 _ j). rewrite list_lookup_insert_ne; [done|].
  intros <-. congruence.
Qed.

Lemma inv_challenge w role now nonce w' :
  agree_inv w → auth_step (LChallenge role now nonce) w = Some w' → agree_inv w'.
Proof.
  intros Hw [= <-]. eapply agree_inv_grows; [exact Hw|..]; cbn [servers clients maced forged].
  - split_and!; [eauto|intros s x Hs _; cbn; set_solver|done].
  - intros s [Hs|Hs%list_elem_of_singleton]%elem_of_app; [by apply ag_servers with w|]. subst s.
    split; [apply length_challenge|done].
  - apply ag_clients, Hw.
  - eauto.
  - intros s r k [Hs|Hs%list_elem_of_singleton]%elem_of_app Ha; [by left|by subst s].
  - eauto.
Qed.

Lemma inv_respond w role ch now now' nonce w' :
  agree_inv w → auth_step (LRespond role ch now now' nonce) w = Some w' → agree_inv w'.
Proof.
  intros Hw. cbn [auth_step]. case_bool_decide as Hl; [|by intros [= <-]].
  destruct (checkChallenge role ch now) eqn:Hc; [by intros [= <-]|]. apply checkChallenge_spec in Hc as [Hc _]; [|done].
  set (nonceC := copy_into authNonceSize nonce). set (r := buildResponse _ _ _ _ _). intros [= <-].
  destruct (response_fields secret role ch (authNow now') nonceC Hl (length_authNow now') (length_copy_into _ _))
    as (_ & _ & F2 & _ & _ & F5 & _). fold r in F2, F5.
  eapply agree_inv_grows; [exact Hw|..]; cbn [servers clients maced forged].
  - split_and!; [|eauto|done]. intros c Hc'. exists c. cbn. set_solver.
  - apply ag_servers, Hw.
  - intros c [Hc'|Hc'%list_elem_of_singleton]%elem_of_app; [by apply ag_clients with w|]. subst c.
    split_and!; [done|cbn; by rewrite Hc|cbn; by rewrite Hc|cbn [cs_role cs_challenge cs_response]]. by rewrite F2, F5.
  - intros m [->|Hm]%elem_of_cons; [|by left]. right. left. eexists. split; [apply elem_of_app; right; by left|done].
  - eauto.
  - intros c k [Hc'|Hc'%list_elem_of_singleton]%elem_of_app Ha; [by left|by subst c].
Qed.

Lemma inv_response w i r now nonce w' :
  agree_inv w → auth_step (LResponse i r now nonce) w = Some w' → agree_inv w'.
Proof.
  intros Hw. cbn [auth_step]. destruct (servers w !! i) as [s|] eqn:Hi; [|done]. cbn [mbind option_bind].
  destruct (ss_accepted s) eqn:Hacc; [done|]. case_bool_decide as Hl; [|by intros [= <-]].
  destruct (verifyResponse _ _ _ r now) eqn:Hv; [by intros [= <-]|].
  set (n2 := copy_into authNonceSize nonce). set (k := buildConfirm _ _ _ r n2). intros [= <-].
  assert (s ∈ servers w) as Hs by (by eapply list_elem_of_lookup_2).
  destruct (confirm_fields secret (ss_role s) (ss_challenge s) r n2 (length_copy_into _ _)) as (_ & _ & F2 & _). fold k in F2.
  set (s' := mkServer _ _ _).
  assert (s' ∈ <[i := s']> (servers w)) as Hin by (by eapply elem_of_insert_self).
  eapply agree_inv_grows; [exact Hw|..]; cbn [servers clients maced forged].
  - split_and!; [eauto|cbn|cbn; by intros [? _]%orb_false_iff]. intros s0 x Hs0 Ha.
    eapply elem_of_insert_other; [done..|]. intros ->. congruence.
  - intros s0 [->|Hs0]%elem_of_insert_list; [|by apply ag_servers with w]. by apply (ag_servers w Hw s).
  - apply ag_clients, Hw.
  - intros m [->|Hm]%elem_of_cons; [|by left]. right. right. exists s', r, k. done.
  - intros s0 r0 k0 [->|Hs0]%elem_of_insert_list Ha; [|by left]. right. injection Ha as <- <-.
    split_and!; [by rewrite F2|done|]. cbn. intros [_ Hn%negb_false_iff]%orb_false_iff. by eapply response_origin.
  - eauto.
Qed.

Lemma inv_confirm w j k w' : agree_inv w → auth_step (LConfirm j k) w = Some w' → agree_inv w'.
Proof.
  intros Hw. cbn [auth_step]. destruct (clients w !! j) as [c|] eqn:Hj; [|done]. cbn [mbind option_bind].
  destruct (cs_accepted c) eqn:Hacc; [done|]. case_bool_decide as Hl; [|by intros [= <-]].
  destruct (checkConfirm _ _ _ _ k) eqn:Hv; [by intros [= <-]|]. intros [= <-].
  assert (c ∈ clients w) as Hc by (by eapply list_elem_of_lookup_2).
  set (c' := mkClient _ _ _ _). assert (c' ∈ <[j := c']> (clients w)) as Hin by (by eapply elem_of_insert_self).
  eapply agree_inv_grows; [exact Hw|..]; cbn [servers clients maced forged].
  - split_and!; [|eauto|cbn; by intros [? _]%orb_false_iff]. intros c0 Hc0. cbn.
    apply list_elem_of_lookup in Hc0 as [j0 Hj0]. destruct (decide (j0 = j)) as [->|Hne].
    + exists c'. assert (c0 = c) as -> by congruence. done.
    + exists c0. split_and!; [|done..]. eapply (list_elem_of_lookup_2 _ j0). by rewrite list_lookup_insert_ne.
  - apply ag_servers, Hw.
  - intros c0 [->|Hc0]%elem_of_insert_list; [|by apply ag_clients with w]. by apply (ag_clients w Hw c).
  - eauto.
  - eauto.
  - intros c0 k0 [->|Hc0]%elem_of_insert_list Ha; [|by left]. right. injection Ha as <-.
    unfold client_agrees. cbn [forged servers]. intros [_ Hn%negb_false_iff]%orb_false_iff. exact (confirm_origin w c k Hw Hc Hl Hv Hn).
Qed.

Lemma agree_inv_run ls : ∀ w w', agree_inv w → auth_run ls w = Some w' → agree_inv w'.
Proof.
  induction ls as [|l ls IH]; intros w w' Hw; cbn [auth_run]; [by intros [= <-]|].
  destruct (auth_step l w) as [w1|] eqn:E; [|done]. cbn [mbind option_bind]. apply IH.
  destruct l; eauto using inv_challenge, inv_respond, inv_response, inv_confirm.
Qed.

Lemma agree_inv_init : agree_inv world0.
Proof. constructor; cbn; intros; by match goal with H : _ ∈ [] |- _ => apply elem_of_nil in H end. Qed.

(** A response determines the challenge it answers. *)
Lemma same_response c c' : client_ok c → client_ok c' → cs_response c = cs_response c' → cs_challenge c = cs_challenge c'.
Proof.
  intros (Hl & H1 & H0 & Hr) (Hl' & H1' & H0' & Hr') E.
  assert (length (cs_response c) = 74%nat) as Hc74 by (rewrite Hr; apply length_response).
  assert (length (slice 2 6 (cs_response c)) = 4%nat ∧ length (slice 26 42 (cs_response c)) = 16%nat) as [Ht Hn]
    by (rewrite !length_slice by lia; done).
  rewrite <- E in Hr'. destruct (response_fields secret (cs_role c) (cs_challenge c) _ _ Hl Ht Hn) as (_ & F1 & _ & F3 & F4 & _).
  destruct (response_fields secret (cs_role c') (cs_challenge c') _ _ Hl' Ht Hn) as (_ & F1' & _ & F3' & F4' & _).
  rewrite <- Hr in F1, F3, F4. rewrite <- Hr' in F1', F3', F4'.
  transitivity ([zb AuthVersion; cs_role c] ++ slice 2 6 (cs_challenge c) ++ drop 6 (cs_challenge c));
    [rewrite <- H0, <- H1 at 1; by apply challenge_split|].
  transitivity ([zb AuthVersion; cs_role c'] ++ slice 2 6 (cs_challenge c') ++ drop 6 (cs_challenge c'));
    [congruence|rewrite <- H0', <- H1' at 1; symmetry; by apply challenge_split].
Qed.

(** C9: mutual, role-bound, replay-free agreement.  Against a network that
    chooses every delivered byte, as long as no tag was forged: (1) a responder
    that accepted a response has an initiator of the same role that received
    this responder's challenge and sent exactly this response; (2) an initiator
    that accepted a confirmation has a responder of the same role that sent the
    challenge it answered, accepted its response and sent this confirmation;
    (3) when the challenges are distinct, no response is accepted by two
    responders. *)
Theorem auth_mutual_agreement ls w :
  auth_run ls world0 = Some w → forged w = false →
  (∀ s r k, s ∈ servers w → ss_accepted s = Some (r, k) →
     ∃ c, c ∈ clients w ∧ cs_role c = ss_role s ∧ cs_challenge c = ss_challenge s ∧ cs_response c = r)
  ∧ (∀ c k, c ∈ clients w → cs_accepted c = Some k →
       ∃ s, s ∈ servers w ∧ ss_role s = cs_role c ∧ ss_challenge s = cs_challenge c
            ∧ ss_accepted s = Some (cs_response c, k))
  ∧ (NoDup (map ss_challenge (servers w)) →
     ∀ i i' s s' r k k', servers w !! i = Some s → servers w !! i' = Some s' →
       ss_accepted s = Some (r, k) → ss_accepted s' = Some (r, k') → i = i').
Proof.
  intros Hrun Hf. pose proof (agree_inv_run ls world0 w agree_inv_init Hrun) as Hw. split_and!.
  - intros s r k Hs Ha. by apply (ag_accept w Hw s r k).
  - intros c k Hc Ha. by apply (ag_confirm w Hw c k).
  - intros Hnd i i' s s' r k k' Hi Hi' Ha Ha'.
    destruct (ag_accept w Hw s r k) as (_ & _ & Hc); [by eapply list_elem_of_lookup_2|done|].
    destruct (ag_accept w Hw s' r k') as (_ & _ & Hc'); [by eapply list_elem_of_lookup_2|done|].
    destruct (Hc Hf) as (c & Hin & _ & E & F). destruct (Hc' Hf) as (c' & Hin' & _ & E' & F').
    assert (ss_challenge s = ss_challenge s') as Es by (rewrite <- E, <- E'; apply same_response; [by apply Hw..|congruence]).
    eapply NoDup_lookup; [exact Hnd|by rewrite list_lookup_fmap, Hi|by rewrite list_lookup_fmap, Hi', Es].
Qed.
End agreement.
End auth.

(** ** Concrete runs *)

(** A stand-in for HMAC-SHA256 with 32-byte tags. *)
Definition sum_mac (k m : list byte) : list byte := replicate 32 (zb (zsum bz (k ++ m))).

Lemma sum_mac_length k m : length (sum_mac k m) = 32%nat.
Proof. apply length_replicate. Qed.

Definition env_at (t : Z) (n1 n2 : list byte) : authEnv :=
  mkEnv false None None true true (t * second) ((t + 1) * second) n1 n2.

Definition server_env : authEnv := env_at 1700000000 [x01; x02] [x03].
Definition client_env : authEnv := env_at 1700000020 [x0a; x0b] [].
Definition demo_secret : list byte := [x11; x22; x33].

Definition demo_response : list byte :=
  buildResponse sum_mac demo_secret RoleUpload (buildChallenge RoleUpload (now1 server_env) [x01; x02])
    (authNow (now2 client_env)) (copy_into 16 [x0a; x0b]).

Lemma auth_accepts_exactly_witness :
  snd (CarrierAuth sum_mac server_env false RoleUpload demo_secret (authFrame demo_response ++ [x99])) = Ok [x99].
Proof.
  rewrite (proj2 (proj1 (auth_accepts_exactly sum_mac sum_mac_length server_env RoleUpload demo_secret _
    (mkConn [authFrame (buildChallenge RoleUpload (now1 server_env) [x01; x02]);
             authFrame (buildConfirm sum_mac demo_secret RoleUpload
               (buildChallenge RoleUpload (now1 server_env) [x01; x02]) demo_response (copy_into 16 [x03]))] false) [x99])));
    [reflexivity|].
  split_and!; [reflexivity..|]. exists (authNow (now2 client_env)), (copy_into 16 [x0a; x0b]).
  cbv zeta. split_and!; reflexivity.
Defined.

Lemma auth_honest_handshake_witness :
  ∃ outS outC,
    CarrierAuth sum_mac server_env false RoleUpload demo_secret (concat outC ++ [x77]) = (mkConn outS false, Ok [x77])
    ∧ CarrierAuth sum_mac client_env true RoleUpload demo_secret (concat outS ++ [x88; x89]) = (mkConn outC false, Ok [x88; x89]).
Proof.
  apply (auth_honest_handshake sum_mac sum_mac_length server_env client_env RoleUpload demo_secret [x77] [x88; x89]);
    try reflexivity.
  - apply (bool_decide_eq_true_1 (Forall (λ t, 0 ≤ t < 2 ^ 32 * second) _)). vm_compute. reflexivity.
  - left. split; apply Z.leb_le; reflexivity.
  - right. split; apply Z.leb_le; reflexivity.
Defined.

(** One upload and one download handshake, interleaved. *)
Definition up_challenge : list byte := buildChallenge RoleUpload (now1 server_env) [x01; x02].

Definition two_handshakes : list auth_label :=
  [LChallenge RoleUpload (now1 server_env) [x01; x02]; LChallenge RoleDownload (now1 server_env) [x05];
   LRespond RoleUpload up_challenge (now1 client_env) (now2 client_env) [x0a; x0b];
   LResponse 1 demo_response (now2 server_env) [x03];
   LResponse 0 demo_response (now2 server_env) [x03];
   LConfirm 0 (buildConfirm sum_mac demo_secret RoleUpload up_challenge demo_response (copy_into 16 [x03]))].

Definition demo_world : world := default world0 (auth_run sum_mac demo_secret two_handshakes world0).

(** Responder 1, of the other role, refused the response meant for responder 0. *)
Lemma auth_mutual_agreement_witness :
  map ss_accepted (servers demo_world) =
    [Some (demo_response, buildConfirm sum_mac demo_secret RoleUpload up_challenge demo_response (copy_into 16 [x03])); None]
  ∧ ∃ s, s ∈ servers demo_world ∧ ss_role s = RoleUpload ∧ ss_challenge s = up_challenge.
Proof.
  split; [vm_compute; reflexivity|].
  destruct (clients demo_world) as [|c ?] eqn:Ec; [vm_compute in Ec; discriminate|].
  destruct (proj1 (proj2 (auth_mutual_agreement sum_mac sum_mac_length demo_secret two_handshakes demo_world
    ltac:(vm_compute; reflexivity) ltac:(vm_compute; reflexivity))) c
    (buildConfirm sum_mac demo_secret RoleUpload up_challenge demo_response (copy_into 16 [x03]))) as (s & H1 & H2 & H3 & _).
  - rewrite Ec. left.
  - assert (cs_accepted <$> head (clients demo_world) =
      Some (Some (buildConfirm sum_mac demo_secret RoleUpload up_challenge demo_response (copy_into 16 [x03])))) as H
      by (vm_compute; reflexivity). rewrite Ec in H. cbn [head fmap option_fmap option_map] in H. by injection H.
  - assert ((λ c, (cs_role c, cs_challenge c)) <$> head (clients demo_world) = Some (RoleUpload, up_challenge)) as H
      by (vm_compute; reflexivity). rewrite Ec in H. cbn [head fmap option_fmap option_map] in H. injection H as E1 E2.
    exists s. exact (conj H1 (conj (eq_trans H2 E1) (eq_trans H3 E2))).
Defined.

(** ** The shared secret (secret.go) *)
Section secret.
Context (sha256 : list byte → list byte) (unicode_lower : gostring → gostring).

Definition DeriveSecret (s : gostring) : list byte := sha256 s.
Definition ValidateSecret (provided expected : list byte) : bool := ctcompare provided expected.

Definition MinSecretLen : nat := 32.

Inductive secret_error := ErrSecretEmpty | ErrSecretKnownWeak | ErrSecretTooShort.

Definition knownWeakSecrets : list gostring :=
  map lit ["password"; "passw0rd"; "admin"; "test"; "secret"; "changeme"; "change-me"; "split-secret"; "default";
           "qwerty"; "letmein"; "123456"; "12345678"; "1234567890"; "iloveyou"]%string.

Definition knownWeakPrefixes : list gostring := map lit ["change-me"; "your-secret"]%string.

Definition ValidateSecretMaterial (secret : gostring) (allowWeak : bool) : option secret_error :=
  if streqb secret [] then Some ErrSecretEmpty
  else
    let low := to_lower unicode_lower secret in
    if existsb (λ w, streqb low w) knownWeakSecrets then Some ErrSecretKnownWeak
    else if existsb (λ p, has_prefix p low) knownWeakPrefixes then Some ErrSecretKnownWeak
    else if negb allowWeak && (Nat.ltb (length secret) MinSecretLen) then Some ErrSecretTooShort
    else None.

Lemma weak_secrets_short w : w ∈ knownWeakSecrets → (length w < MinSecretLen)%nat.
Proof.
  intros Hw. assert (Forall (λ w, length w < MinSecretLen)%nat knownWeakSecrets) as H
    by (apply (bool_decide_eq_true_1 (Forall (λ w, length w < MinSecretLen)%nat _)); vm_compute; reflexivity).
  by apply (proj1 (Forall_forall _ _) H).
Qed.

(** Without the bypass an ASCII secret passes exactly when it is long enough and
    does not start like a placeholder: the list of weak values only decides
    which error a short one gets. *)
Theorem secret_policy_exact secret :
  ascii secret = true →
  ValidateSecretMaterial secret false = None ↔
  (MinSecretLen ≤ length secret)%nat ∧ ∀ p, p ∈ knownWeakPrefixes → has_prefix p (lower secret) = false.
Proof.
  intros Ha. unfold ValidateSecretMaterial, to_lower. rewrite Ha. cbn [negb andb]. split.
  - destruct (streqb secret []); [done|]. destruct (existsb _ knownWeakSecrets); [done|].
    destruct (existsb _ knownWeakPrefixes) eqn:E2; [done|]. destruct (Nat.ltb _ _) eqn:E3; [done|]. intros _.
    apply Nat.ltb_ge in E3. split; [done|]. intros p Hp. apply not_true_is_false. intros Hpre.
    assert (existsb (λ p, has_prefix p (lower secret)) knownWeakPrefixes = true) as H; [|congruence].
    apply existsb_exists. exists p. by rewrite <- list_elem_of_In.
  - intros [Hl Hp]. unfold MinSecretLen in Hl. destruct (streqb secret []) eqn:E0.
    { apply bool_decide_eq_true in E0 as ->. cbn in Hl. lia. }
    destruct (existsb _ knownWeakSecrets) eqn:E1.
    { apply existsb_exists in E1 as (w & Hw%list_elem_of_In%weak_secrets_short & E%bool_decide_eq_true).
      rewrite <- E in Hw. unfold lower, MinSecretLen in Hw. rewrite length_map in Hw. lia. }
    destruct (existsb _ knownWeakPrefixes) eqn:E2.
    { apply existsb_exists in E2 as (p & Hin%list_elem_of_In & E). rewrite Hp in E by done. done. }
    unfold MinSecretLen. destruct (Nat.ltb _ _) eqn:E3; [apply Nat.ltb_lt in E3; lia|done].
Qed.
End secret.
