(* ===== verification/Relay.v ===== *)
(** * The relays (src/pkg/node/relays.go)

    [relayShapeA] reads a local socket and writes its bytes to the carrier the
    session is attached to, over carrier losses; [startStreamRelay] drains one
    carrier's stream channel into a local socket; [startUpWatcher] watches the
    up stream for the peer's close.  Each is one goroutine that owns its local
    variables, so a relay is a function from one turn of its loop to the next;
    everything it looks at (the attachment and its carrier, the outcome of
    reads and writes, the budget, the session) is that turn's environment and
    is arbitrary.  Which carrier a generation names is Node.v's. *)
From S2P Require Import Session.
#[local] Open Scope Z_scope.

(** A role is one of the two nodes. *)
Inductive Role := RoleIran | RoleGermany.

#[export] Instance Role_eq_decision : EqDecision Role.
Proof. solve_decision. Defined.

(** ** Socket read errors *)

(** io.EOF, os.ErrClosed or net.ErrClosed, anything else. *)
Inductive read_err := ReadEOF | ReadClosed | ReadOther.

Inductive upReadPolicy := upReadSuppressed | upReadHalfClose.

Definition upReadErrorPolicy (st : SessionState) (e : read_err) : upReadPolicy :=
  match st with
  | StateClosing | StateClosed => upReadSuppressed
  | _ => match e with ReadClosed => upReadSuppressed | _ => upReadHalfClose end
  end.

Definition sockReadErr (dir : Direction) : gostring :=
  match dir with DirUp => lit "client socket read error" | DirDown => lit "target socket read error" end.

Definition sockWriteErr (dir : Direction) : gostring :=
  match dir with DirUp => lit "target socket write error" | DirDown => lit "client socket write error" end.

Definition dirEOFReason (dir : Direction) : gostring :=
  match dir with DirUp => lit "client EOF" | DirDown => lit "target EOF" end.

(** ** Shape A: socket to carrier *)

Record relayCfg := mkRelayCfg {
  rc_role : Role;
  rc_dir : Direction;
  RelayBufSize : nat;
  BufferBytes : Z
}.

(** One turn's environment. *)
Record turn := mkTurn {
  t_ctx : bool;                        (* sess.Ctx is done *)
  t_att : option Z;                    (* attached, to a generation whose carrier is installed and ready *)
  t_writes : list bool;                (* outcomes of the turn's WriteFrame calls; further ones succeed *)
  t_credit : bool;                     (* the credit gate is wired and refuses *)
  t_read : list byte * option read_err;
  t_charge : bool;                     (* buf.chargeWait grants *)
  t_adopted : bool;                    (* sess.ClientConnAdopted() *)
  t_state : SessionState
}.

(** What the relay did to the world, besides its own variables. *)
Inductive reffect :=
| EFrame (gen : Z) (p : list byte)     (* a FrameData written to the carrier of [gen] *)
| EFin (gen : Z)                       (* its FrameClose *)
| EDetach (gen : Z)
| ECharge (n : Z) | ERefund (n : Z)
| EWaitAttach | ECreditPark | EBufferFull
| EPeerEOF                             (* peerEOF: half-close of the direction *)
| ECloseSession (reason : gostring)
| EReadError.

Record relay := mkRelay {
  pending : list byte;
  socketEOF : bool;
  finSent : bool;
  returned : bool;
  accepted : list byte;                (* the bytes that entered [pending], ever *)
  effects : list reffect
}.

#[export] Instance expand_relay : Expandable relay := {| expand := λ r,
  mkRelay (pending r) (socketEOF r) (finSent r) (returned r) (accepted r) (effects r) |}.

Definition relay0 : relay := mkRelay [] false false false [] [].

Definition emitR (e : reffect) (r : relay) : relay := r <| effects := effects r ++ [e] |>.
Definition returnR (r : relay) : relay := r <| returned := true |>.

(** The loop of flushPending.  Every chunk has at least one byte, so as many
    turns as there are bytes are enough. *)
Fixpoint flushChunks (fuel : nat) (gen : Z) (writes : list bool) (r : relay) : bool * relay :=
  match fuel with
  | O => (true, r)
  | S fuel =>
      match pending r with
      | [] => (true, r)
      | _ =>
          let chunk := take (Z.to_nat MaxPayload) (pending r) in
          if default true (head writes) then
            let r := emitR (EFrame gen chunk) (r <| pending := drop (length chunk) (pending r) |>) in
            flushChunks fuel gen (tail writes) (emitR (ERefund (zlen chunk)) r)
          else (false, emitR (EDetach gen) r)
      end
  end.

Definition flushPending (t : turn) (r : relay) : bool * relay :=
  match t_att t with
  | None => (false, r)
  | Some gen => flushChunks (length (pending r)) gen (t_writes t) r
  end.

Definition sendCloseFrame (t : turn) (r : relay) : bool * relay :=
  match t_att t with
  | None => (false, r)
  | Some gen =>
      if default true (head (t_writes t)) then (true, emitR (EFin gen) r) else (false, emitR (EDetach gen) r)
  end.

(** The socket is read and the result handled. *)
Definition readSocket (cfg : relayCfg) (t : turn) (r : relay) : relay :=
  let chunk := take (RelayBufSize cfg) (fst (t_read t)) in
  let '(alive, r) :=
    match chunk with
    | [] => (true, r)
    | _ =>
        if t_charge t then
          (true, emitR (ECharge (zlen chunk)) (r <| pending := pending r ++ chunk |> <| accepted := accepted r ++ chunk |>))
        else (false, returnR (emitR (ECloseSession (lit "session-buffer budget: node shutting down")) r))
    end in
  if negb alive then r
  else
    match snd (t_read t) with
    | None => r
    | Some ReadEOF =>
        let r := r <| socketEOF := true |> in
        if bool_decide (rc_dir cfg = DirUp) && negb (t_adopted t)
        then returnR (emitR (ECloseSession (lit "client disconnected before bootstrap")) r)
        else r
    | Some e =>
        if bool_decide (rc_dir cfg = DirUp) then
          match upReadErrorPolicy (t_state t) e with
          | upReadSuppressed => returnR r
          | upReadHalfClose =>
              let r := emitR EReadError r in
              if negb (t_adopted t)
              then returnR (emitR (ECloseSession (lit "client disconnected before bootstrap")) r)
              else r <| socketEOF := true |>
          end
        else returnR (emitR (ECloseSession (sockReadErr (rc_dir cfg))) (emitR EReadError r))
    end.

(** One turn of the loop of relayShapeA. *)
Definition relayShapeA (cfg : relayCfg) (t : turn) (r : relay) : relay :=
  if returned r then r
  else if t_ctx t then returnR r
  else if socketEOF r then
    match pending r with
    | [] =>
        if finSent r then returnR r
        else
          let '(ok, r) := sendCloseFrame t r in
          if ok then returnR (emitR EPeerEOF (r <| finSent := true |>)) else emitR EWaitAttach r
    | _ => let '(ok, r) := flushPending t r in if ok then r else emitR EWaitAttach r
    end
  else
    let '(ok, r) := match pending r with [] => (true, r) | _ => flushPending t r end in
    if negb ok then emitR EWaitAttach r
    else if t_credit t && bool_decide (rc_dir cfg = DirDown) && bool_decide (rc_role cfg = RoleGermany)
    then emitR ECreditPark r
    else if BufferBytes cfg <=? zlen (pending r) then emitR EWaitAttach (emitR EBufferFull r)
    else readSocket cfg t r.

Definition relayRun (cfg : relayCfg) (ts : list turn) (r : relay) : relay := foldl (λ r t, relayShapeA cfg t r) r ts.

(** ** Shape B: carrier to socket *)

(** One element of the stream channel, or its close; the attachment as the relay
    reads it (attached or not, and its generation); the socket write. *)
Record bturn := mkBTurn {
  b_ctx : bool;
  b_item : option (option (list byte));  (* None: closed; Some None: nil, the peer's close *)
  b_attached : option Z;
  b_write : nat * bool                   (* bytes taken, and whether the error is nil *)
}.

Inductive beffect :=
| BWrite (p : list byte)                 (* accepted by the socket in full *)
| BPartial (p : list byte)               (* the part a failed write took *)
| BCredit (n : Z)
| BFinalCredit
| BCleanHalfClose | BPeerEOF | BDetach (gen : Z) | BCloseSession (reason : gostring).

Record brelay := mkBRelay { b_returned : bool; b_effects : list beffect }.

Definition brelay0 : brelay := mkBRelay false [].

Definition emitB (es : list beffect) (ret : bool) (r : brelay) : brelay := mkBRelay ret (b_effects r ++ es).

(** One turn of startStreamRelay on the carrier of generation [gen]. *)
Definition startStreamRelay (dir : Direction) (credits : bool) (gen : Z) (t : bturn) (r : brelay) : brelay :=
  if b_returned r then r
  else if b_ctx t then emitB [] true r
  else
    let current := bool_decide (b_attached t = Some gen) in
    match b_item t with
    | None => emitB (if current then [BDetach gen] else []) true r
    | Some item =>
        if negb current then emitB [] true r
        else
          let credit := credits && bool_decide (dir = DirDown) in
          match item with
          | None => emitB ([BCleanHalfClose] ++ (if credit then [BFinalCredit] else []) ++ [BPeerEOF]) true r
          | Some frame =>
              let '(nw, ok) := b_write t in
              if ok && Nat.eqb nw (length frame)
              then emitB ([BWrite frame] ++ (if credit then [BCredit (zlen frame)] else [])) false r
              else emitB [BPartial (take nw frame); BCloseSession (sockWriteErr dir)] true r
          end
    end.

Definition brun (dir : Direction) (credits : bool) (gen : Z) (ts : list bturn) (r : brelay) : brelay :=
  foldl (λ r t, startStreamRelay dir credits gen t r) r ts.

(** One turn of startUpWatcher: whether it goes on, and its effects. *)
Definition startUpWatcher (gen : Z) (t : bturn) (r : brelay) : brelay :=
  if b_returned r then r
  else if b_ctx t then emitB [] true r
  else
    let current := bool_decide (b_attached t = Some gen) in
    match b_item t with
    | None => emitB (if current then [BDetach gen] else []) true r
    | Some (Some _) => r
    | Some None => emitB (if current then [BCloseSession (lit "up stream closed by peer")] else []) true r
    end.

(** ** Invariant of shape A *)

Definition sentChunks (es : list reffect) : list (list byte) :=
  omap (λ e, match e with EFrame _ p => Some p | _ => None end) es.
Definition fins (es : list reffect) : list Z := omap (λ e, match e with EFin g => Some g | _ => None end) es.
Definition balance (es : list reffect) : Z :=
  zsum (λ e, match e with ECharge n => n | ERefund n => - n | _ => 0 end) es.

Definition quiet (e : reffect) : bool :=
  match e with EFrame _ _ | EFin _ | ECharge _ | ERefund _ | EBufferFull => false | _ => true end.

Record relay_ok (cfg : relayCfg) (r : relay) : Prop := {
  ri_bytes : concat (sentChunks (effects r)) ++ pending r = accepted r;
  ri_chunks : Forall (λ p, (0 < length p)%nat ∧ zlen p ≤ MaxPayload) (sentChunks (effects r));
  ri_budget : balance (effects r) = zlen (pending r);
  ri_small : (length (pending r) ≤ RelayBufSize cfg)%nat;
  ri_full : 0 < BufferBytes cfg → EBufferFull ∉ effects r;
  ri_fin : if finSent r
           then returned r = true ∧ pending r = [] ∧ socketEOF r = true
                ∧ ∃ pre g, effects r = pre ++ [EFin g; EPeerEOF] ∧ fins pre = []
           else fins (effects r) = []
}.

Lemma sentChunks_app a b : sentChunks (a ++ b) = sentChunks a ++ sentChunks b.
Proof. apply omap_app. Qed.
Lemma fins_app a b : fins (a ++ b) = fins a ++ fins b.
Proof. apply omap_app. Qed.
Lemma balance_app a b : balance (a ++ b) = balance a + balance b.
Proof. apply zsum_app. Qed.

Lemma relay_ok_init cfg : relay_ok cfg relay0.
Proof. constructor; cbn; try done; [apply Nat.le_0_l|intros _; apply not_elem_of_nil]. Qed.

(** An effect that moves no bytes. *)
Lemma relay_ok_quiet cfg e r : quiet e = true → finSent r = false → relay_ok cfg r → relay_ok cfg (emitR e r).
Proof.
  intros Hq Hf [H1 H2 H3 H4 H5 H6]. rewrite Hf in H6.
  constructor; cbn [effects pending accepted emitR setter expand finSent returned socketEOF]; rewrite ?Hf.
  - rewrite sentChunks_app. by destruct e; cbn in Hq |- *; rewrite ?app_nil_r.
  - rewrite sentChunks_app. by destruct e; cbn in Hq |- *; rewrite ?app_nil_r.
  - rewrite balance_app. destruct e; cbn in Hq |- *; try done; lia.
  - done.
  - intros Hb [Hin|Hin%list_elem_of_singleton]%elem_of_app; [by apply H5|]. by subst e.
  - rewrite fins_app, H6. by destruct e.
Qed.

Lemma relay_ok_return cfg r : finSent r = false → relay_ok cfg r → relay_ok cfg (returnR r).
Proof. intros Hf []. constructor; try done. unfold returnR. cbn. by rewrite Hf in *. Qed.

Lemma relay_ok_eof cfg r : finSent r = false → relay_ok cfg r → relay_ok cfg (r <| socketEOF := true |>).
Proof. intros Hf []. constructor; try done. cbn. by rewrite Hf in *. Qed.

Lemma take_drop_chunk {A} n (l : list A) : take n l ++ drop (length (take n l)) l = l.
Proof.
  rewrite length_take. destruct (decide (n ≤ length l)%nat).
  - by rewrite Nat.min_l, take_drop by done.
  - by rewrite Nat.min_r, take_ge, drop_all, app_nil_r by lia.
Qed.

Lemma flushChunks_spec cfg fuel gen : ∀ writes r ok r',
  (length (pending r) ≤ fuel)%nat → finSent r = false → relay_ok cfg r → flushChunks fuel gen writes r = (ok, r') →
  relay_ok cfg r' ∧ finSent r' = false ∧ socketEOF r' = socketEOF r ∧ returned r' = returned r ∧ accepted r' = accepted r
  ∧ (ok = true → pending r' = []) ∧ (Forall (λ b, b = true) writes → ok = true).
Proof.
  induction fuel as [|fuel IH]; intros writes r ok r' Hl Hf Hr; cbn [flushChunks].
  { intros [= <- <-]. destruct (pending r) eqn:E; [|cbn in Hl; lia]. done. }
  destruct (pending r) as [|b rest] eqn:Ep; [by intros [= <- <-]|]. rewrite <- Ep in *.
  set (chunk := take (Z.to_nat MaxPayload) (pending r)).
  destruct (default true (head writes)) eqn:Ew.
  - assert (0 < length chunk ≤ length (pending r))%nat as [Hc1 Hc2].
    { unfold chunk. rewrite length_take. rewrite Ep. cbn [length]. unfold MaxPayload. lia. }
    assert (chunk ++ drop (length chunk) (pending r) = pending r) as Hsplit.
    { apply take_drop_chunk. }
    intros Hrun. eapply IH in Hrun; [| | |].
    + destruct Hrun as (Hr' & Hf' & He & Hret & Ha & Hok & Hall). split_and!; [done..|].
      intros Hw. apply Hall. destruct writes; [done|]. by inversion Hw.
    + cbn [pending emitR setter expand]. rewrite length_drop. lia.
    + done.
    + destruct Hr as [H1 H2 H3 H4 H5 H6]. rewrite Hf in H6.
      constructor; cbn [effects pending accepted emitR setter expand finSent returned socketEOF]; rewrite ?Hf.
      * rewrite !sentChunks_app, !concat_app. cbn [sentChunks omap list_omap concat]. rewrite !app_nil_r, <- !app_assoc, Hsplit. done.
      * rewrite !sentChunks_app. cbn [sentChunks omap list_omap]. rewrite app_nil_r. apply Forall_app. split; [done|].
        apply Forall_singleton. split; [done|]. unfold zlen, chunk. rewrite length_take. unfold MaxPayload. lia.
      * rewrite !balance_app, H3. cbn. rewrite <- Hsplit at 1. unfold zlen. rewrite length_app. lia.
      * rewrite length_drop. lia.
      * intros Hb. rewrite !elem_of_app, !list_elem_of_singleton. naive_solver.
      * rewrite !fins_app, H6. done.
  - intros [= <- <-]. split_and!; try done.
    + by apply relay_ok_quiet.
    + intros Hw. destruct writes as [|w writes]; [done|]. inversion Hw; subst. done.
Qed.

Lemma flushPending_spec cfg t r ok r' :
  finSent r = false → relay_ok cfg r → flushPending t r = (ok, r') →
  relay_ok cfg r' ∧ finSent r' = false ∧ socketEOF r' = socketEOF r ∧ returned r' = returned r ∧ accepted r' = accepted r
  ∧ (ok = true → pending r' = []) ∧ (is_Some (t_att t) → Forall (λ b, b = true) (t_writes t) → ok = true).
Proof.
  intros Hf Hr. unfold flushPending. destruct (t_att t) as [gen|]; [|intros [= <- <-]; split_and!; try done; by intros [? ?]].
  intros H. eapply flushChunks_spec in H as (H1 & H2 & H3 & H4 & H5 & H6 & H7); [|done..]. by split_and!.
Qed.

(** The socket is read with nothing pending. *)
Lemma readSocket_spec cfg t r :
  relay_ok cfg r → finSent r = false → pending r = [] → relay_ok cfg (readSocket cfg t r) ∧ finSent (readSocket cfg t r) = false.
Proof.
  intros Hr Hf Hp. unfold readSocket. set (chunk := take _ _).
  assert (length chunk ≤ RelayBufSize cfg)%nat as Hc by (unfold chunk; rewrite length_take; lia).
  set (res := match chunk with [] => _ | _ => _ end).
  assert (relay_ok cfg (snd res) ∧ finSent (snd res) = false) as [Hr1 Hf1].
  { unfold res. destruct chunk as [|b rest] eqn:Ec; [done|]. rewrite <- Ec in *. destruct (t_charge t); cbn [snd].
    - split; [|done]. destruct Hr as [H1 H2 H3 H4 H5 H6]. rewrite Hf in H6.
      constructor; cbn [effects pending accepted emitR setter expand finSent returned socketEOF]; rewrite ?Hf, ?Hp.
      + rewrite sentChunks_app. cbn [sentChunks omap list_omap]. rewrite app_nil_r, <- H1, Hp, app_nil_r. done.
      + rewrite sentChunks_app. cbn [sentChunks omap list_omap]. by rewrite app_nil_r.
      + rewrite balance_app, H3, Hp. cbn. unfold zlen. cbn [length]. lia.
      + done.
      + intros Hb. rewrite elem_of_app, list_elem_of_singleton. naive_solver.
      + rewrite fins_app, H6. done.
    - split; [|done]. apply relay_ok_return; [done|]. by apply relay_ok_quiet. }
  destruct res as [alive r1]. cbn [snd] in *. destruct alive; cbn [negb]; [|done].
  destruct (snd (t_read t)) as [[]|]; [..|done].
  - case_bool_decide; cbn [andb]; [|by split; [apply relay_ok_eof|]].
    destruct (negb (t_adopted t)); (split; [|done]); [|by apply relay_ok_eof].
    apply relay_ok_return; [done|]. apply relay_ok_quiet; [done..|]. by apply relay_ok_eof.
  - case_bool_decide; [|split; [|done]; apply relay_ok_return; [done|]; apply relay_ok_quiet; [done..|]; by apply relay_ok_quiet].
    destruct (upReadErrorPolicy _ _); [by split; [apply relay_ok_return|]|].
    destruct (negb (t_adopted t)); (split; [|done]).
    + apply relay_ok_return; [done|]. apply relay_ok_quiet; [done..|]. by apply relay_ok_quiet.
    + apply relay_ok_eof; [done|]. by apply relay_ok_quiet.
  - case_bool_decide; [|split; [|done]; apply relay_ok_return; [done|]; apply relay_ok_quiet; [done..|]; by apply relay_ok_quiet].
    destruct (upReadErrorPolicy _ _); [by split; [apply relay_ok_return|]|].
    destruct (negb (t_adopted t)); (split; [|done]).
    + apply relay_ok_return; [done|]. apply relay_ok_quiet; [done..|]. by apply relay_ok_quiet.
    + apply relay_ok_eof; [done|]. by apply relay_ok_quiet.
Qed.

(** A turn of a relay that has not sent its close. *)
Lemma relay_step cfg t r : relay_ok cfg r → relay_ok cfg (relayShapeA cfg t r).
Proof.
  intros Hr. unfold relayShapeA. destruct (returned r) eqn:Eret; [done|].
  assert (finSent r = false) as Hf.
  { destruct (finSent r) eqn:E; [|done]. destruct Hr as [_ _ _ _ _ H6]. rewrite E in H6. destruct H6 as [? _]. congruence. }
  destruct (t_ctx t); [by apply relay_ok_return|]. destruct (socketEOF r) eqn:Ee.
  - destruct (pending r) as [|b rest] eqn:Ep.
    + rewrite Hf. unfold sendCloseFrame. destruct (t_att t) as [g|]; [|by apply relay_ok_quiet].
      destruct (default true _).
      * destruct Hr as [H1 H2 H3 H4 H5 H6]. rewrite Hf in H6.
        constructor; cbn [effects pending accepted emitR returnR setter expand finSent returned socketEOF].
        -- rewrite !sentChunks_app. cbn. by rewrite !app_nil_r, <- H1.
        -- rewrite !sentChunks_app. cbn. by rewrite !app_nil_r.
        -- rewrite !balance_app, H3. cbn. lia.
        -- done.
        -- intros Hb. rewrite !elem_of_app, !list_elem_of_singleton. naive_solver.
        -- split_and!; [done..|]. exists (effects r), g. by rewrite <- app_assoc.
      * apply relay_ok_quiet; [done..|]. by apply relay_ok_quiet.
    + destruct (flushPending t r) as [ok r1] eqn:Efl.
      eapply flushPending_spec in Efl as (H1 & H2 & _); [|done..]. destruct ok; [done|]. by apply relay_ok_quiet.
  - set (fl := match pending r with [] => _ | _ => _ end).
    assert (relay_ok cfg (snd fl) ∧ finSent (snd fl) = false ∧ (fst fl = true → pending (snd fl) = [])) as (H1 & H2 & H3).
    { unfold fl. destruct (pending r) as [|b rest] eqn:Ep; [done|]. destruct (flushPending t r) as [ok r1] eqn:Efl.
      eapply flushPending_spec in Efl as (H1 & H2 & _ & _ & _ & H3 & _); done. }
    destruct fl as [ok r1]. cbn [fst snd] in *. destruct ok; cbn [negb]; [|by apply relay_ok_quiet].
    destruct (_ && _); [by apply relay_ok_quiet|]. rewrite H3 by done. destruct (BufferBytes cfg <=? zlen []) eqn:Eb.
    + apply relay_ok_quiet; [done..|]. apply Z.leb_le in Eb. change (zlen []) with 0 in Eb.
      destruct H1 as [G1 G2 G3 G4 G5 G6]. rewrite H2 in G6.
      constructor; cbn [effects pending accepted emitR setter expand finSent returned socketEOF]; rewrite ?H2.
      * rewrite sentChunks_app. cbn. by rewrite app_nil_r.
      * rewrite sentChunks_app. cbn. by rewrite app_nil_r.
      * rewrite balance_app, G3. cbn. lia.
      * done.
      * lia.
      * by rewrite fins_app, G6.
    + by apply readSocket_spec; auto.
Qed.

Lemma relay_run_inv cfg ts r : relay_ok cfg r → relay_ok cfg (relayRun cfg ts r).
Proof. revert r. induction ts as [|t ts IH]; intros r Hr; [done|]. apply IH. by apply relay_step. Qed.

(** ** Theorems *)

(** Accepted bytes stay accepted. *)
Lemma flushPending_accepted t r ok r' : flushPending t r = (ok, r') → accepted r' = accepted r.
Proof.
  unfold flushPending. destruct (t_att t) as [gen|]; [|by intros [= <- <-]].
  generalize (t_writes t). generalize (length (pending r)) as fuel. intros fuel. revert r.
  induction fuel as [|fuel IH]; intros r ws; cbn [flushChunks]; [by intros [= <- <-]|].
  destruct (pending r) eqn:Ep; [by intros [= <- <-]|]. destruct (default true (head ws)); [|by intros [= <- <-]].
  cbv zeta. by intros ->%IH.
Qed.

Lemma accepted_step cfg t r : accepted r `prefix_of` accepted (relayShapeA cfg t r).
Proof.
  unfold relayShapeA. destruct (returned r); [done|]. destruct (t_ctx t); [done|]. destruct (socketEOF r).
  { destruct (pending r) eqn:Ep.
    - destruct (finSent r); [done|]. unfold sendCloseFrame. destruct (t_att t); [|done]. by destruct (default true _).
    - destruct (flushPending t r) as [ok r1] eqn:Ef. apply flushPending_accepted in Ef. destruct ok; cbn; by rewrite Ef. }
  assert (∀ r1, accepted r1 = accepted r → accepted r `prefix_of` accepted (readSocket cfg t r1)) as Hread.
  { intros r1 <-. unfold readSocket.
    set (p := match take _ _ with [] => _ | _ => _ end). assert (accepted r1 `prefix_of` accepted (snd p)) as Hp.
    { unfold p. destruct (take _ _); [done|]. destruct (t_charge t); cbn; [by apply prefix_app_r|done]. }
    destruct p as [alive r2]. destruct (negb alive); [done|]. destruct (snd (t_read t)) as [[]|]; [| | |done].
    - by destruct (_ && _).
    - case_bool_decide; [|done]. destruct (upReadErrorPolicy _ _); [done|]. by destruct (negb _).
    - case_bool_decide; [|done]. destruct (upReadErrorPolicy _ _); [done|]. by destruct (negb _). }
  set (p := match pending r with [] => _ | _ => _ end).
  assert (accepted (snd p) = accepted r) as Hp.
  { unfold p. destruct (pending r); [done|]. destruct (flushPending t r) as [ok r1] eqn:Ef. by apply flushPending_accepted in Ef. }
  destruct p as [ok r1]. cbn [snd] in Hp. destruct (negb ok); [cbn; by rewrite Hp|].
  destruct (_ && _); [cbn; by rewrite Hp|]. destruct (_ <=? _); [cbn; by rewrite Hp|]. by apply Hread.
Qed.

Lemma accepted_run cfg ts r : accepted r `prefix_of` accepted (relayRun cfg ts r).
Proof.
  revert r. induction ts as [|t ts IH]; intros r; [done|]. cbn. etrans; [apply (accepted_step cfg t)|apply IH].
Qed.


(** the reconnect buffer never holds more than one read.  The relay flushes
    before it reads, so at most [RelayBufSize] bytes are ever pending, and with
    a positive [BufferBytes] its bound is never the reason to stop reading. *)
Theorem relay_buffers_one_read cfg ts :
  let r := relayRun cfg ts relay0 in
  (length (pending r) ≤ RelayBufSize cfg)%nat ∧ (0 < BufferBytes cfg → EBufferFull ∉ effects r).
Proof. intros r. destruct (relay_run_inv cfg ts relay0 (relay_ok_init cfg)). done. Qed.

(** A turn in which the session is attached to a live carrier that takes every
    frame. *)
Definition good_turn (t : turn) : Prop := t_ctx t = false ∧ is_Some (t_att t) ∧ Forall (λ b, b = true) (t_writes t).

(** A good turn flushes what is pending. *)
Lemma relay_good_flush cfg t r :
  relay_ok cfg r → returned r = false → finSent r = false → socketEOF r = true → good_turn t → pending r ≠ [] →
  let r' := relayShapeA cfg t r in
  relay_ok cfg r' ∧ returned r' = false ∧ finSent r' = false ∧ socketEOF r' = true ∧ pending r' = [] ∧ accepted r' = accepted r.
Proof.
  intros Hr Hret Hf He (Hc & Ha & Hw) Hp. cbv zeta. unfold relayShapeA. rewrite Hret, Hc, He.
  destruct (pending r) eqn:Ep; [done|]. destruct (flushPending t r) as [ok r1] eqn:E.
  eapply flushPending_spec in E as (H1 & H2 & H3 & H4 & H5 & H6 & H7); [|done..]. rewrite H7 by done.
  split_and!; [done|congruence|done|congruence|apply H6; by apply H7|done].
Qed.

(** A good turn with nothing pending sends the close and ends the relay. *)
Lemma relay_good_fin cfg t r :
  returned r = false → finSent r = false → socketEOF r = true → good_turn t → pending r = [] →
  let r' := relayShapeA cfg t r in
  ∃ g, effects r' = effects r ++ [EFin g; EPeerEOF] ∧ returned r' = true ∧ accepted r' = accepted r.
Proof.
  intros Hret Hf He (Hc & [g Ha] & Hw) Hp. cbv zeta. unfold relayShapeA, sendCloseFrame. rewrite Hret, Hc, He, Hp, Hf, Ha.
  assert (default true (head (t_writes t)) = true) as ->
    by (destruct (t_writes t) as [|w ws]; [done|]; inversion Hw; by subst).
  exists g. split_and!; try done. cbn. by rewrite <- app_assoc.
Qed.

Lemma relay_returned cfg ts r : returned r = true → relayRun cfg ts r = r.
Proof.
  intros Hr. induction ts as [|t ts IH]; [done|]. unfold relayRun in *. cbn [foldl]. unfold relayShapeA at 2. by rewrite Hr.
Qed.

(** C8: buffered bytes and the half-close survive a carrier loss.  Whatever
    happened before, once the socket has ended two turns with a live carrier
    are enough: every byte taken from the socket has been written and the
    FrameClose sent after them. *)
Theorem relay_delivers cfg ts t1 t2 :
  let r := relayRun cfg ts relay0 in
  returned r = false → socketEOF r = true → good_turn t1 → good_turn t2 →
  let r' := relayRun cfg [t1; t2] r in
  returned r' = true ∧ concat (sentChunks (effects r')) = accepted r ∧ length (fins (effects r')) = 1%nat.
Proof.
  intros r Hret He G1 G2. cbv zeta. pose proof (relay_run_inv cfg ts relay0 (relay_ok_init cfg)) as Hr. fold r in Hr.
  assert (finSent r = false) as Hf by (destruct (finSent r) eqn:E; [|done]; destruct Hr as [_ _ _ _ _ H6]; rewrite E in H6;
    destruct H6 as [? _]; congruence).
  assert (∀ t r0, relay_ok cfg r0 → returned r0 = false → finSent r0 = false → socketEOF r0 = true → good_turn t → pending r0 = [] →
    let r' := relayShapeA cfg t r0 in
    returned r' = true ∧ concat (sentChunks (effects r')) = accepted r0 ∧ length (fins (effects r')) = 1%nat) as Hfin.
  { intros t r0 H0 H1 H2 H3 H4 H5. destruct (relay_good_fin cfg t r0 H1 H2 H3 H4 H5) as (g & E1 & E2 & E3). cbv zeta.
    destruct H0 as [B1 _ _ _ _ B6]. rewrite H2 in B6. rewrite E1, sentChunks_app, fins_app, B6. split_and!; [done| |done].
    cbn. by rewrite app_nil_r, <- B1, H5, app_nil_r. }
  change (relayRun cfg [t1; t2] r) with (relayRun cfg [t2] (relayShapeA cfg t1 r)).
  destruct (decide (pending r = [])) as [Hp|Hp].
  - destruct (Hfin t1 r Hr Hret Hf He G1 Hp) as (F1 & F2 & F3). rewrite relay_returned by done. done.
  - destruct (relay_good_flush cfg t1 r Hr Hret Hf He G1 Hp) as (A1 & A2 & A3 & A4 & A5 & <-).
    apply (Hfin t2); done.
Qed.

(** Reads that do not end the session: on the client's side of an adopted
    session no read error and no end of stream closes it, as long as the budget
    grants. *)
Lemma readSocket_tolerant cfg t r :
  rc_dir cfg = DirUp → t_adopted t = true → t_charge t = true →
  ∃ es, effects (readSocket cfg t r) = effects r ++ es ∧ Forall (λ e, match e with ECloseSession _ => False | _ => True end) es.
Proof.
  intros Hd Ha Hc. unfold readSocket. rewrite Ha, Hc, Hd. rewrite bool_decide_true by done. cbn [negb andb].
  set (chunk := take _ _). destruct chunk; cbn [negb].
  - destruct (snd (t_read t)) as [[]|]; cbn; [..|exists []; by rewrite app_nil_r];
      try (destruct (upReadErrorPolicy _ _)); first [by exists []; rewrite app_nil_r|by eexists; split; [reflexivity|repeat constructor]].
  - destruct (snd (t_read t)) as [[]|]; cbn; try (destruct (upReadErrorPolicy _ _)); cbn; rewrite <- ?app_assoc;
      by eexists; split; [reflexivity|repeat constructor].
Qed.

(** ** Shape B *)
Definition bframes (es : list beffect) : list (list byte) := omap (λ e, match e with BWrite p => Some p | _ => None end) es.
Definition credited (es : list beffect) : Z := zsum (λ e, match e with BCredit n => n | _ => 0 end) es.
Definition offered (ts : list bturn) : list (list byte) := omap (λ t, match b_item t with Some (Some p) => Some p | _ => None end) ts.

Lemma brun_returned dir credits gen ts r : b_returned r = true → brun dir credits gen ts r = r.
Proof.
  intros Hr. induction ts as [|t ts IH]; [done|]. unfold brun in *. cbn [foldl]. unfold startStreamRelay at 2. by rewrite Hr.
Qed.

Lemma bframes_app a b : bframes (a ++ b) = bframes a ++ bframes b.
Proof. apply omap_app. Qed.

(** A turn either writes one frame, in the attached epoch, and goes on, or ends
    the relay without writing a frame in full. *)
Lemma startStreamRelay_cases dir credits gen t r :
  b_returned r = false →
  let credit := credits && bool_decide (dir = DirDown) in
  let r' := startStreamRelay dir credits gen t r in
  (∃ p, b_item t = Some (Some p) ∧ b_ctx t = false ∧ b_attached t = Some gen ∧ b_write t = (length p, true)
        ∧ r' = emitB ([BWrite p] ++ (if credit then [BCredit (zlen p)] else [])) false r)
  ∨ (b_returned r' = true ∧ ∃ es, b_effects r' = b_effects r ++ es ∧ bframes es = [] ∧ credited es = 0).
Proof.
  intros Hr credit. cbv zeta. unfold startStreamRelay. rewrite Hr. fold credit.
  destruct (b_ctx t) eqn:Ec; [right; split; [done|]; by exists []|].
  destruct (b_item t) as [[frame|]|]; case_bool_decide as Ea; cbn [negb];
    try (right; split; [done|]; eexists; split; [reflexivity|by destruct credit]).
  destruct (b_write t) as [nw ok] eqn:Ew. destruct (ok && (nw =? length frame)%nat) eqn:Eok.
  - left. apply andb_true_iff in Eok as [-> ->%Nat.eqb_eq]. exists frame. done.
  - right. split; [done|]. eexists. split; [reflexivity|done].
Qed.

(** the down relay writes exactly the attached epoch's frames.  The frames
    the socket accepted are the ones of an initial run of the channel's
    elements, in order and complete, each read while the session was attached
    to this carrier; the relay ends at the first element that is not, at the
    peer's close, at the channel's close and at the first short or failed
    write; the bytes acknowledged to the sender are exactly the bytes the
    socket accepted in full writes. *)
Theorem stream_relay_exact dir credits gen ts :
  let r := brun dir credits gen ts brelay0 in
  ∃ n, bframes (b_effects r) = offered (take n ts)
    ∧ Forall (λ t, b_ctx t = false ∧ b_attached t = Some gen
                   ∧ ∃ p, b_item t = Some (Some p) ∧ b_write t = (length p, true)) (take n ts)
    ∧ ((length ts ≤ n)%nat ∨ b_returned r = true)
    ∧ credited (b_effects r) = if credits && bool_decide (dir = DirDown) then zlen (concat (bframes (b_effects r))) else 0.
Proof.
  cbv zeta. set (credit := credits && bool_decide (dir = DirDown)).
  assert (∀ r, b_returned r = false → ∃ n es, b_effects (brun dir credits gen ts r) = b_effects r ++ es
    ∧ bframes es = offered (take n ts)
    ∧ Forall (λ t, b_ctx t = false ∧ b_attached t = Some gen
                   ∧ ∃ p, b_item t = Some (Some p) ∧ b_write t = (length p, true)) (take n ts)
    ∧ ((length ts ≤ n)%nat ∨ b_returned (brun dir credits gen ts r) = true)
    ∧ credited es = if credit then zlen (concat (bframes es)) else 0) as H.
  { induction ts as [|t ts IH]; intros r Hr.
    { exists 0%nat, []. rewrite app_nil_r. split_and!; try done; [by left|by destruct credit]. }
    change (brun dir credits gen (t :: ts) r) with (brun dir credits gen ts (startStreamRelay dir credits gen t r)).
    destruct (startStreamRelay_cases dir credits gen t r Hr) as [(p & Hi & Hc & Ha & Hw & ->)|(Hret & es & Hes & Hf & Hcr)].
    - fold credit. destruct (IH (emitB ([BWrite p] ++ (if credit then [BCredit (zlen p)] else [])) false r) eq_refl)
        as (n & es & E1 & E2 & E3 & E4 & E5).
      exists (S n), ([BWrite p] ++ (if credit then [BCredit (zlen p)] else []) ++ es). rewrite E1. cbn [b_effects emitB take].
      split_and!.
      + by rewrite <- !app_assoc.
      + unfold offered. cbn [omap list_omap]. rewrite Hi. fold (offered (take n ts)). rewrite <- E2.
        cbn. f_equal. by destruct credit.
      + constructor; [|done]. split_and!; [done..|]. by exists p.
      + destruct E4 as [?|?]; [left; cbn [length]; lia|by right].
      + unfold credited in *. rewrite !zsum_app, E5. destruct credit; cbn; [|done].
        change (omap _ es) with (bframes es). unfold zlen. rewrite length_app. lia.
    - exists 0%nat, es. rewrite brun_returned by done. split_and!; [done|done|constructor|by right|].
      rewrite Hcr, Hf. by destruct credit. }
  destruct (H brelay0 eq_refl) as (n & es & E1 & E2 & E3 & E4 & E5). exists n. rewrite E1. done.
Qed.

(** ** Examples *)

Definition up_cfg : relayCfg := mkRelayCfg RoleIran DirUp 4 262144.

(** Two reads, a carrier loss in between, and the client's end of stream. *)
Definition loss_turns : list turn :=
  [mkTurn false (Some 1) [] false ([x01; x02], None) true true StateActive;
   mkTurn false None [] false ([x03], None) true true StateActive;
   mkTurn false (Some 1) [false] false ([x03], None) true true StateActive;
   mkTurn false (Some 2) [] false ([x03], Some ReadEOF) true true StateActive].

Definition attached_turn (g : Z) : turn := mkTurn false (Some g) [] false ([], None) true true StateActive.

Lemma relay_delivers_witness :
  let r' := relayRun up_cfg [attached_turn 3; attached_turn 3] (relayRun up_cfg loss_turns relay0) in
  returned r' = true ∧ concat (sentChunks (effects r')) = [x01; x02; x03] ∧ length (fins (effects r')) = 1%nat.
Proof.
  apply (relay_delivers up_cfg loss_turns (attached_turn 3) (attached_turn 3)); try (vm_compute; reflexivity).
  - split_and!; [reflexivity|by exists 3|constructor].
  - split_and!; [reflexivity|by exists 3|constructor].
Defined.
