(* ===== verification/Tunnel.v ===== *)
(** * One direction of a session, end to end

    The bytes of a session travel through a relay on the sending node
    (Relay.v), the write path of its carrier (CarrierWrites.v), the connection,
    the read loop (CarrierReader.v) and the dispatcher, mailbox and worker of
    the receiving node's carrier (CarrierStreams.v) and the relay into the other
    socket (Relay.v).  This file connects the models of the parts and compares
    the whole with what it stands for: a pipe that delivers the bytes it
    accepted, in order.

    A session lives through several carriers; the part of its life on one of
    them is an epoch.  [epoch] says how the parts are wired during one epoch,
    everything else about them is arbitrary. *)
From S2P Require Import Session CarrierStreams CarrierCallers CarrierReader Relay.
#[local] Open Scope Z_scope.

(** ** Relay effects as frames *)

(** The frames a relay asked its carrier to write. *)
Definition relayFrames (id : Z) (es : list reffect) : list Frame :=
  omap (λ e, match e with
             | EFrame _ p => Some (frame_of id FrameData p)
             | EFin _ => Some (frame_of id FrameClose [])
             | _ => None
             end) es.

(** The payloads of the frames of a list that are not closes. *)
Definition datas (fs : list Frame) : list (list byte) :=
  map Payload (List.filter (λ f, negb (Type_ f =? FrameClose)) fs).

Lemma datas_app fs gs : datas (fs ++ gs) = datas fs ++ datas gs.
Proof. unfold datas. by rewrite List.filter_app, map_app. Qed.

Lemma datas_relay id es : datas (relayFrames id es) = sentChunks es.
Proof.
  induction es as [|e es IH]; [done|]. destruct e as [gen p|gen| | | | | | | | |]; try exact IH.
  transitivity (p :: datas (relayFrames id es)); [done|]. by rewrite IH.
Qed.

(** Up to its first nil, a channel shows payloads of frames. *)
Lemma seen_datas fs : seen (map conv (map itemOf fs)) `prefix_of` datas fs.
Proof.
  induction fs as [|f fs IH]; [done|].
  assert (conv (itemOf f) = if Type_ f =? FrameClose then None else match Payload f with [] => None | p => Some p end) as Ec
    by (unfold conv, itemOf; by destruct (Type_ f =? FrameClose)).
  unfold datas in *. cbn [map List.filter]. rewrite Ec.
  destruct (Type_ f =? FrameClose); [apply prefix_nil|]. cbn [negb map].
  destruct (Payload f); [apply prefix_nil|]. by apply prefix_cons.
Qed.

(** ** The frames of one caller among those on the wire *)

Definition decode (d : list byte) : Frame :=
  match ReadFrame d with Ok (f, _) => f | Err _ => frame_of 0 0 [] end.

Lemma decode_wire f : wf_frame f → decode (wire f) = f.
Proof. intros Hf. unfold decode. rewrite <- (app_nil_r (wire f)), ReadFrame_wire by done. done. Qed.

Definition reqFrame (w : wstate) (j : nat) : Frame := decode (default [] (rq_data <$> reqs w !! j)).

(** ** The consumer *)
Lemma bframes_items dir credits gen ts : ∀ r,
  ∃ es, b_effects (brun dir credits gen ts r) = b_effects r ++ es ∧ map Some (bframes es) `prefix_of` omap b_item ts.
Proof.
  induction ts as [|t ts IH]; intros r; [exists []; by rewrite app_nil_r|].
  destruct (b_returned r) eqn:Hr.
  { exists []. rewrite brun_returned, app_nil_r by done. split; [done|apply prefix_nil]. }
  cbn [brun foldl]. fold (brun dir credits gen ts (startStreamRelay dir credits gen t r)).
  destruct (startStreamRelay_cases dir credits gen t r Hr) as [(p & Hi & _ & _ & _ & E)|(Hret & es & E & Hb & _)].
  - set (r1 := startStreamRelay dir credits gen t r) in *. destruct (IH r1) as (es & Ees & Hp).
    eexists. rewrite Ees, E. cbn [emitB b_effects]. split; [by rewrite <- app_assoc|].
    rewrite bframes_app. cbn [omap list_omap]. rewrite Hi.
    assert (bframes ([BWrite p] ++ (if credits && bool_decide (dir = DirDown) then [BCredit (zlen p)] else [])) = [p]) as ->
      by (by destruct (credits && _)).
    cbn. by apply prefix_cons.
  - rewrite brun_returned by done. exists es. rewrite E, Hb. split; [done|apply prefix_nil].
Qed.

(** ** One epoch *)

(** The sending carrier's write path, the requests the session's goroutines made
    on it (the last one possibly failed or unfinished), the bytes that arrived
    and the receiving carrier with the stream's record. *)
Record epoch := mkEpoch {
  ep_opens : list Frame;               (* FrameHeader, FrameRebind or nothing: what opens the stream *)
  ep_w : wstate;
  ep_done : list nat;
  ep_last : list nat;
  ep_bytes : list byte;
  ep_tail : list byte;                 (* the part of a frame a broken write left *)
  ep_known : nat → Z → bool;
  ep_limits : StreamLimits;
  ep_onNew : bool;
  ep_labels : list label;
  ep_carrier : CarrierConn;
  ep_index : nat;
  ep_rec : streamRec
}.

(** How the parts are connected for stream [id].  [mid] is what the sending relay
    did in this epoch, [next] the chunk at the head of its buffer at the end,
    [tb] the turns of the receiving relay. *)
Record wired (id : Z) (mid : list reffect) (next : list byte) (tb : list bturn) (e : epoch) : Prop := {
  wd_opens : Forall (λ f, frameOf id f = true ∧ Type_ f ≠ FrameClose) (ep_opens e);
  (* the session writes one frame after the other *)
  wd_caller : caller (ep_done e ++ ep_last e) (ep_w e);
  wd_done : map (reqFrame (ep_w e)) (ep_done e) = ep_opens e ++ relayFrames id mid;
  wd_written : ∀ j, j ∈ ep_done e → ∃ rq, reqs (ep_w e) !! j = Some rq ∧ rq_phase rq = RResolved (Written true);
  wd_last : ep_last e = []
            ∨ ∃ j, ep_last e = [j]
                   ∧ (reqFrame (ep_w e) j = frame_of id FrameData next ∨ reqFrame (ep_w e) j = frame_of id FrameClose []);
  (* everybody writes whole frames, and nobody else on this stream *)
  wd_frames : ∀ j rq, reqs (ep_w e) !! j = Some rq → ∃ f, wf_frame f ∧ rq_data rq = wire f;
  wd_others : ∀ j rq, reqs (ep_w e) !! j = Some rq → j ∉ ep_done e ++ ep_last e → frameOf id (reqFrame (ep_w e) j) = false;
  (* the connection delivers some first part of what was written *)
  wd_tail : cut_short (ep_tail e);
  wd_net : ep_bytes e `prefix_of` concat (onWire (ep_w e)) ++ ep_tail e;
  (* the read loop feeds the dispatcher *)
  wd_read : fed (ep_labels e) `prefix_of` fst (readLoop (S (length (ep_bytes e))) (ep_known e) 0 (ep_bytes e));
  wd_run : crun_timely (ep_labels e) (newCarrierConn (ep_limits e) (ep_onNew e)) = Some (ep_carrier e);
  wd_rec : allStreams (ep_carrier e) !! ep_index e = Some (ep_rec e);
  wd_id : r_id (ep_rec e) = id;
  wd_opened : opened (ep_limits e) (ep_onNew e) (ep_labels e) id (ep_index e);
  (* the opening frames are consumed by the bootstrap or the rebind, the rest by the relay *)
  wd_consumer : map Some (map Payload (ep_opens e)) ++ omap b_item tb `prefix_of` r_recv (ep_rec e)
}.

Section wired.
Context {id : Z} {mid : list reffect} {next : list byte} {tb : list bturn} {e : epoch} (He : wired id mid next tb e).

Let w := ep_w e.
Let own := ep_done e ++ ep_last e.
Definition wireFrames (w : wstate) : list Frame := map (reqFrame w) (wire_out w).

Lemma wired_onWire : onWire w = map wire (wireFrames w) ∧ Forall wf_frame (wireFrames w).
Proof.
  destruct (caller_ok _ _ (wd_caller _ _ _ _ _ He)) as [_ Hok]. fold w in Hok.
  assert (∀ j, j ∈ wire_out w → ∃ f, wf_frame f ∧ reqFrame w j = f ∧ (rq_data <$> reqs w !! j) = Some (wire f)) as Hall.
  { intros j (rq & Hrq & _)%(wo_settled w Hok). destruct (wd_frames _ _ _ _ _ He j rq Hrq) as (f & Hf & Hd).
    exists f. unfold reqFrame. fold w in Hrq. rewrite Hrq. cbn. rewrite Hd, decode_wire by done. done. }
  clear Hok. unfold onWire, wireFrames. induction (wire_out w) as [|j js IH]; [done|].
  destruct (Hall j) as (f & Hf & Er & Ed); [left|]. destruct IH as [IH1 IH2]; [intros k Hk; apply Hall; by right|].
  cbn [map omap list_omap]. rewrite Ed, Er. split; [by rewrite <- IH1|by constructor].
Qed.

Lemma own_frames j : j ∈ own → frameOf id (reqFrame w j) = true.
Proof.
  assert (∀ f, f ∈ relayFrames id mid → frameOf id f = true) as Hrel.
  { intros f (ef & _ & Hf)%list_elem_of_omap. unfold frameOf. destruct ef; try done; injection Hf as <-; cbn; by rewrite Z.eqb_refl. }
  intros [Hj|Hj]%elem_of_app.
  - assert (reqFrame w j ∈ map (reqFrame w) (ep_done e)) as Hin by (by apply list_elem_of_fmap_2).
    unfold w in Hin. rewrite (wd_done _ _ _ _ _ He) in Hin. apply elem_of_app in Hin as [Hin|Hin]; [|by apply Hrel].
    pose proof (wd_opens _ _ _ _ _ He) as Ho. rewrite Forall_forall in Ho. by apply Ho.
  - destruct (wd_last _ _ _ _ _ He) as [E|(k & E & Hf)]; rewrite E in Hj; [by apply not_elem_of_nil in Hj|].
    apply list_elem_of_singleton in Hj as ->. unfold frameOf, w. destruct Hf as [->| ->]; cbn; by rewrite Z.eqb_refl.
Qed.

(** On the wire, the stream's frames are the session's, in the order of its calls. *)
Lemma wired_frames :
  ∃ ex, List.filter (frameOf id) (wireFrames w) = ep_opens e ++ relayFrames id mid ++ ex
        ∧ (ex = [] ∨ ex = [frame_of id FrameData next] ∨ ex = [frame_of id FrameClose []]).
Proof.
  destruct (caller_order _ _ (wd_caller _ _ _ _ _ He)) as [Ho _].
  destruct (caller_ok _ _ (wd_caller _ _ _ _ _ He)) as [_ Hok]. fold w own in Ho, Hok.
  assert (List.filter (frameOf id) (wireFrames w) = map (reqFrame w) (filter (λ j, j ∈ own) (wire_out w))) as ->.
  { unfold wireFrames. assert (∀ j, j ∈ wire_out w → frameOf id (reqFrame w j) = bool_decide (j ∈ own)) as Hall.
    { intros j Hj. case_bool_decide as Hd; [by apply own_frames|].
      apply (wo_settled w Hok) in Hj as (rq & Hrq & _). by eapply (wd_others _ _ _ _ _ He). }
    clear Ho Hok. induction (wire_out w) as [|j js IH]; [done|]. cbn [map List.filter]. rewrite Hall, filter_cons by left.
    rewrite IH by (intros k Hk; apply Hall; by right).
    destruct (decide (j ∈ own)); [rewrite bool_decide_true by done|rewrite bool_decide_false by done]; done. }
  rewrite Ho. unfold own. rewrite filter_app, map_app.
  assert (filter (λ j, j ∈ wire_out w) (ep_done e) = ep_done e) as ->.
  { assert (∀ j, j ∈ ep_done e → j ∈ wire_out w) as Hin
      by (intros j (rq & Hrq & Hph)%(wd_written _ _ _ _ _ He); by eapply wo_written).
    clear Ho Hok. induction (ep_done e) as [|j js IH]; [done|]. rewrite filter_cons_True by (apply Hin; left).
    rewrite IH; [done|]. intros k Hk. apply Hin. by right. }
  unfold w at 1. rewrite (wd_done _ _ _ _ _ He), <- app_assoc. eexists. split; [reflexivity|]. fold w.
  destruct (wd_last _ _ _ _ _ He) as [->|(j & -> & Hf)]; [by left|]. rewrite filter_cons, filter_nil.
  destruct (decide _); [|by left]. cbn. fold w in Hf. destruct Hf as [->| ->]; auto.
Qed.

(** What the consumer's channel shows, opening frames included. *)
Lemma wired_payloads : payloads id (fed (ep_labels e)) `prefix_of` map Payload (ep_opens e) ++ sentChunks mid ++ [next].
Proof.
  destruct wired_onWire as [Eo Hwf], wired_frames as (ex & Ef & Hex).
  assert (fed (ep_labels e) `prefix_of` wireFrames w) as Hfed.
  { etrans; [apply (wd_read _ _ _ _ _ He)|]. eapply readLoop_prefix; [done|apply (wd_tail _ _ _ _ _ He)|].
    rewrite <- Eo. apply (wd_net _ _ _ _ _ He). }
  assert (payloads id (fed (ep_labels e)) `prefix_of` payloads id (wireFrames w)) as Hp.
  { apply seen_prefix. destruct (items_prefix id _ _ Hfed) as [k E]. exists (map conv k). by rewrite E, map_app. }
  etrans; [exact Hp|]. unfold payloads, items. rewrite Ef. etrans; [apply seen_datas|].
  rewrite !datas_app, datas_relay. assert (datas (ep_opens e) = map Payload (ep_opens e)) as ->.
  { pose proof (wd_opens _ _ _ _ _ He) as Ho. clear Ef. induction Ho as [|f fs [_ Hf] _ IH]; [done|]. unfold datas in *.
    cbn [List.filter map]. rewrite (proj2 (Z.eqb_neq _ _) Hf). cbn [negb map]. by rewrite IH. }
  apply prefix_app, prefix_app. destruct Hex as [->|[->| ->]]; [apply prefix_nil|done|apply prefix_nil].
Qed.

(** What the receiving relay writes to its socket. *)
Lemma wired_out dir credits gen :
  bframes (b_effects (brun dir credits gen tb brelay0)) `prefix_of` sentChunks mid ++ [next].
Proof.
  destruct (bframes_items dir credits gen tb brelay0) as (es & -> & Hp). cbn [brelay0 b_effects app].
  assert (map Payload (ep_opens e) ++ bframes es `prefix_of` map Payload (ep_opens e) ++ sentChunks mid ++ [next]) as H.
  2:{ destruct H as [k E]. exists k. rewrite <- app_assoc in E. by apply app_inv_head in E. }
  etrans; [|exact wired_payloads]. etrans; [|eapply received_prefix; apply He].
  assert (∀ ps, seen (map Some ps) = ps) as Hs by (induction ps as [|p ps IH]; [done|cbn; by rewrite IH]).
  rewrite <- (Hs (map Payload _ ++ bframes es)), map_app. apply seen_prefix.
  etrans; [|apply (wd_consumer _ _ _ _ _ He)]. by apply prefix_app.
Qed.
End wired.

(** ** A session over its carriers *)

(** One direction of a session from relay state to relay state.  Each epoch
    contributes the bytes its carrier accepted from the sending relay and the
    bytes the receiving relay wrote to its socket. *)
Inductive life (id : Z) (cfg : relayCfg) : relay → list (list byte * list byte) → relay → Prop :=
| life_nil r : life id cfg r [] r
| life_epoch r ts mid e tb dir credits gen es r2 :
    let r1 := relayRun cfg ts r in
    effects r1 = effects r ++ mid →
    wired id mid (take (Z.to_nat MaxPayload) (Relay.pending r1)) tb e →
    life id cfg r1 es r2 →
    life id cfg r ((concat (sentChunks mid), concat (bframes (b_effects (brun dir credits gen tb brelay0)))) :: es) r2.

(** The abstract pipe: what came out is a first part of what went in. *)
Definition pipe (input output : list byte) : Prop := output `prefix_of` input.

Lemma concat_prefix {A} (l k : list (list A)) : l `prefix_of` k → concat l `prefix_of` concat k.
Proof. intros [m ->]. rewrite concat_app. by eexists. Qed.

Lemma life_accepted id cfg r es r2 : life id cfg r es r2 → accepted r `prefix_of` accepted r2.
Proof.
  induction 1 as [|r ts mid e tb dir credits gen es r2 r1 _ _ _ IH]; [done|]. etrans; [apply accepted_run|exact IH].
Qed.

Lemma life_bytes id cfg r es r2 :
  life id cfg r es r2 → relay_ok cfg r →
  relay_ok cfg r2
  ∧ concat (sentChunks (effects r)) ++ concat (map fst es) ++ Relay.pending r2 = accepted r2
  ∧ ∀ k sent out, es !! k = Some (sent, out) →
      pipe (accepted r2) (concat (sentChunks (effects r)) ++ concat (map fst (take k es)) ++ out).
Proof.
  induction 1 as [r|r ts mid e tb dir credits gen es r2 r1 Hmid Hw Hl IH]; intros Hr.
  - split_and!; [done|cbn; apply Hr|]. intros k s o Hk. by rewrite lookup_nil in Hk.
  - assert (relay_ok cfg r1) as Hr1 by (by apply relay_run_inv). destruct (IH Hr1) as (H1 & H2 & H3).
    rewrite Hmid, sentChunks_app, concat_app in H2. split_and!; [done|cbn; by rewrite <- !app_assoc in H2 |- *|].
    intros [|k] sent out Hk; cbn [lookup list_lookup] in Hk.
    + injection Hk as <- <-. cbn [take map concat app]. unfold pipe.
      pose proof (concat_prefix _ _ (wired_out Hw dir credits gen)) as Hp.
      rewrite concat_app in Hp. cbn [concat] in Hp. rewrite app_nil_r in Hp.
      etrans; [|by apply (life_accepted id cfg r1 es)]. rewrite <- (ri_bytes _ _ Hr1), Hmid, sentChunks_app, concat_app, <- app_assoc.
      apply prefix_app. etrans; [exact Hp|]. apply prefix_app. exists (drop (Z.to_nat MaxPayload) (Relay.pending r1)).
      by rewrite take_drop.
    + specialize (H3 k sent out Hk). rewrite Hmid, sentChunks_app, concat_app, <- app_assoc in H3.
      cbn [take map concat fst]. by rewrite <- app_assoc.
Qed.

(** C1: one direction of a session is a byte pipe, carrier by carrier.  Whatever
    happens on the sending relay, among the writers of its carrier, on the
    connection and in the receiving carrier and relay: the bytes the carriers
    accepted are, epoch after epoch, the bytes the sending socket gave, and
    the bytes each epoch brings to the receiving socket continue, unchanged,
    in order and without a gap or a repetition, exactly where the bytes the
    earlier carriers accepted end.  So as long as every carrier that was lost
    had delivered what it accepted, the receiving socket sees a first part of
    the stream. *)
Theorem tunnel_refines_pipe id cfg es r :
  life id cfg relay0 es r →
  concat (map fst es) ++ Relay.pending r = accepted r
  ∧ (∀ k sent out, es !! k = Some (sent, out) → pipe (accepted r) (concat (map fst (take k es)) ++ out))
  ∧ ((∀ k sent out, es !! k = Some (sent, out) → (S k < length es)%nat → out = sent) → pipe (accepted r) (concat (map snd es))).
Proof.
  intros Hl. destruct (life_bytes _ _ _ _ _ Hl (relay_ok_init cfg)) as (_ & H2 & H3). cbn in H2.
  assert (∀ k sent out, es !! k = Some (sent, out) → pipe (accepted r) (concat (map fst (take k es)) ++ out)) as H4
    by (intros k sent out Hk; by apply (H3 k sent)).
  split_and!; [done|done|]. intros Hall. clear H2 H3 Hl. destruct es as [|[s o] es _] using rev_ind; [apply prefix_nil|].
  specialize (H4 (length es) s o). rewrite lookup_app_r, Nat.sub_diag, take_app_length in H4 by done. specialize (H4 eq_refl).
  assert (map fst es = map snd es) as E.
  { apply list_eq. intros k. rewrite !list_lookup_fmap. destruct (es !! k) as [[s' o']|] eqn:Hk; [|done]. cbn. f_equal.
    symmetry. apply (Hall k s' o'); [by apply lookup_app_l_Some|]. apply lookup_lt_Some in Hk. rewrite length_app. cbn. lia. }
  rewrite map_app, concat_app, <- E. cbn. by rewrite app_nil_r.
Qed.

(** ** Concrete lives

    Two epochs of a download: Germany's relay sends the target's bytes 41 42 over
    one carrier and 43 over the next; Iran registered the stream on both. *)
Definition down_cfg : relayCfg := mkRelayCfg RoleGermany DirDown 4 262144.
Definition reads (gen : Z) (p : list byte) : turn := mkTurn false (Some gen) [] false (p, None) true true StateActive.
Definition turns1 : list turn := [reads 3 [x41]; reads 3 [x42]; reads 3 []].
Definition turns2 : list turn := [reads 4 [x43]; reads 4 []].

Definition relay1 : relay := relayRun down_cfg turns1 relay0.
Definition relay2 : relay := relayRun down_cfg turns2 relay1.
Definition mid1 : list reffect := effects relay1.
Definition mid2 : list reffect := drop (length (effects relay1)) (effects relay2).

(** Request [j] is made, queued, taken and written. *)
Definition one_write (j : nat) (p : list byte) : list wlabel :=
  [WCall Data false (wire (frame_of 5 FrameData p)); WEnqueue j; WLoop Data; WLoop Data; WWrote true].

Definition after_writes (ls : list wlabel) : wstate := default w_init (wrun ls w_init).
Definition w1 : wstate := after_writes (one_write 0 [x41] ++ one_write 1 [x42]).
Definition w2 : wstate := after_writes (one_write 0 [x43]).

(** The receiving carrier gets the frames and its consumer receives the first. *)
Definition receive_run (ps : list (list byte)) : list label :=
  [LRegister 5; LStart] ++ map (λ p, LFrame (data_frame 5 p)) ps
  ++ [LDispatch; LDispatch; LWorker 0 ASend; LWorker 0 ASend; LReceive 0].

Definition after_receive (ps : list (list byte)) : CarrierConn :=
  default (newCarrierConn DefaultStreamLimits false) (crun_timely (receive_run ps) (newCarrierConn DefaultStreamLimits false)).

Definition epoch_of (w : wstate) (own : list nat) (ps : list (list byte)) : epoch :=
  mkEpoch [] w own [] (concat (onWire w)) [] (λ _ _, true) DefaultStreamLimits false (receive_run ps)
    (after_receive ps) 0 (default (newStreamRec 5 false DefaultStreamLimits) (allStreams (after_receive ps) !! 0%nat)).

Definition relays (p : list byte) : list bturn := [mkBTurn false (Some (Some p)) (Some 7) (1%nat, true)].

Lemma caller_w2 : caller [0%nat] w2.
Proof.
  refine (caller_call [] w_init (wire (frame_of 5 FrameData [x43])) (tail (one_write 0 [x43])) w2 (caller_idle [] _ eq_refl) _ _ _).
  - intros j Hj. by apply not_elem_of_nil in Hj.
  - done.
  - by vm_compute.
Qed.

Lemma caller_w1 : caller [0%nat; 1%nat] w1.
Proof.
  pose (w0 := after_writes (one_write 0 [x41])).
  assert (caller [0%nat] w0) as H0.
  { refine (caller_call [] w_init (wire (frame_of 5 FrameData [x41])) (tail (one_write 0 [x41])) w0 (caller_idle [] _ eq_refl) _ _ _).
    - intros j Hj. by apply not_elem_of_nil in Hj.
    - done.
    - by vm_compute. }
  refine (caller_call [0%nat] w0 (wire (frame_of 5 FrameData [x42])) (tail (one_write 1 [x42])) w1 H0 _ _ _).
  - intros j ->%list_elem_of_singleton. eexists. split; [by vm_compute|done].
  - by vm_compute.
  - by vm_compute.
Qed.

Lemma wf_data_frame p : (zlen p <=? MaxPayload) = true → wf_frame (frame_of 5 FrameData p).
Proof. intros H%Z.leb_le. unfold wf_frame, in_u, FrameData. cbn. lia. Qed.

Lemma registered_opened ps : opened DefaultStreamLimits false (receive_run ps) 5 0.
Proof.
  right. exists [], (tail (receive_run ps)), (newCarrierConn DefaultStreamLimits false). split_and!; try done.
Qed.

Definition written (p : list byte) : request := mkReq Data false (wire (frame_of 5 FrameData p)) (RResolved (Written true)).

Lemma reqs_w1 : reqs w1 = [written [x41]; written [x42]].
Proof. vm_compute. reflexivity. Qed.
Lemma reqs_w2 : reqs w2 = [written [x43]].
Proof. vm_compute. reflexivity. Qed.

(** What the epoch of a write path whose requests are all the session's own, and
    all written, still has to show. *)
Lemma wired_simple mid next tb w ps qs :
  reqs w = map written ps → Forall (λ p, (zlen p <=? MaxPayload) = true) ps →
  let own := seq 0 (length ps) in
  caller own w → map (reqFrame w) own = relayFrames 5 mid →
  (∃ c, crun_timely (receive_run qs) (newCarrierConn DefaultStreamLimits false) = Some c) →
  (let e := epoch_of w own qs in
   (∃ k, fst (readLoop (S (length (ep_bytes e))) (ep_known e) 0 (ep_bytes e)) = fed (receive_run qs) ++ k)
   ∧ allStreams (ep_carrier e) !! 0%nat = Some (ep_rec e) ∧ r_id (ep_rec e) = 5
   ∧ ∃ k, r_recv (ep_rec e) = omap b_item tb ++ k) →
  wired 5 mid next tb (epoch_of w own qs).
Proof.
  intros Hreqs Hps own Hc Hf [c Hrun] (Hread & Hrec & Hid & Hcons).
  assert (∀ j rq, reqs w !! j = Some rq → (j < length ps)%nat ∧ ∃ p, rq = written p ∧ (zlen p <=? MaxPayload) = true) as Hall.
  { intros j rq. rewrite Hreqs, list_lookup_fmap. intros (p & Hj & ->)%fmap_Some. rewrite Forall_lookup in Hps.
    split; [by eapply lookup_lt_Some|]. exists p. split; [done|]. by eapply Hps. }
  constructor; cbn [ep_opens ep_w ep_done ep_last ep_tail epoch_of app ep_labels ep_limits ep_onNew ep_index]; rewrite ?app_nil_r; try done.
  - intros j Hj%elem_of_seq. destruct (lookup_lt_is_Some_2 (reqs w) j) as [rq Hrq].
    { rewrite Hreqs, length_map. lia. }
    exists rq. split; [done|]. by apply Hall in Hrq as (_ & p & -> & _).
  - by left.
  - intros j rq (_ & p & -> & Hp)%Hall. exists (frame_of 5 FrameData p). split; [by apply wf_data_frame|done].
  - intros j rq [Hj _]%Hall Hn. exfalso. apply Hn, elem_of_seq. lia.
  - apply cut_short_nil.
  - unfold ep_carrier, epoch_of, after_receive. by rewrite Hrun.
  - apply registered_opened.
Qed.

Lemma wired1 : wired 5 mid1 (take (Z.to_nat MaxPayload) (Relay.pending relay1)) (relays [x41]) (epoch_of w1 [0%nat; 1%nat] [[x41]; [x42]]).
Proof.
  apply (wired_simple _ _ _ w1 [[x41]; [x42]]).
  - apply reqs_w1.
  - repeat constructor.
  - apply caller_w1.
  - vm_compute. reflexivity.
  - eexists. vm_compute. reflexivity.
  - cbv zeta. split_and!; [exists []; vm_compute; reflexivity|vm_compute; reflexivity..|exists []; vm_compute; reflexivity].
Qed.

Lemma wired2 : wired 5 mid2 (take (Z.to_nat MaxPayload) (Relay.pending relay2)) (relays [x43]) (epoch_of w2 [0%nat] [[x43]]).
Proof.
  apply (wired_simple _ _ _ w2 [[x43]]).
  - apply reqs_w2.
  - repeat constructor.
  - apply caller_w2.
  - vm_compute. reflexivity.
  - eexists. vm_compute. reflexivity.
  - cbv zeta. split_and!; [exists []; vm_compute; reflexivity|vm_compute; reflexivity..|exists []; vm_compute; reflexivity].
Qed.

Definition out_of (tb : list bturn) : list byte := concat (bframes (b_effects (brun DirDown false 7 tb brelay0))).

Lemma life_two :
  life 5 down_cfg relay0
    [(concat (sentChunks mid1), out_of (relays [x41])); (concat (sentChunks mid2), out_of (relays [x43]))] relay2.
Proof.
  refine (life_epoch 5 down_cfg relay0 turns1 mid1 _ _ DirDown false 7 _ relay2 eq_refl wired1 _).
  refine (life_epoch 5 down_cfg relay1 turns2 mid2 _ _ DirDown false 7 [] relay2 _ wired2 (life_nil _ _ _)).
  vm_compute. reflexivity.
Qed.

Lemma tunnel_refines_pipe_witness :
  let es := [(concat (sentChunks mid1), out_of (relays [x41])); (concat (sentChunks mid2), out_of (relays [x43]))] in
  concat (map fst es) ++ Relay.pending relay2 = accepted relay2
  ∧ (∀ k sent out, es !! k = Some (sent, out) → pipe (accepted relay2) (concat (map fst (take k es)) ++ out)).
Proof.
  intros es. destruct (tunnel_refines_pipe 5 down_cfg es relay2 life_two) as (H1 & H2 & _). exact (conj H1 H2).
Defined.

(** A byte that a lost carrier had accepted but not delivered is gone: the next
    carrier carries on behind it, and nobody is told. *)
Example carrier_loss_leaves_gap :
  accepted relay2 = [x41; x42; x43]
  ∧ concat (map snd [(concat (sentChunks mid1), out_of (relays [x41])); (concat (sentChunks mid2), out_of (relays [x43]))]) = [x41; x43].
Proof. split; vm_compute; reflexivity. Qed.
