(* ===== verification/CarrierOps.v ===== *)
(** * What the node relies on of a carrier

    The node never looks inside a carrier: it asks whether its read loop is
    alive, registers and deregisters streams, and writes frames.  [CarrierOps]
    names these operations, [CarrierLaws] what the node's theorems use of them,
    and the instances at the end are the carrier of Carrier.v. *)
From S2P Require Import Carrier.
#[local] Open Scope Z_scope.

Class CarrierOps (C : Type) := {
  carrier_ready : C → bool;                  (* CarrierConn.Ready *)
  carrier_register : Z → C → bool * C;       (* Register; false is the nil channel *)
  carrier_deregister : Z → C → C;            (* Deregister *)
  carrier_terminate : Z → C → C;             (* Terminate *)
  carrier_has : Z → C → bool                 (* the id is in the stream table *)
}.

Class CarrierLaws (C : Type) `{!CarrierOps C} := {
  register_ok id c c' : carrier_register id c = (true, c') → carrier_has id c' = true ∧ id ≠ 0;
  register_nil id c c' : carrier_register id c = (false, c') → c' = c;
  register_ready id (c : C) : carrier_ready (snd (carrier_register id c)) = carrier_ready c;
  register_other id id' (c : C) : id' ≠ id → carrier_has id' (snd (carrier_register id c)) = carrier_has id' c;
  deregister_gone id (c : C) : carrier_has id (carrier_deregister id c) = false;
  deregister_ready id (c : C) : carrier_ready (carrier_deregister id c) = carrier_ready c;
  deregister_other id id' (c : C) : id' ≠ id → carrier_has id' (carrier_deregister id c) = carrier_has id' c;
  terminate_ready id (c : C) : carrier_ready (carrier_terminate id c) = carrier_ready c;
  terminate_tombstone id (c : C) : carrier_ready c = true → id ≠ 0 → carrier_has id (carrier_terminate id c) = true;
  terminate_other id id' (c : C) : id' ≠ id → carrier_has id' (carrier_terminate id c) = carrier_has id' c
}.

(** CarrierConn.Ready: the read loop has not ended and Close has not started. *)
Definition conn_ready (c : CarrierConn) : bool := negb (framesClosed c) && negb (closing c).

Definition has_stream (id : Z) (c : CarrierConn) : bool := bool_decide (is_Some (streams c !! id)).

#[export] Instance conn_ops : CarrierOps CarrierConn := {|
  carrier_ready := conn_ready;
  carrier_register := λ id c, let '(i, c') := Register id c in (bool_decide (is_Some i), c');
  carrier_deregister := Deregister;
  carrier_terminate := Terminate;
  carrier_has := has_stream
|}.

Lemma Register_spec id c :
  let '(i, c') := Register id c in
  conn_ready c' = conn_ready c
  ∧ match i with
    | None => c' = c ∧ (closing c = true ∨ id = 0)
    | Some _ => closing c = false ∧ id ≠ 0 ∧ has_stream id c' = true
    end
  ∧ ∀ id', id' ≠ id → has_stream id' c' = has_stream id' c.
Proof.
  unfold Register. destruct (closing c) eqn:Ec; cbn [orb]; [by split_and!; auto|].
  destruct (id =? 0) eqn:Ez; [apply Z.eqb_eq in Ez; by split_and!; auto|]. apply Z.eqb_neq in Ez. unfold has_stream.
  destruct (streams c !! id) as [i|] eqn:Es; [split_and!; try done; by rewrite Es, bool_decide_true|].
  unfold createStreamLocked. rewrite (proj2 (Z.eqb_neq _ _) Ez), Es. unfold conn_ready. cbn.
  split_and!; try done; [by rewrite lookup_insert_eq, bool_decide_true|]. intros id' Hne. by rewrite lookup_insert_ne.
Qed.

(** terminateStream leaves the stream table and the readiness alone. *)
Lemma terminateStream_same i b c :
  conn_ready (terminateStream i b c) = conn_ready c ∧ streams (terminateStream i b c) = streams c.
Proof. unfold terminateStream. by repeat case_match. Qed.

Lemma Terminate_spec id c :
  conn_ready (Terminate id c) = conn_ready c
  ∧ (closing c = false → id ≠ 0 → has_stream id (Terminate id c) = true)
  ∧ ∀ id', id' ≠ id → has_stream id' (Terminate id c) = has_stream id' c.
Proof.
  unfold Terminate, has_stream.
  assert (Hts : ∀ i c', conn_ready (terminateStream i true (c' <| terms := terms c' ++ [i] |>)) = conn_ready c'
                        ∧ streams (terminateStream i true (c' <| terms := terms c' ++ [i] |>)) = streams c').
  { intros i c'. by destruct (terminateStream_same i true (c' <| terms := terms c' ++ [i] |>)). }
  destruct (closing c) eqn:Ec.
  { destruct (streams c !! id); by split_and!. }
  destruct (streams c !! id) as [i|] eqn:Es.
  { destruct (Hts i c) as [H1 H2]. split_and!; [done|intros _ _|intros id' _]; rewrite H2; [|done].
    rewrite Es. by apply bool_decide_eq_true. }
  unfold createStreamLocked. destruct (Z.eqb_spec id 0) as [->|Hz]; [by split_and!|]. rewrite Es.
  match goal with |- context [terminateStream ?i true (?c' <| terms := _ |>)] => destruct (Hts i c') as [H1 H2] end.
  split_and!; [by rewrite H1|intros _ _|intros id' Hne]; rewrite H2; cbn.
  - rewrite lookup_insert_eq. by apply bool_decide_eq_true.
  - by rewrite lookup_insert_ne.
Qed.

#[export] Instance conn_laws : CarrierLaws CarrierConn.
Proof.
  constructor; intros id; cbn [carrier_register carrier_ready carrier_has carrier_deregister carrier_terminate conn_ops].
  - intros c c'. pose proof (Register_spec id c) as H. destruct (Register id c) as [[i|] c0]; [|done].
    intros [= <-]. by destruct H as (_ & (_ & ? & ?) & _).
  - intros c c'. pose proof (Register_spec id c) as H. destruct (Register id c) as [[i|] c0]; [done|].
    intros [= <-]. by destruct H as (_ & (? & _) & _).
  - intros c. pose proof (Register_spec id c) as H. destruct (Register id c) as [i c0]. by destruct H.
  - intros id' c Hne. pose proof (Register_spec id c) as H. destruct (Register id c) as [i c0].
    destruct H as (_ & _ & H). by apply H.
  - intros c. unfold has_stream, Deregister. cbn. by rewrite lookup_delete_eq.
  - done.
  - intros id' c Hne. unfold has_stream, Deregister. cbn. by rewrite lookup_delete_ne.
  - intros c. apply Terminate_spec.
  - intros c Hr Hz. apply Terminate_spec; [|done]. unfold conn_ready in Hr. by destruct (closing c), (framesClosed c).
  - intros id' c Hne. by apply Terminate_spec.
Qed.
