(* ===== verification/Node.v ===== *)
(** * The node (src/pkg/node/node.go)

    What a node does with its carriers and sessions: installing a carrier,
    losing one, moving the sessions pinned to it, answering a peer's rebind or
    reset, and the readiness signals the bootstrap paths wait on.  The node is
    a record over the registry (Registry.v), the sessions with their
    attachments (Session.v, Attachment.v) and any carrier with the operations
    of [CarrierOps].  A critical section of [n.mu] is one step; a sweep handles
    one session at a time, and what it cannot decide by itself (the outcome of
    a frame write, the races with a closing session) is an argument.

    The metrics appear as [events].  The credit plane (Credit.v), the relays
    (Relay.v) and the waiting of JoinEpoch are not part of this state. *)
From S2P Require Export Session Registry.
From S2P Require Import CarrierOps Relay.
#[local] Open Scope Z_scope.

Section node.
Context {C : Type} `{!CarrierOps C}.

(** ** State *)

Record carrierHandle := mkHandle { h_carrier : C; h_gen : Z; h_id : CarrierID; h_dir : Direction }.

Inductive event :=
| CarrierReconnect (id : CarrierID) | CarrierLossEvent (id : CarrierID) | CarrierFlap (id : CarrierID)
| RebindEvent (id : CarrierID) | RebindRefusal (why : gostring) | SessionLostAfterFailure | ResetReceived
| ReFired (dir : Direction) | StreamOutcome (id : CarrierID).

(** A control or data frame the node wrote: the carrier, the stream, the type
    and the payload. *)
Record sentFrame := mkSent { sf_handle : href; sf_stream : Z; sf_type : Z; sf_payload : list byte }.

Record Node := mkNode {
  n_role : Role;
  store : SessionStore;
  heap : ref → Session;
  sids : ref → list byte;               (* sess.ID *)
  handlesT : list carrierHandle;        (* every handle ever made; an href indexes it *)
  upReg : carrierRegistry;
  downReg : carrierRegistry;
  lostMap : gset CarrierID;
  genSeq : Z;                           (* uint64 *)
  streamSeq : Z;                        (* uint32 *)
  upReadyClosed : bool;
  downReadyClosed : bool;
  sentFrames : list sentFrame;
  n_events : list event
}.

#[export] Instance expand_Node : Expandable Node := {| expand := λ n,
  mkNode (n_role n) (store n) (heap n) (sids n) (handlesT n) (upReg n) (downReg n) (lostMap n) (genSeq n)
    (streamSeq n) (upReadyClosed n) (downReadyClosed n) (sentFrames n) (n_events n) |}.

Definition NewNode (role : Role) (sids : ref → list byte) (heap : ref → Session) (ids : list CarrierID) : Node :=
  mkNode role NewSessionStore heap sids []
    (newCarrierRegistry (mkDesc DefaultUpCarrierID DirUp FamilyCDNWS)) (newDownRegistry ids)
    ∅ 0 0 false false [] [].

Definition reg (dir : Direction) (n : Node) : carrierRegistry := match dir with DirUp => upReg n | DirDown => downReg n end.
Definition setReg (dir : Direction) (r : carrierRegistry) (n : Node) : Node :=
  match dir with DirUp => n <| upReg := r |> | DirDown => n <| downReg := r |> end.

Definition readyClosed (dir : Direction) (n : Node) : bool :=
  match dir with DirUp => upReadyClosed n | DirDown => downReadyClosed n end.
Definition setReadyClosed (dir : Direction) (b : bool) (n : Node) : Node :=
  match dir with DirUp => n <| upReadyClosed := b |> | DirDown => n <| downReadyClosed := b |> end.

(** Reading through a handle. *)
Definition readyH (n : Node) (h : href) : bool :=
  match handlesT n !! h with Some x => carrier_ready (h_carrier x) | None => false end.
Definition genH (n : Node) (h : href) : Z := match handlesT n !! h with Some x => h_gen x | None => 0 end.
Definition idH (n : Node) (h : href) : CarrierID := match handlesT n !! h with Some x => h_id x | None => [] end.

Definition setCarrier (h : href) (f : C → C) (n : Node) : Node :=
  n <| handlesT := alter (λ x, mkHandle (f (h_carrier x)) (h_gen x) (h_id x) (h_dir x)) h (handlesT n) |>.

Definition note (e : event) (n : Node) : Node := n <| n_events := n_events n ++ [e] |>.
Definition send (h : href) (id typ : Z) (p : list byte) (n : Node) : Node :=
  n <| sentFrames := sentFrames n ++ [mkSent h id typ p] |>.

(** One atomic session operation. *)
Definition onSession (r : ref) (op : sop) (n : Node) : Node :=
  n <| heap := λ r', if bool_decide (r' = r) then sstep op (heap n r') else heap n r' |>.

Definition multiDown (n : Node) : bool := negb (SingleEntry (downReg n)).
Definition dirReady (dir : Direction) (n : Node) : bool := Ready (readyH n) (reg dir n).
Definition UpReady (n : Node) : bool := dirReady DirUp n.
Definition DownReady (n : Node) : bool := dirReady DirDown n.

Definition DownCarrierReady (id : CarrierID) (n : Node) : bool :=
  if negb (IsKnown id (downReg n)) then false else bool_decide (is_Some (Handle id (downReg n))).

Definition SecondaryDownCarrierID (n : Node) : CarrierID :=
  match KnownIDs (downReg n) with _ :: id :: _ => id | _ => SecondDownCarrierID end.

Definition currentIfReady (dir : Direction) (n : Node) : option href := Primary (readyH n) (reg dir n).
Definition currentIfReadyBoth (n : Node) : option href * option href :=
  (currentIfReady DirUp n, currentIfReady DirDown n).

Fixpoint findGen (gen : Z) (n : Node) (hs : list (option href)) : option href :=
  match hs with
  | [] => None
  | Some h :: hs => if genH n h =? gen then Some h else findGen gen n hs
  | None :: hs => findGen gen n hs
  end.

Definition handleForGen (gen : Z) (n : Node) : option href :=
  if gen =? 0 then None
  else match findGen gen n (Handles (upReg n)) with
       | Some h => Some h
       | None => findGen gen n (Handles (downReg n))
       end.

Definition dropIfCurrent (dir : Direction) (h : href) (n : Node) : Node :=
  setReg dir (ClearIf (idH n h) (Some h) (reg dir n)) n.

(** [atomic.AddUint32], again when the counter wraps to 0; two turns are
    enough. *)
Definition nextStreamID (n : Node) : Z * Node :=
  let id := wrapu 32 (streamSeq n + 1) in
  let id := if id =? 0 then wrapu 32 (id + 1) else id in
  (id, n <| streamSeq := id |>).

Definition streamIDOf (s : Session) (dir : Direction) : Z :=
  match dir with DirUp => StreamIDUp s | DirDown => StreamIDDown s end.

Definition carrierTimeoutReason (dir : Direction) : gostring :=
  match dir with DirUp => lit "upload carrier timeout" | DirDown => lit "download carrier timeout" end.

Definition onGraceTimeout (r : ref) (dir : Direction) (n : Node) : Node :=
  if DirClosed dir (heap n r) then n
  else onSession r (SClose (carrierTimeoutReason dir)) (note SessionLostAfterFailure n).

(** ** Installing and losing a carrier *)

(** The critical section of installFor: the handle, the one it replaces, and
    whether the id was lost before. *)
Definition installLocked (id : CarrierID) (dir : Direction) (c : C) (n : Node)
  : res add_error (href * option href * bool) * Node :=
  if negb (IsKnown id (reg dir n)) then (Err (ErrUnknownCarrierID (ID (reg dir n)) id), n)
  else
    let gen := wrapu 64 (genSeq n + 1) in
    let h := length (handlesT n) in
    let n := n <| genSeq := gen |> <| handlesT := handlesT n ++ [mkHandle c gen id dir] |> in
    let old := handles (reg dir n) !! id in
    let wasLost := bool_decide (id ∈ lostMap n) in
    let n := setReg dir (snd (AddHandle id (Some h) (reg dir n))) n in
    let n := setReadyClosed dir true (n <| lostMap := lostMap n ∖ {[id]} |>) in
    (Ok (h, old, wasLost), n).

(** Reconnect accounting: counted at once when the id was lost before, else
    after the replaced carrier's loss sweep has finished, if it does in time. *)
Definition countReconnect (dir : Direction) (id : CarrierID) (wasLost : bool) (n : Node) : Node :=
  if wasLost then
    let n := note (CarrierReconnect id) n in
    match dir with DirDown => note (CarrierFlap id) n | DirUp => n end
  else n.

Definition settleReplaced (id : CarrierID) (old : option href) (lossSettled wasLost : bool) (n : Node) : Node :=
  match old with
  | Some _ =>
      if lossSettled then
        let n := if wasLost then n else note (CarrierReconnect id) n in
        n <| lostMap := lostMap n ∖ {[id]} |>
      else n
  | None => n
  end.

(** The critical section of onCarrierLost. *)
Definition loseLocked (dir : Direction) (h : href) (n : Node) : Node :=
  let n := n <| lostMap := {[idH n h]} ∪ lostMap n |> in
  let n := setReg dir (ClearIf (idH n h) (Some h) (reg dir n)) n in
  if dirReady dir n then n else setReadyClosed dir false n.

Definition detachSession (dir : Direction) (gen : Z) (n : Node) (r : ref) : Node :=
  onSession r (SAtt dir (ADetach gen)) n.

Definition detachSweep (dir : Direction) (gen : Z) (n : Node) : Node :=
  foldl (detachSession dir gen) n (Snapshot (store n)).

(** ** Rebinding *)

Definition encodeRebind (sid : list byte) (h : href) (n : Node) : list byte :=
  if multiDown n then EncodeRebindV2 sid (idH n h) (genH n h) else EncodeRebind sid (genH n h).

Definition failRebind (r : ref) (dir : Direction) (n : Node) : Node :=
  note (RebindRefusal (lit "other")) (onSession r (SAtt dir AFailRebind) n).

(** What a rebind meets: the frame write fails, or the attachment is closed
    under it. *)
Inductive outcome := WriteOK | WriteFails | ClosedMeanwhile.

#[export] Instance outcome_eq_dec : EqDecision outcome.
Proof. solve_decision. Defined.

(** The part of rebindDirection after the claim: register, write, attach. *)
Definition rebindClaimed (dir : Direction) (h : href) (o : outcome) (r : ref) (n : Node) : bool * Node :=
  let id := streamIDOf (heap n r) dir in
  match handlesT n !! h with
  | None => (false, n)
  | Some x =>
      let '(ok, c') := carrier_register id (h_carrier x) in
      let n := setCarrier h (λ _, c') n in
      if negb ok then (false, failRebind r dir n)
      else if bool_decide (o = WriteFails) then (false, failRebind r dir (setCarrier h (carrier_deregister id) n))
      else
        let n := send h id FrameRebind (encodeRebind (sids n r) h n) n in
        let n := if bool_decide (o = ClosedMeanwhile) then onSession r (SAtt dir AClose) n else n in
        match Att dir (heap n r) with
        | None => (false, n)
        | Some a =>
            let n' := onSession r (SAtt dir (AAttach (genH n h))) n in
            if negb (fst (Attach (genH n h) a)) then
              (false, note (RebindRefusal (lit "other")) (onSession r (SAtt dir AFailRebind)
                        (setCarrier h (carrier_deregister id) n')))
            else
              let n := onSession r (SAtt dir (ASetLastRebindGen (genH n h))) n' in
              (true, note (RebindEvent (idH n h)) n)
        end
  end.

(** One session of the sweep. *)
Definition rebindSession (dir : Direction) (h : href) (o : outcome) (r : ref) (n : Node) : bool * Node :=
  let s := heap n r in
  if negb (bool_decide (sstate s = StateActive)) then (false, n)
  else match Att dir s with
  | None => (false, n)
  | Some a =>
      if DirClosed dir s then (false, n)
      else
        let '(st, g) := State a in
        let claim n := rebindClaimed dir h o r (onSession r (SAtt dir ABeginRebind) n) in
        match st with
        | AttAttached => if g =? genH n h then (false, n) else claim (onSession r (SAtt dir (ADetach g)) n)
        | AttUnavailable => claim n
        | _ => (false, n)
        end
  end.

(** The sweep; [os] gives each session's outcome in turn. *)
Fixpoint rebindLoop (dir : Direction) (h : href) (os : nat → outcome) (rs : list ref) (n : Node) : bool * Node :=
  match rs with
  | [] => (false, n)
  | r :: rs =>
      let '(b, n) := rebindSession dir h (os r) r n in
      let '(b', n) := rebindLoop dir h os rs n in (b || b', n)
  end.

Definition rebindDirection (dir : Direction) (h : href) (os : nat → outcome) (n : Node) : bool * Node :=
  rebindLoop dir h os (Snapshot (store n)) n.

(** The survivors are tried in priority order until one takes a session. *)
Fixpoint failover (dir : Direction) (os : href → nat → outcome) (survivors : list href) (n : Node) : Node :=
  match survivors with
  | [] => n
  | h :: hs => let '(b, n) := rebindDirection dir h (os h) n in if b then n else failover dir os hs n
  end.

Definition onCarrierLost (dir : Direction) (h : href) (os : href → nat → outcome) (n : Node) : Node :=
  let n := loseLocked dir h n in
  let n := note (CarrierLossEvent (idH n h)) n in
  let n := detachSweep dir (genH n h) n in
  match n_role n with
  | RoleIran => failover dir os (ReadyExcept (readyH n) (idH n h) (reg dir n)) n
  | RoleGermany => n
  end.

Definition onCarrierReady (dir : Direction) (h : href) (os : nat → outcome) (n : Node) : Node :=
  match n_role n with RoleIran => snd (rebindDirection dir h os n) | RoleGermany => n end.

(** installFor from its critical section on.  [during] is what the other
    goroutines do while it closes the replaced carrier and waits for the loss
    sweep of that carrier, which ends in time or not. *)
Definition installFor (id : CarrierID) (dir : Direction) (c : C) (during : Node → Node) (lossSettled : bool)
    (os : nat → outcome) (n : Node) : res add_error href * Node :=
  match installLocked id dir c n with
  | (Err e, n) => (Err e, n)
  | (Ok (h, old, wasLost), n) =>
      let n := countReconnect dir id wasLost n in
      let n := match old with Some _ => during n | None => n end in
      let n := settleReplaced id old lossSettled wasLost n in
      (Ok h, onCarrierReady dir h os n)
  end.

(** ** The peer's control frames *)

Definition resetReasonName (reason : Z) : gostring :=
  if reason =? ResetReasonUnknownStream then lit "unknown_stream"
  else if reason =? ResetReasonSessionClosed then lit "session_closed"
  else if reason =? ResetReasonRebindRefused then lit "rebind_refused"
  else if reason =? ResetReasonTargetDialFailed then lit "target_dial_failed"
  else lit "unknown".

Definition handleStreamReset (dir : Direction) (streamID reason gen : Z) (n : Node) : Node :=
  let n := note ResetReceived n in
  match GetByStream streamID (store n) with
  | None => n
  | Some r =>
      let s := heap n r in
      if negb (bool_decide (sstate s = StateActive)) then n
      else
        let stale := match Att dir s with Some a => (0 <? gen) && (gen <? LastRebindGen a) | None => false end in
        if stale then note (RebindRefusal (lit "stale_generation")) n
        else onSession r (SClose (lit "peer reset (" ++ resetReasonName reason ++ lit ")")) n
  end.

Inductive refusal :=
| Malformed | CarrierMismatch | NoActiveSession | HalfClosed | NoAttachment | StaleGeneration
| AlreadyAttached | NotAwaiting | AttachFailed.

Definition refusalLabel (x : refusal) : gostring :=
  match x with
  | NoActiveSession => lit "unknown_peer"
  | StaleGeneration | AttachFailed => lit "stale_generation"
  | _ => lit "other"
  end.

(** The reason of the FrameReset sent back; 0 for none. *)
Definition refusalReset (x : refusal) : Z :=
  match x with
  | NoActiveSession => ResetReasonUnknownStream
  | HalfClosed | NoAttachment => ResetReasonSessionClosed
  | StaleGeneration | AttachFailed => ResetReasonRebindRefused
  | _ => 0
  end.

Definition dropRebind (x : refusal) (h : href) (id gen : Z) (n : Node) : option refusal * Node :=
  let n := note (RebindRefusal (refusalLabel x)) n in
  let n := if refusalReset x =? 0 then n else send h id FrameReset (EncodeResetPayload (refusalReset x) gen) n in
  (Some x, setCarrier h (carrier_deregister id) n).

(** The part of handleRebind after the checks, on an attachment awaiting it.
    [closedMeanwhile]: the attachment is closed by another goroutine first. *)
Definition attachRebind (dir : Direction) (h : href) (id gen : Z) (closedMeanwhile : bool) (r : ref) (n : Node)
  : option refusal * Node :=
  let n := onSession r (SAtt dir (ASetLastRebindGen gen)) n in
  let n := if closedMeanwhile then onSession r (SAtt dir AClose) n else n in
  match Att dir (heap n r) with
  | None => (None, n)
  | Some a =>
      let n' := onSession r (SAtt dir (AAttach (genH n h))) n in
      if negb (fst (Attach (genH n h) a)) then dropRebind AttachFailed h id gen n'
      else (None, note (RebindEvent (idH n h)) n')
  end.

(** [p = None]: the channel closed or delivered a close before the frame. *)
Definition handleRebind (dir : Direction) (h : href) (id : Z) (p : option (list byte)) (closedMeanwhile : bool) (n : Node)
  : option refusal * Node :=
  match p with
  | None => (None, n)
  | Some p =>
      match ParseRebindAny p with
      | None => dropRebind Malformed h id 0 n
      | Some rb =>
          if (rb_Version rb =? RebindVersionV2) && negb (streqb (rb_CarrierID rb) (idH n h))
          then dropRebind CarrierMismatch h id 0 n
          else
            let gen := rb_Gen rb in
            match GetByStream id (store n) with
            | None => dropRebind NoActiveSession h id gen n
            | Some r =>
                let s := heap n r in
                if negb (bool_decide (sstate s = StateActive)) then dropRebind NoActiveSession h id gen n
                else if DirClosed dir s then dropRebind HalfClosed h id gen n
                else match Att dir s with
                | None => dropRebind NoAttachment h id gen n
                | Some a =>
                    if gen <=? LastRebindGen a then dropRebind StaleGeneration h id gen n
                    else
                      let '(st, g) := State a in
                      match st with
                      | AttAttached =>
                          if g =? gen then dropRebind AlreadyAttached h id gen n
                          else attachRebind dir h id gen closedMeanwhile r (onSession r (SAtt dir (ADetach g)) n)
                      | AttUnavailable | AttRebinding => attachRebind dir h id gen closedMeanwhile r n
                      | AttClosed => dropRebind NotAwaiting h id gen n
                      end
                end
            end
      end
  end.

(** The first frame of a stream the peer opened (Germany).  The bootstrap and
    the rebind run in a goroutine of their own. *)
Inductive newStream := Bootstrap | Rebinds | Refused.

Definition onUpNewStream (h : href) (id firstType : Z) (n : Node) : newStream * Node :=
  if firstType =? FrameHeader then (Bootstrap, n)
  else if firstType =? FrameRebind then (Rebinds, n)
  else (Refused, setCarrier h (carrier_terminate id) (note (ReFired DirUp) n)).

Definition onDownNewStream (h : href) (id firstType : Z) (n : Node) : newStream * Node :=
  if firstType =? FrameRebind then (Rebinds, n)
  else (Refused, setCarrier h (carrier_terminate id) (note (ReFired DirDown) n)).

Definition hasChannelConsumer (dir : Direction) (n : Node) : bool :=
  match n_role n with RoleIran => true | RoleGermany => bool_decide (dir = DirUp) end.

(** ** The end of a session *)

Definition downCarrierGenForSession (s : Session) : Z :=
  match DownAtt s with Some a => snd (State a) | None => 0 end.

(** The carriers' part of the OnClose hook: every installed carrier of the
    direction forgets the stream. *)
Definition deregisterAll (dir : Direction) (id : Z) (n : Node) : Node :=
  if id =? 0 then n
  else foldl (λ n h, match h with Some h => setCarrier h (carrier_deregister id) n | None => n end) n (Handles (reg dir n)).

(** The hook: deregister, unindex, and record the outcome on the down carrier
    the session is pinned to. *)
Definition onSessionClosed (r : ref) (n : Node) : Node :=
  let n := deregisterAll DirUp (StreamIDUp (heap n r)) n in
  let n := deregisterAll DirDown (StreamIDDown (heap n r)) n in
  let n := n <| store := Remove (heap n) (sids n r) (store n) |> in
  let g := downCarrierGenForSession (heap n r) in
  if multiDown n && negb (g =? 0) then
    match handleForGen g n with Some h => note (StreamOutcome (idH n h)) n | None => n end
  else n.

(** ** Starting a session (Iran) *)

(** The node's part of startSessionCore: the session [r], in the heap as
    NewSession left it, is indexed, registered on both carriers, and attached.
    [hdr]: the encoded destination, if it encodes; [headerOK]: the header frame
    is written; [adopted]: AdoptConn succeeded or is deferred.  [None] is
    success. *)
Inductive start_error := RegistrationFailed | ActivationFailed | EncodingFailed | HeaderFailed | AdoptRefused.

Definition startSession (r : ref) (upH downH : href) (headerOK adopted : bool) (hdr : option (list byte)) (n : Node)
  : option start_error * Node :=
  let '(id, n) := nextStreamID n in
  let n := n <| heap := λ r', if bool_decide (r' = r)
                              then (heap n r') <| StreamIDUp := id |> <| StreamIDDown := id |> else heap n r' |> in
  let n := n <| store := AddStream (heap n) r (Add (heap n) (sids n r) r (store n)) |> in
  match handlesT n !! upH, handlesT n !! downH with
  | Some u, Some _ =>
      let '(upOK, u') := carrier_register id (h_carrier u) in
      let n := setCarrier upH (λ _, u') n in
      match handlesT n !! downH with
      | None => (Some RegistrationFailed, n)
      | Some d =>
          let '(downOK, d') := carrier_register id (h_carrier d) in
          let n := setCarrier downH (λ _, d') n in
          if negb (upOK && downOK)
          then (Some RegistrationFailed, onSession r (SClose (lit "carrier stream registration failed")) n)
          else if negb (fst (Activate (heap n r)))
          then (Some ActivationFailed, onSession r (SClose (lit "activation failed")) n)
          else
            let n := onSession r SActivate n in
            match hdr with
            | None => (Some EncodingFailed, onSession r (SClose (lit "destination encoding failed")) n)
            | Some hdr =>
                if negb headerOK then (Some HeaderFailed, onSession r (SClose (lit "up-carrier header write failed")) n)
                else
                  let n := send upH id FrameHeader hdr n in
                  if negb adopted then (Some AdoptRefused, n)
                  else (None, onSession r (SAtt DirDown (AAttach (genH n downH)))
                                (onSession r (SAtt DirUp (AAttach (genH n upH))) n))
            end
      end
  | _, _ => (Some RegistrationFailed, n)
  end.
End node.
