(* ===== verification/TargetDial.v ===== *)
(** * Dialling the target (src/pkg/node/target_ipv4.go)

    The default egress dial of the Germany node and its address-family
    policies.  The resolver and the kernel's dial are parameters that also say
    how long a call takes; [wire] is the clock together with the dials made.  A
    Go error is what the code looks at in it: the sentinel errors in its chain,
    whether it is a timeout or a DNS error, and its message. *)
From S2P Require Export Net.
#[local] Open Scope Z_scope.

(** ** Errors *)

Inductive sentinel :=
| ErrBlocked | ErrTargetDialTimeout | ErrTargetBreakerOpen | ErrWarpUnreachable | ErrDeadlineExceeded
| ECONNREFUSED | ENETUNREACH | EHOSTUNREACH | ETIMEDOUT.

#[export] Instance sentinel_eq_decision : EqDecision sentinel.
Proof. solve_decision. Defined.

Record error := mkErr { e_chain : list sentinel; e_timeout : bool; e_dns : bool; e_msg : gostring }.

(** [errors.Is] *)
Definition Is (e : error) (s : sentinel) : bool := bool_decide (s ∈ e_chain e).

(** [fmt.Errorf] without and with a wrapped error at the end. *)
Definition Errorf (msg : gostring) : error := mkErr [] false false msg.
Definition wrap (prefix : gostring) (e : error) : error := mkErr (e_chain e) (e_timeout e) (e_dns e) (prefix ++ e_msg e).

(** ** Policies *)

Definition targetDialTimeout : Z := 10 * 1000000000.

Definition TargetAddrPolicyDefault : gostring := lit "default".
Definition TargetAddrPolicyPreferIPv4 : gostring := lit "prefer-ipv4".
Definition TargetAddrPolicyIPv4Only : gostring := lit "ipv4-only".

Definition validTargetAddrPolicy (p : gostring) : bool :=
  bool_decide (p ∈ [[]; TargetAddrPolicyDefault; TargetAddrPolicyPreferIPv4; TargetAddrPolicyIPv4Only]).

(** The strictest of the legacy flag and the policy, as Config.Sanitize and the
    programs derive it. *)
Definition activeTargetAddrPolicy (onlyIPv4 : bool) (policy : gostring) : gostring :=
  if onlyIPv4 || streqb policy TargetAddrPolicyIPv4Only then TargetAddrPolicyIPv4Only
  else if streqb policy TargetAddrPolicyPreferIPv4 then TargetAddrPolicyPreferIPv4
  else TargetAddrPolicyDefault.

Inductive network := tcp | tcp4.

Section dial.
Context {conn : Type}.

Record attempt := mkAttempt { a_net : network; a_addr : gostring; a_timeout : Z; a_at : Z; a_res : res error conn }.

Record wire := mkWire { clock : Z; dials : list attempt }.

(** [quote] is the %q verb, [splitErr] the error of net.SplitHostPort.
    [LookupHost host budget t]: the records or the error, and the time taken,
    for a lookup that starts at [t]. [netDial] is the kernel's dial: the
    network, the address, the timeout, the time. *)
Context (quote : gostring → gostring) (splitErr : gostring → error)
        (LookupHost : gostring → Z → Z → res error (list gostring) * Z)
        (netDial : network → gostring → Z → Z → res error conn * Z).

Definition DialTimeout (n : network) (addr : gostring) (timeout : Z) (w : wire) : res error conn * wire :=
  let '(r, dt) := netDial n addr timeout (clock w) in
  (r, mkWire (clock w + dt) (dials w ++ [mkAttempt n addr timeout (clock w) r])).

Definition lookup_ (host : gostring) (budget : Z) (w : wire) : res error (list gostring) * wire :=
  let '(r, dt) := LookupHost host budget (clock w) in (r, mkWire (clock w + dt) (dials w)).

Definition dialPlain (addr : gostring) (w : wire) : res error conn * wire :=
  DialTimeout tcp addr targetDialTimeout w.

Definition dialPlainWithTimeout (addr : gostring) (budget : Z) (w : wire) : res error conn * wire :=
  let budget := if budget <=? 0 then targetDialTimeout else budget in
  DialTimeout tcp addr budget w.

(** The addresses of one family among resolver records, as the code prints them
    back; unparsable records are skipped. *)
Definition isV4 (a : gostring) : bool :=
  match ParseIP a with Some ip => bool_decide (is_Some (To4 ip)) | None => false end.
Definition printed (a : gostring) : gostring :=
  match ParseIP a with Some ip => IP_String ip | None => [] end.
Definition parses (a : gostring) : bool := bool_decide (is_Some (ParseIP a)).

Definition v4_of (addrs : list gostring) : list gostring := map printed (List.filter isV4 addrs).
Definition v6_of (addrs : list gostring) : list gostring :=
  map printed (List.filter (λ a, parses a && negb (isV4 a)) addrs).

Definition defaultIPv4Lookup (host : gostring) (budget : Z) (w : wire) : res error (list gostring) * wire :=
  match lookup_ host budget w with
  | (Err e, w) => (Err e, w)
  | (Ok addrs, w) => (Ok (v4_of addrs), w)
  end.

Definition defaultDualStackLookup (host : gostring) (budget : Z) (w : wire)
  : res error (list gostring * list gostring) * wire :=
  match lookup_ host budget w with
  | (Err e, w) => (Err e, w)
  | (Ok addrs, w) => (Ok (v4_of addrs, v6_of addrs), w)
  end.

Definition dialWithBudget (deadline : Z) (addr : gostring) (w : wire) : res error conn * wire :=
  let remaining := deadline - clock w in
  if remaining <=? 0 then (Err (Errorf (lit "no time remaining within the shared 10s budget")), w)
  else DialTimeout tcp addr remaining w.

(** ** The hard filter: A records only *)

(** The candidates in turn; the last error, if any. *)
Fixpoint onlyLoop (ips : list gostring) (port : gostring) (deadline : Z) (lastErr : option error) (w : wire)
  : res (option error) conn * wire :=
  match ips with
  | [] => (Err lastErr, w)
  | ip :: ips =>
      let remaining := deadline - clock w in
      if remaining <=? 0 then (Err lastErr, w)
      else match DialTimeout tcp4 (JoinHostPort ip port) remaining w with
           | (Ok c, w) => (Ok c, w)
           | (Err e, w) => onlyLoop ips port deadline (Some e) w
           end
  end.

Definition resolveErr (host : gostring) (e : error) : error :=
  wrap (lit "resolve " ++ quote host ++ lit " for target dial: ") e.

Definition noARecord (host : gostring) : error :=
  Errorf (lit "target " ++ quote host ++ lit " has no IPv4 A record; the SPLIT_TARGET_ONLY_IPV4 policy refuses to dial AAAA/IPv6 (set SPLIT_TARGET_ONLY_IPV4=false to allow dual-stack)").

Definition dialOnlyIPv4 (budget : Z) (addr : gostring) (w : wire) : res error conn * wire :=
  match net_SplitHostPort addr with
  | None => (Err (splitErr addr), w)
  | Some (host, port) =>
      if parses host then dialPlainWithTimeout addr budget w
      else match defaultIPv4Lookup host budget w with
           | (Err e, w) => (Err (resolveErr host e), w)
           | (Ok [], w) => (Err (noARecord host), w)
           | (Ok ips, w) =>
               let deadline := clock w + budget in
               match onlyLoop ips port deadline None w with
               | (Ok c, w) => (Ok c, w)
               | (Err (Some e), w) =>
                   (Err (wrap (lit "dial " ++ quote host ++ lit " (IPv4 only, " ++ itoa (Z.of_nat (length ips))
                               ++ lit " candidate A record(s)): ") e), w)
               | (Err None, w) => (Err (Errorf (lit "dial " ++ quote host ++ lit " (IPv4 only): no reachable A record")), w)
               end
           end
  end.

(** ** The preference: IPv4 first, then IPv6 *)

Fixpoint preferLoop (ips : list gostring) (port : gostring) (deadline : Z) (lastErr : option error) (w : wire)
  : res (option error) conn * wire :=
  match ips with
  | [] => (Err lastErr, w)
  | ip :: ips =>
      match dialWithBudget deadline (JoinHostPort ip port) w with
      | (Ok c, w) => (Ok c, w)
      | (Err e, w) => if deadline <? clock w then (Err (Some e), w) else preferLoop ips port deadline (Some e) w
      end
  end.

Definition noAddress (host : gostring) : error :=
  Errorf (lit "dial " ++ quote host ++ lit ": no IPv4 or IPv6 address available (resolver returned no usable records)").

Definition preferErr (host : gostring) (n4 n6 : nat) (e4 e6 : option error) : error :=
  match e4, e6 with
  | Some e, _ =>
      wrap (lit "dial " ++ quote host ++ lit " (prefer-IPv4: " ++ itoa (Z.of_nat n4) ++ lit " A record(s), then "
            ++ itoa (Z.of_nat n6) ++ lit " AAAA record(s) as fallback): ") e
  | None, Some e =>
      wrap (lit "dial " ++ quote host ++ lit " (prefer-IPv4: no reachable A record; " ++ itoa (Z.of_nat n6)
            ++ lit " AAAA record(s) tried as fallback): ") e
  | None, None => Errorf (lit "dial " ++ quote host ++ lit " (prefer-IPv4): no reachable address")
  end.

Definition dialPreferIPv4 (budget : Z) (addr : gostring) (w : wire) : res error conn * wire :=
  match net_SplitHostPort addr with
  | None => (Err (splitErr addr), w)
  | Some (host, port) =>
      if parses host then dialPlainWithTimeout addr budget w
      else
        let deadline := clock w + budget in
        match defaultDualStackLookup host budget w with
        | (Err e, w) => (Err (resolveErr host e), w)
        | (Ok ([], []), w) => (Err (noAddress host), w)
        | (Ok (v4s, v6s), w) =>
            match preferLoop v4s port deadline None w with
            | (Ok c, w) => (Ok c, w)
            | (Err e4, w) =>
                match preferLoop v6s port deadline None w with
                | (Ok c, w) => (Ok c, w)
                | (Err e6, w) => (Err (preferErr host (length v4s) (length v6s) e4 e6), w)
                end
            end
        end
  end.

(** ** The default TargetDial *)

Definition newDefaultTargetDialWithTimeout (onlyIPv4 preferIPv4 : bool) (budget : Z) (addr : gostring) (w : wire)
  : res error conn * wire :=
  let budget := if budget <=? 0 then targetDialTimeout else budget in
  if onlyIPv4 then dialOnlyIPv4 budget addr w
  else if negb preferIPv4 then
    if budget =? targetDialTimeout then dialPlain addr w else dialPlainWithTimeout addr budget w
  else dialPreferIPv4 budget addr w.

Definition newDefaultTargetDial (onlyIPv4 preferIPv4 : bool) (addr : gostring) (w : wire) : res error conn * wire :=
  newDefaultTargetDialWithTimeout onlyIPv4 preferIPv4 targetDialTimeout addr w.
End dial.
Arguments attempt : clear implicits.
Arguments wire : clear implicits.

(** ** The verdict for the originator (node.go)

    The RFC 1928 code of a bootstrap outcome; [None] is success. *)
Definition bootstrapAckStatus (err : option error) : Z :=
  match err with
  | None => 0
  | Some e =>
      if Is e ErrBlocked then 2
      else if Is e ErrTargetDialTimeout then 6
      else if Is e ErrTargetBreakerOpen then 1
      else if Is e ErrWarpUnreachable then 1
      else if Is e ErrDeadlineExceeded then 6
      else if e_timeout e then 6
      else if e_dns e then 4
      else if Is e ECONNREFUSED then 5
      else if Is e ENETUNREACH then 3
      else if Is e EHOSTUNREACH then 4
      else if Is e ETIMEDOUT then 6
      else if contains (lit "no reachable A record") (e_msg e) || contains (lit "no IPv4 or IPv6 address") (e_msg e)
              || contains (lit "resolve ") (e_msg e) || contains (lit "no such host") (e_msg e) then 4
      else 1
  end.

(** ** The order of the dials *)

Section order.
Context {conn : Type}.
Context (quote : gostring → gostring) (splitErr : gostring → error)
        (LookupHost : gostring → Z → Z → res error (list gostring) * Z)
        (netDial : network → gostring → Z → Z → res error conn * Z).

Abbreviation failed a := (is_ok (a_res a) = false).

(** [new] are dials of the first candidates in order on network [n]: all but the
    last failed, and [r] is the outcome of the last. *)
Definition tried_in_order {E} (n : network) (cands : list gostring) (port : gostring)
  (new : list (attempt conn)) (r : res E conn) : Prop :=
  Forall (λ a, a_net a = n) new
  ∧ (∃ k, map a_addr new = map (λ ip, JoinHostPort ip port) (take k cands))
  ∧ match r with
    | Ok c => ∃ pre a, new = pre ++ [a] ∧ a_res a = Ok c ∧ Forall (λ a, failed a) pre
    | Err _ => Forall (λ a, failed a) new
    end.

Lemma tried_nil {E} n cands port (e : E) : tried_in_order n cands port [] (Err e).
Proof. split_and!; [done| |done]. by exists 0%nat. Qed.

Lemma tried_cons {E} n ip cands port a new (r : res E conn) :
  a_net a = n → a_addr a = JoinHostPort ip port → failed a →
  tried_in_order n cands port new r → tried_in_order n (ip :: cands) port (a :: new) r.
Proof.
  intros Hn Ha Hf (Hnet & (k & Hk) & Hr). split_and!; [by constructor| |].
  - exists (S k). cbn. by rewrite Ha, Hk.
  - destruct r as [c|e]; [|by constructor].
    destruct Hr as (pre & b & -> & Hb & Hpre). exists (a :: pre), b. split_and!; [done|done|by constructor].
Qed.

Lemma tried_first {E} n ip cands port a c :
  a_net a = n → a_addr a = JoinHostPort ip port → a_res a = Ok c →
  tried_in_order (E:=E) n (ip :: cands) port [a] (Ok c).
Proof.
  intros Hn Ha Hr. split_and!; [by constructor|by exists 1%nat; cbn; rewrite Ha|].
  by exists [], a.
Qed.

Lemma DialTimeout_spec n addr timeout w r w' :
  DialTimeout netDial n addr timeout w = (r, w') →
  ∃ a, dials w' = dials w ++ [a] ∧ a_net a = n ∧ a_addr a = addr ∧ a_res a = r.
Proof.
  unfold DialTimeout. destruct (netDial _ _ _ _) as [r0 dt]. intros [= <- <-]. by eexists.
Qed.

(** What a loop over candidates does, up to its break condition. *)
Definition loop_done {E} (n : network) (ips : list gostring) (port : gostring) (deadline : Z)
  (w w' : wire conn) (r : res E conn) : Prop :=
  ∃ new, dials w' = dials w ++ new ∧ tried_in_order n ips port new r
  ∧ (is_ok r = false → (length new < length ips)%nat → deadline ≤ clock w').

Lemma loop_nothing {E} n ips port deadline w (e : E) :
  (ips = [] ∨ deadline ≤ clock w) → loop_done n ips port deadline w w (Err e).
Proof.
  intros H. exists []. split_and!; [by rewrite app_nil_r|apply tried_nil|].
  intros _ Hl. destruct H as [->|H]; [by cbn in Hl; lia|done].
Qed.

Lemma loop_step {E} n ip ips port deadline w w1 w' e0 (r : res E conn) :
  DialTimeout netDial n (JoinHostPort ip port) (deadline - clock w) w = (Err e0, w1) →
  loop_done n ips port deadline w1 w' r → loop_done n (ip :: ips) port deadline w w' r.
Proof.
  intros (a & Hd & Hn & Ha & Hr)%DialTimeout_spec (new & Hd' & Ht & Hl). exists (a :: new). split_and!.
  - by rewrite Hd', Hd, <- app_assoc.
  - apply tried_cons; [done..| |done]. by rewrite Hr.
  - intros Hok Hlen. apply Hl; [done|]. cbn in Hlen. lia.
Qed.

Lemma loop_success {E} n ip ips port deadline timeout w w1 c :
  DialTimeout netDial n (JoinHostPort ip port) timeout w = (Ok c, w1) →
  loop_done (E:=E) n (ip :: ips) port deadline w w1 (Ok c).
Proof.
  intros (a & Hd & Hn & Ha & Hr)%DialTimeout_spec. exists [a]. split_and!; [done| |done].
  by apply tried_first.
Qed.

Lemma onlyLoop_order ips port deadline e w r w' :
  onlyLoop netDial ips port deadline e w = (r, w') → loop_done tcp4 ips port deadline w w' r.
Proof.
  revert e w. induction ips as [|ip ips IH]; intros e w; cbn [onlyLoop].
  { intros [= <- <-]. apply loop_nothing. by left. }
  destruct (Z.leb_spec (deadline - clock w) 0).
  { intros [= <- <-]. apply loop_nothing. right. lia. }
  destruct (DialTimeout _ _ _ _ _) as [[c|e0] w1] eqn:Hd.
  - intros [= <- <-]. by eapply loop_success.
  - intros Hrec. by eapply loop_step, IH.
Qed.

(** Past the deadline nothing is dialled any more. *)
Lemma preferLoop_late ips port deadline e w :
  deadline ≤ clock w → ∃ e', preferLoop netDial ips port deadline e w = (Err e', w).
Proof.
  intros Hl. revert e. induction ips as [|ip ips IH]; intros e; cbn [preferLoop]; [by eexists|].
  unfold dialWithBudget. destruct (Z.leb_spec (deadline - clock w) 0); [|lia].
  destruct (deadline <? clock w); [by eexists|apply IH].
Qed.

Lemma preferLoop_order ips port deadline e w r w' :
  preferLoop netDial ips port deadline e w = (r, w') → loop_done tcp ips port deadline w w' r.
Proof.
  revert e w. induction ips as [|ip ips IH]; intros e w.
  { intros [= <- <-]. apply loop_nothing. by left. }
  destruct (decide (deadline ≤ clock w)) as [Hl|Hl].
  { destruct (preferLoop_late (ip :: ips) port deadline e w Hl) as [e' ->]. intros [= <- <-].
    apply loop_nothing. by right. }
  cbn [preferLoop]. unfold dialWithBudget. destruct (Z.leb_spec (deadline - clock w) 0); [lia|].
  destruct (DialTimeout _ _ _ _ _) as [[c|e0] w1] eqn:Hd.
  - intros [= <- <-]. by eapply loop_success.
  - destruct (Z.ltb_spec deadline (clock w1)).
    + intros [= <- <-]. eapply loop_step; [done|]. apply loop_nothing. right. lia.
    + intros Hrec. by eapply loop_step, IH.
Qed.

(** One loop after the other is a loop over both lists. *)
Lemma loop_app {E} ips jps port deadline w w1 w2 (e : E) (r : res E conn) :
  loop_done tcp ips port deadline w w1 (Err e) → loop_done tcp jps port deadline w1 w2 r →
  (deadline ≤ clock w1 → w2 = w1 ∧ is_ok r = false) →
  loop_done tcp (ips ++ jps) port deadline w w2 r.
Proof.
  intros (n1 & Hd1 & (Hn1 & (k1 & Hk1) & Hf1) & Hl1) (n2 & Hd2 & (Hn2 & (k2 & Hk2) & Hr2) & Hl2) Hlate.
  destruct (decide (length n1 < length ips)%nat) as [Hshort|Hall].
  - destruct (Hlate (Hl1 eq_refl Hshort)) as [-> Hok]. exists n1. split_and!; [done| |by intros; apply Hl1].
    split_and!; [done| |by destruct r].
    assert (Hk : take k1 (ips ++ jps) = take k1 ips).
    { apply (f_equal length) in Hk1. rewrite !length_map, length_take in Hk1. by rewrite take_app_le by lia. }
    exists k1. by rewrite Hk.
  - exists (n1 ++ n2). split_and!.
    + by rewrite Hd2, Hd1, app_assoc.
    + split_and!; [by apply Forall_app| |].
      * exists (length ips + k2)%nat. rewrite take_app_add, !map_app, Hk2, Hk1. f_equal.
        rewrite take_ge; [done|]. apply (f_equal length) in Hk1. rewrite !length_map, length_take in Hk1. lia.
      * destruct r as [c|]; [|by apply Forall_app].
        destruct Hr2 as (pre & a & -> & Ha & Hpre). exists (n1 ++ pre), a. split_and!; [by rewrite app_assoc|done|].
        by apply Forall_app.
    + intros Hok Hlen. apply Hl2; [done|]. rewrite !length_app in Hlen. lia.
Qed.

(** The resolver honours its context and the kernel its timeout. *)
Definition timely : Prop :=
  (∀ h b t, 0 ≤ b → 0 ≤ snd (LookupHost h b t) ≤ b) ∧ (∀ n a d t, 0 ≤ d → 0 ≤ snd (netDial n a d t) ≤ d).

Abbreviation targetDial := (newDefaultTargetDialWithTimeout quote splitErr LookupHost netDial).

Definition effective (budget : Z) : Z := if budget <=? 0 then targetDialTimeout else budget.

Lemma effective_pos budget : 0 < effective budget.
Proof. unfold effective. destruct (Z.leb_spec budget 0); [done|lia]. Qed.

Lemma dialPlainWithTimeout_eq addr budget w :
  dialPlainWithTimeout netDial addr (effective budget) w = DialTimeout netDial tcp addr (effective budget) w.
Proof.
  unfold dialPlainWithTimeout. pose proof (effective_pos budget). destruct (Z.leb_spec (effective budget) 0); [lia|done].
Qed.

(** The dials of one call, by policy. *)
Definition dial_plan (only prefer : bool) (budget : Z) (addr : gostring) (w w' : wire conn) (r : res error conn)
  (new : list (attempt conn)) : Prop :=
  let as_given := ∃ a, new = [a] ∧ a_net a = tcp ∧ a_addr a = addr ∧ a_res a = r in
  if only || prefer then
    match net_SplitHostPort addr with
    | None => new = [] ∧ is_ok r = false
    | Some (host, port) =>
        if parses host then as_given
        else match fst (LookupHost host (effective budget) (clock w)) with
             | Err _ => new = [] ∧ is_ok r = false
             | Ok addrs =>
                 let cands := if only then v4_of addrs else v4_of addrs ++ v6_of addrs in
                 tried_in_order (if only then tcp4 else tcp) cands port new r
                 ∧ (is_ok r = false → (length new < length cands)%nat → clock w + effective budget ≤ clock w')
             end
    end
  else as_given.

Lemma as_given_plan n addr timeout w r w' :
  DialTimeout netDial n addr timeout w = (r, w') →
  ∃ new, dials w' = dials w ++ new ∧ ∃ a, new = [a] ∧ a_net a = n ∧ a_addr a = addr ∧ a_res a = r.
Proof. intros (a & Hd & Ha)%DialTimeout_spec. exists [a]. split; [done|]. by exists a. Qed.

Lemma tried_map {E F} n cands port new (r : res E conn) (r' : res F conn) :
  tried_in_order n cands port new r →
  match r, r' with Ok c, Ok c' => c = c' | Err _, Err _ => True | _, _ => False end →
  tried_in_order n cands port new r'.
Proof. intros (H1 & H2 & H3). destruct r, r'; try done. by intros ->. Qed.

(** The default target dial follows its policy.  Without a policy, or for a
    literal address, it makes one dial of the address as given.  For a domain it
    dials the resolver's addresses one after the other until one succeeds: under
    ipv4-only the IPv4 ones on tcp4 and nothing else, under prefer-ipv4 all the
    IPv4 ones before any IPv6 one; and it fails without trying all of them only
    when the budget is used up. *)
Theorem target_dial_order only prefer budget addr w r w' :
  timely → targetDial only prefer budget addr w = (r, w') →
  ∃ new, dials w' = dials w ++ new ∧ dial_plan only prefer budget addr w w' r new.
Proof.
  intros [Hlook _]. unfold newDefaultTargetDialWithTimeout, dial_plan. fold (effective budget).
  assert (Hnothing : ∀ w, dials w = dials w ++ ([] : list (attempt conn))) by (intros; by rewrite app_nil_r).
  destruct only; cbn [orb negb].
  - unfold dialOnlyIPv4. destruct (net_SplitHostPort addr) as [[host port]|].
    2: { intros [= <- <-]. exists []. split; [apply (Hnothing w)|done]. }
    destruct (parses host). { rewrite dialPlainWithTimeout_eq. apply as_given_plan. }
    unfold defaultIPv4Lookup, lookup_. specialize (Hlook host (effective budget) (clock w) (Z.lt_le_incl _ _ (effective_pos budget))).
    destruct (LookupHost host (effective budget) (clock w)) as [[addrs|e] dt]; cbn [fst snd clock dials] in *.
    2: { intros [= <- <-]. exists []. split; [apply (Hnothing w)|done]. }
    destruct (v4_of addrs) as [|ip ips] eqn:Hv.
    { intros [= <- <-]. exists []. split; [apply (Hnothing w)|]. split; [apply tried_nil|]. cbn. lia. }
    destruct (onlyLoop _ _ _ _ _ _) as [[c|e] w1] eqn:Hloop; apply onlyLoop_order in Hloop as (new & Hd & Ht & Hl).
    + intros [= <- <-]. exists new. split_and!; [done| |done]. by eapply tried_map.
    + intros H. assert (is_ok r = false ∧ w' = w1) as [Hr ->] by (destruct e; injection H as <- <-; done).
      exists new. split_and!; [done|eapply tried_map; [done|by destruct r]|].
      intros _ Hlen. specialize (Hl eq_refl Hlen). lia.
  - destruct prefer; cbn [negb].
    2: { destruct (_ =? _); [apply as_given_plan|]. rewrite dialPlainWithTimeout_eq. apply as_given_plan. }
    unfold dialPreferIPv4. destruct (net_SplitHostPort addr) as [[host port]|].
    2: { intros [= <- <-]. exists []. split; [apply (Hnothing w)|done]. }
    destruct (parses host). { rewrite dialPlainWithTimeout_eq. apply as_given_plan. }
    unfold defaultDualStackLookup, lookup_.
    destruct (LookupHost host (effective budget) (clock w)) as [[addrs|e] dt]; cbn [fst snd clock dials] in *.
    2: { intros [= <- <-]. exists []. split; [apply (Hnothing w)|done]. }
    set (w0 := mkWire (clock w + dt) (dials w)). set (dl := clock w + effective budget).
    assert (Hmain : ∀ v4s v6s, match preferLoop netDial v4s port dl None w0 with
              | (Ok c, w) => (Ok c, w)
              | (Err e4, w) => match preferLoop netDial v6s port dl None w with
                               | (Ok c, w) => (Ok c, w)
                               | (Err e6, w) => (Err (preferErr quote host (length v4s) (length v6s) e4 e6), w)
                               end
              end = (r, w') → loop_done tcp (v4s ++ v6s) port dl w0 w' r).
    { intros v4s v6s. destruct (preferLoop netDial v4s port dl None w0) as [[c|e4] w1] eqn:H4.
      - intros [= <- <-]. apply preferLoop_order in H4 as (new & Hd & (Hn & (k & Hk) & Hr) & _).
        exists new. split_and!; [done| |done]. split_and!; [done| |done].
        exists (Nat.min k (length v4s)). rewrite take_app_le by lia.
        rewrite Hk. f_equal. symmetry. rewrite <- take_take. by rewrite (take_ge v4s).
      - destruct (preferLoop netDial v6s port dl None w1) as [r6 w2] eqn:H6. intros H.
        assert (w' = w2 ∧ match r6, r with Ok c, Ok c' => c = c' | Err _, Err _ => True | _, _ => False end)
          as [-> Hrr] by (destruct r6; injection H as <- <-; done).
        apply preferLoop_order in H4. pose proof (preferLoop_order _ _ _ _ _ _ _ H6) as H6'.
        assert (Hl6 : loop_done tcp (v4s ++ v6s) port dl w0 w2 r6).
        { eapply loop_app; [exact H4|exact H6'|]. intros Hlate.
          destruct (preferLoop_late v6s port dl None w1 Hlate) as [e' He]. rewrite He in H6. by injection H6 as <- <-. }
        destruct Hl6 as (new & Hd & Ht & Hl). exists new. split_and!; [done|by eapply tried_map|].
        intros Hok. apply Hl. by destruct r6, r. }
    assert (Hdone : ∀ v4s v6s, loop_done tcp (v4s ++ v6s) port dl w0 w' r →
              ∃ new, dials w' = dials w ++ new ∧ tried_in_order tcp (v4s ++ v6s) port new r
                ∧ (is_ok r = false → (length new < length (v4s ++ v6s))%nat → dl ≤ clock w')).
    { intros v4s v6s (new & Hd & Ht & Hl). exists new. split_and!; [exact Hd|exact Ht|exact Hl]. }
    destruct (v4_of addrs) as [|a4 v4s], (v6_of addrs) as [|a6 v6s]; intros H.
    + injection H as <- <-. exists []. split; [apply (Hnothing w)|]. split; [apply tried_nil|]. cbn. lia.
    + apply (Hdone [] (a6 :: v6s)), Hmain, H.
    + apply (Hdone (a4 :: v4s) []), Hmain, H.
    + apply (Hdone (a4 :: v4s) (a6 :: v6s)), Hmain, H.
Qed.

(** ** Time *)

Lemma DialTimeout_time n addr timeout w r w' :
  timely → 0 ≤ timeout → DialTimeout netDial n addr timeout w = (r, w') → clock w ≤ clock w' ≤ clock w + timeout.
Proof.
  intros [_ Hd] Hto. unfold DialTimeout. specialize (Hd n addr timeout (clock w) Hto).
  destruct (netDial _ _ _ _) as [r0 dt]. intros [= <- <-]. cbn in *. lia.
Qed.

Lemma onlyLoop_time ips port deadline e w r w' :
  timely → onlyLoop netDial ips port deadline e w = (r, w') → clock w ≤ clock w' ≤ Z.max (clock w) deadline.
Proof.
  intros Ht. revert e w. induction ips as [|ip ips IH]; intros e w; cbn [onlyLoop].
  { intros [= <- <-]. lia. }
  destruct (Z.leb_spec (deadline - clock w) 0). { intros [= <- <-]. lia. }
  destruct (DialTimeout _ _ _ _ _) as [[c|e0] w1] eqn:Hd; (apply DialTimeout_time in Hd; [|done|lia]).
  - intros [= <- <-]. lia.
  - intros Hrec%IH. lia.
Qed.

Lemma preferLoop_time ips port deadline e w r w' :
  timely → preferLoop netDial ips port deadline e w = (r, w') → clock w ≤ clock w' ≤ Z.max (clock w) deadline.
Proof.
  intros Ht. revert e w. induction ips as [|ip ips IH]; intros e w; cbn [preferLoop].
  { intros [= <- <-]. lia. }
  unfold dialWithBudget. destruct (Z.leb_spec (deadline - clock w) 0).
  - destruct (deadline <? clock w); [intros [= <- <-]; lia|apply IH].
  - destruct (DialTimeout _ _ _ _ _) as [[c|e0] w1] eqn:Hd; (apply DialTimeout_time in Hd; [|done|lia]).
    + intros [= <- <-]. lia.
    + destruct (deadline <? clock w1); [intros [= <- <-]; lia|]. intros Hrec%IH. lia.
Qed.

(** Whether the hard filter resolves [addr] by itself. *)
Definition filtered (only : bool) (addr : gostring) : bool :=
  only && match net_SplitHostPort addr with Some (host, _) => negb (parses host) | None => false end.

(** A target dial ends within its budget, the resolution and all the attempts
    together, however slow each of them is; under ipv4-only the resolution of a
    domain has a budget of its own, so the bound is twice the budget. *)
Theorem target_dial_bounded only prefer budget addr w r w' :
  timely → targetDial only prefer budget addr w = (r, w') →
  clock w ≤ clock w' ≤ clock w + (if filtered only addr then 2 else 1) * effective budget.
Proof.
  intros Ht. pose proof Ht as [Hlook _]. pose proof (effective_pos budget).
  unfold newDefaultTargetDialWithTimeout, filtered. fold (effective budget).
  assert (Hp : ∀ r w', dialPlainWithTimeout netDial addr (effective budget) w = (r, w') →
            clock w ≤ clock w' ≤ clock w + 1 * effective budget).
  { intros r' w1. rewrite dialPlainWithTimeout_eq. intros Hd%DialTimeout_time; [|done|lia]. lia. }
  destruct only; cbn [andb negb].
  - unfold dialOnlyIPv4. destruct (net_SplitHostPort addr) as [[host port]|]; [|intros [= <- <-]; lia].
    destruct (parses host); cbn [negb]; [apply Hp|].
    unfold defaultIPv4Lookup, lookup_. specialize (Hlook host (effective budget) (clock w) (Z.lt_le_incl _ _ (effective_pos budget))).
    destruct (LookupHost _ _ _) as [[addrs|e] dt]; cbn [fst snd clock] in *; [|intros [= <- <-]; cbn; lia].
    destruct (v4_of addrs); [intros [= <- <-]; cbn; lia|].
    destruct (onlyLoop _ _ _ _ _ _) as [[c|e] w1] eqn:Hl; apply onlyLoop_time in Hl; try done; cbn [clock] in Hl.
    + intros [= <- <-]. lia.
    + intros H0. assert (w' = w1) as -> by (destruct e; by injection H0). lia.
  - destruct prefer; cbn [negb].
    2: { destruct (Z.eqb_spec (effective budget) targetDialTimeout) as [He|]; [|apply Hp].
         intros Hd%DialTimeout_time; [|done|lia]. lia. }
    unfold dialPreferIPv4. destruct (net_SplitHostPort addr) as [[host port]|]; [|intros [= <- <-]; lia].
    destruct (parses host); [apply Hp|].
    unfold defaultDualStackLookup, lookup_. specialize (Hlook host (effective budget) (clock w) (Z.lt_le_incl _ _ (effective_pos budget))).
    destruct (LookupHost _ _ _) as [[addrs|e] dt]; cbn [fst snd clock] in *; [|intros [= <- <-]; cbn; lia].
    intros H0. assert (w' = mkWire (clock w + dt) (dials w) ∨ clock w ≤ clock w' ≤ clock w + effective budget) as [->|];
      [|cbn; lia|lia].
    destruct (v4_of addrs) as [|a4 v4s], (v6_of addrs) as [|a6 v6s]; [left; congruence|right..].
    all: destruct (preferLoop _ _ _ _ _ _) as [[c|e4] w1] eqn:H4 in H0; apply preferLoop_time in H4; try done;
      cbn [clock] in H4; [injection H0 as <- <-; lia|].
    all: destruct (preferLoop _ _ _ _ _ _) as [[c|e6] w2] eqn:H6 in H0; apply preferLoop_time in H6; try done;
      injection H0 as <- <-; lia.
Qed.
End order.

(** ** Examples *)

(** Only IPv4 literals are candidates under the hard filter. *)
Lemma v4_of_literal addrs ip : ip ∈ v4_of addrs → ∃ v4, length v4 = 4%nat ∧ ip = v4_string v4.
Proof.
  intros (a & -> & Ha)%list_elem_of_fmap. apply list_elem_of_In, filter_In in Ha as [_ Ha].
  unfold isV4, printed in *. destruct (ParseIP a) as [ip|] eqn:Hp; [|done].
  apply bool_decide_eq_true in Ha as [v4 H4]. pose proof (To4_length _ _ H4).
  exists v4. split; [done|]. unfold IP_String. by rewrite H4.
Qed.

Definition plain_quote (s : gostring) : gostring := [x22] ++ s ++ [x22].
Definition no_split (_ : gostring) : error := Errorf [].

(** A resolver with one IPv6 and two IPv4 records that takes its whole budget,
    and a network in which the dials of [good] succeed at once and the others
    take their whole timeout. *)
Definition slow_lookup (_ : gostring) (budget _ : Z) : res error (list gostring) * Z :=
  (Ok [lit "2001:db8::1"; lit "192.0.2.1"; lit "192.0.2.2"], Z.max 0 budget).
Definition fast_lookup (_ : gostring) (budget _ : Z) : res error (list gostring) * Z :=
  (Ok [lit "2001:db8::1"; lit "192.0.2.1"; lit "192.0.2.2"], 0).
Definition dial_good (good : gostring) (n : network) (addr : gostring) (timeout _ : Z) : res error unit * Z :=
  if streqb addr good then (Ok (), 0) else (Err (mkErr [] true false (lit "i/o timeout")), Z.quot (Z.max 0 timeout) 2).
Definition dial_hang (_ : network) (addr : gostring) (timeout _ : Z) : res error unit * Z :=
  (Err (mkErr [] true false (lit "i/o timeout")), Z.max 0 timeout).

Lemma example_timely good :
  timely fast_lookup (dial_good good) ∧ timely slow_lookup dial_hang.
Proof.
  split; (split; [intros h b t Hb; cbn; lia|intros n a d t Hd; unfold dial_good; cbn]).
  - destruct (streqb a good); cbn; [lia|]. rewrite Z.max_r, Z.quot_div_nonneg by lia.
    split; [apply Z.div_pos; lia|apply Z.div_le_upper_bound; lia].
  - lia.
Qed.

Lemma target_dial_order_witness :
  let dial := newDefaultTargetDialWithTimeout plain_quote no_split fast_lookup (dial_good (lit "[2001:db8::1]:443")) in
  let w := mkWire 0 [] in
  timely fast_lookup (dial_good (lit "[2001:db8::1]:443"))
  ∧ ∃ w' new, dial false true 0 (lit "example.com:443") w = (Ok (), w') ∧ dials w' = dials w ++ new
  ∧ map a_addr new = [lit "192.0.2.1:443"; lit "192.0.2.2:443"; lit "[2001:db8::1]:443"].
Proof.
  intros dial w. pose proof (proj1 (example_timely (lit "[2001:db8::1]:443"))) as Ht. split; [exact Ht|].
  destruct (dial false true 0 (lit "example.com:443") w) as [r w'] eqn:H.
  destruct (target_dial_order plain_quote no_split fast_lookup (dial_good (lit "[2001:db8::1]:443"))
              false true 0 (lit "example.com:443") w r w' Ht H) as (new & Hd & _).
  assert (Hr : r = Ok ()) by (vm_compute in H; congruence). subst r.
  exists w', new. split; [reflexivity|]. split; [exact Hd|].
  vm_compute in H. injection H as <-. unfold w in Hd. cbn [dials app] in Hd. rewrite <- Hd. vm_compute. reflexivity.
Defined.

Lemma target_dial_bounded_witness :
  let dial := newDefaultTargetDialWithTimeout plain_quote no_split slow_lookup dial_hang in
  ∃ r w', dial false true 0 (lit "example.com:443") (mkWire 0 []) = (r, w') ∧ 0 ≤ clock w' ≤ 10000000000.
Proof.
  intros dial. destruct (dial false true 0 (lit "example.com:443") (mkWire 0 [])) as [r w'] eqn:H.
  exists r, w'. split; [reflexivity|].
  exact (target_dial_bounded plain_quote no_split slow_lookup dial_hang false true 0 (lit "example.com:443")
           (mkWire 0 []) r w' (proj2 (example_timely [])) H).
Defined.

(** The hard filter starts a second budget after the resolution: with a slow
    resolver and a target that does not answer, a dial takes twice its ten
    seconds. *)
Lemma ipv4_only_second_budget :
  clock (snd (newDefaultTargetDialWithTimeout plain_quote no_split slow_lookup dial_hang
                true false 0 (lit "example.com:443") (mkWire 0 []))) = 2 * targetDialTimeout.
Proof. vm_compute. reflexivity. Qed.

(** ** Verdicts *)

(** The verdict is success exactly for success. *)
Lemma ack_status_success e : bootstrapAckStatus e = 0 ↔ e = None.
Proof. destruct e as [e|]; [|done]. cbn. repeat case_match; done. Qed.

(** A domain without an IPv4 record under the hard filter is answered as a
    general failure, not as an unreachable host. *)
Lemma ipv4_only_refusal_is_general_failure :
  bootstrapAckStatus (Some (noARecord plain_quote (lit "example.com"))) = 1
  ∧ bootstrapAckStatus (Some (noAddress plain_quote (lit "example.com"))) = 4.
Proof. by vm_compute. Qed.
