(* ===== verification/BootstrapUp.v ===== *)
(** * Bootstrapping a stream (src/pkg/node/node.go)

    The bounded waits for ready carriers, what the Germany node does with a new
    up stream (decode the header, dial the target, wait for the down carrier,
    set the session up, send the verdict), and the Iran node's wait for that
    verdict.  What other goroutines do meanwhile is an argument: the states a
    wait observes, the outcome of the dial, a close that overtakes the
    activation. *)
From S2P Require Export Node TargetDial.
From S2P Require Import CarrierOps Relay.
#[local] Open Scope Z_scope.

(** ** Waiting for carriers *)

Inductive wait_error := WaitCancelled | WaitTimeout.

(** What ends the select: a readiness signal, the node's context, the deadline. *)
Inductive wake := Signal (dir : Direction) | CtxEnd | Expired.

Section wait.
Context {C : Type} `{!CarrierOps C}.

(** One turn of the loop: the node when the handles are read, the node when the
    select returns, and why it does. *)
Record turn := mkTurn { t_check : Node (C := C); t_wake : Node (C := C); t_why : wake }.

(** [None]: still waiting after these turns. *)
Fixpoint waitCarriers (ts : list turn) : option (res wait_error (href * href)) :=
  match ts with
  | [] => None
  | t :: ts =>
      match currentIfReadyBoth (t_check t) with
      | (Some upH, Some downH) => Some (Ok (upH, downH))
      | _ => match t_why t with
             | Signal _ => waitCarriers ts
             | CtxEnd => Some (Err WaitCancelled)
             | Expired => Some (Err WaitTimeout)
             end
      end
  end.

Fixpoint waitCarrierReady (dir : Direction) (ts : list turn) : option (res wait_error href) :=
  match ts with
  | [] => None
  | t :: ts =>
      match currentIfReady dir (t_check t) with
      | Some h => Some (Ok h)
      | None => match t_why t with
                | Signal _ => waitCarrierReady dir ts
                | CtxEnd => Some (Err WaitCancelled)
                | Expired => Some (Err WaitTimeout)
                end
      end
  end.

(** waitCarriers selects only on the signals of the directions that were not
    ready; a signal is a channel that is closed when the select returns. *)
Definition select_ok (t : turn) : Prop :=
  match t_why t with
  | Signal dir => currentIfReady dir (t_check t) = None ∧ readyClosed dir (t_wake t) = true
  | _ => True
  end.
End wait.
Arguments turn : clear implicits.

(** ** The Germany side of a new stream *)

Inductive boot_eff :=
| AckSent (status : Z)          (* FrameBootstrapAck on the up carrier *)
| StreamTerminated              (* Terminate of the up stream, with its FrameClose *)
| TargetClosed                  (* targetConn.Close() *)
| ErrorCounted | DialTimeoutCounted | DialBreakerCounted | DialFailureCounted | DialSuccessCounted
| SessionStartCounted
| AnchorSent | UpConsumerStarted | DownRelayStarted.

Section bootstrap.
Context {C : Type} `{!CarrierOps C}.

(** The target dial, with or without the governor, on "host:port". *)
Context (dial : gostring → res error connID).

(** [first]: what the stream's channel delivers, [None] when it is closed,
    [Some None] for a FrameClose; [ready]: the outcome of waitCarrierReady;
    [picked]: pickDownForNewStream's answer; [overtaken]: a close of the session,
    with its reason, between its indexing and its activation; [credits]: whether
    the credit plane is on. *)
Record bootstrap := mkBoot {
  first : option (option (list byte));
  ready : res wait_error href;
  picked : option href;
  overtaken : option gostring;
  credits : bool
}.

(** The terminating refusal: the verdict, then the end of the stream. *)
Definition drop (h : href) (id status : Z) (n : Node (C := C)) : list boot_eff * Node :=
  ([AckSent status; StreamTerminated; ErrorCounted],
   setCarrier h (carrier_terminate id) (send h id FrameBootstrapAck (EncodeBootstrapAckPayload status) n)).

Definition prepend (es : list boot_eff) (r : list boot_eff * Node (C := C)) : list boot_eff * Node :=
  (es ++ fst r, snd r).

(** The session as NewSession and the assignments after it leave it. *)
Definition freshSession (target : connID) (id : Z) : Session :=
  NewSession None (Some target) (Some NewAttachment) (Some NewAttachment) id id.

Definition putSession (r : ref) (s : Session) (n : Node (C := C)) : Node :=
  n <| heap := λ r', if bool_decide (r' = r) then s else heap n r' |>.

(** The session [r] once the down stream is registered. *)
Definition launch (r : ref) (target : connID) (h downH : href) (id : Z) (b : bootstrap) (n : Node (C := C))
  : list boot_eff * Node :=
  let n := putSession r (freshSession target id) n in
  let n := n <| store := AddStream (heap n) r (Session.Add (heap n) (sids n r) r (store n)) |> in
  let n := match overtaken b with Some why => onSession r (SClose why) n | None => n end in
  if negb (fst (Activate (heap n r))) then
    ([SessionStartCounted; AckSent 1],
     onSession r (SClose (lit "activation failed"))
       (send h id FrameBootstrapAck (EncodeBootstrapAckPayload 1) n))
  else
    let n := onSession r SActivate n in
    let n := onSession r (SAtt DirUp (AAttach (genH n h))) n in
    let n := onSession r (SAtt DirDown (AAttach (genH n downH))) n in
    ([SessionStartCounted] ++ (if credits b then [AnchorSent] else [])
       ++ [UpConsumerStarted; DownRelayStarted; AckSent 0],
     send h id FrameBootstrapAck (EncodeBootstrapAckPayload 0) n).

Definition dialFailure (e : error) : list boot_eff :=
  (if Is e ErrTargetBreakerOpen then [DialBreakerCounted]
   else if Is e ErrTargetDialTimeout then [DialTimeoutCounted] else []) ++ [DialFailureCounted].

Definition bootstrapUpStream (r : ref) (h : href) (id : Z) (b : bootstrap) (n : Node (C := C)) : list boot_eff * Node :=
  match first b with
  | None | Some None => ([], n)
  | Some (Some p) =>
      match ParseDestinationFromBuf p with
      | None => drop h id 1 n
      | Some dest =>
          match dial (JoinHostPort (Addr dest) (itoa (Port dest))) with
          | Err e => prepend (dialFailure e) (drop h id (bootstrapAckStatus (Some e)) n)
          | Ok target =>
              prepend [DialSuccessCounted]
                match ready b with
                | Err _ => prepend [TargetClosed] (drop h id 1 n)
                | Ok downH =>
                    let downH := default downH (picked b) in
                    match handlesT n !! downH with
                    | None => ([], n)
                    | Some d =>
                        let '(ok, d') := carrier_register id (h_carrier d) in
                        let n := setCarrier downH (λ _, d') n in
                        if negb ok then prepend [TargetClosed] (drop h id 1 n)
                        else launch r target h downH id b n
                    end
                end
          end
      end
  end.
End bootstrap.

(** ** The Iran side *)

Section verdict.
Context {C : Type} `{!CarrierOps C}.

(** The peer's verdict arrives on any carrier. *)
Definition onBootstrapAck (streamID status : Z) (n : Node (C := C)) : Node :=
  match GetByStream streamID (store n) with
  | None => n
  | Some r => onSession r (SResolve status) n
  end.

(** StartSessionAndWait, given the outcome of the setup and the session when
    the wait returns. *)
Definition startSessionAndWait (started : option start_error) (s : Session) : Z :=
  match started with
  | Some _ => 1
  | None => default BootstrapEndedWithoutResult (fst (WaitBootstrap s))
  end.
End verdict.
