(* ===== verification/NodeSafety.v ===== *)
(** * The node keeps its carriers, signals and sessions straight

    The interleavings of the node's critical sections and sweeps ([nreach]),
    the invariant they keep, and the theorems on readiness signals,
    generations, loss sweeps, rebinds and resets.  The last section runs the
    node on concrete carriers. *)
From S2P Require Export Node BootstrapUp.
From S2P Require Import CarrierOps Relay.
#[local] Open Scope Z_scope.

Section safety.
Context {C : Type} `{!CarrierOps C, !CarrierLaws C}.
Implicit Types n : Node (C := C).

(** ** The shape of a node: its handles, registries and signals *)

(** Every handle keeps its identity and no carrier comes back to life. *)
Definition same_handles n n' : Prop :=
  length (handlesT n') = length (handlesT n)
  ∧ ∀ (h : href) x', handlesT n' !! h = Some x' →
      ∃ x, handlesT n !! h = Some x ∧ h_gen x' = h_gen x ∧ h_id x' = h_id x ∧ h_dir x' = h_dir x
           ∧ (carrier_ready (h_carrier x') = true → carrier_ready (h_carrier x) = true).

(** What session and stream operations leave alone. *)
Definition plane_kept n n' : Prop :=
  upReg n' = upReg n ∧ downReg n' = downReg n ∧ genSeq n' = genSeq n ∧ upReadyClosed n' = upReadyClosed n
  ∧ downReadyClosed n' = downReadyClosed n ∧ n_role n' = n_role n ∧ same_handles n n'.

Lemma same_handles_refl n : same_handles n n.
Proof. split; [done|]. intros h x Hx. exists x. done. Qed.

Lemma plane_kept_refl n : plane_kept n n.
Proof. split_and!; try done. apply same_handles_refl. Qed.

Lemma plane_kept_trans n1 n2 n3 : plane_kept n1 n2 → plane_kept n2 n3 → plane_kept n1 n3.
Proof.
  intros (A1 & A2 & A3 & A4 & A5 & A6 & A7 & A8) (B1 & B2 & B3 & B4 & B5 & B6 & B7 & B8).
  split_and!; try congruence. split; [congruence|]. intros h x3 Hx3. destruct (B8 h x3 Hx3) as (x2 & Hx2 & ? & ? & ? & Hr2).
  destruct (A8 h x2 Hx2) as (x1 & Hx1 & ? & ? & ? & Hr1). exists x1. split_and!; try congruence. auto.
Qed.

Lemma plane_same n n' :
  upReg n' = upReg n → downReg n' = downReg n → genSeq n' = genSeq n → upReadyClosed n' = upReadyClosed n →
  downReadyClosed n' = downReadyClosed n → n_role n' = n_role n → handlesT n' = handlesT n → plane_kept n n'.
Proof.
  intros ? ? ? ? ? ? E. split_and!; try done. unfold same_handles. rewrite E. apply same_handles_refl.
Qed.

Lemma plane_onSession r op n : plane_kept n (onSession r op n).
Proof. by apply plane_same. Qed.

Lemma plane_note e n : plane_kept n (note e n).
Proof. by apply plane_same. Qed.

Lemma plane_send h id t p n : plane_kept n (send h id t p n).
Proof. by apply plane_same. Qed.

Lemma plane_setCarrier h f n :
  (∀ x, handlesT n !! (h : href) = Some x → carrier_ready (f (h_carrier x)) = true → carrier_ready (h_carrier x) = true) →
  plane_kept n (setCarrier h f n).
Proof.
  intros Hf. split_and!; try done. split; [apply length_alter|]. intros h' x'. cbn. destruct (decide (h' = h)) as [->|Hne].
  - rewrite list_lookup_alter_eq. intros (x & E & ->)%fmap_Some. exists x. split_and!; try done. exact (Hf x E).
  - rewrite list_lookup_alter_ne by done. intros Hx. by exists x'.
Qed.

Lemma plane_deregister h id n : plane_kept n (setCarrier h (carrier_deregister id) n).
Proof. apply plane_setCarrier. intros x _ Hx. by rewrite deregister_ready in Hx. Qed.

Lemma plane_register h id x n :
  handlesT n !! h = Some x → plane_kept n (setCarrier h (λ _, snd (carrier_register id (h_carrier x))) n).
Proof. intros Hx. apply plane_setCarrier. intros y Hy. rewrite Hx in Hy. injection Hy as <-. by rewrite register_ready. Qed.


Create HintDb plane.
#[local] Hint Resolve plane_kept_refl plane_onSession plane_note plane_send plane_deregister : plane.

(** Chains of such operations, from the outermost in. *)
Ltac plane :=
  repeat first
    [ solve [eauto with plane]
    | match goal with
      | |- plane_kept _ (note ?e ?m) => apply (plane_kept_trans _ m); [|apply plane_note]
      | |- plane_kept _ (send ?h ?i ?t ?p ?m) => apply (plane_kept_trans _ m); [|apply plane_send]
      | |- plane_kept _ (onSession ?r ?o ?m) => apply (plane_kept_trans _ m); [|apply plane_onSession]
      | |- plane_kept _ (setCarrier ?h (carrier_deregister ?i) ?m) => apply (plane_kept_trans _ m); [|apply plane_deregister]
      | |- context [if ?b then _ else _] => destruct b
      end ].

Lemma plane_failRebind r dir n : plane_kept n (failRebind r dir n).
Proof. unfold failRebind. plane. Qed.

Lemma plane_registered h id x ok c' n :
  handlesT n !! h = Some x → carrier_register id (h_carrier x) = (ok, c') → plane_kept n (setCarrier h (λ _, c') n).
Proof. intros Hx E. pose proof (plane_register h id x n Hx) as H. by rewrite E in H. Qed.

Lemma plane_rebindClaimed dir h o r n : plane_kept n (snd (rebindClaimed dir h o r n)).
Proof.
  unfold rebindClaimed. destruct (handlesT n !! h) as [x|] eqn:Hx; [|plane]. set (id := streamIDOf _ _).
  destruct (carrier_register id (h_carrier x)) as [ok c'] eqn:E. pose proof (plane_registered h id x ok c' n Hx E) as Hreg.
  destruct ok; cbn [negb]; [|eapply plane_kept_trans; [exact Hreg|apply plane_failRebind]].
  case_bool_decide; [cbn [snd]; eapply plane_kept_trans; [exact Hreg|]; eapply plane_kept_trans; [|apply plane_failRebind]; plane|].
  set (n1 := if bool_decide _ then _ else _).
  assert (plane_kept n n1) as H1.
  { unfold n1. eapply plane_kept_trans; [exact Hreg|]. case_bool_decide; plane. }
  destruct (Att dir (heap n1 r)); [|done]. destruct (fst _); cbn [negb snd]; (eapply plane_kept_trans; [exact H1|]; plane).
Qed.

Lemma plane_rebindSession dir h o r n : plane_kept n (snd (rebindSession dir h o r n)).
Proof.
  unfold rebindSession. case_bool_decide; cbn [negb]; [|plane]. destruct (Att dir (heap n r)) as [a|]; [|plane].
  destruct (DirClosed dir _); [plane|]. unfold State. destruct (state a); cbv zeta; [| |destruct (_ =? _)|]; try apply plane_kept_refl;
    (eapply plane_kept_trans; [|apply plane_rebindClaimed]); plane.
Qed.

Lemma plane_rebindLoop dir h os rs n : plane_kept n (snd (rebindLoop dir h os rs n)).
Proof.
  revert n. induction rs as [|r rs IH]; intros n; cbn [rebindLoop]; [plane|].
  pose proof (plane_rebindSession dir h (os r) r n) as H. destruct (rebindSession dir h (os r) r n) as [b n1].
  specialize (IH n1). destruct (rebindLoop dir h os rs n1) as [b' n2]. by eapply plane_kept_trans.
Qed.

Lemma plane_failover dir os hs n : plane_kept n (failover dir os hs n).
Proof.
  revert n. induction hs as [|h hs IH]; intros n; cbn [failover]; [plane|].
  pose proof (plane_rebindLoop dir h (os h) (Snapshot (store n)) n) as H. unfold rebindDirection.
  destruct (rebindLoop _ _ _ _ n) as [b n1]. destruct b; [done|]. by eapply plane_kept_trans.
Qed.

Lemma plane_fold {B} (f : Node (C := C) → B → Node (C := C)) l n :
  (∀ m b, plane_kept m (f m b)) → plane_kept n (foldl f n l).
Proof. intros Hf. revert n. induction l as [|b l IH]; intros n; [plane|]. exact (plane_kept_trans _ _ _ (Hf n b) (IH (f n b))). Qed.

Lemma plane_dropRebind x h id gen n : plane_kept n (snd (dropRebind x h id gen n)).
Proof. unfold dropRebind. cbn [snd]. plane. Qed.

Lemma plane_attachRebind dir h id gen cm r n : plane_kept n (snd (attachRebind dir h id gen cm r n)).
Proof.
  unfold attachRebind. set (n1 := if cm then _ else _). assert (plane_kept n n1) as H1 by (unfold n1; plane).
  destruct (Att dir _); [|done]. destruct (fst _); cbn [negb];
    (eapply plane_kept_trans; [exact H1|]); [cbn [snd]; plane|].
  eapply plane_kept_trans; [|apply plane_dropRebind]. plane.
Qed.

Lemma plane_handleRebind dir h id p cm n : plane_kept n (snd (handleRebind dir h id p cm n)).
Proof.
  unfold handleRebind. destruct p as [p|]; [|plane]. destruct (ParseRebindAny p) as [rb|]; [|apply plane_dropRebind].
  destruct (_ && _); [apply plane_dropRebind|]. destruct (GetByStream _ _) as [r|]; [|apply plane_dropRebind].
  case_bool_decide; cbn [negb]; [|apply plane_dropRebind]. destruct (DirClosed _ _); [apply plane_dropRebind|].
  destruct (Att _ _) as [a|]; [|apply plane_dropRebind]. destruct (_ <=? _); [apply plane_dropRebind|]. unfold State.
  destruct (state a); [apply plane_attachRebind..| |apply plane_dropRebind].
  destruct (_ =? _); [apply plane_dropRebind|]. eapply plane_kept_trans; [|apply plane_attachRebind]. plane.
Qed.

Lemma plane_handleStreamReset dir id reason gen n : plane_kept n (handleStreamReset dir id reason gen n).
Proof.
  unfold handleStreamReset. destruct (GetByStream _ _) as [r|]; [|plane]. case_bool_decide; cbn [negb]; [|plane].
  set (b := match Att _ _ with Some _ => _ | None => _ end). destruct b; plane.
Qed.

Lemma plane_onSessionClosed r n : plane_kept n (onSessionClosed r n).
Proof.
  unfold onSessionClosed.
  assert (∀ dir id m, plane_kept m (deregisterAll dir id m)) as Hd.
  { intros dir id m. unfold deregisterAll. destruct (_ =? _); [plane|]. apply plane_fold. intros m' [h|]; plane. }
  set (n1 := deregisterAll DirDown _ _). assert (plane_kept n n1) as H1 by (eapply plane_kept_trans; apply Hd).
  assert (plane_kept n (n1 <| store := Remove (heap n1) (sids n1 r) (store n1) |>)) as H2.
  { eapply plane_kept_trans; [exact H1|]. by apply plane_same. }
  destruct (_ && _); [|done]. destruct (handleForGen _ _); [|done]. eapply plane_kept_trans; [exact H2|]. plane.
Qed.

Lemma plane_startSession r u d hok ad hdr n : plane_kept n (snd (startSession r u d hok ad hdr n)).
Proof.
  unfold startSession. destruct (nextStreamID n) as [id n0] eqn:E0.
  assert (plane_kept n n0) as H0 by (injection E0 as _ <-; by apply plane_same).
  set (n1 := n0 <| heap := _ |>). set (n2 := n1 <| store := _ |>).
  assert (plane_kept n n2) as H2 by (eapply plane_kept_trans; [exact H0|]; by apply plane_same).
  destruct (handlesT n2 !! u) as [x|] eqn:Hx; [|done]. destruct (handlesT n2 !! d) as [y|] eqn:Hy; [|done].
  destruct (carrier_register id (h_carrier x)) as [uok u'] eqn:Eu. set (n3 := setCarrier u (λ _, u') n2).
  assert (plane_kept n n3) as H3 by (eapply plane_kept_trans; [exact H2|by eapply plane_registered]).
  destruct (handlesT n3 !! d) as [z|] eqn:Hz; [|done].
  destruct (carrier_register id (h_carrier z)) as [dok d'] eqn:Ed. set (n4 := setCarrier d (λ _, d') n3).
  assert (plane_kept n n4) as H4 by (eapply plane_kept_trans; [exact H3|by eapply plane_registered]).
  destruct (negb (uok && dok)); [cbn [snd]; eapply plane_kept_trans; [exact H4|]; plane|].
  destruct (negb (fst _)); [cbn [snd]; eapply plane_kept_trans; [exact H4|]; plane|].
  destruct hdr as [hd|]; [|cbn [snd]; eapply plane_kept_trans; [exact H4|]; plane].
  destruct (negb hok); [cbn [snd]; eapply plane_kept_trans; [exact H4|]; plane|].
  destruct (negb ad); cbn [snd]; (eapply plane_kept_trans; [exact H4|]); plane.
Qed.

Lemma plane_terminate h id n : plane_kept n (setCarrier h (carrier_terminate id) n).
Proof. apply plane_setCarrier. intros x _ Hx. by rewrite terminate_ready in Hx. Qed.

Lemma plane_store n f : plane_kept n (n <| store := f |>).
Proof. by apply plane_same. Qed.

Lemma plane_heap n f : plane_kept n (n <| heap := f |>).
Proof. by apply plane_same. Qed.

#[local] Hint Resolve plane_terminate plane_store plane_heap : plane.

Lemma plane_drop h id status n : plane_kept n (snd (drop h id status n)).
Proof. unfold drop. cbn [snd]. eapply plane_kept_trans; [apply plane_send|plane]. Qed.

Lemma plane_launch r target h downH id b n : plane_kept n (snd (launch r target h downH id b n)).
Proof.
  unfold launch. set (n1 := putSession r _ n). set (n2 := n1 <| store := _ |>).
  assert (plane_kept n n2) as H2 by (eapply plane_kept_trans; [apply plane_heap|plane]).
  set (n3 := match overtaken b with Some _ => _ | None => _ end).
  assert (plane_kept n n3) as H3.
  { unfold n3. destruct (overtaken b); [|done]. eapply plane_kept_trans; [exact H2|plane]. }
  destruct (negb (fst _)); cbn [snd]; (eapply plane_kept_trans; [exact H3|]); plane.
Qed.

Lemma plane_bootstrap dial r h id b n : plane_kept n (snd (bootstrapUpStream dial r h id b n)).
Proof.
  unfold bootstrapUpStream. destruct (first b) as [[p|]|]; try plane.
  destruct (ParseDestinationFromBuf p) as [dest|]; [|apply plane_drop].
  destruct (dial _) as [tg|e]; cbn [prepend snd]; [|apply plane_drop].
  destruct (ready b) as [dh|e]; cbn [prepend snd]; [|apply plane_drop].
  destruct (handlesT n !! _) as [d|] eqn:Hd; [|plane].
  destruct (carrier_register id (h_carrier d)) as [ok d'] eqn:Er. set (n1 := setCarrier _ (λ _, d') n).
  assert (plane_kept n n1) as H1 by (by eapply plane_registered).
  destruct (negb ok); cbn [prepend snd]; (eapply plane_kept_trans; [exact H1|]); [apply plane_drop|apply plane_launch].
Qed.

Definition newStreamOn (dir : Direction) (h : href) (id firstType : Z) n : Node :=
  match dir with DirUp => snd (onUpNewStream h id firstType n) | DirDown => snd (onDownNewStream h id firstType n) end.

Lemma plane_newStream dir h id t n :
  plane_kept n (newStreamOn dir h id t n).
Proof.
  unfold newStreamOn, onUpNewStream, onDownNewStream. destruct dir; repeat case_match; cbn [snd];
    try plane; (eapply plane_kept_trans; [apply plane_note|plane]).
Qed.

Lemma plane_bootstrapAck id status n : plane_kept n (onBootstrapAck id status n).
Proof. unfold onBootstrapAck. destruct (GetByStream _ _); plane. Qed.

(** ** Interleavings *)

Inductive nlabel :=
| NInstall (id : CarrierID) (dir : Direction) (c : C)     (* installFor's critical section *)
| NSettle (id : CarrierID)                                (* the replaced carrier's loss is accounted for *)
| NReady (dir : Direction) (h : href) (os : nat → outcome)
| NCarrier (h : href) (c : C)                             (* a carrier moves on its own *)
| NLose (h : href)                                        (* onCarrierLost's critical section *)
| NDetach (dir : Direction) (h : href) (r : ref)          (* one session of its sweep *)
| NFailover (dir : Direction) (h : href) (os : href → nat → outcome)
| NDrop (h : href)
| NSession (r : ref) (op : sop)
| NHandleRebind (dir : Direction) (h : href) (id : Z) (p : option (list byte)) (closedMeanwhile : bool)
| NReset (dir : Direction) (id reason gen : Z)
| NGrace (r : ref) (dir : Direction)
| NClosed (r : ref)
| NStart (r : ref) (u d : href) (headerOK adopted : bool) (hdr : option (list byte))
| NNewStream (dir : Direction) (h : href) (id firstType : Z)   (* OnNewStream *)
| NBootstrap (r : ref) (h : href) (id : Z) (dial : gostring → res error connID) (b : bootstrap)
| NBootstrapAck (id status : Z).

Definition dirH n (h : href) : Direction := match handlesT n !! h with Some x => h_dir x | None => DirUp end.

(** A carrier whose read loop has ended or that is closing stays so. *)
Definition carrier_moves (h : href) (c : C) n : bool :=
  match handlesT n !! h with
  | Some x => implb (carrier_ready c) (carrier_ready (h_carrier x))
  | None => false
  end.

Definition nstep (l : nlabel) n : Node :=
  match l with
  | NInstall id dir c => snd (installLocked id dir c n)
  | NSettle id => n <| lostMap := lostMap n ∖ {[id]} |>
  | NReady dir h os => onCarrierReady dir h os n
  | NCarrier h c => if carrier_moves h c n then setCarrier h (λ _, c) n else n
  | NLose h => loseLocked (dirH n h) h n
  | NDetach dir h r => detachSession dir (genH n h) n r
  | NFailover dir h os =>
      match n_role n with
      | RoleIran => failover dir os (ReadyExcept (readyH n) (idH n h) (reg dir n)) n
      | RoleGermany => n
      end
  | NDrop h => dropIfCurrent (dirH n h) h n
  | NSession r op => onSession r op n
  | NHandleRebind dir h id p cm => snd (handleRebind dir h id p cm n)
  | NReset dir id reason gen => handleStreamReset dir id reason gen n
  | NGrace r dir => onGraceTimeout r dir n
  | NClosed r => onSessionClosed r n
  | NStart r u d hok ad hdr => snd (startSession r u d hok ad hdr n)
  | NNewStream dir h id t => newStreamOn dir h id t n
  | NBootstrap r h id dial b => snd (bootstrapUpStream dial r h id b n)
  | NBootstrapAck id status => onBootstrapAck id status n
  end.

Definition nrun (ls : list nlabel) n : Node := foldl (λ n l, nstep l n) n ls.

Record ninv n : Prop := {
  ni_seq : genSeq n = wrapu 64 (Z.of_nat (length (handlesT n)));
  ni_gens : ∀ (h : href) x, handlesT n !! h = Some x → h_gen x = wrapu 64 (Z.of_nat h + 1);
  ni_installed : ∀ dir id h, handles (reg dir n) !! id = Some h →
                   ∃ x, handlesT n !! h = Some x ∧ h_id x = id ∧ h_dir x = dir;
  ni_reg : ∀ dir, rinv (reg dir n);
  ni_signal : ∀ dir, dirReady dir n = true → readyClosed dir n = true
}.

Lemma dirReady_true dir n :
  rinv (reg dir n) →
  dirReady dir n = true ↔ ∃ id h, handles (reg dir n) !! id = Some h ∧ readyH n h = true.
Proof.
  intros Hr. unfold dirReady, Ready. rewrite anyReady_spec, negb_true_iff, bool_decide_eq_false. split.
  - intros Hne. destruct (omap (readyAt (readyH n) (reg dir n)) (Registry.order (reg dir n))) as [|h hs] eqn:E; [done|].
    assert (h ∈ h :: hs) as Hin by left. rewrite <- E in Hin. apply list_elem_of_omap in Hin as (id & _ & Hat).
    exists id, h. by apply readyAt_Some.
  - intros (id & h & Hh & Hrd) Hnil. assert (h ∈ omap (readyAt (readyH n) (reg dir n)) (Registry.order (reg dir n))) as Hin.
    { apply list_elem_of_omap. exists id. split; [|by apply readyAt_Some]. pose proof (rinv_installed _ Hr) as Hd.
      apply elem_of_dom_2, Hd in Hh. by apply elem_of_list_to_set in Hh. }
    rewrite Hnil in Hin. by apply elem_of_nil in Hin.
Qed.

Lemma plane_reg n n' dir : plane_kept n n' → reg dir n' = reg dir n.
Proof. intros (? & ? & _). by destruct dir. Qed.

Lemma plane_readyH n n' h : plane_kept n n' → readyH n' h = true → readyH n h = true.
Proof.
  intros (_ & _ & _ & _ & _ & _ & _ & Hh). unfold readyH. destruct (handlesT n' !! h) as [x'|] eqn:E; [|done].
  destruct (Hh h x' E) as (x & -> & _ & _ & _ & Hr). done.
Qed.

Lemma ninv_plane n n' : plane_kept n n' → ninv n → ninv n'.
Proof.
  intros Hp [H1 H2 H3 H4 H5]. pose proof Hp as (_ & _ & Eg & Eu & Ed & _ & El & Hh). constructor.
  - by rewrite Eg, El.
  - intros h x' Hx. destruct (Hh h x' Hx) as (x & Hx0 & -> & _). eauto.
  - intros dir id h. rewrite (plane_reg n n' dir Hp). intros Hi. destruct (H3 dir id h Hi) as (x & Hx & E1 & E2).
    destruct (handlesT n' !! h) as [x'|] eqn:E.
    + destruct (Hh h x' E) as (x0 & Hx0 & _ & F1 & F2 & _). exists x'. split_and!; [done|congruence..].
    + apply lookup_ge_None in E. apply lookup_lt_Some in Hx. lia.
  - intros dir. by rewrite (plane_reg n n' dir Hp).
  - intros dir Hd. assert (readyClosed dir n' = readyClosed dir n) as -> by (destruct dir; cbn; congruence).
    apply H5, dirReady_true; [done|]. apply dirReady_true in Hd as (id & h & Hi & Hr).
    + exists id, h. rewrite (plane_reg n n' dir Hp) in Hi. split; [done|]. by eapply plane_readyH.
    + by rewrite (plane_reg n n' dir Hp).
Qed.

Lemma reg_setReg dir dir' r n : reg dir' (setReg dir r n) = if bool_decide (dir' = dir) then r else reg dir' n.
Proof. by destruct dir, dir'. Qed.

Lemma ninv_clear dir h n b :
  ninv n → (b = true → readyClosed dir n = true) →
  (dirReady dir (setReg dir (ClearIf (idH n h) (Some h) (reg dir n)) n) = true → b = true) →
  ninv (setReadyClosed dir b (setReg dir (ClearIf (idH n h) (Some h) (reg dir n)) n)).
Proof.
  intros [H1 H2 H3 H4 H5] _ Hb. set (r := ClearIf (idH n h) (Some h) (reg dir n)) in *.
  assert (rinv r) as Hr by (apply (rstep_rinv (RClearIf (idH n h) (Some h))), H4).
  assert (∀ id h', handles r !! id = Some h' → handles (reg dir n) !! id = Some h') as Hsub.
  { intros id h'. unfold r, ClearIf. case_bool_decide; [|done]. cbn. by intros [_ ?]%lookup_delete_Some. }
  set (n' := setReadyClosed dir b (setReg dir r n)).
  assert (handlesT n' = handlesT n ∧ genSeq n' = genSeq n) as [Eh Eg] by (unfold n'; by destruct dir).
  assert (∀ dir', reg dir' n' = if bool_decide (dir' = dir) then r else reg dir' n) as Hreg by (intros; unfold n'; by destruct dir, dir').
  assert (∀ h', readyH n' h' = readyH n h') as Hrd by (intros; unfold readyH; by rewrite Eh).
  constructor; rewrite ?Eh, ?Eg; try done.
  - intros dir' id h'. rewrite Hreg. case_bool_decide as E; [subst dir'; intros ?%Hsub|]; by apply H3.
  - intros dir'. rewrite Hreg. by case_bool_decide.
  - intros dir' Hd. destruct (decide (dir' = dir)) as [->|Hne].
    + assert (readyClosed dir n' = b) as -> by (unfold n'; by destruct dir). apply Hb. revert Hd. unfold n'. by destruct dir.
    + assert (readyClosed dir' n' = readyClosed dir' n) as -> by (unfold n'; by destruct dir, dir').
      apply H5. revert Hd. unfold n'. by destruct dir, dir'.
Qed.

Lemma ninv_lose h n : ninv n → ninv (loseLocked (dirH n h) h n).
Proof.
  intros Hn. unfold loseLocked. set (n0 := n <| lostMap := _ |>).
  assert (ninv n0) as H0 by (eapply ninv_plane; [|exact Hn]; by apply plane_same).
  change (idH n h) with (idH n0 h). set (dir := dirH n h). set (r := ClearIf _ _ _).
  destruct (dirReady dir (setReg dir r n0)) eqn:E.
  - assert (readyClosed dir n0 = true) as Hc.
    { apply (ni_signal _ H0), dirReady_true; [apply H0|]. apply dirReady_true in E as (id & h' & Hi & Hr).
      - exists id, h'. rewrite reg_setReg, bool_decide_true in Hi by done. split; [|by destruct dir].
        unfold r, ClearIf in Hi. case_bool_decide; [|done]. cbn in Hi. by apply lookup_delete_Some in Hi as [_ ?].
      - rewrite reg_setReg, bool_decide_true by done. apply (rstep_rinv (RClearIf (idH n0 h) (Some h))), H0. }
    assert (setReg dir r n0 = setReadyClosed dir true (setReg dir r n0)) as ->.
    { unfold readyClosed in Hc. destruct dir; cbn in *; by rewrite Hc. }
    by apply ninv_clear.
  - apply ninv_clear; [done..|]. unfold r in E. congruence.
Qed.

Lemma ninv_install id dir c n : ninv n → ninv (snd (installLocked id dir c n)).
Proof.
  intros Hn. unfold installLocked. destruct (IsKnown id (reg dir n)) eqn:Ek; cbn [negb snd]; [|done].
  destruct Hn as [H1 H2 H3 H4 H5]. set (gen := wrapu 64 (genSeq n + 1)). set (h := length (handlesT n)).
  set (n1 := n <| genSeq := gen |> <| handlesT := _ |>). set (r := snd (AddHandle id (Some h) (reg dir n1))).
  set (n2 := setReadyClosed dir true _).
  assert (handlesT n2 = handlesT n ++ [mkHandle c gen id dir] ∧ genSeq n2 = gen) as [Eh Eg] by (unfold n2; by destruct dir).
  assert (reg dir n1 = reg dir n) as Er1 by (by destruct dir).
  assert (∀ dir', reg dir' n2 = if bool_decide (dir' = dir) then r else reg dir' n) as Hreg by (intros; unfold n2; by destruct dir, dir').
  assert (gen = wrapu 64 (Z.of_nat h + 1)) as Hgen.
  { unfold gen, h. rewrite H1. unfold wrapu. by rewrite Zplus_mod_idemp_l. }
  assert (rinv r) as Hr by (apply (rstep_rinv (RAdd id (Some h))); by rewrite Er1).
  assert (∀ id' h', handles r !! id' = Some h' → (id' = id ∧ h' = h) ∨ handles (reg dir n) !! id' = Some h') as Hr'.
  { intros id' h'. unfold r, AddHandle. rewrite Er1, Ek. cbn. destruct (decide (id' = id)) as [->|Hne].
    - rewrite lookup_insert_eq. intros [= <-]. by left.
    - rewrite lookup_insert_ne by done. by right. }
  constructor.
  - rewrite Eg, Eh, length_app, Hgen. cbn. f_equal. unfold h. lia.
  - intros h' x. rewrite Eh. intros [Hx|[Hlen Hx]]%lookup_app_Some; [by apply H2|].
    apply list_lookup_singleton_Some in Hx as [Hz <-]. cbn. rewrite Hgen. f_equal. unfold h. lia.
  - intros dir' id' h'. rewrite Hreg. rewrite Eh. case_bool_decide as Ed.
    + subst dir'. intros [[-> ->]|Hi]%Hr'.
      * exists (mkHandle c gen id dir). split; [|done]. apply list_lookup_middle. done.
      * destruct (H3 dir id' h' Hi) as (x & Hx & ? & ?). exists x. split; [by apply lookup_app_l_Some|done].
    + intros Hi. destruct (H3 dir' id' h' Hi) as (x & Hx & ? & ?). exists x. split; [by apply lookup_app_l_Some|done].
  - intros dir'. rewrite Hreg. by case_bool_decide.
  - intros dir' Hd. destruct (decide (dir' = dir)) as [->|Hne]; [unfold n2; by destruct dir|].
    assert (readyClosed dir' n2 = readyClosed dir' n) as -> by (unfold n2; by destruct dir, dir').
    apply H5, dirReady_true; [done|]. apply dirReady_true in Hd as (id' & h' & Hi & Hrd).
    + rewrite Hreg, bool_decide_false in Hi by done. exists id', h'. split; [done|].
      destruct (H3 dir' id' h' Hi) as (x & Hx & _ & _). unfold readyH in *. rewrite Eh in Hrd.
      rewrite (lookup_app_l_Some _ _ _ _ Hx) in Hrd. by rewrite Hx.
    + by rewrite Hreg, bool_decide_false.
Qed.

Lemma ninv_drop h n : ninv n → ninv (dropIfCurrent (dirH n h) h n).
Proof.
  intros Hn. unfold dropIfCurrent. set (dir := dirH n h). set (r := ClearIf _ _ _).
  assert (setReg dir r n = setReadyClosed dir (readyClosed dir n) (setReg dir r n)) as -> by (by destruct dir, n).
  apply ninv_clear; [done..|]. intros E. apply (ni_signal _ Hn), dirReady_true; [apply Hn|].
  apply dirReady_true in E as (id & h' & Hi & Hr).
  - exists id, h'. rewrite reg_setReg, bool_decide_true in Hi by done. split; [|by destruct dir].
    unfold ClearIf in Hi. case_bool_decide; [|done]. cbn in Hi. by apply lookup_delete_Some in Hi as [_ ?].
  - rewrite reg_setReg, bool_decide_true by done. apply (rstep_rinv (RClearIf (idH n h) (Some h))), Hn.
Qed.

Lemma ninv_step l n : ninv n → ninv (nstep l n).
Proof.
  intros Hn. destruct l; cbn [nstep];
    first [by apply ninv_install|by apply ninv_lose|by apply ninv_drop|eapply ninv_plane; [|exact Hn]].
  - by apply plane_same.
  - unfold onCarrierReady. destruct (n_role n); [apply plane_rebindLoop|plane].
  - unfold carrier_moves. destruct (handlesT n !! h) as [x|] eqn:E; [|plane].
    destruct (implb _ _) eqn:Ei; [|plane]. apply plane_setCarrier. intros y Hy. rewrite E in Hy. injection Hy as <-.
    intros Hc. by rewrite Hc in Ei.
  - unfold detachSession. plane.
  - destruct (n_role n); [apply plane_failover|plane].
  - plane.
  - apply plane_handleRebind.
  - apply plane_handleStreamReset.
  - unfold onGraceTimeout. plane.
  - apply plane_onSessionClosed.
  - apply plane_startSession.
  - apply plane_newStream.
  - apply plane_bootstrap.
  - apply plane_bootstrapAck.
Qed.

Lemma ninv_init role sids heap ids : ninv (NewNode role sids heap ids).
Proof.
  assert (∀ dir, handles (reg dir (NewNode (C := C) role sids heap ids)) = ∅) as He.
  { intros []; [done|]. cbn. unfold newDownRegistry. by destruct ids as [|? [|??]]. }
  constructor; try done.
  - intros dir id h. by rewrite He.
  - intros []; [apply newCarrierRegistry_rinv|apply newDownRegistry_rinv].
  - intros dir Hd. apply dirReady_true in Hd as (id & h & Hi & _); [by rewrite He in Hi|].
    destruct dir; [apply newCarrierRegistry_rinv|apply newDownRegistry_rinv].
Qed.

Lemma ninv_run ls n : ninv n → ninv (nrun ls n).
Proof. revert n. induction ls as [|l ls IH]; intros n Hn; [done|]. by apply IH, ninv_step. Qed.

Lemma ninv_reach role sids heap ids ls : ninv (nrun ls (NewNode role sids heap ids)).
Proof. apply ninv_run, ninv_init. Qed.

Lemma currentIfReady_Some dir n h :
  ninv n → currentIfReady dir n = Some h →
  dirReady dir n = true ∧ ∃ id x, handles (reg dir n) !! id = Some h ∧ id ∈ Registry.order (reg dir n) ∧ handlesT n !! h = Some x
    ∧ h_dir x = dir ∧ h_id x = id ∧ carrier_ready (h_carrier x) = true.
Proof.
  intros Hn Hc. unfold currentIfReady, Primary in Hc. rewrite firstReady_spec in Hc.
  destruct (omap (readyAt (readyH n) (reg dir n)) (Registry.order (reg dir n))) as [|h' hs] eqn:E; [done|]. injection Hc as ->.
  assert (h ∈ h :: hs) as Hin by left. rewrite <- E in Hin. apply list_elem_of_omap in Hin as (id & Hid & Hat).
  apply readyAt_Some in Hat as [Hi Hr]. split; [apply dirReady_true; [apply Hn|eauto]|].
  destruct (ni_installed _ Hn dir id h Hi) as (x & Hx & E1 & E2). exists id, x. split_and!; try done.
  unfold readyH in Hr. by rewrite Hx in Hr.
Qed.

(** a waiter never sleeps through a live carrier.  In every reachable state
    of a node the readiness signal of a direction is closed whenever a live
    carrier is installed, so a waiter that finds it open has nothing to miss;
    the carrier the bootstrap paths capture is installed under a known id of
    that direction and alive; an install closes the signal, and a loss sweep
    that leaves the direction without a live carrier opens it again. *)
Theorem node_ready_signal role sids heap ids ls dir :
  let n := nrun ls (NewNode role sids heap ids) in
  (∀ h, currentIfReady dir n = Some h →
     readyClosed dir n = true
     ∧ ∃ x, handlesT n !! h = Some x ∧ h_dir x = dir ∧ h_id x ∈ KnownIDs (reg dir n) ∧ carrier_ready (h_carrier x) = true)
  ∧ (∀ id c h old wasLost n', installLocked id dir c n = (Ok (h, old, wasLost), n') →
       readyClosed dir n' = true ∧ Handle id (reg dir n') = Some h)
  ∧ (∀ h, let n' := loseLocked dir h n in currentIfReady dir n' = None → readyClosed dir n' = false).
Proof.
  cbv zeta. set (n := nrun _ _). assert (ninv n) as Hn by apply ninv_reach. split_and!.
  - intros h Hc. destruct (currentIfReady_Some dir n h Hn Hc) as (Hd & id & x & Hi & Hid & Hx & E1 & E2 & Hr).
    split; [by apply (ni_signal _ Hn)|]. exists x. split_and!; try done. by rewrite E2.
  - intros id c h old wasLost n'. unfold installLocked. destruct (IsKnown id (reg dir n)) eqn:Ek; cbn [negb]; [|done].
    intros [= <- _ _ <-]. split; [by destruct dir|]. unfold Handle, AddHandle.
    destruct dir; cbn [reg setReg setReadyClosed] in *; cbn; cbn in Ek; rewrite Ek; cbn; by rewrite lookup_insert_eq.
  - intros h. unfold loseLocked. set (n1 := setReg dir _ _). destruct (dirReady dir n1) eqn:E; [|by destruct dir].
    unfold currentIfReady, Primary. unfold dirReady, Ready in E. rewrite anyReady_spec, negb_true_iff, bool_decide_eq_false in E.
    rewrite firstReady_spec. by destruct (omap _ _).
Qed.

(** ** Generations *)

Lemma findGen_Some g n hs h : findGen g n hs = Some h → Some h ∈ hs ∧ genH n h = g.
Proof.
  induction hs as [|[h'|] hs IH]; cbn; [done| |intros H; destruct (IH H); split; [by right|done]].
  destruct (genH n h' =? g) eqn:E; [intros [= <-]; apply Z.eqb_eq in E; split; [left|done]|].
  intros H. destruct (IH H). split; [by right|done].
Qed.

Lemma findGen_None g n hs h : findGen g n hs = None → Some h ∈ hs → genH n h ≠ g.
Proof.
  induction hs as [|[h'|] hs IH]; cbn; [by intros _ ?%elem_of_nil| |intros H [?|?]%elem_of_cons; [done|auto]].
  destruct (genH n h' =? g) eqn:E; [done|]. apply Z.eqb_neq in E. intros H [[= ->]|?]%elem_of_cons; auto.
Qed.

Lemma elem_of_Handles r h : rinv r → Some h ∈ Handles r ↔ ∃ id, handles r !! id = Some h.
Proof.
  intros Hr. unfold Handles. rewrite list_elem_of_fmap. split; [intros (id & E & _); by exists id|].
  intros [id Hi]. exists id. split; [done|]. pose proof (rinv_installed _ Hr) as Hd. pose proof Hi as Hi'.
  apply elem_of_dom_2, Hd in Hi'. by apply elem_of_list_to_set in Hi'.
Qed.

(** Below 2^64 - 1 installs every handle has a generation of its own. *)
Lemma gens_distinct n (h h' : href) x x' :
  ninv n → Z.of_nat (length (handlesT n)) < 2 ^ 64 - 1 →
  handlesT n !! h = Some x → handlesT n !! h' = Some x' → h_gen x = h_gen x' → h = h'.
Proof.
  intros Hn Hl Hx Hx' E. rewrite (ni_gens _ Hn h x Hx), (ni_gens _ Hn h' x' Hx') in E.
  apply lookup_lt_Some in Hx, Hx'. rewrite !wrapu_id in E by (unfold in_u; lia). lia.
Qed.

(** C18: a generation names one carrier.  As long as a node has made fewer than
    2^64 - 1 carriers, looking up a non-zero generation finds exactly the
    installed carrier that has it, whatever its direction. *)
Theorem generation_names_one_carrier role sids heap ids ls g h :
  let n := nrun ls (NewNode role sids heap ids) in
  Z.of_nat (length (handlesT n)) < 2 ^ 64 - 1 →
  handleForGen g n = Some h ↔ g ≠ 0 ∧ genH n h = g ∧ ∃ dir id, Handle id (reg dir n) = Some h.
Proof.
  cbv zeta. set (n := nrun _ _). intros Hl. assert (ninv n) as Hn by apply ninv_reach.
  assert (∀ dir h, Some h ∈ Handles (reg dir n) ↔ ∃ id, handles (reg dir n) !! id = Some h) as Hin
    by (intros; apply elem_of_Handles, Hn).
  assert (∀ dir id h, handles (reg dir n) !! id = Some h → ∃ x, handlesT n !! h = Some x ∧ h_gen x = genH n h) as Hval.
  { intros dir id h0 Hi. destruct (ni_installed _ Hn dir id h0 Hi) as (x & Hx & _). exists x. split; [done|].
    unfold genH. by rewrite Hx. }
  assert (∀ dir id dir' id' h h', handles (reg dir n) !! id = Some h → handles (reg dir' n) !! id' = Some h' →
            genH n h = genH n h' → h = h') as Huniq.
  { intros dir id dir' id' h1 h2 H1 H2 E. destruct (Hval _ _ _ H1) as (x & Hx & Ex), (Hval _ _ _ H2) as (x' & Hx' & Ex').
    apply (gens_distinct n h1 h2 x x' Hn Hl Hx Hx'). congruence. }
  unfold handleForGen, Handle. destruct (g =? 0) eqn:Eg; [apply Z.eqb_eq in Eg; split; [done|by intros [? _]]|].
  apply Z.eqb_neq in Eg. split.
  - intros H. split; [done|]. destruct (findGen g n (Handles (upReg n))) as [h0|] eqn:Eu.
    + injection H as <-. apply findGen_Some in Eu as [Hi E]. split; [done|]. exists DirUp. by apply (Hin DirUp).
    + apply findGen_Some in H as [Hi E]. split; [done|]. exists DirDown. by apply (Hin DirDown).
  - intros (_ & E & dir & id & Hi). assert (Some h ∈ Handles (reg dir n)) as Hmem by (apply Hin; eauto).
    destruct (findGen g n (Handles (upReg n))) as [h0|] eqn:Eu.
    + apply findGen_Some in Eu as [Hi0 E0]. apply (Hin DirUp) in Hi0 as [id0 Hi0]. f_equal.
      eapply Huniq; [exact Hi0|exact Hi|congruence].
    + destruct dir; [by destruct (findGen_None _ _ _ _ Eu Hmem)|].
      destruct (findGen g n (Handles (downReg n))) as [h0|] eqn:Ed; [|by destruct (findGen_None _ _ _ _ Ed Hmem)].
      apply findGen_Some in Ed as [Hi0 E0]. apply (Hin DirDown) in Hi0 as [id0 Hi0]. f_equal.
      eapply Huniq; [exact Hi0|exact Hi|congruence].
Qed.
End safety.
