(* ===== verification/NodeSessions.v ===== *)
(** * What carrier losses, rebinds and resets do to the sessions

    The node's sweeps and control-frame handlers, session by session: which
    attachments a carrier loss detaches, which sessions a rebind sweep moves and
    in which state it leaves the others, what a peer's rebind or reset changes.
    The last section runs the node on concrete carriers and shows behaviours the
    comments of the source exclude. *)
From S2P Require Export NodeSafety.
From S2P Require Import CarrierOps Relay.
#[local] Open Scope Z_scope.

Section sessions.
Context {C : Type} `{!CarrierOps C, !CarrierLaws C}.
Implicit Types n : Node (C := C).

(** ** One session operation *)

Definition other (dir : Direction) : Direction := match dir with DirUp => DirDown | DirDown => DirUp end.

(** What a session shows besides one direction's attachment. *)
Definition rest_kept (dir : Direction) (s s' : Session) : Prop :=
  sstate s' = sstate s ∧ Att (other dir) s' = Att (other dir) s ∧ DirClosed DirUp s' = DirClosed DirUp s
  ∧ DirClosed DirDown s' = DirClosed DirDown s ∧ reason s' = reason s
  ∧ StreamIDUp s' = StreamIDUp s ∧ StreamIDDown s' = StreamIDDown s.

Lemma rest_kept_refl dir s : rest_kept dir s s.
Proof. by split_and!. Qed.

Lemma rest_kept_trans dir s1 s2 s3 : rest_kept dir s1 s2 → rest_kept dir s2 s3 → rest_kept dir s1 s3.
Proof. intros (?&?&?&?&?&?&?) (?&?&?&?&?&?&?). split_and!; congruence. Qed.

Lemma satt_spec dir op s :
  Att dir (sstep (SAtt dir op) s) = (λ a, snd (astep op a)) <$> Att dir s ∧ rest_kept dir s (sstep (SAtt dir op) s).
Proof. by destruct dir. Qed.

Lemma heap_onSession r op n r' :
  heap (onSession r op n) r' = if bool_decide (r' = r) then sstep op (heap n r') else heap n r'.
Proof. done. Qed.

Lemma heap_onSession_same r op n : heap (onSession r op n) r = sstep op (heap n r).
Proof. by rewrite heap_onSession, bool_decide_true. Qed.

Lemma heap_onSession_other r op n r' : r' ≠ r → heap (onSession r op n) r' = heap n r'.
Proof. intros. by rewrite heap_onSession, bool_decide_false. Qed.

(** Only session [r]'s attachment of [dir] may differ, and it is [a']. *)
Definition att_moved (dir : Direction) (r : ref) (a' : option Attachment) n n' : Prop :=
  Att dir (heap n' r) = a' ∧ rest_kept dir (heap n r) (heap n' r) ∧ ∀ r', r' ≠ r → heap n' r' = heap n r'.

Lemma att_moved_refl dir r n : att_moved dir r (Att dir (heap n r)) n n.
Proof. split_and!; [done|apply rest_kept_refl|done]. Qed.

Lemma att_moved_same dir r a n n' n'' : att_moved dir r a n n' → heap n'' = heap n' → att_moved dir r a n n''.
Proof. unfold att_moved. by intros H ->. Qed.

Lemma att_moved_step dir r op a n n' :
  att_moved dir r (Some a) n n' → att_moved dir r (Some (snd (astep op a))) n (onSession r (SAtt dir op) n').
Proof.
  intros (H1 & H2 & H3). destruct (satt_spec dir op (heap n' r)) as [E1 E2]. split_and!.
  - by rewrite heap_onSession_same, E1, H1.
  - rewrite heap_onSession_same. by eapply rest_kept_trans.
  - intros r' Hne. rewrite heap_onSession_other by done. auto.
Qed.

(** ** Carrier loss *)

Lemma detach_idem g a : snd (Detach g (snd (Detach g a))) = snd (Detach g a).
Proof.
  unfold Detach at 2 3. destruct (negb (bool_decide (state a = AttAttached)) || negb (gen a =? g)) eqn:E.
  - cbn [snd]. unfold Detach. by rewrite E.
  - cbn [snd]. unfold startTimerLocked, freshReady. cbn. destruct (timer a); cbn; unfold Detach; cbn; done.
Qed.

Lemma detachSweep_spec dir g rs n r :
  let n' := foldl (detachSession dir g) n rs in
  rest_kept dir (heap n r) (heap n' r)
  ∧ Att dir (heap n' r) = (if bool_decide (r ∈ rs) then (λ a, snd (Detach g a)) <$> Att dir (heap n r) else Att dir (heap n r)).
Proof.
  revert n. induction rs as [|r0 rs IH]; intros n; cbn [foldl].
  { split; [apply rest_kept_refl|]. rewrite bool_decide_false; [done|]. apply not_elem_of_nil. }
  destruct (IH (detachSession dir g n r0)) as [I1 I2]. unfold detachSession in *.
  destruct (satt_spec dir (ADetach g) (heap n r)) as [S1 S2].
  destruct (decide (r = r0)) as [->|Hne].
  - rewrite heap_onSession_same in I1, I2. split; [by eapply rest_kept_trans|]. rewrite I2, S1.
    rewrite (bool_decide_true (r0 ∈ r0 :: rs)) by left. destruct (Att dir (heap n r0)); [|by case_bool_decide].
    case_bool_decide; cbn; [by rewrite detach_idem|done].
  - rewrite heap_onSession_other in I1, I2 by done. split; [done|]. rewrite I2.
    assert (bool_decide (r ∈ r0 :: rs) = bool_decide (r ∈ rs)) as -> by (apply bool_decide_ext; rewrite elem_of_cons; naive_solver).
    done.
Qed.

(** C17: a carrier loss touches only the sessions pinned to that carrier.  In a
    reachable node, when carrier [h] is lost, every indexed session attached to
    it in that direction becomes Unavailable with generation 0 and a running
    grace timer; a session attached to another carrier, in any other state, or
    not indexed keeps its attachment; and no session's state, close reason,
    half-closes or other direction change. *)
Theorem loss_sweep_exact role sids heap0 ids ls h x r :
  let n := nrun ls (NewNode role sids heap0 ids) in
  Z.of_nat (length (handlesT n)) < 2 ^ 64 - 1 → handlesT n !! h = Some x →
  let dir := h_dir x in
  let n' := detachSweep dir (h_gen x) n in
  rest_kept dir (heap n r) (heap n' r)
  ∧ (∀ a, Att dir (heap n r) = Some a → ainv a →
      if bool_decide (r ∈ Snapshot (store n) ∧ state a = AttAttached ∧ gen a = h_gen x)
      then ∃ a', Att dir (heap n' r) = Some a' ∧ state a' = AttUnavailable ∧ gen a' = 0
             ∧ (∃ t, timer a' = Some t ∧ t ∈ armed a') ∧ lastRebindGen a' = lastRebindGen a
      else Att dir (heap n' r) = Some a)
  ∧ (∀ a (h' : href) x', Att dir (heap n r) = Some a → state a = AttAttached → handlesT n !! h' = Some x' →
       gen a = h_gen x' → h' ≠ h → Att dir (heap n' r) = Some a).
Proof.
  cbv zeta. set (n := nrun _ _). intros Hl Hx. assert (ninv n) as Hn by apply ninv_reach.
  destruct (detachSweep_spec (h_dir x) (h_gen x) (Snapshot (store n)) n r) as [H1 H2]. fold (detachSweep (h_dir x) (h_gen x) n) in H1, H2.
  split_and!; [done|..].
  - intros a Ha Hinv. destruct (decide (r ∈ Snapshot (store n) ∧ state a = AttAttached ∧ gen a = h_gen x)) as [Hc|Hc];
      [rewrite (bool_decide_true (_ ∧ _)) by done|rewrite (bool_decide_false (_ ∧ _)) by done]; rewrite H2, Ha.
    + destruct Hc as (Hin & Hs & Hg). rewrite bool_decide_true by done. eexists. split; [reflexivity|].
      unfold Detach. rewrite bool_decide_true by done. rewrite (proj2 (Z.eqb_eq _ _) Hg). cbn [negb orb fst snd].
      unfold startTimerLocked, freshReady. cbn. rewrite (ai_timer a Hinv) by auto. cbn.
      split_and!; try done. exists (nextTimer a). split; [done|]. set_solver.
    + destruct (bool_decide (r ∈ Snapshot (store n))) eqn:Ein; [|done]. apply bool_decide_eq_true in Ein.
      change (Some (snd (Detach (h_gen x) a)) = Some a). unfold Detach.
      destruct (bool_decide (state a = AttAttached)) eqn:Es; [|done]. apply bool_decide_eq_true in Es.
      destruct (gen a =? h_gen x) eqn:Eg; [|done]. apply Z.eqb_eq in Eg. by destruct Hc.
  - intros a h' x' Ha Hs Hx' Hg Hne. rewrite H2, Ha. destruct (bool_decide (r ∈ _)); [|done].
    change (Some (snd (Detach (h_gen x) a)) = Some a). unfold Detach. rewrite bool_decide_true by done. destruct (gen a =? h_gen x) eqn:Eg; [|done]. apply Z.eqb_eq in Eg.
    destruct Hne. apply (gens_distinct n h' h x' x Hn Hl Hx' Hx). congruence.
Qed.

(** ** Iran's rebind sweep *)

Lemma setCarrier_heap h f n : heap (setCarrier h f n) = heap n ∧ sentFrames (setCarrier h f n) = sentFrames n.
Proof. done. Qed.

Lemma setCarrier_lookup (h : href) f n x :
  handlesT n !! h = Some x →
  handlesT (setCarrier h f n) !! h = Some (mkHandle (f (h_carrier x)) (h_gen x) (h_id x) (h_dir x)).
Proof. intros Hx. cbn. rewrite list_lookup_alter_eq, Hx. done. Qed.

Lemma genH_setCarrier h f n h' : genH (setCarrier h f n) h' = genH n h'.
Proof.
  unfold genH, setCarrier. cbn. destruct (decide (h' = h)) as [->|Hne].
  - rewrite list_lookup_alter_eq. by destruct (handlesT n !! h).
  - by rewrite list_lookup_alter_ne.
Qed.

Lemma encodeRebind_setCarrier sid h h' f n : encodeRebind sid h (setCarrier h' f n) = encodeRebind sid h n.
Proof.
  unfold encodeRebind, multiDown. rewrite genH_setCarrier.
  assert (idH (setCarrier h' f n) h = idH n h) as ->; [|done].
  unfold idH, setCarrier. cbn. destruct (decide (h = h')) as [->|Hne].
  - rewrite list_lookup_alter_eq. by destruct (handlesT n !! h').
  - by rewrite list_lookup_alter_ne.
Qed.

(** What a rebind attempt leaves of an attachment it has claimed. *)
Definition rebound (ok : bool) (g : Z) (a a' : Attachment) : Prop :=
  if ok then state a' = AttAttached ∧ gen a' = g ∧ lastRebindGen a' = g ∧ timer a' = None
  else state a' = AttUnavailable ∧ gen a' = gen a ∧ lastRebindGen a' = lastRebindGen a ∧ timer a' = timer a ∧ armed a' = armed a.

Lemma rebindClaimed_spec dir h o r n (x : carrierHandle) a b n' :
  handlesT n !! h = Some x → Att dir (heap n r) = Some a → state a = AttRebinding → o ≠ ClosedMeanwhile →
  rebindClaimed dir h o r n = (b, n') →
  let id := streamIDOf (heap n r) dir in
  b = (fst (carrier_register id (h_carrier x)) && bool_decide (o = WriteOK))
  ∧ (∃ a', att_moved dir r (Some a') n n' ∧ rebound b (h_gen x) a a')
  ∧ store n' = store n
  ∧ sentFrames n' = sentFrames n ++ (if b then [mkSent h id FrameRebind (encodeRebind (sids n r) h n)] else [])
  ∧ (∃ x', handlesT n' !! h = Some x' ∧ h_gen x' = h_gen x
           ∧ (b = true → carrier_has id (h_carrier x') = true)
           ∧ (b = false → carrier_has id (h_carrier x') = true → fst (carrier_register id (h_carrier x)) = false)).
Proof.
  intros Hx Ha Hs Ho. cbv zeta. unfold rebindClaimed. rewrite Hx. set (id := streamIDOf (heap n r) dir).
  destruct (carrier_register id (h_carrier x)) as [ok c'] eqn:Ereg. cbn [fst].
  assert (∀ m, heap m = heap n → ∃ a', att_moved dir r (Some a') n (failRebind r dir m) ∧ rebound false (h_gen x) a a') as Hfail.
  { intros m Hm. eexists. split; [eapply att_moved_same; [|reflexivity]; eapply (att_moved_step dir r AFailRebind a);
      eapply att_moved_same; [rewrite <- Ha; apply att_moved_refl|done]|].
    unfold rebound. cbn [astep]. unfold FailRebind. by rewrite Hs. }
  destruct ok; cbn [negb andb].
  2:{ intros [= <- <-]. destruct (Hfail (setCarrier h (λ _, c') n) eq_refl) as (a' & H1 & H2). split_and!; [done|by exists a'|done|..].
      - cbn. by rewrite app_nil_r.
      - eexists. split; [exact (setCarrier_lookup h (λ _, c') n x Hx)|]. by split_and!. }
  case_bool_decide as Ew.
  { intros [= <- <-]. rewrite bool_decide_false by (subst o; done).
    destruct (Hfail (setCarrier h (carrier_deregister id) (setCarrier h (λ _, c') n)) eq_refl) as (a' & H1 & H2).
    split_and!; [done|by exists a'|done|..].
    - cbn. by rewrite app_nil_r.
    - eexists. split; [exact (setCarrier_lookup h (carrier_deregister id) _ _ (setCarrier_lookup h (λ _, c') n x Hx))|].
      split_and!; [done|done|]. cbn. intros _. by rewrite deregister_gone. }
  rewrite (bool_decide_false (o = ClosedMeanwhile)) by done. rewrite (bool_decide_true (o = WriteOK)) by (by destruct o).
  set (n1 := send _ _ _ _ _). change (heap n1 r) with (heap n r). rewrite Ha.
  assert (genH n1 h = h_gen x) as Eg.
  { change (genH n1 h) with (genH (setCarrier h (λ _, c') n) h). rewrite genH_setCarrier. unfold genH. by rewrite Hx. }
  rewrite Eg. assert (fst (Attach (h_gen x) a) = true) as Hatt by (unfold Attach; by rewrite Hs). rewrite Hatt. cbn [negb].
  intros [= <- <-]. apply register_ok in Ereg as [Hhas _]. split_and!; [done|..].
  - eexists. split.
    + eapply att_moved_same; [|reflexivity]. eapply (att_moved_step dir r (ASetLastRebindGen _)), (att_moved_step dir r (AAttach _)).
      eapply att_moved_same; [rewrite <- Ha; apply att_moved_refl|done].
    + unfold rebound. cbn [astep]. unfold Attach. rewrite Hs.
      unfold closeReady, stopTimer. cbn [fst snd]. destruct (timer a) eqn:Et; cbn; destruct (Attachment.readyClosed a); cbn; by rewrite ?Et.
  - done.
  - change (sentFrames n ++ [mkSent h id FrameRebind (encodeRebind (sids n r) h (setCarrier h (λ _, c') n))]
      = sentFrames n ++ [mkSent h id FrameRebind (encodeRebind (sids n r) h n)]). by rewrite encodeRebind_setCarrier.
  - eexists. split; [exact (setCarrier_lookup h (λ _, c') n x Hx)|]. by split_and!.
Qed.

(** The attachment a rebind attempt starts from. *)
Definition claimed (g : Z) (a : Attachment) : Attachment :=
  snd (BeginRebind (match state a with AttAttached => snd (Detach (gen a) a) | _ => a end)).

Definition rebindable (g : Z) (a : Attachment) : bool :=
  match state a with AttUnavailable => true | AttAttached => negb (gen a =? g) | _ => false end.

Definition sweepable (dir : Direction) (g : Z) (s : Session) (a : Attachment) : bool :=
  bool_decide (sstate s = StateActive) && negb (DirClosed dir s) && rebindable g a.

Lemma claimed_rebinding g a : ainv a → rebindable g a = true →
  state (claimed g a) = AttRebinding ∧ gen (claimed g a) = 0 ∧ lastRebindGen (claimed g a) = lastRebindGen a
  ∧ (state a = AttUnavailable → timer (claimed g a) = timer a ∧ armed (claimed g a) = armed a)
  ∧ (state a = AttAttached → ∃ t, timer (claimed g a) = Some t ∧ t ∈ armed (claimed g a)).
Proof.
  intros Ha. unfold rebindable, claimed. destruct (state a) eqn:Es; try done; intros _.
  - unfold BeginRebind. rewrite Es. cbn. split_and!; try done. apply (ai_gen a Ha). by rewrite Es.
  - unfold Detach. rewrite Es, bool_decide_true, Z.eqb_refl by done. cbn [negb orb snd].
    unfold startTimerLocked, freshReady. cbn. rewrite (ai_timer a Ha) by auto. cbn. split_and!; try done.
    intros _. exists (nextTimer a). split; [done|set_solver].
Qed.


(** ** The peer's rebind (Germany) *)

Lemma dropRebind_refused x h id gen n res n' :
  dropRebind x h id gen n = (res, n') → res = Some x ∧ store n' = store n ∧ heap n' = heap n.
Proof. unfold dropRebind. intros [= <- <-]. by destruct (refusalReset x =? 0). Qed.

Definition accepted_by (dir : Direction) (h : href) (p : list byte) (r : ref) (a : Attachment) (rb : Rebind) n : Prop :=
  ParseRebindAny p = Some rb
  ∧ (rb_Version rb = RebindVersionV2 → rb_CarrierID rb = idH n h)
  ∧ sstate (heap n r) = StateActive ∧ DirClosed dir (heap n r) = false ∧ Att dir (heap n r) = Some a
  ∧ lastRebindGen a < rb_Gen rb ∧ state a ≠ AttClosed.

(** The session of stream [id] has been attached to [h]. *)
Definition rebind_took (dir : Direction) (h : href) (id : Z) (p : list byte) n n' : Prop :=
  ∃ r a rb, GetByStream id (store n) = Some r ∧ accepted_by dir h p r a rb n
    ∧ rest_kept dir (heap n r) (heap n' r) ∧ (∀ r', r' ≠ r → heap n' r' = heap n r')
    ∧ ∃ a', Att dir (heap n' r) = Some a' ∧ state a' = AttAttached ∧ gen a' = genH n h ∧ lastRebindGen a' = rb_Gen rb.

(** A payload whose generation is not newer than the last one accepted. *)
Lemma handleRebind_replay dir h id p rb n r a :
  ParseRebindAny p = Some rb → GetByStream id (store n) = Some r → Att dir (heap n r) = Some a → rb_Gen rb ≤ lastRebindGen a →
  fst (handleRebind dir h id (Some p) false n) ≠ None.
Proof.
  intros Hp Hr Ha Hg. unfold handleRebind. rewrite Hp. destruct (_ && _); [done|]. rewrite Hr.
  destruct (negb (bool_decide (sstate (heap n r) = StateActive))); [done|]. destruct (DirClosed dir (heap n r)); [done|].
  rewrite Ha. unfold LastRebindGen. by rewrite (proj2 (Z.leb_le _ _) Hg).
Qed.

Lemma attachRebind_took dir h id gn r a0 n m res n' :
  att_moved dir r (Some a0) n m → store m = store n → handlesT m = handlesT n → state a0 = AttUnavailable ∨ state a0 = AttRebinding →
  attachRebind dir h id gn false r m = (res, n') →
  res = None ∧ store n' = store n ∧ rest_kept dir (heap n r) (heap n' r) ∧ (∀ r', r' ≠ r → heap n' r' = heap n r')
  ∧ ∃ a', Att dir (heap n' r) = Some a' ∧ state a' = AttAttached ∧ gen a' = genH n h ∧ lastRebindGen a' = gn.
Proof.
  intros Hm Hst Hh Hs0 E. unfold attachRebind in E.
  pose proof (att_moved_step dir r (ASetLastRebindGen gn) a0 n m Hm) as Hm1. set (m1 := onSession r _ m) in *.
  assert (genH m1 h = genH n h) as Egen by (change (genH m1 h) with (genH m h); unfold genH; by rewrite Hh).
  pose proof Hm1 as (Hm1a & _). rewrite Hm1a, Egen in E. cbn [astep snd] in E.
  assert (fst (Attach (genH n h) (SetLastRebindGen gn a0)) = true) as Hok by (unfold Attach; cbn; destruct Hs0 as [-> | ->]; done).
  rewrite Hok in E. cbn [negb] in E. injection E as <- <-.
  destruct (att_moved_step dir r (AAttach (genH n h)) _ n m1 Hm1) as (F1 & F2 & F3). split_and!; try done.
  eexists. split; [exact F1|]. cbn [astep]. unfold Attach. cbn. unfold closeReady, stopTimer.
  destruct Hs0 as [-> | ->]; cbn; destruct (timer a0); cbn; destruct (Attachment.readyClosed a0); done.
Qed.

Lemma handleRebind_took dir h id p n res n' :
  handleRebind dir h id (Some p) false n = (res, n') →
  store n' = store n ∧ match res with Some _ => heap n' = heap n | None => rebind_took dir h id p n n' end.
Proof.
  assert (∀ x g, dropRebind x h id g n = (res, n') →
    store n' = store n ∧ match res with Some _ => heap n' = heap n | None => rebind_took dir h id p n n' end) as Hd
    by (intros x g E; by apply dropRebind_refused in E as (-> & ? & ?)).
  unfold handleRebind. destruct (ParseRebindAny p) as [rb|] eqn:Ep; [|apply Hd].
  destruct ((rb_Version rb =? RebindVersionV2) && negb (streqb (rb_CarrierID rb) (idH n h))) eqn:Ev; [apply Hd|].
  destruct (GetByStream id (store n)) as [r|] eqn:Er; [|apply Hd].
  case_bool_decide as Hact; cbn [negb]; [|apply Hd]. destruct (DirClosed dir (heap n r)) eqn:Edc; [apply Hd|].
  destruct (Att dir (heap n r)) as [a|] eqn:Ea; [|apply Hd]. destruct (rb_Gen rb <=? LastRebindGen a) eqn:Eg; [apply Hd|].
  apply Z.leb_gt in Eg. unfold State.
  assert (∀ a0 m, state a ≠ AttClosed → att_moved dir r (Some a0) n m → store m = store n → handlesT m = handlesT n →
    state a0 = AttUnavailable ∨ state a0 = AttRebinding → attachRebind dir h id (rb_Gen rb) false r m = (res, n') →
    store n' = store n ∧ match res with Some _ => heap n' = heap n | None => rebind_took dir h id p n n' end) as Hatt.
  { intros a0 m Hnc H1 H2 H3 H4 E. eapply attachRebind_took in E as (-> & E1 & E2 & E3 & a' & E4); [|done..].
    split; [done|]. exists r, a, rb. split_and!; try done; [|by exists a'].
    split_and!; try done. intros Hv. apply andb_false_iff in Ev as [Ev|Ev]; [by apply Z.eqb_neq in Ev|].
    apply negb_false_iff in Ev. by apply bool_decide_eq_true in Ev. }
  pose proof (att_moved_refl dir r n) as H0. rewrite Ea in H0. destruct (state a) eqn:Es.
  - by eapply Hatt; [done|exact H0|..]; auto.
  - by eapply Hatt; [done|exact H0|..]; auto.
  - destruct (gen a =? rb_Gen rb); [apply Hd|]. eapply Hatt; [done|exact (att_moved_step dir r (ADetach (gen a)) a n n H0)|done|done|].
    left. cbn [astep]. unfold Detach. rewrite bool_decide_true, Z.eqb_refl by done. cbn. unfold startTimerLocked, freshReady. cbn.
    by destruct (timer a).
  - apply Hd.
Qed.


(** ** The peer's reset *)

(** a reset ends exactly the stream's session, unless it is stale.  It is
    ignored when no Active session has the stream, or when the session has
    meanwhile rebound past the generation the reset answers; otherwise that
    session starts closing with the reset's reason, and no other session
    changes. *)
Theorem stream_reset_exact dir id rsn g n :
  store (handleStreamReset dir id rsn g n) = store n
  ∧ let n' := handleStreamReset dir id rsn g n in
    match GetByStream id (store n) with
    | None => heap n' = heap n
    | Some r =>
        (∀ r', r' ≠ r → heap n' r' = heap n r')
        ∧ let stale := ∃ a, Att dir (heap n r) = Some a ∧ 0 < g < lastRebindGen a in
          (sstate (heap n r) ≠ StateActive ∨ stale → heap n' = heap n)
          ∧ (sstate (heap n r) = StateActive → ¬ stale →
               sstate (heap n' r) = StateClosing
               ∧ (reason (heap n r) = [] → reason (heap n' r) = lit "peer reset (" ++ resetReasonName rsn ++ lit ")"))
    end.
Proof.
  cbv zeta. unfold handleStreamReset. change (store (note ResetReceived n)) with (store n).
  destruct (GetByStream id (store n)) as [r|]; [|done]. change (heap (note ResetReceived n)) with (heap n).
  case_bool_decide as Hact; cbn [negb]; [|split_and!; done].
  set (b := match Att dir (heap n r) with Some _ => _ | None => _ end).
  assert (b = true ↔ ∃ a, Att dir (heap n r) = Some a ∧ 0 < g < lastRebindGen a) as Hb.
  { unfold b, LastRebindGen. destruct (Att dir (heap n r)) as [a|].
    - rewrite andb_true_iff, !Z.ltb_lt. split; [intros ?; by exists a|by intros (? & [= <-] & ?)].
    - split; [done|by intros (? & ? & _)]. }
  destruct b.
  - split_and!; try done. intros _ Hns. by destruct Hns; apply Hb.
  - split_and!; try done.
    + intros r' Hne. by rewrite heap_onSession_other.
    + intros [?|?%Hb]; done.
    + rewrite heap_onSession_same. change (heap (note ResetReceived n)) with (heap n). cbn [sstep]. unfold Close. rewrite Hact.
      split; [by destruct (reason (heap n r)) eqn:E; unfold setReason; cbn; rewrite E|].
      intros E. unfold setReason. cbn. by rewrite E.
Qed.

(** ** The end of a session *)

(** When a session's hooks run its attachments are closed and name no carrier:
    the hook's lookup of the session's down carrier finds generation 0, and no
    stream outcome ever reaches the carrier-health policy. *)
Lemma closed_session_names_no_carrier s a rest :
  sinv s → td s = TdHooks rest → DownAtt s = Some a → ainv a → downCarrierGenForSession s = 0.
Proof.
  intros Hs Ht Ha Hinv. pose proof (si_down s Hs) as Hd. rewrite Ht, Ha in Hd. cbn in Hd.
  unfold downCarrierGenForSession. rewrite Ha. cbn. apply (ai_gen a Hinv). rewrite Hd; [done|lia].
Qed.

Lemma stream_outcome_never_recorded r n a rest :
  sinv (heap n r) → td (heap n r) = TdHooks rest → DownAtt (heap n r) = Some a → ainv a →
  n_events (onSessionClosed r n) = n_events n.
Proof.
  intros Hs Ht Ha Hinv. unfold onSessionClosed.
  assert (∀ dir id m, heap (deregisterAll dir id m) = heap m ∧ n_events (deregisterAll dir id m) = n_events m) as Hd.
  { intros dir id m. unfold deregisterAll. destruct (id =? 0); [done|]. generalize (Handles (reg dir m)) as hs. intros hs.
    revert m. induction hs as [|[h|] hs IH]; intros m; cbn [foldl]; [done| |apply IH].
    destruct (IH (setCarrier h (carrier_deregister id) m)) as [E1 E2]. by rewrite E1, E2. }
  set (n1 := deregisterAll DirDown _ _). assert (heap n1 = heap n ∧ n_events n1 = n_events n) as [E1 E2].
  { unfold n1. destruct (Hd DirDown (StreamIDDown (heap (deregisterAll DirUp (StreamIDUp (heap n r)) n) r))
      (deregisterAll DirUp (StreamIDUp (heap n r)) n)) as [F1 F2]. rewrite F1, F2. apply Hd. }
  cbn [heap setter expand]. rewrite E1, (closed_session_names_no_carrier _ a rest Hs Ht Ha Hinv), andb_false_r. done.
Qed.
End sessions.

(** ** Concrete nodes *)

Definition carrier0 : Carrier.CarrierConn := Carrier.newCarrierConn Carrier.DefaultStreamLimits true.
Definition session0 : Session := NewSession None None (Some NewAttachment) (Some NewAttachment) 0 0.
Definition sid0 (r : ref) : list byte := replicate 16 (zb (Z.of_nat r + 1)).
Definition both_down : list CarrierID := [DefaultDownCarrierID; SecondDownCarrierID].
Definition all_ok (_ : nat) : outcome := WriteOK.

(** Handle 0 is the up carrier, 1 the first and 2 the second down carrier. *)
Definition one_session : list (nlabel (C := Carrier.CarrierConn)) :=
  [NInstall DefaultUpCarrierID DirUp carrier0; NInstall DefaultDownCarrierID DirDown carrier0;
   NStart 0%nat 0%nat 1%nat true true (Some [x01])].

Abbreviation iran ls := (nrun ls (NewNode RoleIran sid0 (λ _, session0) both_down)) (only parsing).
Abbreviation iran1 := (iran one_session) (only parsing).

Lemma iran1_installs : Z.of_nat (length (handlesT iran1)) < 2 ^ 64 - 1.
Proof. vm_compute. reflexivity. Defined.

Definition down_att (n : Node (C := Carrier.CarrierConn)) (r : ref) : option (AttachmentState * Z) := State <$> DownAtt (heap n r).

Lemma generation_names_one_carrier_witness :
  handleForGen 2 iran1 = Some 1%nat ↔ 2 ≠ 0 ∧ genH iran1 1%nat = 2 ∧ ∃ dir id, Handle id (reg dir iran1) = Some 1%nat.
Proof.
  exact (generation_names_one_carrier RoleIran sid0 (λ _, session0) both_down one_session 2 1%nat iran1_installs).
Defined.

Lemma ainv_attached g : ainv (snd (Attach g NewAttachment)).
Proof. apply ainv_Attach, ainv_new. Qed.

Lemma iran1_current : currentIfReady DirDown iran1 = Some 1%nat.
Proof. vm_compute. reflexivity. Defined.

Lemma node_ready_signal_witness :
  readyClosed DirDown iran1 = true
  ∧ ∃ x, handlesT iran1 !! 1%nat = Some x ∧ h_dir x = DirDown ∧ h_id x ∈ KnownIDs (reg DirDown iran1)
         ∧ carrier_ready (h_carrier x) = true.
Proof.
  exact (proj1 (node_ready_signal RoleIran sid0 (λ _, session0) both_down one_session DirDown) 1%nat iran1_current).
Defined.

(** The first down carrier of that node. *)
Definition first_down : carrierHandle :=
  default (mkHandle carrier0 0 DefaultUpCarrierID DirUp) (handlesT iran1 !! 1%nat).

Lemma first_down_is : handlesT iran1 !! 1%nat = Some first_down.
Proof. vm_compute. reflexivity. Defined.

Lemma loss_sweep_exact_witness :
  (h_dir first_down, h_gen first_down, down_att iran1 0%nat) = (DirDown, 2, Some (AttAttached, 2))
  ∧ rest_kept (h_dir first_down) (heap iran1 0%nat) (heap (detachSweep (h_dir first_down) (h_gen first_down) iran1) 0%nat)
  ∧ down_att (detachSweep (h_dir first_down) (h_gen first_down) iran1) 0%nat = Some (AttUnavailable, 0).
Proof.
  split; [vm_compute; reflexivity|]. split; [|vm_compute; reflexivity].
  exact (proj1 (loss_sweep_exact RoleIran sid0 (λ _, session0) both_down one_session 1%nat first_down 0%nat
    iran1_installs first_down_is)).
Defined.

(** The first down carrier is lost; the session moves to the second. *)
Abbreviation iran_lost :=
  (iran (one_session ++ [NInstall SecondDownCarrierID DirDown carrier0; NLose 1%nat; NDetach DirDown 1%nat 0%nat])).

Definition second_down : carrierHandle :=
  default (mkHandle carrier0 0 DefaultUpCarrierID DirUp) (handlesT iran_lost !! 2%nat).

Lemma second_down_is : handlesT iran_lost !! 2%nat = Some second_down.
Proof. vm_compute. reflexivity. Defined.

Definition lost_att : Attachment := snd (Detach 2 (snd (Attach 2 NewAttachment))).

Lemma lost_att_is : Att DirDown (heap iran_lost 0%nat) = Some lost_att.
Proof. vm_compute. reflexivity. Defined.

Lemma fst_pair {A B} (p : A * B) a : fst p = a → p = (a, snd p).
Proof. by destruct p; simpl; intros ->. Defined.

Lemma rebind_lost_is :
  rebindSession DirDown 2%nat WriteOK 0%nat iran_lost = (true, snd (rebindSession DirDown 2%nat WriteOK 0%nat iran_lost)).
Proof. apply fst_pair. vm_compute. reflexivity. Defined.

Lemma lost_sweepable : sweepable DirDown (h_gen second_down) (heap iran_lost 0%nat) lost_att = true.
Proof. vm_compute. reflexivity. Defined.

Lemma ainv_lost_att : ainv lost_att.
Proof. apply ainv_Detach, ainv_Attach, ainv_new. Qed.


(** Germany, with the same two down carriers, installed in the other order: its
    generations 2 and 3 name them the other way round. *)
Definition germany0 : Node (C := Carrier.CarrierConn) := NewNode RoleGermany sid0 (λ _, session0) both_down.

Definition germany_session : list (nlabel (C := Carrier.CarrierConn)) :=
  [NInstall DefaultUpCarrierID DirUp carrier0; NInstall SecondDownCarrierID DirDown carrier0;
   NInstall DefaultDownCarrierID DirDown carrier0; NStart 0%nat 0%nat 2%nat true true (Some [x01])].

Definition germany1 : Node := nrun germany_session germany0.

(** Iran's rebind of the session onto the second down carrier, at a generation
    of Iran's. *)
Definition rebind_payload (g : Z) : list byte := EncodeRebindV2 (sid0 0%nat) SecondDownCarrierID g.


(** The check for a session already attached compares the sender's generation
    with the receiver's: when the two happen to be equal, the rebind onto the
    surviving carrier is refused, without a reset, while the session is still
    attached to the other carrier. *)
Example equal_generations_refuse_failover :
  let '(res, n') := handleRebind DirDown 1%nat 1 (Some (rebind_payload 3)) false germany1 in
  res = Some AlreadyAttached ∧ down_att n' 0%nat = Some (AttAttached, 3) ∧ idH n' 2%nat = DefaultDownCarrierID
  ∧ genH n' 2%nat = 3 ∧ length (sentFrames n') = length (sentFrames germany1).
Proof. vm_compute. repeat split; reflexivity. Qed.

(** Installing the standby down carrier moves the sessions pinned to the live
    first one. *)
Definition standby : list (nlabel (C := Carrier.CarrierConn)) :=
  [NInstall SecondDownCarrierID DirDown carrier0; NReady DirDown 2%nat all_ok].

Example standby_install_moves_pinned_sessions :
  down_att iran1 0%nat = Some (AttAttached, 2)
  ∧ readyH (nrun standby iran1) 1%nat = true ∧ Handle DefaultDownCarrierID (downReg (nrun standby iran1)) = Some 1%nat
  ∧ down_att (nrun standby iran1) 0%nat = Some (AttAttached, 3).
Proof. vm_compute. repeat split; reflexivity. Qed.

(** A down carrier is reported ready after its read loop has ended, until the
    loss sweep. *)
Example down_carrier_ready_while_dead :
  let c := match Carrier.cstep Carrier.LReadEnd carrier0 with Some c => c | None => carrier0 end in
  let n := nstep (NCarrier 1%nat c) iran1 in
  DownCarrierReady DefaultDownCarrierID n = true ∧ DownReady n = false.
Proof. vm_compute. split; reflexivity. Qed.
