(* ===== verification/Float64.v ===== *)
(** * float64, the part the policy engine computes with

    A Go [float64] is an IEEE 754 binary64 datum with round-to-nearest-even
    arithmetic: [spec_float] of the standard library at precision 53 and
    exponent bound 1024.  Go may fuse a product and a sum on some targets; the
    definitions are the unfused operations of amd64.  [trunc] is the conversion
    [int(x)], which the Go specification leaves open outside the range of the
    integer type; there it is the value amd64 produces.

    The second half has the facts the score needs: the order is total away from
    NaN, and non-negative operands give non-negative results that are not
    NaN. *)
From S2P Require Export Prelude.
From Stdlib Require Export SpecFloat.
#[local] Open Scope Z_scope.

Abbreviation float64 := spec_float.

Definition fadd : float64 → float64 → float64 := SFadd 53 1024.
Definition fsub : float64 → float64 → float64 := SFsub 53 1024.
Definition fmul : float64 → float64 → float64 := SFmul 53 1024.
Definition fdiv : float64 → float64 → float64 := SFdiv 53 1024.
Definition flt : float64 → float64 → bool := SFltb.
Definition fle : float64 → float64 → bool := SFleb.
Definition feq : float64 → float64 → bool := SFeqb.

(** [float64(z)] of an integer, and the constant [n/d]: integers below 2^53
    convert exactly, so the quotient is the correctly rounded constant. *)
Definition of_Z (z : Z) : float64 := binary_normalize 53 1024 z 0 false.
Definition frac (n d : Z) : float64 := fdiv (of_Z n) (of_Z d).

Definition fzero : float64 := S754_zero false.
Definition fone : float64 := of_Z 1.

(** [math.Min]. *)
Definition fmin (x y : float64) : float64 :=
  match x, y with
  | S754_infinity true, _ | _, S754_infinity true => S754_infinity true
  | S754_nan, _ | _, S754_nan => S754_nan
  | S754_zero sx, S754_zero _ => if sx then x else y
  | _, _ => if flt x y then x else y
  end.

Definition minInt64 : Z := - 2 ^ 63.

Definition toInt64 (s : bool) (mag : Z) : Z :=
  let z := if s then - mag else mag in
  if (minInt64 <=? z) && (z <? 2 ^ 63) then z else minInt64.

(** [int(x)]. *)
Definition trunc (x : float64) : Z :=
  match x with
  | S754_zero _ => 0
  | S754_finite s m e => toInt64 s (Z.shiftl (Zpos m) e)
  | _ => minInt64
  end.

(** [int(math.Round(x))]: half-way cases away from zero. *)
Definition round_int (x : float64) : Z :=
  match x with
  | S754_zero _ => 0
  | S754_finite s m e =>
      if 0 <=? e then toInt64 s (Z.shiftl (Zpos m) e)
      else toInt64 s ((2 * Zpos m + 2 ^ (- e)) / 2 ^ (1 - e))
  | _ => minInt64
  end.

Definition clamp01 (x : float64) : float64 :=
  if flt x fzero then fzero else if flt fone x then fone else x.

(** ** Not a number, sign and finiteness *)
Definition is_nan (x : float64) : bool := match x with S754_nan => true | _ => false end.

Definition nonneg (x : float64) : bool :=
  match x with S754_zero _ | S754_infinity false | S754_finite false _ _ => true | _ => false end.

Definition is_finite (x : float64) : bool :=
  match x with S754_zero _ | S754_finite _ _ _ => true | _ => false end.

(** Greater than zero and finite. *)
Definition positive64 (x : float64) : bool :=
  match x with S754_finite false _ _ => true | _ => false end.

Lemma nonneg_not_nan x : nonneg x = true → is_nan x = false.
Proof. by destruct x. Qed.

Lemma positive64_nonneg x : positive64 x = true → nonneg x = true.
Proof. by destruct x as [| | |[] ? ?]. Qed.

Lemma positive64_finite x : positive64 x = true → is_finite x = true.
Proof. by destruct x as [| | |[] ? ?]. Qed.

(** *** Rounding keeps the sign *)
Lemma shr_1_nonneg mrs : 0 ≤ shr_m mrs → 0 ≤ shr_m (shr_1 mrs).
Proof. destruct mrs as [[|[]|[]] r s]; simpl; intros; lia. Qed.

Lemma iter_pos_ind {A} (P : A → Prop) f n x :
  (∀ y, P y → P (f y)) → P x → P (iter_pos f n x).
Proof.
  intros Hf. revert x. induction n as [n IH|n IH|]; intros x Hx; simpl; auto.
Qed.

Lemma shr_fexp_nonneg m e l : 0 ≤ m → 0 ≤ shr_m (shr_fexp 53 1024 m e l).1.
Proof.
  intros Hm. unfold shr_fexp, shr.
  assert (Hr : 0 ≤ shr_m (shr_record_of_loc m l)) by (destruct l as [|[]]; done).
  destruct (_ - _); simpl; try done.
  apply (iter_pos_ind (λ r, 0 ≤ shr_m r)); [apply shr_1_nonneg|done].
Qed.

Lemma round_nearest_even_nonneg m l : 0 ≤ m → 0 ≤ round_nearest_even m l.
Proof. destruct l as [|[]]; simpl; intros; repeat case_match; lia. Qed.

Lemma round_aux_sign s m e l :
  0 ≤ m →
  match binary_round_aux 53 1024 s m e l with
  | S754_nan => False
  | S754_zero s' | S754_infinity s' | S754_finite s' _ _ => s' = s
  end.
Proof.
  intros Hm. unfold binary_round_aux.
  pose proof (shr_fexp_nonneg m e l Hm) as H1.
  destruct (shr_fexp 53 1024 m e l) as [r1 e1]; simpl in H1.
  pose proof (shr_fexp_nonneg _ e1 loc_Exact
                (round_nearest_even_nonneg _ (loc_of_shr_record r1) H1)) as H2.
  destruct (shr_fexp 53 1024 (round_nearest_even _ _) e1 loc_Exact) as [r2 e2]; simpl in H2.
  destruct (shr_m r2); [done| |lia]. by destruct (Z.leb _ _).
Qed.

Lemma round_aux_nonneg m e l : 0 ≤ m → nonneg (binary_round_aux 53 1024 false m e l) = true.
Proof.
  intros Hm. pose proof (round_aux_sign false m e l Hm) as H.
  destruct (binary_round_aux _ _ _ _ _ _) as [| | |]; simpl; subst; done.
Qed.

Lemma normalize_nonneg m e s : 0 ≤ m → nonneg (binary_normalize 53 1024 m e s) = true.
Proof.
  intros Hm. destruct m as [|m|m]; [done| |lia]. simpl. unfold binary_round.
  destruct (shl_align _ _ _). by apply round_aux_nonneg.
Qed.

Lemma normalize_not_nan m e s : is_nan (binary_normalize 53 1024 m e s) = false.
Proof.
  destruct m as [|m|m]; [done| |]; simpl; unfold binary_round; destruct (shl_align _ _ _) as [p e'].
  - pose proof (round_aux_sign false (Zpos p) e' loc_Exact ltac:(lia)). by case_match.
  - pose proof (round_aux_sign true (Zpos p) e' loc_Exact ltac:(lia)). by case_match.
Qed.

Lemma of_Z_nonneg z : 0 ≤ z → nonneg (of_Z z) = true.
Proof. apply normalize_nonneg. Qed.

(** *** Arithmetic of non-negative operands *)
Lemma fadd_nonneg x y : nonneg x = true → nonneg y = true → nonneg (fadd x y) = true.
Proof.
  destruct x as [[]|[]| |[] mx ex], y as [[]|[]| |[] my ey]; try done; intros _ _.
  unfold fadd, SFadd. cbv zeta. apply normalize_nonneg.
  simpl. lia.
Qed.

Lemma fmul_nonneg x y :
  nonneg x = true → nonneg y = true → is_finite x = true → is_finite y = true →
  nonneg (fmul x y) = true.
Proof.
  destruct x as [[]|[]| |[] mx ex], y as [[]|[]| |[] my ey]; try done; intros _ _ _ _.
  unfold fmul, SFmul. by apply round_aux_nonneg.
Qed.

Lemma div_core_nonneg p e1 q e2 :
  0 ≤ (SFdiv_core_binary 53 1024 (Zpos p) e1 (Zpos q) e2).1.1.
Proof.
  unfold SFdiv_core_binary. cbv zeta.
  match goal with |- 0 ≤ (let (q, r) := Z.div_eucl ?m _ in _).1.1 => assert (Hm : 0 ≤ m) end.
  { case_match; [lia| |lia]. by apply Z.shiftl_nonneg. }
  match goal with |- context [Z.div_eucl ?m ?d] =>
    pose proof (Z.div_pos m d Hm ltac:(lia)) as Hq; unfold Z.div in Hq;
    destruct (Z.div_eucl m d) as [q' r'] end.
  done.
Qed.

Lemma fdiv_nonneg x y : nonneg x = true → positive64 y = true → nonneg (fdiv x y) = true.
Proof.
  destruct x as [[]|[]| |[] mx ex], y as [[]|[]| |[] my ey]; try done; intros _ _.
  unfold fdiv, SFdiv. pose proof (div_core_nonneg mx ex my ey).
  destruct (SFdiv_core_binary _ _ _ _ _ _) as [[q e] l]. by apply round_aux_nonneg.
Qed.

Lemma fdiv_not_nan x y : is_nan x = false → positive64 y = true → is_nan (fdiv x y) = false.
Proof.
  destruct x as [[]|[]| |sx mx ex], y as [[]|[]| |[] my ey]; try done; intros _ _.
  unfold fdiv, SFdiv. pose proof (div_core_nonneg mx ex my ey).
  destruct (SFdiv_core_binary _ _ _ _ _ _) as [[q e] l].
  pose proof (round_aux_sign (xorb sx false) q e l ltac:(done)).
  by destruct (binary_round_aux _ _ _ _ _ _).
Qed.

Lemma fsub_not_nan x y : is_nan x = false → is_finite x = true → is_nan y = false → is_nan (fsub x y) = false.
Proof.
  destruct x as [[]|[]| |sx mx ex], y as [[]|[]| |sy my ey]; try done; intros _ _ _.
  unfold fsub, SFsub. cbv zeta. apply normalize_not_nan.
Qed.

(** *** The order *)
Lemma pos_compare_cont_Eq m1 m2 : Pos.compare_cont Eq m1 m2 = (m1 ?= m2)%positive.
Proof. done. Qed.

(** A number is placed by its class, its exponent and its mantissa; the order
    of the encodings is lexicographic in the three. *)
Definition fkey (x : float64) : Z * Z * Z :=
  match x with
  | S754_infinity true => (-2, 0, 0)
  | S754_finite true m e => (-1, - e, Zneg m)
  | S754_zero _ => (0, 0, 0)
  | S754_finite false m e => (1, e, Zpos m)
  | S754_infinity false => (2, 0, 0)
  | S754_nan => (3, 0, 0)
  end.

Definition klt (a b : Z * Z * Z) : Prop :=
  a.1.1 < b.1.1 ∨ a.1.1 = b.1.1 ∧ (a.1.2 < b.1.2 ∨ a.1.2 = b.1.2 ∧ a.2 < b.2).

Lemma SFcompare_key x y :
  is_nan x = false → is_nan y = false →
  match SFcompare x y with
  | Some Lt => klt (fkey x) (fkey y)
  | Some Eq => fkey x = fkey y
  | Some Gt => klt (fkey y) (fkey x)
  | None => False
  end.
Proof.
  destruct x as [[]|[]| |[] mx ex], y as [[]|[]| |[] my ey]; try done; intros _ _;
    unfold SFcompare, fkey, klt; try rewrite pos_compare_cont_Eq;
    repeat (simpl; match goal with
    | |- context [(?a ?= ?b)] => destruct (Z.compare_spec a b)
    | |- context [(?a ?= ?b)%positive] => destruct (Pos.compare_spec a b)
    end); simpl; subst; try done; try lia.
Qed.

Lemma flt_key x y :
  is_nan x = false → is_nan y = false → flt x y = true ↔ klt (fkey x) (fkey y).
Proof.
  intros Hx Hy. unfold flt, SFltb. pose proof (SFcompare_key x y Hx Hy) as H.
  destruct (SFcompare x y) as [[]|]; try done; unfold klt in *; split; try done.
  - rewrite H. lia.
  - destruct H as [|[]], (fkey x) as [[] ?], (fkey y) as [[] ?]; simpl in *; lia.
Qed.

Lemma feq_key x y :
  is_nan x = false → is_nan y = false → feq x y = true ↔ fkey x = fkey y.
Proof.
  intros Hx Hy. unfold feq, SFeqb. pose proof (SFcompare_key x y Hx Hy) as H.
  destruct (SFcompare x y) as [[]|]; try done; unfold klt in *; split; try done;
    intros He; rewrite He in H; lia.
Qed.

Lemma fle_key x y :
  is_nan x = false → is_nan y = false → fle x y = true ↔ ¬ klt (fkey y) (fkey x).
Proof.
  intros Hx Hy. unfold fle, SFleb. pose proof (SFcompare_key x y Hx Hy) as H.
  destruct (SFcompare x y) as [[]|]; try done; unfold klt in *; split; try done.
  - rewrite H. lia.
  - intros _. destruct H as [|[]]; lia.
Qed.

Lemma flt_irrefl x : flt x x = false.
Proof.
  destruct (is_nan x) eqn:Hn; [by destruct x|]. apply not_true_iff_false.
  rewrite flt_key by done. unfold klt. lia.
Qed.

Lemma flt_nan_l x y : is_nan x = true → flt x y = false.
Proof. by destruct x. Qed.

Lemma flt_nan_r x y : is_nan y = true → flt x y = false.
Proof. by destruct y, x as [|[]| |]. Qed.

Lemma flt_not_nan x y : flt x y = true → is_nan x = false ∧ is_nan y = false.
Proof.
  intros H. destruct (is_nan x) eqn:Hx, (is_nan y) eqn:Hy; try done;
    (rewrite flt_nan_l in H by done) || (rewrite flt_nan_r in H by done); done.
Qed.

Lemma klt_trans a b c : klt a b → klt b c → klt a c.
Proof. unfold klt. lia. Qed.

Lemma klt_total a b : klt a b ∨ a = b ∨ klt b a.
Proof.
  destruct a as [[a1 a2] a3], b as [[b1 b2] b3]. unfold klt. simpl.
  destruct (Z.lt_trichotomy a1 b1) as [|[|]]; [lia| |lia].
  destruct (Z.lt_trichotomy a2 b2) as [|[|]]; [lia| |lia].
  destruct (Z.lt_trichotomy a3 b3) as [|[|]]; [lia| |lia]. subst. auto.
Qed.

Lemma flt_trans x y z : flt x y = true → flt y z = true → flt x z = true.
Proof.
  intros Hxy Hyz. destruct (flt_not_nan _ _ Hxy), (flt_not_nan _ _ Hyz).
  rewrite flt_key in * by done. by eapply klt_trans.
Qed.

Lemma flt_asym x y : flt x y = true → flt y x = false.
Proof.
  intros H. apply not_true_iff_false. intros H'.
  pose proof (flt_trans _ _ _ H H'). by rewrite flt_irrefl in *.
Qed.

Lemma fle_total x y : is_nan x = false → is_nan y = false → flt x y = false → fle y x = true.
Proof. intros Hx Hy H. rewrite fle_key by done. intros Hk. rewrite <- flt_key in Hk by done. congruence. Qed.

Lemma feq_total x y :
  is_nan x = false → is_nan y = false → flt x y = false → flt y x = false → feq x y = true.
Proof.
  intros Hx Hy H1 H2. apply feq_key; [done..|].
  apply not_true_iff_false in H1, H2. rewrite flt_key in H1, H2 by done.
  destruct (klt_total (fkey x) (fkey y)) as [|[|]]; done.
Qed.

Lemma feq_not_flt x y : feq x y = true → flt x y = false.
Proof. unfold feq, SFeqb, flt, SFltb. by destruct (SFcompare x y) as [[]|]. Qed.

(** *** Clamping *)
Definition in_unit (x : float64) : bool := fle fzero x && fle x fone.

Lemma clamp01_unit x : is_nan x = false → in_unit (clamp01 x) = true.
Proof.
  intros Hx. unfold clamp01. case_match; [done|]. case_match; [done|].
  unfold in_unit. apply andb_true_iff. split; by apply fle_total.
Qed.

Lemma in_unit_nonneg x : in_unit x = true → nonneg x = true ∧ is_finite x = true.
Proof.
  unfold in_unit. intros [H1 H2]%andb_true_iff.
  destruct x as [|[]| |[] m e]; try done; (by vm_compute in H1) || (by vm_compute in H2).
Qed.

(** *** Rounding in range

    Rounding a positive mantissa whose exponent is away from both ends gives a
    positive finite number, and every rounded mantissa fits 53 bits. *)
Lemma digits2_bounds p :
  2 ^ (Zpos (digits2_pos p) - 1) ≤ Zpos p < 2 ^ Zpos (digits2_pos p).
Proof.
  induction p as [p IH|p IH|]; [| |done]; cbn [digits2_pos];
    rewrite Pos2Z.inj_succ, Z.sub_succ_l, !Z.pow_succ_r by lia; lia.
Qed.

Lemma shr_1_div2 mrs : 0 ≤ shr_m mrs → shr_m (shr_1 mrs) = shr_m mrs / 2.
Proof.
  destruct mrs as [[|[p|p|]|p] r s]; cbn -[Z.div]; intros H; try done.
  - rewrite Pos2Z.inj_xI. apply (Z.div_unique _ _ _ 1); lia.
  - rewrite Pos2Z.inj_xO. apply (Z.div_unique _ _ _ 0); lia.
Qed.

Lemma iter_shr_1 n mrs :
  0 ≤ shr_m mrs → shr_m (iter_pos shr_1 n mrs) = shr_m mrs / 2 ^ Zpos n.
Proof.
  revert mrs. induction n as [n IH|n IH|]; intros mrs Hm; simpl iter_pos.
  - assert (0 ≤ shr_m (shr_1 mrs)) by (by apply shr_1_nonneg).
    assert (0 ≤ shr_m (iter_pos shr_1 n (shr_1 mrs))).
    { rewrite IH by done. apply Z.div_pos; lia. }
    rewrite !IH, shr_1_div2, !Z.div_div by lia. f_equal.
    replace (Zpos n~1) with (1 + Zpos n + Zpos n) by lia. rewrite !Z.pow_add_r by lia. ring.
  - assert (0 ≤ shr_m (iter_pos shr_1 n mrs)).
    { rewrite IH by done. apply Z.div_pos; lia. }
    rewrite !IH, !Z.div_div by lia. f_equal.
    replace (Zpos n~0) with (Zpos n + Zpos n) by lia. by rewrite Z.pow_add_r by lia.
  - by apply shr_1_div2.
Qed.

Lemma shr_fexp_spec p e l :
  - 1074 ≤ e →
  let r := shr_fexp 53 1024 (Zpos p) e l in
  1 ≤ shr_m r.1 < 2 ^ 53 ∧ e ≤ r.2 ≤ e + Z.max 0 (Zpos (digits2_pos p) - 53).
Proof.
  intros He. unfold shr_fexp, shr, fexp, emin. cbn zeta.
  pose proof (digits2_bounds p) as Hd. simpl (Zdigits2 _).
  set (d := Zpos (digits2_pos p)) in *.
  assert (Hm : shr_m (shr_record_of_loc (Zpos p) l) = Zpos p) by (by destruct l as [|[]]).
  destruct (Z.max (d + e - 53) (3 - 1024 - 53) - e) as [|n|n] eqn:Hn; simpl fst; simpl snd.
  - rewrite Hm. split; [|lia]. split; [lia|].
    apply (Z.lt_le_trans _ (2 ^ d)); [lia|]. apply Z.pow_le_mono_r; lia.
  - rewrite iter_shr_1, Hm by lia. split; [|lia]. split.
    + apply Z.div_le_lower_bound; [lia|].
      apply (Z.le_trans _ (2 ^ (d - 1))); [|lia].
      rewrite Z.mul_1_r. apply Z.pow_le_mono_r; lia.
    + apply Z.div_lt_upper_bound; [lia|]. rewrite <- Z.pow_add_r by lia.
      apply (Z.lt_le_trans _ (2 ^ d)); [lia|]. apply Z.pow_le_mono_r; lia.
  - rewrite Hm. split; [|lia]. split; [lia|].
    apply (Z.lt_le_trans _ (2 ^ d)); [lia|]. apply Z.pow_le_mono_r; lia.
Qed.

Lemma digits2_le p n : 0 ≤ n → Zpos p < 2 ^ n → Zpos (digits2_pos p) ≤ n.
Proof.
  intros Hn Hp. destruct (Z.le_gt_cases (Zpos (digits2_pos p)) n) as [|Hlt]; [done|].
  pose proof (digits2_bounds p). assert (2 ^ n ≤ 2 ^ (Zpos (digits2_pos p) - 1)); [|lia].
  apply Z.pow_le_mono_r; lia.
Qed.

Lemma round_aux_range p e l :
  - 1074 ≤ e → e + Z.max 0 (Zpos (digits2_pos p) - 53) ≤ 970 →
  ∃ m' e', binary_round_aux 53 1024 false (Zpos p) e l = S754_finite false m' e'
  ∧ Zpos m' < 2 ^ 53 ∧ e ≤ e' ≤ e + Z.max 0 (Zpos (digits2_pos p) - 53) + 1.
Proof.
  intros He Hd. unfold binary_round_aux.
  pose proof (shr_fexp_spec p e l He) as H1.
  destruct (shr_fexp 53 1024 (Zpos p) e l) as [r1 e1]; simpl in H1. destruct H1 as [H1 H1'].
  assert (Hr : 1 ≤ round_nearest_even (shr_m r1) (loc_of_shr_record r1) ≤ 2 ^ 53).
  { destruct (loc_of_shr_record r1) as [|[]]; simpl; repeat case_match; lia. }
  destruct (round_nearest_even _ _) as [|q|q] eqn:Hq; [lia| |lia].
  pose proof (shr_fexp_spec q e1 loc_Exact ltac:(lia)) as H2.
  pose proof (digits2_le q 54 ltac:(lia) ltac:(lia)).
  destruct (shr_fexp 53 1024 (Zpos q) e1 loc_Exact) as [r2 e2]; simpl in H2.
  destruct (shr_m r2) as [|m|m]; [lia| |lia].
  destruct (Z.leb_spec e2 (1024 - 53)); [|lia]. exists m, e2. split_and!; try done; lia.
Qed.

Lemma iter_xO m d : Zpos (Pos.iter xO m d) = Zpos m * 2 ^ Zpos d.
Proof.
  induction d as [|d IH] using Pos.peano_ind; [simpl; lia|].
  rewrite Pos.iter_succ, Pos2Z.inj_xO, IH, Pos2Z.inj_succ, Z.pow_succ_r by lia. lia.
Qed.

Lemma of_Z_range z :
  1 ≤ z < 2 ^ 63 → ∃ m e, of_Z z = S754_finite false m e ∧ Zpos m < 2 ^ 53 ∧ -52 ≤ e ≤ 11.
Proof.
  intros Hz. destruct z as [|p|p]; [lia| |lia]. unfold of_Z. simpl. unfold binary_round, shl_align.
  pose proof (digits2_bounds p) as Hd. pose proof (digits2_le p 63 ltac:(lia) ltac:(lia)) as Hd63.
  unfold fexp, emin. rewrite !Z.add_0_r, Z.sub_0_r.
  destruct (Z.max _ _) as [|q|q] eqn:Hq.
  - destruct (round_aux_range p 0 loc_Exact) as (m & e & -> & ? & ?); [lia..|].
    exists m, e. split_and!; try done; lia.
  - destruct (round_aux_range p 0 loc_Exact) as (m & e & -> & ? & ?); [lia..|].
    exists m, e. split_and!; try done; lia.
  - assert (Zpos (digits2_pos (Pos.iter xO p q)) ≤ 53).
    { apply digits2_le; [lia|]. rewrite iter_xO.
      replace (2 ^ 53) with (2 ^ Zpos (digits2_pos p) * 2 ^ Zpos q)
        by (rewrite <- Z.pow_add_r by lia; f_equal; lia).
      apply Z.mul_lt_mono_pos_r; lia. }
    destruct (round_aux_range (Pos.iter xO p q) (Zneg q) loc_Exact) as (m & e & -> & ? & ?); [lia..|].
    exists m, e. split_and!; try done; lia.
Qed.

Lemma of_Z_positive z : 1 ≤ z < 2 ^ 63 → positive64 (of_Z z) = true.
Proof. intros Hz. by destruct (of_Z_range z Hz) as (m & e & -> & _). Qed.

(** A quotient of positive numbers of moderate exponent is positive and of
    moderate exponent. *)
Lemma fdiv_range m1 e1 m2 e2 :
  Zpos m1 < 2 ^ 53 → Zpos m2 < 2 ^ 53 → -100 ≤ e1 ≤ 100 → -100 ≤ e2 ≤ 100 →
  ∃ m e, fdiv (S754_finite false m1 e1) (S754_finite false m2 e2) = S754_finite false m e
  ∧ Zpos m < 2 ^ 53 ∧ -400 ≤ e ≤ 400.
Proof.
  intros Hm1 Hm2 He1 He2. unfold fdiv, SFdiv, SFdiv_core_binary. cbv zeta.
  pose proof (digits2_bounds m1) as Hd1. pose proof (digits2_bounds m2) as Hd2.
  pose proof (digits2_le m1 53 ltac:(lia) Hm1). pose proof (digits2_le m2 53 ltac:(lia) Hm2).
  simpl (Zdigits2 _). unfold fexp, emin. set (d1 := Zpos (digits2_pos m1)) in *.
  set (d2 := Zpos (digits2_pos m2)) in *.
  set (e' := Z.min _ _).
  assert (He' : -400 ≤ e' ≤ e1 - e2 ∧ d2 ≤ d1 + (e1 - e2 - e') - 1 ∧ e1 - e2 - e' ≤ 400) by lia. clearbody e'.
  set (m' := match _ with Z0 => _ | _ => _ end).
  assert (Hm' : m' = Zpos m1 * 2 ^ (e1 - e2 - e')).
  { subst m'. destruct (e1 - e2 - e') as [|s|s] eqn:Hs; [lia| |lia]. by rewrite Z.shiftl_mul_pow2. }
  clearbody m'.
  assert (0 < 2 ^ (e1 - e2 - e')) by (apply Z.pow_pos_nonneg; lia).
  assert (Hlow : 2 ^ d2 ≤ m').
  { apply (Z.le_trans _ (2 ^ (d1 - 1) * 2 ^ (e1 - e2 - e'))).
    - rewrite <- Z.pow_add_r by lia. apply Z.pow_le_mono_r; lia.
    - rewrite Hm'. apply Z.mul_le_mono_nonneg_r; lia. }
  assert (Hq : 1 ≤ m' / Zpos m2 < 2 ^ (d1 + (e1 - e2 - e'))).
  { split; [apply Z.div_le_lower_bound; lia|]. apply (Z.le_lt_trans _ m'); [apply Z.div_le_upper_bound; nia|].
    rewrite Hm', Z.pow_add_r by lia. apply Z.mul_lt_mono_pos_r; lia. }
  unfold Z.div in Hq. destruct (Z.div_eucl m' (Zpos m2)) as [q r].
  destruct q as [|q|q]; [lia| |lia].
  pose proof (digits2_le q (d1 + (e1 - e2 - e')) ltac:(lia) ltac:(lia)).
  destruct (round_aux_range q e' (new_location (Zpos m2) r)) as (m & e & He & ? & ?); [lia..|].
  simpl xorb. rewrite He. exists m, e. split_and!; try done; lia.
Qed.

Lemma shl_align_value m e e' : e' ≤ e → Zpos (shl_align m e e').1 = Zpos m * 2 ^ (e - e').
Proof.
  intros He. unfold shl_align. destruct (e' - e) as [|d|d] eqn:Hd; simpl fst; [|lia|].
  - replace (e - e') with 0 by lia. lia.
  - rewrite iter_xO. f_equal. f_equal. lia.
Qed.

Lemma fadd_positive m1 e1 m2 e2 :
  Zpos m1 < 2 ^ 53 → Zpos m2 < 2 ^ 53 → -400 ≤ e1 ≤ 400 → -400 ≤ e2 ≤ 400 →
  positive64 (fadd (S754_finite false m1 e1) (S754_finite false m2 e2)) = true.
Proof.
  intros Hm1 Hm2 He1 He2. unfold fadd, SFadd, cond_Zopp. cbv zeta.
  set (ez := Z.min e1 e2).
  assert (Hs : Zpos (shl_align m1 e1 ez).1 + Zpos (shl_align m2 e2 ez).1 < 2 ^ (454 - ez)).
  { rewrite !shl_align_value by lia.
    assert (∀ m e, Zpos m < 2 ^ 53 → e ≤ 400 → ez ≤ e → Zpos m * 2 ^ (e - ez) < 2 ^ (453 - ez)) as Hb.
    { intros m e Hm He Hle. apply (Z.lt_le_trans _ (2 ^ 53 * 2 ^ (e - ez))).
      - apply Z.mul_lt_mono_pos_r; [apply Z.pow_pos_nonneg|]; lia.
      - rewrite <- Z.pow_add_r by lia. apply Z.pow_le_mono_r; lia. }
    pose proof (Hb m1 e1 Hm1 ltac:(lia) ltac:(lia)). pose proof (Hb m2 e2 Hm2 ltac:(lia) ltac:(lia)).
    replace (454 - ez) with (1 + (453 - ez)) by lia. rewrite Z.pow_add_r by lia. lia. }
  destruct (Zpos _ + Zpos _) as [|p|p] eqn:Hp; [lia| |lia]. simpl. unfold binary_round, shl_align.
  pose proof (digits2_le p (454 - ez) ltac:(lia) Hs) as Hd. unfold fexp, emin.
  destruct (Z.max _ _ - ez) as [|q|q] eqn:Hq.
  - destruct (round_aux_range p ez loc_Exact) as (m & e & -> & _); [lia..|done].
  - destruct (round_aux_range p ez loc_Exact) as (m & e & -> & _); [lia..|done].
  - assert (Zpos (digits2_pos (Pos.iter xO p q)) ≤ 53).
    { apply digits2_le; [lia|]. rewrite iter_xO. pose proof (digits2_bounds p).
      apply (Z.lt_le_trans _ (2 ^ Zpos (digits2_pos p) * 2 ^ Zpos q)).
      - apply Z.mul_lt_mono_pos_r; lia.
      - rewrite <- Z.pow_add_r by lia. apply Z.pow_le_mono_r; lia. }
    match goal with |- context [binary_round_aux _ _ _ _ ?e' _] =>
      destruct (round_aux_range (Pos.iter xO p q) e' loc_Exact) as (m & e & -> & _); [lia..|done] end.
Qed.

Lemma fmul_nonneg_pos x y : nonneg x = true → positive64 y = true → nonneg (fmul x y) = true.
Proof.
  destruct x as [[]|[]| |[] mx ex], y as [[]|[]| |[] my ey]; try done; intros _ _.
  unfold fmul, SFmul. by apply round_aux_nonneg.
Qed.

Lemma fmul_pos_nonneg x y : positive64 x = true → nonneg y = true → nonneg (fmul x y) = true.
Proof.
  destruct x as [[]|[]| |[] mx ex], y as [[]|[]| |[] my ey]; try done; intros _ _.
  unfold fmul, SFmul. by apply round_aux_nonneg.
Qed.

(** *** [1 - y] for [y] between 0 and 1 *)
Definition narrow (x : float64) : bool :=
  match x with S754_finite _ m _ => Zpos m <? 2 ^ 53 | _ => true end.

Lemma shr_fexp_narrow m e l : 0 ≤ m → 0 ≤ shr_m (shr_fexp 53 1024 m e l).1 < 2 ^ 53.
Proof.
  intros Hm. split; [by apply shr_fexp_nonneg|].
  unfold shr_fexp, shr, fexp, emin.
  assert (Hr : shr_m (shr_record_of_loc m l) = m) by (by destruct l as [|[]]).
  assert (Hd : m < 2 ^ Zdigits2 m).
  { destruct m as [|p|p]; [done| |lia]. apply (digits2_bounds p). }
  assert (0 ≤ Zdigits2 m) by (by destruct m).
  set (d := Zdigits2 m) in *.
  destruct (Z.max (d + e - 53) (3 - 1024 - 53) - e) as [|n|n] eqn:Hn; simpl fst.
  - rewrite Hr. apply (Z.lt_le_trans _ (2 ^ d)); [done|]. apply Z.pow_le_mono_r; lia.
  - rewrite iter_shr_1, Hr by lia. apply Z.div_lt_upper_bound; [lia|].
    rewrite <- Z.pow_add_r by lia.
    apply (Z.lt_le_trans _ (2 ^ d)); [done|]. apply Z.pow_le_mono_r; lia.
  - rewrite Hr. apply (Z.lt_le_trans _ (2 ^ d)); [done|]. apply Z.pow_le_mono_r; lia.
Qed.

Lemma narrow_round s m e l : 0 ≤ m → narrow (binary_round_aux 53 1024 s m e l) = true.
Proof.
  intros Hm. unfold binary_round_aux.
  pose proof (shr_fexp_nonneg m e l Hm) as H1.
  destruct (shr_fexp 53 1024 m e l) as [r1 e1]; simpl in H1.
  pose proof (shr_fexp_narrow _ e1 loc_Exact
                (round_nearest_even_nonneg _ (loc_of_shr_record r1) H1)) as H2.
  destruct (shr_fexp 53 1024 (round_nearest_even _ _) e1 loc_Exact) as [r2 e2]; simpl in H2.
  destruct (shr_m r2) as [|m2|m2]; [done| |lia].
  destruct (Z.leb _ _); [|done]. apply Z.ltb_lt. lia.
Qed.

Lemma narrow_fdiv x y : narrow (fdiv x y) = true.
Proof.
  destruct x as [sx|sx| |sx mx ex], y as [sy|sy| |sy my ey]; try done.
  unfold fdiv, SFdiv. pose proof (div_core_nonneg mx ex my ey).
  destruct (SFdiv_core_binary _ _ _ _ _ _) as [[q e] l]. by apply narrow_round.
Qed.

Lemma fone_eq : fone = S754_finite false 4503599627370496 (-52).
Proof. reflexivity. Qed.

Lemma unit_mantissa c m e :
  Zpos c = 2 ^ 52 → Zpos m < 2 ^ 53 → fle (S754_finite false m e) (S754_finite false c (-52)) = true →
  Zpos (shl_align m e (Z.min (-52) e)).1 ≤ Zpos (shl_align c (-52) (Z.min (-52) e)).1.
Proof.
  intros Hc Hm Hle. rewrite !shl_align_value by lia. rewrite Hc.
  destruct (Z.lt_trichotomy e (-52)) as [He|[->|He]].
  - rewrite Z.min_r, Z.sub_diag by lia.
    assert (2 ^ 1 ≤ 2 ^ (-52 - e)) by (apply Z.pow_le_mono_r; lia). lia.
  - rewrite fle_key in Hle by done. unfold klt, fkey in Hle. simpl in Hle. rewrite Hc in Hle.
    rewrite Z.min_id. lia.
  - rewrite fle_key in Hle by done. unfold klt, fkey in Hle. simpl in Hle. lia.
Qed.

Lemma one_minus_nonneg y : in_unit y = true → narrow y = true → nonneg (fsub fone y) = true.
Proof.
  intros [H0 H1]%andb_true_iff Hn. rewrite fone_eq in *.
  destruct y as [s|[]| |[] m e]; [by destruct s|discriminate..|].
  unfold fsub, SFsub. cbv zeta. apply normalize_nonneg, Z.le_0_sub.
  apply unit_mantissa; [done| |done]. by apply Z.ltb_lt.
Qed.

(** Rounding a value below 1 gives at most 1. *)
Lemma round_below_one p e :
  - 1074 ≤ e ≤ - 53 → Zpos p < 2 ^ (- e) →
  fle (binary_round_aux 53 1024 false (Zpos p) e loc_Exact) fone = true.
Proof.
  intros He Hp. unfold binary_round_aux.
  assert (Hd : Zpos (digits2_pos p) ≤ - e) by (apply digits2_le; [lia|done]).
  pose proof (shr_fexp_spec p e loc_Exact ltac:(lia)) as H1.
  assert (He1 : (shr_fexp 53 1024 (Zpos p) e loc_Exact).2 ≤ -53).
  { unfold shr_fexp, shr, fexp, emin. simpl (Zdigits2 _).
    destruct (Z.max _ _ - e) eqn:?; simpl snd; lia. }
  destruct (shr_fexp 53 1024 (Zpos p) e loc_Exact) as [r1 e1]; simpl in H1, He1. destruct H1 as [H1 H1'].
  assert (Hr : 1 ≤ round_nearest_even (shr_m r1) (loc_of_shr_record r1) ≤ 2 ^ 53).
  { destruct (loc_of_shr_record r1) as [|[]]; simpl; repeat case_match; lia. }
  destruct (round_nearest_even _ _) as [|q|q] eqn:Hq; [lia| |lia].
  destruct (Z.eq_dec (Zpos q) (2 ^ 53)) as [Hq53|Hq53].
  - assert (q = 9007199254740992%positive) as ->
      by (change (2 ^ 53) with (Zpos 9007199254740992) in Hq53; congruence).
    clear Hr H1 Hq Hq53. unfold shr_fexp, shr, fexp, emin.
    change (Zdigits2 9007199254740992) with 54.
    replace (Z.max (54 + e1 - 53) (3 - 1024 - 53) - e1) with 1 by lia.
    change (iter_pos shr_1 1 (shr_record_of_loc 9007199254740992 loc_Exact))
      with (Build_shr_record 4503599627370496 false false). cbn [shr_m].
    destruct (Z.leb_spec (e1 + 1) (1024 - 53)); [|lia].
    rewrite fone_eq. unfold fle, SFleb, SFcompare.
    destruct (Z.compare_spec (e1 + 1) (-52)); [done|done|lia].
  - pose proof (shr_fexp_spec q e1 loc_Exact ltac:(lia)) as H2.
    pose proof (digits2_le q 53 ltac:(lia) ltac:(lia)).
    destruct (shr_fexp 53 1024 (Zpos q) e1 loc_Exact) as [r2 e2]; simpl in H2.
    destruct (shr_m r2) as [|m|m]; [lia| |lia].
    destruct (Z.leb_spec e2 (1024 - 53)); [|lia].
    rewrite fone_eq. unfold fle, SFleb, SFcompare.
    destruct (Z.compare_spec e2 (-52)); [lia|done|lia].
Qed.

Lemma one_minus_unit y :
  in_unit y = true → narrow y = true → (match y with S754_finite _ _ e => -1000 ≤ e | _ => True end) →
  in_unit (fsub fone y) = true.
Proof.
  intros Hu Hn He. unfold in_unit. apply andb_true_iff.
  pose proof (one_minus_nonneg y Hu Hn) as Hnn. split.
  { by destruct (fsub fone y) as [[]|[]| |[]]. }
  destruct (in_unit_nonneg y Hu) as [Hy _]. rewrite fone_eq in *.
  destruct y as [s|[]| |[] m e]; [by destruct s|done..|].
  unfold in_unit in Hu. apply andb_true_iff in Hu as [_ Hu].
  apply Z.ltb_lt in Hn. rewrite fone_eq in Hu.
  pose proof (unit_mantissa 4503599627370496 m e eq_refl Hn Hu) as Hle.
  assert (Hee : e ≤ -52).
  { rewrite fle_key in Hu by done. unfold klt, fkey in Hu. simpl in Hu. lia. }
  revert Hle. unfold fsub, SFsub, cond_Zopp. cbv zeta. set (ez := Z.min (-52) e).
  rewrite !shl_align_value by lia. change (Zpos 4503599627370496) with (2 ^ 52).
  rewrite <- Z.pow_add_r by lia. replace (52 + (-52 - ez)) with (- ez) by lia. intros Hle.
  assert (0 < Zpos m * 2 ^ (e - ez)) by (apply Z.mul_pos_pos; [lia|apply Z.pow_pos_nonneg; lia]).
  destruct (2 ^ (- ez) - Zpos m * 2 ^ (e - ez)) as [|p|p] eqn:Hp; [done| |lia].
  simpl. unfold binary_round, shl_align.
  assert (Hp' : Zpos p < 2 ^ (- ez)) by lia. clear Hle Hp.
  pose proof (digits2_le p (- ez) ltac:(lia) Hp') as Hd. unfold fexp, emin.
  destruct (Z.max _ _ - ez) as [|q|q] eqn:Hq; [apply round_below_one; lia..|].
  replace (Z.max (Zpos (digits2_pos p) + ez - 53) (3 - 1024 - 53)) with (ez - Zpos q) by lia.
  apply round_below_one; [lia|]. rewrite iter_xO.
  replace (- (ez - Zpos q)) with (- ez + Zpos q) by lia. rewrite Z.pow_add_r by lia.
  apply Z.mul_lt_mono_pos_r; lia.
Qed.

Lemma fmin_one_unit x : nonneg x = true → in_unit (fmin fone x) = true.
Proof.
  intros Hx. rewrite fone_eq. destruct x as [[]|[]| |[] m e]; try done.
  unfold fmin. change (S754_finite false 4503599627370496 (-52)) with fone.
  destruct (flt fone _) eqn:Hl; [done|].
  unfold in_unit. apply andb_true_iff. split; [done|]. by apply fle_total.
Qed.

Lemma narrow_fmin_one x : narrow x = true → narrow (fmin fone x) = true.
Proof.
  intros Hx. rewrite fone_eq. destruct x as [[]|[]| |[] m e]; try done;
    unfold fmin; by destruct (flt _ _).
Qed.

(** *** No negative zero

    The order of [sort.Float64s] is total and determines the value, once -0
    is excluded. *)
Definition unsigned (x : float64) : bool :=
  match x with
  | S754_nan => true
  | S754_zero s | S754_infinity s | S754_finite s _ _ => negb s
  end.

Lemma of_Z_unsigned z : 0 ≤ z → unsigned (of_Z z) = true.
Proof.
  intros Hz. destruct z as [|p|p]; [done| |lia]. unfold of_Z. simpl. unfold binary_round.
  destruct (shl_align _ _ _) as [m e].
  pose proof (round_aux_sign false (Zpos m) e loc_Exact ltac:(lia)).
  by destruct (binary_round_aux _ _ _ _ _ _); subst.
Qed.

Lemma fdiv_unsigned x y : unsigned x = true → unsigned y = true → unsigned (fdiv x y) = true.
Proof.
  destruct x as [[]|[]| |[] mx ex], y as [[]|[]| |[] my ey]; try done; intros _ _.
  unfold fdiv, SFdiv. pose proof (div_core_nonneg mx ex my ey).
  destruct (SFdiv_core_binary _ _ _ _ _ _) as [[q e] l]. simpl xorb.
  pose proof (round_aux_sign false q e l ltac:(done)).
  by destruct (binary_round_aux _ _ _ _ _ _); subst.
Qed.

Lemma flt_zero_unsigned x : flt fzero x = true → unsigned x = true.
Proof. by destruct x as [[]|[]| |[] m e]. Qed.
