(* ===== verification/Health.v ===== *)
(** * Carrier health and its score (pkg/node/intel.go, first half)

    The policy engine keeps, per carrier, rolling windows of what the carrier
    delivered and a lifecycle state.  This file has the configuration with its
    sanitation, the health record, the effect of every measurement on it, the
    statistics over the windows and the score with its hard gates.  Policy.v
    puts a map of health records under the policy's mutex.

    Times are nanoseconds since the zero [time.Time] (year 1, UTC), so the zero
    time is [0]; durations are nanoseconds, [int64].  A ring buffer is a list of
    the length of the Go array; an index out of its range would panic in Go and
    is excluded by [rings_ok].  Counters that grow by one are unbounded; sums of
    bytes and durations wrap at 64 bits.  [math.Pow], whose result depends on
    the platform's kernel, is the argument [pow] of the two moving averages that
    use it; the score does not. *)
From S2P Require Export Float64 Net.
#[local] Open Scope Z_scope.

Abbreviation CarrierID := gostring.
Abbreviation Time := Z (only parsing).
Abbreviation Duration := Z (only parsing).

(** ** Go's time package *)
Definition millisecond : Duration := 1000000.
Definition second : Duration := 1000000000.
Definition minute : Duration := 60 * second.

Definition IsZero (t : Time) : bool := t =? 0.
Definition After (t u : Time) : bool := u <? t.
Definition Before (t u : Time) : bool := t <? u.
Definition Add (t : Time) (d : Duration) : Time := t + d.

(** [t.Sub(u)] saturates at the ends of [time.Duration]. *)
Definition Sub (t u : Time) : Duration :=
  Z.max (- 2 ^ 63) (Z.min (2 ^ 63 - 1) (t - u)).

Definition Seconds (d : Duration) : float64 :=
  fadd (of_Z (Z.quot d second)) (fdiv (of_Z (Z.rem d second)) (of_Z second)).

Definition Milliseconds (d : Duration) : Z := Z.quot d millisecond.

(** ** Lifecycle states *)
Inductive carrierState := stateCandidate | stateActive | stateExcluded | stateHalfOpen.

#[export] Instance carrierState_eq_dec : EqDecision carrierState.
Proof. solve_decision. Defined.

Definition carrierState_String (s : carrierState) : gostring :=
  match s with
  | stateCandidate => lit "candidate"
  | stateActive => lit "active"
  | stateExcluded => lit "excluded"
  | stateHalfOpen => lit "half_open"
  end.

(** ** Configuration *)
Definition PolicyStatic : gostring := lit "static".
Definition PolicyAdaptive : gostring := lit "adaptive".

Record PolicyConfig := mkPolicyConfig {
  Mode : gostring;
  TopK : Z;
  TTFBBaseline : Duration;
  SLAFloorMiBps : float64;
  HardGateMinSuccess : float64;
  HardGateMaxStallRate : float64;
  HardGateZeroDeliver : Duration;
  FlapWindow : Duration;
  FlapLimit : Z;
  ResetWindow : Duration;
  ResetLimit : Z;
  AuthFailWindow : Duration;
  HysteresisMargin : float64;
  HysteresisTicks : Z;
  MinDwell : Duration;
  EvalInterval : Duration;
  InitialCooldown : Duration;
  MaxCooldown : Duration;
  ActiveHealthReset : Duration;
  AdmitScore : float64;
  AdmitPassesCand : Z;
  AdmitPassesHalf : Z;
  ProbingEnabled : bool;
  ProbeURL : gostring;
  ProbeDailyBudgetBytes : Z;
  ProbeQuickBytes : Z;
  ProbeFullBytes : Z;
  ProbeQuickInterval : Duration;
  ProbeFullInterval : Duration;
  ProbeYieldMiBps : float64;
  ProbePassQuickFloorMiBps : float64;
  ProbePassFullFloorMiBps : float64;
  WGoodput : float64;
  WSuccess : float64;
  WStall : float64;
  WTTFB : float64;
  WReset : float64
}.

#[export] Instance expand_PolicyConfig : Expandable PolicyConfig :=
  {| expand := λ c, mkPolicyConfig
      (Mode c) (TopK c) (TTFBBaseline c) (SLAFloorMiBps c)
      (HardGateMinSuccess c) (HardGateMaxStallRate c)
      (HardGateZeroDeliver c) (FlapWindow c) (FlapLimit c) (ResetWindow c)
      (ResetLimit c) (AuthFailWindow c) (HysteresisMargin c)
      (HysteresisTicks c) (MinDwell c) (EvalInterval c) (InitialCooldown c)
      (MaxCooldown c) (ActiveHealthReset c) (AdmitScore c)
      (AdmitPassesCand c) (AdmitPassesHalf c) (ProbingEnabled c)
      (ProbeURL c) (ProbeDailyBudgetBytes c) (ProbeQuickBytes c)
      (ProbeFullBytes c) (ProbeQuickInterval c) (ProbeFullInterval c)
      (ProbeYieldMiBps c) (ProbePassQuickFloorMiBps c)
      (ProbePassFullFloorMiBps c) (WGoodput c) (WSuccess c) (WStall c)
      (WTTFB c) (WReset c) |}.

Definition KiB : Z := 1024.
Definition MiB : Z := 1048576.

Definition PolicyConfigDefaults : PolicyConfig :=
  {| Mode := PolicyStatic;
     TopK := 2;
     TTFBBaseline := 500 * millisecond;
     SLAFloorMiBps := fone;
     HardGateMinSuccess := frac 50 100;
     HardGateMaxStallRate := of_Z 10;
     HardGateZeroDeliver := 30 * second;
     FlapWindow := 10 * minute;
     FlapLimit := 3;
     ResetWindow := 10 * minute;
     ResetLimit := 3;
     AuthFailWindow := 60 * second;
     HysteresisMargin := frac 10 100;
     HysteresisTicks := 3;
     MinDwell := 60 * second;
     EvalInterval := 10 * second;
     InitialCooldown := 30 * second;
     MaxCooldown := 15 * minute;
     ActiveHealthReset := 30 * minute;
     AdmitScore := frac 60 100;
     AdmitPassesCand := 2;
     AdmitPassesHalf := 3;
     ProbingEnabled := false;
     ProbeURL := [];
     ProbeDailyBudgetBytes := 96 * MiB;
     ProbeQuickBytes := 128 * KiB;
     ProbeFullBytes := 2 * MiB;
     ProbeQuickInterval := 5 * minute;
     ProbeFullInterval := 60 * minute;
     ProbeYieldMiBps := frac 2 10;
     ProbePassQuickFloorMiBps := frac 5 10;
     ProbePassFullFloorMiBps := fone;
     WGoodput := frac 35 100;
     WSuccess := frac 25 100;
     WStall := frac 15 100;
     WTTFB := frac 10 100;
     WReset := frac 15 100 |}.

Definition sanitizePolicyConfig (c : PolicyConfig) : PolicyConfig :=
  let d := PolicyConfigDefaults in
  mkPolicyConfig
    (if streqb (Mode c) PolicyStatic || streqb (Mode c) PolicyAdaptive then Mode c else Mode d)
    (if TopK c <=? 0 then TopK d else TopK c)
    (if TTFBBaseline c <=? 0 then TTFBBaseline d else TTFBBaseline c)
    (if fle (SLAFloorMiBps c) fzero then SLAFloorMiBps d else SLAFloorMiBps c)
    (if fle (HardGateMinSuccess c) fzero || flt fone (HardGateMinSuccess c) then HardGateMinSuccess d else HardGateMinSuccess c)
    (if flt (HardGateMaxStallRate c) fzero then HardGateMaxStallRate d else HardGateMaxStallRate c)
    (if HardGateZeroDeliver c <=? 0 then HardGateZeroDeliver d else HardGateZeroDeliver c)
    (if FlapWindow c <=? 0 then FlapWindow d else FlapWindow c)
    (if FlapLimit c <=? 0 then FlapLimit d else FlapLimit c)
    (if ResetWindow c <=? 0 then ResetWindow d else ResetWindow c)
    (if ResetLimit c <=? 0 then ResetLimit d else ResetLimit c)
    (if AuthFailWindow c <=? 0 then AuthFailWindow d else AuthFailWindow c)
    (if fle (HysteresisMargin c) fzero then HysteresisMargin d else HysteresisMargin c)
    (if HysteresisTicks c <=? 0 then HysteresisTicks d else HysteresisTicks c)
    (if MinDwell c <=? 0 then MinDwell d else MinDwell c)
    (if EvalInterval c <=? 0 then EvalInterval d else EvalInterval c)
    (if InitialCooldown c <=? 0 then InitialCooldown d else InitialCooldown c)
    (if MaxCooldown c <=? 0 then MaxCooldown d else MaxCooldown c)
    (if ActiveHealthReset c <=? 0 then ActiveHealthReset d else ActiveHealthReset c)
    (if fle (AdmitScore c) fzero || flt fone (AdmitScore c) then AdmitScore d else AdmitScore c)
    (if AdmitPassesCand c <=? 0 then AdmitPassesCand d else AdmitPassesCand c)
    (if AdmitPassesHalf c <=? 0 then AdmitPassesHalf d else AdmitPassesHalf c)
    (ProbingEnabled c)
    (ProbeURL c)
    (if (ProbeDailyBudgetBytes c) <? 0 then ProbeDailyBudgetBytes d else ProbeDailyBudgetBytes c)
    (if ProbeQuickBytes c <=? 0 then ProbeQuickBytes d else ProbeQuickBytes c)
    (if ProbeFullBytes c <=? 0 then ProbeFullBytes d else ProbeFullBytes c)
    (if ProbeQuickInterval c <=? 0 then ProbeQuickInterval d else ProbeQuickInterval c)
    (if ProbeFullInterval c <=? 0 then ProbeFullInterval d else ProbeFullInterval c)
    (if fle (ProbeYieldMiBps c) fzero then ProbeYieldMiBps d else ProbeYieldMiBps c)
    (if fle (ProbePassQuickFloorMiBps c) fzero then ProbePassQuickFloorMiBps d else ProbePassQuickFloorMiBps c)
    (if fle (ProbePassFullFloorMiBps c) fzero then ProbePassFullFloorMiBps d else ProbePassFullFloorMiBps c)
    (if fle (WGoodput c) fzero then WGoodput d else WGoodput c)
    (if fle (WSuccess c) fzero then WSuccess d else WSuccess c)
    (if fle (WStall c) fzero then WStall d else WStall c)
    (if fle (WTTFB c) fzero then WTTFB d else WTTFB c)
    (if fle (WReset c) fzero then WReset d else WReset c).

(** ** Health *)
Record CarrierHealth := mkHealth {
  ID : CarrierID;
  State : carrierState;
  GoodputEWMA : float64;
  goodputRing : (list float64);
  goodputCursor : nat;
  goodputWrites : Z;
  passiveLastAt : Time;
  DeliveredBytes : Z;
  LastDeliveredAt : Time;
  LastPendingAt : Time;
  HasPending : bool;
  SuccessRing : (list bool);
  SuccessCursor : nat;
  SuccessWrites : Z;
  SuccessOK : Z;
  StallCount : Z;
  StallTotalDur : Duration;
  LastStallAt : Time;
  TTFBRing : (list Duration);
  TTFBCursor : nat;
  TTFBWrites : Z;
  Resets : (list Time);
  ResetsCursor : nat;
  Flaps : (list Time);
  FlapsCursor : nat;
  AuthFails : (list Time);
  AuthFailsCursor : nat;
  Rebinds : Z;
  ProbeGoodputEWMA : float64;
  probeLastAt : Time;
  ProbeBytesToday : Z;
  ProbeDayStamp : Time;
  LastProbePassFull : Time;
  LastProbePassQuick : Time;
  LastFullProbeAt : Time;
  LastQuickProbeAt : Time;
  ConsecProbeFails : Z;
  ConnectRTTLast : Duration;
  CooldownUntil : Time;
  CooldownPeriod : Duration;
  ExcludedSince : Time;
  ExclusionStreak : Z;
  ActiveSince : Time;
  HalfOpenPasses : Z;
  CandidatePasses : Z;
  LastScore : float64;
  GateReason : gostring
}.

#[export] Instance expand_CarrierHealth : Expandable CarrierHealth :=
  {| expand := λ h, mkHealth
      (ID h) (State h) (GoodputEWMA h) (goodputRing h) (goodputCursor h)
      (goodputWrites h) (passiveLastAt h) (DeliveredBytes h)
      (LastDeliveredAt h) (LastPendingAt h) (HasPending h) (SuccessRing h)
      (SuccessCursor h) (SuccessWrites h) (SuccessOK h) (StallCount h)
      (StallTotalDur h) (LastStallAt h) (TTFBRing h) (TTFBCursor h)
      (TTFBWrites h) (Resets h) (ResetsCursor h) (Flaps h) (FlapsCursor h)
      (AuthFails h) (AuthFailsCursor h) (Rebinds h) (ProbeGoodputEWMA h)
      (probeLastAt h) (ProbeBytesToday h) (ProbeDayStamp h)
      (LastProbePassFull h) (LastProbePassQuick h) (LastFullProbeAt h)
      (LastQuickProbeAt h) (ConsecProbeFails h) (ConnectRTTLast h)
      (CooldownUntil h) (CooldownPeriod h) (ExcludedSince h)
      (ExclusionStreak h) (ActiveSince h) (HalfOpenPasses h)
      (CandidatePasses h) (LastScore h) (GateReason h) |}.

(** The zero value with an identity, as [NewPolicy] creates it. *)
Definition newHealth (id : CarrierID) : CarrierHealth :=
  {| ID := id; State := stateCandidate;
     GoodputEWMA := fzero; goodputRing := replicate 50 fzero; goodputCursor := 0%nat;
     goodputWrites := 0; passiveLastAt := 0; DeliveredBytes := 0; LastDeliveredAt := 0;
     LastPendingAt := 0; HasPending := false;
     SuccessRing := replicate 50 false; SuccessCursor := 0%nat; SuccessWrites := 0; SuccessOK := 0;
     StallCount := 0; StallTotalDur := 0; LastStallAt := 0;
     TTFBRing := replicate 50 0; TTFBCursor := 0%nat; TTFBWrites := 0;
     Resets := replicate 64 0; ResetsCursor := 0%nat; Flaps := replicate 64 0; FlapsCursor := 0%nat;
     AuthFails := replicate 32 0; AuthFailsCursor := 0%nat; Rebinds := 0;
     ProbeGoodputEWMA := fzero; probeLastAt := 0; ProbeBytesToday := 0; ProbeDayStamp := 0;
     LastProbePassFull := 0; LastProbePassQuick := 0; LastFullProbeAt := 0; LastQuickProbeAt := 0;
     ConsecProbeFails := 0; ConnectRTTLast := 0;
     CooldownUntil := 0; CooldownPeriod := 0; ExcludedSince := 0; ExclusionStreak := 0;
     ActiveSince := 0; HalfOpenPasses := 0; CandidatePasses := 0;
     LastScore := fzero; GateReason := [] |}.

(** ** Measurements

    Each [record...] is the body of the Policy method of that name after the
    lookup of the carrier. *)

(** [cursor] advances by one around a ring of length [n]. *)
Definition bump (n cursor : nat) : nat := (cursor + 1) mod n.

(** The rate over the sample interval in MiB/s; 0 for the first sample and for
    one without elapsed time. *)
Definition instRate (bytes : Z) (now : Time) (h : CarrierHealth) : float64 :=
  if IsZero (passiveLastAt h) then fzero
  else
    let dt := Seconds (Sub now (passiveLastAt h)) in
    if flt fzero dt then fdiv (fdiv (of_Z bytes) (of_Z 1048576)) dt else fzero.

Definition passiveAlpha (pow : float64 → float64 → float64) (now : Time) (h : CarrierHealth) : float64 :=
  if IsZero (passiveLastAt h) then fone
  else
    let dt := Seconds (Sub now (passiveLastAt h)) in
    let dt := if fle dt fzero then fone else dt in
    let alpha := fsub fone (pow (frac 5 10) (fdiv dt (of_Z 60))) in
    if flt fone alpha then fone else alpha.

Definition ewma (alpha old sample : float64) : float64 :=
  fadd (fmul (fsub fone alpha) old) (fmul alpha sample).

Definition recordPassiveBytes (pow : float64 → float64 → float64) (bytes : Z) (now : Time)
  (h : CarrierHealth) : CarrierHealth :=
  let r := instRate bytes now h in
  let alpha := passiveAlpha pow now h in
  h <| DeliveredBytes := wraps 64 (DeliveredBytes h + bytes) |>
    <| LastDeliveredAt := now |>
    <| HasPending := false |>
    <| goodputRing := <[goodputCursor h := r]> (goodputRing h) |>
    <| goodputCursor := bump 50 (goodputCursor h) |>
    <| goodputWrites := goodputWrites h + 1 |>
    <| GoodputEWMA := ewma alpha (GoodputEWMA h) r |>
    <| passiveLastAt := now |>.

Definition recordPending (now : Time) (h : CarrierHealth) : CarrierHealth :=
  h <| HasPending := true |> <| LastPendingAt := now |>.

Definition recordStall (dur : Duration) (now : Time) (h : CarrierHealth) : CarrierHealth :=
  h <| StallCount := StallCount h + 1 |>
    <| StallTotalDur := wraps 64 (StallTotalDur h + dur) |>
    <| LastStallAt := now |>.

Definition pushSuccess (ok : bool) (h : CarrierHealth) : CarrierHealth :=
  let evicted := (50 <=? SuccessWrites h) && bool_decide (SuccessRing h !! SuccessCursor h = Some true) in
  h <| SuccessOK := SuccessOK h - (if evicted then 1 else 0) + (if ok then 1 else 0) |>
    <| SuccessRing := <[SuccessCursor h := ok]> (SuccessRing h) |>
    <| SuccessWrites := SuccessWrites h + 1 |>
    <| SuccessCursor := bump 50 (SuccessCursor h) |>.

Definition pushTTFB (ttfb : Duration) (h : CarrierHealth) : CarrierHealth :=
  h <| TTFBRing := <[TTFBCursor h := ttfb]> (TTFBRing h) |>
    <| TTFBCursor := bump 50 (TTFBCursor h) |>
    <| TTFBWrites := TTFBWrites h + 1 |>.

(** A clean completion is admission evidence while probing is off. *)
Definition recordStreamOutcome (cfg : PolicyConfig) (ok : bool) (ttfb : Duration) (h : CarrierHealth)
  : CarrierHealth :=
  let h := pushTTFB ttfb (pushSuccess ok h) in
  if ok && negb (ProbingEnabled cfg) then
    match State h with
    | stateCandidate => h <| CandidatePasses := CandidatePasses h + 1 |>
    | stateHalfOpen => h <| HalfOpenPasses := HalfOpenPasses h + 1 |>
    | _ => h
    end
  else h.

Definition recordReset (now : Time) (h : CarrierHealth) : CarrierHealth :=
  h <| Resets := <[ResetsCursor h := now]> (Resets h) |> <| ResetsCursor := bump 64 (ResetsCursor h) |>.

Definition recordFlap (now : Time) (h : CarrierHealth) : CarrierHealth :=
  h <| Flaps := <[FlapsCursor h := now]> (Flaps h) |> <| FlapsCursor := bump 64 (FlapsCursor h) |>.

Definition recordAuthFail (now : Time) (h : CarrierHealth) : CarrierHealth :=
  h <| AuthFails := <[AuthFailsCursor h := now]> (AuthFails h) |>
    <| AuthFailsCursor := bump 32 (AuthFailsCursor h) |>.

Definition recordRebind (h : CarrierHealth) : CarrierHealth := h <| Rebinds := Rebinds h + 1 |>.

Definition recordConnectRTT (rtt : Duration) (h : CarrierHealth) : CarrierHealth :=
  h <| ConnectRTTLast := rtt |>.

(** *** Probes

    [midnight t] is the start of the local day of [t] ([time.Date] of its year,
    month and day in its location). *)
Section probes.
Variable pow : float64 → float64 → float64.
Variable midnight : Time → Time.

Definition rollProbeDay (now : Time) (h : CarrierHealth) : CarrierHealth :=
  if IsZero (ProbeDayStamp h) then h <| ProbeDayStamp := now |>
  else if After (midnight now) (midnight (ProbeDayStamp h))
  then h <| ProbeBytesToday := 0 |> <| ProbeDayStamp := now |>
  else h.

Definition probePassed (goodput : float64) (now : Time) (full : bool) (h : CarrierHealth) : CarrierHealth :=
  let alpha := fsub fone (pow (frac 5 10) (fdiv fone (of_Z 600))) in
  let h := h <| ProbeGoodputEWMA := ewma alpha (ProbeGoodputEWMA h) goodput |>
             <| ConsecProbeFails := 0 |> in
  if full then
    let h := h <| LastProbePassFull := now |> <| LastFullProbeAt := now |> in
    match State h with
    | stateHalfOpen => h <| HalfOpenPasses := HalfOpenPasses h + 1 |>
    | stateCandidate => h <| CandidatePasses := CandidatePasses h + 1 |>
    | _ => h
    end
  else
    let h := h <| LastProbePassQuick := now |> <| LastQuickProbeAt := now |> in
    match State h with
    | stateCandidate => h <| CandidatePasses := CandidatePasses h + 1 |>
    | _ => h
    end.

Definition probeFailed (now : Time) (full : bool) (h : CarrierHealth) : CarrierHealth :=
  let h := h <| ConsecProbeFails := ConsecProbeFails h + 1 |>
             <| HalfOpenPasses := 0 |> <| CandidatePasses := 0 |> in
  if full then h <| LastFullProbeAt := now |> else h <| LastQuickProbeAt := now |>.

Definition recordProbe (cfg : PolicyConfig) (ok : bool) (goodput : float64) (bytes : Z) (now : Time)
  (full : bool) (h : CarrierHealth) : CarrierHealth :=
  let h := if (0 <? bytes) && ProbingEnabled cfg
           then let h := rollProbeDay now h in
                h <| ProbeBytesToday := wraps 64 (ProbeBytesToday h + bytes) |>
           else h in
  if ok then probePassed goodput now full h else probeFailed now full h.
End probes.

(** ** Statistics over the windows

    Go's sorts are insertion sorts on short slices; on longer ones they may
    arrange elements that compare equal differently, which neither statistic
    can see.  [rinsert] inserts into the sorted prefix, kept in reverse. *)
Section sort.
Context {A : Type} (less : A → A → bool).

Fixpoint rinsert (x : A) (sorted_rev : list A) : list A :=
  match sorted_rev with
  | y :: r => if less x y then y :: rinsert x r else x :: y :: r
  | [] => [x]
  end.

Definition isort (l : list A) : list A := reverse (foldl (λ acc x, rinsert x acc) [] l).
End sort.

(** [sort.Float64s] puts NaN first. *)
Definition float_less (x y : float64) : bool := (is_nan x && negb (is_nan y)) || flt x y.

Definition written {A} (writes : Z) (ring : list A) : list A :=
  let n := if writes >? Z.of_nat (length ring) then length ring else Z.to_nat writes in
  take n ring.

Definition goodputP10Locked (h : CarrierHealth) : float64 :=
  let tmp := isort float_less (written (goodputWrites h) (goodputRing h)) in
  let n := Z.of_nat (length tmp) in
  if n <=? 0 then fzero
  else
    let idx := trunc (fmul (frac 1 10) (of_Z n)) in
    let idx := if idx >=? n then n - 1 else idx in
    let idx := if idx <? 0 then 0 else idx in
    default fzero (tmp !! Z.to_nat idx).

Definition ttfbP50Locked (h : CarrierHealth) : Duration :=
  let tmp := isort Z.ltb (written (TTFBWrites h) (TTFBRing h)) in
  if Nat.eqb (length tmp) 0 then 0 else default 0 (tmp !! (length tmp / 2)%nat).

Definition stallRatePer100MiB (h : CarrierHealth) : float64 :=
  if DeliveredBytes h <=? 0 then fzero
  else fdiv (fmul (fmul (of_Z (StallCount h)) (of_Z 100)) (of_Z 1048576)) (of_Z (DeliveredBytes h)).

(** The number of times in [ring] that are set and after [now - window]. *)
Definition countAfter (window : Duration) (now : Time) (ring : list Time) : Z :=
  let cutoff := Add now (wraps 64 (- window)) in
  foldl (λ n ts, if negb (IsZero ts) && After ts cutoff then n + 1 else n) 0 ring.

Definition resetCountLocked (cfg : PolicyConfig) (h : CarrierHealth) (now : Time) : Z :=
  countAfter (ResetWindow cfg) now (Resets h).
Definition flapCountLocked (cfg : PolicyConfig) (h : CarrierHealth) (now : Time) : Z :=
  countAfter (FlapWindow cfg) now (Flaps h).
Definition authFailCountLocked (cfg : PolicyConfig) (h : CarrierHealth) (now : Time) : Z :=
  countAfter (AuthFailWindow cfg) now (AuthFails h).

Definition attempts (h : CarrierHealth) : Z :=
  if SuccessWrites h >? Z.of_nat (length (SuccessRing h))
  then Z.of_nat (length (SuccessRing h)) else SuccessWrites h.

(** Laplace-smoothed success ratio. *)
Definition successRatio (h : CarrierHealth) : float64 :=
  fdiv (of_Z (SuccessOK h + 1)) (of_Z (attempts h + 2)).

(** ** The score *)
Record ScoreComponents := mkScore {
  Goodput : float64;
  Success : float64;
  Stall : float64;
  TTFB : float64;
  Reset : float64;
  Total : float64;
  Neutral : list gostring;
  Eligible : bool;
  c_GateReason : gostring
}.

Definition goodputTerm (cfg : PolicyConfig) (h : CarrierHealth) : float64 * list gostring :=
  let p10 := goodputP10Locked h in
  let usedProbe := fle p10 fzero && flt fzero (ProbeGoodputEWMA h) in
  let p10 := if usedProbe then ProbeGoodputEWMA h else p10 in
  (clamp01 (fdiv p10 (SLAFloorMiBps cfg)), if usedProbe then [lit "G(probe)"] else []).

Definition successTerm (h : CarrierHealth) : float64 * list gostring :=
  if attempts h <? 10 then (frac 5 10, [lit "S(neutral)"]) else (successRatio h, []).

Definition stallTerm (h : CarrierHealth) : float64 :=
  clamp01 (fsub fone (fdiv (stallRatePer100MiB h) (of_Z 4))).

Definition ttfbTerm (cfg : PolicyConfig) (h : CarrierHealth) : float64 * list gostring :=
  let p50 := ttfbP50Locked h in
  if (0 <? p50) && (0 <? TTFBBaseline cfg) then
    let ratio := fdiv (Seconds p50) (Seconds (TTFBBaseline cfg)) in
    (clamp01 (fsub fone (fdiv (fsub ratio (frac 15 10)) (frac 25 10))), [])
  else (frac 5 10, [lit "T(neutral)"]).

Definition resetTerm (cfg : PolicyConfig) (h : CarrierHealth) (now : Time) : float64 :=
  fsub fone (fmin fone (fdiv (of_Z (resetCountLocked cfg h now)) (of_Z (ResetLimit cfg)))).

Definition stalledNow (cfg : PolicyConfig) (h : CarrierHealth) (now : Time) : bool :=
  HasPending h && negb (IsZero (LastDeliveredAt h))
  && (HardGateZeroDeliver cfg <=? Sub now (LastDeliveredAt h)).

(** The hard gates; the first that matches names the reason. *)
Definition hardGate (cfg : PolicyConfig) (h : CarrierHealth) (now : Time) (success stallRate : float64)
  : gostring :=
  if ProbingEnabled cfg && (2 <=? ConsecProbeFails h) then lit "H1 probe"
  else if FlapLimit cfg <=? flapCountLocked cfg h now then lit "H2 flap"
  else if 0 <? authFailCountLocked cfg h now then lit "H3 auth"
  else if stalledNow cfg h now then lit "H4 stall"
  else if flt success (HardGateMinSuccess cfg) then lit "success_ratio"
  else if flt (HardGateMaxStallRate cfg) stallRate then lit "stall_rate"
  else [].

Definition scoreLocked (cfg : PolicyConfig) (h : CarrierHealth) (now : Time) : ScoreComponents :=
  let g := goodputTerm cfg h in
  let s := successTerm h in
  let n := stallTerm h in
  let t := ttfbTerm cfg h in
  let r := resetTerm cfg h now in
  let total :=
    fadd (fadd (fadd (fadd (fmul (WGoodput cfg) g.1) (fmul (WSuccess cfg) s.1))
                     (fmul (WStall cfg) n)) (fmul (WTTFB cfg) t.1)) (fmul (WReset cfg) r) in
  let reason := hardGate cfg h now s.1 (stallRatePer100MiB h) in
  let reason := if streqb reason [] && negb (bool_decide (State h = stateActive))
                then lit "not_active" else reason in
  {| Goodput := g.1; Success := s.1; Stall := n; TTFB := t.1; Reset := r;
     Total := clamp01 total; Neutral := g.2 ++ s.2 ++ t.2;
     Eligible := streqb reason []; c_GateReason := reason |}.

Definition gateExcluded (c : ScoreComponents) : bool :=
  existsb (streqb (c_GateReason c))
    [lit "H1 probe"; lit "H2 flap"; lit "H3 auth"; lit "H4 stall"; lit "success_ratio"; lit "stall_rate"].
