(* ===== verification/Policy.v ===== *)
(** * The carrier policy engine (pkg/node/intel.go, second half)

    A [Policy] keeps the health records of the configured carriers, the
    hysteresis state of the primary carrier and the virtual counters of the
    weighted round-robin.  Every method runs under [p.mu], so an interleaving of
    callers is a sequence of [op]s.  The two probe methods that take the mutex
    while another one holds it are written with the mutex as an argument.  The
    clock is the [now] argument of each method, as in the code; the [now] field
    of the struct is never read. *)
From S2P Require Export Health.
#[local] Open Scope Z_scope.

Record Policy := mkPolicy {
  cfg : PolicyConfig;
  ids : list CarrierID;
  health : gmap CarrierID CarrierHealth;
  wrr : gmap CarrierID Z;
  incumbent : CarrierID;
  challenger : CarrierID;
  challengerTicks : Z;
  lastSwitchAt : Time;
  switchCount : Z;
  lastEval : Time
}.

#[export] Instance expand_Policy : Expandable Policy :=
  {| expand := λ p, mkPolicy (cfg p) (ids p) (health p) (wrr p) (incumbent p) (challenger p)
      (challengerTicks p) (lastSwitchAt p) (switchCount p) (lastEval p) |}.

Inductive policy_error := ProbeURLMissingError.

Definition NewPolicy (c : PolicyConfig) (ids : list CarrierID) : res policy_error Policy :=
  let c := sanitizePolicyConfig c in
  if ProbingEnabled c && streqb (ProbeURL c) [] then Err ProbeURLMissingError
  else Ok (mkPolicy c ids (foldl (λ m id, <[id := newHealth id]> m) ∅ ids) ∅ [] [] 0 0 0 0).

(** [f] applied to the record of [id]; the methods return at once for a
    carrier they do not know. *)
Definition onHealth (id : CarrierID) (f : CarrierHealth → CarrierHealth) (p : Policy) : Policy :=
  match health p !! id with
  | Some h => p <| health := <[id := f h]> (health p) |>
  | None => p
  end.

(** ** Measurements *)
Definition RecordPassiveBytes (pow : float64 → float64 → float64) (id : CarrierID) (bytes : Z) (now : Time)
  (p : Policy) : Policy :=
  if bytes <=? 0 then p else onHealth id (recordPassiveBytes pow bytes now) p.
Definition RecordPending (id : CarrierID) (now : Time) : Policy → Policy := onHealth id (recordPending now).
Definition RecordStall (id : CarrierID) (dur : Duration) (now : Time) : Policy → Policy :=
  onHealth id (recordStall dur now).
Definition RecordStreamOutcome (id : CarrierID) (ok : bool) (ttfb : Duration) (p : Policy) : Policy :=
  onHealth id (recordStreamOutcome (cfg p) ok ttfb) p.
Definition RecordReset (id : CarrierID) (now : Time) : Policy → Policy := onHealth id (recordReset now).
Definition RecordFlap (id : CarrierID) (now : Time) : Policy → Policy := onHealth id (recordFlap now).
Definition RecordAuthFail (id : CarrierID) (now : Time) : Policy → Policy := onHealth id (recordAuthFail now).
Definition RecordRebind (id : CarrierID) : Policy → Policy := onHealth id recordRebind.
Definition RecordConnectRTT (id : CarrierID) (rtt : Duration) : Policy → Policy :=
  onHealth id (recordConnectRTT rtt).

(** ** Probing

    [held] says whether the mutex is held when the method is called, by this
    goroutine or by one that never releases it: Go's mutex is not reentrant and
    the call never returns. *)
Inductive call (A : Type) := Returned (a : A) | Blocked.
Arguments Returned {A} a.
Arguments Blocked {A}.

#[export] Instance call_mbind : MBind call :=
  λ A B f m, match m with Returned a => f a | Blocked => Blocked end.

Definition locked {A} (held : bool) (body : call A) : call A := if held then Blocked else body.

Section probing.
Variable pow : float64 → float64 → float64.
Variable midnight : Time → Time.

Definition RecordProbe (id : CarrierID) (ok : bool) (goodput : float64) (bytes : Z) (now : Time) (full : bool)
  (p : Policy) : Policy :=
  onHealth id (recordProbe pow midnight (cfg p) ok goodput bytes now full) p.

Definition canProbe (id : CarrierID) (bytes : Z) (now : Time) (p : Policy) : bool * Policy :=
  match health p !! id with
  | None => (false, p)
  | Some h =>
      if negb (ProbingEnabled (cfg p)) then (false, p)
      else if 0 <? ProbeDailyBudgetBytes (cfg p) then
        let h := rollProbeDay midnight now h in
        let p := p <| health := <[id := h]> (health p) |> in
        (negb (wraps 64 (ProbeBytesToday h + bytes) >? ProbeDailyBudgetBytes (cfg p)), p)
      else (true, p)
  end.

Definition CanProbe (held : bool) (id : CarrierID) (bytes : Z) (now : Time) (p : Policy)
  : call (bool * Policy) := locked held (Returned (canProbe id bytes now p)).

Definition probeDue (c : PolicyConfig) (now : Time) (full : bool) (h : CarrierHealth) : bool :=
  if full then
    if IsZero (LastFullProbeAt h) then true
    else ProbeFullInterval c <=? Sub now (LastFullProbeAt h)
  else if flt (ProbeYieldMiBps c) (GoodputEWMA h) then false
  else if IsZero (LastQuickProbeAt h) then true
  else ProbeQuickInterval c <=? Sub now (LastQuickProbeAt h).

(** [CanProbe] is called with the mutex still held. *)
Definition DueProbe (held : bool) (id : CarrierID) (now : Time) (full : bool) (p : Policy)
  : call (bool * Policy) :=
  locked held
    match health p !! id with
    | None => Returned (false, p)
    | Some h =>
        if negb (ProbingEnabled (cfg p)) then Returned (false, p)
        else r ← CanProbe true id 1 now p;
             Returned (r.1 && probeDue (cfg p) now full h, r.2)
    end.

Definition ProbesAllowed (held : bool) (id : CarrierID) (now : Time) (p : Policy) : call (bool * Policy) :=
  CanProbe held id 1 now p.
End probing.

(** ** The lifecycle *)
Fixpoint doublePeriod (n : nat) (max period : Duration) : Duration :=
  match n with
  | O => period
  | S n =>
      let period := wraps 64 (period * 2) in
      if period >? max then max else doublePeriod n max period
  end.

Definition cooldownPeriod (c : PolicyConfig) (streak : Z) : Duration :=
  doublePeriod (Z.to_nat (streak - 1)) (MaxCooldown c) (InitialCooldown c).

Definition excludeLocked (c : PolicyConfig) (h : CarrierHealth) (now : Time) (reason : gostring)
  : CarrierHealth :=
  if bool_decide (State h = stateExcluded) then h <| GateReason := reason |>
  else
    let streak := ExclusionStreak h + 1 in
    let period := cooldownPeriod c streak in
    h <| State := stateExcluded |>
      <| ExcludedSince := now |>
      <| GateReason := reason |>
      <| ExclusionStreak := streak |>
      <| CooldownUntil := Add now period |>
      <| CooldownPeriod := period |>.

Definition advanceLifecycle (c : PolicyConfig) (h : CarrierHealth) (comp : ScoreComponents) (now : Time)
  : CarrierHealth :=
  match State h with
  | stateCandidate =>
      if ProbingEnabled c && (2 <=? ConsecProbeFails h) then excludeLocked c h now (lit "H1 probe")
      else if (AdmitPassesCand c <=? CandidatePasses h) && fle (AdmitScore c) (LastScore h)
              && negb (gateExcluded comp)
      then h <| State := stateActive |> <| ActiveSince := now |> <| CandidatePasses := 0 |>
      else if gateExcluded comp then excludeLocked c h now (c_GateReason comp)
      else h
  | stateActive =>
      if FlapLimit c <=? flapCountLocked c h now then excludeLocked c h now (lit "H2 flap")
      else if 0 <? authFailCountLocked c h now then excludeLocked c h now (lit "H3 auth")
      else if stalledNow c h now then excludeLocked c h now (lit "H4 stall")
      else if gateExcluded comp then excludeLocked c h now (c_GateReason comp)
      else if ActiveHealthReset c <=? Sub now (ActiveSince h)
      then h <| ExclusionStreak := 0 |> <| CooldownPeriod := 0 |>
      else h
  | stateExcluded =>
      if negb (IsZero (CooldownUntil h)) && negb (Before now (CooldownUntil h))
      then h <| State := stateHalfOpen |> <| ExcludedSince := 0 |>
      else h
  | stateHalfOpen =>
      if ProbingEnabled c && (0 <? ConsecProbeFails h) then excludeLocked c h now (lit "half_open probe fail")
      else if AdmitPassesHalf c <=? HalfOpenPasses h
      then h <| State := stateActive |> <| ActiveSince := now |> <| HalfOpenPasses := 0 |>
      else h
  end.

(** One carrier's share of a tick. *)
Definition evalCarrier (c : PolicyConfig) (now : Time) (h : CarrierHealth) : CarrierHealth :=
  let comp := scoreLocked c h now in
  let h := h <| LastScore := Total comp |> in
  let h := h <| GateReason := if negb (Eligible comp) && negb (streqb (c_GateReason comp) [])
                              then c_GateReason comp else [] |> in
  advanceLifecycle c h comp now.

(** ** Eligible carriers and the best of them *)
Definition isActive (p : Policy) (id : CarrierID) : bool :=
  match health p !! id with Some h => bool_decide (State h = stateActive) | None => false end.

Definition isEligible (now : Time) (p : Policy) (id : CarrierID) : bool :=
  match health p !! id with
  | Some h => bool_decide (State h = stateActive) && Eligible (scoreLocked (cfg p) h now)
  | None => false
  end.

Definition eligibleActiveLocked (now : Time) (p : Policy) : list CarrierID :=
  List.filter (isEligible now p) (ids p).

Definition activeLocked (p : Policy) : list CarrierID := List.filter (isActive p) (ids p).

Definition isEligibleSet (eligible : list CarrierID) (id : CarrierID) : bool := existsb (streqb id) eligible.

Definition primaryOf (p : Policy) (candidates : list CarrierID) : CarrierID :=
  match candidates with
  | [] => []
  | c :: _ => match List.find (λ id, existsb (streqb id) candidates) (ids p) with
              | Some id => id
              | None => c
              end
  end.

Definition Score (p : Policy) (id : CarrierID) : float64 :=
  match health p !! id with Some h => LastScore h | None => fzero end.

(** Go compares strings bytewise. *)
Fixpoint strltb (a b : gostring) : bool :=
  match a, b with
  | [], [] => false
  | [], _ :: _ => true
  | _ :: _, [] => false
  | x :: a, y :: b => if bz x <? bz y then true else if bz y <? bz x then false else strltb a b
  end.

Definition betterThan (p : Policy) (best : CarrierID * float64) (id : CarrierID) : bool :=
  streqb best.1 [] || flt best.2 (Score p id) || (feq (Score p id) best.2 && strltb id best.1).

Definition bestEligibleLocked (p : Policy) (eligible : list CarrierID) : CarrierID :=
  (foldl (λ best id, if betterThan p best id then (id, Score p id) else best)
     ([], of_Z (-1)) eligible).1.

(** ** One tick *)
Definition resetChallenger (p : Policy) : Policy :=
  p <| challenger := [] |> <| challengerTicks := 0 |>.

Definition adopt (best : CarrierID) (now : Time) (p : Policy) : Policy :=
  resetChallenger (p <| incumbent := best |> <| lastSwitchAt := now |>).

Definition switchTo (best : CarrierID) (now : Time) (p : Policy) : Policy :=
  adopt best now (p <| switchCount := switchCount p + 1 |>).

(** Whether [best] beats the incumbent by the margin. *)
Definition beatsIncumbent (p : Policy) (best : CarrierID) : bool :=
  fle (fadd (Score p (incumbent p)) (HysteresisMargin (cfg p))) (Score p best).

Definition countChallenger (best : CarrierID) (p : Policy) : Policy :=
  if beatsIncumbent p best then
    if streqb (challenger p) best then p <| challengerTicks := challengerTicks p + 1 |>
    else p <| challenger := best |> <| challengerTicks := 1 |>
  else resetChallenger p.

Definition hysteresis (now : Time) (p : Policy) : Policy :=
  let eligible := eligibleActiveLocked now p in
  match eligible with
  | [] => resetChallenger (p <| incumbent := [] |>)
  | _ :: _ =>
      let best := bestEligibleLocked p eligible in
      if streqb (incumbent p) [] then adopt best now p
      else if negb (isEligibleSet eligible (incumbent p)) then switchTo best now p
      else if streqb best (incumbent p) then resetChallenger p
      else
        let p := countChallenger best p in
        if streqb (challenger p) best && (HysteresisTicks (cfg p) <=? challengerTicks p)
           && negb (Before now (Add (lastSwitchAt p) (MinDwell (cfg p))))
        then switchTo best now p else p
  end.

Definition evalAll (now : Time) (p : Policy) : Policy :=
  foldl (λ p id, onHealth id (evalCarrier (cfg p) now) p) p (ids p).

Definition Evaluate (now : Time) (p : Policy) : Policy :=
  let p := (evalAll now p) <| lastEval := now |> in
  if negb (streqb (Mode (cfg p)) PolicyAdaptive) then p else hysteresis now p.

Definition adoptStaticPrimary (p : Policy) : Policy :=
  let eligible := eligibleActiveLocked (lastEval p) p in
  let eligible := match eligible with [] => activeLocked p | _ => eligible end in
  match eligible with
  | [] => p <| incumbent := [] |>
  | _ => p <| incumbent := primaryOf p eligible |>
  end.

(** ** The choice for a new stream *)
Record slot := mkSlot { s_id : CarrierID; weight : Z; virt : Z }.

Definition wrrWeight (s : float64) : Z :=
  let w := round_int (fmul (fmul (of_Z 100) s) s) in
  if w <? 0 then 0 else w.

Definition slotOf (p : Policy) (id : CarrierID) : slot :=
  mkSlot id (wrrWeight (Score p id)) (default 0 (wrr p !! id)).

Definition charge (s : slot) : slot := mkSlot (s_id s) (weight s) (wraps 64 (virt s + weight s)).

(** The first of the slots with the highest value above [maxV]. *)
Fixpoint maxSlot (i : nat) (maxV : Z) (maxIdx : nat) (slots : list slot) : nat :=
  match slots with
  | [] => maxIdx
  | s :: slots =>
      if virt s >? maxV then maxSlot (S i) (virt s) i slots else maxSlot (S i) maxV maxIdx slots
  end.

Definition discharge (maxIdx : nat) (v : Z) (i : nat) (s : slot) : slot :=
  if Nat.eqb i maxIdx then s else mkSlot (s_id s) (weight s) (wraps 64 (virt s - v)).

Definition smoothWRR (top : list CarrierID) (p : Policy) : CarrierID * Policy :=
  let slots := map (slotOf p) top in
  let total := zsum weight slots in
  if total =? 0 then (primaryOf p top, p)
  else
    let slots := map charge slots in
    let maxIdx := maxSlot 0 (-1) 0 slots in
    match slots !! maxIdx with
    | None => ([], p)
    | Some winner =>
        let slots := imap (discharge maxIdx (virt winner)) slots in
        (s_id winner, p <| wrr := foldl (λ m s, <[s_id s := virt s]> m) (wrr p) slots |>)
    end.

(** Score descending, then the incumbent, then the identifier. *)
Definition rankedLess (p : Policy) (a b : CarrierID) : bool :=
  let sa := Score p a in
  let sb := Score p b in
  if negb (feq sa sb) then flt sb sa
  else if streqb a (incumbent p) then true
  else if streqb b (incumbent p) then false
  else strltb a b.

Definition topK (p : Policy) (eligible : list CarrierID) : list CarrierID :=
  let k := Z.min (TopK (cfg p)) (Z.of_nat (length eligible)) in
  take (Z.to_nat k) (isort (rankedLess p) eligible).

Definition PickForNewStream (now : Time) (p : Policy) : CarrierID * Policy :=
  if negb (streqb (Mode (cfg p)) PolicyAdaptive) then
    (match eligibleActiveLocked now p with
     | id :: _ => id
     | [] => match activeLocked p with id :: _ => id | [] => [] end
     end, p)
  else
    match eligibleActiveLocked now p with
    | [] => ([], p)
    | eligible => smoothWRR (topK p eligible) p
    end.

(** ** Observation *)
Definition CooldownRemaining (id : CarrierID) (now : Time) (p : Policy) : Duration :=
  match health p !! id with
  | None => 0
  | Some h =>
      if negb (bool_decide (State h = stateExcluded)) || IsZero (CooldownUntil h) then 0
      else Z.max 0 (Sub (CooldownUntil h) now)
  end.

Definition StateOf (id : CarrierID) (p : Policy) : carrierState :=
  match health p !! id with Some h => State h | None => stateCandidate end.

Definition LastGateReason (id : CarrierID) (p : Policy) : gostring :=
  match health p !! id with Some h => GateReason h | None => [] end.

Definition ProbeBytesUsedToday (id : CarrierID) (p : Policy) : Z :=
  match health p !! id with Some h => ProbeBytesToday h | None => 0 end.

Definition SuccessRatio (id : CarrierID) (p : Policy) : float64 :=
  match health p !! id with Some h => successRatio h | None => fzero end.

Record CarrierSnapshot := mkSnapshot {
  cs_ID : CarrierID;
  cs_State : gostring;
  cs_Score : float64;
  cs_GoodputMiBps : float64;
  cs_ProbeGoodputMiBps : float64;
  cs_SuccessRatio : float64;
  cs_StallCount : Z;
  cs_StallRatePer100MiB : float64;
  cs_TTFBP50MS : Z;
  cs_FlapCount : Z;
  cs_ResetCount : Z;
  cs_Rebinds : Z;
  cs_ConnectRTTMS : Z;
  cs_GateReason : gostring;
  cs_Eligible : bool;
  cs_CooldownRemainingSec : Z;
  cs_ProbeBytesToday : Z;
  cs_ProbeBudgetBytes : Z;
  cs_ProbeExhausted : bool
}.

Record HealthSnapshot := mkHealthSnapshot {
  hs_Mode : gostring;
  hs_Adaptive : bool;
  hs_Carriers : list CarrierSnapshot;
  hs_Incumbent : CarrierID;
  hs_LastEval : Time
}.

Definition snapshotOf (c : PolicyConfig) (now : Time) (id : CarrierID) (h : CarrierHealth) : CarrierSnapshot :=
  let comp := scoreLocked c h now in
  {| cs_ID := id; cs_State := carrierState_String (State h); cs_Score := Total comp;
     cs_GoodputMiBps := GoodputEWMA h; cs_ProbeGoodputMiBps := ProbeGoodputEWMA h;
     cs_SuccessRatio := Success comp; cs_StallCount := StallCount h;
     cs_StallRatePer100MiB := stallRatePer100MiB h; cs_TTFBP50MS := Milliseconds (ttfbP50Locked h);
     cs_FlapCount := flapCountLocked c h now; cs_ResetCount := resetCountLocked c h now;
     cs_Rebinds := Rebinds h; cs_ConnectRTTMS := Milliseconds (ConnectRTTLast h);
     cs_GateReason := GateReason h; cs_Eligible := Eligible comp;
     cs_CooldownRemainingSec :=
       if bool_decide (State h = stateExcluded) && negb (IsZero (CooldownUntil h)) then
         let rem := Sub (CooldownUntil h) now in
         if 0 <? rem then trunc (Seconds rem) else 0
       else 0;
     cs_ProbeBytesToday := ProbeBytesToday h; cs_ProbeBudgetBytes := ProbeDailyBudgetBytes c;
     cs_ProbeExhausted := ProbingEnabled c && (0 <? ProbeDailyBudgetBytes c)
                          && (ProbeDailyBudgetBytes c <=? ProbeBytesToday h) |}.

Definition HealthSnapshotNow (now : Time) (p : Policy) : HealthSnapshot :=
  {| hs_Mode := Mode (cfg p); hs_Adaptive := streqb (Mode (cfg p)) PolicyAdaptive;
     hs_Carriers := omap (λ id, snapshotOf (cfg p) now id <$> health p !! id) (ids p);
     hs_Incumbent := incumbent p; hs_LastEval := lastEval p |}.

(** Ordinals of the metrics surface. *)
Definition ordinal (names : list gostring) (s : gostring) : Z :=
  match list_find (λ n, n = s) names with Some (i, _) => Z.of_nat i | None => Z.of_nat (length names) end.

Definition gateReasonOrdinal (reason : gostring) : Z :=
  ordinal [[]; lit "H1 probe"; lit "H2 flap"; lit "H3 auth"; lit "H4 stall"; lit "success_ratio";
           lit "stall_rate"; lit "not_active"] reason.

Definition stateOrdinal (name : gostring) : Z :=
  ordinal [lit "candidate"; lit "active"; lit "excluded"; lit "half_open"] name.

(** ** Histories *)
Inductive op :=
| OPassiveBytes (id : CarrierID) (bytes : Z) (now : Time)
| OPending (id : CarrierID) (now : Time)
| OStall (id : CarrierID) (dur : Duration) (now : Time)
| OStreamOutcome (id : CarrierID) (ok : bool) (ttfb : Duration)
| OReset (id : CarrierID) (now : Time)
| OFlap (id : CarrierID) (now : Time)
| OAuthFail (id : CarrierID) (now : Time)
| ORebind (id : CarrierID)
| OConnectRTT (id : CarrierID) (rtt : Duration)
| OProbe (id : CarrierID) (ok : bool) (goodput : float64) (bytes : Z) (now : Time) (full : bool)
| OCanProbe (id : CarrierID) (bytes : Z) (now : Time)
| OEvaluate (now : Time)
| OPick (now : Time).

Section histories.
Variable pow : float64 → float64 → float64.
Variable midnight : Time → Time.

Definition step (p : Policy) (o : op) : Policy :=
  match o with
  | OPassiveBytes id bytes now => RecordPassiveBytes pow id bytes now p
  | OPending id now => RecordPending id now p
  | OStall id dur now => RecordStall id dur now p
  | OStreamOutcome id ok ttfb => RecordStreamOutcome id ok ttfb p
  | OReset id now => RecordReset id now p
  | OFlap id now => RecordFlap id now p
  | OAuthFail id now => RecordAuthFail id now p
  | ORebind id => RecordRebind id p
  | OConnectRTT id rtt => RecordConnectRTT id rtt p
  | OProbe id ok gp bytes now full => RecordProbe pow midnight id ok gp bytes now full p
  | OCanProbe id bytes now => (canProbe midnight id bytes now p).2
  | OEvaluate now => Evaluate now p
  | OPick now => (PickForNewStream now p).2
  end.

Definition run (p : Policy) (os : list op) : Policy := foldl step p os.
End histories.
