(* ===== verification/HealthSafety.v ===== *)
(** * What the health windows hold and what the score is

    A ring written at a cursor holds the last [n] values of its history; the
    statistics read it through order-insensitive functions, so they are
    functions of the last [n] values.  Every term of the score and its total
    are proper numbers between 0 and 1. *)
From stdpp Require Export sorting.
From S2P Require Export Health.
#[local] Open Scope Z_scope.

(** ** Ring buffers *)
Section ring.
Context {A : Type}.
Implicit Types (ring hist : list A) (n c : nat).

(** The last [n] values of a history. *)
Definition recent n hist : list A := drop (length hist - n) hist.

(** [ring], to be written next at [c], holds the recent part of [hist]: in
    order from the start while it fills, rotated by [c] afterwards. *)
Definition ring_holds n ring c hist : Prop :=
  length ring = n ∧ c = (length hist mod n)%nat ∧
  if decide (length hist < n)%nat then take (length hist) ring = hist
  else drop c ring ++ take c ring = recent n hist.

Lemma ring_holds_init n (d : A) : (0 < n)%nat → ring_holds n (replicate n d) 0 [].
Proof.
  intros Hn. split; [apply length_replicate|]. simpl. rewrite Nat.Div0.mod_0_l.
  split; [done|]. by rewrite decide_True by lia.
Qed.

Lemma bump_mod n len : (0 < n)%nat → bump n (len mod n) = ((len + 1) mod n)%nat.
Proof. intros. unfold bump. by rewrite Nat.Div0.add_mod_idemp_l. Qed.

Lemma recent_all n hist : (length hist ≤ n)%nat → recent n hist = hist.
Proof. intros. unfold recent. by replace (length hist - n)%nat with 0%nat by lia. Qed.

Lemma recent_snoc n hist x y l :
  (0 < n ≤ length hist)%nat → recent n hist = y :: l → recent n (hist ++ [x]) = l ++ [x].
Proof.
  intros Hn Hr. unfold recent in *. rewrite length_app. cbn [length].
  replace (length hist + 1 - n)%nat with (length hist - n + 1)%nat by lia.
  rewrite drop_app_le by lia. rewrite <- drop_drop, Hr. done.
Qed.

Lemma split_at ring c : (c < length ring)%nat → ∃ l1 y l2, ring = l1 ++ y :: l2 ∧ length l1 = c.
Proof.
  intros Hc. destruct (lookup_lt_is_Some_2 ring c Hc) as [y Hy].
  exists (take c ring), y, (drop (S c) ring). split; [by rewrite take_drop_middle|].
  rewrite length_take. lia.
Qed.

Lemma ring_holds_push n ring c hist x :
  (0 < n)%nat → ring_holds n ring c hist → ring_holds n (<[c:=x]> ring) (bump n c) (hist ++ [x]).
Proof.
  intros Hn (Hl & Hc & Hr). split; [by rewrite length_insert|].
  rewrite length_app. cbn [length]. split; [by rewrite Hc, bump_mod|].
  assert (Hcn : (c < n)%nat) by (subst c; apply Nat.mod_upper_bound; lia).
  destruct (split_at ring c) as (l1 & y & l2 & -> & Hl1); [lia|]. rewrite length_app in Hl. simpl in Hl.
  assert (Hins : <[c:=x]> (l1 ++ y :: l2) = l1 ++ x :: l2).
  { rewrite <- Hl1. rewrite <- (Nat.add_0_r (length l1)). by rewrite insert_app_r. }
  rewrite Hins. clear Hins. case_decide as Hlt.
  - rewrite Nat.mod_small in Hc by done.
    rewrite <- Hc, take_app_length' in Hr by done. subst l1.
    case_decide as Hlt'.
    + rewrite <- Hc. replace (c + 1)%nat with (length (hist ++ [x])) by (rewrite length_app; simpl; lia).
      replace (hist ++ x :: l2) with ((hist ++ [x]) ++ l2) by by rewrite <- app_assoc.
      by rewrite take_app_length.
    + destruct l2; [|simpl in *; lia].
      assert (bump n c = 0)%nat as ->.
      { unfold bump. replace (c + 1)%nat with n by (simpl in *; lia). apply Nat.Div0.mod_same. }
      rewrite drop_0, take_0, app_nil_r.
      rewrite recent_all; [done|]. rewrite length_app. simpl. lia.
  - case_decide; [lia|].
    rewrite drop_app_length', take_app_length' in Hr by done.
    rewrite (recent_snoc n hist x y (l2 ++ l1)) by (lia || done).
    destruct l2 as [|z l2].
    + assert (bump n c = 0)%nat as ->.
      { unfold bump. replace (c + 1)%nat with n by (simpl in *; lia). apply Nat.Div0.mod_same. }
      by rewrite drop_0, take_0, app_nil_r.
    + assert (bump n c = c + 1)%nat as ->.
      { unfold bump. apply Nat.mod_small. simpl in *. lia. }
      replace (l1 ++ x :: z :: l2) with ((l1 ++ [x]) ++ z :: l2) by by rewrite <- app_assoc.
      rewrite drop_app_length', take_app_length' by (rewrite length_app; simpl; lia).
      by rewrite <- app_assoc.
Qed.

(** Whatever reads the written part of a ring without regard to order reads
    the recent history. *)
Lemma ring_holds_written n ring c hist :
  ring_holds n ring c hist → written (Z.of_nat (length hist)) ring ≡ₚ recent n hist.
Proof.
  intros (Hl & Hc & Hr). unfold written. case_decide as Hlt.
  - rewrite recent_all by lia. rewrite Z.gtb_ltb. destruct (Z.ltb_spec (Z.of_nat (length ring)) (Z.of_nat (length hist))); [lia|].
    by rewrite Nat2Z.id, Hr.
  - rewrite take_ge by (case_match; lia).
    rewrite <- Hr, (Permutation_app_comm (drop c ring)). by rewrite take_drop.
Qed.

Lemma ring_holds_length n ring c hist : ring_holds n ring c hist → length ring = n.
Proof. by intros [? _]. Qed.

(** The slot at the cursor of a full ring is the oldest recent value. *)
Lemma ring_holds_oldest n ring c hist :
  (0 < n ≤ length hist)%nat → ring_holds n ring c hist → ring !! c = head (recent n hist).
Proof.
  intros Hn (Hl & Hc & Hr). rewrite decide_False in Hr by lia. rewrite <- Hr.
  assert (c < n)%nat by (subst c; apply Nat.mod_upper_bound; lia).
  destruct (split_at ring c) as (l1 & y & l2 & -> & <-); [lia|].
  by rewrite drop_app_length, list_lookup_middle.
Qed.

Lemma recent_snoc_full n hist x :
  (0 < n ≤ length hist)%nat → recent n (hist ++ [x]) = tail (recent n hist) ++ [x].
Proof.
  intros Hn. destruct (recent n hist) as [|y l] eqn:Hr; [|by eapply recent_snoc].
  apply (f_equal length) in Hr. unfold recent in Hr. rewrite length_drop in Hr. simpl in Hr. lia.
Qed.

Lemma recent_snoc_short n hist x :
  (length hist < n)%nat → recent n (hist ++ [x]) = recent n hist ++ [x].
Proof. intros. rewrite !recent_all; [done|lia|]. rewrite length_app. simpl. lia. Qed.

Lemma length_recent n hist : length (recent n hist) = (n `min` length hist)%nat.
Proof. unfold recent. rewrite length_drop. lia. Qed.
End ring.

(** ** Sorting *)
Lemma StronglySorted_reverse {A} (R : relation A) l :
  StronglySorted (flip R) l → StronglySorted R (reverse l).
Proof.
  induction 1 as [|x l _ IH Hx]; [constructor|].
  rewrite reverse_cons, StronglySorted_app. split_and!; [|done|by repeat constructor].
  rewrite Forall_forall in Hx. intros y z Hy ->%list_elem_of_singleton.
  apply Hx. by rewrite reverse_Permutation in Hy.
Qed.

Section sorting.
Context {A : Type} (less : A → A → bool).

Lemma rinsert_perm x l : rinsert less x l ≡ₚ x :: l.
Proof.
  induction l as [|y l IH]; simpl; [done|]. case_match; [|done].
  rewrite IH. apply Permutation_swap.
Qed.

Lemma isort_perm l : isort less l ≡ₚ l.
Proof.
  unfold isort. rewrite reverse_Permutation.
  cut (∀ acc, foldl (λ acc x, rinsert less x acc) acc l ≡ₚ acc ++ l).
  { intros H. by rewrite H. }
  induction l as [|x l IH]; intros acc; simpl; [by rewrite app_nil_r|].
  rewrite IH, rinsert_perm. by rewrite <- Permutation_middle.
Qed.

Lemma length_isort l : length (isort less l) = length l.
Proof. apply Permutation_length, isort_perm. Qed.

(** The result is sorted by any transitive relation that the comparisons of
    the sort decide. *)
Section sorted.
Variable P : A → Prop.
Variable R : A → A → Prop.
Hypothesis R_trans : ∀ a b c, P a → P b → P c → R a b → R b c → R a c.
Hypothesis less_true : ∀ a b, P a → P b → less a b = true → R a b.
Hypothesis less_false : ∀ a b, P a → P b → less a b = false → R b a.

Lemma rinsert_sorted x l :
  P x → Forall P l → StronglySorted (flip R) l → StronglySorted (flip R) (rinsert less x l).
Proof.
  intros Hx. induction l as [|y l IH]; intros Hl Hs; simpl; [by repeat constructor|].
  inversion_clear Hl as [|?? Hy Hl']. inversion_clear Hs as [|?? Hs' Hall].
  destruct (less x y) eqn:Hxy.
  - constructor; [by apply IH|]. rewrite rinsert_perm. constructor; [by apply less_true|done].
  - constructor; [by constructor|]. constructor; [by apply less_false|].
    rewrite Forall_forall in Hall, Hl' |- *. intros z Hz.
    apply (R_trans z y x); [by apply Hl'|done|done|by apply Hall|by apply less_false].
Qed.

Lemma isort_sorted l : Forall P l → StronglySorted R (isort less l).
Proof.
  intros Hl. unfold isort.
  cut (∀ acc, Forall P acc → StronglySorted (flip R) acc →
         StronglySorted (flip R) (foldl (λ acc x, rinsert less x acc) acc l)).
  { intros H. apply StronglySorted_reverse, H; constructor. }
  induction Hl as [|x l Hx Hl IH]; intros acc Ha Hs; simpl; [done|].
  apply IH; [by rewrite rinsert_perm; constructor|by apply rinsert_sorted].
Qed.

(** Sorted arrangements of the same values agree when order determines the
    value. *)
Lemma isort_unique l1 l2 :
  (∀ a b, P a → P b → R a b → R b a → a = b) →
  Forall P l1 → l1 ≡ₚ l2 → isort less l1 = isort less l2.
Proof.
  intros Hanti Hl Hp. assert (Hl2 : Forall P l2) by by rewrite <- Hp.
  assert (Hq : isort less l1 ≡ₚ isort less l2) by by rewrite !isort_perm.
  assert (Hq1 : Forall P (isort less l1)) by by rewrite isort_perm.
  rewrite Forall_forall in Hq1.
  apply (StronglySorted_unique_strong R); [|by apply isort_sorted..|done].
  intros a b Ha Hb. apply Hanti; apply Hq1; [done|by rewrite Hq].
Qed.
End sorted.
End sorting.

(** *** The orders of the two statistics *)
Lemma isort_Z_perm l1 l2 : l1 ≡ₚ l2 → isort Z.ltb l1 = isort Z.ltb l2.
Proof.
  apply (isort_unique Z.ltb (λ _, True) Z.le); [intros; lia..|].
  by apply Forall_true.
Qed.

Definition nkey (x : float64) : Z * Z * Z := if is_nan x then (-3, 0, 0) else fkey x.

Lemma float_less_key x y : float_less x y = true ↔ klt (nkey x) (nkey y).
Proof.
  unfold float_less, nkey. destruct (is_nan x) eqn:Hx, (is_nan y) eqn:Hy; simpl.
  - rewrite flt_nan_l by done. unfold klt. simpl. split; [done|lia].
  - split; [intros _|done]. unfold klt, fkey. destruct y as [|[]| |[]]; simpl; try done; lia.
  - rewrite flt_nan_r by done. unfold klt, fkey. split; [done|].
    destruct x as [|[]| |[]]; simpl; try done; lia.
  - by apply flt_key.
Qed.

Lemma nkey_inj x y : unsigned x = true → unsigned y = true → nkey x = nkey y → x = y.
Proof. destruct x as [[]|[]| |[]], y as [[]|[]| |[]]; try done; unfold nkey, fkey; simpl; naive_solver. Qed.

Lemma isort_float_perm l1 l2 :
  Forall (λ x, unsigned x = true) l1 → l1 ≡ₚ l2 → isort float_less l1 = isort float_less l2.
Proof.
  apply (isort_unique _ _ (λ x y, ¬ klt (nkey y) (nkey x))).
  - intros a b c _ _ _ Hba Hcb Hca. destruct (klt_total (nkey a) (nkey b)) as [Hab|[He|]]; [|congruence|done].
    apply Hcb. by eapply klt_trans.
  - intros a b _ _ H%float_less_key. unfold klt in *. lia.
  - intros a b _ _ H H'%float_less_key. congruence.
  - intros a b Ha Hb H1 H2. apply nkey_inj; [done..|].
    destruct (klt_total (nkey a) (nkey b)) as [|[|]]; done.
Qed.
