(* ===== verification/PolicyRun.v ===== *)
(** * A history of the policy, carrier by carrier

    The carriers of a policy do not influence each other's health: over any
    history the record of one carrier is the fold of [hstep], its own share of
    each operation.  The later files prove facts about one record by induction
    on that fold. *)
From S2P Require Export Policy HealthSafety.
#[local] Open Scope Z_scope.

Definition policy_ok (p : Policy) : Prop :=
  NoDup (ids p) ∧ ∀ id, is_Some (health p !! id) ↔ id ∈ ids p.

Section run.
Variable pow : float64 → float64 → float64.
Variable midnight : Time → Time.
Abbreviation step := (step pow midnight).
Abbreviation run := (run pow midnight).

(** The share of carrier [id] in an operation. *)
Definition hstep (c : PolicyConfig) (id : CarrierID) (h : CarrierHealth) (o : op) : CarrierHealth :=
  match o with
  | OPassiveBytes i bytes now =>
      if decide (i = id) then if bytes <=? 0 then h else recordPassiveBytes pow bytes now h else h
  | OPending i now => if decide (i = id) then recordPending now h else h
  | OStall i dur now => if decide (i = id) then recordStall dur now h else h
  | OStreamOutcome i ok ttfb => if decide (i = id) then recordStreamOutcome c ok ttfb h else h
  | OReset i now => if decide (i = id) then recordReset now h else h
  | OFlap i now => if decide (i = id) then recordFlap now h else h
  | OAuthFail i now => if decide (i = id) then recordAuthFail now h else h
  | ORebind i => if decide (i = id) then recordRebind h else h
  | OConnectRTT i rtt => if decide (i = id) then recordConnectRTT rtt h else h
  | OProbe i ok gp bytes now full =>
      if decide (i = id) then recordProbe pow midnight c ok gp bytes now full h else h
  | OCanProbe i bytes now =>
      if decide (i = id)
      then if ProbingEnabled c && (0 <? ProbeDailyBudgetBytes c) then rollProbeDay midnight now h else h
      else h
  | OEvaluate now => evalCarrier c now h
  | OPick now => h
  end.

Lemma onHealth_lookup id f p id' :
  health (onHealth id f p) !! id' = (λ h, if decide (id = id') then f h else h) <$> health p !! id'.
Proof.
  unfold onHealth. destruct (health p !! id) as [h|] eqn:Hh; cbn.
  - destruct (decide (id = id')) as [<-|Hne].
    + by rewrite lookup_insert_eq, Hh.
    + rewrite lookup_insert_ne by done. by destruct (health p !! id').
  - destruct (decide (id = id')) as [<-|Hne]; [by rewrite Hh|by destruct (health p !! id')].
Qed.

Lemma onHealth_frame id f p :
  cfg (onHealth id f p) = cfg p ∧ ids (onHealth id f p) = ids p ∧ wrr (onHealth id f p) = wrr p
  ∧ incumbent (onHealth id f p) = incumbent p ∧ challenger (onHealth id f p) = challenger p
  ∧ challengerTicks (onHealth id f p) = challengerTicks p
  ∧ lastSwitchAt (onHealth id f p) = lastSwitchAt p ∧ switchCount (onHealth id f p) = switchCount p.
Proof. unfold onHealth. by destruct (health p !! id). Qed.

Definition evalList (now : Time) (l : list CarrierID) (p : Policy) : Policy :=
  foldl (λ p id, onHealth id (evalCarrier (cfg p) now) p) p l.

Lemma evalList_frame now l p :
  cfg (evalList now l p) = cfg p ∧ ids (evalList now l p) = ids p ∧ wrr (evalList now l p) = wrr p
  ∧ incumbent (evalList now l p) = incumbent p ∧ challenger (evalList now l p) = challenger p
  ∧ challengerTicks (evalList now l p) = challengerTicks p
  ∧ lastSwitchAt (evalList now l p) = lastSwitchAt p ∧ switchCount (evalList now l p) = switchCount p.
Proof.
  unfold evalList. revert p. induction l as [|id l IH]; intros p; [done|].
  cbn [foldl]. destruct (IH (onHealth id (evalCarrier (cfg p) now) p)) as (-> & -> & -> & -> & -> & -> & -> & ->).
  apply onHealth_frame.
Qed.

Lemma evalList_lookup now l p id :
  NoDup l →
  health (evalList now l p) !! id
  = (λ h, if decide (id ∈ l) then evalCarrier (cfg p) now h else h) <$> health p !! id.
Proof.
  unfold evalList. intros Hl. revert p. induction Hl as [|i l Hi Hl IH]; intros p; cbn [foldl].
  { by destruct (health p !! id). }
  rewrite IH. destruct (onHealth_frame i (evalCarrier (cfg p) now) p) as (-> & _).
  rewrite onHealth_lookup, <- option_fmap_compose. destruct (health p !! id) as [h|]; [|done].
  cbn. f_equal. destruct (decide (i = id)) as [->|].
  - by rewrite decide_False, decide_True by set_solver.
  - by rewrite (decide_ext (id ∈ i :: l) (id ∈ l)) by set_solver.
Qed.

Lemma hysteresis_frame now p :
  health (hysteresis now p) = health p ∧ cfg (hysteresis now p) = cfg p ∧ ids (hysteresis now p) = ids p
  ∧ wrr (hysteresis now p) = wrr p.
Proof.
  unfold hysteresis, switchTo, adopt, countChallenger, resetChallenger. by repeat case_match.
Qed.

Lemma Evaluate_frame now p : cfg (Evaluate now p) = cfg p ∧ ids (Evaluate now p) = ids p ∧ wrr (Evaluate now p) = wrr p.
Proof.
  unfold Evaluate. destruct (evalList_frame now (ids p) p) as (Hc & Hi & Hw & _).
  unfold evalList in *. fold (evalAll now p) in *.
  destruct (negb _); [exact (conj Hc (conj Hi Hw))|].
  destruct (hysteresis_frame now ((evalAll now p) <| lastEval := now |>)) as (_ & -> & -> & ->).
  exact (conj Hc (conj Hi Hw)).
Qed.

Lemma Evaluate_lookup now p id :
  policy_ok p → health (Evaluate now p) !! id = evalCarrier (cfg p) now <$> health p !! id.
Proof.
  intros [Hnd Hdom]. transitivity (health (evalAll now p) !! id).
  { unfold Evaluate. case_match; [done|]. f_equal.
    exact (proj1 (hysteresis_frame now ((evalAll now p) <| lastEval := now |>))). }
  pose proof (evalList_lookup now (ids p) p id Hnd) as H. unfold evalList in H.
  fold (evalAll now p) in H. rewrite H.
  destruct (health p !! id) eqn:Hh; [|done]. cbn. by rewrite decide_True by (apply Hdom; by rewrite Hh).
Qed.

Lemma smoothWRR_frame top p :
  health (smoothWRR top p).2 = health p ∧ cfg (smoothWRR top p).2 = cfg p ∧ ids (smoothWRR top p).2 = ids p
  ∧ incumbent (smoothWRR top p).2 = incumbent p ∧ challenger (smoothWRR top p).2 = challenger p
  ∧ challengerTicks (smoothWRR top p).2 = challengerTicks p
  ∧ lastSwitchAt (smoothWRR top p).2 = lastSwitchAt p ∧ switchCount (smoothWRR top p).2 = switchCount p.
Proof. unfold smoothWRR. by repeat case_match. Qed.

Lemma Pick_frame now p :
  let p' := (PickForNewStream now p).2 in
  health p' = health p ∧ cfg p' = cfg p ∧ ids p' = ids p
  ∧ incumbent p' = incumbent p ∧ challenger p' = challenger p ∧ challengerTicks p' = challengerTicks p
  ∧ lastSwitchAt p' = lastSwitchAt p ∧ switchCount p' = switchCount p.
Proof.
  unfold PickForNewStream. case_match; [done|]. case_match; [done|]. apply smoothWRR_frame.
Qed.

Lemma canProbe_frame id bytes now p :
  let p' := (canProbe midnight id bytes now p).2 in
  cfg p' = cfg p ∧ ids p' = ids p ∧ incumbent p' = incumbent p ∧ challenger p' = challenger p
  ∧ challengerTicks p' = challengerTicks p ∧ lastSwitchAt p' = lastSwitchAt p ∧ switchCount p' = switchCount p.
Proof. unfold canProbe. by repeat case_match. Qed.

Lemma canProbe_lookup id bytes now p id' :
  health (canProbe midnight id bytes now p).2 !! id'
  = (λ h, hstep (cfg p) id' h (OCanProbe id bytes now)) <$> health p !! id'.
Proof.
  unfold canProbe, hstep. destruct (health p !! id) as [h|] eqn:Hh.
  - destruct (decide (id = id')) as [<-|Hne].
    + destruct (ProbingEnabled (cfg p)), (0 <? ProbeDailyBudgetBytes (cfg p)); cbn;
        by rewrite ?lookup_insert_eq, Hh.
    + destruct (ProbingEnabled (cfg p)), (0 <? ProbeDailyBudgetBytes (cfg p)); cbn;
        rewrite ?lookup_insert_ne by done; by destruct (health p !! id').
  - cbn. destruct (decide (id = id')) as [<-|Hne]; [by rewrite Hh|by destruct (health p !! id')].
Qed.

Lemma step_frame p o : cfg (step p o) = cfg p ∧ ids (step p o) = ids p.
Proof.
  destruct o; cbn [Policy.step];
    unfold RecordPassiveBytes, RecordPending, RecordStall, RecordStreamOutcome, RecordReset, RecordFlap,
      RecordAuthFail, RecordRebind, RecordConnectRTT, RecordProbe;
    try (case_match; [done|]);
    try (match goal with |- context [onHealth ?i ?f ?p] => by destruct (onHealth_frame i f p) as (-> & -> & _) end).
  - by destruct (canProbe_frame id bytes now p) as (-> & -> & _).
  - by destruct (Evaluate_frame now p) as (-> & -> & _).
  - by destruct (Pick_frame now p) as (_ & -> & -> & _).
Qed.

Lemma step_lookup p o id :
  policy_ok p → health (step p o) !! id = (λ h, hstep (cfg p) id h o) <$> health p !! id.
Proof.
  intros Hp. destruct o; cbn [Policy.step hstep];
    unfold RecordPassiveBytes, RecordPending, RecordStall, RecordStreamOutcome, RecordReset, RecordFlap,
      RecordAuthFail, RecordRebind, RecordConnectRTT, RecordProbe;
    try apply onHealth_lookup.
  - case_match; [|apply onHealth_lookup]. destruct (health p !! id); [|done]. cbn. by case_decide.
  - apply canProbe_lookup.
  - by apply Evaluate_lookup.
  - destruct (Pick_frame now p) as (-> & _). by destruct (health p !! id).
Qed.

Lemma step_ok p o : policy_ok p → policy_ok (step p o).
Proof.
  intros Hp. destruct (step_frame p o) as [_ Hi]. destruct Hp as [Hnd Hdom]. split; [by rewrite Hi|].
  intros id. rewrite Hi, <- Hdom, step_lookup by (by split). by rewrite fmap_is_Some.
Qed.

Lemma run_cons p o os : run p (o :: os) = run (step p o) os.
Proof. done. Qed.

Lemma run_frame p os : cfg (run p os) = cfg p ∧ ids (run p os) = ids p.
Proof.
  revert p. induction os as [|o os IH]; intros p; [done|]. rewrite run_cons.
  destruct (IH (step p o)) as [-> ->]. apply step_frame.
Qed.

Lemma run_ok p os : policy_ok p → policy_ok (run p os).
Proof. revert p. induction os as [|o os IH]; intros p Hp; [done|]. by apply IH, step_ok. Qed.

(** The record of a carrier after a history is a fold over the history. *)
Lemma run_lookup p os id :
  policy_ok p → health (run p os) !! id = (λ h, foldl (hstep (cfg p) id) h os) <$> health p !! id.
Proof.
  revert p. induction os as [|o os IH]; intros p Hp.
  { cbn. by destruct (health p !! id). }
  rewrite run_cons.
  rewrite IH by by apply step_ok. rewrite step_lookup by done.
  destruct (step_frame p o) as [-> _]. by rewrite <- option_fmap_compose.
Qed.

Lemma run_app p os1 os2 : run p (os1 ++ os2) = run (run p os1) os2.
Proof. apply foldl_app. Qed.
End run.

(** ** The new policy *)
Lemma new_health_lookup (l : list CarrierID) (id : CarrierID) (m : gmap CarrierID CarrierHealth) :
  foldl (λ m id, <[id := newHealth id]> m) m l !! id
  = if decide (id ∈ l) then Some (newHealth id) else m !! id.
Proof.
  revert m. induction l as [|i l IH]; intros m; cbn; [done|]. rewrite IH.
  destruct (decide (id ∈ l)); [by rewrite decide_True by set_solver|].
  destruct (decide (i = id)) as [->|].
  - rewrite decide_True by set_solver. apply lookup_insert_eq.
  - rewrite decide_False by set_solver. by apply lookup_insert_ne.
Qed.

Lemma NewPolicy_ok c l p :
  NoDup l → NewPolicy c l = Ok p →
  policy_ok p ∧ cfg p = sanitizePolicyConfig c ∧ ids p = l
  ∧ ∀ id, id ∈ l → health p !! id = Some (newHealth id).
Proof.
  intros Hl. unfold NewPolicy. case_match; [done|]. intros [= <-].
  assert (Hh : ∀ id, foldl (λ m id, <[id := newHealth id]> m) (∅ : gmap CarrierID CarrierHealth) l !! id
                = if decide (id ∈ l) then Some (newHealth id) else None).
  { intros id. rewrite new_health_lookup. by rewrite lookup_empty. }
  split_and!; [|done|done|].
  - split; [done|]. intros id. cbn. rewrite Hh. case_decide; naive_solver.
  - intros id Hid. cbn. by rewrite Hh, decide_True.
Qed.

(** After a history a configured carrier's record is the fold from the new
    record. *)
Lemma NewPolicy_run pow midnight c l p os id :
  NoDup l → NewPolicy c l = Ok p → id ∈ l →
  health (run pow midnight p os) !! id
  = Some (foldl (hstep pow midnight (sanitizePolicyConfig c) id) (newHealth id) os).
Proof.
  intros Hl Hp Hid. destruct (NewPolicy_ok c l p Hl Hp) as (Hok & Hc & _ & Hh).
  by rewrite run_lookup, Hh, Hc by done.
Qed.

(** ** Inputs shared by the examples *)
Definition nopow (_ _ : float64) : float64 := fzero.

Lemma demo_nodup : NoDup [lit "a"; lit "b"].
Proof. apply (bool_decide_unpack _). vm_compute. exact I. Qed.

Lemma demo_elem : lit "a" ∈ [lit "a"; lit "b"].
Proof. left. Qed.
