(* ===== verification/PolicyHealth.v ===== *)
(** * What the policy knows about a carrier, and the score it makes of it

    For any history the windows of a carrier hold exactly its last fifty
    outcomes, first-byte times and delivery rates, and each term of the score
    is a number between 0 and 1. *)
From S2P Require Export PolicyRun.
#[local] Open Scope Z_scope.

(** ** The measurements of one carrier in a history *)
Section measurements.
Variable id : CarrierID.

Definition outcomeOf (o : op) : option (bool * Duration) :=
  match o with OStreamOutcome i ok ttfb => if decide (i = id) then Some (ok, ttfb) else None | _ => None end.

Definition deliveryOf (o : op) : option (Z * Time) :=
  match o with
  | OPassiveBytes i bytes now => if decide (i = id) then if bytes <=? 0 then None else Some (bytes, now) else None
  | _ => None
  end.

Definition outcomes (os : list op) : list (bool * Duration) := omap outcomeOf os.
Definition deliveries (os : list op) : list (Z * Time) := omap deliveryOf os.
End measurements.

(** The delivery rates: bytes over the time since the delivery before. *)
Definition rate (prev : Time) (d : Z * Time) : float64 :=
  if IsZero prev then fzero
  else
    let dt := Seconds (Sub d.2 prev) in
    if flt fzero dt then fdiv (fdiv (of_Z d.1) (of_Z 1048576)) dt else fzero.

Fixpoint rates (prev : Time) (ds : list (Z * Time)) : list float64 :=
  match ds with [] => [] | d :: ds => rate prev d :: rates d.2 ds end.

Definition lastTime (prev : Time) (ds : list (Z * Time)) : Time := default prev (snd <$> last ds).

Lemma rates_snoc prev ds d : rates prev (ds ++ [d]) = rates prev ds ++ [rate (lastTime prev ds) d].
Proof.
  revert prev. induction ds as [|e ds IH]; intros prev; [done|]. cbn [rates app].
  rewrite IH. unfold lastTime. rewrite last_cons. by destruct (last ds).
Qed.

Lemma lastTime_snoc prev ds d : lastTime prev (ds ++ [d]) = d.2.
Proof. unfold lastTime. by rewrite last_snoc. Qed.

Lemma length_rates prev ds : length (rates prev ds) = length ds.
Proof. revert prev. induction ds; intros; simpl; auto. Qed.

Definition successes (l : list bool) : Z := zsum (λ b : bool, if b then 1 else 0) l.

(** Order statistics, on the values themselves. *)
Definition p50 (l : list Duration) : Duration := default 0 (isort Z.ltb l !! (length l / 2)%nat).
Definition p10 (l : list float64) : float64 :=
  default fzero (isort float_less l !! Z.to_nat (Z.max 0 (Z.min (Z.of_nat (length l) - 1)
    (trunc (fmul (frac 1 10) (of_Z (Z.of_nat (length l)))))))).

(** ** The windows *)
Record windows_hold (h : CarrierHealth) (outs : list (bool * Duration)) (ds : list (Z * Time)) : Prop := {
  wh_success : ring_holds 50 (SuccessRing h) (SuccessCursor h) outs.*1;
  wh_success_writes : SuccessWrites h = Z.of_nat (length outs);
  wh_success_ok : SuccessOK h = successes (recent 50 outs.*1);
  wh_ttfb : ring_holds 50 (TTFBRing h) (TTFBCursor h) outs.*2;
  wh_ttfb_writes : TTFBWrites h = Z.of_nat (length outs);
  wh_goodput : ring_holds 50 (goodputRing h) (goodputCursor h) (rates 0 ds);
  wh_goodput_writes : goodputWrites h = Z.of_nat (length ds);
  wh_last : passiveLastAt h = lastTime 0 ds
}.

Definition windows (h : CarrierHealth) :=
  (SuccessRing h, SuccessCursor h, SuccessWrites h, SuccessOK h, TTFBRing h, TTFBCursor h, TTFBWrites h,
   goodputRing h, goodputCursor h, goodputWrites h, passiveLastAt h).

Lemma windows_hold_frame h h' outs ds :
  windows h' = windows h → windows_hold h outs ds → windows_hold h' outs ds.
Proof.
  intros Hw []. unfold windows in Hw. injection Hw as H1 H2 H3 H4 H5 H6 H7 H8 H9 H10 H11.
  split; by rewrite ?H1, ?H2, ?H3, ?H4, ?H5, ?H6, ?H7, ?H8, ?H9, ?H10, ?H11.
Qed.

Lemma windows_hold_new id : windows_hold (newHealth id) [] [].
Proof. split; try done; by apply ring_holds_init; lia. Qed.

Lemma evalCarrier_windows c now h : windows (evalCarrier c now h) = windows h.
Proof. unfold evalCarrier, advanceLifecycle, excludeLocked. by repeat case_match. Qed.

Lemma rollProbeDay_windows midnight now h : windows (rollProbeDay midnight now h) = windows h.
Proof. unfold rollProbeDay. by repeat case_match. Qed.

Lemma recordProbe_windows pow midnight c ok gp bytes now full h :
  windows (recordProbe pow midnight c ok gp bytes now full h) = windows h.
Proof.
  unfold recordProbe. set (h' := if (0 <? bytes) && ProbingEnabled c then _ else h).
  assert (Hh' : windows h' = windows h).
  { subst h'. case_match; [|done]. exact (rollProbeDay_windows midnight now h). }
  rewrite <- Hh'. generalize h' as g. clear. intros g. unfold probePassed, probeFailed. by repeat case_match.
Qed.

Lemma successes_snoc l x : successes (l ++ [x]) = successes l + if x then 1 else 0.
Proof. unfold successes. rewrite zsum_app. simpl. lia. Qed.

Lemma successes_push outs ok :
  successes (recent 50 (outs ++ [ok]))
  = successes (recent 50 outs)
    - (if (50 <=? length outs)%nat && bool_decide (head (recent 50 outs) = Some true) then 1 else 0)
    + (if ok then 1 else 0).
Proof.
  destruct (Nat.leb_spec 50 (length outs)); simpl.
  - rewrite recent_snoc_full by lia. rewrite successes_snoc.
    destruct (recent 50 outs) as [|[] l]; simpl; unfold successes; simpl; lia.
  - rewrite recent_snoc_short by lia. rewrite successes_snoc. lia.
Qed.

Lemma pushes_hold c h outs ds ok ttfb :
  windows_hold h outs ds → windows_hold (recordStreamOutcome c ok ttfb h) (outs ++ [(ok, ttfb)]) ds.
Proof.
  intros Hw.
  apply (windows_hold_frame (pushTTFB ttfb (pushSuccess ok h))).
  { unfold recordStreamOutcome. generalize (pushTTFB ttfb (pushSuccess ok h)) as g. clear. intros g.
    destruct (ok && _); [by destruct (State g)|done]. }
  destruct Hw as [Hs Hsw Hso Ht Htw Hg Hgw Hl].
  split; rewrite ?fmap_app; [| | | | |exact Hg|exact Hgw|exact Hl]; cbn [fmap list_fmap].
  - apply (ring_holds_push 50 _ _ _ ok); [lia|done].
  - cbn. rewrite Hsw, length_app. simpl. lia.
  - assert (He : (50 <=? SuccessWrites h) && bool_decide (SuccessRing h !! SuccessCursor h = Some true)
            = (50 <=? length outs.*1)%nat && bool_decide (head (recent 50 outs.*1) = Some true)).
    { rewrite Hsw, length_fmap.
      destruct (Nat.leb_spec 50 (length outs)); destruct (Z.leb_spec 50 (Z.of_nat (length outs))); try (lia || done).
      f_equal. apply bool_decide_ext. rewrite (ring_holds_oldest 50 (SuccessRing h) (SuccessCursor h) outs.*1); [done| |done].
      rewrite length_fmap. lia. }
    rewrite successes_push, <- He, <- Hso. reflexivity.
  - apply (ring_holds_push 50 _ _ _ ttfb); [lia|done].
  - cbn. rewrite Htw, length_app. simpl. lia.
Qed.

Lemma delivery_holds pow h outs ds bytes now :
  windows_hold h outs ds → windows_hold (recordPassiveBytes pow bytes now h) outs (ds ++ [(bytes, now)]).
Proof.
  intros [Hs Hsw Hso Ht Htw Hg Hgw Hl].
  split; [exact Hs|exact Hsw|exact Hso|exact Ht|exact Htw| | |].
  - rewrite rates_snoc. cbn. rewrite <- Hl. apply (ring_holds_push 50); [lia|done].
  - cbn. rewrite Hgw, length_app. simpl. lia.
  - by rewrite lastTime_snoc.
Qed.

Section history.
Variable pow : float64 → float64 → float64.
Variable midnight : Time → Time.
Abbreviation hstep := (hstep pow midnight).

Lemma hstep_windows c id h o outs ds :
  windows_hold h outs ds →
  windows_hold (hstep c id h o) (outs ++ outcomes id [o]) (ds ++ deliveries id [o]).
Proof.
  intros Hw. unfold outcomes, deliveries.
  assert (Hframe : ∀ h', windows h' = windows h →
            windows_hold h' (outs ++ []) (ds ++ [])).
  { intros h' Hh'. rewrite !app_nil_r. by eapply windows_hold_frame. }
  destruct o; cbn; try (apply Hframe; by try case_decide).
  - case_decide; [|by apply Hframe]. case_match; [by apply Hframe|].
    rewrite app_nil_r. by apply delivery_holds.
  - case_decide; [|by apply Hframe]. rewrite app_nil_r. by apply pushes_hold.
  - apply Hframe. case_decide; [apply recordProbe_windows|done].
  - apply Hframe. case_decide; [|done]. case_match; [apply rollProbeDay_windows|done].
  - apply Hframe, evalCarrier_windows.
Qed.

Lemma fold_windows c id os :
  windows_hold (foldl (hstep c id) (newHealth id) os) (outcomes id os) (deliveries id os).
Proof.
  induction os as [|o os IH] using rev_ind; [apply windows_hold_new|].
  rewrite foldl_app. unfold outcomes, deliveries. rewrite !omap_app. by apply hstep_windows.
Qed.
End history.

(** ** What the statistics read *)
Lemma windows_attempts h outs ds :
  windows_hold h outs ds → attempts h = Z.of_nat (50 `min` length outs).
Proof.
  intros [Hs Hsw _ _ _ _ _ _]. unfold attempts. rewrite (ring_holds_length _ _ _ _ Hs), Hsw.
  rewrite Z.gtb_ltb. destruct (Z.ltb_spec (Z.of_nat 50) (Z.of_nat (length outs))); lia.
Qed.

Lemma windows_p50 h outs ds : windows_hold h outs ds → ttfbP50Locked h = p50 (recent 50 outs.*2).
Proof.
  intros [_ _ _ Ht Htw _ _ _]. unfold ttfbP50Locked, p50.
  pose proof (ring_holds_written _ _ _ _ Ht) as Hp. rewrite length_fmap, <- Htw in Hp.
  rewrite !(isort_Z_perm _ _ Hp), length_isort.
  case_match eqn:Hn; [|done]. apply Nat.eqb_eq in Hn.
  by destruct (recent 50 outs.*2).
Qed.

Lemma of_Z_bytes_unsigned b : 0 <= b → unsigned (fdiv (of_Z b) (of_Z 1048576)) = true.
Proof. intros. apply fdiv_unsigned; [by apply of_Z_unsigned|done]. Qed.

Lemma rates_unsigned prev ds :
  Forall (λ d : Z * Time, 0 < d.1) ds → Forall (λ x, unsigned x = true) (rates prev ds).
Proof.
  intros Hd. revert prev. induction Hd as [|d ds Hb _ IH]; intros prev; simpl; constructor; [|done].
  unfold rate. case_match; [done|]. case_match eqn:Hlt; [|done].
  apply fdiv_unsigned; [apply of_Z_bytes_unsigned; lia|by apply flt_zero_unsigned].
Qed.

Lemma windows_p10 h outs ds :
  Forall (λ d : Z * Time, 0 < d.1) ds →
  windows_hold h outs ds → goodputP10Locked h = p10 (recent 50 (rates 0 ds)).
Proof.
  intros Hd [_ _ _ _ _ Hg Hgw _]. unfold goodputP10Locked, p10.
  pose proof (ring_holds_written _ _ _ _ Hg) as Hp. rewrite length_rates, <- Hgw in Hp.
  assert (Hu : Forall (λ x, unsigned x = true) (recent 50 (rates 0 ds))) by by apply Forall_drop, rates_unsigned.
  rewrite (isort_float_perm _ (recent 50 (rates 0 ds))); [|by rewrite Hp|done].
  rewrite length_isort. set (n := Z.of_nat (length _)).
  destruct (Z.leb_spec n 0).
  { destruct (recent 50 (rates 0 ds)); [done|simpl in *; lia]. }
  f_equal. f_equal. f_equal. set (i := trunc _).
  clearbody i n. repeat case_match; bools; lia.
Qed.

Lemma deliveries_positive id os : Forall (λ d : Z * Time, 0 < d.1) (deliveries id os).
Proof.
  apply Forall_forall. intros d Hd. apply list_elem_of_omap in Hd as (o & _ & Ho).
  destruct o; simpl in Ho; try done. repeat case_match; simplify_eq. simpl. lia.
Qed.

(** For every history, the success count, the number of attempts, the median
    first-byte time and the tenth-percentile rate that a carrier's score reads
    are those of its last fifty stream outcomes and its last fifty deliveries. *)
Theorem health_windows_exact pow midnight c l p os id :
  NoDup l → NewPolicy c l = Ok p → id ∈ l →
  ∃ h, health (run pow midnight p os) !! id = Some h
  ∧ SuccessOK h = successes (recent 50 (outcomes id os).*1)
  ∧ attempts h = Z.of_nat (length (recent 50 (outcomes id os).*1))
  ∧ ttfbP50Locked h = p50 (recent 50 (outcomes id os).*2)
  ∧ goodputP10Locked h = p10 (recent 50 (rates 0 (deliveries id os))).
Proof.
  intros Hl Hp Hid. eexists. split; [by eapply NewPolicy_run|].
  pose proof (fold_windows pow midnight (sanitizePolicyConfig c) id os) as Hw.
  split_and!; [apply Hw| |by eapply windows_p50|].
  - rewrite (windows_attempts _ _ _ Hw), length_recent, length_fmap. done.
  - eapply windows_p10; [apply deliveries_positive|done].
Qed.

Lemma health_windows_exact_witness :
  let a := lit "a" in
  let os := [OStreamOutcome a true 7; OPassiveBytes a 1048576 second; OStreamOutcome (lit "b") true 9;
             OPassiveBytes a 2097152 (2 * second); OStreamOutcome a false 5; OEvaluate (3 * second)] in
  ∃ p, NewPolicy PolicyConfigDefaults [a; lit "b"] = Ok p
  ∧ ∃ h, health (run (λ _ _, fzero) id p os) !! a = Some h
    ∧ SuccessOK h = 1 ∧ attempts h = 2 ∧ ttfbP50Locked h = 7 ∧ goodputP10Locked h = fzero.
Proof.
  eexists. split; [reflexivity|].
  apply (health_windows_exact (λ _ _, fzero) id PolicyConfigDefaults [lit "a"; lit "b"]).
  - apply (bool_decide_unpack _). vm_compute. exact I.
  - reflexivity.
  - left.
Defined.

