(* ===== verification/PolicyScore.v ===== *)
(** * The score is a number between 0 and 1

    The weights and floors of a configuration are finite; every other input of
    the score comes from the policy's own arithmetic.  Then no step of the
    computation overflows into an invalid operation: each term, the total and
    the recorded score are proper numbers in the unit interval. *)
From S2P Require Export PolicyHealth.
#[local] Open Scope Z_scope.

(** ** Durations as seconds *)
Lemma Sub_range t u : - 2 ^ 63 ≤ Sub t u < 2 ^ 63.
Proof. unfold Sub. lia. Qed.

Lemma nanos_fraction r :
  1 ≤ r < second → ∃ m e, fdiv (of_Z r) (of_Z second) = S754_finite false m e ∧ Zpos m < 2 ^ 53 ∧ -400 ≤ e ≤ 400.
Proof.
  intros Hr. unfold second in *.
  destruct (of_Z_range r) as (m & e & -> & Hm & He); [lia|].
  destruct (of_Z_range 1000000000) as (m' & e' & -> & Hm' & He'); [lia|].
  apply fdiv_range; [done|done|lia..].
Qed.

Lemma Seconds_positive d : 0 < d < 2 ^ 63 → positive64 (Seconds d) = true.
Proof.
  intros Hd. unfold Seconds.
  assert (Hq : 0 ≤ Z.quot d second < 2 ^ 63).
  { unfold second. split; [apply Z.quot_pos; lia|]. apply Z.quot_lt_upper_bound; lia. }
  assert (Hr : 0 ≤ Z.rem d second < second) by (apply Z.rem_bound_pos; unfold second; lia).
  pose proof (Z.quot_rem' d second) as Hqr.
  destruct (Z.eq_dec (Z.quot d second) 0) as [Hq0|Hq0], (Z.eq_dec (Z.rem d second) 0) as [Hr0|Hr0].
  - rewrite Hq0, Hr0 in Hqr. lia.
  - rewrite Hq0. destruct (nanos_fraction (Z.rem d second)) as (m & e & -> & _); [lia|done].
  - rewrite Hr0. destruct (of_Z_range (Z.quot d second)) as (m & e & -> & _); [lia|done].
  - destruct (nanos_fraction (Z.rem d second)) as (m & e & -> & Hm & He); [lia|].
    destruct (of_Z_range (Z.quot d second)) as (m' & e' & -> & Hm' & He'); [lia|].
    apply fadd_positive; [done|done|lia..].
Qed.

(** ** The rates *)
Lemma fdiv_nonneg_gt m e y : flt fzero y = true → nonneg (fdiv (S754_finite false m e) y) = true.
Proof.
  intros Hy. destruct y as [[]|[]| |[] my ey]; try done. by apply fdiv_nonneg.
Qed.

Lemma rate_nonneg prev d : 0 < d.1 < 2 ^ 63 → nonneg (rate prev d) = true.
Proof.
  intros Hd. unfold rate. case_match; [done|]. case_match eqn:Hlt; [|done].
  destruct (of_Z_range d.1) as (m & e & -> & Hm & He); [lia|].
  destruct (of_Z_range 1048576) as (m' & e' & -> & Hm' & He'); [lia|].
  destruct (fdiv_range m e m' e') as (m2 & e2 & -> & _); [done|done|lia..|].
  by apply fdiv_nonneg_gt.
Qed.

Lemma rates_nonneg prev ds :
  Forall (λ d : Z * Time, 0 < d.1 < 2 ^ 63) ds → Forall (λ x, nonneg x = true) (rates prev ds).
Proof.
  intros Hd. revert prev.
  induction Hd as [|d ds Hb _ IH]; intros prev; simpl; constructor; [by apply rate_nonneg|done].
Qed.

Lemma p10_nonneg l : Forall (λ x, nonneg x = true) l → nonneg (p10 l) = true.
Proof.
  intros Hl. unfold p10. destruct (_ !! _) as [x|] eqn:Hx; [|done]. simpl.
  rewrite Forall_forall in Hl. apply Hl. rewrite <- (isort_perm float_less l).
  by eapply list_elem_of_lookup_2.
Qed.

(** ** The terms *)

(** The floating-point fields of a configuration are finite and its integers
    are in range. *)
Definition config_numbers_ok (c : PolicyConfig) : Prop :=
  Forall (λ w, is_finite w = true)
    [SLAFloorMiBps c; WGoodput c; WSuccess c; WStall c; WTTFB c; WReset c]
  ∧ in_s 64 (TTFBBaseline c) ∧ in_s 64 (ResetLimit c).

(** After sanitation they are positive. *)
Definition weights_ok (c : PolicyConfig) : Prop :=
  Forall (λ w, positive64 w = true)
    [SLAFloorMiBps c; WGoodput c; WSuccess c; WStall c; WTTFB c; WReset c]
  ∧ 0 < TTFBBaseline c < 2 ^ 63 ∧ 0 < ResetLimit c < 2 ^ 63.

Lemma finite_positive w d :
  is_finite w = true → positive64 d = true → positive64 (if fle w fzero then d else w) = true.
Proof. by destruct w as [[]|[]| |[] m e]. Qed.

Lemma sanitize_weights c : config_numbers_ok c → weights_ok (sanitizePolicyConfig c).
Proof.
  intros (Hf & Ht & Hr). unfold in_s in *. repeat rewrite Forall_cons in Hf.
  destruct Hf as (H1 & H2 & H3 & H4 & H5 & H6 & _).
  split; [|split].
  - repeat constructor; cbn; by apply finite_positive.
  - cbn. destruct (Z.leb_spec (TTFBBaseline c) 0); [done|lia].
  - cbn. destruct (Z.leb_spec (ResetLimit c) 0); [done|lia].
Qed.

(** What the score relies on in a health record. *)
Record health_numbers_ok (h : CarrierHealth) : Prop := {
  hn_p10 : nonneg (goodputP10Locked h) = true;
  hn_success : 0 ≤ SuccessOK h ≤ attempts h;
  hn_attempts : attempts h ≤ 50;
  hn_stalls : 0 ≤ StallCount h;
  hn_delivered : in_s 64 (DeliveredBytes h);
  hn_ttfb : ttfbP50Locked h < 2 ^ 63;
  hn_resets : length (Resets h) = 64%nat
}.

Section terms.
Context (c : PolicyConfig) (h : CarrierHealth) (now : Time).
Hypothesis Hc : weights_ok c.
Hypothesis Hh : health_numbers_ok h.

Lemma weights_positive :
  positive64 (SLAFloorMiBps c) = true ∧ positive64 (WGoodput c) = true ∧ positive64 (WSuccess c) = true
  ∧ positive64 (WStall c) = true ∧ positive64 (WTTFB c) = true ∧ positive64 (WReset c) = true.
Proof. destruct Hc as [Hf _]. repeat rewrite Forall_cons in Hf. naive_solver. Qed.

Lemma goodputTerm_unit : in_unit (goodputTerm c h).1 = true.
Proof.
  destruct weights_positive as [Hsla _]. unfold goodputTerm. cbn [fst].
  apply clamp01_unit, nonneg_not_nan, fdiv_nonneg; [|done].
  destruct (fle _ _ && _) eqn:Hb; [|apply Hh].
  apply andb_true_iff in Hb as [_ Hb]. by destruct (ProbeGoodputEWMA h) as [[]|[]| |[]].
Qed.

Lemma ratio_unit (ok n : Z) : 0 ≤ ok ≤ n → n ≤ 50 → in_unit (fdiv (of_Z (ok + 1)) (of_Z (n + 2))) = true.
Proof.
  intros Hok Hn.
  assert (Hall : forallb (λ n : nat, forallb (λ k : nat,
             in_unit (fdiv (of_Z (Z.of_nat k + 1)) (of_Z (Z.of_nat n + 2)))) (seq 0 (S n))) (seq 0 51) = true)
    by by vm_compute.
  rewrite forallb_forall in Hall. specialize (Hall (Z.to_nat n)).
  rewrite forallb_forall in Hall. rewrite <- (Z2Nat.id ok), <- (Z2Nat.id n) by lia.
  apply Hall; apply in_seq; lia.
Qed.

Lemma successTerm_unit : in_unit (successTerm h).1 = true.
Proof.
  unfold successTerm. case_match; [done|]. cbn [fst]. apply ratio_unit; apply Hh.
Qed.

Lemma stallRate_nonneg : nonneg (stallRatePer100MiB h) = true.
Proof.
  unfold stallRatePer100MiB. destruct (Z.leb_spec (DeliveredBytes h) 0); [done|].
  destruct Hh as [_ _ _ Hs Hd _ _]. unfold in_s in Hd.
  apply fdiv_nonneg; [|apply of_Z_positive; lia].
  apply fmul_nonneg_pos; [|done]. apply fmul_nonneg_pos; [by apply of_Z_nonneg|done].
Qed.

Lemma stallTerm_unit : in_unit (stallTerm h) = true.
Proof.
  apply clamp01_unit, fsub_not_nan; [done|done|].
  apply nonneg_not_nan, fdiv_nonneg; [apply stallRate_nonneg|done].
Qed.

Lemma fsub_fin_not_nan x y : is_nan x = false → is_finite y = true → is_nan (fsub x y) = false.
Proof.
  destruct x as [[]|[]| |sx mx ex], y as [[]|[]| |sy my ey]; try done; intros _ _.
  unfold fsub, SFsub. cbv zeta. apply normalize_not_nan.
Qed.

Lemma ttfbTerm_unit : in_unit (ttfbTerm c h).1 = true.
Proof.
  unfold ttfbTerm. destruct (Z.ltb_spec 0 (ttfbP50Locked h)) as [Hp|]; [|done].
  destruct (Z.ltb_spec 0 (TTFBBaseline c)) as [Hb|]; [|done]. cbn [andb fst].
  apply clamp01_unit, fsub_not_nan; [done|done|].
  apply fdiv_not_nan; [|done]. apply fsub_fin_not_nan; [|done].
  apply nonneg_not_nan, fdiv_nonneg.
  - apply positive64_nonneg, Seconds_positive. destruct Hh. lia.
  - apply Seconds_positive. destruct Hc as (_ & ? & _). lia.
Qed.

Lemma countAfter_bounds w t ring : 0 ≤ countAfter w t ring ≤ Z.of_nat (length ring).
Proof.
  unfold countAfter. cbv zeta. generalize (Add t (wraps 64 (- w))) as cut. intros cut.
  cut (∀ k, k ≤ foldl (λ n ts, if negb (IsZero ts) && After ts cut then n + 1 else n) k ring
            ≤ k + Z.of_nat (length ring)).
  { intros H. specialize (H 0). lia. }
  induction ring as [|t0 ring IH]; intros k; cbn [foldl length]; [lia|].
  case_match; [specialize (IH (k + 1))|specialize (IH k)]; lia.
Qed.

Lemma resetTerm_unit : in_unit (resetTerm c h now) = true.
Proof.
  unfold resetTerm, resetCountLocked. pose proof (countAfter_bounds (ResetWindow c) now (Resets h)) as Hn.
  rewrite (hn_resets h Hh) in Hn. destruct Hc as (_ & _ & Hl).
  set (n := countAfter _ _ _) in *. clearbody n.
  set (y := fdiv (of_Z n) (of_Z (ResetLimit c))).
  assert (Hy : nonneg y = true ∧ narrow y = true ∧ match y with S754_finite _ _ e => -1000 ≤ e | _ => True end).
  { split_and!; [apply fdiv_nonneg; [apply of_Z_nonneg; lia|apply of_Z_positive; lia]|apply narrow_fdiv|].
    subst y. destruct (Z.eq_dec n 0) as [->|].
    - destruct (of_Z_range (ResetLimit c)) as (m & e & -> & _); [lia|done].
    - destruct (of_Z_range n) as (m & e & -> & Hm & He); [lia|].
      destruct (of_Z_range (ResetLimit c)) as (m' & e' & -> & Hm' & He'); [lia|].
      destruct (fdiv_range m e m' e') as (m2 & e2 & -> & _ & He2); [done|done|lia..|lia]. }
  destruct Hy as (Hy & Hyn & Hye). clearbody y.
  apply one_minus_unit; [by apply fmin_one_unit|by apply narrow_fmin_one|].
  rewrite fone_eq. destruct y as [[]|[]| |[] my ey]; try done. unfold fmin. by destruct (flt _ _).
Qed.

Lemma weighted w x : positive64 w = true → in_unit x = true → nonneg (fmul w x) = true.
Proof. intros Hw Hx. apply fmul_pos_nonneg; [done|]. by apply in_unit_nonneg. Qed.

Lemma total_unit : in_unit (Total (scoreLocked c h now)) = true.
Proof.
  destruct weights_positive as (_ & H1 & H2 & H3 & H4 & H5).
  unfold scoreLocked. cbn [Total].
  apply clamp01_unit, nonneg_not_nan. repeat apply fadd_nonneg; apply weighted; try done.
  - apply goodputTerm_unit.
  - apply successTerm_unit.
  - apply stallTerm_unit.
  - apply ttfbTerm_unit.
  - apply resetTerm_unit.
Qed.
End terms.

Definition terms_in_unit (s : ScoreComponents) : Prop :=
  Forall (λ x, in_unit x = true) [Goodput s; Success s; Stall s; TTFB s; Reset s; Total s].

Lemma score_terms_unit c h now : weights_ok c → health_numbers_ok h → terms_in_unit (scoreLocked c h now).
Proof.
  intros Hc Hh. repeat constructor.
  - by apply goodputTerm_unit.
  - by apply successTerm_unit.
  - by apply stallTerm_unit.
  - by apply ttfbTerm_unit.
  - by apply resetTerm_unit.
  - by apply total_unit.
Qed.

(** ** Records of a history *)
Definition op_in_range (o : op) : Prop :=
  match o with
  | OPassiveBytes _ bytes _ => in_s 64 bytes
  | OStreamOutcome _ _ ttfb => in_s 64 ttfb
  | _ => True
  end.

Lemma successes_bounds l : 0 ≤ successes l ≤ Z.of_nat (length l).
Proof. unfold successes. induction l as [|[] l IH]; simpl; lia. Qed.

Lemma p50_bound B l : 0 < B → Forall (λ x, x < B) l → p50 l < B.
Proof.
  intros HB Hl. unfold p50. destruct (_ !! _) as [x|] eqn:Hx; [|done]. simpl.
  rewrite Forall_forall in Hl. apply Hl. rewrite <- (isort_perm Z.ltb l).
  by eapply list_elem_of_lookup_2.
Qed.

Lemma deliveries_range id os :
  Forall op_in_range os → Forall (λ d : Z * Time, 0 < d.1 < 2 ^ 63) (deliveries id os).
Proof.
  rewrite !Forall_forall. intros Ho d Hd. apply list_elem_of_omap in Hd as (o & Hin & Hd).
  specialize (Ho o Hin). destruct o; simpl in Hd; try done. repeat case_match; simplify_eq.
  simpl in *. unfold in_s in Ho. lia.
Qed.

Lemma outcomes_range id os :
  Forall op_in_range os → Forall (λ t, t < 2 ^ 63) (outcomes id os).*2.
Proof.
  rewrite !Forall_forall. intros Ho t Ht. apply list_elem_of_fmap in Ht as ([ok ttfb] & -> & Hd).
  apply list_elem_of_omap in Hd as (o & Hin & Hd). specialize (Ho o Hin).
  destruct o; simpl in Hd; try done. repeat case_match; simplify_eq. simpl in *. unfold in_s in Ho. lia.
Qed.

(** The counters that are not windows. *)
Definition counters_ok (h : CarrierHealth) : Prop :=
  0 ≤ StallCount h ∧ in_s 64 (DeliveredBytes h) ∧ length (Resets h) = 64%nat.

Definition counters (h : CarrierHealth) := (StallCount h, DeliveredBytes h, Resets h).

Lemma counters_ok_frame h h' : counters h' = counters h → counters_ok h → counters_ok h'.
Proof. unfold counters, counters_ok. intros [= -> -> ->]. done. Qed.

Lemma evalCarrier_counters c now h : counters (evalCarrier c now h) = counters h.
Proof. unfold evalCarrier, advanceLifecycle, excludeLocked. by repeat case_match. Qed.

Section history.
Variable pow : float64 → float64 → float64.
Variable midnight : Time → Time.
Abbreviation hstep := (hstep pow midnight).

Lemma recordProbe_counters c ok gp bytes now full h :
  counters (recordProbe pow midnight c ok gp bytes now full h) = counters h.
Proof.
  unfold recordProbe. set (h' := if (0 <? bytes) && ProbingEnabled c then _ else h).
  assert (Hh' : counters h' = counters h).
  { subst h'. case_match; [|done]. unfold rollProbeDay. by repeat case_match. }
  rewrite <- Hh'. generalize h' as g. clear. intros g. unfold probePassed, probeFailed. by repeat case_match.
Qed.

Lemma recordStreamOutcome_counters c ok ttfb h : counters (recordStreamOutcome c ok ttfb h) = counters h.
Proof.
  unfold recordStreamOutcome. transitivity (counters (pushTTFB ttfb (pushSuccess ok h))); [|done].
  generalize (pushTTFB ttfb (pushSuccess ok h)) as g. clear. intros g.
  destruct (ok && _); [by destruct (State g)|done].
Qed.

Lemma hstep_counters c id h o : counters_ok h → counters_ok (hstep c id h o).
Proof.
  intros Hh. destruct o; cbn [PolicyRun.hstep]; try (case_decide; [|done]); try done.
  - case_match; [done|]. destruct Hh as (? & ? & ?). split_and!; [done| |done]. by apply wraps_range.
  - destruct Hh as (? & ? & ?). split_and!; [cbn; lia|done|done].
  - eapply counters_ok_frame; [apply recordStreamOutcome_counters|done].
  - destruct Hh as (? & ? & Hl). split_and!; [done|done|]. cbn. by rewrite length_insert.
  - eapply counters_ok_frame; [apply recordProbe_counters|done].
  - case_match; [|done]. eapply counters_ok_frame; [|exact Hh]. unfold rollProbeDay. by repeat case_match.
  - eapply counters_ok_frame; [apply evalCarrier_counters|done].
Qed.

Lemma fold_counters c id os : counters_ok (foldl (hstep c id) (newHealth id) os).
Proof.
  induction os as [|o os IH] using rev_ind; [done|]. rewrite foldl_app. by apply hstep_counters.
Qed.

Lemma fold_numbers c id os :
  Forall op_in_range os → health_numbers_ok (foldl (hstep c id) (newHealth id) os).
Proof.
  intros Ho. pose proof (fold_windows pow midnight c id os) as Hw.
  destruct (fold_counters c id os) as (Hs & Hd & Hr).
  pose proof (deliveries_range id os Ho) as Hdr.
  split; try done.
  - rewrite (windows_p10 _ _ _ (deliveries_positive id os) Hw).
    by apply p10_nonneg, Forall_drop, rates_nonneg.
  - rewrite (wh_success_ok _ _ _ Hw), (windows_attempts _ _ _ Hw).
    pose proof (successes_bounds (recent 50 (outcomes id os).*1)) as Hb.
    rewrite length_recent, length_fmap in Hb. done.
  - rewrite (windows_attempts _ _ _ Hw). lia.
  - rewrite (windows_p50 _ _ _ Hw). apply p50_bound; [done|]. by apply Forall_drop, outcomes_range.
Qed.

(** The score recorded at the last tick. *)
Lemma evalCarrier_LastScore c now h : LastScore (evalCarrier c now h) = Total (scoreLocked c h now).
Proof. unfold evalCarrier, advanceLifecycle, excludeLocked. by repeat case_match. Qed.

Lemma hstep_LastScore c id h o :
  LastScore (hstep c id h o)
  = match o with OEvaluate now => Total (scoreLocked c h now) | _ => LastScore h end.
Proof.
  destruct o; cbn [PolicyRun.hstep]; try (case_decide; [|done]); try done.
  - by case_match.
  - unfold recordStreamOutcome. transitivity (LastScore (pushTTFB ttfb (pushSuccess ok h))); [|done].
    generalize (pushTTFB ttfb (pushSuccess ok h)) as g. intros g.
    destruct (ok && _); [by destruct (State g)|done].
  - unfold recordProbe. set (h' := if (0 <? bytes) && ProbingEnabled c then _ else h).
    assert (Hh' : LastScore h' = LastScore h).
    { subst h'. case_match; [|done]. unfold rollProbeDay. by repeat case_match. }
    rewrite <- Hh'. generalize h' as g. intros g. unfold probePassed, probeFailed. by repeat case_match.
  - case_match; [|done]. unfold rollProbeDay. by repeat case_match.
  - apply evalCarrier_LastScore.
Qed.

Lemma fold_LastScore c id os :
  weights_ok c → Forall op_in_range os →
  in_unit (LastScore (foldl (hstep c id) (newHealth id) os)) = true.
Proof.
  intros Hc. induction os as [|o os IH] using rev_ind; intros Ho; [done|].
  apply Forall_app in Ho as [Ho _]. rewrite foldl_app. cbn [foldl]. rewrite hstep_LastScore.
  destruct o; auto. apply total_unit; [done|]. by apply fold_numbers.
Qed.
End history.

(** For every configuration with finite weights and every history, each
    term of a carrier's score, its total and the score recorded at the last
    tick are numbers between 0 and 1, never NaN. *)
Theorem score_in_unit_interval pow midnight c l p os id now :
  NoDup l → config_numbers_ok c → NewPolicy c l = Ok p → Forall op_in_range os → id ∈ l →
  ∃ h, health (run pow midnight p os) !! id = Some h
  ∧ terms_in_unit (scoreLocked (cfg p) h now) ∧ in_unit (LastScore h) = true.
Proof.
  intros Hl Hc Hp Ho Hid. eexists. split; [by eapply NewPolicy_run|].
  destruct (NewPolicy_ok c l p Hl Hp) as (_ & -> & _ & _).
  pose proof (sanitize_weights c Hc). split.
  - by apply score_terms_unit, fold_numbers.
  - by apply fold_LastScore.
Qed.

Definition halving (_ y : float64) : float64 := fmin fone y.

Lemma score_in_unit_interval_witness :
  let ids := [lit "a"; lit "b"] in
  let os := [OPassiveBytes (lit "a") 5000 1000000000; OPassiveBytes (lit "a") 9000000 2000000000;
             OStreamOutcome (lit "a") true 300000000; OStall (lit "a") 5 2000000001;
             OReset (lit "a") 2000000002; OEvaluate 3000000000] in
  ∃ p, NewPolicy PolicyConfigDefaults ids = Ok p
  ∧ ∃ h, health (run halving id p os) !! lit "a" = Some h
    ∧ terms_in_unit (scoreLocked (cfg p) h 4000000000) ∧ in_unit (LastScore h) = true.
Proof.
  eexists. split; [reflexivity|].
  apply (score_in_unit_interval halving id PolicyConfigDefaults [lit "a"; lit "b"]).
  - apply (bool_decide_unpack _). vm_compute. exact I.
  - split; [repeat constructor|split; vm_compute; split; congruence].
  - reflexivity.
  - repeat constructor; vm_compute; congruence.
  - apply (bool_decide_unpack _). vm_compute. exact I.
Defined.

(** ** The first sample of a carrier

    The first delivery has no interval and enters the ring as the rate 0, the
    smallest value, so the tenth percentile stays 0 until the tenth delivery. *)
Lemma isort_float_sorted l : StronglySorted (λ x y, ¬ klt (nkey y) (nkey x)) (isort float_less l).
Proof.
  apply (isort_sorted _ (λ _, True)); [| | |by apply Forall_true].
  - intros a b c _ _ _ Hba Hcb Hca. destruct (klt_total (nkey a) (nkey b)) as [Hab|[He|]]; [|congruence|done].
    apply Hcb. by eapply klt_trans.
  - intros a b _ _ H%float_less_key. unfold klt in *. lia.
  - intros a b _ _ H H'%float_less_key. congruence.
Qed.

Lemma early_p10_zero ds :
  (1 ≤ length ds < 10)%nat → Forall (λ d : Z * Time, 0 < d.1 < 2 ^ 63) ds →
  p10 (recent 50 (rates 0 ds)) = fzero.
Proof.
  intros Hlen Hds. rewrite recent_all by (rewrite length_rates; lia).
  set (l := rates 0 ds). assert (Hl : length l = length ds) by apply length_rates.
  assert (Hz : fzero ∈ l) by (destruct ds; [simpl in Hlen; lia|left]).
  assert (Hn : Forall (λ x, nonneg x = true) l) by by apply rates_nonneg.
  assert (Hu : Forall (λ x, unsigned x = true) l).
  { apply rates_unsigned. eapply Forall_impl; [exact Hds|]. simpl. lia. }
  unfold p10. rewrite Hl.
  assert (Hidx : Z.max 0 (Z.min (Z.of_nat (length ds) - 1) (trunc (fmul (frac 1 10) (of_Z (Z.of_nat (length ds)))))) = 0).
  { destruct Hlen as [H1 H2]. revert H1 H2. generalize (length ds) as n. intros n H1 H2.
    do 10 (destruct n as [|n]; [try lia; vm_compute; reflexivity|]). lia. }
  rewrite Hidx. pose proof (isort_float_sorted l) as Hs. pose proof (isort_perm float_less l) as Hp.
  destruct (isort float_less l) as [|x k]; [done|]. cbn.
  assert (Hx : x ∈ l) by (rewrite <- Hp; left).
  apply StronglySorted_inv in Hs as [_ Hs]. rewrite Forall_forall in Hs, Hn, Hu.
  assert (Hle : ¬ klt (nkey fzero) (nkey x)).
  { rewrite <- Hp in Hz. apply elem_of_cons in Hz as [<-|Hz]; [|by apply Hs].
    unfold klt. lia. }
  specialize (Hn x Hx). specialize (Hu x Hx).
  destruct x as [[]|[]| |[] m e]; try done; exfalso; apply Hle; unfold klt, nkey, fkey; simpl; lia.
Qed.
