(* ===== verification/PolicyLifecycle.v ===== *)
(** * Admission, exclusion and readmission

    The state machine of a carrier over a history: how it may move, how long an
    exclusion lasts, and what a carrier must have shown before it is Active. *)
From S2P Require Export PolicyRun.
#[local] Open Scope Z_scope.

(** ** The cooldown *)
Lemma doublePeriod_closed n max period :
  0 < period < 2 ^ 62 → 0 < max < 2 ^ 62 →
  doublePeriod n max period
  = match n with O => period | _ => Z.min max (period * 2 ^ Z.of_nat n) end.
Proof.
  intros Hp Hm. revert period Hp. induction n as [|n IH]; intros period Hp; [done|].
  assert (Hpow : 0 < 2 ^ Z.of_nat n) by (apply Z.pow_pos_nonneg; lia).
  cbn [doublePeriod]. rewrite wraps_id by (unfold in_s; lia).
  rewrite Nat2Z.inj_succ, Z.pow_succ_r by lia. rewrite Z.gtb_ltb.
  destruct (Z.ltb_spec max (period * 2)); [nia|].
  rewrite IH by lia. destruct n as [|n]; [simpl; lia|]. f_equal. ring.
Qed.

(** The [k]-th exclusion in a row lasts [InitialCooldown * 2^(k-1)], capped at
    [MaxCooldown] from the second on. *)
Definition cooldown_ok (c : PolicyConfig) : Prop :=
  0 < InitialCooldown c < 2 ^ 62 ∧ 0 < MaxCooldown c < 2 ^ 62.

Lemma cooldownPeriod_closed c k :
  cooldown_ok c → 1 ≤ k →
  cooldownPeriod c k
  = if k =? 1 then InitialCooldown c else Z.min (MaxCooldown c) (InitialCooldown c * 2 ^ (k - 1)).
Proof.
  intros [Hi Hm] Hk. unfold cooldownPeriod. rewrite doublePeriod_closed by done.
  destruct (Z.eqb_spec k 1) as [->|]; [done|].
  destruct (Z.to_nat (k - 1)) as [|m] eqn:Hm'; [lia|]. rewrite <- Hm', Z2Nat.id by lia. done.
Qed.

Lemma cooldownPeriod_bounds c k :
  cooldown_ok c → InitialCooldown c ≤ MaxCooldown c → 1 ≤ k →
  InitialCooldown c ≤ cooldownPeriod c k ≤ MaxCooldown c ∧ cooldownPeriod c k ≤ cooldownPeriod c (k + 1).
Proof.
  intros Hc Hle Hk. rewrite !cooldownPeriod_closed by (done || lia).
  destruct (Z.eqb_spec (k + 1) 1); [lia|].
  replace (k + 1 - 1) with (1 + (k - 1)) by lia. rewrite Z.pow_add_r by lia. change (2 ^ 1) with 2.
  destruct Hc as [Hi Hm]. assert (1 ≤ 2 ^ (k - 1)) by (pose proof (Z.pow_pos_nonneg 2 (k - 1)); lia).
  destruct (Z.eqb_spec k 1) as [->|]; [rewrite Z.sub_diag; simpl; lia|]. nia.
Qed.

(** ** Edges of the state machine *)

(** The hard gates as the lifecycle reads them at a tick. *)
Definition gated (c : PolicyConfig) (now : Time) (h : CarrierHealth) : bool :=
  gateExcluded (scoreLocked c h now).

(** The documented transitions of one carrier at a tick, with their causes. *)
Inductive edge (c : PolicyConfig) (now : Time) (h h' : CarrierHealth) : Prop :=
| EStay : State h' = State h → edge c now h h'
| EAdmit :
    State h = stateCandidate → State h' = stateActive →
    AdmitPassesCand c ≤ CandidatePasses h → fle (AdmitScore c) (Total (scoreLocked c h now)) = true →
    gated c now h = false → ActiveSince h' = now → edge c now h h'
| EExclude :
    State h = stateCandidate ∨ State h = stateActive →
    State h' = stateExcluded → gated c now h = true →
    ExclusionStreak h' = ExclusionStreak h + 1 →
    CooldownUntil h' = now + cooldownPeriod c (ExclusionStreak h') → edge c now h h'
| EElapsed :
    State h = stateExcluded → State h' = stateHalfOpen → CooldownUntil h ≤ now → edge c now h h'
| EReadmit :
    State h = stateHalfOpen → State h' = stateActive → AdmitPassesHalf c ≤ HalfOpenPasses h →
    ExclusionStreak h' = ExclusionStreak h → ActiveSince h' = now → edge c now h h'
| EBackoff :
    State h = stateHalfOpen → State h' = stateExcluded →
    ProbingEnabled c = true → 0 < ConsecProbeFails h →
    ExclusionStreak h' = ExclusionStreak h + 1 →
    CooldownUntil h' = now + cooldownPeriod c (ExclusionStreak h') → edge c now h h'.

(** Which gate fires depends on the record, not on the total just stored. *)
Lemma exclude_spec c h now reason :
  State h ≠ stateExcluded →
  let h' := excludeLocked c h now reason in
  State h' = stateExcluded ∧ ExclusionStreak h' = ExclusionStreak h + 1
  ∧ CooldownUntil h' = now + cooldownPeriod c (ExclusionStreak h')
  ∧ HalfOpenPasses h' = HalfOpenPasses h ∧ CandidatePasses h' = CandidatePasses h
  ∧ ConsecProbeFails h' = ConsecProbeFails h.
Proof. intros Hs. unfold excludeLocked. by rewrite bool_decide_eq_false_2. Qed.

(** Every clause of the Active branch that excludes is one of the hard gates. *)
Lemma hardGate_excludes c h now :
  gated c now h = negb (streqb (hardGate c h now (successTerm h).1 (stallRatePer100MiB h)) []).
Proof.
  unfold gated, gateExcluded, scoreLocked. cbn [c_GateReason].
  assert (Hr : hardGate c h now (successTerm h).1 (stallRatePer100MiB h)
               ∈ [[]; lit "H1 probe"; lit "H2 flap"; lit "H3 auth"; lit "H4 stall"; lit "success_ratio";
                  lit "stall_rate"]).
  { unfold hardGate. repeat (case_match; [set_solver|]). set_solver. }
  revert Hr. generalize (hardGate c h now (successTerm h).1 (stallRatePer100MiB h)) as r. intros r Hr.
  repeat (apply elem_of_cons in Hr as [->|Hr]; [by destruct (State h)|]). by apply elem_of_nil in Hr.
Qed.

Lemma active_gates c h now :
  (FlapLimit c <=? flapCountLocked c h now) || (0 <? authFailCountLocked c h now) || stalledNow c h now = true →
  gated c now h = true.
Proof.
  rewrite hardGate_excludes. unfold hardGate.
  destruct (ProbingEnabled c && (2 <=? ConsecProbeFails h)); [done|].
  destruct (FlapLimit c <=? flapCountLocked c h now); [done|].
  destruct (0 <? authFailCountLocked c h now); [done|].
  by destruct (stalledNow c h now).
Qed.

Lemma probe_gate c h now : ProbingEnabled c && (2 <=? ConsecProbeFails h) = true → gated c now h = true.
Proof. rewrite hardGate_excludes. unfold hardGate. by intros ->. Qed.

(** One tick, on the record with the fresh score stored. *)
Lemma advance_edge c now h s g :
  let h0 := h <| LastScore := Total (scoreLocked c h now) |> <| GateReason := s |> in
  g = scoreLocked c h now → edge c now h (advanceLifecycle c h0 g now).
Proof.
  intros h0 ->. unfold advanceLifecycle.
  assert (Hs : State h0 = State h) by done.
  change (gateExcluded (scoreLocked c h now)) with (gated c now h).
  rewrite Hs. destruct (State h) eqn:Hst.
  - destruct (ProbingEnabled c && (2 <=? ConsecProbeFails h0)) eqn:Hp.
    { destruct (exclude_spec c h0 now (lit "H1 probe")) as (? & ? & ? & _); [by rewrite Hs|].
      apply EExclude; auto. by apply probe_gate. }
    destruct (_ && _ && _) eqn:Ha.
    { bools. apply EAdmit; done. }
    destruct (gated c now h) eqn:Hg; [|by apply EStay].
    destruct (exclude_spec c h0 now (c_GateReason (scoreLocked c h now))) as (? & ? & ? & _); [by rewrite Hs|].
    apply EExclude; auto.
  - change (flapCountLocked c h0 now) with (flapCountLocked c h now).
    change (authFailCountLocked c h0 now) with (authFailCountLocked c h now).
    change (stalledNow c h0 now) with (stalledNow c h now).
    pose proof (active_gates c h now) as Hgate.
    assert (Hex : ∀ r, gated c now h = true → edge c now h (excludeLocked c h0 now r)).
    { intros r Hg. destruct (exclude_spec c h0 now r) as (? & ? & ? & _); [by rewrite Hs|].
      apply EExclude; auto. }
    destruct (FlapLimit c <=? flapCountLocked c h now); [by apply Hex, Hgate|].
    destruct (0 <? authFailCountLocked c h now); [by apply Hex, Hgate|].
    destruct (stalledNow c h now); [by apply Hex, Hgate|].
    destruct (gated c now h) eqn:Hg; [by apply Hex|].
    apply EStay. by case_match.
  - destruct (_ && _) eqn:Hb; [|by apply EStay].
    bools. unfold Before in *. bools. by apply EElapsed.
  - destruct (ProbingEnabled c && (0 <? ConsecProbeFails h0)) eqn:Hp.
    { bools. destruct (exclude_spec c h0 now (lit "half_open probe fail")) as (? & ? & ? & _); [by rewrite Hs|].
      by apply EBackoff. }
    destruct (Z.leb_spec (AdmitPassesHalf c) (HalfOpenPasses h0)); [|by apply EStay].
    by apply EReadmit.
Qed.

Lemma tick_edge c now h : edge c now h (evalCarrier c now h).
Proof. unfold evalCarrier. by apply advance_edge. Qed.

(** ** Evidence *)
Section evidence.
Context (c : PolicyConfig) (id : CarrierID).

(** What counts towards a readmission: a full probe that passed, and a clean
    stream completion while probing is off. *)
Definition halfPass (o : op) : Z :=
  match o with
  | OProbe i ok _ _ _ full => if bool_decide (i = id) && ok && full then 1 else 0
  | OStreamOutcome i ok _ => if bool_decide (i = id) && ok && negb (ProbingEnabled c) then 1 else 0
  | _ => 0
  end.

(** What counts towards the first admission: quick probes as well. *)
Definition candPass (o : op) : Z :=
  match o with
  | OProbe i ok _ _ _ _ => if bool_decide (i = id) && ok then 1 else 0
  | OStreamOutcome i ok _ => if bool_decide (i = id) && ok && negb (ProbingEnabled c) then 1 else 0
  | _ => 0
  end.
End evidence.

Lemma halfPass_candPass c id o : 0 ≤ halfPass c id o ≤ candPass c id o.
Proof. destruct o; simpl; try lia; repeat case_match; simpl in *; try lia; naive_solver. Qed.

(** ** Operations between ticks *)
Section history.
Variable pow : float64 → float64 → float64.
Variable midnight : Time → Time.
Abbreviation hstep := (hstep pow midnight).
Abbreviation run := (run pow midnight).

Definition is_tick (o : op) : bool := match o with OEvaluate _ => true | _ => false end.

(** [h'] differs from [h] in measurements only, and has at most the new
    evidence. *)
Record quiet (h h' : CarrierHealth) (half cand : Z) : Prop := {
  q_state : State h' = State h;
  q_until : CooldownUntil h' = CooldownUntil h;
  q_half : HalfOpenPasses h ≤ HalfOpenPasses h' ≤ HalfOpenPasses h + half ∨ HalfOpenPasses h' = 0;
  q_cand : CandidatePasses h ≤ CandidatePasses h' ≤ CandidatePasses h + cand ∨ CandidatePasses h' = 0;
  q_half_zero : State h ≠ stateHalfOpen → HalfOpenPasses h = 0 → HalfOpenPasses h' = 0
}.

Definition life (h : CarrierHealth) :=
  (State h, CooldownUntil h, HalfOpenPasses h, CandidatePasses h, ConsecProbeFails h).

Lemma quiet_frame h h' a b : life h' = life h → 0 ≤ a → 0 ≤ b → quiet h h' a b.
Proof.
  unfold life. intros Hl ??. injection Hl as H1 H2 H3 H4 H5.
  split; rewrite ?H1, ?H2, ?H3, ?H4; auto; left; lia.
Qed.

Lemma rollProbeDay_life now h : life (rollProbeDay midnight now h) = life h.
Proof. unfold rollProbeDay. by repeat case_match. Qed.

Lemma pushes_life ok ttfb h : life (pushTTFB ttfb (pushSuccess ok h)) = life h.
Proof. done. Qed.

Lemma outcome_quiet c ok ttfb h id :
  quiet h (recordStreamOutcome c ok ttfb h) (halfPass c id (OStreamOutcome id ok ttfb))
    (candPass c id (OStreamOutcome id ok ttfb)).
Proof.
  unfold recordStreamOutcome. pose proof (pushes_life ok ttfb h) as Hl.
  revert Hl. generalize (pushTTFB ttfb (pushSuccess ok h)) as g. intros g Hl.
  unfold halfPass, candPass. rewrite bool_decide_eq_true_2 by done. cbn [andb].
  destruct (ok && negb (ProbingEnabled c)) eqn:Hok; [|by apply quiet_frame].
  injection Hl as H1 H2 H3 H4 H5.
  destruct (State g) eqn:Hs; try (apply quiet_frame; [by unfold life; rewrite H1, H2, H3, H4, H5|lia|lia]);
    split; cbn; rewrite ?H1, ?H2, ?H3, ?H4; try congruence; auto; try (left; lia); congruence.
Qed.

Lemma probe_quiet c ok gp bytes now full h id :
  quiet h (recordProbe pow midnight c ok gp bytes now full h)
    (halfPass c id (OProbe id ok gp bytes now full)) (candPass c id (OProbe id ok gp bytes now full)).
Proof.
  unfold recordProbe. set (g := if (0 <? bytes) && ProbingEnabled c then _ else h).
  assert (Hl : life g = life h).
  { subst g. case_match; [|done]. transitivity (life (rollProbeDay midnight now h)); [done|apply rollProbeDay_life]. }
  clearbody g. unfold halfPass, candPass. rewrite bool_decide_eq_true_2 by done. cbn [andb].
  injection Hl as H1 H2 H3 H4 H5. unfold probePassed, probeFailed.
  destruct ok, full; cbv zeta; cbn [andb]; split; cbn; destruct (State g) eqn:Hs; cbn;
    rewrite ?Hs, ?H2, ?H3, ?H4; auto; try (left; lia); congruence.
Qed.

Lemma hstep_quiet c id h o :
  is_tick o = false → quiet h (hstep c id h o) (halfPass c id o) (candPass c id o).
Proof.
  intros Ht.
  pose proof (halfPass_candPass c id o).
  destruct o; try done; cbn [PolicyRun.hstep];
    try (apply quiet_frame; [|lia|lia]; repeat case_match; done).
  - case_decide as Hi; [subst; apply outcome_quiet|apply quiet_frame; [done|lia|lia]].
  - case_decide as Hi; [subst; apply probe_quiet|apply quiet_frame; [done|lia|lia]].
  - apply quiet_frame; [|lia|lia]. case_decide; [|done]. case_match; [apply rollProbeDay_life|done].
Qed.

(** ** Readmission *)

(** Outside HalfOpen there is no half-open evidence, and a failed probe wipes
    it. *)
Definition passes_ok (c : PolicyConfig) (h : CarrierHealth) : Prop :=
  (State h ≠ stateHalfOpen → HalfOpenPasses h = 0)
  ∧ (ProbingEnabled c = true → 0 < ConsecProbeFails h → HalfOpenPasses h = 0).

Lemma evalCarrier_passes c now h :
  CandidatePasses (evalCarrier c now h) = CandidatePasses h ∨ CandidatePasses (evalCarrier c now h) = 0.
Proof. unfold evalCarrier, advanceLifecycle, excludeLocked. repeat case_match; auto. Qed.

Lemma evalCarrier_half c now h :
  HalfOpenPasses (evalCarrier c now h) = HalfOpenPasses h
  ∨ HalfOpenPasses (evalCarrier c now h) = 0 ∧ State (evalCarrier c now h) = stateActive.
Proof. unfold evalCarrier, advanceLifecycle, excludeLocked. repeat case_match; auto. Qed.

Lemma evalCarrier_fails c now h : ConsecProbeFails (evalCarrier c now h) = ConsecProbeFails h.
Proof. unfold evalCarrier, advanceLifecycle, excludeLocked. by repeat case_match. Qed.

Lemma evalCarrier_readmit_half c now h :
  State h = stateHalfOpen → State (evalCarrier c now h) = stateActive → HalfOpenPasses (evalCarrier c now h) = 0.
Proof.
  unfold evalCarrier, advanceLifecycle, excludeLocked. intros Hs. cbn. rewrite Hs.
  repeat case_match; simpl; congruence.
Qed.

Lemma evalCarrier_passes_ok c now h : passes_ok c h → passes_ok c (evalCarrier c now h).
Proof.
  intros [H1 H2]. pose proof (tick_edge c now h) as He.
  pose proof (evalCarrier_half c now h) as Hh. pose proof (evalCarrier_fails c now h) as Hf.
  split.
  - intros Hs. destruct Hh as [Hh|[Hh _]]; [|done]. rewrite Hh.
    destruct (decide (State h = stateHalfOpen)) as [Hho|Hho]; [|by apply H1].
    destruct He as [| |[]| | |]; try congruence; [|by apply H2].
    rewrite <- Hh. by apply evalCarrier_readmit_half.
  - intros Hp Hc. rewrite Hf in Hc. destruct Hh as [->|[-> _]]; [by apply H2|done].
Qed.

Lemma outcome_fails c ok ttfb h :
  ConsecProbeFails (recordStreamOutcome c ok ttfb h) = ConsecProbeFails h
  ∧ (ProbingEnabled c = true → HalfOpenPasses (recordStreamOutcome c ok ttfb h) = HalfOpenPasses h).
Proof.
  unfold recordStreamOutcome. pose proof (pushes_life ok ttfb h) as Hl.
  revert Hl. generalize (pushTTFB ttfb (pushSuccess ok h)) as g. intros g Hl.
  injection Hl as H1 H2 H3 H4 H5.
  destruct (ok && negb (ProbingEnabled c)) eqn:Hok; [|by rewrite H3, H5].
  bools. split; [by destruct (State g)|congruence].
Qed.

Lemma probe_fails c ok gp bytes now full h :
  ConsecProbeFails (recordProbe pow midnight c ok gp bytes now full h) = (if ok then 0 else ConsecProbeFails h + 1)
  ∧ (ok = false → HalfOpenPasses (recordProbe pow midnight c ok gp bytes now full h) = 0).
Proof.
  unfold recordProbe. set (g := if (0 <? bytes) && ProbingEnabled c then _ else h).
  assert (Hl : life g = life h).
  { subst g. case_match; [|done]. transitivity (life (rollProbeDay midnight now h)); [done|apply rollProbeDay_life]. }
  clearbody g. injection Hl as H1 H2 H3 H4 H5. unfold probePassed, probeFailed.
  destruct ok, full; cbv zeta; split; try done; cbn; destruct (State g); cbn; congruence.
Qed.

Lemma hstep_passes_ok c id h o : passes_ok c h → passes_ok c (hstep c id h o).
Proof.
  destruct (is_tick o) eqn:Ht; [destruct o; try done; apply evalCarrier_passes_ok|].
  intros [H1 H2]. pose proof (hstep_quiet c id h o Ht) as Hq. split.
  - rewrite (q_state _ _ _ _ Hq). intros Hs. apply (q_half_zero _ _ _ _ Hq); auto.
  - intros Hp. destruct o; try done; cbn [PolicyRun.hstep] in *; try (case_decide; [|by apply H2]); auto.
    + by case_match; apply H2.
    + destruct (outcome_fails c ok ttfb h) as [-> Hh]. rewrite Hh by done. by apply H2.
    + destruct (probe_fails c ok goodput bytes now full h) as [-> Hh].
      destruct ok; [lia|by rewrite Hh].
    + case_match; [|by apply H2]. pose proof (rollProbeDay_life now h) as Hl.
      injection Hl as ? ? Hl3 ? Hl5. rewrite Hl3, Hl5. by apply H2.
Qed.

Lemma fold_passes_ok c id h os : passes_ok c h → passes_ok c (foldl (hstep c id) h os).
Proof.
  induction os as [|o os IH] using rev_ind; intros Hh; [done|].
  rewrite foldl_app. by apply hstep_passes_ok, IH.
Qed.

(** Once excluded, a carrier climbs back to Active only on enough evidence. *)
Lemma climb c id os h :
  State h = stateExcluded ∨ State h = stateHalfOpen → 0 ≤ HalfOpenPasses h →
  State (foldl (hstep c id) h os) = stateActive →
  AdmitPassesHalf c ≤ HalfOpenPasses h + zsum (halfPass c id) os.
Proof.
  revert h. induction os as [|o os IH]; intros h Hs Hn; cbn [foldl]; [by destruct Hs as [-> | ->]|].
  intros Ha. change (zsum (halfPass c id) (o :: os)) with (halfPass c id o + zsum (halfPass c id) os).
  assert (0 ≤ zsum (halfPass c id) os) by (apply zsum_nonneg; intros x; apply halfPass_candPass).
  pose proof (halfPass_candPass c id o) as Hp.
  destruct (is_tick o) eqn:Ht.
  - destruct o; try done. cbn [PolicyRun.hstep] in Ha.
    destruct (decide (State h = stateHalfOpen ∧ State (evalCarrier c now h) = stateActive)) as [[H1 H2]|Hno].
    + pose proof (tick_edge c now h) as He. destruct He; try congruence. lia.
    + assert (Hs' : State (evalCarrier c now h) = stateExcluded ∨ State (evalCarrier c now h) = stateHalfOpen).
      { pose proof (tick_edge c now h) as He. destruct He; naive_solver congruence. }
      destruct (evalCarrier_half c now h) as [Hh|[_ Hh]]; [|destruct Hs'; congruence].
      specialize (IH _ Hs' ltac:(lia) Ha). lia.
  - pose proof (hstep_quiet c id h o Ht) as Hq.
    destruct (q_half _ _ _ _ Hq) as [Hle|Hz].
    + specialize (IH (hstep c id h o)). rewrite (q_state _ _ _ _ Hq) in IH. specialize (IH Hs ltac:(lia) Ha). lia.
    + specialize (IH (hstep c id h o)). rewrite (q_state _ _ _ _ Hq) in IH. specialize (IH Hs ltac:(lia) Ha). lia.
Qed.

(** An exclusion ends at a tick not before [CooldownUntil]. *)
Lemma leave_excluded c id os h :
  State h = stateExcluded → State (foldl (hstep c id) h os) ≠ stateExcluded →
  ∃ os1 t os2, os = os1 ++ OEvaluate t :: os2 ∧ CooldownUntil h ≤ t
  ∧ State (foldl (hstep c id) h os1) = stateExcluded
  ∧ State (foldl (hstep c id) h (os1 ++ [OEvaluate t])) = stateHalfOpen.
Proof.
  revert h. induction os as [|o os IH]; intros h Hs Hne; [done|]. cbn [foldl] in Hne.
  assert (Hstay : State (hstep c id h o) = stateExcluded → CooldownUntil (hstep c id h o) = CooldownUntil h →
            ∃ os1 t os2, o :: os = os1 ++ OEvaluate t :: os2 ∧ CooldownUntil h ≤ t
            ∧ State (foldl (hstep c id) h os1) = stateExcluded
            ∧ State (foldl (hstep c id) h (os1 ++ [OEvaluate t])) = stateHalfOpen).
  { intros Hs' Hu. destruct (IH _ Hs' Hne) as (os1 & t & os2 & -> & Ht & Hex & Hho).
    exists (o :: os1), t, os2. by rewrite <- Hu. }
  destruct (is_tick o) eqn:Ht.
  - destruct o; try done. cbn [PolicyRun.hstep] in *.
    destruct (tick_edge c now h) as [He| |[]| | |]; try congruence.
    + apply Hstay; [congruence|]. revert He.
      unfold evalCarrier, advanceLifecycle, excludeLocked. cbn. rewrite Hs.
      by destruct (negb (IsZero (CooldownUntil h)) && _).
    + by exists [], now, os.
  - pose proof (hstep_quiet c id h o Ht) as Hq. apply Hstay; [|by apply Hq].
    by rewrite (q_state _ _ _ _ Hq).
Qed.

Lemma half_nonneg c id os : 0 ≤ HalfOpenPasses (foldl (hstep c id) (newHealth id) os)
                          ∧ 0 ≤ CandidatePasses (foldl (hstep c id) (newHealth id) os).
Proof.
  induction os as [|o os IH] using rev_ind; [done|]. rewrite foldl_app. cbn [foldl].
  set (h := foldl (hstep c id) (newHealth id) os) in *. clearbody h.
  destruct (is_tick o) eqn:Ht.
  - destruct o; try done. cbn [PolicyRun.hstep].
    destruct (evalCarrier_half c now h) as [->|[-> _]], (evalCarrier_passes c now h) as [->| ->]; lia.
  - pose proof (hstep_quiet c id h o Ht) as [_ _ H1 H2 _]. lia.
Qed.

(** The first admission. *)
Lemma admit_climb c id os h :
  passes_ok c h → State h ≠ stateActive → 0 ≤ CandidatePasses h → 0 ≤ HalfOpenPasses h →
  State (foldl (hstep c id) h os) = stateActive →
  Z.min (AdmitPassesCand c) (AdmitPassesHalf c)
  ≤ (if bool_decide (State h = stateCandidate) then CandidatePasses h else HalfOpenPasses h)
    + zsum (candPass c id) os.
Proof.
  revert h. induction os as [|o os IH]; intros h Hok Hs Hc Hh; cbn [foldl]; [done|]. intros Ha.
  change (zsum (candPass c id) (o :: os)) with (candPass c id o + zsum (candPass c id) os).
  assert (0 ≤ zsum (candPass c id) os)
    by (apply zsum_nonneg; intros x; pose proof (halfPass_candPass c id x); lia).
  pose proof (halfPass_candPass c id o) as Hp.
  destruct (is_tick o) eqn:Ht.
  - destruct o; try done. cbn [PolicyRun.hstep] in Ha.
    pose proof (evalCarrier_passes_ok c now h Hok) as Hok'.
    destruct (decide (State (evalCarrier c now h) = stateActive)) as [Hact|Hna].
    + destruct (tick_edge c now h) as [|Hst ? Hn| | |Hst ? Hn|]; try congruence; case_bool_decide; (congruence || lia).
    + assert (Hc' : 0 ≤ CandidatePasses (evalCarrier c now h)) by (destruct (evalCarrier_passes c now h) as [->| ->]; lia).
      destruct (evalCarrier_half c now h) as [Hh'|[_ ?]]; [|done].
      specialize (IH _ Hok' Hna Hc' ltac:(lia) Ha). rewrite Hh' in IH.
      destruct (decide (State h = stateCandidate)) as [Hcand|Hnc].
      * rewrite (bool_decide_eq_true_2 _ Hcand). destruct Hok as [Hz _]. rewrite Hz in IH by congruence.
        destruct (evalCarrier_passes c now h) as [He|He]; rewrite He in IH; case_match; lia.
      * rewrite (bool_decide_eq_false_2 _ Hnc).
        rewrite bool_decide_eq_false_2 in IH; [lia|].
        destruct (tick_edge c now h); naive_solver congruence.
  - pose proof (hstep_quiet c id h o Ht) as Hq. pose proof (hstep_passes_ok c id h o Hok) as Hok'.
    specialize (IH (hstep c id h o)). rewrite (q_state _ _ _ _ Hq) in IH.
    destruct Hq as [_ _ H1 H2 _]. specialize (IH Hok' Hs ltac:(lia) ltac:(lia) Ha). case_match; lia.
Qed.
End history.

(** The cooldown loop, on int64 durations, computes [InitialCooldown * 2^(k-1)]
    for the [k]-th exclusion in a row, capped at [MaxCooldown] from the second
    on; with [InitialCooldown] below the cap the periods stay between the two
    and never shrink. *)
Theorem cooldown_schedule c k :
  cooldown_ok c → 1 ≤ k →
  cooldownPeriod c k
  = (if k =? 1 then InitialCooldown c else Z.min (MaxCooldown c) (InitialCooldown c * 2 ^ (k - 1)))
  ∧ (InitialCooldown c ≤ MaxCooldown c →
     InitialCooldown c ≤ cooldownPeriod c k ≤ MaxCooldown c
     ∧ cooldownPeriod c k ≤ cooldownPeriod c (k + 1)).
Proof.
  intros Hc Hk. split; [by apply cooldownPeriod_closed|]. intros Hle. by apply cooldownPeriod_bounds.
Qed.

Lemma cooldown_schedule_witness :
  cooldownPeriod PolicyConfigDefaults 4 = 240 * second ∧ cooldownPeriod PolicyConfigDefaults 9 = 15 * minute
  ∧ 30 * second ≤ cooldownPeriod PolicyConfigDefaults 4 ≤ 15 * minute.
Proof.
  assert (H : cooldown_ok PolicyConfigDefaults) by (vm_compute; auto).
  split; [exact (proj1 (cooldown_schedule PolicyConfigDefaults 4 H ltac:(lia)))|].
  split; [exact (proj1 (cooldown_schedule PolicyConfigDefaults 9 H ltac:(lia)))|].
  apply (cooldown_schedule PolicyConfigDefaults 4 H ltac:(lia)). vm_compute. congruence.
Defined.

Section theorems.
Variable pow : float64 → float64 → float64.
Variable midnight : Time → Time.
Abbreviation run := (run pow midnight).

(** In every history a carrier's state moves at ticks only, and only along
    the documented transitions, each with its documented cause: admission needs
    the passes, the score and no hard gate; an exclusion names a gate that
    fails at this tick and starts a cooldown of the next period; a cooldown ends
    only when it has elapsed; readmission needs the half-open passes and keeps
    the exclusion streak. *)
Theorem lifecycle_edges_sound c l p os o id :
  NoDup l → NewPolicy c l = Ok p → id ∈ l →
  ∃ h h', health (run p os) !! id = Some h ∧ health (run p (os ++ [o])) !! id = Some h'
  ∧ match o with
    | OEvaluate now => edge (cfg p) now h h'
    | _ => State h' = State h ∧ CooldownUntil h' = CooldownUntil h
    end.
Proof.
  intros Hl Hp Hid. do 2 eexists. split; [by eapply NewPolicy_run|]. split; [by eapply NewPolicy_run|].
  destruct (NewPolicy_ok c l p Hl Hp) as (_ & -> & _ & _). rewrite foldl_app. cbn [foldl].
  destruct (is_tick o) eqn:Ht.
  - destruct o; try done. apply tick_edge.
  - destruct (hstep_quiet pow midnight (sanitizePolicyConfig c) id
                (foldl (hstep pow midnight (sanitizePolicyConfig c) id) (newHealth id) os) o Ht) as [H1 H2 _ _ _].
    by destruct o.
Qed.

(** A carrier that is excluded becomes Active again only after a tick at which
    its cooldown has elapsed, followed by at least [AdmitPassesHalf] passes:
    full probes, or clean stream completions while probing is off. *)
Theorem readmission_earned c l p os os' id h h' :
  NoDup l → NewPolicy c l = Ok p → id ∈ l →
  health (run p os) !! id = Some h → State h = stateExcluded →
  health (run p (os ++ os')) !! id = Some h' → State h' = stateActive →
  ∃ os1 t os2, os' = os1 ++ OEvaluate t :: os2 ∧ CooldownUntil h ≤ t
  ∧ AdmitPassesHalf (cfg p) ≤ zsum (halfPass (cfg p) id) os2.
Proof.
  intros Hl Hp Hid Hh Hs Hh' Hs'.
  destruct (NewPolicy_ok c l p Hl Hp) as (_ & Hc & _ & _). rewrite Hc.
  rewrite (NewPolicy_run pow midnight c l p os id) in Hh by done.
  rewrite (NewPolicy_run pow midnight c l p (os ++ os') id) in Hh' by done.
  apply (inj Some) in Hh, Hh'. rewrite foldl_app in Hh'. subst h'.
  destruct (leave_excluded pow midnight (sanitizePolicyConfig c) id os' h Hs) as (os1 & t & os2 & -> & Ht & Hex & Hho).
  { rewrite <- Hh. by rewrite Hs'. }
  exists os1, t, os2. split_and!; [done..|].
  set (g := foldl (hstep pow midnight (sanitizePolicyConfig c) id) h (os1 ++ [OEvaluate t])) in *.
  assert (Hg0 : HalfOpenPasses g = 0).
  { subst g. rewrite foldl_app in Hho |- *. cbn [foldl PolicyRun.hstep] in *.
    set (f := foldl (hstep pow midnight (sanitizePolicyConfig c) id) h os1) in *.
    assert (Hf : passes_ok (sanitizePolicyConfig c) f).
    { subst f. rewrite <- Hh. by do 2 apply fold_passes_ok. }
    destruct (evalCarrier_half (sanitizePolicyConfig c) t f) as [-> | [? _]]; [|done].
    apply (proj1 Hf). congruence. }
  replace (os1 ++ OEvaluate t :: os2) with ((os1 ++ [OEvaluate t]) ++ os2) in Hs' by by rewrite <- app_assoc.
  rewrite Hh, foldl_app in Hs'.
  pose proof (climb pow midnight (sanitizePolicyConfig c) id os2 g (or_intror Hho) ltac:(lia) Hs'). lia.
Qed.

(** No carrier is ever Active without evidence: at the time it is, the history
    holds at least as many passes as the smaller of the two admission
    thresholds, and both thresholds are positive. *)
Theorem admission_earned c l p os id h :
  NoDup l → NewPolicy c l = Ok p → id ∈ l →
  health (run p os) !! id = Some h → State h = stateActive →
  1 ≤ Z.min (AdmitPassesCand (cfg p)) (AdmitPassesHalf (cfg p)) ≤ zsum (candPass (cfg p) id) os.
Proof.
  intros Hl Hp Hid Hh Hs.
  destruct (NewPolicy_ok c l p Hl Hp) as (_ & -> & _ & _).
  rewrite (NewPolicy_run pow midnight c l p _ id) in Hh by done. apply (inj Some) in Hh. subst h.
  split.
  - cbn. destruct (Z.leb_spec (AdmitPassesCand c) 0), (Z.leb_spec (AdmitPassesHalf c) 0); lia.
  - pose proof (admit_climb pow midnight (sanitizePolicyConfig c) id os (newHealth id)) as H.
    rewrite bool_decide_eq_true_2 in H by done. apply H; try done.
Qed.
End theorems.

(** ** A history that goes around the state machine *)
Definition demo_policy : Policy :=
  match NewPolicy PolicyConfigDefaults [lit "a"; lit "b"] with Ok p => p | Err _ => mkPolicy PolicyConfigDefaults [] ∅ ∅ [] [] 0 0 0 0 end.
Definition demo_probe (t : Time) : op := OProbe (lit "a") true fone 0 (t * second) true.
Definition demo_admit : list op := [demo_probe 1; demo_probe 2; OEvaluate (3 * second)].
Definition demo_exclude : list op := demo_admit ++ [OAuthFail (lit "a") (4 * second); OEvaluate (5 * second)].
Definition demo_return : list op :=
  [OEvaluate (20 * second); OEvaluate (35 * second); demo_probe 36; demo_probe 37; demo_probe 38; OEvaluate (39 * second)].
Definition demo_health (os : list op) : CarrierHealth :=
  default (newHealth (lit "a")) (health (run nopow id demo_policy os) !! lit "a").

Lemma demo_state os s : State (demo_health os) = s → bool_decide (is_Some (health (run nopow id demo_policy os) !! lit "a")) = true →
  health (run nopow id demo_policy os) !! lit "a" = Some (demo_health os).
Proof. intros _. unfold demo_health. by destruct (health _ !! _). Qed.

Lemma readmission_earned_witness :
  State (demo_health demo_exclude) = stateExcluded
  ∧ State (demo_health (demo_exclude ++ demo_return)) = stateActive
  ∧ ∃ os1 t os2, demo_return = os1 ++ OEvaluate t :: os2 ∧ CooldownUntil (demo_health demo_exclude) ≤ t
    ∧ AdmitPassesHalf (cfg demo_policy) ≤ zsum (halfPass (cfg demo_policy) (lit "a")) os2.
Proof.
  split; [vm_compute; reflexivity|]. split; [vm_compute; reflexivity|].
  apply (readmission_earned nopow id PolicyConfigDefaults [lit "a"; lit "b"] demo_policy demo_exclude demo_return
           (lit "a") (demo_health demo_exclude) (demo_health (demo_exclude ++ demo_return))).
  - exact demo_nodup.
  - reflexivity.
  - exact demo_elem.
  - apply (demo_state _ stateExcluded); vm_compute; reflexivity.
  - vm_compute. reflexivity.
  - apply (demo_state _ stateActive); vm_compute; reflexivity.
  - vm_compute. reflexivity.
Defined.

Lemma admission_earned_witness :
  State (demo_health demo_admit) = stateActive
  ∧ 1 ≤ Z.min (AdmitPassesCand (cfg demo_policy)) (AdmitPassesHalf (cfg demo_policy))
      ≤ zsum (candPass (cfg demo_policy) (lit "a")) demo_admit.
Proof.
  split; [vm_compute; reflexivity|].
  apply (admission_earned nopow id PolicyConfigDefaults [lit "a"; lit "b"] demo_policy demo_admit
           (lit "a") (demo_health demo_admit)).
  - exact demo_nodup.
  - reflexivity.
  - exact demo_elem.
  - apply (demo_state _ stateActive); vm_compute; reflexivity.
  - vm_compute. reflexivity.
Defined.

Lemma lifecycle_edges_sound_witness :
  ∃ h h', health (run nopow id demo_policy (demo_admit ++ [OAuthFail (lit "a") (4 * second)])) !! lit "a" = Some h
  ∧ health (run nopow id demo_policy ((demo_admit ++ [OAuthFail (lit "a") (4 * second)]) ++ [OEvaluate (5 * second)])) !! lit "a" = Some h'
  ∧ edge (cfg demo_policy) (5 * second) h h'.
Proof.
  exact (lifecycle_edges_sound nopow id PolicyConfigDefaults [lit "a"; lit "b"] demo_policy
           (demo_admit ++ [OAuthFail (lit "a") (4 * second)]) (OEvaluate (5 * second)) (lit "a")
           demo_nodup eq_refl demo_elem).
Defined.
