(* ===== verification/PolicyChoice.v ===== *)
(** * Which carrier the policy prefers

    The best eligible carrier, the hysteresis that protects the primary one, and
    the choice for a new stream. *)
From S2P Require Export PolicyRun.
#[local] Open Scope Z_scope.

(** ** The orders *)
Lemma strltb_irrefl a : strltb a a = false.
Proof. induction a as [|x a IH]; simpl; [done|]. by rewrite Z.ltb_irrefl. Qed.

Lemma strltb_trans a b c : strltb a b = true → strltb b c = true → strltb a c = true.
Proof.
  revert b c. induction a as [|x a IH]; intros [|y b] [|z c]; simpl; try done.
  destruct (Z.ltb_spec (bz x) (bz y)), (Z.ltb_spec (bz y) (bz x)),
    (Z.ltb_spec (bz y) (bz z)), (Z.ltb_spec (bz z) (bz y)),
    (Z.ltb_spec (bz x) (bz z)), (Z.ltb_spec (bz z) (bz x)); try done; try lia. apply IH.
Qed.

Lemma strltb_total a b : strltb a b = false → strltb b a = false → a = b.
Proof.
  revert b. induction a as [|x a IH]; intros [|y b]; simpl; try done.
  destruct (Z.ltb_spec (bz x) (bz y)), (Z.ltb_spec (bz y) (bz x)); try done; try lia.
  intros H1 H2. f_equal; [apply bz_inj; lia|by apply IH].
Qed.

Lemma strltb_asym a b : strltb a b = true → strltb b a = false.
Proof.
  intros H. apply not_true_iff_false. intros H'.
  pose proof (strltb_trans _ _ _ H H'). by rewrite strltb_irrefl in *.
Qed.

(** ** Eligible carriers *)
Lemma eligible_spec now p id : id ∈ eligibleActiveLocked now p ↔ id ∈ ids p ∧ isEligible now p id = true.
Proof.
  unfold eligibleActiveLocked. rewrite !list_elem_of_In. apply filter_In.
Qed.

Lemma active_spec p id : id ∈ activeLocked p ↔ id ∈ ids p ∧ isActive p id = true.
Proof. unfold activeLocked. rewrite !list_elem_of_In. apply filter_In. Qed.

Lemma eligible_active now p id : isEligible now p id = true → isActive p id = true.
Proof. unfold isEligible, isActive. destruct (health p !! id); [|done]. by intros [? _]%andb_true_iff. Qed.

Lemma isEligibleSet_spec l id : isEligibleSet l id = true ↔ id ∈ l.
Proof.
  unfold isEligibleSet. rewrite existsb_exists. setoid_rewrite streqb_true. setoid_rewrite <- list_elem_of_In.
  naive_solver.
Qed.

(** ** The best of them *)
Definition scored (p : Policy) (id : CarrierID) : Prop := is_nan (Score p id) = false.

Section best.
Variable p : Policy.

Definition bestFold (l : list CarrierID) (b : CarrierID * float64) : CarrierID * float64 :=
  foldl (λ best id, if betterThan p best id then (id, Score p id) else best) b l.

(** [b] is the best of the carriers looked at. *)
Definition best_of (seen : list CarrierID) (b : CarrierID * float64) : Prop :=
  b.1 ∈ seen ∧ b.2 = Score p b.1
  ∧ ∀ id, id ∈ seen → flt b.2 (Score p id) = false
                      ∧ (feq (Score p id) b.2 = true → strltb id b.1 = false).

Lemma bestFold_spec l seen b :
  [] ∉ l → [] ∉ seen → (∀ id, id ∈ seen ++ l → scored p id) →
  best_of seen b → best_of (seen ++ l) (bestFold l b).
Proof.
  revert seen b. induction l as [|x l IH]; intros seen b Hl Hseen Hn Hb.
  { by rewrite app_nil_r. }
  cbn. rewrite (cons_middle x seen l), app_assoc. apply IH; [set_solver..| |].
  { intros id Hid. apply Hn. set_solver. }
  destruct Hb as (Hin & Hsc & Hmax). assert (Hx : scored p x) by (apply Hn; set_solver).
  assert (Hb1 : scored p b.1) by (apply Hn; set_solver).
  assert (Hne : b.1 ≠ []) by (intros He; rewrite He in Hin; done).
  unfold betterThan. rewrite (proj2 (streqb_false _ _) Hne). cbn [orb].
  assert (Hall : ∀ id, id ∈ seen → scored p id) by (intros; apply Hn; set_solver).
  destruct (flt b.2 (Score p x)) eqn:Hlt; cbn [orb].
  - (* strictly better *)
    split_and!; [set_solver|done|]. intros id [Hid| ->%list_elem_of_singleton]%elem_of_app; cbn.
    + destruct (Hmax id Hid) as [H1 H2]. rewrite Hsc in *. split.
      * apply not_true_iff_false. intros H. apply not_true_iff_false in H1. apply H1. by eapply flt_trans.
      * intros He. apply not_true_iff_false in H1. exfalso. apply H1.
        apply flt_key; [done|by apply Hall|]. apply feq_key in He; [|by apply Hall|done].
        rewrite He. by apply flt_key.
    + split; [apply flt_irrefl|intros _; apply strltb_irrefl].
  - destruct (feq (Score p x) b.2 && strltb x b.1) eqn:He.
    + apply andb_true_iff in He as [He Hs]. rewrite Hsc in *.
      apply feq_key in He; [|done..].
      split_and!; [set_solver|done|]. intros id [Hid| ->%list_elem_of_singleton]%elem_of_app; cbn.
      * destruct (Hmax id Hid) as [H1 H2]. assert (Hid' : scored p id) by by apply Hall.
        split.
        -- rewrite <- H1. apply eq_true_iff_eq. rewrite !flt_key by done. by rewrite He.
        -- intros Hf. apply not_true_iff_false. intros Hlt'.
           assert (Hf' : feq (Score p id) (Score p b.1) = true).
           { apply feq_key; [done..|]. apply feq_key in Hf; [|done..]. congruence. }
           specialize (H2 Hf'). rewrite (strltb_trans _ _ _ Hlt' Hs) in H2. done.
      * split; [apply flt_irrefl|intros _; apply strltb_irrefl].
    + split_and!; [set_solver|done|]. intros id [Hid| ->%list_elem_of_singleton]%elem_of_app; [by apply Hmax|].
      split; [done|]. intros Hf. rewrite Hf in He. done.
Qed.

(** [bestEligibleLocked] is an eligible carrier that no other one beats, the
    first by name among equals. *)
Lemma bestEligible_spec l :
  l ≠ [] → [] ∉ l → (∀ id, id ∈ l → scored p id) →
  let b := bestEligibleLocked p l in
  b ∈ l ∧ ∀ id, id ∈ l → flt (Score p b) (Score p id) = false
                        ∧ (feq (Score p id) (Score p b) = true → strltb id b = false).
Proof.
  intros Hne Hl Hs. destruct l as [|x l]; [done|].
  assert (Hb : best_of [x] (x, Score p x)).
  { split_and!; [set_solver|done|]. intros id ->%list_elem_of_singleton. cbn.
    split; [apply flt_irrefl|intros _; apply strltb_irrefl]. }
  pose proof (bestFold_spec l [x] (x, Score p x)) as H. specialize (H ltac:(set_solver) ltac:(set_solver) Hs Hb).
  unfold bestEligibleLocked. cbn [foldl].
  change (betterThan p ([], of_Z (-1)) x) with true. cbn [orb]. fold (bestFold l (x, Score p x)).
  destruct H as (H1 & H2 & H3). split; [done|]. intros id Hid. rewrite <- H2. by apply H3.
Qed.

Lemma bestEligible_in l : l ≠ [] → [] ∉ l → bestEligibleLocked p l ∈ l.
Proof.
  intros Hne Hl. unfold bestEligibleLocked.
  cut (∀ k b, [] ∉ k → b.1 ∈ l ∨ b.1 = [] ∧ k ≠ [] → (∀ x, x ∈ k → x ∈ l) → (bestFold k b).1 ∈ l).
  { intros H. apply H; auto. }
  intros k. induction k as [|x k IH]; intros b Hk Hb Hsub; cbn.
  { by destruct Hb as [|[_ ?]]. }
  apply IH; [set_solver| |set_solver]. left. destruct (betterThan p b x) eqn:Hbt; cbn; [set_solver|].
  destruct Hb as [|[Hb _]]; [done|]. unfold betterThan in Hbt. by rewrite Hb in Hbt.
Qed.
End best.

(** ** Hysteresis

    A tick is a vote of the challenger [b] against the incumbent [a] when both
    are eligible and [b], the best, beats [a] by the margin. *)
Definition vote (now : Time) (p : Policy) : option (CarrierID * CarrierID) :=
  let eligible := eligibleActiveLocked now p in
  let best := bestEligibleLocked p eligible in
  if negb (streqb (incumbent p) []) && isEligibleSet eligible (incumbent p)
     && negb (streqb best (incumbent p)) && beatsIncumbent p best
  then Some (incumbent p, best) else None.

(** The challenger counts the latest consecutive votes. *)
Definition count_ok (p : Policy) (vs : list (option (CarrierID * CarrierID))) : Prop :=
  0 ≤ challengerTicks p
  ∧ (challenger p = [] → challengerTicks p = 0)
  ∧ (challenger p ≠ [] →
     ∃ vs', vs = vs' ++ replicate (Z.to_nat (challengerTicks p)) (Some (incumbent p, challenger p))).

Lemma count_ok_reset p vs : challenger p = [] → challengerTicks p = 0 → count_ok p vs.
Proof. intros H1 H2. split_and!; [lia|done|done]. Qed.

(** What one tick of the hysteresis does, after the health update. *)
Inductive turn (now : Time) (p p' : Policy) : Prop :=
| TIdle : incumbent p' = [] → eligibleActiveLocked now p = [] → lastSwitchAt p' = lastSwitchAt p → turn now p p'
| TAdopt :
    incumbent p = [] → incumbent p' ∈ eligibleActiveLocked now p → lastSwitchAt p' = now → turn now p p'
| TFailover :
    incumbent p ≠ [] → incumbent p ∉ eligibleActiveLocked now p →
    incumbent p' ∈ eligibleActiveLocked now p → lastSwitchAt p' = now → turn now p p'
| TKeep :
    incumbent p ≠ [] → incumbent p ∈ eligibleActiveLocked now p →
    incumbent p' = incumbent p → lastSwitchAt p' = lastSwitchAt p → turn now p p'
| TSwitch :
    incumbent p ≠ [] → incumbent p ∈ eligibleActiveLocked now p →
    incumbent p' ∈ eligibleActiveLocked now p → incumbent p' ≠ incumbent p →
    incumbent p' = bestEligibleLocked p (eligibleActiveLocked now p) →
    lastSwitchAt p' = now → lastSwitchAt p + MinDwell (cfg p) ≤ now →
    turn now p p'.

Lemma countChallenger_frame best p :
  cfg (countChallenger best p) = cfg p ∧ incumbent (countChallenger best p) = incumbent p
  ∧ lastSwitchAt (countChallenger best p) = lastSwitchAt p
  ∧ (challenger (countChallenger best p) = best ∨ challenger (countChallenger best p) = []).
Proof.
  unfold countChallenger, resetChallenger. destruct (beatsIncumbent p best); [|cbn; auto].
  destruct (streqb (challenger p) best) eqn:He; cbn; auto. apply streqb_true in He. auto.
Qed.

Lemma countChallenger_count best now p vs :
  best = bestEligibleLocked p (eligibleActiveLocked now p) → best ≠ [] →
  incumbent p ≠ [] → isEligibleSet (eligibleActiveLocked now p) (incumbent p) = true → best ≠ incumbent p →
  count_ok p vs → count_ok (countChallenger best p) (vs ++ [vote now p]).
Proof.
  intros Hb Hbn Hi Hel Hbi (H0 & He & Hc). unfold countChallenger.
  destruct (beatsIncumbent p best) eqn:Hbeat; [|by apply count_ok_reset].
  assert (Hv : vote now p = Some (incumbent p, best)).
  { unfold vote. rewrite <- Hb, Hel, Hbeat.
    rewrite (proj2 (streqb_false _ _) Hi), (proj2 (streqb_false _ _) Hbi). done. }
  rewrite Hv. destruct (streqb (challenger p) best) eqn:Hs.
  - apply streqb_true in Hs. destruct Hc as [vs' Hvs]; [congruence|].
    split_and!; cbn; [lia|congruence|]. intros _. exists vs'.
    rewrite Hvs, <- app_assoc. f_equal. rewrite Hs.
    replace (Z.to_nat (challengerTicks p + 1)) with (S (Z.to_nat (challengerTicks p))) by lia.
    by rewrite replicate_S_end.
  - split_and!; cbn; [lia|congruence|]. intros _. by exists vs.
Qed.

Lemma hysteresis_turn now p vs :
  [] ∉ ids p → count_ok p vs →
  turn now p (hysteresis now p)
  ∧ count_ok (hysteresis now p) (vs ++ [vote now p])
  ∧ (incumbent p ≠ [] → incumbent p ∈ eligibleActiveLocked now p → incumbent (hysteresis now p) ≠ incumbent p →
     ∃ vs', vs ++ [vote now p]
            = vs' ++ replicate (Z.to_nat (HysteresisTicks (cfg p))) (Some (incumbent p, incumbent (hysteresis now p)))).
Proof.
  intros Hids Hcount.
  assert (Hel : [] ∉ eligibleActiveLocked now p) by (intros [? _]%eligible_spec; done).
  unfold hysteresis. destruct (eligibleActiveLocked now p) as [|e es] eqn:HE.
  { split_and!; [by apply TIdle|by apply count_ok_reset|]. intros _ Hin. by apply elem_of_nil in Hin. }
  rewrite <- HE in *.
  assert (Hbest : bestEligibleLocked p (eligibleActiveLocked now p) ∈ eligibleActiveLocked now p)
    by (apply bestEligible_in; [by rewrite HE|done]).
  set (best := bestEligibleLocked p (eligibleActiveLocked now p)) in *.
  destruct (streqb (incumbent p) []) eqn:Hi.
  { apply streqb_true in Hi. split_and!; [by apply TAdopt|by apply count_ok_reset|done]. }
  apply streqb_false in Hi.
  destruct (isEligibleSet (eligibleActiveLocked now p) (incumbent p)) eqn:Hset; cbn [negb].
  2: { assert (incumbent p ∉ eligibleActiveLocked now p)
         by (rewrite <- isEligibleSet_spec; by rewrite Hset).
       split_and!; [by apply TFailover|by apply count_ok_reset|done]. }
  pose proof (proj1 (isEligibleSet_spec _ _) Hset) as Hin.
  destruct (streqb best (incumbent p)) eqn:Hbi.
  { split_and!; [by apply TKeep|by apply count_ok_reset|done]. }
  apply streqb_false in Hbi. assert (Hbn : best ≠ []) by (intros Hz; by rewrite Hz in Hbest).
  pose proof (countChallenger_count best now p vs eq_refl Hbn Hi Hset Hbi Hcount) as Hc'.
  destruct (countChallenger_frame best p) as (Hf1 & Hf2 & Hf3 & Hf4).
  set (p1 := countChallenger best p) in *. cbv zeta.
  destruct (streqb (challenger p1) best && (HysteresisTicks (cfg p1) <=? challengerTicks p1)
            && negb (Before now (Add (lastSwitchAt p1) (MinDwell (cfg p1))))) eqn:Hsw.
  - bools. apply streqb_true in H. unfold Before, Add in *. bools.
    split_and!; [|by apply count_ok_reset|].
    + apply TSwitch; try done. rewrite <- Hf1, <- Hf3. lia.
    + intros _ _ _. destruct Hc' as (H3 & _ & Hc'). destruct Hc' as [vs' Hvs]; [congruence|].
      rewrite Hvs, H, Hf2. change (incumbent (switchTo best now p1)) with best.
      rewrite Hf1 in *.
      destruct (Z.le_gt_cases (HysteresisTicks (cfg p)) 0) as [Hz|Hz].
      { replace (Z.to_nat (HysteresisTicks (cfg p))) with 0%nat by lia. eexists. by rewrite app_nil_r. }
      exists (vs' ++ replicate (Z.to_nat (challengerTicks p1 - HysteresisTicks (cfg p))) (Some (incumbent p, best))).
      rewrite <- app_assoc. f_equal. rewrite <- replicate_add. f_equal. lia.
  - split_and!; [by apply TKeep|done|]. by rewrite Hf2.
Qed.

(** *** Over a history *)
Section hysteresis.
Variable pow : float64 → float64 → float64.
Variable midnight : Time → Time.
Abbreviation step := (step pow midnight).
Abbreviation run := (run pow midnight).

(** The votes of a history, one per tick. *)
Fixpoint votes (p : Policy) (os : list op) : list (option (CarrierID * CarrierID)) :=
  match os with
  | [] => []
  | o :: os =>
      match o with OEvaluate now => [vote now (evalAll now p)] | _ => [] end ++ votes (step p o) os
  end.

(** The time of the tick that last changed the incumbent. *)
Fixpoint tenure (t : Time) (p : Policy) (os : list op) : Time :=
  match os with
  | [] => t
  | o :: os =>
      let p' := step p o in
      tenure match o with
             | OEvaluate now => if bool_decide (incumbent p' = incumbent p) then t else now
             | _ => t
             end p' os
  end.

(** The choice state, which only ticks change. *)
Definition choice (p : Policy) := (incumbent p, challenger p, challengerTicks p, lastSwitchAt p).

Lemma step_choice p o : (∀ now, o ≠ OEvaluate now) → choice (step p o) = choice p.
Proof.
  intros Hne. unfold choice. destruct o; cbn [Policy.step];
    unfold RecordPassiveBytes, RecordPending, RecordStall, RecordStreamOutcome, RecordReset, RecordFlap,
      RecordAuthFail, RecordRebind, RecordConnectRTT, RecordProbe;
    try (case_match; [done|]);
    try (match goal with |- context [onHealth ?i ?f ?p] =>
           by destruct (onHealth_frame i f p) as (_ & _ & _ & -> & -> & -> & -> & _) end).
  - by destruct (canProbe_frame midnight id bytes now p) as (_ & _ & -> & -> & -> & -> & _).
  - by destruct (Hne now).
  - by destruct (Pick_frame now p) as (_ & _ & _ & -> & -> & -> & -> & _).
Qed.

Lemma evalAll_frame now p :
  cfg (evalAll now p) = cfg p ∧ ids (evalAll now p) = ids p ∧ choice (evalAll now p) = choice p.
Proof.
  destruct (evalList_frame now (ids p) p) as (H1 & H2 & _ & H3 & H4 & H5 & H6 & _).
  unfold evalList in *. fold (evalAll now p) in *. split_and!; [done|done|].
  unfold choice. by rewrite H3, H4, H5, H6.
Qed.

(** The hysteresis state agrees with the history. *)
Record choice_ok (p : Policy) (vs : list (option (CarrierID * CarrierID))) (t : Time) : Prop := {
  co_count : count_ok p vs;
  co_tenure : incumbent p ≠ [] → lastSwitchAt p = t
}.

Lemma count_ok_choice p p' vs : choice p' = choice p → count_ok p vs → count_ok p' vs.
Proof. unfold choice, count_ok. intros Hc. injection Hc as -> -> -> _. done. Qed.

Lemma Evaluate_adaptive now p :
  Mode (cfg p) = PolicyAdaptive →
  Evaluate now p = hysteresis now ((evalAll now p) <| lastEval := now |>).
Proof.
  intros Hm. unfold Evaluate. destruct (evalAll_frame now p) as (Hc & _).
  change (cfg ((evalAll now p) <| lastEval := now |>)) with (cfg (evalAll now p)).
  by rewrite Hc, Hm, streqb_refl.
Qed.

(** [hysteresis] does not read [lastEval]. *)
Lemma vote_lastEval now p : vote now (p <| lastEval := now |>) = vote now p.
Proof. done. Qed.

Lemma tick_choice now p vs t :
  Mode (cfg p) = PolicyAdaptive → [] ∉ ids p → choice_ok p vs t →
  let p1 := evalAll now p in
  let p' := Evaluate now p in
  choice_ok p' (vs ++ [vote now p1]) (if bool_decide (incumbent p' = incumbent p) then t else now)
  ∧ (incumbent p ≠ [] → incumbent p ∈ eligibleActiveLocked now p1 → incumbent p' ≠ incumbent p →
     t + MinDwell (cfg p) ≤ now
     ∧ incumbent p' = bestEligibleLocked p1 (eligibleActiveLocked now p1)
     ∧ ∃ vs', vs ++ [vote now p1] = vs' ++ replicate (Z.to_nat (HysteresisTicks (cfg p))) (Some (incumbent p, incumbent p'))).
Proof.
  intros Hm Hids [Hcount Hten] p1 p'. subst p'. rewrite Evaluate_adaptive by done. fold p1.
  destruct (evalAll_frame now p) as (Hc & Hi & Hch). fold p1 in Hc, Hi, Hch.
  set (q := p1 <| lastEval := now |>).
  assert (Hq : choice q = choice p) by (rewrite <- Hch; done).
  assert (Hcq : count_ok q vs) by by eapply count_ok_choice.
  destruct (hysteresis_turn now q vs) as (Hturn & Hcount' & Hsw).
  { change (ids q) with (ids p1). by rewrite Hi. }
  { done. }
  assert (Hinc : incumbent q = incumbent p) by exact (f_equal (λ x, x.1.1.1) Hq).
  assert (Hlast : lastSwitchAt q = lastSwitchAt p) by exact (f_equal snd Hq).
  change (vote now q) with (vote now p1) in *. change (cfg q) with (cfg p1) in *.
  change (eligibleActiveLocked now q) with (eligibleActiveLocked now p1) in *.
  change (bestEligibleLocked q (eligibleActiveLocked now p1))
    with (bestEligibleLocked p1 (eligibleActiveLocked now p1)) in *.
  assert (HE : eligibleActiveLocked now q = eligibleActiveLocked now p1) by reflexivity.
  assert (HC : cfg q = cfg p1) by reflexivity.
  assert (HB : ∀ l, bestEligibleLocked q l = bestEligibleLocked p1 l) by reflexivity.
  clearbody q. rewrite <- Hinc, <- Hc.
  split.
  - split; [done|]. intros Hne. case_bool_decide as Hsame.
    + destruct Hturn as [| |? Hn1 Hn2 Hn3|? ? ? Hl|]; try congruence.
      rewrite Hl, Hlast. apply Hten. congruence.
    + destruct Hturn; congruence.
  - intros Hne Hel Hdiff. split_and!; [| |by apply Hsw].
    + destruct Hturn as [? Hz|?|? Hno|? ? Hk|? ? ? ? ? ? Hd]; try congruence.
      * rewrite <- HE, Hz in Hel. by apply elem_of_nil in Hel.
      * rewrite Hlast, Hten in Hd by congruence. by rewrite HC in Hd.
    + destruct Hturn as [? Hz|?|? Hno|? ? Hk|? ? ? ? Hb]; try congruence.
      * rewrite <- HE, Hz in Hel. by apply elem_of_nil in Hel.
Qed.

Lemma run_choice p os vs t :
  Mode (cfg p) = PolicyAdaptive → [] ∉ ids p → choice_ok p vs t →
  choice_ok (run p os) (vs ++ votes p os) (tenure t p os).
Proof.
  revert p vs t. induction os as [|o os IH]; intros p vs t Hm Hids Hok.
  { cbn. by rewrite app_nil_r. }
  cbn [votes tenure]. rewrite run_cons, app_assoc.
  destruct (step_frame pow midnight p o) as [Hc Hi].
  apply IH; [by rewrite Hc|by rewrite Hi|].
  assert (Hquiet : (∀ now, o ≠ OEvaluate now) → choice_ok (step p o) (vs ++ []) t).
  { intros Hne. pose proof (step_choice p o Hne) as Hch. destruct Hok as [H1 H2].
    rewrite app_nil_r. split; [by eapply count_ok_choice|].
    unfold choice in Hch. injection Hch as -> _ _ ->. done. }
  destruct o; try (by apply Hquiet). by apply tick_choice.
Qed.
End hysteresis.

(** C39: In adaptive mode, whatever happened before, a tick replaces an incumbent
    [a] that is still eligible only by the best eligible carrier [b], only if
    [b] beat [a] by the margin at each of the last [HysteresisTicks]
    consecutive ticks, this one included, and only when [a] has been the
    incumbent for at least [MinDwell]. *)
Theorem hysteresis_protects_incumbent pow midnight c l p os now :
  NoDup l → [] ∉ l → NewPolicy c l = Ok p → Mode (cfg p) = PolicyAdaptive →
  let q := run pow midnight p os in
  let q1 := evalAll now q in
  let q' := run pow midnight p (os ++ [OEvaluate now]) in
  incumbent q ≠ [] → incumbent q ∈ eligibleActiveLocked now q1 → incumbent q' ≠ incumbent q →
  incumbent q' = bestEligibleLocked q1 (eligibleActiveLocked now q1)
  ∧ tenure pow midnight 0 p os + MinDwell (cfg p) ≤ now
  ∧ ∃ vs, votes pow midnight p (os ++ [OEvaluate now])
          = vs ++ replicate (Z.to_nat (HysteresisTicks (cfg p))) (Some (incumbent q, incumbent q')).
Proof.
  intros Hl Hnil Hp Hm q q1 q' Hne Hel Hdiff.
  destruct (NewPolicy_ok c l p Hl Hp) as (Hok & Hc & Hi & _).
  assert (H0 : choice_ok p [] 0).
  { unfold NewPolicy in Hp. case_match; [done|]. injection Hp as <-. by split. }
  assert (Hids : [] ∉ ids p) by by rewrite Hi.
  pose proof (run_choice pow midnight p os [] 0 Hm Hids H0) as Hq. cbn [app] in Hq. fold q in Hq.
  destruct (run_frame pow midnight p os) as [Hcq Hiq]. fold q in Hcq, Hiq.
  assert (Hq' : q' = Evaluate now q) by (unfold q'; by rewrite run_app).
  destruct (tick_choice now q _ _ ltac:(by rewrite Hcq) ltac:(by rewrite Hiq) Hq) as [_ Hsw].
  fold q1 in Hsw. rewrite <- Hq', Hcq in Hsw. destruct (Hsw Hne Hel Hdiff) as (Hd & Hb & vs & Hv).
  split_and!; [done|done|]. exists vs. rewrite <- Hv.
  clear. subst q1 q. revert p. induction os as [|o os IH]; intros p; [done|].
  cbn [votes app]. rewrite IH, app_assoc. done.
Qed.

(** Two carriers, [a] the incumbent; its goodput drops and [b] takes over at the
    third tick. *)
Definition duel_policy : Policy :=
  match NewPolicy (PolicyConfigDefaults <| Mode := PolicyAdaptive |>) [lit "a"; lit "b"] with
  | Ok p => p
  | Err _ => mkPolicy PolicyConfigDefaults [] ∅ ∅ [] [] 0 0 0 0
  end.

Definition duel_probe (id : gostring) (tenths t : Z) : op := OProbe id true (frac tenths 10) 0 (t * second) true.

Definition duel : list op :=
  [duel_probe (lit "a") 7 1; duel_probe (lit "b") 7 1; duel_probe (lit "a") 7 2; duel_probe (lit "b") 7 2;
   OEvaluate (3 * second); duel_probe (lit "a") 2 4; OEvaluate (70 * second); OEvaluate (80 * second)].

Lemma hysteresis_protects_incumbent_witness :
  let q := run nopow id duel_policy duel in
  let q' := run nopow id duel_policy (duel ++ [OEvaluate (90 * second)]) in
  incumbent q = lit "a" ∧ incumbent q' = lit "b"
  ∧ ∃ vs, votes nopow id duel_policy (duel ++ [OEvaluate (90 * second)])
          = vs ++ replicate 3 (Some (incumbent q, incumbent q')).
Proof.
  split; [vm_compute; reflexivity|]. split; [vm_compute; reflexivity|].
  apply (hysteresis_protects_incumbent nopow id (PolicyConfigDefaults <| Mode := PolicyAdaptive |>)
           [lit "a"; lit "b"] duel_policy duel (90 * second)).
  - exact demo_nodup.
  - apply (bool_decide_unpack _). vm_compute. exact I.
  - reflexivity.
  - reflexivity.
  - vm_compute. congruence.
  - apply isEligibleSet_spec. vm_compute. reflexivity.
  - vm_compute. congruence.
Defined.
