(* ===== verification/PolicyPick.v ===== *)
(** * The choice for a new stream

    What [PickForNewStream] may return in each mode, what the round-robin makes
    of the top carriers, and that the connect time has no say. *)
From S2P Require Export PolicyChoice.
#[local] Open Scope Z_scope.

(** ** The ranking *)
Section ranking.
Variable p : Policy.

(** Rank data: score, incumbent first, name. *)
Definition before (a b : CarrierID) : Prop :=
  flt (Score p b) (Score p a) = true
  ∨ feq (Score p a) (Score p b) = true
    ∧ (a = incumbent p ∧ b ≠ incumbent p
       ∨ (a = incumbent p ↔ b = incumbent p) ∧ strltb a b = true).

Lemma feq_sym x y : is_nan x = false → is_nan y = false → feq x y = true → feq y x = true.
Proof. intros Hx Hy. rewrite !feq_key by done. done. Qed.

Lemma rankedLess_spec a b :
  scored p a → scored p b → a ≠ b → rankedLess p a b = true ↔ before a b.
Proof.
  intros Ha Hb Hab. unfold rankedLess, before. destruct (feq (Score p a) (Score p b)) eqn:Hf; cbn [negb].
  - pose proof (feq_not_flt _ _ (feq_sym _ _ Ha Hb Hf)) as Hlt. rewrite Hlt.
    destruct (streqb a (incumbent p)) eqn:H1.
    + apply streqb_true in H1. split; [|done]. intros _. right. split; [done|]. left. split; congruence.
    + apply streqb_false in H1. destruct (streqb b (incumbent p)) eqn:H2.
      * apply streqb_true in H2. split; [done|]. intros [?|[_ [[? _]|[Hi _]]]]; try done. tauto.
      * apply streqb_false in H2. split; [intros ?; right; split; [done|]; right; tauto|].
        intros [?|[_ [[? _]|[_ ?]]]]; done.
  - split; [auto|]. intros [?|[? _]]; done.
Qed.

Lemma before_irrefl a : scored p a → ¬ before a a.
Proof.
  intros Ha [H|[_ [[? ?]|[_ H]]]]; [by rewrite flt_irrefl in H|done|by rewrite strltb_irrefl in H].
Qed.

Lemma before_trans a b c : scored p a → scored p b → scored p c → before a b → before b c → before a c.
Proof.
  unfold scored, before. intros Ha Hb Hc. rewrite !flt_key, !feq_key by done.
  intros [H1|[H1 H1']] [H2|[H2 H2']].
  - left. by eapply klt_trans.
  - left. by rewrite <- H2.
  - left. by rewrite H1.
  - right. split; [congruence|].
    destruct H1' as [[? ?]|[[? ?] ?]], H2' as [[? ?]|[[? ?] ?]]; try tauto.
    right. split; [tauto|]. by eapply strltb_trans.
Qed.

Lemma before_total a b : scored p a → scored p b → before a b ∨ a = b ∨ before b a.
Proof.
  unfold scored, before. intros Ha Hb. rewrite !flt_key, !feq_key by done.
  destruct (klt_total (fkey (Score p a)) (fkey (Score p b))) as [|[He|]]; auto.
  destruct (decide (a = incumbent p)), (decide (b = incumbent p)).
  - right. left. congruence.
  - left. right. auto.
  - right. right. right. auto.
  - destruct (strltb a b) eqn:H1; [left; right; split; [done|]; right; tauto|].
    destruct (strltb b a) eqn:H2; [right; right; right; split; [done|]; right; tauto|].
    right. left. by apply strltb_total.
Qed.

Lemma rank_sorted l :
  Forall (scored p) l → StronglySorted (λ a b, ¬ before b a) (isort (rankedLess p) l).
Proof.
  apply (isort_sorted _ (scored p)).
  - intros a b c Ha Hb Hc Hba Hcb Hca. destruct (before_total a b Ha Hb) as [Hab|[->|]]; [|done..].
    apply Hcb. by eapply (before_trans c a b).
  - intros a b Ha Hb H H'. destruct (decide (a = b)) as [->|Hab]; [by eapply before_irrefl|].
    apply rankedLess_spec in H; [|done..]. by apply (before_irrefl a Ha), (before_trans a b a).
  - intros a b Ha Hb H H'. destruct (decide (a = b)) as [->|Hab]; [by eapply before_irrefl|].
    apply rankedLess_spec in H'; [|done..]. congruence.
Qed.
End ranking.

(** ** The top carriers *)
Section top.
Variable p : Policy.

Lemma length_topK l : Z.of_nat (length (topK p l)) = Z.max 0 (Z.min (TopK (cfg p)) (Z.of_nat (length l))).
Proof. unfold topK. rewrite length_take, length_isort. lia. Qed.

Lemma topK_subset l id : id ∈ topK p l → id ∈ l.
Proof.
  intros H. rewrite <- (isort_perm (rankedLess p) l). unfold topK in H.
  rewrite <- (take_drop (Z.to_nat (Z.min (TopK (cfg p)) (Z.of_nat (length l)))) (isort (rankedLess p) l)).
  set_solver.
Qed.

(** No carrier left out scores higher than one that is in. *)
Lemma topK_best l x y :
  Forall (scored p) l → NoDup l → x ∈ topK p l → y ∈ l → y ∉ topK p l → ¬ before p y x.
Proof.
  intros Hs Hnd Hx Hy Hny. pose proof (rank_sorted p l Hs) as Hsort. unfold topK in *.
  set (k := Z.to_nat _) in *. rewrite <- (take_drop k (isort (rankedLess p) l)) in Hsort.
  apply StronglySorted_app in Hsort as (Hc & _ & _). apply Hc; [done|].
  rewrite <- (isort_perm (rankedLess p) l), <- (take_drop k (isort (rankedLess p) l)) in Hy.
  set_solver.
Qed.
End top.

(** ** What a pick returns *)
Section pick.
Variable p : Policy.

Lemma primaryOf_in l : l ≠ [] → primaryOf p l ∈ l.
Proof.
  intros Hl. destruct l as [|x l]; [done|]. cbn [primaryOf].
  destruct (List.find _ _) as [id|] eqn:Hf; [|by left].
  apply find_some in Hf as [_ Hf]. by apply isEligibleSet_spec in Hf.
Qed.

Lemma maxSlot_bound slots i mv mi :
  (maxSlot i mv mi slots = mi ∨ i ≤ maxSlot i mv mi slots < i + length slots)%nat.
Proof.
  revert i mv mi. induction slots as [|s slots IH]; intros i mv mi; cbn; [by left|].
  case_match; [destruct (IH (S i) (virt s) i) as [->|]|destruct (IH (S i) mv mi) as [->|]]; try lia.
Qed.

Lemma smoothWRR_in top : top ≠ [] → (smoothWRR top p).1 ∈ top.
Proof.
  intros Hne. unfold smoothWRR. case_match; [by apply primaryOf_in|].
  set (m := maxSlot 0 (-1) 0 _). destruct (map charge (map (slotOf p) top) !! m) as [s|] eqn:Hs.
  - cbn. rewrite list_lookup_fmap in Hs. change (map (slotOf p) top) with (slotOf p <$> top) in Hs.
    rewrite list_lookup_fmap in Hs. destruct (top !! m) as [id|] eqn:Hid; [|done].
    cbn in Hs. injection Hs as <-. cbn. by eapply list_elem_of_lookup_2.
  - exfalso. apply lookup_ge_None in Hs. rewrite !length_map in Hs.
    destruct (maxSlot_bound (map charge (map (slotOf p) top)) 0 (-1) 0) as [Hm|Hm];
      fold m in Hm; rewrite ?length_map in Hm; destruct top; simpl in *; done || lia.
Qed.

(** Without a score of its own every carrier is placed by [scored]. *)
Definition all_scored : Prop := ∀ id, id ∈ ids p → scored p id.
End pick.

(** A pick never invents a carrier.  In adaptive mode it is empty exactly when no
    carrier is eligible, and otherwise one of the [TopK] best eligible carriers:
    an eligible carrier left out is not ranked before it.  In static mode it is
    the first eligible Active carrier in the configured order, else the first
    Active one, else empty, and the policy's state does not change. *)
Theorem pick_sound now p :
  policy_ok p → [] ∉ ids p → all_scored p → 1 ≤ TopK (cfg p) →
  let r := PickForNewStream now p in
  (Mode (cfg p) = PolicyAdaptive →
     (r.1 = [] ↔ eligibleActiveLocked now p = [])
     ∧ (r.1 ≠ [] →
        r.1 ∈ topK p (eligibleActiveLocked now p) ∧ isEligible now p r.1 = true
        ∧ ∀ y, y ∈ eligibleActiveLocked now p → y ∉ topK p (eligibleActiveLocked now p) → ¬ before p y r.1))
  ∧ (Mode (cfg p) ≠ PolicyAdaptive →
     r.2 = p
     ∧ r.1 = match eligibleActiveLocked now p with
             | id :: _ => id
             | [] => default [] (head (activeLocked p))
             end).
Proof.
  intros [Hnd Hdom] Hnil Hsc Hk r. unfold r, PickForNewStream. split; intros Hm.
  - rewrite (proj2 (streqb_true _ _) Hm). cbn [negb].
    assert (HE : ∀ x, x ∈ eligibleActiveLocked now p → x ∈ ids p ∧ isEligible now p x = true)
      by (intros x; apply eligible_spec).
    destruct (eligibleActiveLocked now p) as [|e es] eqn:He; [done|]. rewrite <- He in *.
    assert (Htop : topK p (eligibleActiveLocked now p) ≠ []).
    { intros Hz. pose proof (length_topK p (eligibleActiveLocked now p)) as Hl. rewrite Hz, He in Hl. simpl in Hl. lia. }
    pose proof (smoothWRR_in p _ Htop) as Hin. set (x := (smoothWRR _ p).1) in *.
    destruct (HE x (topK_subset _ _ _ Hin)) as [Hx1 Hx2].
    split.
    + split; [intros Hz; rewrite Hz in Hx1; done|]. rewrite He. done.
    + intros _. split_and!; [done|done|]. intros y Hy Hny.
      apply (topK_best p (eligibleActiveLocked now p)); try done.
      * apply Forall_forall. intros z Hz. apply Hsc. by apply HE.
      * unfold eligibleActiveLocked. apply NoDup_ListNoDup, List.NoDup_filter. by apply NoDup_ListNoDup.
  - rewrite (proj2 (streqb_false _ _) Hm). cbn [negb]. split; [done|]. cbn [fst].
    destruct (eligibleActiveLocked now p); [|done]. by destruct (activeLocked p).
Qed.

Lemma pick_sound_witness :
  let p := run nopow id duel_policy duel in
  let r := PickForNewStream (85 * second) p in
  r.1 = lit "b" ∧ (r.1 = [] ↔ eligibleActiveLocked (85 * second) p = [])
  ∧ r.1 ∈ topK p (eligibleActiveLocked (85 * second) p).
Proof.
  set (p := run nopow id duel_policy duel). cbv zeta.
  split; [vm_compute; reflexivity|].
  destruct (pick_sound (85 * second) p) as [H _].
  - apply run_ok, (NewPolicy_ok (PolicyConfigDefaults <| Mode := PolicyAdaptive |>) [lit "a"; lit "b"]);
      [exact demo_nodup|reflexivity].
  - apply (bool_decide_unpack _). vm_compute. exact I.
  - unfold all_scored. rewrite <- Forall_forall. vm_compute. repeat constructor.
  - vm_compute. congruence.
  - destruct (H eq_refl) as [H1 H2]. split; [exact H1|]. apply H2. vm_compute. congruence.
Defined.

(** ** The weighted round-robin never rotates

    The classic algorithm subtracts the total weight from the winner.  This
    one subtracts the winner's value from everybody else, which leaves the
    winner ahead for good. *)
Section wrr.
(** The first slot of the largest value. *)
Lemma maxSlot_spec slots i mv mi :
  let r := maxSlot i mv mi slots in
  (r = mi ∧ ∀ s, s ∈ slots → virt s ≤ mv)
  ∨ ∃ j s, r = (i + j)%nat ∧ slots !! j = Some s ∧ mv < virt s
      ∧ (∀ k s', slots !! k = Some s' → virt s' ≤ virt s)
      ∧ (∀ k s', (k < j)%nat → slots !! k = Some s' → virt s' < virt s).
Proof.
  revert i mv mi. induction slots as [|x slots IH]; intros i mv mi; cbn [maxSlot].
  { left. split; [done|]. intros s Hs. by apply elem_of_nil in Hs. }
  rewrite Z.gtb_ltb. destruct (Z.ltb_spec mv (virt x)) as [Hlt|Hge].
  - destruct (IH (S i) (virt x) i) as [[-> Hall]|(j & s & -> & Hj & Hgt & Hle & Hst)].
    + right. exists 0%nat, x. split_and!; [lia|done|done| |intros; lia].
      intros [|k] s' Hk; simpl in Hk; [simplify_eq; lia|].
      apply Hall. by eapply list_elem_of_lookup_2.
    + right. exists (S j), s. split_and!; [lia|done|lia| |].
      * intros [|k] s' Hk; simpl in Hk; [simplify_eq; lia|by eapply Hle].
      * intros [|k] s' Hk Hl; simpl in Hl; [simplify_eq; lia|]. eapply Hst; [|done]. lia.
  - destruct (IH (S i) mv mi) as [[-> Hall]|(j & s & -> & Hj & Hgt & Hle & Hst)].
    + left. split; [done|]. intros s [->|Hs]%elem_of_cons; [done|by apply Hall].
    + right. exists (S j), s. split_and!; [lia|done|lia| |].
      * intros [|k] s' Hk; simpl in Hk; [simplify_eq; lia|by eapply Hle].
      * intros [|k] s' Hk Hl; simpl in Hl; [simplify_eq; lia|]. eapply Hst; [|done]. lia.
Qed.

(** The slot that is strictly largest, or the first of the largest, wins. *)
Lemma maxSlot_wins slots j s :
  slots !! j = Some s → 0 ≤ virt s →
  (∀ k s', slots !! k = Some s' → virt s' ≤ virt s) →
  (∀ k s', (k < j)%nat → slots !! k = Some s' → virt s' < virt s) →
  maxSlot 0 (-1) 0 slots = j.
Proof.
  intros Hj H0 Hle Hst.
  destruct (maxSlot_spec slots 0 (-1) 0) as [[-> Hall]|(i & t & -> & Hi & Hgt & Hle' & Hst')].
  { assert (virt s ≤ -1); [|lia]. apply Hall. by eapply list_elem_of_lookup_2. }
  simpl. destruct (Nat.lt_trichotomy i j) as [Hlt|[|Hlt]]; [|done|].
  - specialize (Hst i t Hlt Hi). specialize (Hle' j s Hj). lia.
  - specialize (Hst' j s Hlt Hj). specialize (Hle i t Hi). lia.
Qed.

Lemma fold_wrr_lookup (slots : list slot) (w : gmap CarrierID Z) i s :
  NoDup (s_id <$> slots) → slots !! i = Some s →
  foldl (λ m s, <[s_id s := virt s]> m) w slots !! s_id s = Some (virt s).
Proof.
  revert w i. induction slots as [|x slots IH]; intros w i Hnd Hi; [done|].
  cbn in Hnd. apply NoDup_cons in Hnd as [Hx Hnd]. destruct i as [|i]; simpl in Hi.
  - injection Hi as ->. cbn [foldl]. clear IH.
    assert (∀ w' : gmap CarrierID Z, w' !! s_id s = Some (virt s) →
              foldl (λ m s, <[s_id s := virt s]> m) w' slots !! s_id s = Some (virt s)) as H.
    { clear Hnd. induction slots as [|y slots IH]; intros w' Hw'; [done|]. cbn [foldl]. apply IH.
      - set_solver.
      - rewrite lookup_insert_ne; [done|]. set_solver. }
    apply H. by rewrite lookup_insert_eq.
  - cbn [foldl]. by eapply IH.
Qed.

Section rotation.
Context (p : Policy) (top : list CarrierID) (j : nat) (m : CarrierID).
Abbreviation wt id := (wrrWeight (Score p id)).
Hypothesis Hnd : NoDup top.
Hypothesis Hm : top !! j = Some m.
Hypothesis Hpos : 0 < wt m.
Hypothesis Hmax : ∀ id, id ∈ top → wt id ≤ wt m ≤ 100.
Hypothesis Hfirst : ∀ k id, (k < j)%nat → top !! k = Some id → wt id < wt m.

Definition triangle (n : Z) : Z := n * (n + 1) / 2.

Lemma triangle_succ n : triangle (n + 1) = triangle n + (n + 1).
Proof.
  unfold triangle. replace ((n + 1) * (n + 1 + 1)) with (n * (n + 1) + (n + 1) * 2) by lia.
  by rewrite Z.div_add by lia.
Qed.

Lemma triangle_bounds n : 0 ≤ n < 2 ^ 27 → 0 ≤ triangle n ≤ 2 ^ 54 ∧ (1 ≤ n → 1 ≤ triangle n).
Proof.
  intros Hn. unfold triangle. split; [split|intros].
  - apply Z.div_pos; nia.
  - apply Z.div_le_upper_bound; nia.
  - apply Z.div_le_lower_bound; nia.
Qed.

(** The counters after [n] picks of [m]. *)
Definition counter (n : Z) (id : CarrierID) : Z :=
  if bool_decide (id = m) then n * wt m else n * wt id - wt m * triangle n.

Definition wrr_after (n : Z) (w : gmap CarrierID Z) : Prop :=
  ∀ id, id ∈ top → default 0 (w !! id) = counter n id.

Lemma wt_nonneg id : 0 ≤ wt id.
Proof. unfold wrrWeight. case_match; [done|]. bools. lia. Qed.

Lemma counter_range n id : 0 ≤ n < 2 ^ 27 → id ∈ top → in_s 64 (counter n id + wt id).
Proof.
  intros Hn Hid. unfold in_s, counter. pose proof (Hmax id Hid). pose proof (wt_nonneg id).
  destruct (triangle_bounds n Hn) as [? _]. case_bool_decide; nia.
Qed.

(** [m] is ahead once the weights are added. *)
Lemma counter_order n id k :
  0 ≤ n < 2 ^ 27 → top !! k = Some id →
  counter n id + wt id ≤ counter n m + wt m
  ∧ ((k < j)%nat → counter n id + wt id < counter n m + wt m).
Proof.
  intros Hn Hk. assert (Hid : id ∈ top) by by eapply list_elem_of_lookup_2.
  pose proof (Hmax id Hid). pose proof (wt_nonneg id).
  destruct (triangle_bounds n Hn) as [? Htr].
  unfold counter. rewrite (bool_decide_eq_true_2 (m = m)) by done.
  case_bool_decide as Him.
  { subst id. split; [lia|]. intros Hlt. exfalso.
    assert (k = j) by by eapply NoDup_lookup. lia. }
  destruct (Z.eq_dec n 0) as [->|].
  - split; [change (triangle 0) with 0; nia|]. intros Hlt.
    pose proof (Hfirst k id Hlt Hk). change (triangle 0) with 0. nia.
  - specialize (Htr ltac:(lia)). split; [nia|intros _; nia].
Qed.

Lemma counter_winner n : counter n m + wt m = counter (n + 1) m.
Proof. unfold counter. rewrite bool_decide_eq_true_2 by done. ring. Qed.

Lemma counter_other n id :
  0 ≤ n < 2 ^ 27 → id ∈ top → id ≠ m →
  wraps 64 (counter n id + wt id - (counter n m + wt m)) = counter (n + 1) id.
Proof.
  intros Hn Hid Hne. pose proof (Hmax id Hid). pose proof (wt_nonneg id).
  destruct (triangle_bounds n Hn) as [? _]. unfold counter.
  rewrite (bool_decide_eq_false_2 (id = m)), (bool_decide_eq_true_2 (m = m)) by done.
  rewrite triangle_succ, wraps_id; [ring|done|]. unfold in_s. nia.
Qed.

Lemma wrr_step n w :
  0 ≤ n < 2 ^ 27 → wrr_after n w →
  ∃ w', smoothWRR top (p <| wrr := w |>) = (m, p <| wrr := w' |>) ∧ wrr_after (n + 1) w'.
Proof.
  intros Hn Hw. unfold smoothWRR. set (pw := p <| wrr := w |>).
  assert (Hslot : ∀ k id, top !! k = Some id →
            map charge (map (slotOf pw) top) !! k = Some (mkSlot id (wt id) (counter n id + wt id))).
  { intros k id Hk. change (map (slotOf pw) top) with (slotOf pw <$> top).
    change (map charge ?x) with (charge <$> x). rewrite !list_lookup_fmap, Hk. cbn. unfold charge, slotOf. cbn.
    assert (Hid : id ∈ top) by by eapply list_elem_of_lookup_2.
    rewrite (Hw id Hid), wraps_id; [done|done|by apply counter_range]. }
  assert (Hslot' : ∀ k s, map charge (map (slotOf pw) top) !! k = Some s →
            ∃ id, top !! k = Some id ∧ s = mkSlot id (wt id) (counter n id + wt id)).
  { intros k s Hk. destruct (top !! k) as [id|] eqn:Hid.
    - exists id. rewrite (Hslot k id Hid) in Hk. by injection Hk.
    - apply lookup_ge_None in Hid. rewrite lookup_ge_None_2 in Hk; [done|]. by rewrite !length_map. }
  destruct (Z.eqb_spec (zsum weight (map (slotOf pw) top)) 0) as [Hz|_].
  { exfalso. assert (wt m ≤ zsum weight (map (slotOf pw) top)); [|lia].
    assert (Hsum : ∀ l, zsum weight (map (slotOf pw) l) = zsum (λ id, wt id) l).
    { intros l. induction l as [|x l IH]; [done|]. unfold zsum in *. cbn [map foldr]. by rewrite IH. }
    rewrite Hsum. apply (zsum_le_elem (λ id, wt id)); [apply wt_nonneg|by eapply list_elem_of_lookup_2]. }
  set (slots := map charge (map (slotOf pw) top)) in *.
  assert (Hwin : maxSlot 0 (-1) 0 slots = j).
  { apply (maxSlot_wins slots j _ (Hslot j m Hm)); cbn.
    - unfold counter. rewrite bool_decide_eq_true_2 by done. nia.
    - intros k s Hk. destruct (Hslot' k s Hk) as (id & Hid & ->). cbn. by apply (counter_order n id k).
    - intros k s Hlt Hk. destruct (Hslot' k s Hk) as (id & Hid & ->). cbn. by apply (counter_order n id k). }
  rewrite Hwin, (Hslot j m Hm). cbn [s_id virt].
  set (v := counter n m + wt m). set (after := imap (discharge j v) slots).
  eexists. split; [reflexivity|]. intros id Hid.
  apply list_elem_of_lookup in Hid as [k Hk].
  assert (Hak : after !! k = Some (discharge j v k (mkSlot id (wt id) (counter n id + wt id)))).
  { unfold after. rewrite list_lookup_imap, (Hslot k id Hk). done. }
  assert (Hids : s_id <$> after = top).
  { apply list_eq. intros i. rewrite list_lookup_fmap. unfold after. rewrite list_lookup_imap.
    destruct (top !! i) as [x|] eqn:Hx.
    - rewrite (Hslot i x Hx). cbn. unfold discharge. by case_match.
    - destruct (slots !! i) as [s|] eqn:Hs; [|done].
      destruct (Hslot' i s Hs) as (y & Hy & _). congruence. }
  pose proof (fold_wrr_lookup after w k _ ltac:(by rewrite Hids) Hak) as Hf.
  assert (Hidk : s_id (discharge j v k (mkSlot id (wt id) (counter n id + wt id))) = id)
    by (unfold discharge; by case_match).
  rewrite Hidk in Hf. change (wrr pw) with w. rewrite Hf. cbn [default]. unfold discharge, v.
  destruct (Nat.eqb_spec k j) as [->|Hkj].
  - assert (id = m) as -> by congruence. apply counter_winner.
  - apply counter_other; [done|by eapply list_elem_of_lookup_2|].
    intros ->. apply Hkj. by eapply NoDup_lookup.
Qed.

Lemma wrr_fresh w : (∀ id, id ∈ top → w !! id = None) → wrr_after 0 w.
Proof.
  intros Hw id Hid. rewrite Hw by done. unfold counter. change (triangle 0) with 0. case_bool_decide; cbn; lia.
Qed.
End rotation.
End wrr.

(** The first carrier of the largest weight. *)
Lemma first_max (f : CarrierID → Z) l :
  l ≠ [] → (∀ id, id ∈ l → 0 ≤ f id) →
  ∃ j m, l !! j = Some m ∧ (∀ id, id ∈ l → f id ≤ f m) ∧ ∀ k id, (k < j)%nat → l !! k = Some id → f id < f m.
Proof.
  intros Hl Hf.
  destruct (maxSlot_spec (map (λ id, mkSlot id 0 (f id)) l) 0 (-1) 0) as [[_ Hall]|(j & s & _ & Hj & _ & Hle & Hst)].
  - destruct l as [|x l]; [done|]. exfalso.
    assert (f x ≤ -1) by (apply (Hall (mkSlot x 0 (f x))); left). specialize (Hf x ltac:(left)). lia.
  - change (map ?g l) with (g <$> l) in *. rewrite list_lookup_fmap in Hj.
    destruct (l !! j) as [m|] eqn:Hm; [|done]. injection Hj as <-. cbn in *.
    exists j, m. split_and!; [done| |].
    + intros id [k Hk]%list_elem_of_lookup. apply (Hle k (mkSlot id 0 (f id))).
      by rewrite list_lookup_fmap, Hk.
    + intros k id Hlt Hk. apply (Hst k (mkSlot id 0 (f id)) Hlt). by rewrite list_lookup_fmap, Hk.
Qed.

(** Successive picks with nothing recorded in between. *)
Fixpoint picks (now : Time) (n : nat) (p : Policy) : list CarrierID :=
  match n with
  | O => []
  | S n => let r := PickForNewStream now p in r.1 :: picks now n r.2
  end.

Lemma picks_repeat now p j m n k w :
  Mode (cfg p) = PolicyAdaptive → eligibleActiveLocked now p ≠ [] →
  let top := topK p (eligibleActiveLocked now p) in
  NoDup top → top !! j = Some m → 0 < wrrWeight (Score p m) →
  (∀ id, id ∈ top → wrrWeight (Score p id) ≤ wrrWeight (Score p m) ≤ 100) →
  (∀ k id, (k < j)%nat → top !! k = Some id → wrrWeight (Score p id) < wrrWeight (Score p m)) →
  0 ≤ n → n + Z.of_nat k ≤ 2 ^ 27 → wrr_after p top m n w →
  picks now k (p <| wrr := w |>) = replicate k m.
Proof.
  intros Hmode Hne top Hnd Hm Hpos Hmax Hfirst. revert n w.
  induction k as [|k IH]; intros n w Hn Hk Hw; [done|]. cbn [picks replicate].
  destruct (wrr_step p top j m Hnd Hm Hpos Hmax Hfirst n w) as (w' & Hstep & Hw'); [lia|done|].
  assert (Hpick : PickForNewStream now (p <| wrr := w |>) = smoothWRR top (p <| wrr := w |>)).
  { unfold PickForNewStream. change (cfg (p <| wrr := w |>)) with (cfg p).
    rewrite (proj2 (streqb_true _ _) Hmode). cbn [negb].
    change (eligibleActiveLocked now (p <| wrr := w |>)) with (eligibleActiveLocked now p).
    change (topK (p <| wrr := w |>)) with (topK p).
    subst top. by destruct (eligibleActiveLocked now p). }
  rewrite Hpick, Hstep. cbn [fst snd]. f_equal. apply (IH (n + 1)); [lia|lia|done].
Qed.

(** The weighted round-robin of the adaptive mode does not rotate: from fresh
    counters, with scores unchanged, every pick returns the same carrier, the
    first of the top carriers with the largest weight; the others are never
    picked, whatever their weights. *)
Theorem wrr_never_rotates now p k :
  policy_ok p → Mode (cfg p) = PolicyAdaptive → wrr p = ∅ → Z.of_nat k ≤ 2 ^ 27 →
  let top := topK p (eligibleActiveLocked now p) in
  (∀ id, id ∈ top → wrrWeight (Score p id) ≤ 100) → (∃ id, id ∈ top ∧ 0 < wrrWeight (Score p id)) →
  ∃ m, m ∈ top ∧ (∀ id, id ∈ top → wrrWeight (Score p id) ≤ wrrWeight (Score p m))
       ∧ picks now k p = replicate k m.
Proof.
  intros [Hnd Hdom] Hmode Hw Hk top H100 (x & Hx & Hxpos).
  destruct (first_max (λ id, wrrWeight (Score p id)) top) as (j & m & Hm & Hle & Hfirst).
  { intros Hz. rewrite Hz in Hx. by apply elem_of_nil in Hx. }
  { intros id _. apply wt_nonneg. }
  assert (Hin : m ∈ top) by by eapply list_elem_of_lookup_2.
  exists m. split_and!; [done|done|].
  assert (Hne : eligibleActiveLocked now p ≠ []).
  { intros Hz. subst top. rewrite Hz in Hx. apply topK_subset in Hx. by apply elem_of_nil in Hx. }
  assert (Hntop : NoDup top).
  { assert (Hs : NoDup (isort (rankedLess p) (eligibleActiveLocked now p))).
    { rewrite (isort_perm (rankedLess p)).
      unfold eligibleActiveLocked. apply NoDup_ListNoDup, List.NoDup_filter. by apply NoDup_ListNoDup. }
    unfold top, topK. set (i := Z.to_nat _).
    rewrite <- (take_drop i (isort (rankedLess p) (eligibleActiveLocked now p))) in Hs.
    by apply NoDup_app in Hs as [? _]. }
  assert (Hp : p = p <| wrr := wrr p |>) by by destruct p. rewrite Hp at 1.
  apply (picks_repeat now p j m 0 k (wrr p)); try done.
  - specialize (Hle x Hx). lia.
  - intros id Hid. split; [by apply Hle|by apply H100].
  - apply wrr_fresh. intros id _. by rewrite Hw, lookup_empty.
Qed.

(** Two carriers of nearly the same score: the second never gets a stream. *)
Lemma wrr_never_rotates_witness :
  let p := run nopow id duel_policy duel in
  picks (85 * second) 12 p = replicate 12 (lit "b")
  ∧ ∃ m, m ∈ topK p (eligibleActiveLocked (85 * second) p)
    ∧ (∀ id, id ∈ topK p (eligibleActiveLocked (85 * second) p) → wrrWeight (Score p id) ≤ wrrWeight (Score p m))
    ∧ picks (85 * second) 12 p = replicate 12 m.
Proof.
  set (p := run nopow id duel_policy duel). cbv zeta. split; [vm_compute; reflexivity|].
  apply (wrr_never_rotates (85 * second) p 12).
  - apply run_ok, (NewPolicy_ok (PolicyConfigDefaults <| Mode := PolicyAdaptive |>) [lit "a"; lit "b"]);
      [exact demo_nodup|reflexivity].
  - reflexivity.
  - vm_compute. reflexivity.
  - vm_compute. congruence.
  - rewrite <- Forall_forall. apply (bool_decide_unpack _). vm_compute. exact I.
  - exists (lit "a"). split; [|vm_compute; reflexivity]. apply isEligibleSet_spec. vm_compute. reflexivity.
Defined.

(** ** The connect time has weight 0

    Policies are equivalent when they differ in recorded connect times only.
    Every operation respects the equivalence, and recording a connect time does
    nothing up to it. *)
Definition forget (h : CarrierHealth) : CarrierHealth := h <| ConnectRTTLast := 0 |>.
Definition forgetP (p : Policy) : Policy := p <| health := forget <$> health p |>.

#[export] Instance policy_equiv : Equiv Policy := λ p q, forgetP p = forgetP q.

#[export] Instance policy_equivalence : Equivalence (≡@{Policy}).
Proof. split; unfold equiv, policy_equiv; [intros p|intros p q|intros p q r]; congruence. Qed.

Lemma forget_idemp h : forget (forget h) = forget h.
Proof. done. Qed.

Lemma forgetP_idemp p : forgetP (forgetP p) = forgetP p.
Proof.
  unfold forgetP. cbn. f_equal. apply map_eq. intros i. rewrite !lookup_fmap.
  by destruct (health p !! i).
Qed.

Lemma onHealth_forget id f p :
  (∀ h, forget (f h) = f (forget h)) → forgetP (onHealth id f p) = onHealth id f (forgetP p).
Proof.
  intros Hf. unfold onHealth, forgetP. cbn. rewrite lookup_fmap.
  destruct (health p !! id) as [h|]; [|done]. cbn. by rewrite fmap_insert, Hf.
Qed.

Lemma excludeLocked_forget c h now r : forget (excludeLocked c h now r) = excludeLocked c (forget h) now r.
Proof.
  unfold excludeLocked. change (State (forget h)) with (State h). by destruct (bool_decide _).
Qed.

Lemma advanceLifecycle_forget c h comp now :
  forget (advanceLifecycle c h comp now) = advanceLifecycle c (forget h) comp now.
Proof.
  unfold advanceLifecycle. change (State (forget h)) with (State h).
  change (ConsecProbeFails (forget h)) with (ConsecProbeFails h).
  change (CandidatePasses (forget h)) with (CandidatePasses h).
  change (HalfOpenPasses (forget h)) with (HalfOpenPasses h).
  change (LastScore (forget h)) with (LastScore h).
  change (ActiveSince (forget h)) with (ActiveSince h).
  change (CooldownUntil (forget h)) with (CooldownUntil h).
  change (stalledNow c (forget h) now) with (stalledNow c h now).
  change (flapCountLocked c (forget h) now) with (flapCountLocked c h now).
  change (authFailCountLocked c (forget h) now) with (authFailCountLocked c h now).
  destruct (State h);
    repeat match goal with
    | |- context [if ?b then _ else _] => destruct b; try (apply excludeLocked_forget); try reflexivity
    end.
Qed.

Lemma scoreLocked_forget c now h : scoreLocked c (forget h) now = scoreLocked c h now.
Proof.
  unfold scoreLocked, goodputTerm, successTerm, stallTerm, ttfbTerm, resetTerm, hardGate, stalledNow,
    stallRatePer100MiB, resetCountLocked, flapCountLocked, authFailCountLocked, goodputP10Locked,
    ttfbP50Locked, successRatio, attempts.
  by destruct h.
Qed.

Lemma evalCarrier_forget c now h : forget (evalCarrier c now h) = evalCarrier c now (forget h).
Proof.
  unfold evalCarrier. rewrite scoreLocked_forget. generalize (scoreLocked c h now) as comp.
  intros comp. cbv zeta. by rewrite advanceLifecycle_forget.
Qed.

Lemma rollProbeDay_forget midnight now h :
  forget (rollProbeDay midnight now h) = rollProbeDay midnight now (forget h).
Proof. unfold rollProbeDay. cbn. by repeat case_match. Qed.

Lemma recordProbe_forget pow midnight c ok gp bytes now full h :
  forget (recordProbe pow midnight c ok gp bytes now full h) = recordProbe pow midnight c ok gp bytes now full (forget h).
Proof.
  unfold recordProbe.
  assert (∀ g, forget (if ok then probePassed pow gp now full g else probeFailed now full g)
               = if ok then probePassed pow gp now full (forget g) else probeFailed now full (forget g)) as Hg.
  { intros g. unfold probePassed, probeFailed. destruct ok, full; cbn; try destruct (State g); done. }
  rewrite Hg. destruct ((0 <? bytes) && ProbingEnabled c); [|done].
  rewrite <- rollProbeDay_forget. done.
Qed.

Lemma recordStreamOutcome_forget c ok ttfb h :
  forget (recordStreamOutcome c ok ttfb h) = recordStreamOutcome c ok ttfb (forget h).
Proof.
  unfold recordStreamOutcome.
  change (pushTTFB ttfb (pushSuccess ok (forget h))) with (forget (pushTTFB ttfb (pushSuccess ok h))).
  generalize (pushTTFB ttfb (pushSuccess ok h)) as g. intros g. destruct (ok && _); [|done].
  change (State (forget g)) with (State g). by destruct (State g).
Qed.

Lemma Score_forget p id : Score (forgetP p) id = Score p id.
Proof. unfold Score, forgetP. cbn. rewrite lookup_fmap. by destruct (health p !! id). Qed.

Lemma isEligible_forget now p id : isEligible now (forgetP p) id = isEligible now p id.
Proof. unfold isEligible, forgetP. cbn. rewrite lookup_fmap. by destruct (health p !! id). Qed.

Lemma isActive_forget p id : isActive (forgetP p) id = isActive p id.
Proof. unfold isActive, forgetP. cbn. rewrite lookup_fmap. by destruct (health p !! id). Qed.

Lemma eligible_forget now p : eligibleActiveLocked now (forgetP p) = eligibleActiveLocked now p.
Proof.
  unfold eligibleActiveLocked. change (ids (forgetP p)) with (ids p).
  apply List.filter_ext. intros id. apply isEligible_forget.
Qed.

Lemma active_forget p : activeLocked (forgetP p) = activeLocked p.
Proof.
  unfold activeLocked. change (ids (forgetP p)) with (ids p).
  apply List.filter_ext. intros id. apply isActive_forget.
Qed.

Lemma best_forget p l : bestEligibleLocked (forgetP p) l = bestEligibleLocked p l.
Proof.
  unfold bestEligibleLocked. f_equal. generalize (@nil byte, of_Z (-1)) as b.
  induction l as [|x l IH]; intros b; [done|]. cbn [foldl]. unfold betterThan. rewrite Score_forget. apply IH.
Qed.

Lemma hysteresis_forget now p : forgetP (hysteresis now p) = hysteresis now (forgetP p).
Proof.
  unfold hysteresis. rewrite eligible_forget, best_forget.
  destruct (eligibleActiveLocked now p) as [|e es] eqn:HE; [done|]. rewrite <- HE.
  set (best := bestEligibleLocked p _). change (incumbent (forgetP p)) with (incumbent p).
  destruct (streqb (incumbent p) []); [done|].
  destruct (negb (isEligibleSet _ _)); [done|]. destruct (streqb best (incumbent p)); [done|].
  assert (Hc : countChallenger best (forgetP p) = forgetP (countChallenger best p)).
  { unfold countChallenger, beatsIncumbent. rewrite !Score_forget.
    change (incumbent (forgetP p)) with (incumbent p). change (cfg (forgetP p)) with (cfg p).
    change (challenger (forgetP p)) with (challenger p). by repeat case_match. }
  rewrite Hc. generalize (countChallenger best p) as g. intros g. cbv zeta.
  change (challenger (forgetP g)) with (challenger g). change (cfg (forgetP g)) with (cfg g).
  change (challengerTicks (forgetP g)) with (challengerTicks g).
  change (lastSwitchAt (forgetP g)) with (lastSwitchAt g).
  by destruct (_ && _ && _).
Qed.

Lemma evalAll_forget now p : forgetP (evalAll now p) = evalAll now (forgetP p).
Proof.
  unfold evalAll. change (ids (forgetP p)) with (ids p). generalize (ids p) as l. intros l. revert p.
  induction l as [|x l IH]; intros p; [done|]. cbn [foldl]. rewrite IH. f_equal.
  apply onHealth_forget. intros h. apply evalCarrier_forget.
Qed.

Lemma Evaluate_forget now p : forgetP (Evaluate now p) = Evaluate now (forgetP p).
Proof.
  unfold Evaluate. rewrite <- evalAll_forget.
  change (cfg ((forgetP (evalAll now p)) <| lastEval := now |>)) with (cfg (evalAll now p)).
  change (cfg ((evalAll now p) <| lastEval := now |>)) with (cfg (evalAll now p)).
  destruct (negb _); [done|]. by rewrite hysteresis_forget.
Qed.

Lemma primaryOf_forget p l : primaryOf (forgetP p) l = primaryOf p l.
Proof. done. Qed.

Lemma smoothWRR_forget top p :
  smoothWRR top (forgetP p) = ((smoothWRR top p).1, forgetP (smoothWRR top p).2).
Proof.
  unfold smoothWRR. rewrite primaryOf_forget.
  assert (Hs : map (slotOf (forgetP p)) top = map (slotOf p) top).
  { apply map_ext. intros id. unfold slotOf. by rewrite Score_forget. }
  rewrite Hs. destruct (_ =? 0); [done|]. destruct (map charge _ !! _); [|done]. done.
Qed.

Lemma topK_forget p l : topK (forgetP p) l = topK p l.
Proof.
  unfold topK. f_equal. unfold isort. f_equal. generalize (@nil CarrierID) as acc.
  assert (Hr : ∀ x acc, rinsert (rankedLess (forgetP p)) x acc = rinsert (rankedLess p) x acc).
  { intros x acc. induction acc as [|y acc IH]; [done|]. cbn [rinsert]. rewrite IH.
    unfold rankedLess. by rewrite !Score_forget. }
  induction l as [|x l IH]; intros acc; [done|]. cbn [foldl]. by rewrite Hr.
Qed.

Lemma Pick_forget now p :
  PickForNewStream now (forgetP p) = ((PickForNewStream now p).1, forgetP (PickForNewStream now p).2).
Proof.
  unfold PickForNewStream. rewrite eligible_forget, active_forget.
  change (cfg (forgetP p)) with (cfg p). destruct (negb _); [done|].
  destruct (eligibleActiveLocked now p) as [|e es]; [done|]. rewrite topK_forget. apply smoothWRR_forget.
Qed.

Section rtt.
Variable pow : float64 → float64 → float64.
Variable midnight : Time → Time.
Abbreviation step := (step pow midnight).
Abbreviation run := (run pow midnight).

Lemma canProbe_forget id bytes now p :
  forgetP (canProbe midnight id bytes now p).2 = (canProbe midnight id bytes now (forgetP p)).2.
Proof.
  unfold canProbe. change (cfg (forgetP p)) with (cfg p). unfold forgetP at 3. cbn.
  rewrite lookup_fmap. destruct (health p !! id) as [h|]; [|done]. cbn.
  destruct (ProbingEnabled (cfg p)); [|done]. destruct (0 <? _); [|done]. cbn.
  unfold forgetP. cbn. rewrite fmap_insert, rollProbeDay_forget. done.
Qed.

Lemma step_forget p o : forgetP (step p o) = forgetP (step (forgetP p) o).
Proof.
  destruct o; cbn [Policy.step];
    unfold RecordPassiveBytes, RecordPending, RecordStall, RecordStreamOutcome, RecordReset, RecordFlap,
      RecordAuthFail, RecordRebind, RecordConnectRTT, RecordProbe;
    try (case_match; [by rewrite forgetP_idemp|]);
    try (rewrite !onHealth_forget, forgetP_idemp; [done|done..]).
  - rewrite !onHealth_forget, forgetP_idemp; [done|intros; apply recordStreamOutcome_forget..].
  - (* the connect time itself *)
    unfold onHealth, forgetP. cbn. rewrite lookup_fmap. destruct (health p !! id) as [h|]; cbn;
      f_equal; apply map_eq; intros i; rewrite !lookup_fmap; [|by destruct (health p !! i)].
    destruct (decide (id = i)) as [<-|Hne]; [by rewrite !lookup_insert_eq|].
    rewrite !lookup_insert_ne, lookup_fmap by done. by destruct (health p !! i).
  - rewrite !onHealth_forget, forgetP_idemp; [done|intros; apply recordProbe_forget..].
  - rewrite !canProbe_forget, forgetP_idemp. done.
  - by rewrite !Evaluate_forget, forgetP_idemp.
  - rewrite Pick_forget. cbn [snd]. by rewrite forgetP_idemp.
Qed.

#[export] Instance step_proper : Proper ((≡) ==> (=) ==> (≡)) step.
Proof.
  intros p q Hpq o _ <-. unfold equiv, policy_equiv in *.
  rewrite (step_forget p), (step_forget q). by rewrite Hpq.
Qed.

#[export] Instance pick_proper now : Proper ((≡) ==> (=)) (λ p, (PickForNewStream now p).1).
Proof.
  intros p q Hpq. unfold equiv, policy_equiv in Hpq.
  pose proof (Pick_forget now p) as Hp. pose proof (Pick_forget now q) as Hq.
  rewrite Hpq in Hp. congruence.
Qed.

Definition is_rtt (o : op) : bool := match o with OConnectRTT _ _ => true | _ => false end.

Lemma rtt_step p id rtt : step p (OConnectRTT id rtt) ≡ p.
Proof.
  unfold equiv, policy_equiv. cbn. unfold RecordConnectRTT, onHealth, forgetP.
  destruct (health p !! id) as [h|] eqn:Hh; [|done]. cbn. f_equal. rewrite fmap_insert.
  apply insert_id. rewrite lookup_fmap, Hh. done.
Qed.

Lemma run_rtt p q os : p ≡ q → run p os ≡ run q (List.filter (λ o, negb (is_rtt o)) os).
Proof.
  revert p q. induction os as [|o os IH]; intros p q Hpq; [done|].
  rewrite run_cons. destruct (is_rtt o) eqn:Hr; cbn [List.filter]; rewrite Hr; cbn [negb].
  - apply IH. destruct o; try done. by rewrite rtt_step.
  - rewrite run_cons. apply IH. by rewrite Hpq.
Qed.
End rtt.

(** Recorded connect times never influence the policy: a history and the same
    history without its [RecordConnectRTT] calls end in policies that agree on
    everything but the recorded times, have the same primary carrier, the same
    lifecycle states and scores, and pick the same carrier for a new stream. *)
Theorem connect_rtt_has_no_weight pow midnight p os now id :
  let p1 := run pow midnight p os in
  let p2 := run pow midnight p (List.filter (λ o, negb (is_rtt o)) os) in
  p1 ≡ p2 ∧ (PickForNewStream now p1).1 = (PickForNewStream now p2).1
  ∧ incumbent p1 = incumbent p2 ∧ Score p1 id = Score p2 id ∧ StateOf id p1 = StateOf id p2.
Proof.
  intros p1 p2. assert (H : p1 ≡ p2) by by apply run_rtt. split_and!; [done| | | |].
  - apply (pick_proper now _ _ H).
  - exact (f_equal incumbent H).
  - rewrite <- (Score_forget p1), <- (Score_forget p2). by rewrite H.
  - assert (HS : ∀ p, StateOf id p = StateOf id (forgetP p)).
    { intros r. unfold StateOf, forgetP. cbn. rewrite lookup_fmap. by destruct (health r !! id). }
    rewrite (HS p1), (HS p2). by rewrite H.
Qed.
