(* ===== verification/PolicyProbe.v ===== *)
(** * Probes: the daily budget and the deadlock of the scheduler

    A probe that is launched only after [CanProbe] allowed it never takes a
    carrier over its daily byte budget.  [DueProbe], though, calls [CanProbe]
    with the mutex held and never returns while probing is enabled. *)
From S2P Require Export PolicyRun.
#[local] Open Scope Z_scope.

(** ** Launching under the budget *)
Inductive event :=
| Launch (id : CarrierID) (ok : bool) (goodput : float64) (bytes : Z) (now : Time) (full : bool)
| Other (o : op).

Definition is_probe (o : op) : bool := match o with OProbe _ _ _ _ _ _ => true | _ => false end.

(** The time at which an event reads or writes the budget. *)
Definition event_time (e : event) : option Time :=
  match e with
  | Launch _ _ _ _ now _ => Some now
  | Other (OCanProbe _ _ now) => Some now
  | Other _ => None
  end.

Definition event_ok (e : event) : Prop :=
  match e with
  | Launch _ _ _ bytes _ _ => 0 < bytes < 2 ^ 62
  | Other o => is_probe o = false
  end.

Section budget.
Variable pow : float64 → float64 → float64.
Variable midnight : Time → Time.
Abbreviation hstep := (hstep pow midnight).
Abbreviation step := (step pow midnight).
Abbreviation run := (run pow midnight).

Definition estep (p : Policy) (e : event) : Policy :=
  match e with
  | Launch id ok gp bytes now full =>
      let r := canProbe midnight id bytes now p in
      if r.1 then RecordProbe pow midnight id ok gp bytes now full r.2 else r.2
  | Other o => step p o
  end.

Definition erun (p : Policy) (es : list event) : Policy := foldl estep p es.

(** The probes of [id] that went out: when, and their bytes. *)
Fixpoint charges (id : CarrierID) (p : Policy) (es : list event) : list (Time * Z) :=
  match es with
  | [] => []
  | e :: es =>
      match e with
      | Launch i _ _ bytes now _ =>
          if decide (i = id) then if (canProbe midnight i bytes now p).1 then [(now, bytes)] else [] else []
      | Other _ => []
      end ++ charges id (estep p e) es
  end.

Definition bytesOn (day : Time) (cs : list (Time * Z)) : Z :=
  zsum (λ c : Time * Z, if midnight c.1 =? day then c.2 else 0) cs.

Lemma bytesOn_app day a b : bytesOn day (a ++ b) = bytesOn day a + bytesOn day b.
Proof. apply zsum_app. Qed.

Hypothesis midnight_mono : ∀ t u, t ≤ u → midnight t ≤ midnight u.

(** *** The invariant of one record *)
Record budget_inv (B : Z) (T : Time) (h : CarrierHealth) (cs : list (Time * Z)) : Prop := {
  bi_stamp : ProbeDayStamp h = 0 ∨ 0 < ProbeDayStamp h ≤ T;
  bi_zero : ProbeDayStamp h = 0 → cs = [] ∧ ProbeBytesToday h = 0;
  bi_days : ∀ c, c ∈ cs → midnight c.1 ≤ midnight (ProbeDayStamp h);
  bi_today : ProbeBytesToday h = bytesOn (midnight (ProbeDayStamp h)) cs;
  bi_pos : ∀ c, c ∈ cs → 0 < c.2;
  bi_bound : ∀ day, bytesOn day cs ≤ B
}.

Lemma bytesOn_late day cs : (∀ c, c ∈ cs → midnight c.1 < day) → bytesOn day cs = 0.
Proof.
  intros H. unfold bytesOn. induction cs as [|c cs IH]; [done|]. cbn.
  assert (midnight c.1 < day) by (apply H; left).
  destruct (Z.eqb_spec (midnight c.1) day); [lia|].
  unfold zsum in IH. rewrite IH; [done|]. intros c' Hc'. apply H. by right.
Qed.

Lemma bytesOn_nonneg day cs : (∀ c, c ∈ cs → 0 < c.2) → 0 ≤ bytesOn day cs.
Proof.
  intros H. unfold bytesOn. induction cs as [|c cs IH]; [done|]. cbn.
  assert (0 < c.2) by (apply H; left).
  assert (0 ≤ zsum (λ c : Time * Z, if midnight c.1 =? day then c.2 else 0) cs)
    by (apply IH; intros c' Hc'; apply H; by right).
  unfold zsum in *. case_match; lia.
Qed.

Lemma roll_inv B T now h cs :
  0 < now → T ≤ now → budget_inv B T h cs →
  budget_inv B now (rollProbeDay midnight now h) cs
  ∧ 0 < ProbeDayStamp (rollProbeDay midnight now h)
  ∧ midnight now = midnight (ProbeDayStamp (rollProbeDay midnight now h)).
Proof.
  intros Hnow HT [Hs Hz Hd Ht Hp Hb]. unfold rollProbeDay, IsZero, After.
  destruct (Z.eqb_spec (ProbeDayStamp h) 0) as [H0|H0].
  - destruct (Hz H0) as [-> Hb0]. split; [|split; [done|done]].
    split; cbn; try done; [right; lia|].
    intros c Hc. by apply elem_of_nil in Hc.
  - assert (midnight (ProbeDayStamp h) ≤ midnight now) by (apply midnight_mono; lia).
    destruct (Z.ltb_spec (midnight (ProbeDayStamp h)) (midnight now)).
    + split; [|done]. split; cbn; try done; [right; lia|lia| |].
      * intros c Hc. specialize (Hd c Hc). lia.
      * symmetry. apply bytesOn_late. intros c Hc. specialize (Hd c Hc). lia.
    + split; [|lia]. split; try done. right. lia.
Qed.

Lemma charge_inv B now h cs bytes :
  0 < bytes → ProbeBytesToday h + bytes ≤ B < 2 ^ 62 → 0 < ProbeDayStamp h → midnight now = midnight (ProbeDayStamp h) →
  budget_inv B now h cs →
  budget_inv B now (h <| ProbeBytesToday := wraps 64 (ProbeBytesToday h + bytes) |>) (cs ++ [(now, bytes)]).
Proof.
  intros Hby HB Hpos Hday [Hs Hz Hd Ht Hp Hb].
  pose proof (bytesOn_nonneg (midnight (ProbeDayStamp h)) cs Hp).
  assert (Hone : ∀ day, bytesOn day [(now, bytes)] = if midnight now =? day then bytes else 0)
    by (intros day; unfold bytesOn; cbn; lia).
  split; cbn; try done; [lia| | | |].
  - intros c [Hc| ->%list_elem_of_singleton]%elem_of_app; [by apply Hd|]. cbn. lia.
  - rewrite wraps_id, bytesOn_app, Hone by (unfold in_s; lia).
    rewrite Hday, Z.eqb_refl. lia.
  - intros c [Hc| ->%list_elem_of_singleton]%elem_of_app; [by apply Hp|done].
  - intros day. rewrite bytesOn_app, Hone. specialize (Hb day).
    destruct (Z.eqb_spec (midnight now) day) as [<-|]; [|lia]. rewrite Hday, <- Ht. lia.
Qed.

(** The fields of the budget. *)
Definition ledger (h : CarrierHealth) := (ProbeBytesToday h, ProbeDayStamp h).

Lemma budget_inv_frame B T h h' cs : ledger h' = ledger h → budget_inv B T h cs → budget_inv B T h' cs.
Proof. intros Hl [Hs Hz Hd Ht Hp Hb]. injection Hl as H1 H2. split; rewrite ?H1, ?H2; done. Qed.

Lemma budget_inv_later B T T' h cs : T ≤ T' → budget_inv B T h cs → budget_inv B T' h cs.
Proof. intros HT [Hs Hz Hd Ht Hp Hb]. split; try done. lia. Qed.

Lemma evalCarrier_ledger c now h : ledger (evalCarrier c now h) = ledger h.
Proof. unfold evalCarrier, advanceLifecycle, excludeLocked. by repeat case_match. Qed.

Lemma hstep_ledger c id h o :
  is_probe o = false → (∀ i b now, o ≠ OCanProbe i b now) → ledger (hstep c id h o) = ledger h.
Proof.
  intros Hp Hc. destruct o; try done; cbn [PolicyRun.hstep]; try (case_decide; [|done]); try done.
  - by case_match.
  - unfold recordStreamOutcome. transitivity (ledger (pushTTFB ttfb (pushSuccess ok h))); [|done].
    generalize (pushTTFB ttfb (pushSuccess ok h)) as g. intros g.
    destruct (ok && _); [by destruct (State g)|done].
  - by destruct (Hc id0 bytes now).
  - apply evalCarrier_ledger.
Qed.

Lemma recordProbe_ledger c ok gp bytes now full h :
  0 < bytes → ProbingEnabled c = true →
  ledger (recordProbe pow midnight c ok gp bytes now full h)
  = (wraps 64 (ProbeBytesToday (rollProbeDay midnight now h) + bytes), ProbeDayStamp (rollProbeDay midnight now h)).
Proof.
  intros Hb He. unfold recordProbe. rewrite He, (proj2 (Z.ltb_lt _ _) Hb). cbn [andb]. cbv zeta.
  generalize (rollProbeDay midnight now h) as g. intros g.
  unfold probePassed, probeFailed. destruct ok, full; try done; cbn; by destruct (State g).
Qed.

(** *** One event *)
Lemma other_lookup p o id :
  policy_ok p → health (estep p (Other o)) !! id = (λ h, hstep (cfg p) id h o) <$> health p !! id.
Proof. intros Hp. by apply step_lookup. Qed.

Lemma roll_same now h : midnight now ≤ midnight (ProbeDayStamp h) → 0 < ProbeDayStamp h → rollProbeDay midnight now h = h.
Proof.
  intros Hm Hs. unfold rollProbeDay, IsZero, After.
  destruct (Z.eqb_spec (ProbeDayStamp h) 0); [lia|].
  destruct (Z.ltb_spec (midnight (ProbeDayStamp h)) (midnight now)); [lia|done].
Qed.

Definition allowed_charge (id : CarrierID) (p : Policy) (e : event) : list (Time * Z) :=
  match e with
  | Launch i _ _ bytes now _ =>
      if decide (i = id) then if (canProbe midnight i bytes now p).1 then [(now, bytes)] else [] else []
  | Other _ => []
  end.

Lemma estep_ok p e : policy_ok p → policy_ok (estep p e) ∧ cfg (estep p e) = cfg p.
Proof.
  intros Hp. destruct e as [id ok gp bytes now full|o]; cbn [estep].
  - pose proof (step_ok pow midnight p (OCanProbe id bytes now) Hp) as H1. cbn in H1.
    destruct (step_frame pow midnight p (OCanProbe id bytes now)) as [H2 _]. cbn in H2.
    case_match; [|done].
    pose proof (step_ok pow midnight _ (OProbe id ok gp bytes now full) H1) as H3. cbn in H3.
    destruct (step_frame pow midnight (canProbe midnight id bytes now p).2 (OProbe id ok gp bytes now full)) as [H4 _].
    cbn in H4. split; [done|congruence].
  - split; [by apply step_ok|]. apply step_frame.
Qed.

Lemma estep_inv B T p id h e cs :
  policy_ok p → ProbingEnabled (cfg p) = true → ProbeDailyBudgetBytes (cfg p) = B → 0 < B < 2 ^ 62 →
  event_ok e → match event_time e with Some now => 0 < now ∧ T ≤ now | None => True end →
  health p !! id = Some h → budget_inv B T h cs →
  ∃ h', health (estep p e) !! id = Some h'
  ∧ budget_inv B (default T (event_time e)) h' (cs ++ allowed_charge id p e).
Proof.
  intros Hp He HB Hlt Hok Ht Hh Hinv.
  destruct e as [i ok gp bytes now full|o]; cbn [event_time default allowed_charge] in *.
  - destruct Ht as [Hnow HT]. cbn [estep].
    assert (Hcan : health (canProbe midnight i bytes now p).2 !! id
                   = Some (if decide (i = id) then rollProbeDay midnight now h else h)).
    { rewrite (canProbe_lookup pow), Hh. cbn. rewrite He, HB, (proj2 (Z.ltb_lt _ _) (proj1 Hlt)).
      cbn [andb]. done. }
    destruct (decide (i = id)) as [->|Hne].
    + destruct (roll_inv B T now h cs Hnow HT Hinv) as (Hroll & Hpos & Hday).
      assert (Hres : (canProbe midnight id bytes now p).1
                     = negb (wraps 64 (ProbeBytesToday (rollProbeDay midnight now h) + bytes) >? B)).
      { unfold canProbe. rewrite Hh, He, HB, (proj2 (Z.ltb_lt _ _) (proj1 Hlt)). cbn. by rewrite HB. }
      destruct (canProbe midnight id bytes now p).1 eqn:Hc.
      * unfold RecordProbe. rewrite onHealth_lookup, Hcan. cbn. rewrite decide_True by done.
        eexists. split; [reflexivity|].
        destruct (canProbe_frame midnight id bytes now p) as (-> & _).
        symmetry in Hres. apply negb_true_iff in Hres. rewrite Z.gtb_ltb in Hres. apply Z.ltb_ge in Hres.
        pose proof (bytesOn_nonneg (midnight (ProbeDayStamp (rollProbeDay midnight now h))) cs (bi_pos _ _ _ _ Hroll)).
        pose proof (bi_bound _ _ _ _ Hroll (midnight (ProbeDayStamp (rollProbeDay midnight now h)))).
        pose proof (bi_today _ _ _ _ Hroll). cbn in Hok.
        rewrite wraps_id in Hres by (unfold in_s; lia).
        eapply budget_inv_frame; [|apply (charge_inv B now (rollProbeDay midnight now h) cs bytes); [lia|lia|done..]].
        rewrite recordProbe_ledger by (lia || done).
        rewrite (roll_same now (rollProbeDay midnight now h)) by lia. done.
      * rewrite app_nil_r. eexists. split; [exact Hcan|done].
    + rewrite app_nil_r. exists h. split; [|by eapply budget_inv_later].
      case_match; [|done]. unfold RecordProbe. rewrite onHealth_lookup, Hcan. cbn. by rewrite decide_False.
  - rewrite app_nil_r. rewrite other_lookup, Hh by done. cbn. eexists. split; [reflexivity|].
    assert (Hcp : (∃ i b now, o = OCanProbe i b now) ∨ ∀ i b now, o ≠ OCanProbe i b now)
      by (destruct o; eauto).
    destruct Hcp as [(i & b & now & ->)|Hn].
    + cbn [default PolicyRun.hstep]. cbn in Ht. destruct Ht as [Hnow HT].
      rewrite He, HB, (proj2 (Z.ltb_lt _ _) (proj1 Hlt)). cbn [andb].
      case_decide; [by apply roll_inv with T|by eapply budget_inv_later].
    + apply (budget_inv_frame B _ h); [by apply hstep_ledger|].
      destruct o; try done. by destruct (Hn id0 bytes now).
Qed.

(** *** A history *)
Lemma erun_inv B T p id h es cs :
  policy_ok p → ProbingEnabled (cfg p) = true → ProbeDailyBudgetBytes (cfg p) = B → 0 < B < 2 ^ 62 →
  Forall event_ok es → StronglySorted Z.le (omap event_time es) →
  Forall (λ t, 0 < t ∧ T ≤ t) (omap event_time es) →
  health p !! id = Some h → budget_inv B T h cs →
  ∃ h' T', health (erun p es) !! id = Some h' ∧ budget_inv B T' h' (cs ++ charges id p es).
Proof.
  intros Hp He HB Hlt. revert T p h cs Hp He HB.
  induction es as [|e es IH]; intros T p h cs Hp He HB Hok Hs Ht Hh Hinv.
  { exists h, T. by rewrite app_nil_r. }
  apply Forall_cons in Hok as [Hoke Hok].
  destruct (estep_ok p e Hp) as [Hp' Hc'].
  assert (Hte : match event_time e with Some now => 0 < now ∧ T ≤ now | None => True end).
  { destruct (event_time e) as [t|] eqn:Hte; [|done]. cbn in Ht. rewrite Hte in Ht. by inversion Ht. }
  destruct (estep_inv B T p id h e cs Hp He HB Hlt Hoke Hte Hh Hinv) as (h1 & Hh1 & Hinv1).
  destruct (IH (default T (event_time e)) (estep p e) h1 (cs ++ allowed_charge id p e)) as (h' & T' & Hh' & Hinv');
    try done; try congruence.
  - cbn in Hs. destruct (event_time e); [|done]. by apply StronglySorted_inv in Hs as [? _].
  - cbn in Ht, Hs. destruct (event_time e) as [t|]; [|done]. cbn [default].
    apply StronglySorted_inv in Hs as [_ Hs]. apply Forall_cons in Ht as [_ Ht].
    rewrite Forall_forall in Hs, Ht |- *. intros u Hu. specialize (Hs u Hu). specialize (Ht u Hu). simpl in *. split; [lia|exact Hs].
  - exists h', T'. split; [done|]. rewrite <- app_assoc in Hinv'. exact Hinv'.
Qed.
End budget.

(** The daily probe budget is never exceeded: with a positive budget, whatever
    else happens to the policy, if a probe goes out only right after
    [CanProbe] allowed its size, then on every local day the bytes of a carrier's
    probes sum to at most [ProbeDailyBudgetBytes], whatever the sizes and the
    order of the probes. *)
Theorem probe_budget_per_day pow midnight c l p es id day :
  (∀ t u, t ≤ u → midnight t ≤ midnight u) →
  NoDup l → NewPolicy c l = Ok p → id ∈ l →
  ProbingEnabled (cfg p) = true → 0 < ProbeDailyBudgetBytes (cfg p) < 2 ^ 62 →
  Forall event_ok es →
  StronglySorted Z.le (omap event_time es) → Forall (λ t, 0 < t) (omap event_time es) →
  bytesOn midnight day (charges pow midnight id p es) ≤ ProbeDailyBudgetBytes (cfg p).
Proof.
  intros Hmono Hl Hp Hid He HB Hok Hs Ht.
  destruct (NewPolicy_ok c l p Hl Hp) as (Hpok & Hc & _ & Hh).
  destruct (erun_inv pow midnight Hmono (ProbeDailyBudgetBytes (cfg p)) 0 p id (newHealth id) es [])
    as (h' & T' & _ & Hinv); try done.
  - eapply Forall_impl; [exact Ht|]. simpl. lia.
  - by apply Hh.
  - split; cbn; try done; [by left|intros x Hx; by apply elem_of_nil in Hx..|]. intros _. unfold bytesOn. cbn. lia.
  - cbn [app] in Hinv. apply Hinv.
Qed.

(** Midnight in UTC. *)
Definition day_ns : Z := 86400 * second.
Definition utc_midnight (t : Time) : Time := t / day_ns * day_ns.

Lemma utc_midnight_mono t u : t ≤ u → utc_midnight t ≤ utc_midnight u.
Proof.
  intros H. unfold utc_midnight. apply Z.mul_le_mono_nonneg_r; [done|].
  apply Z.div_le_mono; [done|lia].
Qed.

Definition probing_config : PolicyConfig :=
  PolicyConfigDefaults <| ProbingEnabled := true |> <| ProbeURL := lit "https://probe" |>
    <| ProbeDailyBudgetBytes := 5000 |>.

Definition probing_policy : Policy :=
  match NewPolicy probing_config [lit "a"; lit "b"] with
  | Ok p => p
  | Err _ => mkPolicy PolicyConfigDefaults [] ∅ ∅ [] [] 0 0 0 0
  end.

(** Three probes of 2000 bytes on the first day, of which two go out, and two on
    the second. *)
Definition probe_days : list event :=
  [Launch (lit "a") true fone 2000 (10 * second) true;
   Launch (lit "a") true fone 2000 (20 * second) true;
   Launch (lit "a") true fone 2000 (30 * second) true;
   Other (OEvaluate (40 * second));
   Launch (lit "a") true fone 2000 (day_ns + second) false;
   Launch (lit "a") false fone 1500 (day_ns + 2 * second) true].

Lemma probe_budget_per_day_witness :
  bytesOn utc_midnight 0 (charges nopow utc_midnight (lit "a") probing_policy probe_days) = 4000
  ∧ bytesOn utc_midnight day_ns (charges nopow utc_midnight (lit "a") probing_policy probe_days) = 3500
  ∧ bytesOn utc_midnight 0 (charges nopow utc_midnight (lit "a") probing_policy probe_days)
    ≤ ProbeDailyBudgetBytes (cfg probing_policy).
Proof.
  split; [vm_compute; reflexivity|]. split; [vm_compute; reflexivity|].
  apply (probe_budget_per_day nopow utc_midnight probing_config [lit "a"; lit "b"]).
  - exact utc_midnight_mono.
  - exact demo_nodup.
  - reflexivity.
  - exact demo_elem.
  - reflexivity.
  - vm_compute. auto.
  - repeat constructor; vm_compute; auto.
  - vm_compute. repeat constructor; congruence.
  - repeat constructor; vm_compute; congruence.
Defined.

(** ** The scheduler blocks on its own mutex *)

(** [policySchedProbe] of node.go for the carriers of one tick: it asks
    [DueProbe] and [CanProbe] and only observes the answers. *)
Section scheduler.
Variable midnight : Time → Time.

Definition policyProbeBytes (full : bool) (p : Policy) : Z :=
  if full then ProbeFullBytes (cfg p) else ProbeQuickBytes (cfg p).

Definition schedOne (held : bool) (now : Time) (id : CarrierID) (p : Policy) : call Policy :=
  fullDue ← DueProbe midnight held id now true p;
  quickDue ← DueProbe midnight held id now false fullDue.2;
  fullOK ← CanProbe midnight held id (policyProbeBytes true quickDue.2) now quickDue.2;
  quickOK ← CanProbe midnight held id (policyProbeBytes false fullOK.2) now fullOK.2;
  Returned quickOK.2.

Fixpoint schedLoop (held : bool) (now : Time) (l : list CarrierID) (p : Policy) : call Policy :=
  match l with
  | [] => Returned p
  | id :: l => p ← schedOne held now id p; schedLoop held now l p
  end.

Definition policySchedProbe (held : bool) (now : Time) (p : Policy) : call Policy :=
  schedLoop held now (ids p) p.

(** One tick of the policy's ticker. *)
Definition policyTick (held : bool) (now : Time) (p : Policy) : call Policy :=
  p ← locked held (Returned (Evaluate now p)); policySchedProbe held now p.
End scheduler.

(** While probing is enabled the ticker of the policy never gets past its first
    tick: with the mutex free, [DueProbe] of any configured carrier never
    returns, nor does the scheduler; and with the mutex then held for good, every
    later [CanProbe] blocks as well.  While probing is disabled both return and
    no probe is ever due. *)
Theorem probe_scheduler_deadlocks pow midnight c l p os now :
  NoDup l → l ≠ [] → NewPolicy c l = Ok p →
  let q := run pow midnight p os in
  if ProbingEnabled c
  then (∀ id full, id ∈ l → DueProbe midnight false id now full q = Blocked)
       ∧ policyTick midnight false now q = Blocked
       ∧ (∀ id bytes t, CanProbe midnight true id bytes t q = Blocked)
  else (∀ id full, DueProbe midnight false id now full q = Returned (false, q))
       ∧ policyTick midnight false now q = Returned (Evaluate now q).
Proof.
  intros Hl Hne Hp q. destruct (NewPolicy_ok c l p Hl Hp) as (Hok & Hc & Hi & _).
  assert (Hqok : policy_ok q) by by apply run_ok.
  destruct (run_frame pow midnight p os) as [Hcq Hiq]. fold q in Hcq, Hiq.
  assert (Hen : ProbingEnabled (cfg q) = ProbingEnabled c) by by rewrite Hcq, Hc.
  assert (Hdue : ∀ r, policy_ok r → cfg r = cfg q → ids r = ids q →
            if ProbingEnabled c then ∀ id full, id ∈ l → DueProbe midnight false id now full r = Blocked
            else ∀ id full, DueProbe midnight false id now full r = Returned (false, r)).
  { intros r [_ Hdom] Hcr Hir. rewrite <- Hen, <- Hcr. destruct (ProbingEnabled (cfg r)) eqn:Hpe.
    - intros id full Hid. unfold DueProbe. cbn [locked]. rewrite Hpe.
      rewrite <- Hi, <- Hiq, <- Hir in Hid. apply Hdom in Hid as [h ->]. done.
    - intros id full. unfold DueProbe. cbn [locked]. rewrite Hpe. by destruct (health r !! id). }
  destruct (Evaluate_frame now q) as (Hce & Hie & _).
  assert (Heok : policy_ok (Evaluate now q)) by exact (step_ok pow midnight q (OEvaluate now) Hqok).
  pose proof (Hdue q Hqok eq_refl eq_refl) as H1.
  pose proof (Hdue _ Heok Hce Hie) as H2.
  destruct (ProbingEnabled c) eqn:Hpe.
  - split_and!; [done| |done]. unfold policyTick, policySchedProbe. cbn [locked].
    unfold mbind, call_mbind. rewrite Hie, Hiq, Hi. destruct l as [|x l]; [done|]. cbn [schedLoop].
    unfold schedOne. rewrite (H2 x true) by left. done.
  - split; [done|]. unfold policyTick, policySchedProbe. cbn [locked].
    unfold mbind, call_mbind. assert (Hen' : ProbingEnabled (cfg (Evaluate now q)) = false) by by rewrite Hce, Hen.
    clear -H2 Hen'. generalize (ids (Evaluate now q)) as k. induction k as [|x k IH]; [done|].
    cbn [schedLoop]. unfold schedOne. rewrite !H2. unfold mbind, call_mbind. cbn [snd].
    rewrite H2. cbn [snd]. unfold CanProbe. cbn [locked].
    assert (Hcp : ∀ b, canProbe midnight x b now (Evaluate now q) = (false, Evaluate now q)).
    { intros b. unfold canProbe. rewrite Hen'. by destruct (health _ !! x). }
    rewrite !Hcp. apply IH.
Qed.

Lemma probe_scheduler_deadlocks_witness :
  (∀ id full, id ∈ [lit "a"; lit "b"] → DueProbe utc_midnight false id (10 * second) full probing_policy = Blocked)
  ∧ policyTick utc_midnight false (10 * second) probing_policy = Blocked
  ∧ (∀ id bytes t, CanProbe utc_midnight true id bytes t probing_policy = Blocked).
Proof.
  exact (probe_scheduler_deadlocks nopow utc_midnight probing_config [lit "a"; lit "b"] probing_policy []
           (10 * second) demo_nodup ltac:(discriminate) eq_refl).
Defined.
