(* ===== verification/PolicyNode.v ===== *)
(** * The policy at the node (pkg/node/node.go)

    [pickDownForNewStream] asks the policy for a down carrier and falls back to
    the registry's primary; the measurement hooks feed the policy from the
    relays and from installs and losses. *)
From S2P Require Import Registry.
From S2P Require Export PolicyLifecycle PolicyPick.
#[local] Open Scope Z_scope.

Section node.
Variable pow : float64 → float64 → float64.
Variable midnight : Time → Time.

(** Whether the carrier of a handle is ready when the pick reads it. *)
Variable carrierReady : href → bool.

(** [n.policy] is nil on a single-carrier node. *)
Definition pickDownForNewStream (now : Time) (policy : option Policy) (downReg : carrierRegistry)
  : option href * option Policy :=
  match policy with
  | None => (Primary carrierReady downReg, None)
  | Some p =>
      let r := PickForNewStream now p in
      (if streqb r.1 [] then Primary carrierReady downReg
       else match Handle r.1 downReg with
            | Some h => if carrierReady h then Some h else Primary carrierReady downReg
            | None => Primary carrierReady downReg
            end, Some r.2)
  end.

(** The measurement hooks: each does nothing on a single-carrier node. *)
Definition noteCarrierDelivery (id : CarrierID) (bytes : Z) (now : Time) : option Policy → option Policy :=
  fmap (λ p, if 0 <? bytes then step pow midnight p (OPassiveBytes id bytes now) else p).
Definition noteStreamOutcome (id : CarrierID) (ok : bool) (ttfb : Duration) : option Policy → option Policy :=
  fmap (λ p, step pow midnight p (OStreamOutcome id ok ttfb)).
Definition noteCarrierLoss (id : CarrierID) (now : Time) : option Policy → option Policy :=
  fmap (λ p, step pow midnight p (OReset id now)).
Definition noteCarrierFlap (id : CarrierID) (now : Time) : option Policy → option Policy :=
  fmap (λ p, step pow midnight p (OFlap id now)).
Definition noteRebind (id : CarrierID) : option Policy → option Policy :=
  fmap (λ p, step pow midnight p (ORebind id)).

(** The registry's [firstReady] finds a ready carrier when there is one. *)
Lemma firstReady_finds r l :
  match firstReady carrierReady r l with
  | Some h => carrierReady h = true ∧ ∃ id, id ∈ l ∧ handles r !! id = Some h
  | None => ∀ id h, id ∈ l → handles r !! id = Some h → carrierReady h = false
  end.
Proof.
  induction l as [|id l IH]; cbn [firstReady]; [intros id h Hid; by apply elem_of_nil in Hid|].
  unfold readyAt. destruct (handles r !! id) as [h|] eqn:Hh.
  - destruct (carrierReady h) eqn:Hr; [split; [done|]; exists id; split; [left|done]|].
    destruct (firstReady carrierReady r l) as [h'|].
    + destruct IH as (? & i & ? & ?). split; [done|]. exists i. split; [by right|done].
    + intros i h' [->|Hi]%elem_of_cons Hh'; [congruence|by eapply IH].
  - destruct (firstReady carrierReady r l) as [h'|].
    + destruct IH as (? & i & ? & ?). split; [done|]. exists i. split; [by right|done].
    + intros i h' [->|Hi]%elem_of_cons Hh'; [congruence|by eapply IH].
Qed.
End node.

(** The policy never blocks a new stream: whatever its state, the pick is
    the handle of an installed and ready carrier, and it fails only when no
    carrier of the configured order is ready. *)
Theorem pick_down_sound carrierReady now policy downReg :
  match (pickDownForNewStream carrierReady now policy downReg).1 with
  | Some h => carrierReady h = true ∧ ∃ id, handles downReg !! id = Some h
  | None => ∀ id h, id ∈ Registry.order downReg → handles downReg !! id = Some h → carrierReady h = false
  end.
Proof.
  assert (Hprim : match Primary carrierReady downReg with
                  | Some h => carrierReady h = true ∧ ∃ id, handles downReg !! id = Some h
                  | None => ∀ id h, id ∈ Registry.order downReg → handles downReg !! id = Some h → carrierReady h = false
                  end).
  { unfold Primary. pose proof (firstReady_finds carrierReady downReg (Registry.order downReg)) as H.
    destruct (firstReady _ _ _); [|done]. naive_solver. }
  unfold pickDownForNewStream. destruct policy as [p|]; [|done]. cbn [fst].
  destruct (streqb _ []); [done|]. destruct (Handle _ downReg) as [h|] eqn:Hh; [|done].
  destruct (carrierReady h) eqn:Hr; [|done]. split; [done|]. by eexists.
Qed.

(** ** Without outcomes and probes the policy is inert *)
Definition evidence_free (o : op) : bool :=
  match o with OStreamOutcome _ _ _ | OProbe _ _ _ _ _ _ => false | _ => true end.

Lemma evidence_free_passes c id os : Forall (λ o, evidence_free o = true) os → zsum (candPass c id) os = 0.
Proof. unfold zsum. induction 1 as [|o os Ho _ IH]; [done|]. cbn. rewrite IH. by destruct o. Qed.

(** A policy that records neither stream outcomes nor probes never admits a
    carrier: after any such history no carrier is Active, every pick in either
    mode is empty, and a new stream goes to the registry's first ready carrier.
    The node records no outcome and launches no probe, so this is how the policy
    behaves in the program. *)
Theorem policy_inert_without_outcomes pow midnight carrierReady c l p os now downReg :
  NoDup l → NewPolicy c l = Ok p → Forall (λ o, evidence_free o = true) os →
  let q := run pow midnight p os in
  (∀ id, id ∈ l → StateOf id q ≠ stateActive)
  ∧ (PickForNewStream now q).1 = []
  ∧ (pickDownForNewStream carrierReady now (Some q) downReg).1 = Primary carrierReady downReg.
Proof.
  intros Hl Hp Ho q. destruct (NewPolicy_ok c l p Hl Hp) as (_ & _ & Hi & _).
  destruct (run_frame pow midnight p os) as [_ Hiq]. fold q in Hiq.
  assert (Hst : ∀ id h, id ∈ l → health q !! id = Some h → State h ≠ stateActive).
  { intros id h Hid Hh Hs.
    pose proof (admission_earned pow midnight c l p os id h Hl Hp Hid Hh Hs) as H.
    rewrite evidence_free_passes in H by done. lia. }
  assert (Hact : ∀ id, id ∈ ids q → isActive q id = false).
  { intros id Hid. rewrite Hiq, Hi in Hid. unfold isActive.
    destruct (health q !! id) as [h|] eqn:Hh; [|done]. apply bool_decide_eq_false. by eapply Hst. }
  assert (Hal : activeLocked q = []).
  { destruct (activeLocked q) as [|x k] eqn:Hx; [done|].
    assert (Hin : x ∈ activeLocked q) by (rewrite Hx; left).
    apply active_spec in Hin as [Hin Ha]. by rewrite (Hact x Hin) in Ha. }
  assert (Hel : eligibleActiveLocked now q = []).
  { destruct (eligibleActiveLocked now q) as [|x k] eqn:Hx; [done|].
    assert (Hin : x ∈ eligibleActiveLocked now q) by (rewrite Hx; left).
    apply eligible_spec in Hin as [Hin Ha%eligible_active]. by rewrite (Hact x Hin) in Ha. }
  assert (Hpick : (PickForNewStream now q).1 = []).
  { unfold PickForNewStream. rewrite Hel, Hal. by destruct (negb _). }
  split_and!; [|done|].
  - intros id Hid. unfold StateOf. destruct (health q !! id) as [h|] eqn:Hh; [by eapply Hst|done].
  - unfold pickDownForNewStream. rewrite Hpick. done.
Qed.

Definition deliveries_only : list op :=
  [OPassiveBytes (lit "a") 9000000 second; OPassiveBytes (lit "a") 9000000 (2 * second);
   OEvaluate (3 * second); OEvaluate (90 * second)].

Lemma deliveries_only_free : Forall (λ o, evidence_free o = true) deliveries_only.
Proof. repeat constructor. Qed.

Lemma policy_inert_without_outcomes_witness :
  let q := run nopow id duel_policy deliveries_only in
  (∀ id, id ∈ [lit "a"; lit "b"] → StateOf id q ≠ stateActive)
  ∧ (PickForNewStream (91 * second) q).1 = []
  ∧ (pickDownForNewStream (λ _, true) (91 * second) (Some q)
       (newDownRegistry [lit "a"; lit "b"])).1 = Primary (λ _, true) (newDownRegistry [lit "a"; lit "b"]).
Proof.
  exact (policy_inert_without_outcomes nopow id (λ _, true) (PolicyConfigDefaults <| Mode := PolicyAdaptive |>)
           [lit "a"; lit "b"] duel_policy deliveries_only (91 * second) (newDownRegistry [lit "a"; lit "b"])
           demo_nodup eq_refl deliveries_only_free).
Defined.
