(* ===== verification/Text.v ===== *)
(** * White space and boolean literals

    [strings.TrimSpace] and [strconv.ParseBool] on byte strings, for the
    programs' configuration and allowlist parsing. *)
From S2P Require Export Net.
#[local] Open Scope Z_scope.

(** The UTF-8 encodings of the runes that [unicode.IsSpace] accepts. *)
Definition spaces : list gostring :=
  [[x09]; [x0a]; [x0b]; [x0c]; [x0d]; [x20]; [xc2; x85]; [xc2; xa0]; [xe1; x9a; x80];
   [xe2; x80; x80]; [xe2; x80; x81]; [xe2; x80; x82]; [xe2; x80; x83]; [xe2; x80; x84]; [xe2; x80; x85];
   [xe2; x80; x86]; [xe2; x80; x87]; [xe2; x80; x88]; [xe2; x80; x89]; [xe2; x80; x8a];
   [xe2; x80; xa8]; [xe2; x80; xa9]; [xe2; x80; xaf]; [xe2; x81; x9f]; [xe3; x80; x80]].

(** [s] without the first of the [rs] that is a prefix of it. *)
Fixpoint strip_one (rs : list gostring) (s : gostring) : option gostring :=
  match rs with
  | [] => None
  | r :: rs => if has_prefix r s then Some (drop (length r) s) else strip_one rs s
  end.

Fixpoint strip (fuel : nat) (rs : list gostring) (s : gostring) : gostring :=
  match fuel with
  | O => s
  | S fuel => match strip_one rs s with Some s => strip fuel rs s | None => s end
  end.

Definition trim_left (rs : list gostring) (s : gostring) : gostring := strip (length s) rs s.

(** [strings.TrimSpace] *)
Definition TrimSpace (s : gostring) : gostring :=
  reverse (trim_left (map reverse spaces) (reverse (trim_left spaces s))).

(** [strconv.ParseBool] *)
Definition ParseBool (s : gostring) : option bool :=
  if bool_decide (s ∈ map lit ["1"; "t"; "T"; "TRUE"; "true"; "True"]%string) then Some true
  else if bool_decide (s ∈ map lit ["0"; "f"; "F"; "FALSE"; "false"; "False"]%string) then Some false
  else None.

(** Trimming leaves no white space at the front: the fuel is enough, a turn
    removes at least one byte. *)
Lemma strip_one_shorter rs s s' :
  Forall (λ r, r ≠ []) rs → strip_one rs s = Some s' → (length s' < length s)%nat.
Proof.
  induction rs as [|r rs IH]; intros Hr; [done|]. apply Forall_cons in Hr as [Hr Hrs]. cbn.
  destruct (has_prefix r s) eqn:Hp; [|by apply IH].
  intros [= <-]. rewrite length_drop.
  destruct r, s; cbn in *; try done; lia.
Qed.

Lemma strip_done fuel rs s :
  Forall (λ r, r ≠ []) rs → (length s ≤ fuel)%nat → strip_one rs (strip fuel rs s) = None.
Proof.
  intros Hr. revert s. induction fuel as [|fuel IH]; intros s Hs; cbn.
  - assert (s = []) as -> by (destruct s; cbn in *; [done|lia]).
    destruct (strip_one rs []) as [s'|] eqn:H; [|done].
    apply strip_one_shorter in H; [cbn in H; lia|done].
  - destruct (strip_one rs s) as [s'|] eqn:H; [|done].
    apply IH. apply strip_one_shorter in H; [lia|done].
Qed.

Lemma trim_left_done rs s : Forall (λ r, r ≠ []) rs → strip_one rs (trim_left rs s) = None.
Proof. intros. by apply strip_done. Qed.
