(* ===== verification/Socks.v ===== *)
(** * The SOCKS5 front end (src/cmd/iran-splitter/socks.go, main.go)

    The greeting, the RFC 1929 sub-negotiation and the CONNECT request as the
    Iran node reads them from a client, the source allowlist
    (src/internal/config/config.go), and the handler that turns a verdict of
    the remote node into the reply.  A client connection is the bytes the
    client sends until it closes or the deadline passes, the bytes written to
    it, and how many more it accepts before a write fails. *)
From S2P Require Export Destination Text.
#[local] Open Scope Z_scope.

(** ** The client connection *)

Record conn := mkConn {
  c_in : list byte;
  c_out : list byte;
  c_room : option nat      (* None: writes never fail *)
}.

#[export] Instance expand_conn : Expandable conn := {| expand := λ c, mkConn (c_in c) (c_out c) (c_room c) |}.

(** A [Write] that fails has sent a prefix. *)
Definition Write (p : list byte) (c : conn) : bool * conn :=
  match c_room c with
  | None => (true, c <| c_out := c_out c ++ p |>)
  | Some n =>
      if decide (length p ≤ n)%nat
      then (true, mkConn (c_in c) (c_out c ++ p) (Some (n - length p)%nat))
      else (false, mkConn (c_in c) (c_out c ++ take n p) (Some 0%nat))
  end.

Inductive socks_error :=
| SocksIO (e : io_error) | SocksWrite | UnsupportedVersion | NoAcceptableMethod
| SubnegotiationVersion | ZeroLengthUsername | errSocksAuthFailed
| UnsupportedCommand | BadDestination (e : dest_error) | errSocksSourceRejected.

(** Reading and writing with an error that ends the exchange. *)
Definition io (A : Type) : Type := conn → res socks_error A * conn.

#[export] Instance io_mret : MRet io := λ A a c, (Ok a, c).
#[export] Instance io_mbind : MBind io := λ A B f m c,
  match m c with
  | (Ok a, c) => f a c
  | (Err e, c) => (Err e, c)
  end.

Definition fail {A} (e : socks_error) : io A := λ c, (Err e, c).

Definition readFull (n : nat) : io (list byte) := λ c,
  match ReadFull n (c_in c) with
  | Ok (l, rest) => (Ok l, c <| c_in := rest |>)
  | Err e => (Err (SocksIO e), c <| c_in := [] |>)
  end.

Definition write (p : list byte) : io unit := λ c,
  let '(ok, c) := Write p c in (if ok then Ok () else Err SocksWrite, c).

(** A write whose error the source ignores. *)
Definition tryWrite (p : list byte) : io unit := λ c, (Ok (), snd (Write p c)).

Definition readDestination (atype : Z) : io Destination := λ c,
  match ReadDestinationEx (c_in c) atype with
  | Ok (d, rest) => (Ok d, c <| c_in := rest |>)
  | Err e => (Err (BadDestination e), c)
  end.

(** ** Constants *)

Definition socksVersion : byte := x05.
Definition socksMethodNoAuth : byte := x00.
Definition socksMethodUserPass : byte := x02.
Definition socksMethodReject : byte := xff.
Definition socksAuthVersion : byte := x01.
Definition socksAuthSuccess : byte := x00.
Definition socksAuthFailure : byte := x01.
Definition socksCmdConnect : byte := x01.
Definition socksCmdReplyCmd : byte := x07.

(** ** Credentials *)

Record socksCredentials := mkCreds { enabled : bool; user : gostring; pass : gostring }.

Definition SocksAuthEnabled (SocksUser SocksPass : gostring) : bool :=
  negb (streqb SocksUser []) && negb (streqb SocksPass []).

Definition newSocksCredentials (cfg : option (gostring * gostring)) : socksCredentials :=
  match cfg with
  | None => mkCreds false [] []
  | Some (u, p) => if SocksAuthEnabled u p then mkCreds true u p else mkCreds false [] []
  end.

(** Both comparisons always run. *)
Definition socksCredsMatch (gotUser gotPass wantUser wantPass : gostring) : bool :=
  let userOK := streqb gotUser wantUser in
  let passOK := streqb gotPass wantPass in
  userOK && passOK.

(** ** Negotiation *)

Definition byteAt (i : nat) (l : list byte) : byte := nth i l x00.
Definition lengthByte (i : nat) (l : list byte) : nat := Z.to_nat (bz (byteAt i l)).

Definition socksAuthNegotiate (wantUser wantPass : gostring) : io unit :=
  hdr ← readFull 2;
  if negb (beqb (byteAt 0 hdr) socksAuthVersion) then fail SubnegotiationVersion
  else
    let ulen := lengthByte 1 hdr in
    if Nat.eqb ulen 0 then fail ZeroLengthUsername
    else
      user ← readFull ulen;
      plenB ← readFull 1;
      pass ← readFull (lengthByte 0 plenB);
      if negb (socksCredsMatch user pass wantUser wantPass)
      then _ ← write [socksAuthVersion; socksAuthFailure]; fail errSocksAuthFailed
      else write [socksAuthVersion; socksAuthSuccess].

Definition offered (methods : list byte) (m : byte) : bool := existsb (λ om, beqb om m) methods.

Definition selectMethod (enabled : bool) (methods : list byte) : option byte :=
  if enabled && offered methods socksMethodUserPass then Some socksMethodUserPass
  else if offered methods socksMethodNoAuth && negb enabled then Some socksMethodNoAuth
  else None.

Definition socksReply (status : byte) : io unit :=
  tryWrite [x05; status; x00; x01; x00; x00; x00; x00; x00; x00].

Definition socksRequest : io Destination :=
  req ← readFull 4;
  if negb (beqb (byteAt 0 req) socksVersion) || negb (beqb (byteAt 1 req) socksCmdConnect)
  then _ ← socksReply socksCmdReplyCmd; fail UnsupportedCommand
  else readDestination (bz (byteAt 3 req)).

Definition socksNegotiate (creds : socksCredentials) : io Destination :=
  greet ← readFull 2;
  if negb (beqb (byteAt 0 greet) socksVersion) then fail UnsupportedVersion
  else
    methods ← readFull (lengthByte 1 greet);
    match selectMethod (enabled creds) methods with
    | None => _ ← tryWrite [socksVersion; socksMethodReject]; fail NoAcceptableMethod
    | Some selected =>
        _ ← write [socksVersion; selected];
        _ ← (if beqb selected socksMethodUserPass
             then socksAuthNegotiate (user creds) (pass creds) else mret ());
        socksRequest
    end.

(** ** The source allowlist *)

(** [net.CIDRMask] of a full address. *)
Definition hostMask (ip : list byte) : list byte :=
  match To4 ip with Some _ => replicate 4 xff | None => replicate 16 xff end.

Definition parseEntry (entry : gostring) : option IPNet :=
  if streqb entry [] then None
  else match ParseIP entry with
       | Some ip => Some (mkIPNet ip (hostMask ip))
       | None => ParseCIDR entry
       end.

Fixpoint parseEntries (parts : list gostring) : option (list IPNet) :=
  match parts with
  | [] => Some []
  | p :: parts =>
      match parseEntry (TrimSpace p), parseEntries parts with
      | Some n, Some ns => Some (n :: ns)
      | _, _ => None
      end
  end.

(** [None] is the error; the empty list allows every source. *)
Definition ParseAllowedSources (raw : gostring) : option (list IPNet) :=
  let trimmed := TrimSpace raw in
  if streqb trimmed [] then Some [] else parseEntries (split_on x2c trimmed).

Definition AllowedSourcesMatch (raw clientIP : gostring) : bool :=
  match ParseAllowedSources raw with
  | None => false
  | Some [] => true
  | Some nets => match ParseIP clientIP with
                 | None => false
                 | Some ip => existsb (λ n, Contains n ip) nets
                 end
  end.

Record socksAllowedSources := mkSources { s_enabled : bool; nets : list IPNet }.

Definition newSocksAllowedSources (cfg : option gostring) : socksAllowedSources :=
  match cfg with
  | None => mkSources false []
  | Some raw => match ParseAllowedSources raw with
                | None | Some [] => mkSources false []
                | Some ns => mkSources true ns
                end
  end.

Definition allows (g : socksAllowedSources) (source : gostring) : bool :=
  if negb (s_enabled g) then true
  else
    let host := match net_SplitHostPort source with Some (ip, _) => ip | None => source end in
    match ParseIP host with
    | None => false
    | Some ip => existsb (λ n, Contains n ip) (nets g)
    end.

Definition socksSourceGate (g : socksAllowedSources) (clientAddr : gostring) : option socks_error :=
  if negb (s_enabled g) then None
  else if negb (allows g clientAddr) then Some errSocksSourceRejected else None.

(** ** The handler *)

(** What became of the connection: closed by the handler, or owned by the
    session. *)
Inductive fate := ConnClosed | ConnAdopted.

(** [start] is what StartSessionAndWait returns for the destination: whether
    there is a session, and the status; [adopt] is what AdoptConn returns. *)
Definition handleSOCKS5Conn (creds : socksCredentials) (sources : socksAllowedSources) (addr : gostring)
  (start : Destination → bool * Z) (adopt : bool) (c : conn) : option Destination * fate * conn :=
  match socksNegotiate creds c with
  | (Err _, c) => (None, ConnClosed, c)
  | (Ok dest, c) =>
      match socksSourceGate sources addr with
      | Some _ => (None, ConnClosed, c)
      | None =>
          let '(sess, status) := start dest in
          let code := if status =? 255 then 1 else status in
          let c := snd (socksReply (zb code) c) in
          if negb (code =? 0) then (Some dest, ConnClosed, c)
          else if sess && adopt then (Some dest, ConnAdopted, c)
          else (Some dest, ConnClosed, c)
      end
  end.
