(* ===== verification/Allowlist.v ===== *)
(** * The source allowlist, bit by bit

    Which addresses the entries of SPLIT_SOCKS_ALLOWED_SOURCES admit: the
    masking of [IPNet.Contains] compares address prefixes, and the gate of
    Socks.v admits exactly the sources some entry names. *)
From S2P Require Export Socks.
#[local] Open Scope Z_scope.

(** ** Masks and prefixes *)

(** The first [k] bits of two addresses of one length agree. *)
Definition same_prefix (k : Z) (a b : list byte) : Prop :=
  Z.shiftr (be_get a) (8 * Z.of_nat (length a) - k) = Z.shiftr (be_get b) (8 * Z.of_nat (length b) - k).

Lemma land_mask (j : nat) b : (j ≤ 8)%nat → Z.land (bz b) (256 - 2 ^ Z.of_nat j) = 2 ^ Z.of_nat j * (bz b / 2 ^ Z.of_nat j).
Proof.
  intros Hj. apply Z.eqb_eq. revert b.
  assert (H : forallb (λ j : nat, forallb (λ b : nat, Z.land (Z.of_nat b) (256 - 2 ^ Z.of_nat j)
                =? 2 ^ Z.of_nat j * (Z.of_nat b / 2 ^ Z.of_nat j)) (seq 0 256)) (seq 0 9) = true) by by vm_compute.
  intros b. pose proof (bz_range b).
  rewrite forallb_forall in H. specialize (H j). rewrite forallb_forall in H.
  rewrite <- (Z2Nat.id (bz b)) by lia. apply H; apply in_seq; lia.
Qed.

Definition mask_byte (ones : Z) : Z := 256 - 2 ^ (8 - Z.max 0 (Z.min 8 ones)).

Lemma prefix_mask_cons ones n :
  prefix_mask ones (8 * S n) = zb (mask_byte ones) :: prefix_mask (ones - 8) (8 * n).
Proof.
  unfold prefix_mask. rewrite !(Nat.mul_comm 8), !Nat.div_mul by done. cbn [seq map]. f_equal.
  - unfold mask_byte. by replace (ones - 8 * Z.of_nat 0) with ones by lia.
  - rewrite <- seq_shift, map_map. apply map_ext. intros i.
    by replace (ones - 8 * Z.of_nat (S i)) with (ones - 8 - 8 * Z.of_nat i) by lia.
Qed.

Lemma length_prefix_mask ones n : length (prefix_mask ones (8 * n)) = n.
Proof. unfold prefix_mask. rewrite length_map, length_seq, Nat.mul_comm. by apply Nat.div_mul. Qed.

Lemma mask_byte_range ones : 0 ≤ mask_byte ones < 256.
Proof.
  unfold mask_byte. assert (1 ≤ 2 ^ (8 - Z.max 0 (Z.min 8 ones)) ≤ 2 ^ 8); [|lia].
  split; [|apply Z.pow_le_mono_r; lia]. apply (Z.pow_le_mono_r 2 0); lia.
Qed.

Lemma mask_eq ones a b :
  zb (Z.land (bz a) (mask_byte ones)) = zb (Z.land (bz b) (mask_byte ones))
  ↔ bz a / 2 ^ (8 - Z.max 0 (Z.min 8 ones)) = bz b / 2 ^ (8 - Z.max 0 (Z.min 8 ones)).
Proof.
  set (j := Z.to_nat (8 - Z.max 0 (Z.min 8 ones))).
  assert (Hj : 8 - Z.max 0 (Z.min 8 ones) = Z.of_nat j) by lia.
  unfold mask_byte. rewrite Hj, !land_mask by lia.
  assert (Hp : 0 < 2 ^ Z.of_nat j) by (apply Z.pow_pos_nonneg; lia).
  assert (Hr : ∀ x, in_u 8 (2 ^ Z.of_nat j * (bz x / 2 ^ Z.of_nat j))).
  { intros x. pose proof (bz_range x). pose proof (Z.mul_div_le (bz x) _ Hp).
    split; [|change (2 ^ 8) with 256; lia]. apply Z.mul_nonneg_nonneg; [lia|]. apply Z.div_pos; lia. }
  split; intros H; [|by rewrite H].
  apply (f_equal bz) in H. rewrite !bz_zb, !wrapu_id in H by apply Hr.
  by apply Z.mul_reg_l in H; [|lia].
Qed.

(** Splitting a big-endian value at a bit position. *)
Lemma shiftr_head x L n s :
  0 ≤ L < 2 ^ (8 * n) → 0 ≤ n → 8 * n ≤ s → Z.shiftr (x * 2 ^ (8 * n) + L) s = x / 2 ^ (s - 8 * n).
Proof.
  intros HL Hn Hs. rewrite Z.shiftr_div_pow2 by lia.
  replace s with (8 * n + (s - 8 * n)) at 1 by lia.
  rewrite Z.pow_add_r, <- Z.div_div by (try apply Z.pow_nonzero; try apply Z.pow_pos_nonneg; lia).
  f_equal. rewrite Z.div_add_l by (apply Z.pow_nonzero; lia). rewrite (Z.div_small L) by done. lia.
Qed.

Lemma shiftr_tail x L n s :
  0 ≤ n → 0 ≤ s ≤ 8 * n → Z.shiftr (x * 2 ^ (8 * n) + L) s = x * 2 ^ (8 * n - s) + Z.shiftr L s.
Proof.
  intros Hn Hs. rewrite !Z.shiftr_div_pow2 by lia.
  replace (8 * n) with ((8 * n - s) + s) at 1 by lia.
  rewrite Z.pow_add_r, Z.mul_assoc by lia. apply Z.div_add_l, Z.pow_nonzero; lia.
Qed.

Lemma pow256 n : 256 ^ n = 2 ^ (8 * n).
Proof. destruct (decide (0 ≤ n)); [|rewrite !Z.pow_neg_r by lia; done]. by rewrite Z.pow_mul_r by lia. Qed.

(** Masking two addresses with a prefix mask gives the same bytes exactly when
    the first [ones] bits agree. *)
Lemma and_bytes_prefix n ones a b :
  length a = n → length b = n → ones ≤ 8 * Z.of_nat n →
  and_bytes a (prefix_mask ones (8 * n)) = and_bytes b (prefix_mask ones (8 * n)) ↔ same_prefix ones a b.
Proof.
  revert ones a b. induction n as [|n IH]; intros ones a b Ha Hb Ho.
  { apply nil_length_inv in Ha as ->, Hb as ->. done. }
  destruct a as [|x a], b as [|y b]; try done. injection Ha as Ha. injection Hb as Hb.
  rewrite prefix_mask_cons. cbn [and_bytes]. rewrite bz_zb, (wrapu_id 8) by apply mask_byte_range.
  specialize (IH (ones - 8) a b Ha Hb ltac:(lia)).
  assert (Hcons : ∀ p q (l k : list byte), p :: l = q :: k ↔ p = q ∧ l = k) by naive_solver.
  rewrite Hcons, mask_eq, IH. unfold same_prefix. cbn [length]. rewrite !be_get_cons, !pow256, Ha, Hb.
  pose proof (be_get_range a) as Hra. pose proof (be_get_range b) as Hrb. rewrite pow256, Ha in Hra. rewrite pow256, Hb in Hrb.
  pose proof (bz_range x). pose proof (bz_range y).
  destruct (decide (8 ≤ ones)) as [H8|H8].
  - rewrite Z.min_l, Z.max_r, Z.sub_diag, !Z.div_1_r by lia.
    rewrite !shiftr_tail by lia. set (s := 8 * Z.of_nat (S n) - ones).
    replace (8 * Z.of_nat n - (ones - 8)) with s by lia.
    assert (Hsm : ∀ L, 0 ≤ L < 2 ^ (8 * Z.of_nat n) → 0 ≤ Z.shiftr L s < 2 ^ (8 * Z.of_nat n - s)).
    { intros L HL. rewrite Z.shiftr_div_pow2 by lia. split; [apply Z.div_pos; [lia|apply Z.pow_pos_nonneg; lia]|].
      apply Z.div_lt_upper_bound; [apply Z.pow_pos_nonneg; lia|]. rewrite <- Z.pow_add_r by lia.
      replace (s + (8 * Z.of_nat n - s)) with (8 * Z.of_nat n) by lia. lia. }
    apply Hsm in Hra, Hrb. split; [intros [-> ->]; done|]. intros E.
    assert (bz x = bz y) as Hxy by nia. split; [done|]. rewrite Hxy in E. lia.
  - assert (Ht : ∀ L, 0 ≤ L < 2 ^ (8 * Z.of_nat n) → Z.shiftr L (8 * Z.of_nat n - (ones - 8)) = 0).
    { intros L HL. rewrite Z.shiftr_div_pow2 by lia. apply Z.div_small. split; [lia|].
      eapply Z.lt_le_trans; [apply HL|]. apply Z.pow_le_mono_r; lia. }
    rewrite !Ht, !shiftr_head by lia.
    replace (8 * Z.of_nat (S n) - ones - 8 * Z.of_nat n) with (8 - ones) by lia.
    destruct (decide (0 ≤ ones)).
    + replace (8 - Z.max 0 (Z.min 8 ones)) with (8 - ones) by lia. naive_solver.
    + replace (8 - Z.max 0 (Z.min 8 ones)) with 8 by lia. rewrite !Z.div_small; [naive_solver|..];
        try (change (2 ^ 8) with 256; lia); split; try lia;
        (eapply Z.lt_le_trans; [|apply (Z.pow_le_mono_r 2 8); lia]; change (2 ^ 8) with 256; lia).
Qed.

(** The address of a client, as the gate sees it. *)
Definition sourceIP (addr : gostring) : option (list byte) :=
  ParseIP (match net_SplitHostPort addr with Some (ip, _) => ip | None => addr end).

(** A block [net]/[ones]: addresses of its family whose first bits are its. *)
Definition in_block (block : list byte) (ones : Z) (ip : list byte) : Prop :=
  if bool_decide (length block = 4%nat) then ∃ v4, To4 ip = Some v4 ∧ same_prefix ones v4 block
  else (is_Some (To4 ip) ↔ is_Some (To4 (and_bytes block (prefix_mask ones 128)))) ∧ same_prefix ones ip block.

(** An allowlist entry admits an address: the address itself, or a block. *)
Definition entry_admits (e : gostring) (ip : list byte) : Prop :=
  match ParseIP e with
  | Some a => ip = a
  | None =>
      match cut x2f e with
      | None => False
      | Some (addr, mask) =>
          ∃ block ones, digits_value 0 mask = Some ones ∧ 0 ≤ ones ≤ 8 * Z.of_nat (length block) ∧ in_block block ones ip
            ∧ (parseIPv4 addr = Some block ∨ parseIPv4 addr = None ∧ ip_kind addr = Some false ∧ parseIPv6 addr = Some block)
      end
  end.

Lemma length_and_bytes a b : length (and_bytes a b) = Nat.min (length a) (length b).
Proof. revert b. induction a as [|x a IH]; intros [|y b]; cbn; try done. by rewrite IH. Qed.

Lemma land_idem x y : zb (Z.land (bz (zb (Z.land (bz x) (bz y)))) (bz y)) = zb (Z.land (bz x) (bz y)).
Proof.
  pose proof (bz_range y).
  assert (Hy : Z.land (bz y) (Z.ones 8) = bz y).
  { rewrite Z.land_ones by lia. apply Z.mod_small. change (2 ^ 8) with 256. lia. }
  rewrite bz_zb. unfold wrapu. rewrite <- Z.land_ones by lia.
  by rewrite <- (Z.land_assoc (bz x)), Hy, <- Z.land_assoc, Z.land_diag.
Qed.

Lemma and_bytes_idem a b : and_bytes (and_bytes a b) b = and_bytes a b.
Proof. revert b. induction a as [|x a IH]; intros [|y b]; cbn; try done. by rewrite IH, land_idem. Qed.

Lemma To4_Some ip v4 : length ip = 16%nat → To4 ip = Some v4 ↔ ip = v4InV6Prefix ++ v4 ∧ length v4 = 4%nat.
Proof.
  intros Hl. split.
  - intros H. split; [|by eapply To4_length]. revert H. unfold To4. rewrite bool_decide_false by lia.
    rewrite (bool_decide_true (length ip = 16%nat)) by done. cbn [andb]. case_bool_decide as Hp; [|done].
    intros [= <-]. by rewrite <- Hp, take_drop.
  - intros [-> H]. by apply To4_mapped.
Qed.

Lemma To4_4 v4 : length v4 = 4%nat → To4 v4 = Some v4.
Proof. intros H. unfold To4. by rewrite bool_decide_true. Qed.

(** [IPNet.Contains] on a masked IPv4 block. *)
Lemma Contains_v4 block ones ip :
  length block = 4%nat → 0 ≤ ones ≤ 32 →
  Contains (mkIPNet (and_bytes block (prefix_mask ones (8 * 4))) (prefix_mask ones (8 * 4))) ip = true
  ↔ ∃ v4, To4 ip = Some v4 ∧ same_prefix ones v4 block.
Proof.
  intros Hb Ho. unfold Contains. cbn [n_ip n_mask]. set (m := prefix_mask ones (8 * 4)).
  assert (Hm : length m = 4%nat) by apply length_prefix_mask.
  assert (Hn : length (and_bytes block m) = 4%nat) by (rewrite length_and_bytes; lia).
  rewrite (To4_4 _ Hn). unfold default, from_option, id. rewrite Hn, Hm.
  change (bool_decide (4%nat = 4%nat) && bool_decide (4%nat = 16%nat)) with false. cbv iota.
  rewrite and_bytes_idem, andb_true_iff, bool_decide_eq_true, streqb_true.
  destruct (To4 ip) as [v4|] eqn:H4; cbn.
  - assert (length v4 = 4%nat) by by eapply To4_length.
    rewrite (and_bytes_prefix 4 ones block v4) by (done || lia). unfold same_prefix. naive_solver.
  - split; [|by intros (? & [=] & _)]. intros [Hl _]. by rewrite (To4_4 ip Hl) in H4.
Qed.

Lemma and_bytes_app a b m :
  (length a ≤ length m)%nat →
  and_bytes (a ++ b) m = and_bytes a (take (length a) m) ++ and_bytes b (drop (length a) m).
Proof.
  revert m. induction a as [|x a IH]; intros m Hl; [by rewrite drop_0|].
  destruct m as [|y m]; cbn in *; [lia|]. rewrite IH by lia. done.
Qed.

(** The same on a masked IPv6 block; a block of IPv4-mapped addresses only
    contains addresses of that form, and another one contains none. *)
Lemma Contains_v6 block ones ip :
  length block = 16%nat → length ip = 16%nat → 0 ≤ ones ≤ 128 →
  Contains (mkIPNet (and_bytes block (prefix_mask ones (8 * 16))) (prefix_mask ones (8 * 16))) ip = true
  ↔ (is_Some (To4 ip) ↔ is_Some (To4 (and_bytes block (prefix_mask ones (8 * 16))))) ∧ same_prefix ones ip block.
Proof.
  intros Hb Hi Ho. unfold Contains. cbn [n_ip n_mask]. set (m := prefix_mask ones (8 * 16)).
  assert (Hm : length m = 16%nat) by apply length_prefix_mask.
  set (N := and_bytes block m).
  assert (Hn : length N = 16%nat) by (unfold N; rewrite length_and_bytes; lia).
  assert (Heq : same_prefix ones ip block ↔ and_bytes N m = and_bytes ip m).
  { unfold N. rewrite and_bytes_idem. unfold m. rewrite (and_bytes_prefix 16 ones block ip) by (done || lia).
    unfold same_prefix. naive_solver. }
  rewrite Heq, andb_true_iff, bool_decide_eq_true, streqb_true, Hm.
  destruct (To4 N) as [n4|] eqn:EN; destruct (To4 ip) as [w|] eqn:Ew; unfold default, from_option, id.
  - apply To4_Some in EN as [EN Ln]; [|done]. apply To4_Some in Ew as [Ew Lw]; [|done].
    rewrite Ln, Lw. cbn [andb]. change (bool_decide (4%nat = 4%nat) && bool_decide (16%nat = 16%nat)) with true.
    rewrite EN, Ew, !and_bytes_app by (rewrite Hm; cbn; lia).
    change (length v4InV6Prefix) with 12%nat. split.
    + intros [_ E]. by rewrite E.
    + intros [_ E]. apply app_inj_1 in E as [_ E]; [done|done].
  - apply To4_length in EN. rewrite EN, Hi. split; [by intros [? _]|]. intros [[_ H] _].
    by destruct H.
  - apply To4_length in Ew. rewrite Ew, Hn. split; [by intros [? _]|]. intros [[H _] _]. by destruct H.
  - rewrite Hn. change (bool_decide (16%nat = 4%nat) && bool_decide (16%nat = 16%nat)) with false.
    cbv iota. naive_solver.
Qed.

(** A single address is a block of its own. *)
Lemma and_ff n a : length a = n → and_bytes a (replicate n xff) = a.
Proof.
  revert a. induction n as [|n IH]; intros [|x a] Hl; try done. injection Hl as Hl. cbn [and_bytes replicate].
  f_equal; [|by apply IH].
  change (bz xff) with (Z.ones 8). pose proof (bz_range x).
  rewrite Z.land_ones, Z.mod_small by (change (2 ^ 8) with 256; lia). apply zb_bz.
Qed.

Lemma Contains_host a ip :
  length a = 16%nat → length ip = 16%nat → Contains (mkIPNet a (hostMask a)) ip = true ↔ ip = a.
Proof.
  intros Ha Hi. unfold Contains, hostMask. cbn [n_ip n_mask]. rewrite andb_true_iff, bool_decide_eq_true, streqb_true.
  destruct (To4 a) as [a4|] eqn:Ea; destruct (To4 ip) as [w|] eqn:Ew; unfold default, from_option, id.
  - apply To4_Some in Ea as [Ea La]; [|done]. apply To4_Some in Ew as [Ew Lw]; [|done].
    rewrite La, Lw. change (bool_decide (4%nat = 4%nat) && bool_decide (length (replicate 4 xff) = 16%nat)) with false.
    cbv iota. rewrite !and_ff by done. rewrite Ea, Ew. naive_solver.
  - pose proof (To4_length _ _ Ea) as La. rewrite La, Hi. split; [by intros [? _]|]. intros ->. congruence.
  - pose proof (To4_length _ _ Ew) as Lw. rewrite Lw, Ha. split; [by intros [? _]|]. intros ->. congruence.
  - rewrite Ha, Hi. change (bool_decide (16%nat = 4%nat) && _) with false. cbv iota. rewrite !and_ff by done.
    naive_solver.
Qed.

Lemma digits_value_nonneg s acc n : 0 ≤ acc → digits_value acc s = Some n → 0 ≤ n.
Proof.
  revert acc. induction s as [|c s IH]; intros acc Ha; cbn; [by intros [= <-]|].
  case_match eqn:Hd; [|done]. apply IH. unfold is_digit in Hd. apply andb_prop in Hd as [H1 H2]. lia.
Qed.

Lemma parseEntry_exact e n ip :
  length ip = 16%nat → parseEntry e = Some n → (Contains n ip = true ↔ entry_admits e ip).
Proof.
  intros Hi. unfold parseEntry, entry_admits. case_match; [done|].
  destruct (ParseIP e) as [a|] eqn:Ea.
  { intros [= <-]. apply ParseIP_length in Ea. by apply Contains_host. }
  unfold ParseCIDR. destruct (cut x2f e) as [[addr mask]|]; [|done].
  assert (Hmask : ∀ block, (length block = 4%nat ∨ length block = 16%nat) →
            (parseIPv4 addr = Some block ∨ parseIPv4 addr = None ∧ ip_kind addr = Some false ∧ parseIPv6 addr = Some block) →
            match mask with
            | [] => None
            | _ => match digits_value 0 mask with
                   | Some n => if n >? 8 * Z.of_nat (length block) then None
                               else let m := prefix_mask n (8 * length block) in Some (mkIPNet (and_bytes block m) m)
                   | None => None
                   end
            end = Some n →
            (Contains n ip = true ↔
             ∃ block ones, digits_value 0 mask = Some ones ∧ 0 ≤ ones ≤ 8 * Z.of_nat (length block) ∧ in_block block ones ip
               ∧ (parseIPv4 addr = Some block ∨ parseIPv4 addr = None ∧ ip_kind addr = Some false ∧ parseIPv6 addr = Some block))).
  { intros block Hl Hp Hn. destruct mask as [|c mask]; [done|].
    destruct (digits_value 0 (c :: mask)) as [ones|] eqn:Hd; [|done].
    pose proof (digits_value_nonneg _ _ _ ltac:(done) Hd).
    destruct (Z.gtb_spec ones (8 * Z.of_nat (length block))); [done|]. injection Hn as <-.
    assert (Hc : Contains (mkIPNet (and_bytes block (prefix_mask ones (8 * length block))) (prefix_mask ones (8 * length block))) ip
                 = true ↔ in_block block ones ip).
    { unfold in_block. destruct Hl as [Hl|Hl]; rewrite Hl.
      - rewrite bool_decide_true by done. apply Contains_v4; [done|lia].
      - rewrite bool_decide_false by done. apply Contains_v6; [done|done|lia]. }
    rewrite Hc. split; [by exists block, ones|].
    intros (b' & o' & [= <-] & _ & Hin & Hp'). replace block with b'; [done|].
    destruct Hp as [Hp|(Hp1 & Hp2 & Hp3)], Hp' as [Hp'|(Hq1 & Hq2 & Hq3)]; congruence. }
  destruct (parseIPv4 addr) as [v4|] eqn:E4.
  - assert (Hl : length v4 = 4%nat) by by eapply ipv4_loop_length.
    intros Hn. apply (Hmask v4); [by left|by left|]. rewrite Hl. destruct mask; [done|]. exact Hn.
  - destruct (ip_kind addr) as [[]|] eqn:Ek; [done| |done].
    destruct (parseIPv6 addr) as [v6|] eqn:E6; [|done].
    assert (Hl : length v6 = 16%nat) by by eapply parseIPv6_length.
    intros Hn. apply (Hmask v6); [by right|by right|]. rewrite Hl. destruct mask; [done|]. exact Hn.
Qed.

Lemma parseEntries_exact parts ns ip :
  length ip = 16%nat → parseEntries parts = Some ns →
  (existsb (λ n, Contains n ip) ns = true ↔ ∃ p, p ∈ parts ∧ entry_admits (TrimSpace p) ip).
Proof.
  intros Hi. revert ns. induction parts as [|p parts IH]; intros ns; cbn.
  { intros [= <-]. split; [done|]. by intros (p & H%elem_of_nil & _). }
  destruct (parseEntry (TrimSpace p)) as [n|] eqn:En; [|done].
  destruct (parseEntries parts) as [ns'|]; [|done]. intros [= <-]. cbn.
  rewrite orb_true_iff, (parseEntry_exact _ _ _ Hi En), (IH ns' eq_refl).
  setoid_rewrite elem_of_cons. naive_solver.
Qed.

Lemma parseEntries_nonempty parts : parts ≠ [] → parseEntries parts ≠ Some [].
Proof. destruct parts as [|p parts]; [done|]. intros _. cbn. by repeat case_match. Qed.

Lemma split_on_nonempty c s : split_on c s ≠ [].
Proof. induction s as [|d s IH]; cbn; [done|]. case_match; [done|]. by destruct (split_on c s). Qed.

Lemma allowlist_exact_gate raw ns addr :
  ParseAllowedSources raw = Some ns →
  allows (newSocksAllowedSources (Some raw)) addr = true
  ↔ TrimSpace raw = []
    ∨ ∃ p ip, p ∈ split_on x2c (TrimSpace raw) ∧ sourceIP addr = Some ip ∧ entry_admits (TrimSpace p) ip.
Proof.
  unfold newSocksAllowedSources, ParseAllowedSources. intros H.
  destruct (streqb (TrimSpace raw) []) eqn:Ht.
  { apply streqb_true in Ht. cbn. naive_solver. }
  assert (Hne : TrimSpace raw ≠ []) by (intros E; by rewrite (proj2 (streqb_true _ _) E) in Ht).
  rewrite H. destruct ns as [|n ns].
  { by apply parseEntries_nonempty in H; [|apply split_on_nonempty]. }
  unfold allows. cbn [s_enabled nets negb]. fold (sourceIP addr).
  destruct (sourceIP addr) as [ip|] eqn:Hip.
  - apply ParseIP_length in Hip as Hl. rewrite (parseEntries_exact _ _ _ Hl H). naive_solver.
  - split; [done|]. intros [?|(? & ? & _ & ? & _)]; done.
Qed.

(** C13: The allowlist admits exactly what the operator wrote: with a list that
    parses, a source passes the gate if and only if the list is blank, or the
    source is an IP address that some comma-separated entry names, as an address
    or as a block whose family and first bits it shares.  A source that is not an
    IP address is refused. *)
Theorem allowlist_exact raw ns addr :
  ParseAllowedSources raw = Some ns →
  allows (newSocksAllowedSources (Some raw)) addr = true
  ↔ TrimSpace raw = []
    ∨ ∃ p ip, p ∈ split_on x2c (TrimSpace raw) ∧ sourceIP addr = Some ip ∧ entry_admits (TrimSpace p) ip.
Proof. apply allowlist_exact_gate. Qed.

Lemma allowlist_exact_witness :
  allows (newSocksAllowedSources (Some (lit "10.0.0.0/8, 192.168.1.7"))) (lit "10.9.8.7:5555") = true
  ∧ allows (newSocksAllowedSources (Some (lit "10.0.0.0/8, 192.168.1.7"))) (lit "192.168.1.8:5555") = false.
Proof.
  split; [|by vm_compute].
  destruct (ParseAllowedSources (lit "10.0.0.0/8, 192.168.1.7")) as [ns|] eqn:H; [|by vm_compute in H].
  apply (proj2 (allowlist_exact _ ns (lit "10.9.8.7:5555") H)). right.
  exists (lit "10.0.0.0/8"), (v4InV6Prefix ++ [x0a; x09; x08; x07]).
  split; [by vm_compute; left|]. split; [by vm_compute|].
  exists [x0a; x00; x00; x00], 8. split_and!; [by vm_compute|done|done| |by left; vm_compute].
  exists [x0a; x09; x08; x07]. by split; vm_compute.
Defined.

