(* ===== verification/SocksSafety.v ===== *)
(** * What the SOCKS5 front end guarantees

    Theorems about Socks.v: which client byte streams are accepted, what a
    client sees in every case and who may start a session. *)
From S2P Require Export Socks Allowlist.
#[local] Open Scope Z_scope.

(** ** Inversion of the exchange *)

Lemma io_bind_Ok {A B} (m : io A) (f : A → io B) c b c' :
  (m ≫= f) c = (Ok b, c') ↔ ∃ a c1, m c = (Ok a, c1) ∧ f a c1 = (Ok b, c').
Proof.
  unfold mbind, io_mbind. destruct (m c) as [[a|e] c1]; [naive_solver|].
  split; [done|]. by intros (? & ? & ? & _).
Qed.

Lemma readFull_Ok n c l c' :
  readFull n c = (Ok l, c') → c_in c = l ++ c_in c' ∧ length l = n ∧ c_out c' = c_out c ∧ c_room c' = c_room c.
Proof.
  unfold readFull. destruct (ReadFull n (c_in c)) as [[x r]|e] eqn:H; [|done].
  intros [= -> <-]. by apply ReadFull_Ok in H as [-> <-].
Qed.

Lemma readFull_app n l c rest :
  c_in c = l ++ rest → length l = n → readFull n c = (Ok l, c <| c_in := rest |>).
Proof. intros H Hl. unfold readFull. by rewrite H, ReadFull_app. Qed.

Lemma Write_Ok p c c' : Write p c = (true, c') → c_in c' = c_in c ∧ c_out c' = c_out c ++ p.
Proof.
  unfold Write. destruct (c_room c); [case_decide|]; intros [= <-]; done.
Qed.

Lemma write_Ok p c c' : write p c = (Ok (), c') → c_in c' = c_in c ∧ c_out c' = c_out c ++ p.
Proof.
  unfold write. destruct (Write p c) as [[] c1] eqn:H; [|done]. intros [= <-]. by apply Write_Ok.
Qed.

Lemma readDestination_Ok t c d c' :
  readDestination t c = (Ok d, c') → ReadDestinationEx (c_in c) t = Ok (d, c_in c') ∧ c_out c' = c_out c.
Proof.
  unfold readDestination. destruct (ReadDestinationEx _ _) as [[x r]|e] eqn:H; [|done]. by intros [= -> <-].
Qed.

Ltac io_inv :=
  repeat match goal with
  | H : (_ ≫= _) _ = (Ok _, _) |- _ =>
      apply io_bind_Ok in H; destruct H as (? & ? & H & ?)
  | H : readFull _ _ = (Ok _, _) |- _ => apply readFull_Ok in H; destruct H as (? & ? & ? & ?)
  | H : write _ _ = (Ok _, _) |- _ => apply write_Ok in H; destruct H as (? & ?)
  | H : fail _ _ = (Ok _, _) |- _ => discriminate H
  | H : mret _ _ = (Ok _, _) |- _ => unfold mret, io_mret in H; injection H as ? ?; subst
  | x : unit |- _ => destruct x
  end.

(** ** The bytes of a client *)

Definition greeting (methods : list byte) : list byte := x05 :: zb (Z.of_nat (length methods)) :: methods.

Definition wireCreds (u p : gostring) : list byte :=
  x01 :: zb (Z.of_nat (length u)) :: u ++ zb (Z.of_nat (length p)) :: p.

Definition credBytes (creds : socksCredentials) : list byte :=
  if enabled creds then wireCreds (user creds) (pass creds) else [].

(** The pair fits the one-byte length fields, and the user name is not empty. *)
Definition encodable (creds : socksCredentials) : Prop :=
  enabled creds = true → (0 < length (user creds) ≤ 255)%nat ∧ (length (pass creds) ≤ 255)%nat.

(** What the server answers up to the request. *)
Definition replies (creds : socksCredentials) : list byte :=
  if enabled creds then [x05; x02; x01; x00] else [x05; x00].

Definition methodsOK (creds : socksCredentials) (methods : list byte) : Prop :=
  if enabled creds then x02 ∈ methods else x00 ∈ methods.

(** A complete request: the client's bytes [i], the destination and the bytes
    left for the relay. *)
Definition request (creds : socksCredentials) (i : list byte) (d : Destination) (rest : list byte) : Prop :=
  ∃ methods rsv atype a,
    (length methods ≤ 255)%nat ∧ methodsOK creds methods ∧ encodable creds
    ∧ i = greeting methods ++ credBytes creds ++ [x05; x01; rsv; atype] ++ a
    ∧ ReadDestinationEx a (bz atype) = Ok (d, rest).

Lemma offered_elem ms m : offered ms m = true ↔ m ∈ ms.
Proof.
  unfold offered. rewrite existsb_exists. setoid_rewrite beqb_true. rewrite list_elem_of_In.
  split; [by intros (x & Hx & ->)|]. intros H. by exists m.
Qed.

Lemma selectMethod_Some e ms m :
  selectMethod e ms = Some m ↔ (if e then m = x02 ∧ x02 ∈ ms else m = x00 ∧ x00 ∈ ms).
Proof.
  unfold selectMethod, socksMethodUserPass, socksMethodNoAuth.
  pose proof (offered_elem ms x02). pose proof (offered_elem ms x00). destruct e; cbn [andb negb].
  - rewrite andb_false_r. destruct (offered ms x02); naive_solver.
  - rewrite andb_true_r. destruct (offered ms x00); naive_solver.
Qed.

Lemma lengthByte_len (l : list byte) : (length l ≤ 255)%nat → Z.to_nat (bz (zb (Z.of_nat (length l)))) = length l.
Proof. intros. rewrite bz_zb, wrapu_id; [lia|]. unfold in_u. lia. Qed.

Lemma lengthByte_le i l : (lengthByte i l ≤ 255)%nat.
Proof. unfold lengthByte. pose proof (bz_range (byteAt i l)). lia. Qed.

Lemma zb_lengthByte i l : zb (Z.of_nat (lengthByte i l)) = byteAt i l.
Proof. unfold lengthByte. pose proof (bz_range (byteAt i l)). rewrite Z2Nat.id by lia. apply zb_bz. Qed.

(** ** Soundness: an accepted client sent a complete request *)

Lemma authNegotiate_Ok u p c c' :
  socksAuthNegotiate u p c = (Ok (), c') →
  c_in c = wireCreds u p ++ c_in c' ∧ c_out c' = c_out c ++ [x01; x00]
  ∧ (0 < length u ≤ 255)%nat ∧ (length p ≤ 255)%nat.
Proof.
  unfold socksAuthNegotiate. intros H. io_inv.
  destruct (beqb (byteAt 0 _) _) eqn:Hv; cbn [negb] in *; io_inv.
  destruct (Nat.eqb_spec (lengthByte 1 x) 0) as [|Hne]; io_inv.
  destruct (socksCredsMatch _ _ _ _) eqn:Hm; cbn [negb] in *; io_inv.
  apply andb_prop in Hm as [Hu Hp]. apply streqb_true in Hu as ->, Hp as ->. apply beqb_true in Hv.
  destruct x as [|v [|ul [|]]]; cbn in *; try done. subst v.
  destruct x3 as [|pl [|]]; cbn in *; try done.
  repeat match goal with H : c_in _ = _ |- _ => rewrite H; clear H end.
  repeat match goal with H : c_out _ = _ |- _ => rewrite H; clear H end.
  unfold wireCreds.
  match goal with H : length u = _ |- _ => rewrite H end.
  match goal with H : length p = _ |- _ => rewrite H end.
  rewrite !zb_lengthByte. cbn. rewrite <- !app_assoc. split_and!; try done; [lia| |];
  apply lengthByte_le.
Qed.

Lemma socksRequest_Ok c d c' :
  socksRequest c = (Ok d, c') →
  ∃ rsv atype, c_out c' = c_out c
  ∧ ∃ a, c_in c = [x05; x01; rsv; atype] ++ a ∧ ReadDestinationEx a (bz atype) = Ok (d, c_in c').
Proof.
  unfold socksRequest. intros H. io_inv.
  destruct (beqb (byteAt 0 _) _) eqn:Hv; cbn [negb orb] in *; io_inv.
  destruct (beqb (byteAt 1 _) _) eqn:Hc; cbn [negb] in *; io_inv.
  apply beqb_true in Hv, Hc.
  destruct x as [|v [|cm [|rsv [|at_ [|]]]]]; cbn in *; try done. subst.
  match goal with E : readDestination _ _ = _ |- _ => apply readDestination_Ok in E as [Hd Ho] end.
  exists rsv, at_. split; [congruence|]. eexists. split; [eassumption|done].
Qed.

(** Whatever happens to the connection's write side: a destination is returned
    only for a complete request, and exactly the replies were written. *)
Lemma negotiate_sound creds c d c' :
  socksNegotiate creds c = (Ok d, c') →
  request creds (c_in c) d (c_in c') ∧ c_out c' = c_out c ++ replies creds.
Proof.
  unfold socksNegotiate. intros H. io_inv.
  destruct (beqb (byteAt 0 _) _) eqn:Hv; cbn [negb] in *; io_inv. apply beqb_true in Hv.
  destruct (selectMethod _ _) as [m|] eqn:Hm; io_inv.
  apply selectMethod_Some in Hm.
  match goal with H : socksRequest _ = _ |- _ => apply socksRequest_Ok in H as (rsv & at_ & Ho & a & Hin & Hd) end.
  destruct x as [|v [|nm [|]]]; cbn [byteAt nth length] in *; try done. subst v.
  match goal with E : length _ = lengthByte 1 _ |- _ => rename E into Hlen end.
  assert (Hle : (length x1 ≤ 255)%nat) by (rewrite Hlen; apply lengthByte_le).
  assert (Hnm : zb (Z.of_nat (length x1)) = nm) by (rewrite Hlen; apply zb_lengthByte).
  unfold request, methodsOK, credBytes, encodable, replies, greeting.
  destruct (enabled creds) eqn:He; destruct Hm as [-> Hm]; cbv zeta in *.
  - match goal with E : (if _ then _ else _) _ = _ |- _ => rename E into Ha end.
    apply authNegotiate_Ok in Ha as (Hi2 & Ho2 & Hu & Hp). split.
    + exists x1, rsv, at_, a. split_and!; try done. rewrite Hnm.
      etrans; [eassumption|]. cbn [app]. do 2 f_equal. etrans; [eassumption|]. f_equal. cbn [app] in *. congruence.
    + rewrite Ho, Ho2. repeat match goal with E : c_out _ = _ |- _ => rewrite E; clear E end.
      by rewrite <- !app_assoc.
  - match goal with E : (if _ then _ else _) _ = _ |- _ => unfold mret, io_mret in E; injection E as <- end. split.
    + exists x1, rsv, at_, a. split_and!; try done. rewrite Hnm.
      etrans; [eassumption|]. cbn [app]. do 2 f_equal. etrans; [eassumption|]. f_equal. cbn [app] in *. congruence.
    + rewrite Ho. repeat match goal with E : c_out _ = _ |- _ => rewrite E; clear E end. done.
Qed.

(** ** Completeness: a complete request is accepted *)

Lemma readFull_bind {A} n l (f : list byte → io A) o r rest :
  length l = n → (readFull n ≫= f) (mkConn (l ++ rest) o r) = f l (mkConn rest o r).
Proof.
  intros Hl. unfold mbind, io_mbind. by rewrite (readFull_app n l _ rest).
Qed.

Lemma write_bind {A} p (f : unit → io A) i o :
  (write p ≫= f) (mkConn i o None) = f () (mkConn i (o ++ p) None).
Proof. done. Qed.

Lemma authNegotiate_complete u p rest o :
  (0 < length u ≤ 255)%nat → (length p ≤ 255)%nat →
  socksAuthNegotiate u p (mkConn (wireCreds u p ++ rest) o None) = (Ok (), mkConn rest (o ++ [x01; x00]) None).
Proof.
  intros Hu Hp. unfold socksAuthNegotiate, wireCreds.
  change ((x01 :: ?n :: ?l) ++ rest) with ([x01; n] ++ l ++ rest). rewrite readFull_bind by done.
  cbn [byteAt nth lengthByte]. unfold lengthByte. cbn [byteAt nth].
  rewrite lengthByte_len by lia.
  destruct (Nat.eqb_spec (length u) 0); [lia|].
  change (beqb x01 socksAuthVersion) with true. cbn [negb].
  rewrite <- app_assoc, readFull_bind by done.
  change ((?n :: ?l) ++ rest) with ([n] ++ l ++ rest). rewrite readFull_bind by done.
  cbn [byteAt nth]. rewrite lengthByte_len, readFull_bind by done.
  unfold socksCredsMatch. by rewrite !(proj2 (streqb_true _ _) eq_refl).
Qed.

Lemma negotiate_complete creds i d rest :
  request creds i d rest →
  socksNegotiate creds (mkConn i [] None) = (Ok d, mkConn rest (replies creds) None).
Proof.
  intros (methods & rsv & at_ & a & Hlen & Hm & Henc & -> & Hd).
  unfold socksNegotiate, greeting.
  change ((x05 :: ?n :: methods) ++ ?l) with ([x05; n] ++ methods ++ l). rewrite readFull_bind by done.
  unfold lengthByte. cbn [byteAt nth]. change (beqb x05 socksVersion) with true. cbn [negb].
  rewrite lengthByte_len, readFull_bind by done.
  assert (Hreq : ∀ o, socksRequest (mkConn ([x05; x01; rsv; at_] ++ a) o None) = (Ok d, mkConn rest o None)).
  { intros o. unfold socksRequest. rewrite readFull_bind by done. cbn [byteAt nth].
    change (negb (beqb x05 socksVersion) || negb (beqb x01 socksCmdConnect)) with false. cbv iota.
    unfold readDestination. cbn [c_in]. by rewrite Hd. }
  unfold methodsOK, encodable, credBytes, replies in *.
  assert (Hsel : selectMethod (enabled creds) methods = Some (if enabled creds then x02 else x00)).
  { apply selectMethod_Some. by destruct (enabled creds). }
  rewrite Hsel. destruct (enabled creds).
  - destruct (Henc eq_refl) as [Hu Hp]. rewrite write_bind.
    change (beqb x02 socksMethodUserPass) with true. cbv iota. unfold mbind at 1, io_mbind at 1.
    rewrite authNegotiate_complete by done. apply Hreq.
  - apply Hreq.
Qed.

Lemma negotiate_exact creds i d c' :
  socksNegotiate creds (mkConn i [] None) = (Ok d, c')
  ↔ ∃ rest, request creds i d rest ∧ c' = mkConn rest (replies creds) None.
Proof.
  split.
  - intros H. pose proof (negotiate_sound _ _ _ _ H) as [Hr _]. cbn in Hr.
    pose proof (negotiate_complete _ _ _ _ Hr) as H'. rewrite H in H'. eexists. split; [done|]. congruence.
  - intros (rest & Hr & ->). by apply negotiate_complete.
Qed.

(** C11: The front end accepts exactly the complete requests: on a connection that
    can be written, a destination is returned if and only if the client sent a
    greeting that offers the method in force, then, with authentication on,
    exactly the configured user name and password, then a CONNECT request for
    that destination; the replies are then fixed and what follows the request
    is left for the relay. *)
Theorem socks_accepts_exactly creds i d c' :
  socksNegotiate creds (mkConn i [] None) = (Ok d, c')
  ↔ ∃ rest, request creds i d rest ∧ c' = mkConn rest (replies creds) None.
Proof. apply negotiate_exact. Qed.

Definition open_creds : socksCredentials := newSocksCredentials (Some (lit "user", lit "secret")).

Definition open_request (password : gostring) : list byte :=
  [x05; x02; x00; x02] ++ wireCreds (lit "user") password
  ++ [x05; x01; x00; x01; x01; x02; x03; x04; x00; x50].

(** ** Every exchange that is refused *)

Lemma io_bind_Err {A B} (m : io A) (f : A → io B) c e c' :
  (m ≫= f) c = (Err e, c') ↔ m c = (Err e, c') ∨ ∃ a c1, m c = (Ok a, c1) ∧ f a c1 = (Err e, c').
Proof. unfold mbind, io_mbind. destruct (m c) as [[a|e'] c1]; naive_solver. Qed.

(** The write side of a connection: what is written and whether writes fail. *)
Definition sent (c : conn) : list byte * option nat := (c_out c, c_room c).

Lemma readFull_sent n c r c' : readFull n c = (r, c') → sent c' = sent c.
Proof. unfold readFull. destruct (ReadFull _ _) as [[? ?]|?]; by intros [= <- <-]. Qed.

Lemma write_sent p c r c' :
  c_room c = None → write p c = (r, c') → r = Ok () ∧ sent c' = (c_out c ++ p, None).
Proof. unfold write, Write, sent. intros Hr. rewrite Hr. cbn. intros [= <- <-]. cbn. by rewrite Hr. Qed.

Lemma tryWrite_sent p c r c' :
  c_room c = None → tryWrite p c = (r, c') → r = Ok () ∧ sent c' = (c_out c ++ p, None).
Proof. unfold tryWrite, Write, sent. intros Hr. rewrite Hr. cbn. intros [= <- <-]. cbn. by rewrite Hr. Qed.

(** [m] fails from [c] only with one of the outputs in [outs]. *)
Definition fails_with {A} (m : io A) (c : conn) (outs : list (list byte)) : Prop :=
  ∀ e c', m c = (Err e, c') → c_out c' ∈ outs.

Lemma fails_bind {A B} (m : io A) (f : A → io B) c outs :
  fails_with m c outs → (∀ a c1, m c = (Ok a, c1) → fails_with (f a) c1 outs) → fails_with (m ≫= f) c outs.
Proof. intros Hm Hf e c' [H|(a & c1 & H & H')]%io_bind_Err; [by eapply Hm|by eapply Hf]. Qed.

Lemma fails_read n c outs : c_out c ∈ outs → fails_with (readFull n) c outs.
Proof. intros Ho e c' H%readFull_sent. injection H as -> _. done. Qed.

Lemma fails_fail {A} e c outs : c_out c ∈ outs → fails_with (fail (A:=A) e) c outs.
Proof. by intros Ho e' c' [= _ <-]. Qed.

Lemma fails_mono {A} (m : io A) c o1 o2 : fails_with m c o1 → (∀ x, x ∈ o1 → x ∈ o2) → fails_with m c o2.
Proof. intros H Hs e c' He. by eapply Hs, H. Qed.

Lemma fails_read_bind {A} n (f : list byte → io A) c o outs :
  sent c = (o, None) → o ∈ outs → (∀ a c1, sent c1 = (o, None) → fails_with (f a) c1 outs) →
  fails_with (readFull n ≫= f) c outs.
Proof.
  intros Ho Hin Hf. apply fails_bind.
  - apply fails_read. by injection Ho as -> _.
  - intros a c1 H%readFull_sent. apply Hf. congruence.
Qed.

Lemma fails_write_bind {A} p (f : unit → io A) c o outs :
  sent c = (o, None) → (∀ c1, sent c1 = (o ++ p, None) → fails_with (f ()) c1 outs) →
  fails_with (write p ≫= f) c outs ∧ fails_with (tryWrite p ≫= f) c outs.
Proof.
  intros [= Ho Hr] Hf. split; apply fails_bind.
  - intros e c' H. by apply write_sent in H as [[=] _].
  - intros [] c1 H. apply write_sent in H as [_ H]; [|done]. apply Hf. congruence.
  - intros e c' H. by apply tryWrite_sent in H as [[=] _].
  - intros [] c1 H. apply tryWrite_sent in H as [_ H]; [|done]. apply Hf. congruence.
Qed.

Lemma fails_last {A} e c o outs : sent c = (o, None) → o ∈ outs → fails_with (fail (A:=A) e) c outs.
Proof. intros [= <- _]. apply fails_fail. Qed.

Ltac fails_step :=
  first [ eapply fails_read_bind; [eassumption|set_solver|intros]
        | eapply fails_write_bind; [eassumption|intros]
        | eapply fails_last; [eassumption|set_solver]
        | case_match ].

Definition reply (code : Z) : list byte := [x05; zb code; x00; x01; x00; x00; x00; x00; x00; x00].

Lemma auth_fails u p c o :
  sent c = (o, None) → fails_with (socksAuthNegotiate u p) c [o; o ++ [x01; x01]].
Proof.
  intros Ho. unfold socksAuthNegotiate. repeat fails_step.
  intros e c' He. apply write_sent in He as [He _]; [done|]. unfold sent in *. congruence.
Qed.

Lemma request_fails c o : sent c = (o, None) → fails_with socksRequest c [o; o ++ reply 7].
Proof.
  intros Ho. unfold socksRequest, socksReply. repeat fails_step.
  intros e c'. unfold readDestination. case_match; [by case_match|]. intros [= _ <-].
  unfold sent in *. simplify_eq. set_solver.
Qed.

(** What a refused client can have received. *)
Definition refusals : list (list byte) :=
  [[]; [x05; xff]; [x05; x00]; [x05; x02]; [x05; x02; x01; x01]; [x05; x02; x01; x00];
   [x05; x00] ++ reply 7; [x05; x02; x01; x00] ++ reply 7].

Lemma auth_sent u p c o r c' :
  sent c = (o, None) → socksAuthNegotiate u p c = (Ok r, c') → sent c' = (o ++ [x01; x00], None).
Proof.
  unfold socksAuthNegotiate. intros Ho H.
  repeat (apply io_bind_Ok in H as (? & ? & ?%readFull_sent & H) || (case_match; [done|])).
  case_match; [by apply io_bind_Ok in H as (? & ? & _ & [=])|].
  match type of H with write _ ?x = _ => assert (Hx : sent x = (o, None)) by congruence end.
  injection Hx as <- Hx. by apply write_sent in H as [_ H].
Qed.

Lemma negotiate_fails creds i : fails_with (socksNegotiate creds) (mkConn i [] None) refusals.
Proof.
  assert (H0 : sent (mkConn i [] None) = ([], None)) by done. revert H0. generalize (mkConn i [] None). intros c H0.
  unfold socksNegotiate, refusals. repeat fails_step; fold refusals.
  - apply beqb_true in H5 as ->. apply fails_bind.
    + eapply fails_mono; [by eapply auth_fails|]. unfold refusals. set_solver.
    + intros [] c3 H5. eapply auth_sent in H5; [|eassumption].
      eapply fails_mono; [by eapply request_fails|]. unfold refusals. set_solver.
  - apply selectMethod_Some in H3. destruct (enabled creds); destruct H3 as [-> _]; [done|].
    change (fails_with socksRequest c2 refusals).
    eapply fails_mono; [by eapply request_fails|]. unfold refusals. set_solver.
Qed.

Lemma session_reply creds sources addr start adopt i :
  (∀ d, 0 ≤ snd (start d) ≤ 255) →
  match handleSOCKS5Conn creds sources addr start adopt (mkConn i [] None) with
  | (None, f, c') => f = ConnClosed ∧ c_out c' ∈ refusals
  | (Some d, f, c') =>
      let code := if snd (start d) =? 255 then 1 else snd (start d) in
      c_out c' = replies creds ++ reply code
      ∧ (f = ConnAdopted ↔ snd (start d) = 0 ∧ fst (start d) = true ∧ adopt = true)
  end.
Proof.
  intros Hst. unfold handleSOCKS5Conn.
  destruct (socksNegotiate creds (mkConn i [] None)) as [[d|e] c1] eqn:Hn.
  - apply negotiate_exact in Hn as (rest & _ & ->).
    destruct (socksSourceGate sources addr).
    + split; [done|]. cbn. unfold replies, refusals. destruct (enabled creds); set_solver.
    + destruct (start d) as [sess status] eqn:Hs. cbn [fst snd]. specialize (Hst d). rewrite Hs in Hst. cbn in Hst.
      set (code := if status =? 255 then 1 else status).
      assert (Hc : code = 0 ↔ status = 0).
      { unfold code. destruct (Z.eqb_spec status 255); lia. }
      destruct (Z.eqb_spec code 0); cbn [negb]; [destruct sess, adopt; cbn [andb]|];
        rewrite Hs; cbn [fst snd]; fold code; split; try done; naive_solver.
  - split; [done|]. by eapply negotiate_fails.
Qed.

(** What a client gets back, on a connection that can be written.  Without a
    session it is closed after one of the fixed refusals, none of which is a
    success reply.  With one, it gets the replies of the negotiation and
    exactly one CONNECT reply: the remote verdict, general failure if there is
    none.  The connection goes to the session exactly when the verdict is
    success and the session adopts it. *)
Theorem socks_reply_truthful creds sources addr start adopt i :
  (∀ d, 0 ≤ snd (start d) ≤ 255) →
  match handleSOCKS5Conn creds sources addr start adopt (mkConn i [] None) with
  | (None, f, c') => f = ConnClosed ∧ c_out c' ∈ refusals
  | (Some d, f, c') =>
      let code := if snd (start d) =? 255 then 1 else snd (start d) in
      c_out c' = replies creds ++ reply code
      ∧ (f = ConnAdopted ↔ snd (start d) = 0 ∧ fst (start d) = true ∧ adopt = true)
  end.
Proof. apply session_reply. Qed.

(** ** Who may start a session *)

(** C12: No session without authorisation: whatever the network does to the replies,
    StartSessionAndWait is called only for a client that sent a complete
    request, which with authentication on contains exactly the configured user
    name and password, and only from a source that the allowlist admits. *)
Theorem socks_session_authorised creds raw ns addr start adopt c d f c' :
  ParseAllowedSources raw = Some ns →
  handleSOCKS5Conn creds (newSocksAllowedSources (Some raw)) addr start adopt c = (Some d, f, c') →
  (∃ rest, request creds (c_in c) d rest)
  ∧ (TrimSpace raw = []
     ∨ ∃ p ip, p ∈ split_on x2c (TrimSpace raw) ∧ sourceIP addr = Some ip ∧ entry_admits (TrimSpace p) ip).
Proof.
  intros Hns. unfold handleSOCKS5Conn.
  destruct (socksNegotiate creds c) as [[d'|e] c1] eqn:Hn; [|done].
  destruct (socksSourceGate _ addr) eqn:Hg; [done|]. destruct (start d') as [sess status] eqn:Hs. intros H.
  assert (d' = d) as -> by (repeat case_match; congruence).
  split; [eexists; by eapply negotiate_sound|].
  apply (allowlist_exact_gate raw ns addr Hns).
  unfold socksSourceGate in Hg. destruct (s_enabled _) eqn:He; cbn [negb] in Hg.
  - by destruct (allows _ addr).
  - unfold allows. by rewrite He.
Qed.

Lemma socks_session_authorised_witness :
  let raw := lit "10.0.0.0/8" in
  let start := (λ _, (true, 0)) : Destination → bool * Z in
  let c := mkConn (open_request (lit "secret")) [] (Some 9%nat) in
  ∃ d c', handleSOCKS5Conn open_creds (newSocksAllowedSources (Some raw)) (lit "10.9.8.7:5555") start true c
          = (Some d, ConnAdopted, c')
  ∧ ∃ rest, request open_creds (c_in c) d rest.
Proof.
  intros raw start c.
  destruct (ParseAllowedSources raw) as [ns|] eqn:H; [|by vm_compute in H].
  do 2 eexists. split; [by vm_compute|].
  eapply (proj1 (socks_session_authorised open_creds raw ns (lit "10.9.8.7:5555") start true c _ ConnAdopted _ H
                   ltac:(vm_compute; reflexivity))).
Defined.

Lemma socks_reply_truthful_witness :
  let start := (λ _, (true, 4)) : Destination → bool * Z in
  c_out (snd (handleSOCKS5Conn open_creds (mkSources false []) (lit "10.9.8.7:5555") start true
                (mkConn (open_request (lit "secret")) [] None)))
  = [x05; x02; x01; x00] ++ [x05; x04; x00; x01; x00; x00; x00; x00; x00; x00].
Proof.
  intros start.
  pose proof (socks_reply_truthful open_creds (mkSources false []) (lit "10.9.8.7:5555") start true
                (open_request (lit "secret")) ltac:(intros d; cbn; lia)) as H.
  vm_compute in H. exact (proj1 H).
Defined.

(** ** A password that can never be sent

    The configuration accepts a password of any length; RFC 1929 can carry 255
    bytes.  With a longer one no client is ever accepted. *)
Lemma socks_long_password_locks_out u p i d c' :
  (255 < length p)%nat → u ≠ [] →
  socksNegotiate (newSocksCredentials (Some (u, p))) (mkConn i [] None) ≠ (Ok d, c').
Proof.
  intros Hp Hu H.
  assert (He : newSocksCredentials (Some (u, p)) = mkCreds true u p).
  { cbn. unfold SocksAuthEnabled. destruct (streqb u []) eqn:E; [by apply streqb_true in E|].
    destruct (streqb p []) eqn:E'; [apply streqb_true in E' as ->; cbn in Hp; lia|done]. }
  rewrite He in H. apply negotiate_sound in H as [(? & ? & ? & ? & _ & _ & Henc & _) _].
  destruct (Henc eq_refl) as [_ Hl]. cbn in Hl. lia.
Qed.
