(* ===== verification/BootstrapSafety.v ===== *)
(** * What a success verdict means

    Theorems about BootstrapUp.v: the verdict of the Germany node is sent once
    and tells the truth, the waits are bounded, and, with the Iran node's
    session and the SOCKS front end, a client that reads a success reply has a
    connected session at the other end. *)
From S2P Require Export NodeSessions SocksSafety.
From S2P Require Import CarrierOps Relay.
#[local] Open Scope Z_scope.

Definition acks (es : list boot_eff) : list Z :=
  omap (λ e, match e with AckSent s => Some s | _ => None end) es.

Section bootstrap.
Context {C : Type} `{!CarrierOps C, !CarrierLaws C}.
Implicit Types n : Node (C := C).

(** ** The waits *)

(** The loop goes on only through signals; the context or the deadline ends it. *)
Lemma wait_ends ts t :
  t ∈ ts → match t_why t with Signal _ => False | _ => True end → waitCarriers (C := C) ts ≠ None.
Proof.
  induction ts as [|t' ts IH]; intros Ht Hw; [by apply elem_of_nil in Ht|]. cbn [waitCarriers].
  destruct (currentIfReadyBoth (t_check t')) as [[u|] [d|]]; try done;
    (destruct (t_why t') eqn:E; [|done..]); apply elem_of_cons in Ht as [->|Ht]; try (by rewrite E in Hw); by apply IH.
Qed.

(** What it returns was ready, both directions in the same state. *)
Lemma wait_returns_ready ts u d :
  waitCarriers (C := C) ts = Some (Ok (u, d)) → ∃ t, t ∈ ts ∧ currentIfReadyBoth (t_check t) = (Some u, Some d).
Proof.
  induction ts as [|t ts IH]; [done|]. cbn [waitCarriers].
  destruct (currentIfReadyBoth (t_check t)) as [[u'|] [d'|]] eqn:E.
  1: { intros [= -> ->]. exists t. split; [left|done]. }
  all: destruct (t_why t); try done; intros (t' & Ht & E')%IH; exists t'; (split; [by right|done]).
Qed.

(** ** The verdict of the Germany node *)

(** The outcome that is a success: the header parses, the target answers, the
    down carrier [downH] is ready and takes the stream, nothing closes the
    session before it is active. *)
Definition connects (dial : gostring → res error connID) (id : Z) (b : bootstrap) n (target : connID) (downH : href) : Prop :=
  ∃ p dest d0 d,
    first b = Some (Some p) ∧ ParseDestinationFromBuf p = Some dest
    ∧ dial (JoinHostPort (Addr dest) (itoa (Port dest))) = Ok target
    ∧ ready b = Ok d0 ∧ downH = default d0 (picked b)
    ∧ handlesT n !! downH = Some d ∧ fst (carrier_register id (h_carrier d)) = true
    ∧ overtaken b = None.

(** A session connected to the target, attached to both carriers and indexed. *)
Record connected (n' : Node (C := C)) n (r : ref) (h downH : href) (id : Z) (target : connID) : Prop := {
  co_active : sstate (heap n' r) = StateActive;
  co_target : TargetConn (heap n' r) = Some target;
  co_up : State <$> UpAtt (heap n' r) = Some (AttAttached, genH n h);
  co_down : State <$> DownAtt (heap n' r) = Some (AttAttached, genH n downH);
  co_index : GetByStream id (store n') = Some r;
  co_stream : ∃ x, handlesT n' !! downH = Some x ∧ carrier_has id (h_carrier x) = true
}.

Lemma ack_status_range e : 0 ≤ bootstrapAckStatus e ≤ 6.
Proof. unfold bootstrapAckStatus. repeat case_match; lia. Qed.

Lemma drop_sent h id status n :
  sentFrames (snd (BootstrapUp.drop h id status n)) = sentFrames n ++ [mkSent h id FrameBootstrapAck (EncodeBootstrapAckPayload status)].
Proof. done. Qed.

Lemma drop_tombstone h id status n x :
  handlesT n !! h = Some x → carrier_ready (h_carrier x) = true → id ≠ 0 →
  ∃ x', handlesT (snd (BootstrapUp.drop h id status n)) !! h = Some x' ∧ carrier_has id (h_carrier x') = true.
Proof.
  intros Hx Hr Hid. unfold BootstrapUp.drop. cbn [snd setCarrier send]. cbn. rewrite list_lookup_alter_eq, Hx. cbn.
  eexists. split; [done|]. cbn. by apply terminate_tombstone.
Qed.

Lemma launch_success r target h downH id b n :
  overtaken b = None → id ≠ 0 →
  (∃ x, handlesT n !! downH = Some x ∧ carrier_has id (h_carrier x) = true) →
  connected (snd (launch r target h downH id b n)) n r h downH id target
  ∧ acks (fst (launch r target h downH id b n)) = [0]
  ∧ sentFrames (snd (launch r target h downH id b n))
    = sentFrames n ++ [mkSent h id FrameBootstrapAck (EncodeBootstrapAckPayload 0)]
  ∧ UpConsumerStarted ∈ fst (launch r target h downH id b n)
  ∧ DownRelayStarted ∈ fst (launch r target h downH id b n).
Proof.
  intros Ho Hid Hx. unfold launch. rewrite Ho.
  set (n1 := putSession r (freshSession target id) n).
  assert (Hh : heap n1 r = freshSession target id) by (cbn; by rewrite bool_decide_true).
  set (n2 := n1 <| store := _ |>). change (heap n2) with (heap n1). rewrite Hh. cbn [Activate freshSession NewSession sstate fst negb].
  split_and!.
  - constructor; cbn [snd]; rewrite ?heap_onSession_same; cbn; rewrite ?bool_decide_true by done; cbn; try done.
    unfold GetByStream, n2. cbn. unfold AddStream. cbn. rewrite bool_decide_true by done. cbn.
    destruct (Z.eqb_spec id 0); [done|]. by rewrite lookup_insert_eq.
  - cbn. by destruct (credits b).
  - done.
  - cbn. destruct (credits b); set_solver.
  - cbn. destruct (credits b); set_solver.
Qed.

Lemma launch_overtaken r target h downH id b n why :
  overtaken b = Some why →
  fst (launch r target h downH id b n) = [SessionStartCounted; AckSent 1]
  ∧ sentFrames (snd (launch r target h downH id b n))
    = sentFrames n ++ [mkSent h id FrameBootstrapAck (EncodeBootstrapAckPayload 1)]
  ∧ sstate (heap (snd (launch r target h downH id b n)) r) = StateClosing
  ∧ td (heap (snd (launch r target h downH id b n)) r) = TdCancel
  ∧ TargetConn (heap (snd (launch r target h downH id b n)) r) = Some target.
Proof.
  intros Ho. unfold launch. rewrite Ho. set (n1 := putSession r (freshSession target id) n).
  set (n2 := n1 <| store := _ |>). set (n3 := onSession r (SClose why) n2).
  assert (E : heap n3 r = Close why (freshSession target id)).
  { unfold n3. rewrite heap_onSession_same. cbn. by rewrite bool_decide_true. }
  assert (Ha : fst (Activate (heap n3 r)) = false) by (rewrite E; cbn; by destruct why).
  rewrite Ha. cbn [negb fst snd]. split_and!; [done|done|..]; rewrite heap_onSession_same;
    change (heap (send ?a ?b ?c ?d n3)) with (heap n3); rewrite E; by destruct why.
Qed.

(** A target that was reached but not connected is not leaked. *)
Definition target_released (r : ref) (es : list boot_eff) (n' : Node (C := C)) : Prop :=
  TargetClosed ∈ es ∨ (td (heap n' r) = TdCancel ∧ sstate (heap n' r) = StateClosing ∧ is_Some (TargetConn (heap n' r))).

(** An outcome that says the failure [s]. *)
Record refused r h id (s : Z) (es : list boot_eff) n n' : Prop := {
  rf_acks : acks es = [s];
  rf_range : 1 ≤ s ≤ 6;
  rf_sent : sentFrames n' = sentFrames n ++ [mkSent h id FrameBootstrapAck (EncodeBootstrapAckPayload s)];
  rf_up : UpConsumerStarted ∉ es;
  rf_down : DownRelayStarted ∉ es;
  rf_target : DialSuccessCounted ∈ es → target_released r es n'
}.

(** What may precede a refusal in the effects. *)
Definition quiet (es : list boot_eff) : Prop :=
  ∀ e, e ∈ es → match e with AckSent _ | UpConsumerStarted | DownRelayStarted => False | _ => True end.

Lemma quiet_cons e es :
  match e with AckSent _ | UpConsumerStarted | DownRelayStarted => False | _ => True end → quiet es → quiet (e :: es).
Proof. intros He H e' [->|Hin]%elem_of_cons; [done|by apply H]. Qed.

Lemma quiet_nil : quiet [].
Proof. by intros e ?%elem_of_nil. Qed.

Lemma quiet_app es1 es2 : quiet es1 → quiet es2 → quiet (es1 ++ es2).
Proof. intros H1 H2 e [He|He]%elem_of_app; [by apply H1|by apply H2]. Qed.

#[local] Hint Resolve quiet_app quiet_cons quiet_nil I : core.

Lemma quiet_acks es : quiet es → acks es = [].
Proof.
  induction es as [|e es IH]; intros H; [done|]. unfold acks in *. cbn.
  pose proof (H e ltac:(left)) as He. rewrite IH; [by destruct e|]. intros e' He'. apply H. by right.
Qed.

Lemma acks_app es1 es2 : acks (es1 ++ es2) = acks es1 ++ acks es2.
Proof. apply omap_app. Qed.

Lemma refused_drop r h id s es n n0 :
  1 ≤ s ≤ 6 → quiet es → (DialSuccessCounted ∈ es → TargetClosed ∈ es) → sentFrames n = sentFrames n0 →
  refused r h id s (es ++ fst (BootstrapUp.drop h id s n)) n0 (snd (BootstrapUp.drop h id s n)).
Proof.
  intros Hs Hq Ht Hn. constructor; cbn [BootstrapUp.drop fst snd].
  - by rewrite acks_app, (quiet_acks es) by done.
  - done.
  - cbn. by rewrite Hn.
  - intros [H%Hq|H]%elem_of_app; [done|set_solver].
  - intros [H%Hq|H]%elem_of_app; [done|set_solver].
  - intros [H%Ht|H]%elem_of_app; [left; set_solver|set_solver].
Qed.

Lemma quiet_dialFailure e : quiet (dialFailure e) ∧ DialSuccessCounted ∉ dialFailure e.
Proof.
  unfold dialFailure, quiet. split; [intros e' He'|]; repeat case_match; set_solver.
Qed.

#[local] Ltac connects_inv :=
  intros ? ? (? & ? & ? & ? & ? & ? & ? & ? & ? & ? & ? & ?); simplify_eq; try congruence;
  repeat match goal with H1 : ?x = Ok _, H2 : ?x = Ok _ |- _ => rewrite H1 in H2; simplify_eq end;
  match goal with
  | H1 : carrier_register _ _ = _, H2 : fst (carrier_register _ _) = true |- _ => by rewrite H1 in H2
  end.

(** Every outcome of a stream with a header is a refusal that does not connect
    or the launch of a session. *)
Lemma bootstrap_outcome dial r h id b n p :
  id ≠ 0 → (∀ d0, ready b = Ok d0 → is_Some (handlesT n !! default d0 (picked b))) → first b = Some (Some p) →
  let '(es, n') := bootstrapUpStream dial r h id b n in
  ((∀ t d, ¬ connects dial id b n t d) ∧ ∃ s, refused r h id s es n n')
  ∨ ∃ t d, connects dial id b n t d ∧ connected n' n r h d id t ∧ acks es = [0]
    ∧ sentFrames n' = sentFrames n ++ [mkSent h id FrameBootstrapAck (EncodeBootstrapAckPayload 0)]
    ∧ UpConsumerStarted ∈ es ∧ DownRelayStarted ∈ es.
Proof.
  intros Hid Hd Hp. unfold bootstrapUpStream. rewrite Hp.
  destruct (ParseDestinationFromBuf p) as [dest|] eqn:Hdest.
  2: { left. split; [connects_inv|]. exists 1.
       apply (refused_drop r h id 1 [] n n); [lia|by auto|set_solver|done]. }
  destruct (dial _) as [t|e] eqn:Hdial.
  2: { left. split; [connects_inv|]. eexists. cbn [prepend].
       apply refused_drop; [|apply quiet_dialFailure| |done].
       - pose proof (ack_status_range (Some e)).
         assert (bootstrapAckStatus (Some e) ≠ 0) by (by intros E%ack_status_success). lia.
       - intros H. by apply quiet_dialFailure in H. }
  destruct (ready b) as [d0|e] eqn:Hr; cbn [prepend fst snd].
  2: { left. split; [connects_inv|]. exists 1. rewrite (assoc_L (++)).
       apply refused_drop; [lia|by auto|set_solver|done]. }
  destruct (Hd d0 eq_refl) as [d Hx]. rewrite Hx. destruct (carrier_register id (h_carrier d)) as [[] d'] eqn:Hreg; cbn [negb].
  2: { left. split; [connects_inv|]. exists 1. cbn [prepend fst snd].
       rewrite (assoc_L (++)). apply refused_drop; [lia|by auto|set_solver|done]. }
  set (downH := default d0 (picked b)) in *. set (n1 := setCarrier downH _ n). cbn [prepend fst snd].
  destruct (overtaken b) as [why|] eqn:Ho.
  - left. split; [connects_inv|]. exists 1.
    destruct (launch_overtaken r t h downH id b n1 why Ho) as (E1 & E2 & E3 & E4 & E5).
    constructor; rewrite ?E1; try done; try lia; try set_solver. intros _. right. by rewrite E5.
  - right. exists t, downH.
    destruct (launch_success r t h downH id b n1 Ho Hid) as (E1 & E2 & E3 & E4 & E5).
    { eexists. unfold n1. cbn. rewrite list_lookup_alter_eq, Hx. cbn. split; [done|]. by apply register_ok in Hreg as [? _]. }
    split_and!; [..|set_solver|set_solver].
    + exists p, dest, d0, d. rewrite Hreg. by split_and!.
    + destruct E1 as [F1 F2 F3 F4 F5 F6]. unfold n1 in F3, F4. rewrite !genH_setCarrier in F3, F4. by constructor.
    + by apply E2.
    + by rewrite E3.
Qed.

(** C6: The Germany node answers every stream that brings a header, once, and its
    verdict is true.  Success says that the target is connected, the session is
    active, attached to both carriers, indexed by the stream, and both relays
    started; every other outcome says a failure, starts no relay, and lets go
    of a target that was reached.  A stream that ends before its header gets no
    answer and changes nothing. *)
Theorem bootstrap_verdict_sound dial r h id b n :
  id ≠ 0 → (∀ d0, ready b = Ok d0 → is_Some (handlesT n !! default d0 (picked b))) →
  let '(es, n') := bootstrapUpStream dial r h id b n in
  match first b with
  | Some (Some _) =>
      ∃ s, acks es = [s] ∧ 0 ≤ s ≤ 6
      ∧ sentFrames n' = sentFrames n ++ [mkSent h id FrameBootstrapAck (EncodeBootstrapAckPayload s)]
      ∧ (s = 0 ↔ (∃ t d, connects dial id b n t d))
      ∧ (s = 0 → (∃ t d, connects dial id b n t d ∧ connected n' n r h d id t)
                 ∧ (UpConsumerStarted ∈ es) ∧ (DownRelayStarted ∈ es))
      ∧ (s ≠ 0 → (UpConsumerStarted ∉ es) ∧ (DownRelayStarted ∉ es)
                 ∧ (DialSuccessCounted ∈ es → target_released r es n'))
  | _ => es = [] ∧ n' = n
  end.
Proof.
  intros Hid Hd. destruct (first b) as [[p|]|] eqn:Hp.
  2,3: by unfold bootstrapUpStream; rewrite Hp.
  pose proof (bootstrap_outcome dial r h id b n p Hid Hd Hp) as H.
  destruct (bootstrapUpStream dial r h id b n) as [es n'].
  destruct H as [(Hno & s & [A R S U D T])|(t & d & Hc & Hcon & A & S & U & D)].
  - exists s. split_and!; try done; try lia. split; [lia|]. intros (t & d & H). by destruct (Hno t d).
  - exists 0. split_and!; try done; [split; [by exists t, d|done]|]. intros _. split; [by exists t, d|done].
Qed.
End bootstrap.

(** ** The verdict at the Iran node *)

Lemma boot_step op s st :
  bootstrapC (sstep op s) = Some (Some st) →
  bootstrapC s = Some (Some st) ∨ st = BootstrapEndedWithoutResult ∨ op = SResolve st.
Proof.
  assert (Hres : ∀ v, bootstrapC (snd (ResolveBootstrap v s)) = Some (Some st) →
                      bootstrapC s = Some (Some st) ∨ st = v).
  { intros v. unfold ResolveBootstrap. destruct (bootstrapC s) as [[x|]|] eqn:E; cbn; rewrite ?E; naive_solver. }
  destruct op as [| |v| |fn|dir w| |c|w| | |[] op|]; cbn [sstep]; try (by auto).
  - unfold Activate. destruct (sstate s); auto.
  - unfold SetBootstrapChannel. destruct (open s), (bootstrapC s) eqn:E; cbn; rewrite ?E; auto; done.
  - intros [?| ->]%Hres; auto.
  - unfold WaitBootstrap. destruct (bootstrapC s) as [[]|] eqn:E; cbn; rewrite ?E; auto; done.
  - unfold OnClose. destruct (open s); auto.
  - unfold MarkDirClosed, setReason. destruct (sstate s); auto. destruct (DirClosed dir s); auto.
    destruct dir; cbn; destruct (Session.reason s); cbn; case_match; auto.
  - unfold Session.flushPending, closeAtt. destruct (Session.pending s) as [|[] ?]; auto.
  - unfold AdoptConn. destruct (open s); auto.
  - unfold Close, setReason. destruct (sstate s); auto; cbn; destruct (Session.reason s); auto.
  - unfold teardown. destruct (td s) as [|[]| | | | | | | |[|? ?]| | |]; auto; cbn.
    + intros [?| ->]%Hres; auto.
    + unfold closeConn. destruct (ClientConn s); auto.
    + unfold closeConn. destruct (TargetConn s); auto.
Qed.

(** A verdict in the channel was sent by the peer, or by the teardown. *)
Lemma boot_resolved os s st :
  bootstrapC (srun os s) = Some (Some st) →
  bootstrapC s = Some (Some st) ∨ st = BootstrapEndedWithoutResult ∨ SResolve st ∈ os.
Proof.
  revert s. induction os as [|op os IH]; intros s H; [by left|]. cbn [srun foldl] in H.
  change (bootstrapC (srun os (sstep op s)) = Some (Some st)) in H.
  destruct (IH _ H) as [Hs|[ -> |Hin]]; [|by right; left|by right; right; right].
  destruct (boot_step op s st Hs) as [?|[?| ->]]; [by left|by right; left|right; right; left].
Qed.

(** What the wait returns: general failure, no result, or a verdict sent. *)
Lemma wait_verdict started os s :
  Session.bootstrapC s = Some None →
  startSessionAndWait started (srun os s) ∈ [1; 255]
  ∨ SResolve (startSessionAndWait started (srun os s)) ∈ os.
Proof.
  intros Hs. unfold startSessionAndWait, WaitBootstrap, BootstrapEndedWithoutResult.
  destruct started; [left; set_solver|]. destruct (bootstrapC (srun os s)) as [[st|]|] eqn:E; cbn; [|left; set_solver..].
  destruct (boot_resolved os s st E) as [?|[ -> |?]]; [congruence|left; unfold BootstrapEndedWithoutResult; set_solver|by right].
Qed.

(** C5: From the client's SOCKS request to the target: a client that reads a success
    reply has a connected session.  [hdr] is the header the Iran node wrote for
    the requested destination, [os] what happens to its session until the wait
    returns; the verdicts in it are those the Germany node sent. *)
Theorem success_reply_means_connected {C : Type} `{!CarrierOps C, !CarrierLaws C}
    creds sources addr adopt i d f c' started os s0 hdr dial r h id b (n : Node (C := C)) :
  bootstrapC s0 = Some None →
  handleSOCKS5Conn creds sources addr (λ _, (true, startSessionAndWait started (srun os s0))) adopt (mkConn i [] None)
    = (Some d, f, c') →
  c_out c' = replies creds ++ reply 0 →
  in_u 16 (Port d) → WriteDestination d = (hdr, None) → first b = Some (Some hdr) →
  (∀ st, SResolve st ∈ os → st ∈ acks (fst (bootstrapUpStream dial r h id b n))) →
  id ≠ 0 → (∀ d0, ready b = Ok d0 → is_Some (handlesT n !! default d0 (picked b))) →
  ∃ t down, dial (JoinHostPort (Addr (canonical d)) (itoa (Port d))) = Ok t
            ∧ connected (snd (bootstrapUpStream dial r h id b n)) n r h down id t.
Proof.
  intros Hb Hh Hc Hport Hw Hf Hos Hid Hd.
  pose proof (bootstrap_outcome dial r h id b n hdr Hid Hd Hf) as Hout.
  destruct (bootstrapUpStream dial r h id b n) as [es n']. cbn [fst snd] in *.
  assert (Hack : ∀ st, st ∈ acks es → 0 ≤ st ≤ 6).
  { destruct Hout as [(_ & s & [A R _ _ _ _])|(_ & _ & _ & _ & A & _)]; rewrite A;
      intros st ->%list_elem_of_singleton; lia. }
  set (v := startSessionAndWait started (srun os s0)) in *.
  assert (Hv : 0 ≤ v ≤ 255 ∧ (v = 0 → 0 ∈ acks es)).
  { destruct (wait_verdict started os s0 Hb) as [Hin|Hin%Hos]; fold v in Hin.
    - apply elem_of_cons in Hin as [ -> | ->%list_elem_of_singleton]; lia.
    - split; [specialize (Hack _ Hin); lia|by intros <-]. }
  destruct Hv as [Hv8 Hv].
  pose proof (session_reply creds sources addr (λ _, (true, v)) adopt i ltac:(intros; cbn; lia)) as Hr.
  rewrite Hh, Hc in Hr. cbn [fst snd] in Hr. destruct Hr as [Hr _]. apply app_inv_head in Hr. unfold reply in Hr.
  injection Hr as Hr. apply (f_equal bz) in Hr. rewrite !bz_zb, !wrapu_id in Hr by (unfold in_u; destruct (v =? 255); lia).
  destruct (Z.eqb_spec v 255) as [|_]; [lia|]. specialize (Hv (eq_sym Hr)).
  destruct Hout as [(_ & s & [A R _ _ _ _])|(t & down & Hcn & Hconn & _)]; [rewrite A in Hv; set_solver by lia|].
  exists t, down. split; [|done]. destruct Hcn as (p & dest & d0 & x & Hp & Hdest & Hdial & _).
  rewrite Hf in Hp. injection Hp as <-. pose proof (WriteDestination_ReadDestination d [] Hport) as Hrt.
  rewrite Hw, app_nil_r in Hrt. destruct Hrt as [_ Hrt]. rewrite decoders_agree, (Hrt eq_refl) in Hdest.
  injection Hdest as <-. rewrite <- Hdial. do 3 f_equal. unfold canonical. by repeat case_match.
Qed.

(** ** Concrete runs *)

(** A Germany node with its up carrier (handle 0) and both down carriers. *)
Definition germany_idle : Node (C := Carrier.CarrierConn) :=
  nrun [NInstall DefaultUpCarrierID DirUp carrier0; NInstall DefaultDownCarrierID DirDown carrier0;
        NInstall SecondDownCarrierID DirDown carrier0] germany0.

(** The request of [open_request] is for 1.2.3.4:80. *)
Definition asked : Destination := mkDest AddrTypeIPv4 (lit "1.2.3.4") 80.
Definition asked_header : list byte := fst (WriteDestination asked).

Definition to_target (hp : gostring) : res error connID :=
  if streqb hp (lit "1.2.3.4:80") then Ok 7%nat else Err (mkErr [ErrTargetDialTimeout] true false []).

Definition boot_on (down : href) : bootstrap := mkBoot (Some (Some asked_header)) (Ok 1%nat) (Some down) None true.

Lemma boot_on_down down d0 :
  (down < 3)%nat → ready (boot_on down) = Ok d0 → is_Some (handlesT germany_idle !! default d0 (picked (boot_on down))).
Proof.
  intros Hd _. apply lookup_lt_is_Some_2. replace (length (handlesT germany_idle)) with 3%nat by (vm_compute; reflexivity).
  exact Hd.
Qed.

Lemma bootstrap_verdict_sound_witness :
  let '(es, n') := bootstrapUpStream to_target 0%nat 0%nat 5 (boot_on 1%nat) germany_idle in
  ∃ s, acks es = [s] ∧ 0 ≤ s ≤ 6
  ∧ sentFrames n' = sentFrames germany_idle ++ [mkSent 0%nat 5 FrameBootstrapAck (EncodeBootstrapAckPayload s)].
Proof.
  pose proof (bootstrap_verdict_sound to_target 0%nat 0%nat 5 (boot_on 1%nat) germany_idle ltac:(lia)
                (λ d0, boot_on_down 1%nat d0 ltac:(lia))) as H.
  destruct (bootstrapUpStream _ _ _ _ _ _) as [es n']. cbn [boot_on first] in H.
  destruct H as (s & A & R & S & _). by exists s.
Defined.

(** The client's session on the Iran side: created, given its channel, resolved
    with the verdict. *)
Definition waiting : Session := snd (SetBootstrapChannel session0).

Lemma success_reply_means_connected_witness :
  ∃ t down, to_target (JoinHostPort (Addr (canonical asked)) (itoa (Port asked))) = Ok t
    ∧ connected (snd (bootstrapUpStream to_target 0%nat 0%nat 5 (boot_on 1%nat) germany_idle))
        germany_idle 0%nat 0%nat down 5 t.
Proof.
  eapply (success_reply_means_connected open_creds (mkSources false []) (lit "10.9.8.7:5555") true
            (open_request (lit "secret")) asked ConnAdopted _ None [SResolve 0] waiting asked_header
            to_target 0%nat 0%nat 5 (boot_on 1%nat) germany_idle).
  - vm_compute. reflexivity.
  - vm_compute. reflexivity.
  - vm_compute. reflexivity.
  - unfold in_u. cbn. lia.
  - vm_compute. reflexivity.
  - reflexivity.
  - intros st H%list_elem_of_singleton. injection H as ->.
    replace (acks _) with [0] by (vm_compute; reflexivity). left.
  - lia.
  - intros d0. apply boot_on_down. lia.
Defined.

(** *** Behaviours worth knowing *)

(** Each side picks its own down carrier for a new stream, and no frame tells
    the other.  When the picks differ, the Germany node reports success and
    writes the download to a carrier on which the Iran node has not registered
    the stream, where its frames are dropped. *)
Example down_picks_may_disagree :
  let iran_node := nrun [NInstall SecondDownCarrierID DirDown carrier0] iran1 in
  let '(es, n') := bootstrapUpStream to_target 0%nat 0%nat 1 (boot_on 2%nat) germany_idle in
  acks es = [0] ∧ idH n' 2%nat = SecondDownCarrierID ∧ down_att n' 0%nat = Some (AttAttached, 3)
  ∧ StreamIDDown (heap iran_node 0%nat) = 1
  ∧ (has_stream 1 <$> (h_carrier <$> handlesT iran_node !! 1%nat)) = Some true
  ∧ idH iran_node 2%nat = SecondDownCarrierID
  ∧ (has_stream 1 <$> (h_carrier <$> handlesT iran_node !! 2%nat)) = Some false.
Proof. vm_compute. repeat split; reflexivity. Qed.

(** Between the end of a carrier's read loop and its loss sweep the readiness
    signal stays up while no carrier is ready: the waiter's select returns at
    once, any number of times. *)
Lemma wait_spins_on_dead_carrier (k : nat) :
  let dead := match Carrier.cstep Carrier.LReadEnd carrier0 with Some c => c | None => carrier0 end in
  let n := nstep (NCarrier 1%nat dead) iran1 in
  let t := BootstrapUp.mkTurn n n (Signal DirDown) in
  select_ok t ∧ waitCarriers (replicate k t) = None.
Proof.
  intros dead n t. split; [vm_compute; split; reflexivity|].
  induction k as [|k IH]; [done|]. cbn [replicate waitCarriers].
  replace (currentIfReadyBoth (t_check t)) with (Some 0%nat, @None href) by (vm_compute; reflexivity). exact IH.
Qed.
