(* ===== verification/Lines.v ===== *)
(** * Lines and words

    [strings.Fields], and the lemmas that read a rendered configuration file
    back line by line ([strings.Split]) and word by word: the renderers of the
    deployment write such files, the manager of the firewall reads them.  The
    numbers in them are read back by [strconv.Atoi]. *)
From S2P Require Export Text.
#[local] Open Scope Z_scope.

(** ** [strings.Fields] *)

Definition flush (cur : gostring) (l : list gostring) : list gostring :=
  match cur with [] => l | _ => reverse cur :: l end.

Fixpoint fields (fuel : nat) (cur s : gostring) : list gostring :=
  match fuel with
  | O => flush cur []
  | S fuel =>
      match strip_one spaces s with
      | Some s' => flush cur (fields fuel [] s')
      | None => match s with [] => flush cur [] | c :: s' => fields fuel (c :: cur) s' end
      end
  end.

Definition Fields (s : gostring) : list gostring := fields (S (length s)) [] s.

(** No white space anywhere. *)
Fixpoint clean (s : gostring) : bool :=
  match strip_one spaces s with
  | Some _ => false
  | None => match s with [] => true | _ :: s => clean s end
  end.

Lemma spaces_nonempty : Forall (λ r : gostring, r ≠ []) spaces.
Proof. repeat constructor; discriminate. Qed.

(** The fuel is enough: a turn removes at least one byte. *)
Lemma fields_fuel f f' cur s : (length s < f)%nat → (length s < f')%nat → fields f cur s = fields f' cur s.
Proof.
  revert f' cur s. induction f as [|f IH]; intros f' cur s Hf Hf'; [lia|]. destruct f' as [|f']; [lia|]. cbn [fields].
  destruct (strip_one spaces s) as [s'|] eqn:E.
  - apply strip_one_shorter in E; [|exact spaces_nonempty]. f_equal. apply IH; lia.
  - destruct s as [|c s]; [done|]. cbn in *. apply IH; lia.
Qed.

(** Fields with a word begun. *)
Definition words (cur s : gostring) : list gostring := fields (S (length s)) cur s.

Lemma fields_space f cur s s' : strip_one spaces s = Some s' → fields (S f) cur s = flush cur (fields f [] s').
Proof. intros E. cbn [fields]. by rewrite E. Qed.

Lemma words_space cur s s' : strip_one spaces s = Some s' → words cur s = flush cur (words [] s').
Proof.
  intros E. unfold words. rewrite (fields_space _ _ _ s') by done. f_equal.
  apply strip_one_shorter in E; [|exact spaces_nonempty]. apply fields_fuel; lia.
Qed.

Lemma words_char cur c s : strip_one spaces (c :: s) = None → words cur (c :: s) = words (c :: cur) s.
Proof. intros E. unfold words. cbn [fields length]. by rewrite E. Qed.

Lemma words_nil cur : words cur [] = flush cur [].
Proof. done. Qed.

(** No encoding of white space goes on with an ASCII byte. *)
Lemma strip_one_app rs s c t :
  Forall (λ r, match r with [] => False | _ :: r => Forall (λ x, ascii [x] = false) r end) rs →
  ascii [c] = true → s ≠ [] → strip_one rs s = None → strip_one rs (s ++ c :: t) = None.
Proof.
  intros Hr Hc Hs. induction Hr as [|r rs Hx _ IH]; cbn [strip_one]; [done|].
  destruct (has_prefix r s) eqn:E; [done|]. intros H.
  assert (has_prefix r (s ++ c :: t) = false) as ->; [|by apply IH].
  destruct r as [|x r]; [done|]. destruct s as [|d s]; [done|]. cbn in *. destruct (beqb x d); [|done]. cbn in *.
  clear -E Hx Hc. revert s E. induction Hx as [|y r Hy _ IH]; intros s E; [done|]. destruct s as [|d s]; cbn in *.
  - destruct (beqb y c) eqn:Ey; [|done]. apply beqb_true in Ey as ->. unfold ascii in *. cbn in *. congruence.
  - destruct (beqb y d); [|done]. cbn in *. by apply IH.
Qed.

Lemma spaces_multi : Forall (λ r, match r with [] => False | _ :: r => Forall (λ x, ascii [x] = false) r end) spaces.
Proof. repeat constructor. Qed.

Lemma words_clean cur w c t : clean w = true → ascii [c] = true → words cur (w ++ c :: t) = words (reverse w ++ cur) (c :: t).
Proof.
  intros Hw Hc. revert cur. induction w as [|d w IH]; intros cur; [done|]. cbn [clean] in Hw.
  destruct (strip_one spaces (d :: w)) eqn:E; [done|]. cbn [app].
  rewrite words_char by (apply (strip_one_app spaces (d :: w)); [exact spaces_multi|done..]).
  rewrite IH by done. by rewrite reverse_cons, <- app_assoc.
Qed.

Lemma words_last cur w : clean w = true → words cur w = flush (reverse w ++ cur) [].
Proof.
  revert cur. induction w as [|d w IH]; intros cur Hw; [done|]. cbn [clean] in Hw.
  destruct (strip_one spaces (d :: w)) eqn:E; [done|]. rewrite words_char, IH by done. by rewrite reverse_cons, <- app_assoc.
Qed.

(** A word of a line. *)
Definition word (w : gostring) : Prop := w ≠ [] ∧ clean w = true.

Lemma flush_word w l : w ≠ [] → flush (reverse w ++ []) l = w :: l.
Proof.
  intros Hw. rewrite app_nil_r. unfold flush. destruct (reverse w) eqn:E; [|by rewrite <- E, reverse_involutive].
  apply (f_equal reverse) in E. by rewrite reverse_involutive in E.
Qed.

Fixpoint join_words (l : list gostring) : gostring :=
  match l with [] => [] | [w] => w | w :: l => w ++ x20 :: join_words l end.

(** The words of a line that was joined from words, behind [n] tabs. *)
Lemma Fields_join n l : Forall word l → Fields (replicate n x09 ++ join_words l) = l.
Proof.
  intros H. unfold Fields. change (words [] (replicate n x09 ++ join_words l) = l).
  induction n as [|n IH]; cbn [replicate app].
  - induction H as [|w l [Hne Hc] Hl IH]; [done|]. destruct l as [|w' l].
    + cbn [join_words]. rewrite words_last by done. by apply flush_word.
    + change (join_words (w :: w' :: l)) with (w ++ x20 :: join_words (w' :: l)).
      rewrite words_clean, (words_space _ _ (join_words (w' :: l))), flush_word by done. by rewrite IH.
  - by rewrite (words_space _ _ (replicate n x09 ++ join_words l)).
Qed.

(** ** [strings.Split] *)

Lemma split_on_free c a : c ∉ a → split_on c a = [a].
Proof.
  induction a as [|d a IH]; cbn; [done|]. intros Hn. destruct (beqb c d) eqn:E.
  - apply beqb_true in E as ->. destruct Hn. left.
  - rewrite IH; [done|]. intros H. apply Hn. by right.
Qed.

Lemma split_on_cons c a b : c ∉ a → split_on c (a ++ c :: b) = a :: split_on c b.
Proof.
  induction a as [|d a IH]; cbn; intros Hn.
  - assert (beqb c c = true) as -> by by apply beqb_true. done.
  - destruct (beqb c d) eqn:E.
    + apply beqb_true in E as ->. destruct Hn. left.
    + rewrite IH; [done|]. intros H. apply Hn. by right.
Qed.

(** A text of lines, each ended by a line feed. *)
Definition unlines (l : list gostring) : gostring := concat (map (λ s, s ++ [x0a]) l).

Lemma split_unlines l : Forall (λ s, x0a ∉ s) l → split_on x0a (unlines l) = l ++ [[]].
Proof.
  induction 1 as [|s l Hs _ IH]; [done|]. unfold unlines in *. cbn [map concat]. rewrite <- app_assoc.
  cbn [app]. rewrite split_on_cons by done. by rewrite IH.
Qed.

(** A clean word has no line feed. *)
Lemma clean_no_feed w : clean w = true → x0a ∉ w.
Proof.
  induction w as [|c w IH]; cbn [clean]; intros H; [by intros ?%elem_of_nil|].
  destruct (strip_one spaces (c :: w)) eqn:E; [done|]. rewrite elem_of_cons. intros [<- | Hin]; [vm_compute in E; discriminate E|by apply IH].
Qed.

Lemma join_no_feed n l : Forall word l → x0a ∉ replicate n x09 ++ join_words l.
Proof.
  intros H. rewrite elem_of_app. intros [Hr%elem_of_replicate|Hj]; [by destruct Hr|].
  induction H as [|w l [_ Hc] Hl IH]; [by rewrite elem_of_nil in Hj|]. pose proof (clean_no_feed w Hc) as Hw.
  destruct l as [|w' l]; [done|]. change (join_words (w :: w' :: l)) with (w ++ x20 :: join_words (w' :: l)) in Hj.
  rewrite elem_of_app, elem_of_cons in Hj. destruct Hj as [?|[?|?]]; [done|done|by apply IH].
Qed.

(** A file of words: what was written on a line is what is read on it. *)
Theorem file_of_words (l : list (nat * list gostring)) :
  Forall (λ x, Forall word (snd x)) l →
  map Fields (split_on x0a (unlines (map (λ x, replicate (fst x) x09 ++ join_words (snd x)) l))) = map snd l ++ [[]].
Proof.
  intros H. rewrite split_unlines.
  - rewrite map_app. f_equal. rewrite map_map. induction H as [|[n ws] l Hw _ IH]; [done|]. cbn [map].
    by rewrite IH, Fields_join.
  - apply Forall_map. eapply Forall_impl; [exact H|]. intros [n ws] Hw. by apply join_no_feed.
Qed.

(** ** Decimal numbers are read back *)

Lemma digits_value_snoc s c acc n :
  digits_value acc s = Some n → is_digit c = true → digits_value acc (s ++ [c]) = Some (n * 10 + (bz c - 48)).
Proof.
  revert acc. induction s as [|d s IH]; cbn; intros acc; [intros [= ->] ->; done|].
  destruct (is_digit d); [apply IH|done].
Qed.

Lemma digit_of d : 0 ≤ d < 10 → bz (zb (48 + d)) = 48 + d.
Proof. intros. rewrite bz_zb, wrapu_id; [done|]. unfold in_u. lia. Qed.

Lemma digit_is d : 0 ≤ d < 10 → is_digit (zb (48 + d)) = true.
Proof. intros. unfold is_digit. rewrite digit_of by done. lia. Qed.

Lemma dec_digits_spec fuel n :
  0 ≤ n < 10 ^ Z.of_nat fuel → (0 < fuel)%nat →
  digits_value 0 (dec_digits fuel n) = Some n ∧ Forall (λ c, is_digit c = true) (dec_digits fuel n) ∧ dec_digits fuel n ≠ [].
Proof.
  revert n. induction fuel as [|fuel IH]; intros n Hn Hf; [lia|]. cbn [dec_digits].
  destruct (Z.ltb_spec n 10).
  - cbn. rewrite digit_is, digit_of by lia. split_and!; [f_equal; lia|by repeat constructor; apply digit_is; lia|done].
  - rewrite Nat2Z.inj_succ, Z.pow_succ_r in Hn by lia.
    pose proof (Z.div_mod n 10 ltac:(lia)) as Hdm. pose proof (Z.mod_pos_bound n 10 ltac:(lia)) as Hm.
    assert (0 < fuel)%nat as Hf' by (destruct fuel; [cbn in Hn; lia|lia]).
    destruct (IH (n / 10)) as (H1 & H2 & H3); [|done|].
    { split; [apply Z.div_pos; lia|apply Z.div_lt_upper_bound; lia]. }
    split_and!.
    + rewrite (digits_value_snoc _ _ _ _ H1) by (apply digit_is; lia). rewrite digit_of by lia. f_equal. lia.
    + apply Forall_app. split; [done|]. repeat constructor. apply digit_is. lia.
    + by destruct (dec_digits fuel (n / 10)).
Qed.

Lemma Itoa_digits n : 0 ≤ n < 2 ^ 63 →
  digits_value 0 (Itoa n) = Some n ∧ Forall (λ c, is_digit c = true) (Itoa n) ∧ Itoa n ≠ [].
Proof.
  intros Hn. unfold Itoa. destruct (Z.ltb_spec n 0); [lia|]. apply dec_digits_spec; lia.
Qed.

Lemma Atoi_Itoa n : 0 ≤ n < 2 ^ 63 → Atoi (Itoa n) = Some n.
Proof.
  intros Hn. destruct (Itoa_digits n Hn) as (Hv & Hd & Hne). unfold Atoi.
  destruct (Itoa n) as [|c s]; [done|]. inversion_clear Hd as [|? ? Hc _].
  assert (beqb c x2d = false ∧ beqb c x2b = false) as [-> ->].
  { split; apply bool_decide_eq_false; intros ->; discriminate. }
  rewrite Hv. cbn. destruct (Z.leb_spec (- 2 ^ 63) n); [|lia]. by destruct (Z.ltb_spec n (2 ^ 63)); [|lia].
Qed.
