(* ===== verification/Config.v ===== *)
(** * The configuration of a splitter (src/internal/config/config.go)

    The environment is a map from variable names to values.  [Load] reads it,
    fills in defaults and reports every problem at once; [Validate] is the part
    that does not read the environment.  A problem is the variable its message
    starts with and the rule that is broken; the texts are not kept.

    [url.Parse], [url.ParseRequestURI] and the lower case of a string that is
    not ASCII are parameters, as is whether the routing rules file can be
    loaded. *)
From S2P Require Export Net Text Auth Socks.
#[local] Open Scope Z_scope.

Definition RoleIran : gostring := lit "iran".
Definition RoleGermany : gostring := lit "germany".
Definition PolicyStaticMode : gostring := lit "static".
Definition PolicyAdaptiveMode : gostring := lit "adaptive".

(** ** Variable names *)

Definition EnvSocksListen := lit "SPLIT_SOCKS_LISTEN".
Definition EnvSocksUser := lit "SPLIT_SOCKS_USER".
Definition EnvSocksPass := lit "SPLIT_SOCKS_PASS".
Definition EnvSocksAllowedSources := lit "SPLIT_SOCKS_ALLOWED_SOURCES".
Definition EnvWsListen := lit "SPLIT_WS_LISTEN".
Definition EnvDownCarrier := lit "SPLIT_DOWN_CARRIER_ADDR".
Definition EnvUpWsUrl := lit "SPLIT_UP_WS_URL".
Definition EnvDownListen := lit "SPLIT_DOWN_LISTEN".
Definition EnvSecret := lit "SPLIT_SECRET".
Definition EnvAllowWeak := lit "SPLIT_ALLOW_WEAK_SECRET".
Definition EnvMetricsPort := lit "SPLIT_METRICS_PORT".
Definition EnvRelayBuf := lit "SPLIT_RELAY_BUF".
Definition EnvQueueBytes := lit "SPLIT_STREAM_QUEUE_BYTES".
Definition EnvQueueFrames := lit "SPLIT_STREAM_QUEUE_FRAMES".
Definition EnvQueueTotal := lit "SPLIT_STREAM_QUEUE_TOTAL_BYTES".
Definition EnvOverflowMs := lit "SPLIT_STREAM_OVERFLOW_MS".
Definition EnvCarrierGrace := lit "SPLIT_CARRIER_GRACE".
Definition EnvReconnectBaseMs := lit "SPLIT_RECONNECT_BASE_MS".
Definition EnvReconnectMaxMs := lit "SPLIT_RECONNECT_MAX_MS".
Definition EnvReconnectWindowMs := lit "SPLIT_RECONNECT_WINDOW_MS".
Definition EnvReconnectClampMs := lit "SPLIT_RECONNECT_CLAMP_MS".
Definition EnvTCPKeepAlive := lit "SPLIT_TCP_KEEPALIVE_MS".
Definition EnvBootstrapWait := lit "SPLIT_BOOTSTRAP_WAIT_MS".
Definition EnvSessionBuf := lit "SPLIT_SESSION_BUFFER_BYTES".
Definition EnvSessionBufTotal := lit "SPLIT_SESSION_BUFFER_TOTAL_BYTES".
Definition EnvLivenessRounds := lit "SPLIT_LIVENESS_ROUNDS".
Definition EnvCreditsEnabled := lit "SPLIT_CREDITS_ENABLED".
Definition EnvTargetOnlyIPv4 := lit "SPLIT_TARGET_ONLY_IPV4".
Definition EnvTargetAddrPolicy := lit "SPLIT_TARGET_ADDR_POLICY".
Definition EnvTargetDialBoundMs := lit "SPLIT_TARGET_DIAL_BOUND_MS".
Definition EnvTargetBreakerEnabled := lit "SPLIT_TARGET_BREAKER_ENABLED".
Definition EnvTargetBreakerWindowMs := lit "SPLIT_TARGET_BREAKER_WINDOW_MS".
Definition EnvTargetBreakerThreshold := lit "SPLIT_TARGET_BREAKER_THRESHOLD".
Definition EnvTargetBreakerCooldownMs := lit "SPLIT_TARGET_BREAKER_COOLDOWN_MS".
Definition EnvTargetBreakerMaxTargets := lit "SPLIT_TARGET_BREAKER_MAX_TARGETS".
Definition EnvTargetDialBackoffEnabled := lit "SPLIT_TARGET_DIAL_BACKOFF_ENABLED".
Definition EnvTargetDialBackoffBaseMs := lit "SPLIT_TARGET_DIAL_BACKOFF_BASE_MS".
Definition EnvTargetDialBackoffMaxMs := lit "SPLIT_TARGET_DIAL_BACKOFF_MAX_MS".
Definition EnvMultiCarrierEnabled := lit "SPLIT_MULTI_CARRIER_ENABLED".
Definition EnvDownListen2 := lit "SPLIT_DOWN_LISTEN_2".
Definition EnvDownCarrierAddr2 := lit "SPLIT_DOWN_CARRIER_ADDR_2".
Definition EnvDownSNI2 := lit "SPLIT_DOWN_CARRIER2_SNI".
Definition EnvPolicyMode := lit "SPLIT_POLICY_MODE".
Definition EnvPolicyTopK := lit "SPLIT_POLICY_TOPK".
Definition EnvProbingEnabled := lit "SPLIT_PROBING_ENABLED".
Definition EnvProbeURL := lit "SPLIT_PROBE_URL".
Definition EnvProbeDailyBudget := lit "SPLIT_PROBE_DAILY_BUDGET".
Definition EnvTTFBBaselineMs := lit "SPLIT_TTFB_BASELINE_MS".
Definition EnvRoutingRulesFile := lit "SPLIT_ROUTING_RULES_FILE".
Definition EnvRoutingDefault := lit "SPLIT_ROUTING_DEFAULT".
Definition EnvWarpSocksAddr := lit "SPLIT_WARP_SOCKS_ADDR".
Definition EnvRoutingDebug := lit "SPLIT_ROUTING_DEBUG".

(** ** Defaults and bounds *)

Definition DefaultUpWsUrl := lit "wss://cdn.example.com/upload".
Definition ExpectedCarrierPath := lit "/upload".
Definition DefaultRelayBuf := 32768.
Definition DefaultKeepAlive := 30 * 10 ^ 9.
Definition MinRelayBuf := 1024.
Definition MaxRelayBuf := Z.shiftl 8 20.
Definition MaxQueueBytesPerStream := Z.shiftl 64 20.
Definition MaxQueueBytesTotal := Z.shiftl 256 20.
Definition MaxOverflowWaitMs := 30000.
Definition MinCarrierGraceMs := 500.
Definition MaxCarrierGraceMs := 600000.
Definition MinBootstrapWaitMs := 500.
Definition MaxBootstrapWaitMs := 120000.
Definition DefaultSessionBuf := Z.shiftl 256 10.
Definition MinSessionBuf := Z.shiftl 4 10.
Definition MaxSessionBuf := Z.shiftl 16 20.
Definition MaxSessionBufTotal := Z.shiftl 512 20.
Definition MaxLivenessRounds := 20.
Definition DefaultProbeDailyBudget := Z.shiftl 96 20.
Definition MaxTTFBBaselineMs := 30000.
Definition MinPolicyTopK := 1.
Definition MaxPolicyTopK := 8.
Definition MinPort := 1.
Definition MaxPort := 65535.
Definition ReservedPort := 8443.
(** [mux.MaxFrames] *)
Definition MaxFrames := 16.

(** ** The configuration *)

Record Config := mkConfig {
  SocksListen : gostring; WsListen : gostring; DownCarrierAddr : gostring; UpWsUrl : gostring; DownListen : gostring;
  SocksUser : gostring; SocksPass : gostring; SocksAllowedSources : gostring;
  Secret : gostring; AllowWeakSecret : bool;
  MetricsPort : Z; RelayBufSize : Z; KeepAliveInterval : Z;
  QueueBytesPerStream : Z; QueueFramesPerStream : Z; QueueBytesTotal : Z; OverflowWaitMs : Z;
  CarrierGraceMs : Z; ReconnectBaseMs : Z; ReconnectMaxMs : Z; ReconnectWindowMs : Z; ReconnectClampMs : Z;
  TCPKeepAliveMs : Z; BootstrapWaitMs : Z; SessionBufBytes : Z; SessionBufTotal : Z; LivenessRounds : Z;
  CreditsEnabled : bool; TargetOnlyIPv4 : bool; TargetAddrPolicy : gostring;
  MultiCarrierEnabled : bool; DownListen2 : gostring; DownCarrierAddr2 : gostring; DownSNI2 : gostring;
  PolicyMode : gostring; PolicyTopK : Z; ProbingEnabled : bool; ProbeURL : gostring; ProbeDailyBudget : Z; TTFBBaselineMs : Z;
  RoutingRulesFile : gostring; RoutingDefault : gostring; WarpSocksAddr : gostring; RoutingDebug : bool;
  TargetDialBoundMs : Z; TargetBreakerEnabled : bool; TargetBreakerWindowMs : Z; TargetBreakerThreshold : Z;
  TargetBreakerCooldownMs : Z; TargetBreakerMaxTargets : Z; TargetBackoffEnabled : bool; TargetBackoffBaseMs : Z; TargetBackoffMaxMs : Z
}.

#[export] Instance Config_expandable : Expandable Config := {| expand := λ c,
  mkConfig (SocksListen c) (WsListen c) (DownCarrierAddr c) (UpWsUrl c) (DownListen c) (SocksUser c) (SocksPass c)
    (SocksAllowedSources c) (Secret c) (AllowWeakSecret c) (MetricsPort c) (RelayBufSize c) (KeepAliveInterval c)
    (QueueBytesPerStream c) (QueueFramesPerStream c) (QueueBytesTotal c) (OverflowWaitMs c) (CarrierGraceMs c)
    (ReconnectBaseMs c) (ReconnectMaxMs c) (ReconnectWindowMs c) (ReconnectClampMs c) (TCPKeepAliveMs c)
    (BootstrapWaitMs c) (SessionBufBytes c) (SessionBufTotal c) (LivenessRounds c) (CreditsEnabled c) (TargetOnlyIPv4 c)
    (TargetAddrPolicy c) (MultiCarrierEnabled c) (DownListen2 c) (DownCarrierAddr2 c) (DownSNI2 c) (PolicyMode c)
    (PolicyTopK c) (ProbingEnabled c) (ProbeURL c) (ProbeDailyBudget c) (TTFBBaselineMs c) (RoutingRulesFile c)
    (RoutingDefault c) (WarpSocksAddr c) (RoutingDebug c) (TargetDialBoundMs c) (TargetBreakerEnabled c)
    (TargetBreakerWindowMs c) (TargetBreakerThreshold c) (TargetBreakerCooldownMs c) (TargetBreakerMaxTargets c)
    (TargetBackoffEnabled c) (TargetBackoffBaseMs c) (TargetBackoffMaxMs c) |}.

Definition Defaults : Config :=
  mkConfig (lit "127.0.0.1:10900") (lit "127.0.0.1:9001") (lit "127.0.0.1:10802") DefaultUpWsUrl (lit "127.0.0.1:9002")
    [] [] [] (lit "CHANGE-ME-SECRET-USE-A-LONG-RANDOM-STRING") false
    0 DefaultRelayBuf DefaultKeepAlive 0 0 0 0
    5000 1000 10000 30000 2000
    30000 0 DefaultSessionBuf 0 0
    false false (lit "default")
    false [] [] []
    PolicyStaticMode 2 false [] DefaultProbeDailyBudget 0
    [] [] (lit "127.0.0.1:40000") false
    0 false 0 0 0 0 false 0 0.

(** ** Problems *)

Inductive rule :=
| OutOfRange | NotBool | NotInteger | BadHostPort | NeedsHost | HostSpace | BadPort | SameEndpoint | SetTogether
| UserLength | Weak (e : secret_error) | BadSources | Reserved | Placeholder | BadURL | BadScheme | NoHost | BadPath
| MetricsCollision | NotAllowed | Contradiction | TooSmall | Required | BadName | BadRules.

Record problem := mkProblem { variable : gostring; broken : rule }.

Definition when (b : bool) (name : gostring) (r : rule) : list problem := if b then [mkProblem name r] else [].

(** ** Endpoints *)

Definition contains_any (cs s : gostring) : bool := existsb (λ c, has_char c s) cs.

Definition checkHostPort (name addr : gostring) (requireHost : bool) : list problem :=
  match net_SplitHostPort addr with
  | None => [mkProblem name BadHostPort]
  | Some (host, port) =>
      if requireHost && streqb host [] then [mkProblem name NeedsHost]
      else if contains_any [x20; x09; x0a] host then [mkProblem name HostSpace]
      else match Atoi port with
           | None => [mkProblem name BadPort]
           | Some p => when ((p <? MinPort) || (MaxPort <? p)) name BadPort
           end
  end.

Definition portOf (addr : gostring) : option (gostring * Z) :=
  match net_SplitHostPort addr with
  | None => None
  | Some (host, port) => match Atoi port with None => None | Some p => Some (host, p) end
  end.

Definition checkNotReservedCarrierPort (name addr : gostring) : list problem :=
  match portOf addr with None => [] | Some (_, p) => when (p =? ReservedPort) name Reserved end.

Definition bindsEverything (host : gostring) : bool :=
  bool_decide (host ∈ [[]; lit "0.0.0.0"; lit "::"; lit "[::]"]).

Definition conflict (a b : gostring) : bool :=
  match portOf a, portOf b with
  | Some (ah, ap), Some (bh, bp) =>
      if negb (ap =? bp) then false
      else if streqb ah bh then true
      else bindsEverything ah || bindsEverything bh
  | _, _ => false
  end.

(** [pairing.validSNI]: a host name of at least two labels in lower case. *)
Definition sni_char (c : byte) : bool := is_lower c || is_digit c || beqb c x2d.
Definition sni_label (l : gostring) : bool :=
  negb (streqb l []) && (length l <=? 63)%nat && negb (has_prefix [x2d] l || has_suffix l [x2d]) && forallb sni_char l.

Definition ValidSNI (s : gostring) : bool :=
  if streqb s [] || (253 <? length s)%nat then false
  else if (match ParseIP s with Some _ => true | None => false end) then false
  else if contains_any (lit " " ++ [x09; x0a] ++ lit ":/_") s then false
  else let labels := split_on x2e s in
       if (length labels <? 2)%nat then false else forallb sni_label labels.

(** ** Validation *)

Section config.
(** [url_Parse], [url_ParseRequestURI]: scheme, host and path of a URL. *)
Context (unicode_lower : gostring → gostring)
        (url_Parse url_ParseRequestURI : gostring → option (gostring * gostring * gostring))
        (LoadRulesFile : gostring → bool).

Definition checkSecret (name secret : gostring) (allowWeak : bool) : list problem :=
  match ValidateSecretMaterial unicode_lower secret allowWeak with None => [] | Some e => [mkProblem name (Weak e)] end.

Definition checkWsUrl (raw : gostring) : list problem :=
  if streqb raw DefaultUpWsUrl then [mkProblem EnvUpWsUrl Placeholder]
  else match url_Parse raw with
       | None => [mkProblem EnvUpWsUrl BadURL]
       | Some (scheme, host, path) =>
           if negb (streqb scheme (lit "ws")) && negb (streqb scheme (lit "wss")) then [mkProblem EnvUpWsUrl BadScheme]
           else if streqb host [] then [mkProblem EnvUpWsUrl NoHost]
           else when (negb (streqb path ExpectedCarrierPath)) EnvUpWsUrl BadPath
       end.

Definition checkSocksAllowedSources (raw : gostring) : list problem :=
  when (match ParseAllowedSources raw with None => true | Some _ => false end) EnvSocksAllowedSources BadSources.

Definition checkRouting (c : Config) : list problem :=
  if streqb (RoutingRulesFile c) [] then []
  else
    when (negb (streqb (RoutingDefault c) []) && negb (streqb (RoutingDefault c) (lit "direct"))
          && negb (streqb (RoutingDefault c) (lit "warp"))) EnvRoutingDefault NotAllowed
    ++ (if streqb (WarpSocksAddr c) [] then [] else checkHostPort EnvWarpSocksAddr (WarpSocksAddr c) true)
    ++ when (negb (LoadRulesFile (RoutingRulesFile c))) EnvRoutingRulesFile BadRules.

Definition validateSocksAuth (c : Config) : list problem :=
  if negb (streqb (SocksUser c) []) || negb (streqb (SocksPass c) []) then
    if streqb (SocksUser c) [] || streqb (SocksPass c) [] then [mkProblem EnvSocksUser SetTogether]
    else when ((length (SocksUser c) <? 1)%nat || (255 <? length (SocksUser c))%nat) EnvSocksUser UserLength
         ++ checkSecret EnvSocksPass (SocksPass c) (AllowWeakSecret c)
  else [].

Definition validateIran (c : Config) : list problem :=
  checkHostPort EnvSocksListen (SocksListen c) true
  ++ checkHostPort EnvWsListen (WsListen c) false
  ++ checkHostPort EnvDownCarrier (DownCarrierAddr c) true
  ++ when (conflict (SocksListen c) (WsListen c)) EnvSocksListen SameEndpoint
  ++ validateSocksAuth c
  ++ checkSocksAllowedSources (SocksAllowedSources c)
  ++ (if MultiCarrierEnabled c then
        checkHostPort EnvDownCarrierAddr2 (DownCarrierAddr2 c) true
        ++ when (negb (streqb (DownCarrierAddr2 c) []) && streqb (DownCarrierAddr2 c) (DownCarrierAddr c))
             EnvDownCarrierAddr2 SameEndpoint
      else []).

Definition validateGermany (c : Config) : list problem :=
  checkWsUrl (UpWsUrl c)
  ++ checkHostPort EnvDownListen (DownListen c) false
  ++ checkNotReservedCarrierPort EnvDownListen (DownListen c)
  ++ (if MultiCarrierEnabled c then
        checkHostPort EnvDownListen2 (DownListen2 c) true
        ++ checkNotReservedCarrierPort EnvDownListen2 (DownListen2 c)
        ++ when (negb (streqb (DownListen2 c) []) && conflict (DownListen c) (DownListen2 c)) EnvDownListen SameEndpoint
        ++ (if streqb (DownSNI2 c) [] then [mkProblem EnvDownSNI2 Required]
            else when (negb (ValidSNI (DownSNI2 c))) EnvDownSNI2 BadName)
      else [])
  ++ checkRouting c.

Definition roleOwnedEndpoints (role : gostring) (c : Config) : list gostring :=
  if streqb role RoleIran then [SocksListen c; WsListen c] else [DownListen c].

Definition metricsAddr (c : Config) : gostring := lit "127.0.0.1:" ++ Itoa (MetricsPort c).

Definition validateMetrics (role : gostring) (c : Config) : list problem :=
  if 0 <? MetricsPort c then
    concat (map (λ ep, when (conflict (metricsAddr c) ep) EnvMetricsPort MetricsCollision) (roleOwnedEndpoints role c))
  else [].

(** A value outside [lo..hi]. *)
Definition outside (lo hi v : Z) : bool := (v <? lo) || (hi <? v).

Definition validateBounds (c : Config) : list problem :=
  when (outside 0 MaxPort (MetricsPort c)) EnvMetricsPort OutOfRange
  ++ when ((RelayBufSize c <? 0) || ((0 <? RelayBufSize c) && (MaxRelayBuf <? RelayBufSize c))) EnvRelayBuf OutOfRange
  ++ when (outside 0 MaxQueueBytesPerStream (QueueBytesPerStream c)) EnvQueueBytes OutOfRange
  ++ when (outside 0 MaxFrames (QueueFramesPerStream c)) EnvQueueFrames OutOfRange
  ++ when (outside 0 MaxQueueBytesTotal (QueueBytesTotal c)) EnvQueueTotal OutOfRange
  ++ when (outside 0 MaxOverflowWaitMs (OverflowWaitMs c)) EnvOverflowMs OutOfRange
  ++ when (outside MinCarrierGraceMs MaxCarrierGraceMs (CarrierGraceMs c)) EnvCarrierGrace OutOfRange
  ++ when ((negb (BootstrapWaitMs c =? 0) && (BootstrapWaitMs c <? MinBootstrapWaitMs)) || (MaxBootstrapWaitMs <? BootstrapWaitMs c))
       EnvBootstrapWait OutOfRange
  ++ when (outside 0 MaxLivenessRounds (LivenessRounds c)) EnvLivenessRounds OutOfRange
  ++ when (outside MinSessionBuf MaxSessionBuf (SessionBufBytes c)) EnvSessionBuf OutOfRange
  ++ when (outside 0 MaxSessionBufTotal (SessionBufTotal c)) EnvSessionBufTotal OutOfRange.

Definition validateTarget (c : Config) : list problem :=
  when (negb (bool_decide (TargetAddrPolicy c ∈ [[]; lit "default"; lit "prefer-ipv4"; lit "ipv4-only"])))
    EnvTargetAddrPolicy NotAllowed
  ++ when (TargetOnlyIPv4 c && streqb (TargetAddrPolicy c) (lit "prefer-ipv4")) EnvTargetOnlyIPv4 Contradiction.

Definition validateQueues (c : Config) : list problem :=
  when ((0 <? QueueBytesPerStream c) && (0 <? QueueBytesTotal c) && (QueueBytesTotal c <? QueueBytesPerStream c))
    EnvQueueTotal TooSmall.

Definition validatePolicy (c : Config) : list problem :=
  if MultiCarrierEnabled c then
    when (negb (streqb (PolicyMode c) PolicyStaticMode) && negb (streqb (PolicyMode c) PolicyAdaptiveMode)) EnvPolicyMode NotAllowed
    ++ when (outside MinPolicyTopK MaxPolicyTopK (PolicyTopK c)) EnvPolicyTopK OutOfRange
    ++ when (ProbeDailyBudget c <? 0) EnvProbeDailyBudget OutOfRange
    ++ when (outside 0 MaxTTFBBaselineMs (TTFBBaselineMs c)) EnvTTFBBaselineMs OutOfRange
    ++ when (ProbingEnabled c && streqb (TrimSpace (ProbeURL c)) []) EnvProbeURL Required
    ++ (if ProbingEnabled c && negb (streqb (ProbeURL c) []) then
          match url_ParseRequestURI (ProbeURL c) with
          | None => [mkProblem EnvProbeURL BadURL]
          | Some (scheme, host, _) =>
              when (streqb scheme [] || streqb host [] || (negb (streqb scheme (lit "http")) && negb (streqb scheme (lit "https"))))
                EnvProbeURL BadURL
          end
        else [])
  else [].

Inductive config_error := NoRole | UnknownRole | Problems (l : list problem).

Definition problemsOf (role : gostring) (c : Config) : list problem :=
  (if streqb role RoleIran then validateIran c else validateGermany c)
  ++ validateMetrics role c ++ validateBounds c ++ validateTarget c ++ validateQueues c ++ validatePolicy c
  ++ checkSecret EnvSecret (Secret c) (AllowWeakSecret c).

Definition Validate (role : gostring) (c : Config) : option config_error :=
  if negb (streqb role RoleIran) && negb (streqb role RoleGermany) then Some (if streqb role [] then NoRole else UnknownRole)
  else match problemsOf role c with [] => None | l => Some (Problems l) end.

(** ** Loading *)

Definition env := gmap gostring gostring.

Definition LookupEnv (e : env) (name : gostring) : option gostring :=
  match e !! name with Some v => if streqb v [] then None else Some v | None => None end.

Definition envString (e : env) (name def : gostring) : gostring := default def (LookupEnv e name).

(** A value with the problems of reading it. *)
Definition W (A : Type) : Type := A * list problem.
#[local] Instance W_ret : MRet W := λ A a, (a, []).
#[local] Instance W_bind : MBind W := λ A B f m, let '(a, l) := m in let '(b, l') := f a in (b, l ++ l').

Definition envInt (e : env) (name : gostring) (def min max : Z) : W Z :=
  match LookupEnv e name with
  | None => (def, [])
  | Some v => match Atoi v with
              | None => (def, [mkProblem name OutOfRange])
              | Some n => if (n <? min) || (max <? n) then (def, [mkProblem name OutOfRange]) else (n, [])
              end
  end.

Definition envBool (e : env) (name : gostring) (def : bool) : W bool :=
  match LookupEnv e name with
  | None => (def, [])
  | Some v => match ParseBool v with None => (def, [mkProblem name NotBool]) | Some b => (b, []) end
  end.

Definition envInt64 (e : env) (name : gostring) (def : Z) : W Z :=
  match LookupEnv e name with
  | None => (def, [])
  | Some v => match Atoi v with None => (def, [mkProblem name NotInteger]) | Some n => (n, []) end
  end.

(** Everything but the secret's bypass. *)
Definition readEnv (e : env) : W Config :=
  let d := Defaults in
  metrics ← envInt e EnvMetricsPort 0 0 MaxPort;
  relay ← envInt e EnvRelayBuf DefaultRelayBuf MinRelayBuf MaxRelayBuf;
  qbytes ← envInt e EnvQueueBytes 0 0 MaxQueueBytesPerStream;
  qframes ← envInt e EnvQueueFrames 0 0 MaxFrames;
  qtotal ← envInt e EnvQueueTotal 0 0 MaxQueueBytesTotal;
  overflow ← envInt e EnvOverflowMs 0 0 MaxOverflowWaitMs;
  grace ← envInt e EnvCarrierGrace 5000 MinCarrierGraceMs MaxCarrierGraceMs;
  rbase ← envInt e EnvReconnectBaseMs 1000 100 60000;
  rmax ← envInt e EnvReconnectMaxMs 10000 100 300000;
  rwindow ← envInt e EnvReconnectWindowMs 30000 0 600000;
  rclamp ← envInt e EnvReconnectClampMs 2000 0 300000;
  keepalive ← envInt e EnvTCPKeepAlive 30000 0 36000000;
  bootstrap ← envInt e EnvBootstrapWait 0 0 MaxBootstrapWaitMs;
  sbuf ← envInt e EnvSessionBuf DefaultSessionBuf MinSessionBuf MaxSessionBuf;
  stotal ← envInt e EnvSessionBufTotal 0 0 MaxSessionBufTotal;
  liveness ← envInt e EnvLivenessRounds 0 0 MaxLivenessRounds;
  credits ← envBool e EnvCreditsEnabled false;
  only4 ← envBool e EnvTargetOnlyIPv4 false;
  multi ← envBool e EnvMultiCarrierEnabled false;
  topk ← envInt e EnvPolicyTopK 2 MinPolicyTopK MaxPolicyTopK;
  probing ← envBool e EnvProbingEnabled false;
  budget ← envInt64 e EnvProbeDailyBudget DefaultProbeDailyBudget;
  ttfb ← envInt e EnvTTFBBaselineMs 0 0 MaxTTFBBaselineMs;
  rdebug ← envBool e EnvRoutingDebug false;
  bound ← envInt e EnvTargetDialBoundMs 0 0 120000;
  breaker ← envBool e EnvTargetBreakerEnabled false;
  bwindow ← envInt e EnvTargetBreakerWindowMs 0 0 3600000;
  bthreshold ← envInt e EnvTargetBreakerThreshold 0 0 100000;
  bcooldown ← envInt e EnvTargetBreakerCooldownMs 0 0 3600000;
  btargets ← envInt e EnvTargetBreakerMaxTargets 0 0 100000;
  backoff ← envBool e EnvTargetDialBackoffEnabled false;
  bbase ← envInt e EnvTargetDialBackoffBaseMs 0 0 60000;
  bmax ← envInt e EnvTargetDialBackoffMaxMs 0 0 300000;
  mret (mkConfig
    (envString e EnvSocksListen (SocksListen d)) (envString e EnvWsListen (WsListen d))
    (envString e EnvDownCarrier (DownCarrierAddr d)) (envString e EnvUpWsUrl (UpWsUrl d))
    (envString e EnvDownListen (DownListen d)) (envString e EnvSocksUser (SocksUser d))
    (envString e EnvSocksPass (SocksPass d)) (envString e EnvSocksAllowedSources [])
    (envString e EnvSecret (Secret d)) (AllowWeakSecret d)
    metrics relay (KeepAliveInterval d) qbytes qframes qtotal overflow
    grace rbase rmax rwindow rclamp keepalive bootstrap sbuf stotal liveness
    credits only4 (envString e EnvTargetAddrPolicy (lit "default"))
    multi (envString e EnvDownListen2 (DownListen2 d)) (envString e EnvDownCarrierAddr2 (DownCarrierAddr2 d))
    (envString e EnvDownSNI2 (DownSNI2 d))
    (envString e EnvPolicyMode PolicyStaticMode) topk probing (envString e EnvProbeURL (ProbeURL d)) budget ttfb
    (envString e EnvRoutingRulesFile (RoutingRulesFile d)) (envString e EnvRoutingDefault (RoutingDefault d))
    (envString e EnvWarpSocksAddr (lit "127.0.0.1:40000")) rdebug
    bound breaker bwindow bthreshold bcooldown btargets backoff bbase bmax).

Definition Load (role : gostring) (e : env) : res config_error Config :=
  if negb (streqb role RoleIran) && negb (streqb role RoleGermany) then Err UnknownRole
  else
    let '(c, problems) := readEnv e in
    let '(weak, problems') := envBool e EnvAllowWeak (AllowWeakSecret c) in
    let c := c <| AllowWeakSecret := weak |> in
    match problems ++ problems' ++ problemsOf role c with
    | [] => Ok c
    | l => Err (Problems l)
    end.
End config.
