(* ===== verification/EnvFile.v ===== *)
(** * The environment file of a deployment

    The configuration travels from an install request to the splitter through
    the protected env file: [Env] (src/internal/deploy/request.go) projects it to
    variables, [validateEnvKV] and [renderEnvFile]
    (src/internal/systemd/envfile.go) check and write them, [Config.Load] reads
    them back.  The three agree, up to one bound ([env_gate_sound]); what is not
    projected is lost ([config_delivered]). *)
From S2P Require Export Lines Config.
#[local] Open Scope Z_scope.

(** ** Sorting by bytes ([sort.Strings]) *)

Fixpoint str_le (a b : gostring) : bool :=
  match a, b with
  | [], _ => true
  | _ :: _, [] => false
  | x :: a, y :: b => if bz x <? bz y then true else if bz y <? bz x then false else str_le a b
  end.

Fixpoint insert_str (x : gostring) (l : list gostring) : list gostring :=
  match l with [] => [x] | y :: l => if str_le x y then x :: y :: l else y :: insert_str x l end.

Definition sortStrings (l : list gostring) : list gostring := foldr insert_str [] l.

(** ** The projection *)

(** A number is projected unless it is zero. *)
Definition number (name : gostring) (v : Z) : list (gostring * gostring) := if v =? 0 then [] else [(name, Itoa v)].

Definition roleEnv (role : gostring) (c : Config) : list (gostring * gostring) :=
  if streqb role RoleIran then
    [(EnvSocksListen, SocksListen c); (EnvWsListen, WsListen c); (EnvDownCarrier, DownCarrierAddr c)]
    ++ (if negb (streqb (SocksUser c) []) && negb (streqb (SocksPass c) [])
        then [(EnvSocksUser, SocksUser c); (EnvSocksPass, SocksPass c)] else [])
  else [(EnvUpWsUrl, UpWsUrl c); (EnvDownListen, DownListen c)].

Definition FormatBool (b : bool) : gostring := if b then lit "true" else lit "false".

Definition tuningEnv (c : Config) : list (gostring * gostring) :=
  number EnvMetricsPort (MetricsPort c)
  ++ (if AllowWeakSecret c then [(EnvAllowWeak, FormatBool (AllowWeakSecret c))] else [])
  ++ number EnvRelayBuf (RelayBufSize c) ++ number EnvQueueBytes (QueueBytesPerStream c)
  ++ number EnvQueueFrames (QueueFramesPerStream c) ++ number EnvQueueTotal (QueueBytesTotal c)
  ++ number EnvOverflowMs (OverflowWaitMs c) ++ number EnvCarrierGrace (CarrierGraceMs c)
  ++ number EnvBootstrapWait (BootstrapWaitMs c) ++ number EnvSessionBuf (SessionBufBytes c)
  ++ number EnvSessionBufTotal (SessionBufTotal c) ++ number EnvLivenessRounds (LivenessRounds c).

(** The map that [InstallRequest.Env] builds, once the request is valid. *)
Definition Env (role : gostring) (c : Config) : env :=
  list_to_map ([(EnvSecret, Secret c)] ++ roleEnv role c ++ tuningEnv c).

(** What [envFingerprint] hashes: the sorted lines of the map. *)
Definition envLines (keys : list gostring) (kv : env) : list byte :=
  concat (map (λ k, k ++ x3d :: default [] (kv !! k) ++ [x0a]) keys).

Definition envFingerprint (digest : list byte → gostring) (kv : env) : gostring :=
  digest (envLines (sortStrings (map fst (map_to_list kv))) kv).

(** ** The gate of the env file *)

Definition requiredEnvKeys (role : gostring) : list gostring :=
  if streqb role RoleGermany then [EnvUpWsUrl; EnvDownListen; EnvSecret]
  else [EnvSocksListen; EnvWsListen; EnvDownCarrier; EnvSecret].

Definition optionalEnvKeys : list gostring :=
  [EnvMetricsPort; EnvAllowWeak; EnvRelayBuf; EnvQueueBytes; EnvQueueFrames; EnvQueueTotal; EnvOverflowMs;
   EnvCarrierGrace; EnvBootstrapWait; EnvSessionBuf; EnvSessionBufTotal; EnvLivenessRounds; EnvSocksUser; EnvSocksPass].

Definition knownEnvKeys : list gostring := optionalEnvKeys ++ requiredEnvKeys RoleGermany ++ requiredEnvKeys RoleIran.

Definition intEnvKeys : list gostring :=
  [EnvMetricsPort; EnvRelayBuf; EnvQueueBytes; EnvQueueFrames; EnvQueueTotal; EnvOverflowMs; EnvCarrierGrace;
   EnvBootstrapWait; EnvSessionBuf; EnvSessionBufTotal; EnvLivenessRounds].

(** One entry passes the loop. *)
Definition entry_ok (k v : gostring) : bool :=
  bool_decide (k ∈ knownEnvKeys) && negb (streqb v []) && negb (contains_any [x0d; x0a] v) && negb (has_prefix [x23] v)
  && (if bool_decide (k ∈ intEnvKeys) then match Atoi v with Some _ => true | None => false end else true).

(** The value a key sets; the keys set different fields, so the order in which
    the map is walked does not matter. *)
Definition str_or (kv : env) (k d : gostring) : gostring := default d (kv !! k).
Definition int_or (kv : env) (k : gostring) (d : Z) : Z :=
  match kv !! k with Some v => default 0 (Atoi v) | None => d end.
Definition bool_or (kv : env) (k : gostring) (d : bool) : option bool :=
  match kv !! k with Some v => ParseBool v | None => Some d end.

Definition foldEnv (kv : env) (weak : bool) : Config :=
  let d := Defaults in
  mkConfig
    (str_or kv EnvSocksListen (SocksListen d)) (str_or kv EnvWsListen (WsListen d))
    (str_or kv EnvDownCarrier (DownCarrierAddr d)) (str_or kv EnvUpWsUrl (UpWsUrl d))
    (str_or kv EnvDownListen (DownListen d)) (str_or kv EnvSocksUser (SocksUser d)) (str_or kv EnvSocksPass (SocksPass d))
    (SocksAllowedSources d) (str_or kv EnvSecret (Secret d)) weak
    (int_or kv EnvMetricsPort (MetricsPort d)) (int_or kv EnvRelayBuf (RelayBufSize d)) (KeepAliveInterval d)
    (int_or kv EnvQueueBytes (QueueBytesPerStream d)) (int_or kv EnvQueueFrames (QueueFramesPerStream d))
    (int_or kv EnvQueueTotal (QueueBytesTotal d)) (int_or kv EnvOverflowMs (OverflowWaitMs d))
    (int_or kv EnvCarrierGrace (CarrierGraceMs d)) (ReconnectBaseMs d) (ReconnectMaxMs d) (ReconnectWindowMs d)
    (ReconnectClampMs d) (TCPKeepAliveMs d) (int_or kv EnvBootstrapWait (BootstrapWaitMs d))
    (int_or kv EnvSessionBuf (SessionBufBytes d)) (int_or kv EnvSessionBufTotal (SessionBufTotal d))
    (int_or kv EnvLivenessRounds (LivenessRounds d))
    (CreditsEnabled d) (TargetOnlyIPv4 d) (TargetAddrPolicy d) (MultiCarrierEnabled d) (DownListen2 d)
    (DownCarrierAddr2 d) (DownSNI2 d) (PolicyMode d) (PolicyTopK d) (ProbingEnabled d) (ProbeURL d) (ProbeDailyBudget d)
    (TTFBBaselineMs d) (RoutingRulesFile d) (RoutingDefault d) (WarpSocksAddr d) (RoutingDebug d) (TargetDialBoundMs d)
    (TargetBreakerEnabled d) (TargetBreakerWindowMs d) (TargetBreakerThreshold d) (TargetBreakerCooldownMs d)
    (TargetBreakerMaxTargets d) (TargetBackoffEnabled d) (TargetBackoffBaseMs d) (TargetBackoffMaxMs d).

Inductive env_error := ErrSpec | InvalidConfig (e : config_error).

Definition renderEnvFile (role : gostring) (kv : env) : list byte :=
  envLines (requiredEnvKeys role
            ++ sortStrings (List.filter (λ k, bool_decide (k ∈ optionalEnvKeys)) (map fst (map_to_list kv)))) kv.

(** ** Looking a key up in the projection *)

Fixpoint assoc (k : gostring) (l : list (gostring * gostring)) : option gostring :=
  match l with [] => None | (k', v) :: l => if streqb k' k then Some v else assoc k l end.

Lemma list_to_map_assoc l k : (list_to_map l : gmap gostring gostring) !! k = assoc k l.
Proof.
  induction l as [|[k' v] l IH]; [done|]. rewrite list_to_map_cons. cbn [assoc]. destruct (streqb k' k) eqn:E.
  - apply streqb_true in E as ->. apply lookup_insert_eq.
  - apply streqb_false in E. by rewrite lookup_insert_ne.
Qed.

Lemma assoc_number k n v l :
  assoc k (number n v ++ l) = if streqb n k then if v =? 0 then assoc k l else Some (Itoa v) else assoc k l.
Proof. unfold number. destruct (v =? 0); cbn [assoc app]; by destruct (streqb n k). Qed.

Lemma assoc_number_skip k n v l : streqb n k = false → assoc k (number n v ++ l) = assoc k l.
Proof. intros H. by rewrite assoc_number, H. Qed.

Lemma assoc_number_hit k n v l :
  streqb n k = true → assoc k l = None → assoc k (number n v ++ l) = if v =? 0 then None else Some (Itoa v).
Proof. intros H Hl. by rewrite assoc_number, H, Hl. Qed.

Lemma assoc_if_skip k (b : bool) l l' : assoc k l = None → assoc k ((if b then l else []) ++ l') = assoc k l'.
Proof.
  intros H. destruct b; [|done]. induction l as [|[k' v] l IH]; [done|]. cbn in *. destruct (streqb k' k); [done|auto].
Qed.

(** A comparison of two names is decided by computing it. *)
Ltac names := repeat match goal with |- context [streqb ?a ?b] =>
  let r := eval vm_compute in (streqb a b) in
  lazymatch r with true => change (streqb a b) with true | false => change (streqb a b) with false end end.

(** ** What is delivered

    A number that is zero is delivered as the default, the pair of SOCKS
    credentials both or neither, and everything that is not projected as the
    default. *)

Definition nz (v d : Z) : Z := if v =? 0 then d else v.

Definition delivered (role : gostring) (c : Config) : Config :=
  let d := Defaults in
  let iran (s s' : gostring) := if streqb role RoleIran then s else s' in
  let pair := negb (streqb (SocksUser c) []) && negb (streqb (SocksPass c) []) in
  mkConfig
    (iran (SocksListen c) (SocksListen d)) (iran (WsListen c) (WsListen d)) (iran (DownCarrierAddr c) (DownCarrierAddr d))
    (iran (UpWsUrl d) (UpWsUrl c)) (iran (DownListen d) (DownListen c))
    (iran (if pair then SocksUser c else []) []) (iran (if pair then SocksPass c else []) [])
    (SocksAllowedSources d) (Secret c) (AllowWeakSecret c)
    (MetricsPort c) (nz (RelayBufSize c) DefaultRelayBuf) (KeepAliveInterval d)
    (QueueBytesPerStream c) (QueueFramesPerStream c) (QueueBytesTotal c) (OverflowWaitMs c)
    (nz (CarrierGraceMs c) 5000) (ReconnectBaseMs d) (ReconnectMaxMs d) (ReconnectWindowMs d)
    (ReconnectClampMs d) (TCPKeepAliveMs d) (BootstrapWaitMs c)
    (nz (SessionBufBytes c) DefaultSessionBuf) (SessionBufTotal c) (LivenessRounds c)
    (CreditsEnabled d) (TargetOnlyIPv4 d) (TargetAddrPolicy d) (MultiCarrierEnabled d) (DownListen2 d)
    (DownCarrierAddr2 d) (DownSNI2 d) (PolicyMode d) (PolicyTopK d) (ProbingEnabled d) (ProbeURL d) (ProbeDailyBudget d)
    (TTFBBaselineMs d) (RoutingRulesFile d) (RoutingDefault d) (WarpSocksAddr d) (RoutingDebug d) (TargetDialBoundMs d)
    (TargetBreakerEnabled d) (TargetBreakerWindowMs d) (TargetBreakerThreshold d) (TargetBreakerCooldownMs d)
    (TargetBreakerMaxTargets d) (TargetBackoffEnabled d) (TargetBackoffBaseMs d) (TargetBackoffMaxMs d).

(** A string that can stand behind an [=] in the file. *)
Definition plain (s : gostring) : Prop := s ≠ [] ∧ contains_any [x0d; x0a] s = false ∧ has_prefix [x23] s = false.

(** A number that [Atoi] reads back. *)
Definition natural (v : Z) : Prop := 0 ≤ v < 2 ^ 63.

Lemma Env_assoc role c k : Env role c !! k = assoc k ([(EnvSecret, Secret c)] ++ roleEnv role c ++ tuningEnv c).
Proof. apply list_to_map_assoc. Qed.

Lemma int_or_nz kv k v d :
  natural v → kv !! k = (if v =? 0 then None else Some (Itoa v)) → int_or kv k d = nz v d.
Proof. intros Hv Hk. unfold int_or, nz. rewrite Hk. destruct (v =? 0); [done|]. by rewrite Atoi_Itoa. Qed.

Lemma assoc_last k n v : assoc k (number n v) = assoc k (number n v ++ []).
Proof. by rewrite app_nil_r. Qed.

Ltac skip := repeat first
  [ rewrite assoc_number_skip by reflexivity | rewrite assoc_if_skip by reflexivity | rewrite assoc_last
  | progress (cbn [assoc]; names; cbv iota) ].

Ltac projected :=
  rewrite Env_assoc; unfold roleEnv, tuningEnv; names; cbv iota; rewrite <- ?app_assoc; cbn [app]; skip;
  try (apply assoc_number_hit; [reflexivity|skip]); try reflexivity.

(** Every number is found behind its own name, for both roles. *)
Lemma Env_numbers role c :
  role = RoleIran ∨ role = RoleGermany →
  let found k v := Env role c !! k = if v =? 0 then None else Some (Itoa v) in
  found EnvMetricsPort (MetricsPort c) ∧ found EnvRelayBuf (RelayBufSize c)
  ∧ found EnvQueueBytes (QueueBytesPerStream c) ∧ found EnvQueueFrames (QueueFramesPerStream c)
  ∧ found EnvQueueTotal (QueueBytesTotal c) ∧ found EnvOverflowMs (OverflowWaitMs c)
  ∧ found EnvCarrierGrace (CarrierGraceMs c) ∧ found EnvBootstrapWait (BootstrapWaitMs c)
  ∧ found EnvSessionBuf (SessionBufBytes c) ∧ found EnvSessionBufTotal (SessionBufTotal c)
  ∧ found EnvLivenessRounds (LivenessRounds c).
Proof. intros [-> | ->]; cbv zeta; split_and!; projected. Qed.

Lemma Env_common role c :
  role = RoleIran ∨ role = RoleGermany →
  Env role c !! EnvSecret = Some (Secret c)
  ∧ Env role c !! EnvAllowWeak = if AllowWeakSecret c then Some (lit "true") else None.
Proof. intros [-> | ->]; split; projected; destruct (AllowWeakSecret c); cbn [app]; skip; done. Qed.

Definition paired (c : Config) : bool := negb (streqb (SocksUser c) []) && negb (streqb (SocksPass c) []).

Lemma Env_iran c :
  let e := Env RoleIran c in
  e !! EnvSocksListen = Some (SocksListen c) ∧ e !! EnvWsListen = Some (WsListen c)
  ∧ e !! EnvDownCarrier = Some (DownCarrierAddr c) ∧ e !! EnvUpWsUrl = None ∧ e !! EnvDownListen = None
  ∧ e !! EnvSocksUser = (if paired c then Some (SocksUser c) else None)
  ∧ e !! EnvSocksPass = (if paired c then Some (SocksPass c) else None).
Proof.
  cbv zeta. split_and!; projected; fold (paired c); destruct (paired c); cbn [app]; skip; done.
Qed.

Lemma Env_germany c :
  let e := Env RoleGermany c in
  e !! EnvSocksListen = None ∧ e !! EnvWsListen = None ∧ e !! EnvDownCarrier = None
  ∧ e !! EnvUpWsUrl = Some (UpWsUrl c) ∧ e !! EnvDownListen = Some (DownListen c)
  ∧ e !! EnvSocksUser = None ∧ e !! EnvSocksPass = None.
Proof. cbv zeta. split_and!; projected. Qed.

Definition natural_numbers (c : Config) : Prop :=
  Forall natural [MetricsPort c; RelayBufSize c; QueueBytesPerStream c; QueueFramesPerStream c; QueueBytesTotal c;
    OverflowWaitMs c; CarrierGraceMs c; BootstrapWaitMs c; SessionBufBytes c; SessionBufTotal c; LivenessRounds c].

Lemma nz_0 v : nz v 0 = v.
Proof. unfold nz. by destruct (Z.eqb_spec v 0) as [->|]. Qed.

(** The gate sees the delivered configuration. *)
Lemma fold_delivered role c :
  role = RoleIran ∨ role = RoleGermany → natural_numbers c →
  foldEnv (Env role c) (AllowWeakSecret c) = delivered role c.
Proof.
  intros Hr Hn. unfold natural_numbers in Hn. rewrite !Forall_cons in Hn.
  pose proof (Env_numbers role c Hr) as HN. cbv zeta in HN. destruct (Env_common role c Hr) as [HS _]. destruct_and!.
  unfold foldEnv, delivered. fold (paired c). cbv zeta.
  repeat match goal with
    H : natural ?v, K : Env role c !! ?k = (if ?v =? 0 then _ else _) |- _ => rewrite (int_or_nz _ k v _ H K); clear K end.
  cbn [MetricsPort RelayBufSize QueueBytesPerStream QueueFramesPerStream QueueBytesTotal OverflowWaitMs CarrierGraceMs
       BootstrapWaitMs SessionBufBytes SessionBufTotal LivenessRounds Defaults].
  rewrite !nz_0. unfold str_or. rewrite HS.
  destruct Hr as [-> | ->].
  - destruct (Env_iran c) as (-> & -> & -> & -> & -> & -> & ->). names. by destruct (paired c).
  - destruct (Env_germany c) as (-> & -> & -> & -> & -> & -> & ->). by names.
Qed.

(** The strings of a role that reach the file. *)
Definition strings_plain (role : gostring) (c : Config) : Prop :=
  plain (Secret c)
  ∧ (if streqb role RoleIran then
       plain (SocksListen c) ∧ plain (WsListen c) ∧ plain (DownCarrierAddr c)
       ∧ (paired c = true → plain (SocksUser c) ∧ plain (SocksPass c))
     else plain (UpWsUrl c) ∧ plain (DownListen c)).

Lemma digits_plain s : Forall (λ c, is_digit c = true) s → s ≠ [] → plain s.
Proof.
  intros Hs Hne. split; [done|]. rewrite Forall_forall in Hs. split.
  - unfold contains_any. cbn [existsb]. rewrite orb_false_r. apply orb_false_iff.
    split; apply not_true_is_false; unfold has_char; rewrite existsb_exists; intros (c & Hc & He%beqb_true);
      subst c; by apply list_elem_of_In, Hs in Hc.
  - destruct s as [|c s]; [done|]. apply not_true_is_false. rewrite has_prefix_iff. intros [k [= -> _]].
    by specialize (Hs x23 ltac:(left)).
Qed.

Definition entry (e : gostring * gostring) : Prop := entry_ok (fst e) (snd e) = true.

Lemma plain_entry k v :
  plain v → bool_decide (k ∈ knownEnvKeys) = true → bool_decide (k ∈ intEnvKeys) = false → entry (k, v).
Proof.
  intros (H1 & H2 & H3) Hk Hi. unfold entry, entry_ok. cbn [fst snd]. rewrite Hk, Hi, H2, H3.
  by destruct (streqb v []) eqn:E; [apply streqb_true in E|].
Qed.

Lemma number_entry k v :
  natural v → bool_decide (k ∈ knownEnvKeys) = true → Forall entry (number k v).
Proof.
  intros Hv Hk. unfold number. destruct (v =? 0); [constructor|]. constructor; [|constructor].
  destruct (Itoa_digits v Hv) as (_ & Hd & Hne). destruct (digits_plain _ Hd Hne) as (H1 & H2 & H3).
  unfold entry, entry_ok. cbn [fst snd]. rewrite Hk, H2, H3, Atoi_Itoa by done.
  destruct (streqb (Itoa v) []) eqn:E; [by apply streqb_true in E|]. by destruct (bool_decide (k ∈ intEnvKeys)).
Qed.

Lemma Env_entries role c :
  role = RoleIran ∨ role = RoleGermany → natural_numbers c → strings_plain role c →
  ∀ k v, Env role c !! k = Some v → entry_ok k v = true.
Proof.
  intros Hr Hn [Hs Hp] k v Hk. apply (elem_of_list_to_map_2 (M:=gmap gostring)) in Hk.
  unfold natural_numbers in Hn. rewrite !Forall_cons in Hn. destruct_and!.
  enough (Forall entry ([(EnvSecret, Secret c)] ++ roleEnv role c ++ tuningEnv c)) as He.
  { rewrite Forall_forall in He. exact (He _ Hk). }
  apply Forall_app. split; [constructor; [by apply plain_entry|constructor]|]. apply Forall_app. split.
  - unfold roleEnv. destruct Hr as [-> | ->]; names; cbv iota.
    + rewrite (eq_refl : streqb RoleIran RoleIran = true) in Hp. destruct Hp as (? & ? & ? & Hq). fold (paired c).
      apply Forall_app. split; [repeat constructor; by apply plain_entry|].
      destruct (paired c); [|constructor]. destruct (Hq eq_refl). repeat constructor; by apply plain_entry.
    + destruct Hp. repeat constructor; by apply plain_entry.
  - unfold tuningEnv. rewrite !Forall_app. split_and!; try by apply number_entry.
    destruct (AllowWeakSecret c) eqn:E; [|constructor]. constructor; [reflexivity|constructor].
Qed.

Lemma required_projected role c :
  role = RoleIran ∨ role = RoleGermany → ∀ k, k ∈ requiredEnvKeys role → is_Some (Env role c !! k).
Proof.
  intros Hr k Hk. pose proof (proj1 (Env_common role c Hr)) as HS. destruct Hr as [-> | ->]; unfold requiredEnvKeys in Hk.
  - change (streqb RoleIran RoleGermany) with false in Hk. rewrite !elem_of_cons, elem_of_nil in Hk.
    destruct (Env_iran c) as (H1 & H2 & H3 & _). destruct Hk as [-> | [-> | [-> | [-> | []]]]]; by eexists.
  - change (streqb RoleGermany RoleGermany) with true in Hk. rewrite !elem_of_cons, elem_of_nil in Hk.
    destruct (Env_germany c) as (_ & _ & _ & H1 & H2 & _). destruct Hk as [-> | [-> | [-> | []]]]; by eexists.
Qed.

Section gate.
Context (unicode_lower : gostring → gostring)
        (url_Parse url_ParseRequestURI : gostring → option (gostring * gostring * gostring))
        (LoadRulesFile : gostring → bool).

Abbreviation Validate := (Config.Validate unicode_lower url_Parse url_ParseRequestURI LoadRulesFile).
Abbreviation problemsOf := (Config.problemsOf unicode_lower url_Parse url_ParseRequestURI LoadRulesFile).
Abbreviation Load := (Config.Load unicode_lower url_Parse url_ParseRequestURI LoadRulesFile).

Definition validateEnvKV (role : gostring) (kv : env) : res env_error unit :=
  if bool_decide (kv = ∅) then Err ErrSpec
  else if negb (forallb (λ k, bool_decide (is_Some (kv !! k))) (requiredEnvKeys role)) then Err ErrSpec
  else if negb (forallb (λ e, entry_ok (fst e) (snd e)) (map_to_list kv)) then Err ErrSpec
  else match bool_or kv EnvAllowWeak (AllowWeakSecret Defaults) with
       | None => Err ErrSpec
       | Some weak => match Validate role (foldEnv kv weak) with Some e => Err (InvalidConfig e) | None => Ok () end
       end.

(** ** The gate and the reader agree *)

Lemma when_nil b n r : when b n r = [] ↔ b = false.
Proof. by destruct b. Qed.

Lemma Validate_None role c : Validate role c = None ↔ (role = RoleIran ∨ role = RoleGermany) ∧ problemsOf role c = [].
Proof.
  unfold Config.Validate. destruct (streqb role RoleIran) eqn:E1; [apply streqb_true in E1|apply streqb_false in E1];
    (destruct (streqb role RoleGermany) eqn:E2; [apply streqb_true in E2|apply streqb_false in E2]); cbn [negb andb];
    first [destruct (problemsOf role c); naive_solver|naive_solver].
Qed.

(** The entries the gate lets pass. *)
Definition passed (kv : env) : Prop := ∀ k v, kv !! k = Some v → entry_ok k v = true.

Lemma validateEnvKV_Ok role kv :
  validateEnvKV role kv = Ok () ↔
  kv ≠ ∅ ∧ (∀ k, k ∈ requiredEnvKeys role → is_Some (kv !! k)) ∧ passed kv
  ∧ ∃ weak, bool_or kv EnvAllowWeak false = Some weak ∧ Validate role (foldEnv kv weak) = None.
Proof.
  unfold validateEnvKV. case_bool_decide as H1; [split; [done|]; by intros []|].
  assert (forallb (λ k, bool_decide (is_Some (kv !! k))) (requiredEnvKeys role) = true ↔
          ∀ k, k ∈ requiredEnvKeys role → is_Some (kv !! k)) as H2.
  { rewrite forallb_forall. setoid_rewrite bool_decide_eq_true. by setoid_rewrite list_elem_of_In. }
  assert (forallb (λ e, entry_ok e.1 e.2) (map_to_list kv) = true ↔ passed kv) as H3.
  { rewrite forallb_forall. unfold passed. setoid_rewrite <- list_elem_of_In. split.
    - intros Hf k v Hk. by apply (Hf (k, v)), elem_of_map_to_list.
    - intros Hf [k v] Hk. by apply Hf, elem_of_map_to_list. }
  destruct (forallb _ (requiredEnvKeys role)); cbn [negb].
  2: { split; [done|]. intros (_ & Hr & _). by apply H2 in Hr. }
  destruct (forallb _ (map_to_list kv)); cbn [negb].
  2: { split; [done|]. intros (_ & _ & Hp & _). by apply H3 in Hp. }
  change (AllowWeakSecret Defaults) with false.
  destruct (bool_or kv EnvAllowWeak false) as [weak|]; [|split; [done|]; by intros (_ & _ & _ & ? & ? & _)].
  destruct (Validate role (foldEnv kv weak)) eqn:E.
  - split; [done|]. intros (_ & _ & _ & w & [= <-] & Hw). congruence.
  - split; [|done]. intros _. split_and!; [done|by apply H2|by apply H3|by exists weak].
Qed.

Lemma passed_unknown kv k : passed kv → bool_decide (k ∈ knownEnvKeys) = false → kv !! k = None.
Proof.
  intros Hp Hk. destruct (kv !! k) as [v|] eqn:E; [|done]. specialize (Hp k v E). unfold entry_ok in Hp. by rewrite Hk in Hp.
Qed.

Lemma LookupEnv_passed kv k : passed kv → LookupEnv kv k = kv !! k.
Proof.
  intros Hp. unfold LookupEnv. destruct (kv !! k) as [v|] eqn:E; [|done]. specialize (Hp k v E).
  destruct (streqb v []) eqn:Ev; [|done]. unfold entry_ok in Hp. rewrite Ev in Hp. by destruct (bool_decide _).
Qed.

Lemma envString_passed kv k d : passed kv → envString kv k d = str_or kv k d.
Proof. intros Hp. unfold envString. by rewrite LookupEnv_passed. Qed.

Lemma envString_unknown kv k d : passed kv → bool_decide (k ∈ knownEnvKeys) = false → envString kv k d = d.
Proof. intros Hp Hk. rewrite envString_passed by done. unfold str_or. by rewrite passed_unknown. Qed.

Lemma envInt_passed kv k d lo hi :
  passed kv → bool_decide (k ∈ intEnvKeys) = true → (is_Some (kv !! k) → outside lo hi (int_or kv k d) = false) →
  envInt kv k d lo hi = (int_or kv k d, []).
Proof.
  intros Hp Hk Hr. unfold envInt. rewrite LookupEnv_passed by done. unfold int_or in *.
  destruct (kv !! k) as [v|] eqn:E; [|done]. specialize (Hp k v E). specialize (Hr ltac:(by eexists)).
  unfold entry_ok in Hp. rewrite Hk in Hp. destruct (Atoi v) as [n|]; [|by rewrite andb_false_r in Hp].
  cbn in Hr. unfold outside in Hr. by rewrite Hr.
Qed.

Lemma envInt_unknown kv k d lo hi : passed kv → bool_decide (k ∈ knownEnvKeys) = false → envInt kv k d lo hi = (d, []).
Proof. intros Hp Hk. unfold envInt. rewrite LookupEnv_passed, passed_unknown by done. done. Qed.

Lemma envInt64_unknown kv k d : passed kv → bool_decide (k ∈ knownEnvKeys) = false → envInt64 kv k d = (d, []).
Proof. intros Hp Hk. unfold envInt64. rewrite LookupEnv_passed, passed_unknown by done. done. Qed.

Lemma envBool_unknown kv k d : passed kv → bool_decide (k ∈ knownEnvKeys) = false → envBool kv k d = (d, []).
Proof. intros Hp Hk. unfold envBool. rewrite LookupEnv_passed, passed_unknown by done. done. Qed.

Lemma envBool_passed kv k d b : passed kv → bool_or kv k d = Some b → envBool kv k d = (b, []).
Proof.
  intros Hp Hb. unfold envBool, bool_or in *. rewrite LookupEnv_passed by done.
  destruct (kv !! k) as [v|]; [by rewrite Hb|congruence].
Qed.

Lemma W_bind_pure {A B} (m : W A) (a : A) (f : A → W B) : m = (a, []) → W_bind _ _ f m = f a.
Proof. intros ->. unfold W_bind. by destruct (f a). Qed.

(** The relay buffer is the one value the gate lets pass and the reader does
    not: it has a lower bound only when it is read. *)
Definition relay_readable (kv : env) : Prop :=
  ∀ v, kv !! EnvRelayBuf = Some v → MinRelayBuf ≤ default 0 (Atoi v).

Lemma readEnv_fold kv weak :
  passed kv → relay_readable kv → validateBounds (foldEnv kv weak) = [] → readEnv kv = (foldEnv kv false, []).
Proof.
  intros Hp Hrelay Hb. unfold validateBounds in Hb. rewrite !app_nil, !when_nil in Hb.
  destruct Hb as (B1 & B2 & B3 & B4 & B5 & B6 & B7 & B8 & B9 & B10 & B11).
  cbn [foldEnv MetricsPort RelayBufSize QueueBytesPerStream QueueFramesPerStream QueueBytesTotal OverflowWaitMs
       CarrierGraceMs BootstrapWaitMs LivenessRounds SessionBufBytes SessionBufTotal Defaults] in *.
  unfold readEnv, mbind.
  repeat match goal with
    | |- W_bind _ _ _ (envInt _ EnvRelayBuf _ _ _) = _ => etransitivity; [eapply W_bind_pure, envInt_passed; [done|reflexivity|]|]
    | |- W_bind _ _ _ (envInt _ EnvBootstrapWait _ _ _) = _ => etransitivity; [eapply W_bind_pure, envInt_passed; [done|reflexivity|]|]
    | |- W_bind _ _ _ (envInt _ _ _ _ _) = _ => etransitivity; [eapply W_bind_pure; first
        [apply envInt_unknown; [done|reflexivity] | apply envInt_passed; [done|reflexivity|intros _; assumption]]|]
    | |- W_bind _ _ _ (envBool _ _ _) = _ => etransitivity; [eapply W_bind_pure, envBool_unknown; [done|reflexivity]|]
    | |- W_bind _ _ _ (envInt64 _ _ _) = _ => etransitivity; [eapply W_bind_pure, envInt64_unknown; [done|reflexivity]|]
    end; cbv beta.
  - intros [v Hv]. specialize (Hrelay v Hv). unfold int_or in *. rewrite Hv in *. unfold outside, MinRelayBuf in *. lia.
  - intros _. unfold outside, MinBootstrapWaitMs in *. lia.
  - rewrite (envString_unknown kv EnvSocksAllowedSources), (envString_unknown kv EnvTargetAddrPolicy),
      (envString_unknown kv EnvDownListen2), (envString_unknown kv EnvDownCarrierAddr2), (envString_unknown kv EnvDownSNI2),
      (envString_unknown kv EnvPolicyMode), (envString_unknown kv EnvProbeURL), (envString_unknown kv EnvRoutingRulesFile),
      (envString_unknown kv EnvRoutingDefault), (envString_unknown kv EnvWarpSocksAddr) by first [exact Hp|reflexivity].
    by rewrite !envString_passed by done.
Qed.

(** What passes the gate is read back, the relay buffer apart. *)
Lemma gate_loads role kv weak :
  passed kv → relay_readable kv → bool_or kv EnvAllowWeak false = Some weak →
  Validate role (foldEnv kv weak) = None → Load role kv = Ok (foldEnv kv weak).
Proof.
  intros Hp Hrelay Hw Hv. apply Validate_None in Hv as [Hrole Hl]. unfold Config.Load.
  assert (negb (streqb role RoleIran) && negb (streqb role RoleGermany) = false) as ->.
  { destruct Hrole as [-> | ->]; reflexivity. }
  assert (validateBounds (foldEnv kv weak) = []) as Hb.
  { unfold Config.problemsOf in Hl. by rewrite !app_nil in Hl; destruct_and!. }
  rewrite (readEnv_fold kv weak) by done. cbn [AllowWeakSecret foldEnv].
  rewrite (envBool_passed kv EnvAllowWeak false weak) by done.
  change ((foldEnv kv false) <| AllowWeakSecret := weak |>) with (foldEnv kv weak). cbn [app]. by rewrite Hl.
Qed.


(** ** What a valid configuration becomes *)

Lemma bounds_natural c : validateBounds c = [] → natural_numbers c.
Proof.
  intros Hb. unfold validateBounds in Hb. rewrite !app_nil, !when_nil in Hb. unfold outside in Hb.
  change MaxPort with 65535 in Hb. change MaxRelayBuf with 8388608 in Hb. change MaxQueueBytesPerStream with 67108864 in Hb.
  change MaxFrames with 16 in Hb. change MaxQueueBytesTotal with 268435456 in Hb. change MaxOverflowWaitMs with 30000 in Hb.
  change MaxCarrierGraceMs with 600000 in Hb. change MinCarrierGraceMs with 500 in Hb.
  change MinBootstrapWaitMs with 500 in Hb. change MaxBootstrapWaitMs with 120000 in Hb.
  change MaxLivenessRounds with 20 in Hb. change MinSessionBuf with 4096 in Hb. change MaxSessionBuf with 16777216 in Hb.
  change MaxSessionBufTotal with 536870912 in Hb.
  unfold natural_numbers. rewrite !Forall_cons. unfold natural. destruct_and!. split_and!; try lia. constructor.
Qed.

Lemma bounds_delivered role c : validateBounds c = [] → validateBounds (delivered role c) = [].
Proof.
  unfold validateBounds. rewrite !app_nil, !when_nil. intros (B1 & B2 & B3 & B4 & B5 & B6 & B7 & B8 & B9 & B10 & B11).
  unfold delivered. cbv zeta.
  cbn [MetricsPort RelayBufSize QueueBytesPerStream QueueFramesPerStream QueueBytesTotal OverflowWaitMs CarrierGraceMs
       BootstrapWaitMs SessionBufBytes SessionBufTotal LivenessRounds].
  split_and!; try assumption; unfold nz.
  - by destruct (Z.eqb_spec (RelayBufSize c) 0).
  - by destruct (Z.eqb_spec (CarrierGraceMs c) 0).
  - by destruct (Z.eqb_spec (SessionBufBytes c) 0).
Qed.

Lemma socks_delivered role c : validateSocksAuth unicode_lower c = [] → validateSocksAuth unicode_lower (delivered role c) = [].
Proof.
  intros H. unfold validateSocksAuth, delivered in *. fold (paired c). cbv zeta. cbn [SocksUser SocksPass AllowWeakSecret].
  destruct (streqb role RoleIran), (paired c) eqn:E; unfold paired in E; try reflexivity; exact H.
Qed.

Lemma delivered_valid role c : Validate role c = None → Validate role (delivered role c) = None.
Proof.
  rewrite !Validate_None. intros [Hr Hl]. split; [done|]. unfold Config.problemsOf in *. rewrite !app_nil in Hl |- *.
  destruct Hl as (H1 & H2 & H3 & _ & H5 & _ & H7).
  split_and!; [|..|by apply bounds_delivered|reflexivity|exact H5|reflexivity|exact H7].
  - destruct Hr as [-> | ->]; names; cbv iota.
    + change (streqb RoleIran RoleIran) with true in H1. unfold validateIran in *. rewrite !app_nil in H1 |- *. destruct_and!.
      split_and!; try assumption; try reflexivity. by apply socks_delivered.
    + change (streqb RoleGermany RoleIran) with false in H1. unfold validateGermany in *. rewrite !app_nil in H1 |- *. destruct_and!.
      split_and!; try assumption; reflexivity.
  - by destruct Hr as [-> | ->].
Qed.

End gate.

(** ** A deployment

    An iran node that admits only its private network and asks for a relay
    buffer of 512 bytes. *)
Module Demo.

Definition ascii_lower (s : gostring) : gostring := s.
Definition no_url (s : gostring) : option (gostring * gostring * gostring) := None.
Definition no_rules (s : gostring) : bool := false.

Definition private : Config := Defaults <| Secret := lit "kV7qXw2Zt9Rb4Lm8Ns3Pd6Fh1Jc5Gy0T" |>.

Definition restricted : Config := private <| SocksAllowedSources := lit "10.0.0.0/8" |>.

Definition small_relay : env := <[EnvRelayBuf := lit "512"]> (Env RoleIran restricted).


End Demo.
