(* ===== verification/Firewall.v ===== *)
(** * Host firewall rules (src/internal/firewall/firewall.go)

    The manager talks to the host only by running commands.  The host is an
    [oracle]: the reply to a command may depend on every command that was run
    before, so the state of the model is the list of commands run so far, and a
    theorem about that list is about everything the manager does to the host.

    [runtime.GOOS], [exec.LookPath] and the lower case of a string that is not
    ASCII are parameters.  [firewallPlanFromEnv] (src/cmd/splitterctl/main.go)
    is the plan the command line builds. *)
From S2P Require Export Lines Config.
#[local] Open Scope Z_scope.

(** ** Rules and plans *)

Definition Marker : gostring := lit "split-tunnel".
Definition BackendAuto : gostring := lit "auto".
Definition BackendUFW : gostring := lit "ufw".
Definition BackendNFT : gostring := lit "nftables".
Definition BackendNone : gostring := lit "none".
Definition Allow_ : gostring := lit "allow".
Definition Deny_ : gostring := lit "deny".
Definition Tcp : gostring := lit "tcp".

Record Rule := mkRule { Port : Z; Protocol : gostring; Action : gostring; Comment : gostring }.

#[export] Instance Rule_eq_decision : EqDecision Rule.
Proof. solve_decision. Defined.

Record Plan := mkPlan { p_Backend : gostring; p_Role : gostring; Allow : list Rule; Deny : list Rule; CDNEgress : list gostring }.
Record Snapshot := mkSnapshot { s_Backend : gostring; Rules : list Rule }.
Record Result := mkResult { r_Backend : gostring; Added : list Rule; Unchanged : bool }.

Inductive error := ErrInvalidPlan | ErrAmbiguous | ErrUnsupported | Failed | RollbackFailed.

Definition rule_ok (r : Rule) : bool :=
  negb ((Port r <? 1) || (65535 <? Port r) || negb (streqb (Protocol r) Tcp)
        || negb (streqb (Action r) Allow_) && negb (streqb (Action r) Deny_))
  && (streqb (Comment r) [] || streqb (Comment r) Marker).

Definition known_backend (b : gostring) : bool :=
  bool_decide (b ∈ [BackendUFW; BackendNFT; BackendNone]).

Definition validatePlan (p : Plan) : bool :=
  (streqb (p_Role p) RoleIran || streqb (p_Role p) RoleGermany)
  && (streqb (p_Backend p) [] || streqb (p_Backend p) BackendAuto || known_backend (p_Backend p))
  && forallb rule_ok (Allow p ++ Deny p).

Definition sameRule (a b : Rule) : bool :=
  (Port a =? Port b) && streqb (Protocol a) (Protocol b) && streqb (Action a) (Action b) && streqb (Comment a) (Comment b).

Definition difference (want have : list Rule) : list Rule :=
  List.filter (λ r, negb (existsb (sameRule r) have)) want.

(** ** Commands *)

Definition cmd := list gostring.

Definition backendCommand (b op : gostring) : cmd :=
  if streqb b BackendUFW then map lit ["ufw"; "status"; "number"]%string
  else if streqb b BackendNFT then map lit ["nft"; "list"; "table"; "inet"; "split_tunnel"]%string
  else [b; op].

Definition ruleCommand (b op : gostring) (r : Rule) : cmd :=
  let port := Itoa (Port r) ++ x2f :: Protocol r in
  if streqb b BackendUFW then
    if streqb op (lit "remove") then [lit "ufw"; lit "delete"; Action r; port]
    else [lit "ufw"; Action r; port; lit "comment"; Marker]
  else if streqb b BackendNFT then
    let verb := if streqb op (lit "remove") then lit "delete" else lit "add" in
    [lit "nft"; verb; lit "rule"; lit "inet"; lit "split_tunnel"; lit "input"; Protocol r; lit "dport"; Itoa (Port r); Action r]
  else [b; op; port].

Definition addCommand (b : gostring) (r : Rule) : cmd := ruleCommand b (lit "add") r.
Definition removeCommand (b : gostring) (r : Rule) : cmd := ruleCommand b (lit "remove") r.
Definition inspectCommand (b : gostring) : cmd := backendCommand b (lit "inspect").

Section firewall.
Context (unicode_lower : gostring → gostring) (linux : bool) (commandExists : gostring → bool)
        (oracle : list cmd → cmd → option gostring).

(** The action a line names last, a reject being a deny. *)
Definition lineAction (fs : list gostring) : gostring :=
  let a := fold_left (λ a f, let l := to_lower unicode_lower f in
                             if bool_decide (l ∈ [Allow_; Deny_; lit "reject"]) then l else a) fs Allow_ in
  if streqb a (lit "reject") then Deny_ else a.

Definition lineRule (action field : gostring) : list Rule :=
  if has_suffix field (lit "/tcp") then
    match split_on x2f field with
    | part :: _ => match Atoi part with
                   | Some port => if (0 <? port) && (port <=? 65535) then [mkRule port Tcp action Marker] else []
                   | None => []
                   end
    | [] => []
    end
  else [].

Definition parseLine (line : gostring) : list Rule :=
  if contains Marker line then let fs := Fields line in concat (map (lineRule (lineAction fs)) fs) else [].

Definition parseRules (text : gostring) : list Rule := concat (map parseLine (split_on x0a text)).

(** ** The manager *)

(** A computation that runs commands. *)
Definition M (A : Type) : Type := list cmd → A * list cmd.

Definition Run (c : cmd) : M (option gostring) := λ h, (oracle h c, h ++ [c]).

Definition Detect : res error gostring :=
  if negb linux then Ok BackendNone
  else match commandExists (lit "ufw"), commandExists (lit "nft") with
       | true, true => Err ErrAmbiguous
       | true, false => Ok BackendUFW
       | false, true => Ok BackendNFT
       | false, false => Ok BackendNone
       end.

Definition backend (requested : gostring) : res error gostring :=
  if negb (streqb requested []) && negb (streqb requested BackendAuto) then
    if known_backend requested then Ok requested else Err ErrUnsupported
  else Detect.

Definition Inspect (p : Plan) : M (res error Snapshot) := λ h,
  if negb (validatePlan p) then (Err ErrInvalidPlan, h)
  else match backend (p_Backend p) with
       | Err e => (Err e, h)
       | Ok b =>
           if streqb b BackendNone then (Ok (mkSnapshot b []), h)
           else match Run (inspectCommand b) h with
                | (None, h) => (Err Failed, h)
                | (Some out, h) => (Ok (mkSnapshot b (parseRules out)), h)
                end
       end.

(** The inverse commands, newest first; the first that fails ends them. *)
Fixpoint rollback (b : gostring) (l : list Rule) : M error := λ h,
  match l with
  | [] => (Failed, h)
  | r :: l => match Run (removeCommand b r) h with
              | (None, h) => (RollbackFailed, h)
              | (Some _, h) => rollback b l h
              end
  end.

Fixpoint addAll (b : gostring) (missing added : list Rule) : M (Result * option error) := λ h,
  match missing with
  | [] => ((mkResult b added false, None), h)
  | r :: missing =>
      match Run (addCommand b r) h with
      | (None, h) => let '(e, h) := rollback b (reverse added) h in ((mkResult b added false, Some e), h)
      | (Some _, h) => addAll b missing (added ++ [r]) h
      end
  end.

Definition noResult : Result := mkResult [] [] false.

Definition Apply (p : Plan) : M (Result * option error) := λ h,
  if negb (validatePlan p) then ((noResult, Some ErrInvalidPlan), h)
  else match backend (p_Backend p) with
       | Err e => ((noResult, Some e), h)
       | Ok b =>
           if streqb b BackendNone then ((mkResult b [] true, None), h)
           else match Inspect p h with
                | (Err e, h) => ((noResult, Some e), h)
                | (Ok s, h) =>
                    match difference (Allow p ++ Deny p) (Rules s) with
                    | [] => ((mkResult b [] true, None), h)
                    | missing => addAll b missing [] h
                    end
                end
       end.

Fixpoint removeAll (b : gostring) (l : list Rule) : M (option error) := λ h,
  match l with
  | [] => (None, h)
  | r :: l =>
      if negb (streqb (Comment r) Marker) then removeAll b l h
      else match Run (removeCommand b r) h with
           | (None, h) => (Some Failed, h)
           | (Some _, h) => removeAll b l h
           end
  end.

Definition Remove (s : Snapshot) : M (option error) :=
  if streqb (s_Backend s) BackendNone then λ h, (None, h) else removeAll (s_Backend s) (Rules s).
End firewall.

(** ** The plan of the command line *)

Definition envFirewallBackend : gostring := lit "SPLITTERCTL_FIREWALL_BACKEND".
Definition envFirewallAllow : gostring := lit "SPLITTERCTL_FW_ALLOW".
Definition envFirewallDeny : gostring := lit "SPLITTERCTL_FW_DENY".

(** [os.Getenv] *)
Definition Getenv (e : env) (name : gostring) : gostring := default [] (e !! name).

Definition portRule (action part : gostring) : option Rule :=
  match Atoi (TrimSpace part) with
  | Some port => if (port <? 1) || (65535 <? port) then None else Some (mkRule port Tcp action Marker)
  | None => None
  end.

Fixpoint portRules (action : gostring) (parts : list gostring) : option (list Rule) :=
  match parts with
  | [] => Some []
  | part :: parts => match portRule action part, portRules action parts with
                     | Some r, Some rs => Some (r :: rs)
                     | _, _ => None
                     end
  end.

Definition firewallRulesFromEnv (e : env) (name action : gostring) : option (list Rule) :=
  let raw := TrimSpace (Getenv e name) in
  if streqb raw [] then Some [] else portRules action (split_on x2c raw).

Definition firewallPlanFromEnv (role : gostring) (e : env) : option Plan :=
  let raw := TrimSpace (Getenv e envFirewallBackend) in
  let raw := if streqb raw [] then BackendNone else raw in
  if negb (known_backend raw) && negb (streqb raw BackendAuto) then None
  else match firewallRulesFromEnv e envFirewallAllow Allow_, firewallRulesFromEnv e envFirewallDeny Deny_ with
       | Some allow, Some deny => Some (mkPlan raw role allow deny [])
       | _, _ => None
       end.

(** ** What the manager recognises as its own *)

Lemma sameRule_eq a b : sameRule a b = true ↔ a = b.
Proof.
  unfold sameRule. rewrite !andb_true_iff, Z.eqb_eq, !streqb_true. split; [|intros ->; done].
  destruct a, b; cbn. by intros [[[-> ->] ->] ->].
Qed.

Lemma elem_of_difference want have r : r ∈ difference want have ↔ r ∈ want ∧ r ∉ have.
Proof.
  unfold difference. rewrite list_elem_of_In, filter_In, <- list_elem_of_In, negb_true_iff.
  assert (existsb (sameRule r) have = true ↔ r ∈ have) as E.
  { rewrite existsb_exists, list_elem_of_In. split; [intros (x & Hx & ->%sameRule_eq); done|].
    intros Hx. exists r. split; [done|]. by apply sameRule_eq. }
  destruct (existsb (sameRule r) have); naive_solver.
Qed.

Lemma difference_nil want have : difference want have = [] ↔ ∀ r, r ∈ want → r ∈ have.
Proof.
  split.
  - intros E r Hr. destruct (decide (r ∈ have)) as [|Hn]; [done|].
    assert (r ∈ difference want have) as Hd by by apply elem_of_difference. by rewrite E, elem_of_nil in Hd.
  - intros H. destruct (difference want have) as [|r l] eqn:E; [done|].
    assert (r ∈ difference want have) as [Hw Hn]%elem_of_difference by (rewrite E; left). by destruct Hn; apply H.
Qed.

(** A rule the manager takes for its own. *)
Definition owned (r : Rule) : Prop :=
  Comment r = Marker ∧ Protocol r = Tcp ∧ 1 ≤ Port r ≤ 65535 ∧ (Action r = Allow_ ∨ Action r = Deny_).

Section manager.
Context (unicode_lower : gostring → gostring) (linux : bool) (commandExists : gostring → bool)
        (oracle : list cmd → cmd → option gostring).

Abbreviation Apply := (Firewall.Apply unicode_lower linux commandExists oracle).
Abbreviation Inspect := (Firewall.Inspect unicode_lower linux commandExists oracle).
Abbreviation Remove := (Firewall.Remove oracle).
Abbreviation parseRules := (Firewall.parseRules unicode_lower).
Abbreviation lineAction := (Firewall.lineAction unicode_lower).
Abbreviation backend := (Firewall.backend linux commandExists).

Lemma lineAction_known fs : lineAction fs = Allow_ ∨ lineAction fs = Deny_.
Proof.
  unfold Firewall.lineAction.
  set (step := λ a f : gostring, _).
  assert (∀ a, a ∈ [Allow_; Deny_; lit "reject"] → fold_left step fs a ∈ [Allow_; Deny_; lit "reject"]) as H.
  { induction fs as [|f fs IH]; intros a Ha; [done|]. cbn [fold_left]. apply IH. unfold step. by case_bool_decide. }
  specialize (H Allow_ ltac:(left)). set (a := fold_left step fs Allow_) in *. clearbody a.
  rewrite !elem_of_cons, elem_of_nil in H. destruct H as [-> | [-> | [-> | []]]]; [left|right|right]; reflexivity.
Qed.

Lemma parseRules_owned text r : r ∈ parseRules text → owned r.
Proof.
  unfold Firewall.parseRules. rewrite list_elem_of_In, in_concat. intros (l & Hl & Hr). apply in_map_iff in Hl as (line & <- & _).
  unfold parseLine in Hr. destruct (contains Marker line); [|done]. apply in_concat in Hr as (l & Hl & Hr).
  apply in_map_iff in Hl as (f & <- & _). unfold lineRule in Hr. destruct (has_suffix f _); [|done].
  destruct (split_on x2f f); [done|]. destruct (Atoi _) as [port|]; [|done].
  destruct (Z.ltb_spec 0 port); [|done]. destruct (Z.leb_spec port 65535); [|done]. destruct Hr as [<-|[]].
  split_and!; cbn; [done..|lia|lia|apply lineAction_known].
Qed.

(** ** What is run *)

Lemma rollback_spec b l h :
  ∃ k, (k ≤ length l)%nat ∧ snd (rollback oracle b l h) = h ++ map (removeCommand b) (take k l)
  ∧ match fst (rollback oracle b l h) with Failed => k = length l | RollbackFailed => (0 < k)%nat | _ => False end.
Proof.
  revert h. induction l as [|r l IH]; intros h; cbn [rollback].
  - exists 0%nat. cbn. by rewrite app_nil_r.
  - unfold Run. destruct (oracle h (removeCommand b r)).
    + destruct (IH (h ++ [removeCommand b r])) as (k & Hk & Hs & Hf). exists (S k). cbn [take map length].
      rewrite Hs, <- app_assoc. split_and!; [lia|done|]. destruct (fst _); lia || done.
    + exists 1%nat. cbn [take map length fst snd]. rewrite take_0. split_and!; [lia|done|lia].
Qed.

Lemma addAll_spec b missing added h :
  let '((r, e), h') := addAll oracle b missing added h in
  r_Backend r = b ∧ Unchanged r = false ∧
  match e with
  | None => Added r = added ++ missing ∧ h' = h ++ map (addCommand b) missing
  | Some x => ∃ done bad rest k, missing = done ++ bad :: rest ∧ Added r = added ++ done
      ∧ h' = h ++ map (addCommand b) done ++ [addCommand b bad] ++ map (removeCommand b) (take k (reverse (Added r)))
      ∧ (k ≤ length (Added r))%nat
      ∧ match x with Failed => k = length (Added r) | RollbackFailed => (0 < k)%nat | _ => False end
  end.
Proof.
  revert added h. induction missing as [|r missing IH]; intros added h; cbn [addAll].
  - cbn. by rewrite !app_nil_r.
  - unfold Run. destruct (oracle h (addCommand b r)).
    + specialize (IH (added ++ [r]) (h ++ [addCommand b r])). destruct (addAll _ _ _ _ _) as [[r' e] h'].
      destruct IH as (-> & -> & IH). split_and!; [done..|]. destruct e as [x|].
      * destruct IH as (dn & bad & rest & k & -> & Ha & -> & Hk & Hx). exists (r :: dn), bad, rest, k.
        split_and!; [done|by rewrite Ha, <- app_assoc|by rewrite <- !app_assoc|done|done].
      * destruct IH as (-> & ->). by rewrite <- !app_assoc.
    + destruct (rollback_spec b (reverse added) (h ++ [addCommand b r])) as (k & Hk & Hs & Hf).
      destruct (rollback _ _ _ _) as [e h']. cbn [fst snd] in *. cbn. split_and!; [done..|].
      exists [], r, missing, k. rewrite length_reverse in *. cbn. rewrite app_nil_r, Hs, <- app_assoc. done.
Qed.

Lemma Inspect_run p b h :
  validatePlan p = true → backend (p_Backend p) = Ok b → b ≠ BackendNone →
  Inspect p h = (match oracle h (inspectCommand b) with
                 | None => Err Failed
                 | Some out => Ok (mkSnapshot b (parseRules out))
                 end, h ++ [inspectCommand b]).
Proof.
  intros Hv Hb Hn. unfold Firewall.Inspect. rewrite Hv, Hb. cbn [negb].
  destruct (streqb b BackendNone) eqn:E; [by apply streqb_true in E|]. unfold Run. by destruct (oracle h _).
Qed.


(** What was applied stays applied: an apply of the same plan changes nothing
    exactly when the host lists every planned rule with the marker, and a plan
    with a rule that does not carry the marker, although valid, never gets
    there. *)
Theorem firewall_settles p b h out :
  validatePlan p = true → backend (p_Backend p) = Ok b → b ≠ BackendNone → oracle h (inspectCommand b) = Some out →
  let '((r, e), h') := Apply p h in
  (Unchanged r = true ↔ ∀ x, x ∈ Allow p ++ Deny p → x ∈ parseRules out)
  ∧ (Unchanged r = true → e = None ∧ h' = h ++ [inspectCommand b])
  ∧ ((∃ x, x ∈ Allow p ++ Deny p ∧ Comment x = []) → Unchanged r = false).
Proof.
  intros Hv Hb Hn Ho. unfold Firewall.Apply. rewrite Hv, Hb. cbn [negb].
  destruct (streqb b BackendNone) eqn:E; [by apply streqb_true in E|]. rewrite (Inspect_run p b h Hv Hb Hn), Ho. cbn [Rules].
  assert ((∃ x, x ∈ Allow p ++ Deny p ∧ Comment x = []) → difference (Allow p ++ Deny p) (parseRules out) ≠ []) as Hm.
  { intros (x & Hx & Hc) Hd. rewrite difference_nil in Hd. destruct (parseRules_owned _ _ (Hd x Hx)) as [Hc' _].
    by rewrite Hc in Hc'. }
  pose proof (difference_nil (Allow p ++ Deny p) (parseRules out)) as Hd.
  destruct (difference _ _) as [|m missing].
  - cbn. split; [by split; [intros _; apply Hd|]|]. split; [done|]. intros Hx. by destruct (Hm Hx).
  - pose proof (addAll_spec b (m :: missing) [] (h ++ [inspectCommand b])) as H.
    destruct (addAll _ _ _ _ _) as [[r e] h']. destruct H as (_ & Hu & _). rewrite Hu.
    split; [split; [done|]; intros Hx; by apply Hd in Hx|done].
Qed.

(** A removal runs only removals of marked rules of the snapshot, in order, and
    all of them unless one fails. *)
Lemma remove_only_owned s h :
  let '(e, h') := Remove s h in
  let marked := List.filter (λ r, streqb (Comment r) Marker) (Rules s) in
  ∃ k, h' = h ++ map (removeCommand (s_Backend s)) (take k marked)
  ∧ (s_Backend s ≠ BackendNone → e = None → k = length marked) ∧ (s_Backend s = BackendNone → k = 0%nat).
Proof.
  unfold Firewall.Remove. destruct (streqb (s_Backend s) BackendNone) eqn:E.
  { apply streqb_true in E. exists 0%nat. rewrite take_0. cbn. by rewrite app_nil_r. }
  apply streqb_false in E. revert h. induction (Rules s) as [|r l IH]; intros h; cbn [removeAll List.filter].
  - exists 0%nat. cbn. by rewrite app_nil_r.
  - destruct (streqb (Comment r) Marker); cbn [negb]; [|apply IH]. unfold Run.
    destruct (oracle h (removeCommand (s_Backend s) r)).
    + specialize (IH (h ++ [removeCommand (s_Backend s) r])). destruct (removeAll _ _ _ _) as [e h'].
      destruct IH as (k & -> & Hk & _). exists (S k). cbn [take map length]. rewrite <- app_assoc.
      split_and!; [done|intros; by rewrite Hk|done].
    + exists 1%nat. cbn [take map]. rewrite take_0. done.
Qed.
End manager.

(** ** The plan of the command line is one the manager accepts *)

Lemma portRules_ok action parts rs :
  action = Allow_ ∨ action = Deny_ → portRules action parts = Some rs → Forall (λ r, rule_ok r = true ∧ owned r) rs.
Proof.
  intros Ha. revert rs. induction parts as [|part parts IH]; intros rs; cbn; [intros [= <-]; constructor|].
  destruct (portRule action part) as [r|] eqn:Hr; [|done]. destruct (portRules action parts); [|done]. intros [= <-].
  constructor; [|by apply IH]. unfold portRule in Hr. destruct (Atoi _) as [port|]; [|done].
  destruct (Z.ltb_spec port 1); [done|]. destruct (Z.ltb_spec 65535 port); [done|]. injection Hr as <-. split.
  - unfold rule_ok. cbn. destruct (Z.ltb_spec port 1); [lia|]. destruct (Z.ltb_spec 65535 port); [lia|].
    by destruct Ha as [-> | ->].
  - split_and!; cbn; [done..|lia|lia|done].
Qed.

(** The plan the command line builds from its environment is one the manager
    accepts, and every rule of it is one the manager recognises again. *)
Theorem env_plan_valid role e p :
  role = RoleIran ∨ role = RoleGermany → firewallPlanFromEnv role e = Some p →
  validatePlan p = true ∧ ∀ r, r ∈ Allow p ++ Deny p → owned r.
Proof.
  intros Hrole. unfold firewallPlanFromEnv. set (raw := if streqb _ [] then _ else _). clearbody raw.
  destruct (negb (known_backend raw) && negb (streqb raw BackendAuto)) eqn:Hb; [done|].
  assert (∀ name action rs, action = Allow_ ∨ action = Deny_ → firewallRulesFromEnv e name action = Some rs →
            Forall (λ r, rule_ok r = true ∧ owned r) rs) as H.
  { intros name action rs Ha. unfold firewallRulesFromEnv. cbv zeta. case_match; [intros E; injection E as <-; constructor|]. by apply portRules_ok. }
  destruct (firewallRulesFromEnv e envFirewallAllow Allow_) as [a|] eqn:Hallow; [|done].
  destruct (firewallRulesFromEnv e envFirewallDeny Deny_) as [d|] eqn:Hdeny; [|done]. intros [= <-].
  apply H in Hallow; [|by left]. apply H in Hdeny; [|by right]. cbn [Allow Deny].
  assert (Forall (λ r, rule_ok r = true ∧ owned r) (a ++ d)) as Hall by by apply Forall_app.
  split; [|intros r Hr; rewrite Forall_forall in Hall; by apply Hall].
  unfold validatePlan. cbn [p_Role p_Backend Allow Deny]. rewrite !andb_true_iff. split_and!.
  - by destruct Hrole as [-> | ->].
  - destruct (known_backend raw); [by rewrite orb_true_r|]. destruct (streqb raw BackendAuto); [by rewrite orb_true_r|done].
  - apply forallb_forall. intros r Hr. rewrite Forall_forall in Hall. by apply Hall, list_elem_of_In.
Qed.

(** ** Listings *)

(** A numbered UFW listing: the marked rule is recognised, once for IPv4 and
    once for IPv6, the operator's own rule is not. *)
Example ufw_listing :
  parseRules (λ s, s)
    (lit "[ 1] 22/tcp                     ALLOW IN    Anywhere" ++ [x0a]
     ++ lit "[ 2] 443/tcp                    DENY IN     Anywhere                   # split-tunnel" ++ [x0a]
     ++ lit "[ 3] 443/tcp (v6)               DENY IN     Anywhere (v6)              # split-tunnel")
  = [mkRule 443 Tcp Deny_ Marker; mkRule 443 Tcp Deny_ Marker].
Proof. vm_compute. reflexivity. Qed.

(** An nftables rule is added without the marker, so a listing of the table
    shows nothing the manager recognises: every apply adds the rules again, and
    a removal, which goes by the listing, removes none of them. *)
Example nft_listing :
  parseRules (λ s, s)
    (lit "table inet split_tunnel {" ++ [x0a] ++ lit "	chain input {" ++ [x0a]
     ++ lit "		tcp dport 443 accept" ++ [x0a] ++ lit "	}" ++ [x0a] ++ lit "}") = []
  ∧ existsb (contains Marker) (addCommand BackendNFT (mkRule 443 Tcp Allow_ Marker)) = false.
Proof. vm_compute. split; reflexivity. Qed.
