(* ===== verification/Units.v ===== *)
(** * Unit files (src/internal/systemd/render.go, extra_units.go)

    The specification of a unit, its validation and the renderer, a pure
    function.  What the operator controls is the path of a binary: [unit_exact]
    reads a rendered unit back by its directives.  The extra units take more
    paths, and two of them are not checked ([extra_unit_exact],
    [dashboard_path_injects]). *)
From S2P Require Export Lines Config EnvFile.
#[local] Open Scope Z_scope.

Definition ComponentSplitter : gostring := lit "splitter".
Definition ComponentXray : gostring := lit "xray".
Definition ComponentOrigin : gostring := lit "origin".
Definition ServiceUser : gostring := lit "split-tunnel".
Definition ServiceGroup : gostring := lit "split-tunnel".
Definition XrayKeyGroup : gostring := lit "split-tunnel-xray".
Definition UnitDir : gostring := lit "/etc/systemd/system".
Definition WantsDir : gostring := lit "/etc/systemd/system/multi-user.target.wants".
Definition StateDir : gostring := lit "/etc/split-tunnel".
Definition LogDir : gostring := lit "/var/log/split-tunnel".
Definition DataDir : gostring := lit "/var/lib/split-tunnel".
Definition BinaryPrefix : gostring := lit "/opt/split-tunnel".
Definition UnitsBackupDir : gostring := StateDir ++ lit "/units-backup".
Definition XrayBinaryPath : gostring := BinaryPrefix ++ lit "/xray/current/xray".
Definition maxBinPathLen : nat := 4096.

(** [EnvFile] and [canonicalEnvFile]: the directory is the constant. *)
Definition EnvFile (role : gostring) : gostring := StateDir ++ lit "/" ++ role ++ lit ".env".
Definition canonicalEnvFile (role : gostring) : gostring := StateDir ++ lit "/" ++ role ++ lit ".env".

Record Spec := mkSpec {
  u_Role : gostring; Component : gostring; BinPath : gostring; u_EnvFile : gostring; UnitName : gostring;
  OriginVersion : gostring; OriginEnabled : bool; RequiresUnits : list gostring
}.

#[export] Instance Spec_expandable : Expandable Spec := {| expand := λ s,
  mkSpec (u_Role s) (Component s) (BinPath s) (u_EnvFile s) (UnitName s) (OriginVersion s) (OriginEnabled s) (RequiresUnits s) |}.

(** ** Names and paths *)

Definition alnum (c : byte) : bool := is_lower c || is_digit c.

(** [^[a-z0-9][a-z0-9-]*] and a suffix. *)
Definition named (suffix name : gostring) : bool :=
  has_suffix name suffix
  && match take (length name - length suffix) name with
     | c :: l => alnum c && forallb (λ c, alnum c || beqb c x2d) l
     | [] => false
     end.

Definition unitNameRE : gostring → bool := named (lit ".service").
Definition socketNameRE : gostring → bool := named (lit ".socket").

Definition digits_ok (s : gostring) : bool := negb (streqb s []) && forallb is_digit s.
Definition versionRE (v : gostring) : bool :=
  match v with
  | c :: v => beqb c x76 && match split_on x2e v with [a; b; c] => digits_ok a && digits_ok b && digits_ok c | _ => false end
  | [] => false
  end.

Definition isAbsPath (p : gostring) : bool :=
  has_prefix [x2f] p || match p with _ :: b :: c :: _ => beqb b x3a && (beqb c x5c || beqb c x2f) | _ => false end.

Definition blanks : gostring := [x20; x09; x0a].

Definition path_ok (p : gostring) : bool := negb (streqb p []) && isAbsPath p && negb (contains_any blanks p).

Definition binPath_ok (p : gostring) : bool := path_ok p && (length p <=? maxBinPathLen)%nat.

Definition known_role (r : gostring) : bool := streqb r RoleGermany || streqb r RoleIran.

Definition defaultUnitName (s : Spec) : option gostring :=
  if streqb (Component s) ComponentSplitter then Some (u_Role s ++ lit "-splitter.service")
  else if streqb (Component s) ComponentXray then if streqb (u_Role s) RoleGermany then Some (lit "xray-germany.service") else None
  else if streqb (Component s) ComponentOrigin then if streqb (u_Role s) RoleIran then Some (lit "iran-origin.service") else None
  else None.

Definition unitName (s : Spec) : option gostring :=
  match (if streqb (UnitName s) [] then defaultUnitName s else Some (UnitName s)) with
  | Some name => if unitNameRE name then Some name else None
  | None => None
  end.

Definition validate (s : Spec) : bool :=
  known_role (u_Role s)
  && match unitName s with Some _ => true | None => false end
  && negb (streqb (Component s) ComponentOrigin && negb (streqb (u_Role s) RoleIran))
  && negb (streqb (Component s) ComponentXray && negb (streqb (u_Role s) RoleGermany))
  && binPath_ok (BinPath s)
  && (if streqb (Component s) ComponentSplitter then
        streqb (u_EnvFile s) (canonicalEnvFile (u_Role s)) && streqb (OriginVersion s) []
      else if streqb (Component s) ComponentXray then streqb (u_EnvFile s) [] && streqb (OriginVersion s) []
      else if streqb (Component s) ComponentOrigin then streqb (u_EnvFile s) [] && versionRE (OriginVersion s)
      else true)
  && forallb unitNameRE (RequiresUnits s).

(** ** The renderer *)

Definition description (role component : gostring) : gostring :=
  if streqb role RoleGermany then
    if streqb component ComponentSplitter then lit "germany-splitter (asymmetric split-tunnel)"
    else if streqb component ComponentXray then lit "Xray core (Germany down-carrier, VLESS+Reality)" else []
  else if streqb component ComponentSplitter then lit "iran-splitter (asymmetric split-tunnel)"
  else if streqb component ComponentOrigin then lit "Caddy up-carrier origin (iran)" else [].

Definition unitBase (name : gostring) : gostring := take (length name - 8) name.

(** The targets the unit is ordered after and wants: the same list. *)
Definition orderingTargets (s : Spec) : list gostring :=
  lit "network-online.target" ::
  (if streqb (Component s) ComponentSplitter then
     (if streqb (u_Role s) RoleGermany then [lit "xray-germany.service"] else [])
     ++ (if streqb (u_Role s) RoleIran && OriginEnabled s then [lit "iran-origin.service"] else [])
   else []).

Definition exec_lines (s : Spec) : list gostring :=
  if streqb (Component s) ComponentSplitter then
    [lit "ExecStart=" ++ BinPath s; lit "EnvironmentFile=" ++ u_EnvFile s; lit "Restart=always"]
  else if streqb (Component s) ComponentXray then
    [lit "ExecStart=" ++ BinPath s ++ lit " run -config " ++ StateDir ++ lit "/xray-germany.json"; lit "Restart=on-failure"]
  else if streqb (Component s) ComponentOrigin then
    [lit "Environment=XDG_DATA_HOME=" ++ DataDir;
     lit "ExecStart=" ++ BinPath s ++ lit " run --config " ++ StateDir ++ lit "/Caddyfile --adapter caddyfile"; lit "Restart=on-failure"]
  else [].

Definition unit_lines (name : gostring) (s : Spec) : list gostring :=
  [lit "# " ++ name; lit "[Unit]"; lit "Description=" ++ description (u_Role s) (Component s);
   lit "After=" ++ join_words (orderingTargets s); lit "Wants=" ++ join_words (orderingTargets s);
   lit "StartLimitIntervalSec=300"; lit "StartLimitBurst=10"; []; lit "[Service]"; lit "Type=simple";
   lit "User=" ++ ServiceUser; lit "Group=" ++ ServiceGroup]
  ++ exec_lines s ++ [lit "RestartSec=5"]
  ++ (if streqb (Component s) ComponentXray then
        [lit "RestartPreventExitStatus=23"; lit "AmbientCapabilities=CAP_NET_BIND_SERVICE";
         lit "CapabilityBoundingSet=CAP_NET_BIND_SERVICE"; lit "LimitNOFILE=100000"; lit "SupplementaryGroups=" ++ XrayKeyGroup]
      else [lit "LimitNOFILE=65535"])
  ++ [lit "NoNewPrivileges=true"; lit "PrivateTmp=true"; lit "ProtectSystem=full"; lit "ProtectHome=true"]
  ++ (if streqb (Component s) ComponentXray then [lit "ReadWritePaths=" ++ LogDir]
      else if streqb (Component s) ComponentOrigin then [lit "ReadWritePaths=" ++ DataDir] else [])
  ++ [lit "StandardOutput=journal"; lit "StandardError=journal"; lit "SyslogIdentifier=" ++ unitBase name; [];
      lit "[Install]"; lit "WantedBy=multi-user.target"].

Definition RenderUnit (s : Spec) : option (list byte) :=
  if negb (validate s) then None
  else match unitName s with None => None | Some name => Some (unlines (unit_lines name s)) end.

(** ** The extra units *)

Record ExtraUnitSpec := mkExtra {
  e_Unit : gostring; e_BinPath : gostring; BasePath : gostring; e_EnvFile : gostring; ConfigPath : gostring;
  ControlAgentStoreRoot : gostring; ControlAgentSocketPath : gostring
}.

Definition XrayConsumer : gostring := lit "xray-consumer.service".
Definition Tunneldash : gostring := lit "tunneldash.service".
Definition ControlAgent : gostring := lit "control-agent.service".
Definition ControlAgentSocket : gostring := lit "control-agent.socket".
Definition controlAgentSocketGroup : gostring := lit "tunneldash-ctl".

Definition basePathRE (s : gostring) : bool :=
  (length s =? 32)%nat && forallb (λ c, is_digit c || ((97 <=? bz c) && (bz c <=? 102))) s.

Definition abs_given (p : gostring) : bool := negb (streqb p []) && isAbsPath p.

Definition validateExtra (s : ExtraUnitSpec) : bool :=
  bool_decide (e_Unit s ∈ [XrayConsumer; Tunneldash; ControlAgent; ControlAgentSocket])
  && (unitNameRE (e_Unit s) || socketNameRE (e_Unit s))
  && binPath_ok (e_BinPath s)
  && (if streqb (e_Unit s) XrayConsumer then streqb (BasePath s) [] && streqb (e_EnvFile s) [] && streqb (ConfigPath s) []
      else if streqb (e_Unit s) Tunneldash then basePathRE (BasePath s) && abs_given (e_EnvFile s) && abs_given (ConfigPath s)
      else if streqb (e_Unit s) ControlAgent then
        path_ok (ControlAgentStoreRoot s) && streqb (BasePath s) [] && streqb (e_EnvFile s) [] && streqb (ConfigPath s) []
      else path_ok (ControlAgentSocketPath s)).

Definition network_lines : list gostring :=
  map lit ["After=network-online.target"; "Wants=network-online.target"; "StartLimitIntervalSec=300"; "StartLimitBurst=10"; "";
           "[Service]"; "Type=simple"]%string
  ++ [lit "User=" ++ ServiceUser; lit "Group=" ++ ServiceGroup].

Definition renderXrayConsumer (s : ExtraUnitSpec) : list byte := unlines (
  map lit ["# xray-consumer.service"; "[Unit]"; "Description=Xray core (Iran up-carrier consumer, VLESS+Reality)"]%string
  ++ network_lines
  ++ [lit "ExecStart=" ++ e_BinPath s ++ lit " run -config " ++ StateDir ++ lit "/xray-consumer.json"]
  ++ map lit ["Restart=on-failure"; "RestartSec=5"; "RestartPreventExitStatus=23"; "LimitNOFILE=100000"; "NoNewPrivileges=true";
              "PrivateTmp=true"; "ProtectSystem=full"; "ProtectHome=true"]%string
  ++ [lit "ReadWritePaths=" ++ LogDir]
  ++ map lit ["StandardOutput=journal"; "StandardError=journal"; "SyslogIdentifier=xray-consumer"; ""; "[Install]";
              "WantedBy=multi-user.target"]%string).

Definition renderTunneldash (s : ExtraUnitSpec) : list byte := unlines (
  map lit ["# tunneldash.service"; "[Unit]"; "Description=Split-tunnel monitoring dashboard (tunneldash)"]%string
  ++ network_lines
  ++ [lit "EnvironmentFile=" ++ e_EnvFile s; lit "ExecStart=" ++ e_BinPath s ++ lit " -config " ++ ConfigPath s]
  ++ map lit ["Restart=always"; "RestartSec=5"; "LimitNOFILE=65535"; "NoNewPrivileges=true"; "PrivateTmp=true"; "ProtectSystem=full";
              "ProtectHome=true"; "ProtectKernelTun=true"; "ProtectKernelModules=true"; "ProtectControlGroups=true";
              "RestrictAddressFamilies=AF_INET AF_INET6 AF_UNIX AF_NETLINK"; "RestrictNamespaces=user"; "RestrictRealtime=true";
              "RestrictSUIDSGID=true"; "LockPersonality=true"; "MemoryDenyWriteExecute=true"; "SystemCallArchitectures=native";
              "CapabilityBoundingSet="]%string
  ++ [lit "ReadWritePaths=" ++ LogDir]
  ++ map lit ["StandardOutput=journal"; "StandardError=journal"; "SyslogIdentifier=tunneldash"; ""; "[Install]";
              "WantedBy=multi-user.target"]%string).

Definition renderControlAgent (s : ExtraUnitSpec) : list byte :=
  let agentLogDir := LogDir ++ lit "/control-agent" in
  unlines (
  map lit ["# control-agent.service"; "[Unit]"; "Description=Split-tunnel control agent (C2 apply plane, root-owned)";
           "Requires=control-agent.socket"; "After=network.target control-agent.socket"; "StartLimitIntervalSec=300";
           "StartLimitBurst=10"; ""; "[Service]"; "Type=notify"; "NotifyAccess=all"; "User=root"; "Group=root"]%string
  ++ [lit "ExecStart=" ++ e_BinPath s ++ lit " control-agent --store-root " ++ ControlAgentStoreRoot s ++ lit " --log-dir " ++ agentLogDir]
  ++ map lit ["Restart=on-failure"; "RestartSec=5"; "LimitNOFILE=65535"; "ProtectHome=yes"; "PrivateTmp=yes"; "ProtectKernelTunables=yes";
              "ProtectControlGroups=yes"; "ProtectSystem=full"; "ProtectKernelModules=yes"; "ProtectProc=invisible";
              "RestrictAddressFamilies=AF_UNIX"; "RestrictNamespaces=yes"; "RestrictRealtime=yes"; "RestrictSUIDSGID=yes";
              "LockPersonality=yes"; "MemoryDenyWriteExecute=yes"; "SystemCallArchitectures=native"; "NoNewPrivileges=yes"]%string
  ++ [lit "ReadWritePaths=" ++ ControlAgentStoreRoot s ++ lit " " ++ agentLogDir ++ lit " /run/split-tunnel-ctl /etc/split-tunnel"]
  ++ map lit ["SupplementaryGroups=tunneldash-ctl"; "StandardOutput=journal"; "StandardError=journal"; "SyslogIdentifier=control-agent";
              ""; "[Install]"; "WantedBy=multi-user.target"]%string).

Definition renderControlAgentSocket (s : ExtraUnitSpec) : list byte := unlines (
  map lit ["# control-agent.socket"; "[Unit]"; "Description=Split-tunnel control agent socket (C2 apply plane)"; ""; "[Socket]"]%string
  ++ [lit "ListenStream=" ++ ControlAgentSocketPath s; lit "SocketUser=root"; lit "SocketGroup=" ++ controlAgentSocketGroup]
  ++ map lit ["SocketMode=0660"; "Accept=no"; ""; "[Install]"; "WantedBy=sockets.target"]%string).

Definition RenderExtraUnit (s : ExtraUnitSpec) : option (list byte) :=
  if negb (validateExtra s) then None
  else if streqb (e_Unit s) XrayConsumer then Some (renderXrayConsumer s)
  else if streqb (e_Unit s) Tunneldash then Some (renderTunneldash s)
  else if streqb (e_Unit s) ControlAgent then Some (renderControlAgent s)
  else if streqb (e_Unit s) ControlAgentSocket then Some (renderControlAgentSocket s)
  else None.

(** ** Reading a unit back *)

(** The values of a key, in order. *)
Definition values (key : gostring) (lines : list gostring) : list gostring :=
  omap (λ l, if has_prefix (key ++ [x3d]) l then Some (drop (S (length key)) l) else None) lines.

Definition directive (key : gostring) (out : list byte) : list gostring := values key (split_on x0a out).

Lemma values_app key l l' : values key (l ++ l') = values key l ++ values key l'.
Proof. unfold values. apply omap_app. Qed.

Lemma directive_lines key l : Forall (λ s, x0a ∉ s) l → key ≠ [] → directive key (unlines l) = values key l.
Proof.
  intros H Hk. unfold directive. rewrite split_unlines, values_app by done. unfold values at 2. cbn [omap list_omap].
  destruct key; [done|]. cbn [app has_prefix]. by rewrite app_nil_r.
Qed.

Lemma no_feed_lit s : forallb (λ c, negb (beqb c x0a)) s = true → x0a ∉ s.
Proof. rewrite forallb_forall. intros H Hin%list_elem_of_In%H. done. Qed.

Lemma no_feed_app s t : x0a ∉ s → x0a ∉ t → x0a ∉ (s ++ t).
Proof. intros Hs Ht. rewrite elem_of_app. tauto. Qed.

Lemma named_no_feed suffix name : forallb (λ c, negb (beqb c x0a || beqb c x2f)) suffix = true → named suffix name = true → (x0a ∉ name) ∧ (x2f ∉ name).
Proof.
  intros Hs [Hsuf H]%andb_true_iff. apply has_suffix_iff in Hsuf as [k ->].
  rewrite length_app, Nat.add_sub, take_app_length in *.
  destruct k as [|c k]; [done|]. apply andb_true_iff in H as [Hc Hk].
  assert (∀ x, x ∈ c :: k → alnum x = true ∨ x = x2d) as Hall.
  { intros x Hx. apply elem_of_cons in Hx as [->|Hx]; [by left|]. rewrite forallb_forall in Hk.
    apply list_elem_of_In, Hk, orb_true_iff in Hx as [?|?%beqb_true]; by auto. }
  rewrite forallb_forall in Hs. split; rewrite elem_of_app; (intros [Hx%Hall|Hx%list_elem_of_In%Hs]; [by destruct Hx|done]).
Qed.

Lemma path_no_feed p : path_ok p = true → x0a ∉ p.
Proof.
  unfold path_ok. rewrite !andb_true_iff. intros [_ H%negb_true_iff] Hin.
  assert (contains_any blanks p = true); [|congruence]. unfold contains_any. rewrite existsb_exists. exists x0a. split; [right; right; by left|].
  unfold has_char. rewrite existsb_exists. exists x0a. split; [by apply list_elem_of_In|by apply beqb_true].
Qed.

(** What [validate] gives about a unit. *)
Lemma validate_facts s :
  validate s = true →
  (u_Role s = RoleGermany ∨ u_Role s = RoleIran) ∧ (∃ name, unitName s = Some name ∧ unitNameRE name = true)
  ∧ path_ok (BinPath s) = true
  ∧ (Component s = ComponentSplitter → u_EnvFile s = canonicalEnvFile (u_Role s)).
Proof.
  unfold validate. rewrite !andb_true_iff. intros [[[[[[Hr Hn] _] _] Hb] He] _]. split_and!.
  - unfold known_role in Hr. by apply orb_true_iff in Hr as [?%streqb_true|?%streqb_true]; auto.
  - destruct (unitName s) as [name|] eqn:E; [|done]. exists name. split; [done|]. unfold unitName in E.
    destruct (if streqb _ [] then _ else _) as [n|]; [|done]. destruct (unitNameRE n) eqn:En; [|done]. congruence.
  - by apply andb_true_iff in Hb as [? _].
  - intros Hc. rewrite Hc in He. names. change (streqb ComponentSplitter ComponentSplitter) with true in He. cbv iota in He.
    by apply andb_true_iff in He as [?%streqb_true _].
Qed.

Lemma lines_free name s :
  validate s = true → unitNameRE name = true → Forall (λ l, x0a ∉ l) (unit_lines name s).
Proof.
  intros Hv Hn. destruct (validate_facts s Hv) as (Hr & _ & Hb & He). apply path_no_feed in Hb.
  destruct (named_no_feed (lit ".service") name eq_refl Hn) as [Hnf _].
  assert (x0a ∉ unitBase name) as Hbase.
  { intros H. apply Hnf. unfold unitBase in H. by eapply elem_of_take in H as (? & ? & _); eapply list_elem_of_lookup_2. }
  assert (∀ a b c, x0a ∉ b → forallb (λ x, negb (beqb x x0a)) a = true → forallb (λ x, negb (beqb x x0a)) c = true →
            (x0a ∉ (a ++ b)) ∧ (x0a ∉ (a ++ b ++ c))) as Happ.
  { intros a b c Hb' Ha Hc. apply no_feed_lit in Ha, Hc. split; repeat apply no_feed_app; done. }
  assert (Forall (λ l, x0a ∉ l) (exec_lines s)) as Hexec.
  { unfold exec_lines. destruct (streqb (Component s) ComponentSplitter) eqn:E.
    - apply streqb_true in E. rewrite (He E). constructor; [by apply (Happ _ _ [])|].
      destruct Hr as [-> | ->]; repeat constructor; by apply no_feed_lit.
    - destruct (streqb _ ComponentXray); [|destruct (streqb _ ComponentOrigin)]; repeat constructor;
        first [by apply Happ | by apply no_feed_lit]. }
  assert ((x0a ∉ (lit "After=" ++ join_words (orderingTargets s))) ∧ (x0a ∉ (lit "Wants=" ++ join_words (orderingTargets s)))) as [Ha Hw].
  { unfold orderingTargets. split; destruct (streqb (Component s) ComponentSplitter); try by apply no_feed_lit.
    all: destruct (streqb (u_Role s) RoleGermany), (streqb (u_Role s) RoleIran), (OriginEnabled s); by apply no_feed_lit. }
  assert (x0a ∉ (lit "Description=" ++ description (u_Role s) (Component s))) as Hd.
  { unfold description. repeat case_match; by apply no_feed_lit. }
  unfold unit_lines. rewrite !Forall_app. split_and!; try done.
  - repeat first [constructor; [first [done | by apply no_feed_lit | apply no_feed_app; [by apply no_feed_lit|done]]|] | constructor].
  - by repeat constructor; apply no_feed_lit.
  - destruct (streqb _ ComponentXray); repeat constructor; by apply no_feed_lit.
  - repeat constructor; by apply no_feed_lit.
  - destruct (streqb _ ComponentXray); [|destruct (streqb _ ComponentOrigin)]; repeat constructor; by apply no_feed_lit.
  - repeat first [constructor; [first [by apply no_feed_lit | apply no_feed_app; [by apply no_feed_lit|done]]|] | constructor].
Qed.

(** What [ExecStart] runs. *)
Definition exec_of (s : Spec) : list gostring :=
  if streqb (Component s) ComponentSplitter then [BinPath s]
  else if streqb (Component s) ComponentXray then [BinPath s ++ lit " run -config " ++ StateDir ++ lit "/xray-germany.json"]
  else if streqb (Component s) ComponentOrigin then [BinPath s ++ lit " run --config " ++ StateDir ++ lit "/Caddyfile --adapter caddyfile"]
  else [].

(** A unit is rendered for exactly the valid specifications.  Read back, it has
    the lines of the template and no other: one [ExecStart] of the given binary,
    the fixed unprivileged user, no new privileges; only a splitter has an
    environment file, that of its role, and no value of it; only Xray is in the
    group that reads the Reality key; and the file name stays in the directory. *)
Theorem unit_exact s :
  match RenderUnit s with
  | None => validate s = false
  | Some out =>
      validate s = true ∧ ∃ name, unitName s = Some name ∧ (x2f ∉ name) ∧ split_on x0a out = unit_lines name s ++ [[]]
      ∧ directive (lit "ExecStart") out = exec_of s
      ∧ directive (lit "User") out = [ServiceUser]
      ∧ directive (lit "NoNewPrivileges") out = [lit "true"]
      ∧ directive (lit "EnvironmentFile") out =
          (if streqb (Component s) ComponentSplitter then [canonicalEnvFile (u_Role s)] else [])
      ∧ directive (lit "Environment") out =
          (if streqb (Component s) ComponentOrigin then [lit "XDG_DATA_HOME=" ++ DataDir] else [])
      ∧ directive (lit "SupplementaryGroups") out = (if streqb (Component s) ComponentXray then [XrayKeyGroup] else [])
  end.
Proof.
  unfold RenderUnit. destruct (validate s) eqn:Hv; [|done]. cbn [negb].
  destruct (validate_facts s Hv) as (Hr & (name & Hname & Hn) & _ & He). rewrite Hname.
  pose proof (lines_free name s Hv Hn) as Hf. destruct (named_no_feed (lit ".service") name eq_refl Hn) as [_ Hslash].
  split; [done|]. exists name. split; [done|]. split; [done|]. split; [by apply split_unlines|].
  rewrite !directive_lines by done. unfold unit_lines, exec_lines, exec_of.
  destruct (streqb (Component s) ComponentSplitter) eqn:E1.
  { apply streqb_true in E1. rewrite (He E1), E1. change (streqb ComponentSplitter ComponentXray) with false.
    change (streqb ComponentSplitter ComponentOrigin) with false. split_and!; vm_compute; reflexivity. }
  destruct (streqb (Component s) ComponentXray) eqn:E2.
  { apply streqb_true in E2. rewrite E2. change (streqb ComponentXray ComponentOrigin) with false. split_and!; vm_compute; reflexivity. }
  destruct (streqb (Component s) ComponentOrigin); split_and!; vm_compute; reflexivity.
Qed.

(** ** The extra units *)

Definition extra_exec (s : ExtraUnitSpec) : list gostring :=
  if streqb (e_Unit s) XrayConsumer then [e_BinPath s ++ lit " run -config " ++ StateDir ++ lit "/xray-consumer.json"]
  else if streqb (e_Unit s) Tunneldash then [e_BinPath s ++ lit " -config " ++ ConfigPath s]
  else if streqb (e_Unit s) ControlAgent then
    [e_BinPath s ++ lit " control-agent --store-root " ++ ControlAgentStoreRoot s ++ lit " --log-dir " ++ LogDir ++ lit "/control-agent"]
  else [].

Definition extra_user (s : ExtraUnitSpec) : list gostring :=
  if streqb (e_Unit s) ControlAgent then [lit "root"]
  else if streqb (e_Unit s) ControlAgentSocket then [] else [ServiceUser].

Ltac free_lines :=
  repeat first [ apply Forall_app; split
               | constructor; [first [done | by apply no_feed_lit
                                     | repeat (apply no_feed_app; [first [done | by apply no_feed_lit]|]); first [done | by apply no_feed_lit]]|]
               | constructor ].

(** An extra unit has the lines of its template and no other, if the two paths
    of the dashboard that are not checked have no line feed. *)
Lemma extra_unit_exact s out :
  RenderExtraUnit s = Some out → x0a ∉ e_EnvFile s → x0a ∉ ConfigPath s →
  directive (lit "ExecStart") out = extra_exec s ∧ directive (lit "User") out = extra_user s.
Proof.
  unfold RenderExtraUnit, extra_exec, extra_user. destruct (validateExtra s) eqn:Hv; [|done]. cbn [negb]. intros H He Hc.
  unfold validateExtra in Hv. rewrite !andb_true_iff in Hv. destruct Hv as [[_ Hb] Hk].
  apply andb_true_iff in Hb as [Hb%path_no_feed _].
  destruct (streqb (e_Unit s) XrayConsumer) eqn:E1.
  { apply streqb_true in E1. rewrite E1. injection H as <-. names. unfold renderXrayConsumer. rewrite !directive_lines by (done || free_lines).
    split; vm_compute; reflexivity. }
  destruct (streqb (e_Unit s) Tunneldash) eqn:E2.
  { apply streqb_true in E2. rewrite E2. injection H as <-. names. unfold renderTunneldash. rewrite !directive_lines by (done || free_lines).
    split; vm_compute; reflexivity. }
  destruct (streqb (e_Unit s) ControlAgent) eqn:E3.
  { rewrite !andb_true_iff in Hk. destruct Hk as [[[Hk%path_no_feed _] _] _]. injection H as <-.
    unfold renderControlAgent. cbv zeta. rewrite !directive_lines by (done || free_lines). split; vm_compute; reflexivity. }
  destruct (streqb (e_Unit s) ControlAgentSocket); [|done]. apply path_no_feed in Hk. injection H as <-.
  unfold renderControlAgentSocket. rewrite !directive_lines by (done || free_lines). split; vm_compute; reflexivity.
Qed.

(** The paths of the dashboard's configuration and environment file only have to
    be absolute: a line feed in one adds a directive to the unit. *)
Example dashboard_path_injects :
  let s := mkExtra Tunneldash (lit "/opt/split-tunnel/tunneldash") (replicate 32 x61) (lit "/etc/split-tunnel/dashboard.env")
             (lit "/etc/split-tunnel/dashboard.json" ++ [x0a] ++ lit "ExecStartPre=/bin/sh") [] [] in
  ∃ out, RenderExtraUnit s = Some out ∧ directive (lit "ExecStartPre") out = [lit "/bin/sh"].
Proof. eexists. split; [vm_compute; reflexivity|]. vm_compute. reflexivity. Qed.
