(* ===== verification/Pairing.v ===== *)
(** * Pairing blobs (src/internal/pairing/pairing.go)

    The operators of the two nodes exchange two texts: blob A carries the tunnel
    secret and the upload domain to Germany, blob B the public Reality
    parameters back.  A blob is [splat-v1.<base64url payload>.<base64url
    digest>].  The payload is JSON: its encoder and its decoders are parameters,
    with the law that a decoder returns what was encoded when the strings are
    ASCII; SHA-256 is a parameter with digests of 32 bytes.  The file also holds
    the validators the other programs share, the generators of secrets and
    identifiers, with the random bytes as argument, and [Redact]. *)
From S2P Require Export Lines Config.
#[local] Open Scope Z_scope.

(** ** Hosts and identifiers *)

Definition host_char (c : byte) : bool := is_lower c || is_upper c || is_digit c || beqb c x2d.
Definition host_label (l : gostring) : bool :=
  negb (streqb l []) && (length l <=? 63)%nat && negb (has_prefix [x2d] l || has_suffix l [x2d]) && forallb host_char l.

Definition validHost (h : gostring) : bool :=
  if streqb h [] || (253 <? length h)%nat then false
  else if (match ParseIP h with Some _ => true | None => false end) then true
  else if contains_any (lit " " ++ [x09; x0a] ++ lit ":/_") h then false
  else let labels := split_on x2e h in
       if (length labels <? 2)%nat then false else forallb host_label labels.

Definition ValidUploadDomain (d : gostring) : bool := validHost d.
Definition validPort (p : Z) : bool := (1 <=? p) && (p <=? 65535).

Definition is_hexl (c : byte) : bool := is_digit c || ((97 <=? bz c) && (bz c <=? 102)).
Definition is_hex (c : byte) : bool := is_hexl c || ((65 <=? bz c) && (bz c <=? 70)).

(** A regular expression that is a sequence of character classes. *)
Fixpoint matches (classes : list (byte → bool)) (s : gostring) : bool :=
  match classes, s with
  | [], [] => true
  | p :: classes, c :: s => p c && matches classes s
  | _, _ => false
  end.

Definition uuidV4 : list (byte → bool) :=
  replicate 8 is_hexl ++ [beqb x2d] ++ replicate 4 is_hexl ++ [beqb x2d] ++ [beqb x34] ++ replicate 3 is_hexl ++ [beqb x2d]
  ++ [λ c, bool_decide (c ∈ lit "89ab")] ++ replicate 3 is_hexl ++ [beqb x2d] ++ replicate 12 is_hexl.

Definition ValidUUID (u : gostring) : bool := matches uuidV4 u.
Definition ValidShortID (s : gostring) : bool := matches (replicate 16 is_hexl) s.

(** ** Base 64 ([encoding/base64]) *)

(** The character of six bits; the last two are those of the alphabet. *)
Definition b64_char (url : bool) (n : Z) : byte :=
  if n <? 26 then zb (65 + n) else if n <? 52 then zb (71 + n) else if n <? 62 then zb (n - 4)
  else if n =? 62 then (if url then x2d else x2b) else (if url then x5f else x2f).

Definition b64_value (url : bool) (c : byte) : option Z :=
  if is_upper c then Some (bz c - 65) else if is_lower c then Some (bz c - 71) else if is_digit c then Some (bz c + 4)
  else if beqb c (if url then x2d else x2b) then Some 62
  else if beqb c (if url then x5f else x2f) then Some 63 else None.

(** [RawURLEncoding.EncodeToString] *)
Fixpoint b64_encode (l : list byte) : gostring :=
  match l with
  | a :: b :: c :: l =>
      [b64_char true (bz a / 4); b64_char true (bz a mod 4 * 16 + bz b / 16);
       b64_char true (bz b mod 16 * 4 + bz c / 64); b64_char true (bz c mod 64)] ++ b64_encode l
  | [a; b] => [b64_char true (bz a / 4); b64_char true (bz a mod 4 * 16 + bz b / 16); b64_char true (bz b mod 16 * 4)]
  | [a] => [b64_char true (bz a / 4); b64_char true (bz a mod 4 * 16)]
  | [] => []
  end.

(** Groups of four characters; the bits left over in a short group are ignored. *)
Fixpoint b64_groups (url : bool) (s : gostring) : option (list byte) :=
  match s with
  | [] => Some []
  | [_] => None
  | [a; b] =>
      match b64_value url a, b64_value url b with
      | Some a, Some b => Some [zb (a * 4 + b / 16)]
      | _, _ => None
      end
  | [a; b; c] =>
      match b64_value url a, b64_value url b, b64_value url c with
      | Some a, Some b, Some c => Some [zb (a * 4 + b / 16); zb (b mod 16 * 16 + c / 4)]
      | _, _, _ => None
      end
  | a :: b :: c :: d :: s =>
      match b64_value url a, b64_value url b, b64_value url c, b64_value url d, b64_groups url s with
      | Some a, Some b, Some c, Some d, Some l => Some (zb (a * 4 + b / 16) :: zb (b mod 16 * 16 + c / 4) :: zb (c mod 4 * 64 + d) :: l)
      | _, _, _, _, _ => None
      end
  end.

(** Line breaks are skipped. *)
Definition no_breaks (s : gostring) : gostring := List.filter (λ c, negb (beqb c x0d || beqb c x0a)) s.

(** [RawURLEncoding.DecodeString] *)
Definition RawURLDecode (s : gostring) : option (list byte) := b64_groups true (no_breaks s).

(** [StdEncoding.DecodeString]: the length is a multiple of four, the last
    group may be padded. *)
Definition StdDecode (s : gostring) : option (list byte) :=
  let s := no_breaks s in
  if negb (Nat.eqb (length s mod 4) 0) then None
  else if has_suffix s (lit "==") then b64_groups false (take (length s - 2) s)
  else if has_suffix s (lit "=") then b64_groups false (take (length s - 1) s)
  else b64_groups false s.

Definition decodeRealityPublicKey (s : gostring) : option (list byte) :=
  if streqb s [] || contains_any (lit " " ++ [x09; x0a; x0d]) s then None
  else match RawURLDecode s with
       | Some b => if Nat.eqb (length b) 32 then Some b
                   else match StdDecode s with Some b => if Nat.eqb (length b) 32 then Some b else None | None => None end
       | None => match StdDecode s with Some b => if Nat.eqb (length b) 32 then Some b else None | None => None end
       end.

(** ** Generators *)

Definition hexEncode (l : list byte) : gostring := concat (map (λ b, [hex_digit (bz b / 16); hex_digit (bz b mod 16)]) l).

Definition GenerateShortID (buf : list byte) : gostring := hexEncode buf.

Definition GenerateUUID (b : list byte) : gostring :=
  let b := <[6%nat := zb (Z.lor (Z.land (bz (nth 6 b x00)) 15) 64)]> b in
  let b := <[8%nat := zb (Z.lor (Z.land (bz (nth 8 b x00)) 63) 128)]> b in
  hexEncode (take 4 b) ++ [x2d] ++ hexEncode (take 2 (drop 4 b)) ++ [x2d] ++ hexEncode (take 2 (drop 6 b))
  ++ [x2d] ++ hexEncode (take 2 (drop 8 b)) ++ [x2d] ++ hexEncode (drop 10 b).

(** ** Redaction: a run of 32 or more hexadecimal digits is masked *)

Definition redacted : gostring := lit "<redacted>".

Definition flushRun (run : gostring) : gostring := if (32 <=? length run)%nat then redacted else reverse run.

Fixpoint redact (run s : gostring) : gostring :=
  match s with
  | [] => flushRun run
  | c :: s => if is_hex c then redact (c :: run) s else flushRun run ++ c :: redact [] s
  end.

Definition Redact (text : gostring) : gostring := redact [] text.

(** ** Blobs *)

Definition BlobFormat : gostring := lit "splat-v1".
Definition Version : Z := 1.
Definition roleA : gostring := lit "a".
Definition roleB : gostring := lit "b".

Record BlobA := mkBlobA { a_V : Z; a_Role : gostring; a_Secret : gostring; UploadDomain : gostring }.
Record PublicParams := mkPublic { RealityPublicKey : gostring; ShortID : gostring; UUID : gostring; SNI : gostring }.
Record DownTarget := mkDown { Host : gostring; Port : Z }.
Record BlobB := mkBlobB { b_V : Z; b_Role : gostring; Public : PublicParams; Germany : DownTarget }.

Inductive error := ErrMalformed | ErrChecksum | ErrVersion | ErrWrongRole | ErrFields | ErrEmpty.

Section blobs.
Context (unicode_lower : gostring → gostring) (sha256 : list byte → list byte)
        (marshalA : BlobA → list byte) (marshalB : BlobB → list byte)
        (decodeHead : list byte → option (Z * gostring))
        (strictDecodeA : list byte → option BlobA) (strictDecodeB : list byte → option BlobB).

Definition validSecret (s : gostring) : bool :=
  match ValidateSecretMaterial unicode_lower s false with None => true | Some _ => false end.

Definition validateA (a : BlobA) : bool :=
  negb (streqb (a_Secret a) []) && validSecret (a_Secret a) && ValidUploadDomain (UploadDomain a).

(** [GenerateTunnelSecret] from 32 random bytes. *)
Definition GenerateTunnelSecret (buf : list byte) : res error gostring :=
  let s := hexEncode buf in if validSecret s then Ok s else Err ErrFields.

Definition NewBlobA (secret uploadDomain : gostring) : res error BlobA :=
  if validSecret secret && ValidUploadDomain uploadDomain then Ok (mkBlobA Version roleA secret uploadDomain) else Err ErrFields.

Definition validateB (b : BlobB) : bool :=
  match decodeRealityPublicKey (RealityPublicKey (Public b)) with Some _ => true | None => false end
  && ValidShortID (ShortID (Public b)) && ValidUUID (UUID (Public b)) && ValidSNI (SNI (Public b))
  && validHost (Host (Germany b)) && validPort (Port (Germany b)).

(** A key in either encoding becomes the canonical one. *)
Definition canonical (p : PublicParams) : PublicParams :=
  match decodeRealityPublicKey (RealityPublicKey p) with
  | Some key => mkPublic (b64_encode key) (ShortID p) (UUID p) (SNI p)
  | None => p
  end.

Definition NewBlobB (p : PublicParams) (g : DownTarget) : res error BlobB :=
  let b := mkBlobB Version roleB (canonical p) g in if validateB b then Ok b else Err ErrFields.

Definition encodeBlob (payload : list byte) : gostring :=
  BlobFormat ++ [x2e] ++ b64_encode payload ++ [x2e] ++ b64_encode (sha256 payload).

Definition EncodeA (a : BlobA) : res error gostring := if validateA a then Ok (encodeBlob (marshalA a)) else Err ErrFields.
Definition EncodeB (b : BlobB) : res error gostring := if validateB b then Ok (encodeBlob (marshalB b)) else Err ErrFields.

(** The payload of a blob of the wanted role. *)
Definition parsePayload (s wantRole : gostring) : res error (list byte) :=
  if streqb s [] then Err ErrEmpty
  else if negb (streqb (TrimSpace s) s) then Err ErrMalformed
  else match split_on x2e s with
       | [prefix; body; sum] =>
           if negb (streqb prefix BlobFormat) then Err ErrMalformed
           else match RawURLDecode body with
                | None => Err ErrMalformed
                | Some payload =>
                    match RawURLDecode sum with
                    | None => Err ErrMalformed
                    | Some got =>
                        if negb (Nat.eqb (length got) 32) then Err ErrMalformed
                        else if negb (bool_decide (got = sha256 payload)) then Err ErrChecksum
                        else match decodeHead payload with
                             | None => Err ErrMalformed
                             | Some (v, role) =>
                                 if negb (v =? Version) then Err ErrVersion
                                 else if negb (streqb role wantRole) then Err ErrWrongRole
                                 else Ok payload
                             end
                    end
                end
       | _ => Err ErrMalformed
       end.

Definition ParseBlobA (s : gostring) : res error BlobA :=
  payload ← parsePayload s roleA;
  match strictDecodeA payload with
  | None => Err ErrMalformed
  | Some a => if validateA a then Ok a else Err ErrFields
  end.

Definition ParseBlobB (s : gostring) : res error BlobB :=
  payload ← parsePayload s roleB;
  match strictDecodeB payload with
  | None => Err ErrMalformed
  | Some b =>
      let b := mkBlobB (b_V b) (b_Role b) (canonical (Public b)) (Germany b) in
      if validateB b then Ok b else Err ErrFields
  end.
End blobs.

(** ** Base 64 is inverted *)

Lemma u6_forall (P : Z → bool) : forallb P (map Z.of_nat (seq 0 64)) = true → ∀ z, 0 ≤ z < 64 → P z = true.
Proof. rewrite forallb_forall. intros H z Hz. apply H, in_map_iff. exists (Z.to_nat z). rewrite in_seq. lia. Qed.

(** The alphabet of blobs. *)
Definition b64_ok (c : byte) : bool := is_upper c || is_lower c || is_digit c || beqb c x2d || beqb c x5f.

Lemma b64_char_spec n : 0 ≤ n < 64 → b64_value true (b64_char true n) = Some n ∧ b64_ok (b64_char true n) = true.
Proof.
  intros Hn. set (P := λ n, bool_decide (b64_value true (b64_char true n) = Some n) && b64_ok (b64_char true n)).
  assert (forallb P (map Z.of_nat (seq 0 64)) = true) as E by (vm_compute; reflexivity).
  pose proof (u6_forall P E n Hn) as H. unfold P in H. apply andb_true_iff in H as [H1 H2]. by apply bool_decide_eq_true in H1.
Qed.

Lemma list_ind3 {A} (P : list A → Prop) :
  P [] → (∀ a, P [a]) → (∀ a b, P [a; b]) → (∀ a b c l, P l → P (a :: b :: c :: l)) → ∀ l, P l.
Proof.
  intros H0 H1 H2 H3. fix IH 1. intros [|a [|b [|c l]]]; [exact H0|apply H1|apply H2|]. apply H3, IH.
Qed.

Lemma b64_encode_ok l : Forall (λ c, b64_ok c = true) (b64_encode l).
Proof.
  induction l as [|a|a b|a b c l IH] using list_ind3; cbn [b64_encode app]; repeat constructor; try done;
    apply b64_char_spec; pose proof (bz_range a); try pose proof (bz_range b); try pose proof (bz_range c);
    Z.to_euclidean_division_equations; lia.
Qed.

Lemma zb_is b z : z = bz b → zb z = b.
Proof. intros ->. apply zb_bz. Qed.

Lemma b64_groups_encode l : b64_groups true (b64_encode l) = Some l.
Proof.
  induction l as [|a|a b|a b c l IH] using list_ind3; cbn [b64_encode app b64_groups]; [done|..];
    pose proof (bz_range a); try pose proof (bz_range b); try pose proof (bz_range c);
    repeat match goal with |- context [b64_value true (b64_char true ?n)] =>
      rewrite (proj1 (b64_char_spec n ltac:(Z.to_euclidean_division_equations; lia))) end;
    rewrite ?IH; repeat f_equal; apply zb_is; Z.to_euclidean_division_equations; lia.
Qed.

Lemma no_breaks_ok s : Forall (λ c, b64_ok c = true) s → no_breaks s = s.
Proof.
  induction 1 as [|c s Hc _ IH]; [done|]. unfold no_breaks in *. cbn [List.filter].
  destruct (beqb c x0d || beqb c x0a) eqn:E; cbn [negb]; [|by rewrite IH].
  apply orb_true_iff in E as [->%beqb_true | ->%beqb_true]; done.
Qed.

Lemma RawURLDecode_encode l : RawURLDecode (b64_encode l) = Some l.
Proof. unfold RawURLDecode. rewrite no_breaks_ok by apply b64_encode_ok. apply b64_groups_encode. Qed.

(** ** The frame of a blob *)

Lemma ok_no_dot s : Forall (λ c, b64_ok c = true) s → x2e ∉ s.
Proof. rewrite Forall_forall. by intros H Hin%H. Qed.

Lemma strip_one_none rs c t :
  Forall (λ r, match r with [] => False | x :: _ => b64_ok x = false end) rs → b64_ok c = true → strip_one rs (c :: t) = None.
Proof.
  intros Hr Hc. induction Hr as [|r rs Hx _ IH]; cbn [strip_one]; [done|].
  destruct r as [|x r]; [done|]. cbn [has_prefix]. destruct (bool_decide_reflect (x = c)) as [->|]; [congruence|].
  unfold beqb. rewrite bool_decide_eq_false_2 by done. done.
Qed.

Lemma strip_idle fuel rs s : strip_one rs s = None → strip fuel rs s = s.
Proof. intros H. destruct fuel; cbn; [done|]. by rewrite H. Qed.

(** A text between two characters of the alphabet is trimmed. *)
Lemma TrimSpace_ok c s d : b64_ok c = true → b64_ok d = true → TrimSpace (c :: s ++ [d]) = c :: s ++ [d].
Proof.
  intros Hc Hd. unfold TrimSpace, trim_left. rewrite (strip_idle _ spaces).
  2: { apply strip_one_none; [|done]. repeat constructor. }
  replace (reverse (c :: s ++ [d])) with (d :: reverse s ++ [c]) by (rewrite reverse_cons, reverse_app; done).
  rewrite strip_idle. 2: { apply strip_one_none; [|done]. repeat constructor. }
  rewrite reverse_cons, reverse_app, reverse_involutive. done.
Qed.

Section wire.
Context (unicode_lower : gostring → gostring) (sha256 : list byte → list byte)
        (marshalA : BlobA → list byte) (marshalB : BlobB → list byte)
        (decodeHead : list byte → option (Z * gostring))
        (strictDecodeA : list byte → option BlobA) (strictDecodeB : list byte → option BlobB).

(** The laws of the libraries: a digest has 32 bytes, and JSON of ASCII strings
    is decoded to what was encoded. *)
Definition ascii_A (a : BlobA) : bool := ascii (a_Role a) && ascii (a_Secret a) && ascii (UploadDomain a).
Definition ascii_B (b : BlobB) : bool :=
  ascii (b_Role b) && ascii (RealityPublicKey (Public b)) && ascii (ShortID (Public b)) && ascii (UUID (Public b))
  && ascii (SNI (Public b)) && ascii (Host (Germany b)).

Hypothesis sha256_size : ∀ l, length (sha256 l) = 32%nat.
Hypothesis json_A : ∀ a, ascii_A a = true →
  decodeHead (marshalA a) = Some (a_V a, a_Role a) ∧ strictDecodeA (marshalA a) = Some a.
Hypothesis json_B : ∀ b, ascii_B b = true →
  decodeHead (marshalB b) = Some (b_V b, b_Role b) ∧ strictDecodeB (marshalB b) = Some b.

Abbreviation validSecret := (Pairing.validSecret unicode_lower).
Abbreviation encodeBlob := (Pairing.encodeBlob sha256).
Abbreviation parsePayload := (Pairing.parsePayload sha256 decodeHead).
Abbreviation ParseBlobA := (Pairing.ParseBlobA unicode_lower sha256 decodeHead strictDecodeA).
Abbreviation ParseBlobB := (Pairing.ParseBlobB sha256 decodeHead strictDecodeB).

Lemma b64_encode_snoc l : l ≠ [] → ∃ s d, b64_encode l = s ++ [d] ∧ b64_ok d = true.
Proof.
  intros Hl. assert (b64_encode l ≠ []) as Hne by (destruct l as [|? [|? [|? ?]]]; done).
  pose proof (b64_encode_ok l) as Hok. destruct (b64_encode l) as [|d s _] using rev_ind; [done|].
  exists s, d. split; [done|]. apply Forall_app in Hok as [_ Hok]. by inversion Hok.
Qed.

Lemma parsePayload_encode payload wanted v role :
  decodeHead payload = Some (v, role) →
  parsePayload (encodeBlob payload) wanted =
    if negb (v =? Version) then Err ErrVersion else if negb (streqb role wanted) then Err ErrWrongRole else Ok payload.
Proof.
  intros Hd. unfold Pairing.parsePayload, Pairing.encodeBlob.
  destruct (b64_encode_snoc (sha256 payload)) as (s & d & Hs & Hok).
  { intros E. pose proof (sha256_size payload) as Hz. by rewrite E in Hz. }
  replace (BlobFormat ++ [x2e] ++ b64_encode payload ++ [x2e] ++ b64_encode (sha256 payload))
    with (x73 :: (lit "plat-v1" ++ [x2e] ++ b64_encode payload ++ [x2e] ++ s) ++ [d])
    by (rewrite Hs; change BlobFormat with (x73 :: lit "plat-v1"); cbn [app]; by rewrite <- ?app_assoc; cbn [app]; rewrite <- ?app_assoc).
  rewrite TrimSpace_ok by done. rewrite streqb_refl. cbn [negb].
  replace (x73 :: (lit "plat-v1" ++ [x2e] ++ b64_encode payload ++ [x2e] ++ s) ++ [d])
    with (BlobFormat ++ x2e :: b64_encode payload ++ x2e :: b64_encode (sha256 payload))
    by (rewrite Hs; change BlobFormat with (x73 :: lit "plat-v1"); cbn [app]; by rewrite <- ?app_assoc; cbn [app]; rewrite <- ?app_assoc).
  rewrite !split_on_cons, split_on_free by first [apply ok_no_dot, b64_encode_ok | by apply (bool_decide_eq_false_1 (x2e ∈ BlobFormat))].
  change (streqb _ []) with false. cbv iota. rewrite streqb_refl. cbn [negb]. rewrite !RawURLDecode_encode.
  rewrite (proj2 (Nat.eqb_eq _ _)) by apply sha256_size. cbn [negb].
  rewrite bool_decide_eq_true_2 by done. cbn [negb]. by rewrite Hd.
Qed.

Lemma decode_size s key : decodeRealityPublicKey s = Some key → length key = 32%nat.
Proof.
  unfold decodeRealityPublicKey. intros H. repeat case_match; simplify_eq;
    match goal with E : (length ?k =? 32)%nat = true |- length ?k = _ => by apply Nat.eqb_eq end.
Qed.

Lemma ok_no_blank s : Forall (λ c, b64_ok c = true) s → contains_any (lit " " ++ [x09; x0a; x0d]) s = false.
Proof.
  intros H. rewrite Forall_forall in H. apply not_true_is_false. unfold contains_any. rewrite existsb_exists.
  intros (c & Hc & He). apply existsb_exists in He as (d & Hd & <-%beqb_true). apply list_elem_of_In, H in Hd.
  apply list_elem_of_In in Hc. cbn in Hc. rewrite !elem_of_cons, elem_of_nil in Hc. by destruct Hc as [-> | [-> | [-> | [-> | []]]]].
Qed.

(** The canonical form of a key decodes to the same key. *)
Lemma decode_key_encode key : length key = 32%nat → decodeRealityPublicKey (b64_encode key) = Some key.
Proof.
  intros Hk. unfold decodeRealityPublicKey. rewrite ok_no_blank by apply b64_encode_ok.
  destruct (streqb (b64_encode key) []) eqn:E.
  { apply streqb_true in E. by destruct key as [|? [|? [|? ?]]]. }
  cbn [orb]. rewrite RawURLDecode_encode. by rewrite (proj2 (Nat.eqb_eq _ _)).
Qed.

Lemma canonical_idemp p : canonical (canonical p) = canonical p.
Proof.
  unfold canonical at 2 3. destruct (decodeRealityPublicKey (RealityPublicKey p)) as [key|] eqn:E.
  - unfold canonical. cbn [RealityPublicKey ShortID UUID SNI]. by rewrite decode_key_encode by by eapply decode_size.
  - unfold canonical. by rewrite E.
Qed.


(** Whatever text a reader accepts, the digest in it is that of its payload,
    the payload is of the right role and version, and the fields it holds are
    valid. *)
Lemma blob_accepted s a :
  ParseBlobA s = Ok a →
  validateA unicode_lower a = true
  ∧ ∃ body sum payload, split_on x2e s = [BlobFormat; body; sum] ∧ RawURLDecode body = Some payload
     ∧ RawURLDecode sum = Some (sha256 payload) ∧ decodeHead payload = Some (Version, roleA) ∧ strictDecodeA payload = Some a.
Proof.
  unfold Pairing.ParseBlobA, Pairing.parsePayload. intros H.
  destruct (streqb s []); [done|]. destruct (negb (streqb (TrimSpace s) s)); [done|].
  destruct (split_on x2e s) as [|prefix [|body [|sum [|? ?]]]]; try done.
  destruct (streqb prefix BlobFormat) eqn:E; [|done]. apply streqb_true in E as ->. cbn [negb] in H.
  destruct (RawURLDecode body) as [payload|] eqn:Hb; [|done]. destruct (RawURLDecode sum) as [got|] eqn:Hs; [|done].
  destruct (length got =? 32)%nat; [|done]. cbn [negb] in H. case_bool_decide as Hg; [|done]. subst got. cbn [negb] in H.
  destruct (decodeHead payload) as [[v role]|] eqn:Hh; [|done]. destruct (Z.eqb_spec v Version) as [->|]; [|done].
  cbn [negb] in H. destruct (streqb role roleA) eqn:E; [|done]. apply streqb_true in E as ->. cbn in H.
  destruct (strictDecodeA payload) as [a'|] eqn:Hd; [|done]. destruct (validateA unicode_lower a') eqn:Hv; [|done].
  injection H as ->. split; [done|]. by exists body, sum, payload.
Qed.
End wire.

(** ** Redaction *)

(** The length of the longest run of hexadecimal digits, [cur] of which have
    been seen. *)
Fixpoint longest (cur : nat) (s : gostring) : nat :=
  match s with
  | [] => cur
  | c :: s => if is_hex c then longest (S cur) s else Nat.max cur (longest 0 s)
  end.

Lemma longest_sep n a c b : is_hex c = false → longest n (a ++ c :: b) = Nat.max (longest n a) (longest 0 b).
Proof.
  intros Hc. revert n. induction a as [|d a IH]; intros n; cbn [app longest]; [by rewrite Hc|].
  destruct (is_hex d); [apply IH|]. rewrite IH. lia.
Qed.

Lemma longest_hex n s : Forall (λ c, is_hex c = true) s → longest n s = (n + length s)%nat.
Proof. intros H. revert n. induction H as [|c s Hc _ IH]; intros n; cbn; [lia|]. rewrite Hc, IH. lia. Qed.

(** It bounds every run. *)
Lemma longest_infix n s pre run post :
  s = pre ++ run ++ post → Forall (λ c, is_hex c = true) run → (length run ≤ longest n s)%nat.
Proof.
  intros -> Hr. revert n. induction pre as [|c pre IH]; intros n.
  - cbn [app]. transitivity (n + length run)%nat; [lia|]. rewrite <- longest_hex by done. clear Hr.
    revert n. induction run as [|c run IHr]; intros n; cbn [app longest].
    + revert n. induction post as [|c post IHp]; intros n; cbn; [lia|]. destruct (is_hex c); [|lia].
      specialize (IHp (S n)). lia.
    + destruct (is_hex c); [apply IHr|]. specialize (IHr 0%nat). lia.
  - cbn [app longest]. destruct (is_hex c); [apply IH|]. specialize (IH 0%nat). lia.
Qed.

Lemma longest_flush run : Forall (λ c, is_hex c = true) run → (longest 0 (flushRun run) < 32)%nat.
Proof.
  intros Hr. unfold flushRun. destruct (Nat.leb_spec 32 (length run)); [vm_compute; lia|].
  rewrite longest_hex by by apply Forall_reverse. rewrite length_reverse. lia.
Qed.

Lemma redact_short run s : Forall (λ c, is_hex c = true) run → (longest 0 (redact run s) < 32)%nat.
Proof.
  revert run. induction s as [|c s IH]; intros run Hr; cbn [redact]; [by apply longest_flush|].
  destruct (is_hex c) eqn:Hc; [apply IH; by constructor|]. rewrite longest_sep by done.
  pose proof (longest_flush run Hr). pose proof (IH [] (Forall_nil_2 _)). lia.
Qed.

Lemma redact_idle run s :
  (longest (length run) s < 32)%nat → redact run s = reverse run ++ s.
Proof.
  revert run. induction s as [|c s IH]; intros run Hl; cbn in *.
  - unfold flushRun. destruct (Nat.leb_spec 32 (length run)); [lia|]. by rewrite app_nil_r.
  - destruct (is_hex c).
    + rewrite IH by done. rewrite reverse_cons, <- app_assoc. done.
    + unfold flushRun. destruct (Nat.leb_spec 32 (length run)); [lia|]. rewrite (IH []) by (cbn; lia). done.
Qed.

(** No 32 hexadecimal digits in a row survive in a redacted text, so neither a
    tunnel secret nor a digest does; a text that has none is left alone, and
    redacting twice changes nothing. *)
Theorem redact_hides_secrets text :
  (∀ pre run post, Redact text = pre ++ run ++ post → Forall (λ c, is_hex c = true) run → (length run < 32)%nat)
  ∧ ((longest 0 text < 32)%nat → Redact text = text)
  ∧ Redact (Redact text) = Redact text.
Proof.
  assert (longest 0 (Redact text) < 32)%nat as Hs by (apply redact_short; constructor). split_and!.
  - intros pre run post E Hr. pose proof (longest_infix 0 _ _ _ _ E Hr). lia.
  - intros H. by apply (redact_idle []).
  - by apply (redact_idle []).
Qed.

(** ** The generators make what the validators accept *)

Lemma hex_digit_hexl n : 0 ≤ n < 16 → is_hexl (hex_digit n) = true.
Proof.
  intros Hn. set (P := λ n, negb (n <? 16) || is_hexl (hex_digit n)).
  assert (forallb P (map Z.of_nat (seq 0 64)) = true) as E by (vm_compute; reflexivity).
  pose proof (u6_forall P E n ltac:(lia)) as H. unfold P in H. by destruct (Z.ltb_spec n 16); [|lia].
Qed.

Lemma matches_app ps qs s t : matches ps s = true → matches qs t = true → matches (ps ++ qs) (s ++ t) = true.
Proof.
  intros H Hq. revert s H. induction ps as [|p ps IH]; intros [|c s] H; cbn in *; try done.
  apply andb_true_iff in H as [-> H]. by apply IH.
Qed.

Lemma nibbles b : 0 ≤ bz b / 16 < 16 ∧ 0 ≤ bz b mod 16 < 16.
Proof. pose proof (bz_range b). split; Z.to_euclidean_division_equations; lia. Qed.

Lemma matches_hex l n : n = (2 * length l)%nat → matches (replicate n is_hexl) (hexEncode l) = true.
Proof.
  intros ->. induction l as [|b l IH]; [done|]. cbn [length].
  replace (2 * S (length l))%nat with (S (S (2 * length l))) by lia. unfold hexEncode in *. cbn [map concat app replicate matches].
  pose proof (bz_range b). rewrite !hex_digit_hexl, IH; [done|..]; Z.to_euclidean_division_equations; lia.
Qed.

Lemma uuid_octets b :
  let v := zb (Z.lor (Z.land (bz b) 15) 64) in let r := zb (Z.lor (Z.land (bz b) 63) 128) in
  (hex_digit (bz v / 16) = x34 ∧ is_hexl (hex_digit (bz v mod 16)) = true)
  ∧ bool_decide (hex_digit (bz r / 16) ∈ lit "89ab") = true ∧ is_hexl (hex_digit (bz r mod 16)) = true.
Proof.
  set (P := λ z, let v := zb (Z.lor (Z.land z 15) 64) in let r := zb (Z.lor (Z.land z 63) 128) in
    beqb (hex_digit (bz v / 16)) x34 && is_hexl (hex_digit (bz v mod 16))
    && bool_decide (hex_digit (bz r / 16) ∈ lit "89ab") && is_hexl (hex_digit (bz r mod 16))).
  assert (forallb P (map Z.of_nat (seq 0 256)) = true) as E by (vm_compute; reflexivity).
  pose proof (u8_forall P E (bz b) (bz_range b)) as H. unfold P in H. cbv zeta in *.
  apply andb_true_iff in H as [H H4]. apply andb_true_iff in H as [H H3]. apply andb_true_iff in H as [H1 H2].
  apply beqb_true in H1. exact (conj (conj H1 H2) (conj H3 H4)).
Qed.

Lemma hexEncode_hex l : Forall (λ c, is_hex c = true) (hexEncode l) ∧ length (hexEncode l) = (2 * length l)%nat.
Proof.
  induction l as [|b l [IH1 IH2]]; [by split; [constructor|]|]. unfold hexEncode in *. cbn [map concat app length].
  pose proof (bz_range b). split; [|rewrite IH2; lia].
  repeat constructor; try done; unfold is_hex; rewrite hex_digit_hexl; try done; Z.to_euclidean_division_equations; lia.
Qed.

Lemma redact_all run s : Forall (λ c, is_hex c = true) s → redact run s = flushRun (reverse s ++ run).
Proof.
  intros H. revert run. induction H as [|c s Hc _ IH]; intros run; cbn [redact]; [done|].
  rewrite Hc, IH, reverse_cons, <- app_assoc. done.
Qed.

(** Whatever the random source returns, a generated UUID is a version 4 UUID, a
    generated short id is one, and a generated secret has 64 hexadecimal digits,
    which [Redact] masks whole. *)
Theorem generators_valid b16 b8 b32 :
  length b16 = 16%nat → length b8 = 8%nat → length b32 = 32%nat →
  ValidUUID (GenerateUUID b16) = true ∧ ValidShortID (GenerateShortID b8) = true
  ∧ length (hexEncode b32) = 64%nat ∧ Redact (hexEncode b32) = redacted.
Proof.
  intros H16 H8 H32. split_and!.
  - clear H8 H32. do 16 (destruct b16 as [|? b16]; [done|]). destruct b16; [|done].
    unfold ValidUUID, GenerateUUID, uuidV4. cbn [nth insert list_insert take drop].
    match goal with |- context [hexEncode [zb (Z.lor (Z.land (bz ?x) 15) 64); _]] => destruct (uuid_octets x) as [[V1 V2] _] end.
    match goal with |- context [hexEncode [zb (Z.lor (Z.land (bz ?x) 63) 128); _]] => destruct (uuid_octets x) as [_ [V3 V4]] end.
    cbv zeta in *.
    apply (matches_app (replicate 8 is_hexl)); [by apply matches_hex|]. apply (matches_app [beqb x2d] _ [x2d]); [reflexivity|].
    apply (matches_app (replicate 4 is_hexl)); [by apply matches_hex|]. apply (matches_app [beqb x2d] _ [x2d]); [reflexivity|].
    rewrite (app_assoc [beqb x34]). apply matches_app.
    { unfold hexEncode. cbn [map concat app replicate matches]. rewrite V1, V2, !hex_digit_hexl by apply nibbles. reflexivity. }
    apply (matches_app [beqb x2d] _ [x2d]); [reflexivity|].
    rewrite (app_assoc [_]). apply matches_app.
    { unfold hexEncode. cbn [map concat app replicate matches]. rewrite V3, V4, !hex_digit_hexl by apply nibbles. reflexivity. }
    apply (matches_app [beqb x2d] _ [x2d]); [reflexivity|]. by apply matches_hex.
  - apply matches_hex. lia.
  - rewrite (proj2 (hexEncode_hex b32)). lia.
  - destruct (hexEncode_hex b32) as [Hh Hl]. unfold Redact. rewrite redact_all by done. unfold flushRun.
    rewrite app_nil_r, length_reverse, Hl, H32. reflexivity.
Qed.

(** ** A pair of nodes

    An encoder that keeps the laws, and blobs made by each node. *)
Module Demo.

Fixpoint bits (p : positive) : list byte :=
  match p with xH => [] | xO p => x00 :: bits p | xI p => x01 :: bits p end.
Fixpoint unbits (l : list byte) : positive :=
  match l with [] => xH | b :: l => if beqb b x00 then xO (unbits l) else xI (unbits l) end.

Lemma unbits_bits p : unbits (bits p) = p.
Proof. induction p as [p IH|p IH|]; cbn; [by rewrite IH..|done]. Qed.

Definition tupleA (a : BlobA) := (a_V a, a_Role a, a_Secret a, UploadDomain a).
Definition tupleB (b : BlobB) :=
  (b_V b, b_Role b, (RealityPublicKey (Public b), ShortID (Public b), UUID (Public b), SNI (Public b)), (Host (Germany b), Port (Germany b))).

Definition write (x : (Z * gostring * gostring * gostring) + (Z * gostring * (gostring * gostring * gostring * gostring) * (gostring * Z)))
  : list byte := bits (encode x).
Definition read (l : list byte)
  : option ((Z * gostring * gostring * gostring) + (Z * gostring * (gostring * gostring * gostring * gostring) * (gostring * Z))) :=
  decode (unbits l).

Lemma read_write x : read (write x) = Some x.
Proof. unfold read, write. by rewrite unbits_bits, decode_encode. Qed.

Definition writeA (a : BlobA) : list byte := write (inl (tupleA a)).
Definition writeB (b : BlobB) : list byte := write (inr (tupleB b)).
Definition readHead (l : list byte) : option (Z * gostring) :=
  match read l with Some (inl (v, r, _, _)) | Some (inr (v, r, _, _)) => Some (v, r) | None => None end.
Definition readA (l : list byte) : option BlobA :=
  match read l with Some (inl (v, r, s, d)) => Some (mkBlobA v r s d) | _ => None end.
Definition readB (l : list byte) : option BlobB :=
  match read l with
  | Some (inr (v, r, (k, i, u, n), (h, p))) => Some (mkBlobB v r (mkPublic k i u n) (mkDown h p))
  | _ => None
  end.
Definition digest (l : list byte) : list byte := replicate 32 x2a.

Definition secret : gostring := lit "kV7qXw2Zt9Rb4Lm8Ns3Pd6Fh1Jc5Gy0T".
Definition domain : gostring := lit "up.example.org".


Lemma generators_valid_witness :
  ValidUUID (GenerateUUID (replicate 16 xff)) = true ∧ Redact (hexEncode (replicate 32 xab)) = redacted.
Proof.
  destruct (generators_valid (replicate 16 xff) (replicate 8 x00) (replicate 32 xab)) as (H1 & _ & _ & H2);
    [reflexivity..|split; [exact H1|exact H2]].
Defined.
End Demo.
