(* ===== verification/Origin.v ===== *)
(** * The up-carrier origin (src/internal/origin)

    The plan an operator gives for the origin (a Caddy server with a public
    certificate, one behind a CDN, or none), its validation, and the pure
    renderers: the Caddyfile, the direct URL of the test mode, the environment
    line of the plain CDN mode, and the names of a Caddy release.  A problem of a
    plan is the field it names.  The providers that install and activate what is
    rendered are not modelled. *)
From S2P Require Export Pairing EnvFile.
#[local] Open Scope Z_scope.

Definition ModeCaddy : gostring := lit "caddy".
Definition ModeCDN : gostring := lit "cdn".
Definition ModeNone : gostring := lit "none".
Definition ACMEHTTP01 : gostring := lit "http01".
Definition ACMETLSALPN01 : gostring := lit "tlsalpn01".
Definition CDNTLSOrigin : gostring := lit "tlsOrigin".
Definition CDNPlainOrigin : gostring := lit "plainOrigin".
Definition CDNOriginTrustPullCA : gostring := lit "pullCA".
Definition CDNOriginTrustUnauthenticated : gostring := lit "unauthenticatedTLS".
Definition UpstreamPath : gostring := ExpectedCarrierPath.
Definition managedMarker : gostring := lit "# Managed by split-tunnel installer - do not edit by hand".
Definition wsIdleTimeout : gostring := lit "3600s".

Record Plan := mkPlan {
  Mode : gostring; Domain : gostring; UpstreamAddr : gostring; OriginPort : Z; ACMEChallenge : gostring;
  ACMEEmail : gostring; CDNSecurity : gostring; CDNOriginTrust : gostring
}.

Inductive field := FDomain | FUpstream | FPort | FChallenge | FEmail | FCDN | FTrust | FSecurity | FACME | FCaddyCDN | FMode.
Definition unless (b : bool) (f : field) : list field := if b then [] else [f].

(** ** Validation *)

(** [IP.IsLoopback] *)
Definition IsLoopback (ip : list byte) : bool :=
  match To4 ip with
  | Some v4 => match v4 with a :: _ => bz a =? 127 | [] => false end
  | None => bool_decide (ip = replicate 15 x00 ++ [x01])
  end.

Definition parseUpstreamPort (s : gostring) : option Z :=
  if streqb s [] || negb (forallb is_digit s) || (5 <? length s)%nat then None
  else match digits_value 0 s with
       | Some n => if (n <? 1) || (65535 <? n) then None else Some n
       | None => None
       end.

Definition validateDomain (d : gostring) : list field := unless (negb (streqb d []) && ValidUploadDomain d) FDomain.

Definition upstream_ok (addr : gostring) : bool :=
  match net_SplitHostPort addr with
  | None => false
  | Some (host, port) =>
      match parseUpstreamPort port with
      | None => false
      | Some _ => match ParseIP host with Some ip => IsLoopback ip | None => false end
      end
  end.

Definition validateUpstream (addr : gostring) : list field := unless (upstream_ok addr) FUpstream.

(** The encodings of the runes that [unicode.IsControl] accepts and
    [unicode.IsSpace] does not. *)
Definition controls : list gostring :=
  map (λ n, [zb (Z.of_nat n)]) (seq 0 9 ++ seq 14 18 ++ [127%nat]) ++ map (λ n, [xc2; zb (128 + Z.of_nat n)]) (seq 0 32).

Fixpoint no_control (s : gostring) : bool :=
  match strip_one controls s with
  | Some _ => false
  | None => match s with [] => true | _ :: s => no_control s end
  end.

Definition email_marks : gostring := lit "{}#'`\;" ++ [x22].

Definition acme_email_ok (e : gostring) : bool :=
  streqb e []
  || (clean e && no_control e && negb (contains_any email_marks e)
      && match cut x40 e with
         | Some (local, host) => negb (streqb local []) && negb (streqb host []) && negb (has_char x40 host)
         | None => false
         end).

Definition validateACMEEmail (e : gostring) : list field := unless (acme_email_ok e) FEmail.

Definition port_ok (n : Z) : bool := negb ((n <? 1) || (65535 <? n)).

Definition planProblems (p : Plan) : list field :=
  if streqb (Mode p) ModeCaddy then
    validateDomain (Domain p) ++ validateUpstream (UpstreamAddr p)
    ++ unless ((OriginPort p =? 0) || (OriginPort p =? 443)) FPort
    ++ unless (bool_decide (ACMEChallenge p ∈ [[]; ACMEHTTP01; ACMETLSALPN01])) FChallenge
    ++ validateACMEEmail (ACMEEmail p)
    ++ unless (streqb (CDNSecurity p) [] && streqb (CDNOriginTrust p) []) FCDN
  else if streqb (Mode p) ModeCDN then
    validateDomain (Domain p)
    ++ (if streqb (CDNSecurity p) CDNTLSOrigin then
          validateUpstream (UpstreamAddr p) ++ unless (port_ok (OriginPort p)) FPort
          ++ unless (bool_decide (CDNOriginTrust p ∈ [CDNOriginTrustPullCA; CDNOriginTrustUnauthenticated])) FTrust
        else if streqb (CDNSecurity p) CDNPlainOrigin then
          unless (port_ok (OriginPort p)) FPort ++ unless (streqb (CDNOriginTrust p) []) FTrust
        else [FSecurity])
    ++ unless (streqb (ACMEChallenge p) [] && streqb (ACMEEmail p) []) FACME
  else if streqb (Mode p) ModeNone then
    unless (streqb (Domain p) []) FDomain ++ validateUpstream (UpstreamAddr p)
    ++ unless ((OriginPort p =? 0) && streqb (ACMEChallenge p) [] && streqb (ACMEEmail p) [] && streqb (CDNSecurity p) []
               && streqb (CDNOriginTrust p) []) FCaddyCDN
  else [FMode].

Inductive error := ErrInvalidPlan (l : list field) | ErrNoCaddyfile | ErrMode.

Definition ValidatePlan (p : Plan) : res error unit :=
  match planProblems p with [] => Ok () | l => Err (ErrInvalidPlan l) end.

(** ** Rendering *)

Definition canonicalUpstream (addr : gostring) : option gostring :=
  match net_SplitHostPort addr with
  | None => None
  | Some (host, portStr) =>
      match ParseIP host with
      | None => None
      | Some ip =>
          if negb (IsLoopback ip) then None
          else match parseUpstreamPort portStr with
               | None => None
               | Some port => Some (JoinHostPort (IP_String ip) (Itoa port))
               end
      end
  end.

Definition canonicalACMEEmail (e : gostring) : option gostring := if acme_email_ok e then Some e else None.

Definition tab : gostring := [x09].
Definition nl : gostring := [x0a].

Definition reverseProxyBlock (upstream : gostring) : gostring :=
  lit "reverse_proxy " ++ UpstreamPath ++ lit " " ++ upstream ++ lit " {" ++ nl
  ++ tab ++ tab ++ lit "transport http {" ++ nl
  ++ tab ++ tab ++ tab ++ lit "read_timeout " ++ wsIdleTimeout ++ nl
  ++ tab ++ tab ++ tab ++ lit "write_timeout " ++ wsIdleTimeout ++ nl
  ++ tab ++ tab ++ lit "}" ++ nl
  ++ tab ++ lit "}".

Definition renderTLS (p : Plan) (email : gostring) : option gostring :=
  if streqb (ACMEChallenge p) [] || streqb (ACMEChallenge p) ACMEHTTP01 then
    Some (if streqb email [] then [] else tab ++ lit "tls " ++ email ++ nl)
  else if streqb (ACMEChallenge p) ACMETLSALPN01 then
    Some (tab ++ lit "tls {" ++ nl ++ tab ++ tab ++ lit "issuer acme {" ++ nl
          ++ (if streqb email [] then [] else tab ++ tab ++ tab ++ lit "email " ++ email ++ nl)
          ++ tab ++ tab ++ tab ++ lit "disable_http_challenge" ++ nl ++ tab ++ tab ++ lit "}" ++ nl ++ tab ++ lit "}" ++ nl)
  else None.

Definition renderCaddy (p : Plan) : res error (list byte) :=
  match canonicalUpstream (UpstreamAddr p) with
  | None => Err (ErrInvalidPlan [FUpstream])
  | Some upstream =>
      match canonicalACMEEmail (ACMEEmail p) with
      | None => Err (ErrInvalidPlan [FEmail])
      | Some email =>
          match renderTLS p email with
          | None => Err (ErrInvalidPlan [FChallenge])
          | Some tls =>
              Ok (managedMarker ++ nl ++ Domain p ++ lit " {" ++ nl ++ tls
                  ++ tab ++ reverseProxyBlock upstream ++ nl ++ lit "}" ++ nl)
          end
      end
  end.

Definition renderCDNInternal (p : Plan) : res error (list byte) :=
  match canonicalUpstream (UpstreamAddr p) with
  | None => Err (ErrInvalidPlan [FUpstream])
  | Some upstream =>
      let port := if OriginPort p =? 0 then 443 else OriginPort p in
      Ok (managedMarker ++ nl ++ Domain p ++ lit ":" ++ Itoa port ++ lit " {" ++ nl ++ tab ++ lit "tls internal" ++ nl
          ++ tab ++ reverseProxyBlock upstream ++ nl ++ lit "}" ++ nl)
  end.

Definition RenderCaddyfile (p : Plan) : res error (list byte) :=
  match ValidatePlan p with
  | Err e => Err e
  | Ok _ =>
      if streqb (Mode p) ModeCaddy then renderCaddy p
      else if streqb (Mode p) ModeCDN then
        if negb (streqb (CDNSecurity p) CDNTLSOrigin) then Err ErrNoCaddyfile else renderCDNInternal p
      else Err ErrNoCaddyfile
  end.

Definition DirectWSURL (p : Plan) : res error gostring :=
  if negb (streqb (Mode p) ModeNone) then Err ErrMode
  else match ValidatePlan p with
       | Err e => Err e
       | Ok _ => match canonicalUpstream (UpstreamAddr p) with
                 | None => Err (ErrInvalidPlan [FUpstream])
                 | Some upstream => Ok (lit "ws://" ++ upstream ++ UpstreamPath)
                 end
       end.

Definition cdnOriginPort (p : Plan) : Z := if OriginPort p =? 0 then 443 else OriginPort p.

Definition SplitterEnv (p : Plan) : res error gostring :=
  if negb (streqb (Mode p) ModeCDN) || negb (streqb (CDNSecurity p) CDNPlainOrigin) then Err ErrMode
  else match ValidatePlan p with
       | Err e => Err e
       | Ok _ => Ok (lit "SPLIT_WS_LISTEN=0.0.0.0:" ++ Itoa (cdnOriginPort p))
       end.

(** ** Releases *)

Definition PinnedVersion : gostring := lit "v2.11.4".
Definition caddyReleaseBaseURL : gostring := lit "https://github.com/caddyserver/caddy/releases/download/".

Definition number_ok (s : gostring) : bool := negb (streqb s []) && forallb is_digit s.

Definition ValidVersion (v : gostring) : bool :=
  match v with
  | c :: v => beqb c x76 && match split_on x2e v with [a; b; c] => number_ok a && number_ok b && number_ok c | _ => false end
  | [] => false
  end.

Definition ArchForGOARCH (goarch : gostring) : option gostring :=
  if streqb goarch (lit "amd64") then Some (lit "amd64")
  else if streqb goarch (lit "arm64") then Some (lit "arm64")
  else if streqb goarch (lit "arm") then Some (lit "armv7") else None.

Definition knownCaddyArch (a : gostring) : bool :=
  bool_decide (a ∈ map lit ["amd64"; "arm64"; "armv5"; "armv6"; "armv7"; "ppc64le"; "riscv64"; "s390x"]%string).

Definition assetVersion (version : gostring) : gostring := if has_prefix [x76] version then drop 1 version else version.

Definition TarName (version arch : gostring) : option gostring :=
  if negb (ValidVersion version) || negb (knownCaddyArch arch) then None
  else Some (lit "caddy_" ++ assetVersion version ++ lit "_linux_" ++ arch ++ lit ".tar.gz").

Definition TarURL (version arch : gostring) : option gostring :=
  match TarName version arch with Some n => Some (caddyReleaseBaseURL ++ version ++ x2f :: n) | None => None end.

Definition ChecksumName (version : gostring) : option gostring :=
  if negb (ValidVersion version) then None else Some (lit "caddy_" ++ assetVersion version ++ lit "_checksums.txt").

Definition ChecksumURL (version : gostring) : option gostring :=
  match ChecksumName version with Some n => Some (caddyReleaseBaseURL ++ version ++ x2f :: n) | None => None end.

(** [strings.TrimRight(prefix, "/")] *)
Definition trim_slashes (s : gostring) : gostring := reverse (trim_left [[x2f]] (reverse s)).

Definition VersionDir (prefix version : gostring) : option gostring :=
  if negb (ValidVersion version) then None
  else let p := trim_slashes prefix in if streqb p [] then None else Some (p ++ lit "/caddy/" ++ version).

(** ** Words that stay words

    A [bare] character neither ends a word of a Caddyfile nor means anything in
    it. *)

Definition bare_char (c : byte) : bool :=
  (33 <=? bz c) && (bz c <=? 126) && negb (has_char c email_marks).

Definition bare (s : gostring) : Prop := s ≠ [] ∧ Forall (λ c, bare_char c = true) s.

Lemma bytes_forall (P : byte → bool) : forallb (λ z, P (zb z)) (map Z.of_nat (seq 0 256)) = true → ∀ c, P c = true.
Proof. intros H c. rewrite <- (zb_bz c). apply (u8_forall (λ z, P (zb z)) H), bz_range. Qed.

Lemma bare_not_space c t : bare_char c = true → strip_one spaces (c :: t) = None.
Proof.
  set (P := λ c, negb (bare_char c) || forallb (λ r, match r with [] => false | x :: _ => negb (beqb x c) end) spaces).
  assert (∀ c, P c = true) as E by (apply bytes_forall; vm_compute; reflexivity). specialize (E c). unfold P in E.
  intros Hc. rewrite Hc in E. cbn [negb orb] in E. revert E. generalize spaces. intros rs.
  induction rs as [|r rs IH]; cbn [forallb strip_one]; [done|]. intros [Hr Hrs]%andb_true_iff.
  destruct r as [|x r]; [done|]. cbn [has_prefix]. destruct (beqb x c); [done|]. by apply IH.
Qed.

Lemma bare_word s : bare s → word s.
Proof.
  intros [Hne H]. split; [done|]. clear Hne. induction H as [|c s Hc _ IH]; [done|]. cbn [clean].
  by rewrite bare_not_space.
Qed.

Lemma bare_app s t : Forall (λ c, bare_char c = true) s → bare t → bare (s ++ t).
Proof. intros Hs [Hne Ht]. split; [by destruct s|by apply Forall_app]. Qed.

(** A class of characters all of which are bare. *)
Lemma class_bare (P : byte → bool) s :
  forallb (λ z, negb (P (zb z)) || bare_char (zb z)) (map Z.of_nat (seq 0 256)) = true →
  Forall (λ c, P c = true) s → Forall (λ c, bare_char c = true) s.
Proof.
  intros H. pose proof (bytes_forall (λ c, negb (P c) || bare_char c) H) as E.
  intros Hs. eapply Forall_impl; [exact Hs|]. intros c Hc. specialize (E c). cbv beta in E. by rewrite Hc in E.
Qed.

Lemma digits_bare s : Forall (λ c, is_digit c = true) s → Forall (λ c, bare_char c = true) s.
Proof. apply (class_bare is_digit). vm_compute. reflexivity. Qed.

(** ** The characters of an IP literal *)

Definition ip_char (c : byte) : bool := is_hex c || beqb c x2e || beqb c x3a.

Lemma ip_chars_bare s : Forall (λ c, ip_char c = true) s → Forall (λ c, bare_char c = true) s.
Proof. apply (class_bare ip_char). vm_compute. reflexivity. Qed.

Lemma hex_value_ip c d : hex_value c = Some d → ip_char c = true.
Proof.
  set (P := λ c, match hex_value c with Some _ => ip_char c | None => true end).
  assert (∀ c, P c = true) as E by (apply bytes_forall; vm_compute; reflexivity). specialize (E c). unfold P in E.
  intros H. by rewrite H in E.
Qed.

Lemma digit_ip c : is_digit c = true → ip_char c = true.
Proof. intros H. unfold ip_char, is_hex, is_hexl. by rewrite H. Qed.

Lemma ipv4_loop_chars s first dot val dig acc l :
  ipv4_loop s first dot val dig acc = Some l → Forall (λ c, ip_char c = true) s.
Proof.
  revert first dot val dig acc. induction s as [|c s IH]; intros first dot val dig acc; cbn [ipv4_loop]; [constructor|].
  destruct (is_digit c) eqn:Hd.
  - destruct (_ && _); [done|]. destruct (_ >? _); [done|]. intros H. constructor; [by apply digit_ip|by eapply IH].
  - destruct (beqb c x2e) eqn:Hc; [|done]. destruct (_ || _); [done|]. destruct (bool_decide _); [done|]. intros H.
    constructor; [|by eapply IH]. apply beqb_true in Hc as ->. reflexivity.
Qed.

Lemma hex_group_chars s off acc v n rest :
  hex_group s off acc = Some (v, n, rest) → ∃ pre, s = pre ++ rest ∧ Forall (λ c, ip_char c = true) pre.
Proof.
  revert off acc. induction s as [|c s IH]; intros off acc; cbn [hex_group].
  - intros [= _ _ <-]. exists []. split; [done|constructor].
  - destruct (hex_value c) as [d|] eqn:Hc.
    + destruct (3 <? off)%nat; [done|]. destruct (_ >? _); [done|]. intros (pre & -> & Hp)%IH.
      exists (c :: pre). split; [done|]. constructor; [by eapply hex_value_ip|done].
    + intros [= _ _ <-]. exists []. split; [done|constructor].
Qed.

Lemma ipv6_loop_chars f s ip e ip' e' :
  ipv6_loop f s ip e = Some (ip', e', []) → Forall (λ c, ip_char c = true) s.
Proof.
  revert s ip e. induction f as [|f IH]; intros s ip e; cbn [ipv6_loop]; [intros [= _ _ ->]; constructor|].
  destruct (hex_group s 0 0) as [[[acc n] rest]|] eqn:Hg; [|done]. destruct n; [done|].
  apply hex_group_chars in Hg as (pre & -> & Hp). destruct rest as [|c rest]; [by rewrite app_nil_r|].
  destruct (beqb c x2e) eqn:Hc.
  { destruct (_ || _); [done|]. destruct (parseIPv4 _) eqn:H4; [|done]. intros _. by eapply ipv4_loop_chars. }
  destruct (beqb c x3a) eqn:Hc'; [|done]. apply beqb_true in Hc' as ->. cbn [negb].
  destruct rest as [|d more]; [done|]. intros H. apply Forall_app. split; [done|]. constructor; [reflexivity|].
  destruct (beqb d x3a) eqn:Hd; [|by eapply IH]. apply beqb_true in Hd as ->. constructor; [reflexivity|].
  destruct e; [done|]. destruct more; [constructor|by eapply IH].
Qed.

Lemma ParseIP_chars s ip : ParseIP s = Some ip → Forall (λ c, ip_char c = true) s.
Proof.
  unfold ParseIP. destruct (ip_kind s) as [[|]|]; [|..|done].
  - destruct (parseIPv4 s) eqn:H; [|done]. intros _. by eapply ipv4_loop_chars.
  - unfold parseIPv6. destruct (existsb _ _); [done|].
    assert (∀ e, ipv6_finish (ipv6_loop 8 s [] e) = Some ip → Forall (λ c, ip_char c = true) s) as Hl.
    { intros e. unfold ipv6_finish. destruct (ipv6_loop 8 s [] e) as [[[? ?] [|? ?]]|] eqn:E; [|done..].
      intros _. by eapply ipv6_loop_chars. }
    destruct s as [|c [|d rest]]; [apply Hl..|]. destruct (beqb c x3a && beqb d x3a) eqn:E; [|apply Hl].
    apply andb_true_iff in E as [->%beqb_true ->%beqb_true]. intros H. constructor; [reflexivity|]. constructor; [reflexivity|].
    destruct rest as [|x rest]; [constructor|]. unfold ipv6_finish in H.
    destruct (ipv6_loop 8 (x :: rest) [] (Some 0%nat)) as [[[? ?] [|? ?]]|] eqn:E; [|done..]. by eapply ipv6_loop_chars.
Qed.

(** ** What reaches a Caddyfile *)

Lemma host_char_bare l : forallb host_char l = true → Forall (λ c, bare_char c = true) l.
Proof.
  intros H. rewrite forallb_forall in H. apply (class_bare host_char); [vm_compute; reflexivity|].
  apply Forall_forall. intros c Hc. by apply H, list_elem_of_In.
Qed.

(** The pieces of a split are bare only if the whole is. *)
Lemma split_on_Forall (P : byte → Prop) c s : P c → Forall (Forall P) (split_on c s) → Forall P s.
Proof.
  intros Pc. induction s as [|d s IH]; cbn [split_on]; [constructor|].
  destruct (beqb c d) eqn:E.
  - apply beqb_true in E as <-. rewrite Forall_cons. intros [_ H]. constructor; auto.
  - destruct (split_on c s) as [|l ls]; rewrite !Forall_cons.
    + intros [[? _] _]. constructor; [done|]. apply IH. constructor.
    + intros [[? ?] ?]. constructor; [done|]. apply IH. by constructor.
Qed.

Lemma domain_bare d : ValidUploadDomain d = true → bare d.
Proof.
  unfold ValidUploadDomain, validHost. destruct (streqb d []) eqn:Hd; [done|]. apply streqb_false in Hd. cbn [orb].
  destruct (253 <? length d)%nat; [done|]. intros H. split; [done|].
  destruct (ParseIP d) eqn:Hip; [by eapply ip_chars_bare, ParseIP_chars|].
  destruct (contains_any _ d); [done|]. destruct (length (split_on x2e d) <? 2)%nat; [done|].
  apply (split_on_Forall _ x2e); [reflexivity|]. rewrite forallb_forall in H. apply Forall_forall. intros l Hl.
  apply list_elem_of_In, H in Hl. unfold host_label in Hl. apply andb_true_iff in Hl as [_ Hl]. by apply host_char_bare.
Qed.

Lemma itoa_octet b : Forall (λ c, is_digit c = true) (itoa (bz b)).
Proof.
  pose proof (bz_range b). destruct (Itoa_digits (bz b)) as (_ & Hd & _); [lia|].
  unfold Itoa in Hd. by destruct (Z.ltb_spec (bz b) 0); [lia|].
Qed.

Lemma v4_string_bare l : Forall (λ c, bare_char c = true) (v4_string l).
Proof.
  destruct l as [|a [|b [|c [|d [|? ?]]]]]; try constructor. unfold v4_string.
  rewrite !Forall_app. split_and!; try (by apply digits_bare, itoa_octet); by constructor.
Qed.

Lemma loopback_bare ip : IsLoopback ip = true → Forall (λ c, bare_char c = true) (IP_String ip).
Proof.
  unfold IsLoopback, IP_String. destruct (To4 ip) as [v4|] eqn:E; [intros _; apply v4_string_bare|].
  rewrite bool_decide_eq_true. intros ->. repeat constructor.
Qed.

Lemma JoinHostPort_bare host port : Forall (λ c, bare_char c = true) host → bare port → bare (JoinHostPort host port).
Proof.
  intros Hh Hp. unfold JoinHostPort. destruct (has_char x3a host).
  - apply (bare_app [x5b]); [by repeat constructor|]. apply bare_app; [done|]. apply (bare_app [x5d; x3a]); [by repeat constructor|done].
  - apply bare_app; [done|]. apply (bare_app [x3a]); [by repeat constructor|done].
Qed.

Lemma Itoa_bare n : 0 ≤ n < 2 ^ 63 → bare (Itoa n).
Proof. intros Hn. destruct (Itoa_digits n Hn) as (_ & Hd & Hne). split; [done|by apply digits_bare]. Qed.

(** The address a Caddyfile proxies to: a port of this host. *)
Definition local_upstream (up : gostring) : Prop :=
  ∃ ip port, IsLoopback ip = true ∧ 1 ≤ port ≤ 65535 ∧ up = JoinHostPort (IP_String ip) (Itoa port).

Lemma local_bare up : local_upstream up → bare up.
Proof. intros (ip & port & Hl & Hp & ->). apply JoinHostPort_bare; [by apply loopback_bare|apply Itoa_bare; lia]. Qed.

Lemma canonicalUpstream_ok addr : upstream_ok addr = true → ∃ up, canonicalUpstream addr = Some up ∧ local_upstream up.
Proof.
  unfold upstream_ok, canonicalUpstream. destruct (net_SplitHostPort addr) as [[host portStr]|]; [|done].
  destruct (parseUpstreamPort portStr) as [port|] eqn:Hp; [|done]. destruct (ParseIP host) as [ip|]; [|done].
  intros Hl. rewrite Hl. cbn [negb]. eexists. split; [done|]. exists ip, port. split_and!; [done| | |done].
  all: unfold parseUpstreamPort in Hp; destruct (_ || _); [done|]; destruct (digits_value 0 portStr) as [n|]; [|done];
    destruct (Z.ltb_spec n 1); [done|]; destruct (Z.ltb_spec 65535 n); [done|]; injection Hp as <-; lia.
Qed.

(** A word that starts no block, no comment and no quotation. *)
Definition inert (w : gostring) : Prop := word w ∧ contains_any email_marks w = false.

Lemma bare_inert w : bare w → inert w.
Proof.
  intros Hb. split; [by apply bare_word|]. destruct Hb as [_ H]. rewrite Forall_forall in H. apply not_true_is_false.
  unfold contains_any. rewrite existsb_exists. intros (c & Hc & Hw). apply existsb_exists in Hw as (d & Hd & ->%beqb_true).
  apply list_elem_of_In, H in Hd. unfold bare_char in Hd. apply andb_true_iff in Hd as [_ Hd%negb_true_iff].
  assert (has_char d email_marks = true); [|congruence]. apply existsb_exists. exists d. split; [done|by apply beqb_true].
Qed.

Lemma email_inert e : acme_email_ok e = true → e ≠ [] → inert e.
Proof.
  unfold acme_email_ok. destruct (streqb e []) eqn:E; [by apply streqb_true in E|]. cbn [orb].
  rewrite !andb_true_iff, negb_true_iff. intros [[[Hc _] Hm] _] Hne. by repeat split.
Qed.

(** ** The lines of a Caddyfile *)

Definition site (p : Plan) : gostring :=
  if streqb (Mode p) ModeCaddy then Domain p else Domain p ++ x3a :: Itoa (OriginPort p).

Definition tls_lines (p : Plan) : list (nat * list gostring) :=
  let email indent name := if streqb (ACMEEmail p) [] then [] else [(indent, [lit name; ACMEEmail p])] in
  if streqb (Mode p) ModeCaddy then
    if streqb (ACMEChallenge p) ACMETLSALPN01 then
      [(1%nat, [lit "tls"; lit "{"]); (2%nat, [lit "issuer"; lit "acme"; lit "{"])] ++ email 3%nat "email"%string
      ++ [(3%nat, [lit "disable_http_challenge"]); (2%nat, [lit "}"]); (1%nat, [lit "}"])]
    else email 1%nat "tls"%string
  else [(1%nat, [lit "tls"; lit "internal"])].

Definition caddy_lines (p : Plan) (up : gostring) : list (nat * list gostring) :=
  [(0%nat, map lit ["#"; "Managed"; "by"; "split-tunnel"; "installer"; "-"; "do"; "not"; "edit"; "by"; "hand"]%string);
   (0%nat, [site p; lit "{"])]
  ++ tls_lines p
  ++ [(1%nat, [lit "reverse_proxy"; UpstreamPath; up; lit "{"]); (2%nat, map lit ["transport"; "http"; "{"]%string);
      (3%nat, map lit ["read_timeout"; "3600s"]%string); (3%nat, map lit ["write_timeout"; "3600s"]%string);
      (2%nat, [lit "}"]); (1%nat, [lit "}"]); (0%nat, [lit "}"])].

Definition render_lines (l : list (nat * list gostring)) : gostring :=
  unlines (map (λ x, replicate (fst x) x09 ++ join_words (snd x)) l).

(** The plans that have a Caddyfile. *)
Definition served (p : Plan) : bool :=
  streqb (Mode p) ModeCaddy || (streqb (Mode p) ModeCDN && streqb (CDNSecurity p) CDNTLSOrigin).

Lemma unless_nil b f : unless b f = [] ↔ b = true.
Proof. by destruct b. Qed.

Lemma render_caddy_lines p up :
  streqb (Mode p) ModeCaddy = true → ACMEChallenge p ∈ [[]; ACMEHTTP01; ACMETLSALPN01] → acme_email_ok (ACMEEmail p) = true →
  canonicalUpstream (UpstreamAddr p) = Some up → renderCaddy p = Ok (render_lines (caddy_lines p up)).
Proof.
  intros Hm Hc He Hu. unfold renderCaddy, canonicalACMEEmail, caddy_lines, tls_lines, site, renderTLS, reverseProxyBlock. rewrite Hu, He, Hm.
  rewrite !elem_of_cons, elem_of_nil in Hc. destruct Hc as [-> | [-> | [-> | []]]]; names; cbn [orb];
    destruct (streqb (ACMEEmail p) []); unfold render_lines, unlines; cbn; rewrite <- ?app_assoc; cbn; rewrite <- ?app_assoc; cbn;
    rewrite <- ?app_assoc; reflexivity.
Qed.

Lemma render_cdn_lines p up :
  streqb (Mode p) ModeCaddy = false → port_ok (OriginPort p) = true →
  canonicalUpstream (UpstreamAddr p) = Some up → renderCDNInternal p = Ok (render_lines (caddy_lines p up)).
Proof.
  intros Hm Hp Hu. unfold renderCDNInternal, caddy_lines, tls_lines, site, reverseProxyBlock. rewrite Hu, Hm.
  assert ((OriginPort p =? 0) = false) as ->.
  { unfold port_ok in Hp. destruct (Z.ltb_spec (OriginPort p) 1); [done|]. apply Z.eqb_neq. lia. }
  unfold render_lines, unlines. cbn. rewrite <- ?app_assoc. cbn. rewrite <- ?app_assoc. cbn. rewrite <- ?app_assoc. reflexivity.
Qed.

Lemma words_of (l : list gostring) : forallb (λ w, negb (streqb w []) && clean w) l = true → Forall word l.
Proof.
  intros H. rewrite forallb_forall in H. apply Forall_forall. intros w Hw. apply list_elem_of_In, H in Hw.
  apply andb_true_iff in Hw as [Hn Hc]. split; [|done]. by intros ->.
Qed.

Lemma caddy_words p up :
  inert (site p) → inert up → (ACMEEmail p ≠ [] → inert (ACMEEmail p)) → Forall (λ x, Forall word (snd x)) (caddy_lines p up).
Proof.
  intros [Hs _] [Hu _] He. unfold caddy_lines. rewrite !Forall_app. split_and!.
  - constructor; [by apply words_of; vm_compute|]. constructor; [|constructor]. constructor; [done|by apply words_of; vm_compute].
  - assert (∀ n name, word (lit name) →
      Forall (λ x, Forall word (snd x)) (if streqb (ACMEEmail p) [] then [] else [(n : nat, [lit name; ACMEEmail p])])) as Hmail.
    { intros n name Hn. destruct (streqb (ACMEEmail p) []) eqn:E; [constructor|]. apply streqb_false in E.
      repeat constructor; try apply Hn; by apply He. }
    unfold tls_lines. destruct (streqb (Mode p) ModeCaddy); [destruct (streqb (ACMEChallenge p) ACMETLSALPN01)|].
    + rewrite !Forall_app. split_and!; [|by apply Hmail|]; repeat constructor; done.
    + by apply Hmail.
    + by repeat constructor.
  - constructor; [|by repeat constructor].
    constructor; [by repeat constructor|]. constructor; [by repeat constructor|]. constructor; [done|]. by repeat constructor.
Qed.

Lemma valid_caddy p :
  streqb (Mode p) ModeCaddy = true → planProblems p = [] →
  ValidUploadDomain (Domain p) = true ∧ upstream_ok (UpstreamAddr p) = true
  ∧ ACMEChallenge p ∈ [[]; ACMEHTTP01; ACMETLSALPN01] ∧ acme_email_ok (ACMEEmail p) = true.
Proof.
  intros Hm. unfold planProblems. rewrite Hm. unfold validateDomain, validateUpstream, validateACMEEmail.
  rewrite !app_nil, !unless_nil, bool_decide_eq_true, andb_true_iff. tauto.
Qed.

Lemma valid_cdn p :
  streqb (Mode p) ModeCaddy = false → streqb (Mode p) ModeCDN = true → streqb (CDNSecurity p) CDNTLSOrigin = true →
  planProblems p = [] →
  ValidUploadDomain (Domain p) = true ∧ upstream_ok (UpstreamAddr p) = true ∧ port_ok (OriginPort p) = true ∧ ACMEEmail p = [].
Proof.
  intros Hm Hc Hs. unfold planProblems. rewrite Hm, Hc, Hs. unfold validateDomain, validateUpstream.
  rewrite !app_nil, !unless_nil, !andb_true_iff, !streqb_true. tauto.
Qed.

(** A Caddyfile is rendered for exactly the valid plans that need one.  Read
    back line by line and word by word it is the fixed template: what the
    operator gave (domain, port, e-mail) is one word each, with no character
    that means anything to Caddy, and traffic is proxied to a loopback address
    only. *)
Theorem caddyfile_exact p :
  match RenderCaddyfile p with
  | Err _ => planProblems p ≠ [] ∨ served p = false
  | Ok out => planProblems p = [] ∧ served p = true
      ∧ ∃ up, local_upstream up ∧ map Fields (split_on x0a out) = map snd (caddy_lines p up) ++ [[]]
        ∧ inert (site p) ∧ inert up ∧ (ACMEEmail p ≠ [] → inert (ACMEEmail p))
  end.
Proof.
  assert (∀ up, local_upstream up →
            inert (site p) → (ACMEEmail p ≠ [] → inert (ACMEEmail p)) →
            map Fields (split_on x0a (render_lines (caddy_lines p up))) = map snd (caddy_lines p up) ++ [[]]) as Hread.
  { intros up Hup Hs He. apply file_of_words, caddy_words; [done|by apply bare_inert, local_bare|done]. }
  destruct (RenderCaddyfile p) as [out|e] eqn:E; revert E; unfold RenderCaddyfile, ValidatePlan, served.
  - destruct (planProblems p) eqn:Hp; [|done]. destruct (streqb (Mode p) ModeCaddy) eqn:Hm.
    + destruct (valid_caddy p Hm Hp) as (Hd & Hu & Hc & He). destruct (canonicalUpstream_ok _ Hu) as (up & Hup & Hl).
      rewrite (render_caddy_lines p up) by done. intros [= <-]. split_and!; [done..|]. exists up.
      assert (inert (site p)) as Hs by (unfold site; rewrite Hm; by apply bare_inert, domain_bare).
      pose proof (email_inert _ He) as Hmail. split_and!; [done|by apply Hread|done|by apply bare_inert, local_bare|done].
    + destruct (streqb (Mode p) ModeCDN) eqn:Hc; [|done]. destruct (streqb (CDNSecurity p) CDNTLSOrigin) eqn:Hs; [|done].
      cbn [negb]. destruct (valid_cdn p Hm Hc Hs Hp) as (Hd & Hu & Hport & He).
      destruct (canonicalUpstream_ok _ Hu) as (up & Hup & Hl). rewrite (render_cdn_lines p up) by done. intros [= <-].
      split_and!; [done..|]. exists up.
      assert (inert (site p)) as Hsite.
      { unfold site. rewrite Hm. apply bare_inert, bare_app; [by apply domain_bare|]. apply (bare_app [x3a]); [by repeat constructor|].
        apply Itoa_bare. unfold port_ok in Hport. lia. }
      assert (ACMEEmail p ≠ [] → inert (ACMEEmail p)) as Hmail by (intros Hn; by destruct Hn).
      split_and!; [done|by apply Hread|done|by apply bare_inert, local_bare|done].
  - destruct (planProblems p) eqn:Hp; [|by left]. destruct (streqb (Mode p) ModeCaddy) eqn:Hm.
    + destruct (valid_caddy p Hm Hp) as (Hd & Hu & Hc & He). destruct (canonicalUpstream_ok _ Hu) as (up & Hup & Hl).
      by rewrite (render_caddy_lines p up).
    + destruct (streqb (Mode p) ModeCDN) eqn:Hc; [|by right]. destruct (streqb (CDNSecurity p) CDNTLSOrigin) eqn:Hs; [|by right].
      cbn [negb]. destruct (valid_cdn p Hm Hc Hs Hp) as (Hd & Hu & Hport & He).
      destruct (canonicalUpstream_ok _ Hu) as (up & Hup & Hl). by rewrite (render_cdn_lines p up).
Qed.

(** An IPv6 literal is a valid upload domain, so a colon does reach the site
    line, where Caddy takes what follows for a port. *)
Example domain_with_colons :
  RenderCaddyfile (mkPlan ModeCaddy (lit "2001:db8::7") (lit "127.0.0.1:9001") 0 [] [] [] [])
  = Ok (render_lines (caddy_lines (mkPlan ModeCaddy (lit "2001:db8::7") (lit "127.0.0.1:9001") 0 [] [] [] []) (lit "127.0.0.1:9001"))).
Proof. vm_compute. reflexivity. Qed.

(** A release directory is named by the version alone: it has no separator and
    is no relative name. *)
Lemma version_plain v : ValidVersion v = true → Forall (λ c, bare_char c = true ∧ c ≠ x2f) v ∧ v ≠ [] ∧ v ≠ lit "." ∧ v ≠ lit "..".
Proof.
  destruct v as [|c v]; [done|]. unfold ValidVersion. rewrite andb_true_iff. intros [->%beqb_true H].
  split_and!; [|discriminate..]. constructor; [split; [reflexivity|discriminate]|].
  apply (split_on_Forall _ x2e); [split; [reflexivity|discriminate]|].
  destruct (split_on x2e v) as [|a [|b [|d [|? ?]]]]; try done. rewrite !andb_true_iff in H. destruct H as [[Ha Hb] Hc].
  assert (∀ s, number_ok s = true → Forall (λ c, bare_char c = true ∧ c ≠ x2f) s) as Hn.
  { intros s [_ Hs]%andb_true_iff. rewrite forallb_forall in Hs. apply Forall_forall. intros x Hx.
    apply list_elem_of_In, Hs in Hx. split; [|by intros ->].
    pose proof (digits_bare [x] ltac:(by constructor)) as Hx'. by inversion Hx'. }
  repeat constructor; by apply Hn.
Qed.
