(* ===== verification/Xray.v ===== *)
(** * Xray configurations (src/internal/xray)

    What the program gives to Xray and reads from it, as pure functions: the
    names of a release and the check of its digest, the output of [xray x25519],
    the configurations of the Germany node (one and two instances) and of the
    Iran consumer, and the reading of an installed configuration.

    A configuration is a JSON tree.  Its text is the work of [encoding/json],
    two parameters with the law that a tree of ASCII strings is read back as it
    was written; SHA-256 and the X25519 public key of a private one are
    parameters.  The error messages are not kept. *)
From S2P Require Export Pairing Units.
From S2P Require Import Origin.
#[local] Open Scope Z_scope.
#[local] Set Warnings "-register-all".

(** ** Releases (version.go) *)

Definition PinnedVersion : gostring := lit "v26.3.27".
Definition releaseBaseURL : gostring := lit "https://github.com/XTLS/Xray-core/releases/download/".
Definition ArchLinux64 : gostring := lit "linux-64".
Definition ArchLinuxARM64 : gostring := lit "linux-arm64-v8a".
Definition ArchLinuxARM7 : gostring := lit "linux-arm32-v7a".
Definition ArchLinux32 : gostring := lit "linux-32".

(** The regular expression is that of systemd's [versionRE]. *)
Definition ValidVersion (v : gostring) : bool := versionRE v.

Definition ArchForGOARCH (goarch : gostring) : option gostring :=
  if streqb goarch (lit "amd64") then Some ArchLinux64 else if streqb goarch (lit "arm64") then Some ArchLinuxARM64
  else if streqb goarch (lit "arm") then Some ArchLinuxARM7 else if streqb goarch (lit "386") then Some ArchLinux32 else None.

Definition knownArch (a : gostring) : bool := bool_decide (a ∈ [ArchLinux64; ArchLinuxARM64; ArchLinuxARM7; ArchLinux32]).

Definition ZipName (arch : gostring) : option gostring :=
  if knownArch arch then Some (lit "Xray-" ++ arch ++ lit ".zip") else None.

Definition ZipURL (version arch : gostring) : option gostring :=
  if negb (ValidVersion version) then None
  else match ZipName arch with Some n => Some (releaseBaseURL ++ version ++ lit "/" ++ n) | None => None end.

Definition DigestURL (version arch : gostring) : option gostring :=
  match ZipURL version arch with Some u => Some (u ++ lit ".dgst") | None => None end.

Definition VersionDir (prefix version : gostring) : option gostring :=
  if negb (ValidVersion version) then None
  else let p := trim_slashes prefix in
       if streqb p [] then None else Some (p ++ lit "/" ++ version).

(** ** The published digest (dgst.go, fetch.go) *)

Inductive digest_error := ErrDgstFormat | ErrDgstMismatch | ErrDgstMissing | ErrDgstEmpty | ErrDgstTooLarge | ErrDownload.

Definition maxDgstBytes : nat := Z.to_nat (2 ^ 20).

(** The class of white space of a regular expression. *)
Definition re_space (c : byte) : bool := has_char c [x09; x0a; x0c; x0d; x20].

Fixpoint skip (p : byte → bool) (s : gostring) : gostring :=
  match s with c :: s' => if p c then skip p s' else s | [] => [] end.

(** The letter [S] in either case; the long s is its third form. *)
Definition re_S (s : gostring) : option gostring :=
  match s with
  | c :: s' => if beqb c x53 || beqb c x73 then Some s' else if has_prefix [xc5; xbf] s then Some (drop 2 s) else None
  | [] => None
  end.

(** [SHA2-256] with the dash optional, in any case. *)
Definition re_name (s : gostring) : option gostring :=
  match re_S s with
  | Some (h :: a :: s') =>
      if (beqb h x48 || beqb h x68) && (beqb a x41 || beqb a x61) && has_prefix (lit "2") s' then
        let s' := drop 1 s' in
        let s' := if has_prefix (lit "-") s' then drop 1 s' else s' in
        if has_prefix (lit "256") s' then Some (drop 3 s') else None
      else None
  | _ => None
  end.

Definition digestLine (line : gostring) : option gostring :=
  match re_name (skip re_space line) with
  | Some s =>
      match skip re_space s with
      | c :: s =>
          let s := skip re_space s in
          if (beqb c x3d || beqb c x3a) && (64 <=? length s)%nat && forallb is_hex (take 64 s) && forallb re_space (drop 64 s)
          then Some (take 64 s) else None
      | [] => None
      end
  | None => None
  end.

Fixpoint first_digest (lines : list gostring) : option gostring :=
  match lines with
  | [] => None
  | l :: lines => match digestLine l with Some h => Some (lower h) | None => first_digest lines end
  end.

Definition ParseDigest (data : list byte) : res digest_error gostring :=
  if streqb (TrimSpace data) [] then Err ErrDgstEmpty
  else match first_digest (split_on x0a data) with Some h => Ok h | None => Err ErrDgstMissing end.

(** [readBounded] *)
Definition readBounded (body : list byte) (max : nat) : option (list byte) :=
  let data := take (S max) body in if (max <? length data)%nat then None else Some data.

(** The reply of the downloader: no body, or a body that may break off. *)
Definition fetchDigest (reply : option (option (list byte))) : res digest_error gostring :=
  match reply with
  | None | Some None => Err ErrDownload
  | Some (Some body) => match readBounded body maxDgstBytes with None => Err ErrDgstTooLarge | Some data => ParseDigest data end
  end.

Definition hexVal (c : byte) : option Z := hex_value c.

Fixpoint hexToBytes (s : gostring) : option (list byte) :=
  match s with
  | [] => Some []
  | [_] => None
  | a :: b :: s => match hexVal a, hexVal b, hexToBytes s with
                   | Some hi, Some lo, Some l => Some (zb (hi * 16 + lo) :: l)
                   | _, _, _ => None
                   end
  end.

Section digest.
Context (sha256 : list byte → list byte).

(** A text with a character that is not ASCII is refused whatever its lower
    case is: it is no hexadecimal number. *)
Definition VerifyDigest (data : list byte) (expectedHex : gostring) : option digest_error :=
  let exp := lower (TrimSpace expectedHex) in
  if negb (length exp =? 64)%nat then Some ErrDgstFormat
  else match hexToBytes exp with
       | None => Some ErrDgstFormat
       | Some want => if bool_decide (sha256 data = want) then None else Some ErrDgstMismatch
       end.

Definition VerifyFile (data : list byte) (digestHex : gostring) : option digest_error := VerifyDigest data digestHex.
End digest.

(** ** Key pairs (keygen.go) *)

Inductive keygen_error := ErrKeygenExec | ErrKeygenFormat | ErrKeygenBadKey.

Record Keypair := mkKeypair {
  PrivateRaw : gostring; PublicRaw : gostring; Hash32Raw : gostring; PrivateStd : gostring; PublicStd : gostring
}.

Definition keyLinePrivate : gostring := lit "PrivateKey: ".
Definition keyLinePublic : gostring := lit "Password (PublicKey): ".
Definition keyLineHash32 : gostring := lit "Hash32: ".
Definition keyLen : nat := 32.

(** [StdEncoding.EncodeToString]: the other alphabet, padded. *)
Definition StdEncode (l : list byte) : gostring :=
  let s := map (λ c, if beqb c x2d then x2b else if beqb c x5f then x2f else c) (b64_encode l) in
  s ++ replicate ((4 - length s mod 4) mod 4) x3d.

Definition decodeKey32 (s : gostring) : option (list byte) :=
  match RawURLDecode s with Some b => if (length b =? keyLen)%nat then Some b else None | None => None end.

(** The lines without the blank ones at the end. *)
Fixpoint drop_blank (rev_lines : list gostring) : list gostring :=
  match rev_lines with
  | l :: rest => if streqb (trim_left [[x0d]] (reverse l)) [] then drop_blank rest else rev_lines
  | [] => []
  end.

Definition keyValue (prefix line : gostring) : option gostring :=
  let line := if has_suffix line [x0d] then take (length line - 1) line else line in
  if negb (has_prefix prefix line) then None
  else let v := drop (length prefix) line in
       if streqb v [] || contains_any [x20; x09] v then None else Some v.

Definition clamped (priv : list byte) : bool :=
  (Z.land (bz (nth 0 priv x00)) 7 =? 0) && (Z.land (bz (nth 31 priv x00)) 192 =? 64).

Definition ParseX25519Output (out : gostring) : res keygen_error Keypair :=
  match reverse (drop_blank (reverse (split_on x0a out))) with
  | [l1; l2; l3] =>
      match keyValue keyLinePrivate l1, keyValue keyLinePublic l2, keyValue keyLineHash32 l3 with
      | Some privRaw, Some pubRaw, Some h32Raw =>
          match decodeKey32 privRaw, decodeKey32 pubRaw, decodeKey32 h32Raw with
          | Some priv, Some pub, Some _ =>
              if clamped priv then Ok (mkKeypair privRaw pubRaw h32Raw (StdEncode priv) (StdEncode pub)) else Err ErrKeygenBadKey
          | _, _, _ => Err ErrKeygenBadKey
          end
      | _, _, _ => Err ErrKeygenFormat
      end
  | _ => Err ErrKeygenFormat
  end.

(** The reply of the executor: the output, or a failure. *)
Definition GenerateRealityKeypair (reply : option gostring) : res keygen_error Keypair :=
  match reply with None => Err ErrKeygenExec | Some out => ParseX25519Output out end.

(** ** JSON trees *)

(** What [json.Unmarshal] makes of a text: a number is the integer it is, if it
    is one of 64 bits; the members of an object are those of the map. *)
Inductive json :=
  JNull | JBool (b : bool) | JNum (n : option Z) | JStr (s : gostring) | JArr (l : list json)
| JObj (l : list (gostring * json)).

(** [m[key]]: nil if there is none. *)
Fixpoint get (key : gostring) (m : list (gostring * json)) : json :=
  match m with [] => JNull | (k, v) :: m => if streqb k key then v else get key m end.

Definition objectOf (v : json) : option (list (gostring * json)) := match v with JObj m => Some m | _ => None end.
Definition arrayOf (v : json) : option (list json) := match v with JArr l => Some l | _ => None end.
Definition stringOf (v : json) : option gostring := match v with JStr s => Some s | _ => None end.
Definition stringValue (m : list (gostring * json)) (key : gostring) : gostring := default [] (stringOf (get key m)).
Definition intValue (v : json) : option Z := match v with JNum n => n | _ => None end.

(** ** The Germany configuration (realityconfig.go) *)

Record RealityParams := mkReality { r_SNI : gostring; r_ShortID : gostring; r_UUID : gostring }.

Definition germanyListen : gostring := lit "0.0.0.0".
Definition germanyPort : Z := 443.
Definition splitterAddress : gostring := lit "127.0.0.1".
Definition splitterPort : Z := 9002.
Definition tagSplitDown : gostring := lit "split-down".
Definition tagToSplitter : gostring := lit "to-splitter".
Definition xrayErrorLog : gostring := lit "/var/log/split-tunnel/xray-germany.error.log".
Definition secondDownPublicPort : Z := 2053.
Definition secondSplitterPort : Z := 9003.
Definition tagSplitDownB : gostring := lit "split-down-b".
Definition tagToSplitterB : gostring := lit "to-splitter-b".

Definition valid_reality (p : RealityParams) : bool := ValidSNI (r_SNI p) && ValidShortID (r_ShortID p) && ValidUUID (r_UUID p).

Inductive reality_error := ErrInvalidParams | ErrMissingKeypair | ErrBadKeypair.

Definition ValidateRealityParams (p : RealityParams) : res reality_error unit :=
  if valid_reality p then Ok () else Err ErrInvalidParams.

Definition checkKeypair (kp : option Keypair) : res reality_error Keypair :=
  match kp with
  | None => Err ErrMissingKeypair
  | Some k =>
      if streqb (PrivateRaw k) [] then Err ErrMissingKeypair
      else match decodeKey32 (PrivateRaw k), decodeKey32 (PublicRaw k) with Some _, Some _ => Ok k | _, _ => Err ErrBadKeypair end
  end.

Record germanyRealitySettings := mkRealitySettings {
  Dest : gostring; ServerNames : list gostring; PrivateKey : gostring; ShortIds : list gostring
}.
Record germanyInbound := mkInbound {
  gi_Tag : gostring; gi_Listen : gostring; gi_Port : Z; gi_Protocol : gostring; Clients : list gostring; Decryption : gostring;
  gi_Network : gostring; gi_Security : gostring; gi_Reality : germanyRealitySettings
}.
Record germanyOutbound := mkOutbound { go_Tag : gostring; go_Protocol : gostring; Redirect : gostring }.
Record germanyRoutingRule := mkRule { InboundTag : list gostring; OutboundTag : gostring }.
Record germanyConfig := mkGermany {
  LogLevel : gostring; LogError : gostring; Inbounds : list germanyInbound; Outbounds : list germanyOutbound;
  Rules : list germanyRoutingRule
}.

(** One instance; a zero field is the default of the first. *)
Record RealityInstance := mkInstance {
  i_Params : RealityParams; PubPort : Z; SplitPort : Z; i_InboundTag : gostring; i_OutboundTag : gostring;
  i_Keypair : option Keypair
}.
Record MultiInstanceParams := mkMulti { A : RealityInstance; B : RealityInstance }.

Definition reality_inbound (tag : gostring) (port : Z) (p : RealityParams) (kp : Keypair) : germanyInbound :=
  mkInbound tag germanyListen port (lit "vless") [r_UUID p] (lit "none") (lit "tcp") (lit "reality")
    (mkRealitySettings (r_SNI p ++ lit ":443") [r_SNI p] (PrivateRaw kp) [r_ShortID p]).

Definition redirect_to (port : Z) : gostring := splitterAddress ++ lit ":" ++ Itoa port.

Definition germany_config (p : RealityParams) (kp : Keypair) : germanyConfig :=
  mkGermany (lit "warning") xrayErrorLog
    [reality_inbound tagSplitDown germanyPort p kp]
    [mkOutbound tagToSplitter (lit "freedom") (redirect_to splitterPort)]
    [mkRule [tagSplitDown] tagToSplitter].

Definition orZ (z d : Z) : Z := if z =? 0 then d else z.
Definition orS (s d : gostring) : gostring := if streqb s [] then d else s.

Definition ValidateMultiInstanceParams (p : MultiInstanceParams) : res reality_error (Keypair * Keypair) :=
  _ ← ValidateRealityParams (i_Params (A p));
  _ ← ValidateRealityParams (i_Params (B p));
  ka ← checkKeypair (i_Keypair (A p));
  kb ← checkKeypair (i_Keypair (B p));
  if ((1 <=? PubPort (B p)) && (PubPort (B p) <=? 65535)) && negb (PubPort (B p) =? 8443)
     && negb (PubPort (B p) =? PubPort (A p)) && negb (streqb (r_SNI (i_Params (B p))) (r_SNI (i_Params (A p))))
  then Ok (ka, kb) else Err ErrInvalidParams.

Definition renderInstance (i : RealityInstance) (kp : Keypair) : germanyInbound * germanyOutbound * germanyRoutingRule :=
  let inboundTag := orS (i_InboundTag i) tagSplitDown in
  let outTag := orS (i_OutboundTag i) tagToSplitter in
  (reality_inbound inboundTag (orZ (PubPort i) germanyPort) (i_Params i) kp,
   mkOutbound outTag (lit "freedom") (redirect_to (orZ (SplitPort i) splitterPort)),
   mkRule [inboundTag] outTag).

Definition multi_config (p : MultiInstanceParams) (ka kb : Keypair) : germanyConfig :=
  let '(inA, obA, ruleA) := renderInstance (A p) ka in
  let '(inB, obB, ruleB) := renderInstance (B p) kb in
  mkGermany (lit "warning") xrayErrorLog [inA; inB] [obA; obB] [ruleA; ruleB].

Definition str (k : string) (s : gostring) : gostring * json := (lit k, JStr s).
Definition strs (l : list gostring) : json := JArr (map JStr l).

Definition inbound_json (i : germanyInbound) : json := JObj [
  str "tag" (gi_Tag i); str "listen" (gi_Listen i); (lit "port", JNum (Some (gi_Port i))); str "protocol" (gi_Protocol i);
  (lit "settings", JObj [(lit "clients", JArr (map (λ id, JObj [str "id" id]) (Clients i))); str "decryption" (Decryption i)]);
  (lit "streamSettings", JObj [
     str "network" (gi_Network i); str "security" (gi_Security i);
     (lit "realitySettings", JObj [
        str "dest" (Dest (gi_Reality i)); (lit "serverNames", strs (ServerNames (gi_Reality i)));
        str "privateKey" (PrivateKey (gi_Reality i)); (lit "shortIds", strs (ShortIds (gi_Reality i)))])])].

Definition outbound_json (o : germanyOutbound) : json := JObj [
  str "tag" (go_Tag o); str "protocol" (go_Protocol o); (lit "settings", JObj [str "redirect" (Redirect o)])].

Definition rule_json (r : germanyRoutingRule) : json := JObj [
  (lit "inboundTag", strs (InboundTag r)); str "outboundTag" (OutboundTag r)].

Definition germany_json (c : germanyConfig) : json := JObj [
  (lit "log", JObj [str "loglevel" (LogLevel c); str "error" (LogError c)]);
  (lit "inbounds", JArr (map inbound_json (Inbounds c)));
  (lit "outbounds", JArr (map outbound_json (Outbounds c)));
  (lit "routing", JObj [(lit "rules", JArr (map rule_json (Rules c)))])].

Section render.
Context (MarshalIndent : json → list byte).

Definition RenderGermanyConfig (p : RealityParams) (kp : option Keypair) : res reality_error (list byte) :=
  _ ← ValidateRealityParams p;
  k ← checkKeypair kp;
  Ok (MarshalIndent (germany_json (germany_config p k)) ++ [x0a]).

Definition RenderGermanyMultiConfig (p : MultiInstanceParams) : res reality_error (list byte) :=
  ks ← ValidateMultiInstanceParams p;
  Ok (MarshalIndent (germany_json (multi_config p (fst ks) (snd ks))) ++ [x0a]).
End render.

(** ** The consumer configuration (consumerconfig.go) *)

Record ConsumerParams := mkConsumer {
  c_PublicKey : gostring; c_SNI : gostring; c_ShortID : gostring; c_UUID : gostring; DownHost : gostring; DownPort : Z;
  ListenAddr : gostring; ListenPort : Z
}.
Record ConsumerInstance := mkConsumerInstance { ci_Params : ConsumerParams; ci_InboundTag : gostring; ci_OutboundTag : gostring }.
Record ConsumerMultiParams := mkConsumerMulti { c_A : ConsumerInstance; c_B : ConsumerInstance }.

Definition ValidateConsumerParams (p : ConsumerParams) : bool :=
  ValidSNI (c_SNI p) && ValidShortID (c_ShortID p) && ValidUUID (c_UUID p) && negb (streqb (c_PublicKey p) [])
  && ValidUploadDomain (DownHost p) && ((1 <=? DownPort p) && (DownPort p <=? 65535))
  && ((1 <=? ListenPort p) && (ListenPort p <=? 65535)) && negb (streqb (ListenAddr p) []).

Record consumerInb := mkConsumerInb { cin_Tag : gostring; cin_Listen : gostring; cin_Port : Z; cin_Protocol : gostring; cin_Network : gostring }.
Record consumerOutb := mkConsumerOutb {
  co_Tag : gostring; co_Protocol : gostring; Address : gostring; co_Port : Z; Users : list (gostring * gostring);
  co_Network : gostring; co_Security : gostring; co_Dest : gostring; ServerName : gostring; co_PublicKey : gostring; co_ShortID : gostring
}.
Record consumerConfig := mkConsumerConfig {
  cc_LogLevel : gostring; cc_LogError : gostring; cc_Inbounds : list consumerInb; cc_Outbounds : list consumerOutb;
  cc_Rules : list germanyRoutingRule
}.

Definition consumerErrorLog : gostring := lit "/var/log/split-tunnel/xray-consumer.error.log".
Definition tagToGermany : gostring := lit "to-germany".
Definition tagRealityGermany : gostring := lit "reality-germany".

Definition renderConsumerInstance (i : ConsumerInstance) : consumerInb * consumerOutb * germanyRoutingRule :=
  let p := ci_Params i in
  let inbTag := orS (ci_InboundTag i) tagToGermany in
  let outTag := orS (ci_OutboundTag i) tagRealityGermany in
  (mkConsumerInb inbTag (ListenAddr p) (ListenPort p) (lit "dokodemo-door") (lit "tcp"),
   mkConsumerOutb outTag (lit "vless") (DownHost p) (DownPort p) [(c_UUID p, lit "none")] (lit "tcp") (lit "reality")
     (c_SNI p ++ lit ":443") (c_SNI p) (c_PublicKey p) (c_ShortID p),
   mkRule [inbTag] outTag).

Definition consumer_config (p : ConsumerParams) : consumerConfig :=
  let '(i, o, r) := renderConsumerInstance (mkConsumerInstance p [] []) in
  mkConsumerConfig (lit "warning") consumerErrorLog [i] [o] [r].

Definition consumer_multi_config (p : ConsumerMultiParams) : consumerConfig :=
  let '(inA, obA, ruleA) := renderConsumerInstance (c_A p) in
  let '(inB, obB, ruleB) := renderConsumerInstance (c_B p) in
  mkConsumerConfig (lit "warning") consumerErrorLog [inA; inB] [obA; obB] [ruleA; ruleB].

Definition consumer_in_json (i : consumerInb) : json := JObj [
  str "tag" (cin_Tag i); str "listen" (cin_Listen i); (lit "port", JNum (Some (cin_Port i))); str "protocol" (cin_Protocol i);
  (lit "settings", JObj [str "network" (cin_Network i)])].

Definition consumer_out_json (o : consumerOutb) : json := JObj [
  str "tag" (co_Tag o); str "protocol" (co_Protocol o);
  (lit "settings", JObj [(lit "vnext", JArr [JObj [
     str "address" (Address o); (lit "port", JNum (Some (co_Port o)));
     (lit "users", JArr (map (λ u, JObj [str "id" (fst u); str "encryption" (snd u)]) (Users o)))]])]);
  (lit "streamSettings", JObj [
     str "network" (co_Network o); str "security" (co_Security o);
     (lit "realitySettings", JObj [str "dest" (co_Dest o); str "serverName" (ServerName o); str "publicKey" (co_PublicKey o);
                                   str "shortId" (co_ShortID o)])])].

Definition consumer_json (c : consumerConfig) : json := JObj [
  (lit "log", JObj [str "loglevel" (cc_LogLevel c); str "error" (cc_LogError c)]);
  (lit "inbounds", JArr (map consumer_in_json (cc_Inbounds c)));
  (lit "outbounds", JArr (map consumer_out_json (cc_Outbounds c)));
  (lit "routing", JObj [(lit "rules", JArr (map rule_json (cc_Rules c)))])].

Definition ValidateConsumerMultiParams (p : ConsumerMultiParams) : bool :=
  ValidateConsumerParams (ci_Params (c_A p)) && ValidateConsumerParams (ci_Params (c_B p))
  && negb (ListenPort (ci_Params (c_B p)) =? ListenPort (ci_Params (c_A p)))
  && negb (streqb (c_SNI (ci_Params (c_B p))) (c_SNI (ci_Params (c_A p)))).

(** The consumer of a blob B. *)
Definition consumerFromBlobB (b : BlobB) (listenAddr : gostring) (listenPort : Z) : ConsumerParams :=
  mkConsumer (RealityPublicKey (Public b)) (SNI (Public b)) (ShortID (Public b)) (UUID (Public b)) (Pairing.Host (Germany b)) (Pairing.Port (Germany b))
    listenAddr listenPort.

Section render_consumer.
Context (MarshalIndent : json → list byte).

Definition RenderConsumerConfig (p : ConsumerParams) : option (list byte) :=
  if ValidateConsumerParams p then Some (MarshalIndent (consumer_json (consumer_config p)) ++ [x0a]) else None.

Definition RenderConsumerMultiConfig (p : ConsumerMultiParams) : option (list byte) :=
  if ValidateConsumerMultiParams p then Some (MarshalIndent (consumer_json (consumer_multi_config p)) ++ [x0a]) else None.

Definition ConsumerConfigFromBlobB (b : BlobB) (listenAddr : gostring) (listenPort : Z) : option (list byte) :=
  RenderConsumerConfig (consumerFromBlobB b listenAddr listenPort).
End render_consumer.

(** ** Reading an installed configuration (realitypub.go) *)

Record InstalledRealityParams := mkInstalled {
  p_RealityPublicKey : gostring; p_SNI : gostring; p_ShortID : gostring; p_UUID : gostring; p_Port : Z
}.

Inductive installed_error := ErrInstalledConfigRead | ErrInstalledConfig | ErrInstalledKey.

Section installed.
Context (Unmarshal : list byte → option json) (x25519 : list byte → option (list byte)).

Definition the_only (l : option (list json)) : option json := match l with Some [v] => Some v | _ => None end.

(** The parameters of a Reality inbound. *)
Definition readInbound (m reality : list (gostring * json)) : res installed_error InstalledRealityParams :=
  let bad {T} : res installed_error T := Err ErrInstalledConfig in
  match intValue (get (lit "port") m) with
  | None => bad
  | Some port =>
  if (port <? 1) || (65535 <? port) then bad else
  match objectOf (get (lit "settings") m) with
  | None => bad
  | Some settings =>
  match the_only (arrayOf (get (lit "clients") settings)) with
  | None => bad
  | Some c =>
  match objectOf c with
  | None => bad
  | Some client =>
  let uuid := stringValue client (lit "id") in
  if negb (ValidUUID uuid) then bad else
  match the_only (arrayOf (get (lit "serverNames") reality)) with
  | None => bad
  | Some n =>
  match stringOf n with
  | None => bad
  | Some sni =>
  if negb (ValidSNI sni) then bad else
  match the_only (arrayOf (get (lit "shortIds") reality)) with
  | None => bad
  | Some i =>
  match stringOf i with
  | None => bad
  | Some shortID =>
  if negb (ValidShortID shortID) then bad else
  match decodeKey32 (stringValue reality (lit "privateKey")) with
  | None => Err ErrInstalledKey
  | Some priv =>
  match x25519 priv with
  | None => Err ErrInstalledKey
  | Some pub => Ok (mkInstalled (b64_encode pub) sni shortID uuid port)
  end end end end end end end end end end.

Fixpoint scanInbounds (l : list json) (found : option InstalledRealityParams) : res installed_error (option InstalledRealityParams) :=
  match l with
  | [] => Ok found
  | raw :: l =>
      match objectOf raw with
      | None => scanInbounds l found
      | Some m =>
          if negb (streqb (stringValue m (lit "protocol")) (lit "vless")) then scanInbounds l found
          else match objectOf (get (lit "streamSettings") m) with
               | None => scanInbounds l found
               | Some stream =>
                   if negb (streqb (stringValue stream (lit "security")) (lit "reality")) then scanInbounds l found
                   else match objectOf (get (lit "realitySettings") stream) with
                        | None => Err ErrInstalledConfig
                        | Some reality =>
                            match found with
                            | Some _ => Err ErrInstalledConfig
                            | None => p ← readInbound m reality; scanInbounds l (Some p)
                            end
                        end
               end
      end
  end.

(** The file: [None] if it cannot be examined, else whether it is regular and
    what reading it gives. *)
Definition ReadInstalledRealityParams (path : gostring) (file : option (bool * option (list byte))) : res installed_error InstalledRealityParams :=
  if streqb path [] then Err ErrInstalledConfigRead
  else match file with
       | Some (true, Some data) =>
           match Unmarshal data with
           | Some (JObj root) =>
               found ← scanInbounds (default [] (arrayOf (get (lit "inbounds") root))) None;
               match found with Some p => Ok p | None => Err ErrInstalledConfig end
           | Some JNull => Err ErrInstalledConfig
           | _ => Err ErrInstalledConfig
           end
       | _ => Err ErrInstalledConfigRead
       end.
End installed.

(** ** Lemmas *)

(** A tree whose text is read back: ASCII strings, distinct names, integers that
    a number of JSON holds exactly. *)
Fixpoint plain_json (t : json) : bool :=
  match t with
  | JNull | JBool _ => true
  | JNum (Some n) => Z.abs n <=? 2 ^ 53
  | JNum None => false
  | JStr s => ascii s
  | JArr l => forallb plain_json l
  | JObj l => forallb (λ x, ascii (fst x) && plain_json (snd x)) l && bool_decide (NoDup (map fst l))
  end.

Lemma bare_ascii s : Forall (λ c, bare_char c = true) s → ascii s = true.
Proof.
  intros H. apply forallb_forall. intros c Hc. rewrite Forall_forall in H. apply list_elem_of_In, H in Hc.
  unfold bare_char in Hc. lia.
Qed.

Lemma matches_ascii ps s :
  forallb (λ p : byte → bool, forallb (λ z, negb (p (zb z)) || ((bz (zb z)) <? 128)) (map Z.of_nat (seq 0 256))) ps = true →
  matches ps s = true → ascii s = true.
Proof.
  revert s. induction ps as [|p ps IH]; intros [|c s] Hps H; cbn [matches forallb] in *; try done.
  apply andb_true_iff in H as [Hp H]. apply andb_true_iff in Hps as [Hc Hps]. unfold ascii. cbn [forallb].
  apply (bytes_forall (λ c, negb (p c) || (bz c <? 128))) with (c := c) in Hc. cbv beta in Hc. rewrite Hp in Hc. cbn [negb orb] in Hc.
  rewrite Hc. by apply IH.
Qed.

Lemma shortid_ascii s : ValidShortID s = true → ascii s = true.
Proof. apply matches_ascii. vm_compute. reflexivity. Qed.

Lemma uuid_ascii s : ValidUUID s = true → ascii s = true.
Proof. apply matches_ascii. vm_compute. reflexivity. Qed.

Lemma sni_ascii s : ValidSNI s = true → ascii s = true.
Proof.
  intros H. apply bare_ascii, domain_bare. unfold ValidUploadDomain, validHost. unfold ValidSNI in H.
  destruct (streqb s [] || (253 <? length s)%nat); [done|]. destruct (ParseIP s); [done|].
  destruct (contains_any _ s); [done|]. cbv zeta in *. destruct (length (split_on x2e s) <? 2)%nat; [done|].
  rewrite forallb_forall in H |- *. intros l Hl. specialize (H l Hl). unfold sni_label in H. unfold host_label.
  rewrite !andb_true_iff in H |- *. destruct H as [H Hc]. split; [done|]. rewrite forallb_forall in Hc |- *. intros c Hin.
  specialize (Hc c Hin). unfold sni_char in Hc. unfold host_char. destruct (is_lower c), (is_digit c), (is_upper c); done.
Qed.

Lemma host_ascii h : ValidUploadDomain h = true → ascii h = true.
Proof. intros H. by apply bare_ascii, domain_bare. Qed.

(** What base 64 is decoded from is ASCII. *)
Lemma b64_value_ascii url c n : b64_value url c = Some n → (bz c <? 128) = true.
Proof.
  assert (forallb (λ z, match b64_value url (zb z) with Some _ => bz (zb z) <? 128 | None => true end) (map Z.of_nat (seq 0 256)) = true) as H
    by (destruct url; vm_compute; reflexivity).
  intros E. pose proof (bytes_forall (λ c, match b64_value url c with Some _ => bz c <? 128 | None => true end) H c) as Hc.
  cbv beta in Hc. by rewrite E in Hc.
Qed.

Lemma list_ind4 {T} (P : list T → Prop) :
  P [] → (∀ a, P [a]) → (∀ a b, P [a; b]) → (∀ a b c, P [a; b; c]) → (∀ a b c d l, P l → P (a :: b :: c :: d :: l)) → ∀ l, P l.
Proof.
  intros H0 H1 H2 H3 H4. fix IH 1. intros [|a [|b [|c [|d l]]]]; [exact H0|apply H1|apply H2|apply H3|]. apply H4, IH.
Qed.

Lemma b64_groups_ascii url s l : b64_groups url s = Some l → ascii s = true.
Proof.
  revert l. induction s as [|a|a b|a b c|a b c d s IH] using list_ind4; intros l H; cbn in *; try done;
    repeat match type of H with context [b64_value url ?x] => let E := fresh in destruct (b64_value url x) eqn:E; [|done]; apply b64_value_ascii in E; rewrite E end; try done.
  destruct (b64_groups url s) as [l'|]; [|done]. by apply (IH l').
Qed.

Lemma rawurl_ascii s l : RawURLDecode s = Some l → ascii s = true.
Proof.
  intros H%b64_groups_ascii. apply forallb_forall. intros c Hc. unfold ascii in H. rewrite forallb_forall in H.
  destruct (negb (beqb c x0d || beqb c x0a)) eqn:E.
  - apply H. unfold no_breaks. apply filter_In. done.
  - apply negb_false_iff, orb_true_iff in E as [->%beqb_true | ->%beqb_true]; reflexivity.
Qed.

(** ** Digests *)

Lemma hex_lower c : match hexVal (lower_byte c) with Some v => lower_byte c = hex_digit v ∧ 0 ≤ v < 16 | None => True end.
Proof.
  assert (forallb (λ z, match hexVal (lower_byte (zb z)) with
                        | Some v => beqb (lower_byte (zb z)) (hex_digit v) && ((0 <=? v) && (v <? 16)) | None => true end)
            (map Z.of_nat (seq 0 256)) = true) as H by (vm_compute; reflexivity).
  pose proof (bytes_forall (λ c, match hexVal (lower_byte c) with
                        | Some v => beqb (lower_byte c) (hex_digit v) && ((0 <=? v) && (v <? 16)) | None => true end) H c) as E.
  cbv beta in E. destruct (hexVal (lower_byte c)); [|done]. rewrite !andb_true_iff in E. destruct E as [E%beqb_true E']. split; [done|lia].
Qed.

Lemma list_ind2 {T} (P : list T → Prop) : P [] → (∀ a, P [a]) → (∀ a b l, P l → P (a :: b :: l)) → ∀ l, P l.
Proof. intros H0 H1 H2. fix IH 1. intros [|a [|b l]]; [exact H0|apply H1|]. apply H2, IH. Qed.

Lemma hexToBytes_lower s l : hexToBytes (lower s) = Some l → lower s = hexEncode l.
Proof.
  revert l. induction s as [|a|a b s IH] using list_ind2; intros l H; cbn in *; [by injection H as <-|done|].
  pose proof (hex_lower a) as Ha. pose proof (hex_lower b) as Hb.
  destruct (hexVal (lower_byte a)) as [hi|]; [|done]. destruct (hexVal (lower_byte b)) as [lo|]; [|done].
  destruct (hexToBytes (map lower_byte s)) as [l'|] eqn:E; [|done]. injection H as <-. destruct Ha as [-> Ha], Hb as [-> Hb].
  change (hexEncode (zb (hi * 16 + lo) :: l')) with (hex_digit (bz (zb (hi * 16 + lo)) / 16) :: hex_digit (bz (zb (hi * 16 + lo)) mod 16) :: hexEncode l').
  rewrite bz_zb, wrapu_id by (unfold in_u; lia). rewrite Z.div_add_l, (Z.div_small lo), Z.add_0_r by lia.
  rewrite (Z.add_comm _ lo), Z_mod_plus_full, Z.mod_small by lia.
  rewrite <- (IH l' E). done.
Qed.

Lemma hex_digit_val n : 0 ≤ n < 16 → hexVal (hex_digit n) = Some n ∧ lower_byte (hex_digit n) = hex_digit n.
Proof.
  intros Hn. set (P := λ n, negb (n <? 16) || (bool_decide (hexVal (hex_digit n) = Some n) && beqb (lower_byte (hex_digit n)) (hex_digit n))).
  assert (forallb P (map Z.of_nat (seq 0 64)) = true) as E by (vm_compute; reflexivity).
  pose proof (u6_forall P E n ltac:(lia)) as H. unfold P in H. destruct (Z.ltb_spec n 16); [|lia]. cbn [negb orb] in H.
  apply andb_true_iff in H as [H1%bool_decide_eq_true H2%beqb_true]. done.
Qed.

Lemma hexEncode_inv l : hexToBytes (hexEncode l) = Some l ∧ lower (hexEncode l) = hexEncode l.
Proof.
  induction l as [|b l [IH1 IH2]]; [done|]. destruct (nibbles b) as [Hh Hl].
  destruct (hex_digit_val _ Hh) as [Eh Lh]. destruct (hex_digit_val _ Hl) as [El Ll].
  change (hexEncode (b :: l)) with (hex_digit (bz b / 16) :: hex_digit (bz b mod 16) :: hexEncode l). split.
  - cbn [hexToBytes]. rewrite Eh, El, IH1. rewrite <- (Z.mul_comm 16), <- Z.div_mod by done. by rewrite zb_bz.
  - unfold lower in *. cbn [map]. by rewrite Lh, Ll, IH2.
Qed.

(** A download is accepted for exactly one number: its own digest, in either
    case and with white space around it. *)
Lemma digest_exact sha256 data s :
  (∀ l, length (sha256 l) = 32%nat) →
  VerifyFile sha256 data s = None ↔ lower (TrimSpace s) = hexEncode (sha256 data).
Proof.
  intros Hsize. unfold VerifyFile, VerifyDigest. cbv zeta. split.
  - destruct (length _ =? 64)%nat; [|done]. cbn [negb]. destruct (hexToBytes _) as [l|] eqn:E; [|done].
    case_bool_decide as Hs; [|done]. intros _. rewrite Hs. by apply hexToBytes_lower.
  - intros ->. rewrite (proj2 (hexEncode_hex _)), Hsize. cbn [Nat.mul Nat.add Nat.eqb negb]. rewrite (proj1 (hexEncode_inv _)).
    by rewrite bool_decide_eq_true_2.
Qed.

(** ** Key pairs *)

(** What the pinned binary prints is read back; both spellings of a key are of
    the same bytes. *)
Lemma keygen_roundtrip priv pub h :
  length priv = 32%nat → length pub = 32%nat → length h = 32%nat → clamped priv = true →
  ParseX25519Output (unlines [keyLinePrivate ++ b64_encode priv; keyLinePublic ++ b64_encode pub; keyLineHash32 ++ b64_encode h])
  = Ok (mkKeypair (b64_encode priv) (b64_encode pub) (b64_encode h) (StdEncode priv) (StdEncode pub)).
Proof.
  intros Hp Hq Hh Hc.
  assert (∀ l, length l = 32%nat → decodeKey32 (b64_encode l) = Some l) as Hd.
  { intros l Hl. unfold decodeKey32. rewrite RawURLDecode_encode, Hl. done. }
  assert (∀ c l, b64_ok c = false → c ∉ b64_encode l) as Hfree.
  { intros c l Hc' Hin. pose proof (b64_encode_ok l) as Hok. rewrite Forall_forall in Hok. apply Hok in Hin. congruence. }
  assert (∀ prefix l, length l = 32%nat → keyValue prefix (prefix ++ b64_encode l) = Some (b64_encode l)) as Hk.
  { intros prefix l Hl. unfold keyValue. destruct (b64_encode_snoc l) as (s & d & Hs & Hd'); [by intros ->|].
    destruct (has_suffix (prefix ++ b64_encode l) [x0d]) eqn:E.
    { apply has_suffix_iff in E as [k Hk]. rewrite Hs, app_assoc in Hk. apply app_inj_tail in Hk as [_ ->]. done. }
    cbv zeta. rewrite (proj2 (has_prefix_iff _ _)) by by eexists. cbn [negb]. rewrite drop_app_length.
    destruct (streqb (b64_encode l) []) eqn:E1; [apply streqb_true in E1; rewrite E1 in Hs; by destruct s|]. cbn [orb].
    assert (contains_any [x20; x09] (b64_encode l) = false) as ->; [|done].
    apply not_true_is_false. unfold contains_any. rewrite existsb_exists. intros (c & Hc' & Hin).
    apply existsb_exists in Hin as (c' & Hin & ->%beqb_true). apply list_elem_of_In in Hin.
    destruct Hc' as [<- | [<- | []]]; revert Hin; by apply Hfree. }
  unfold ParseX25519Output. rewrite split_unlines.
  2: { repeat constructor; intros [Hin|Hin]%elem_of_app; try (revert Hin; by apply Hfree); by apply (bool_decide_eq_false_1 (x0a ∈ _)) in Hin. }
  set (a := keyLinePrivate ++ b64_encode priv). set (b := keyLinePublic ++ b64_encode pub). set (c := keyLineHash32 ++ b64_encode h).
  assert (streqb (trim_left [[x0d]] (reverse c)) [] = false) as Hblank.
  { destruct (b64_encode_snoc h) as (s & d & Hs & Hd'); [by intros ->|]. unfold c. rewrite Hs, app_assoc, reverse_app.
    change (reverse [d]) with [d]. cbn [app]. unfold trim_left. rewrite strip_idle; [done|].
    cbn [strip_one has_prefix]. destruct (beqb x0d d) eqn:E; [|done]. apply beqb_true in E as <-. done. }
  replace (reverse (drop_blank (reverse ([a; b; c] ++ [[]])))) with [a; b; c].
  2: { change (reverse ([a; b; c] ++ [[]])) with [[]; c; b; a]. cbn [drop_blank]. change (streqb (trim_left [[x0d]] (reverse [])) []) with true.
       cbv iota. by rewrite Hblank. }
  unfold a, b, c. cbv iota. by rewrite !Hk, !Hd, Hc.
Qed.

(** ** Reading back what was rendered *)

Lemma ascii_app s t : ascii s = true → ascii t = true → ascii (s ++ t) = true.
Proof. unfold ascii. intros Hs Ht. by rewrite forallb_app, Hs, Ht. Qed.

Lemma decodeKey32_ascii s b : decodeKey32 s = Some b → ascii s = true ∧ length b = 32%nat.
Proof.
  unfold decodeKey32. destruct (RawURLDecode s) as [l|] eqn:E; [|done]. apply rawurl_ascii in E.
  destruct (Nat.eqb_spec (length l) keyLen); [|done]. intros [= <-]. done.
Qed.

Lemma checkKeypair_ok kp k :
  checkKeypair kp = Ok k → kp = Some k ∧ ∃ priv pub, decodeKey32 (PrivateRaw k) = Some priv ∧ decodeKey32 (PublicRaw k) = Some pub.
Proof.
  unfold checkKeypair. destruct kp as [k'|]; [|done]. destruct (streqb (PrivateRaw k') []); [done|].
  destruct (decodeKey32 (PrivateRaw k')) as [priv|] eqn:E1, (decodeKey32 (PublicRaw k')) as [pub|] eqn:E2; try done.
  intros [= <-]. split; [done|]. by exists priv, pub.
Qed.

Lemma inbound_plain tag port p k :
  ascii tag = true → Z.abs port ≤ 2 ^ 53 → valid_reality p = true → ascii (PrivateRaw k) = true →
  plain_json (inbound_json (reality_inbound tag port p k)) = true.
Proof.
  intros Ht Hp Hv Hk. unfold valid_reality in Hv. rewrite !andb_true_iff in Hv. destruct Hv as [[Hs%sni_ascii Hi%shortid_ascii] Hu%uuid_ascii].
  assert (ascii (r_SNI p ++ lit ":443") = true) as Hd by by apply ascii_app. apply Z.leb_le in Hp.
  unfold inbound_json, reality_inbound, str, strs. cbn [plain_json forallb map fst snd gi_Tag gi_Listen gi_Port gi_Protocol Clients Decryption
    gi_Network gi_Security gi_Reality Dest ServerNames PrivateKey ShortIds]. rewrite Ht, Hp, Hs, Hi, Hu, Hd, Hk. vm_compute. reflexivity.
Qed.

Section read_back.
Context (MarshalIndent : json → list byte) (Unmarshal : list byte → option json) (x25519 : list byte → option (list byte)).
Hypothesis json_text : ∀ t, plain_json t = true → Unmarshal (MarshalIndent t ++ [x0a]) = Some t.
Hypothesis x25519_key : ∀ priv, length priv = 32%nat → ∃ pub, x25519 priv = Some pub ∧ length pub = 32%nat.

Lemma readInbound_render tag port p k settings priv pub :
  valid_reality p = true → decodeKey32 (PrivateRaw k) = Some priv → x25519 priv = Some pub → 1 ≤ port ≤ 65535 →
  objectOf (inbound_json (reality_inbound tag port p k)) = Some settings →
  ∃ stream reality, stringValue settings (lit "protocol") = lit "vless"
    ∧ objectOf (get (lit "streamSettings") settings) = Some stream ∧ stringValue stream (lit "security") = lit "reality"
    ∧ objectOf (get (lit "realitySettings") stream) = Some reality
    ∧ readInbound x25519 settings reality = Ok (mkInstalled (b64_encode pub) (r_SNI p) (r_ShortID p) (r_UUID p) port).
Proof.
  intros Hv Hk Hx Hp [= <-]. unfold valid_reality in Hv. rewrite !andb_true_iff in Hv. destruct Hv as [[Hs Hi] Hu].
  eexists _, _. split; [reflexivity|]. split; [reflexivity|]. split; [reflexivity|]. split; [reflexivity|].
  unfold readInbound. cbv zeta. change (intValue (get (lit "port") _)) with (Some port). cbv iota.
  replace ((port <? 1) || (65535 <? port)) with false by lia. cbv iota.
  match goal with |- context [objectOf (get (lit "settings") ?m)] =>
    change (objectOf (get (lit "settings") m)) with (Some [(lit "clients", JArr [JObj [str "id" (r_UUID p)]]); str "decryption" (lit "none")]) end.
  cbv iota. change (the_only (arrayOf (get (lit "clients") _))) with (Some (JObj [str "id" (r_UUID p)])). cbv iota. cbn [objectOf].
  change (stringValue [str "id" (r_UUID p)] (lit "id")) with (r_UUID p). rewrite Hu. cbn [negb].
  change (the_only (arrayOf (get (lit "serverNames") _))) with (Some (JStr (r_SNI p))). cbn [stringOf]. rewrite Hs. cbn [negb].
  change (the_only (arrayOf (get (lit "shortIds") _))) with (Some (JStr (r_ShortID p))). cbn [stringOf]. rewrite Hi. cbn [negb].
  change (stringValue _ (lit "privateKey")) with (PrivateRaw k). by rewrite Hk, Hx.
Qed.

(** The parameters of an installation are read back from its configuration, with
    the public key that belongs to the installed private key. *)
Lemma installed_reads_back path p kp text :
  RenderGermanyConfig MarshalIndent p kp = Ok text → path ≠ [] →
  ∃ k priv pub, kp = Some k ∧ decodeKey32 (PrivateRaw k) = Some priv ∧ x25519 priv = Some pub ∧ length pub = 32%nat
  ∧ valid_reality p = true
  ∧ ReadInstalledRealityParams Unmarshal x25519 path (Some (true, Some text))
    = Ok (mkInstalled (b64_encode pub) (r_SNI p) (r_ShortID p) (r_UUID p) germanyPort).
Proof.
  unfold RenderGermanyConfig, ValidateRealityParams. destruct (valid_reality p) eqn:Hv; [|done]. rewrite res_bind_l.
  destruct (checkKeypair kp) as [k|] eqn:Hk; [|done]. rewrite res_bind_l. intros [= <-] Hpath.
  apply checkKeypair_ok in Hk as (-> & priv & _ & Hpriv & _). destruct (decodeKey32_ascii _ _ Hpriv) as [Ha Hl].
  destruct (x25519_key priv Hl) as (pub & Hx & Hpl). exists k, priv, pub. split_and!; [done..|].
  unfold ReadInstalledRealityParams. apply streqb_false in Hpath as ->. rewrite json_text.
  2: { unfold germany_json, germany_config. cbn [plain_json forallb map fst snd Inbounds Outbounds Rules LogLevel LogError].
       rewrite inbound_plain by (first [done | vm_compute; intros [=]]). vm_compute. reflexivity. }
  cbn [germany_json germany_config].
  change (default [] (arrayOf (get (lit "inbounds") _))) with [inbound_json (reality_inbound tagSplitDown germanyPort p k)].
  cbn [scanInbounds].
  destruct (readInbound_render tagSplitDown germanyPort p k _ priv pub Hv Hpriv Hx ltac:(vm_compute; split; discriminate) eq_refl)
    as (stream & reality & H1 & H2 & H3 & H4 & H5).
  change (objectOf (inbound_json (reality_inbound tagSplitDown germanyPort p k))) with
    (match inbound_json (reality_inbound tagSplitDown germanyPort p k) with JObj m => Some m | _ => None end).
  cbn [inbound_json] in *. rewrite H1, H2, H3, H4, streqb_refl. change (streqb (lit "vless") (lit "vless")) with true. cbn [negb].
  rewrite H5, res_bind_l. done.
Qed.
End read_back.

(** ** Two instances *)

(** Where Xray sends what an inbound accepts: the outbound of the first rule that
    names its tag. *)
Definition routed (c : germanyConfig) (i : germanyInbound) : option gostring :=
  match List.find (λ r, existsb (streqb (gi_Tag i)) (InboundTag r)) (Rules c) with
  | None => None
  | Some r => match List.find (λ o, streqb (go_Tag o) (OutboundTag r)) (Outbounds c) with Some o => Some (Redirect o) | None => None end
  end.

(** With tags of their own the two instances listen apart and each reaches its
    own splitter port. *)
Lemma multi_routed p ka kb :
  ValidateMultiInstanceParams p = Ok (ka, kb) → PubPort (A p) ≠ 0 →
  orS (i_InboundTag (A p)) tagSplitDown ≠ orS (i_InboundTag (B p)) tagSplitDown →
  orS (i_OutboundTag (A p)) tagToSplitter ≠ orS (i_OutboundTag (B p)) tagToSplitter →
  let c := multi_config p ka kb in
  ∃ a b, Inbounds c = [a; b] ∧ gi_Port a ≠ gi_Port b ∧ ServerNames (gi_Reality a) ≠ ServerNames (gi_Reality b)
  ∧ routed c a = Some (redirect_to (orZ (SplitPort (A p)) splitterPort))
  ∧ routed c b = Some (redirect_to (orZ (SplitPort (B p)) splitterPort)).
Proof.
  unfold ValidateMultiInstanceParams, ValidateRealityParams. intros H Hp Hti Hto.
  destruct (valid_reality (i_Params (A p))); [|done]. rewrite res_bind_l in H.
  destruct (valid_reality (i_Params (B p))); [|done]. rewrite res_bind_l in H.
  destruct (checkKeypair (i_Keypair (A p))); [|done]. rewrite res_bind_l in H.
  destruct (checkKeypair (i_Keypair (B p))); [|done]. rewrite res_bind_l in H.
  match type of H with (if ?b then _ else _) = _ => destruct b eqn:E; [|done] end. rewrite !andb_true_iff, !negb_true_iff in E.
  destruct E as [[[Hb _] Hab] Hs]. apply streqb_false in Hs.
  cbv zeta. unfold multi_config, renderInstance. cbv zeta iota beta.
  revert Hti Hto. generalize (orS (i_InboundTag (A p)) tagSplitDown) (orS (i_InboundTag (B p)) tagSplitDown).
  generalize (orS (i_OutboundTag (A p)) tagToSplitter) (orS (i_OutboundTag (B p)) tagToSplitter).
  generalize (redirect_to (orZ (SplitPort (A p)) splitterPort)) (redirect_to (orZ (SplitPort (B p)) splitterPort)).
  intros ra rb oa ob ia ib Hi Ho. assert (∀ x y, x ≠ y → streqb x y = false) as Hne by (intros x y Hxy; by apply streqb_false).
  eexists _, _. split; [reflexivity|]. unfold routed. cbn.
  do 3 (rewrite ?streqb_refl, ?(Hne _ _ Hi), ?(Hne _ _ (not_eq_sym Hi)), ?(Hne _ _ Ho), ?(Hne _ _ (not_eq_sym Ho)); cbn).
  split_and!; [|intros [= E]; congruence|done..].
  unfold orZ. destruct (Z.eqb_spec (PubPort (A p)) 0); [done|]. destruct (Z.eqb_spec (PubPort (B p)) 0); lia.
Qed.

(** The port of the second instance is compared with the field of the first, not
    with the port the first listens on when the field is zero: both then listen
    on 443; and the tags are not compared, so both are routed alike. *)
Example second_instance_collides :
  let kp := Some (mkKeypair (b64_encode (replicate 32 x41)) (b64_encode (replicate 32 x42)) [] [] []) in
  let params sni := mkReality (lit sni) (lit "0123456789abcdef") (lit "01234567-89ab-4cde-8f01-23456789abcd") in
  let p := mkMulti (mkInstance (params "a.example.org") 0 0 [] [] kp) (mkInstance (params "b.example.org") 443 9003 [] [] kp) in
  ∃ ka kb, ValidateMultiInstanceParams p = Ok (ka, kb)
  ∧ map gi_Port (Inbounds (multi_config p ka kb)) = [443; 443]
  ∧ map (routed (multi_config p ka kb)) (Inbounds (multi_config p ka kb)) = [Some (redirect_to 9002); Some (redirect_to 9002)].
Proof. eexists _, _. split; [vm_compute; reflexivity|]. vm_compute. split; reflexivity. Qed.
