(* ===== verification/Path.v ===== *)
(** * Lexical paths (path/filepath on Unix)

    [filepath.Clean], [Rel], [Join], [IsAbs], [Base] and [Ext] as the deployment
    packages use them, and [within] of src/internal/deploy/request.go, which
    keeps what a transaction may touch inside a directory.  A path is a byte
    string; cleaning works on its elements. *)
From S2P Require Export Net.
#[local] Open Scope Z_scope.

Definition slash : byte := x2f.
Definition dot : gostring := lit ".".
Definition dotdot : gostring := lit "..".

Definition IsAbs (p : gostring) : bool := has_prefix [slash] p.

(** One element, on the reversed list of the elements kept so far. *)
Definition clean_step (rooted : bool) (acc : list gostring) (c : gostring) : list gostring :=
  if streqb c [] || streqb c dot then acc
  else if streqb c dotdot then
    match acc with
    | [] => if rooted then [] else [dotdot]
    | top :: acc' => if streqb top dotdot then dotdot :: acc else acc'
    end
  else c :: acc.

(** The elements of the cleaned path. *)
Definition elements (p : gostring) : list gostring :=
  reverse (foldl (clean_step (IsAbs p)) [] (split_on slash p)).

Fixpoint join_slash (l : list gostring) : gostring :=
  match l with
  | [] => []
  | [c] => c
  | c :: l => c ++ slash :: join_slash l
  end.

Definition Clean (p : gostring) : gostring :=
  let body := join_slash (elements p) in
  if IsAbs p then slash :: body else match body with [] => dot | _ => body end.

(** [filepath.Join] of non-empty elements. *)
Definition Join (l : list gostring) : gostring := Clean (join_slash l).

Fixpoint strip_common (base targ : list gostring) : list gostring * list gostring :=
  match base, targ with
  | b :: base', t :: targ' => if streqb b t then strip_common base' targ' else (base, targ)
  | _, _ => (base, targ)
  end.

(** [filepath.Rel]; [None] is the error. *)
Definition Rel (base targ : gostring) : option gostring :=
  if streqb (Clean base) (Clean targ) then Some dot
  else if negb (Bool.eqb (IsAbs base) (IsAbs targ)) then None
  else
    let '(b, t) := strip_common (elements base) (elements targ) in
    match b with
    | [] => Some (join_slash t)
    | c :: _ => if streqb c dotdot then None else Some (join_slash (map (λ _, dotdot) b ++ t))
    end.

(** [path] is strictly below [root]. *)
Definition within (root path : gostring) : bool :=
  match Rel (Clean root) (Clean path) with
  | None => false
  | Some rel =>
      if streqb rel dot || streqb rel dotdot then false
      else negb (has_prefix (lit "../") rel)
  end.

Fixpoint skip_slashes (r : list byte) : list byte :=
  match r with c :: r' => if beqb c slash then skip_slashes r' else r | [] => [] end.

Fixpoint until_slash (r : list byte) : list byte :=
  match r with c :: r' => if beqb c slash then [] else c :: until_slash r' | [] => [] end.

(** [filepath.Base] *)
Definition Base (p : gostring) : gostring :=
  match p with
  | [] => dot
  | _ => match skip_slashes (reverse p) with
         | [] => [slash]
         | r => reverse (until_slash r)
         end
  end.

(** [filepath.Ext]: from the last dot of the last element. *)
Fixpoint ext_loop (r acc : list byte) : gostring :=
  match r with
  | [] => []
  | c :: r => if beqb c slash then [] else if beqb c x2e then c :: acc else ext_loop r (c :: acc)
  end.

Definition Ext (p : gostring) : gostring := ext_loop (reverse p) [].

(** ** Elements of a rooted path *)

(** What the elements of a cleaned rooted path look like. *)
Definition plain (c : gostring) : Prop := c ≠ [] ∧ c ≠ dot ∧ c ≠ dotdot ∧ slash ∉ c.

Lemma split_on_parts c s : Forall (λ l, c ∉ l) (split_on c s).
Proof.
  induction s as [|d s IH]; cbn [split_on]; [constructor; [apply not_elem_of_nil|constructor]|].
  destruct (beqb c d) eqn:E; [constructor; [apply not_elem_of_nil|done]|].
  assert (c ≠ d) by (intros ->; unfold beqb in E; by rewrite bool_decide_true in E).
  destruct (split_on c s) as [|l ls]; (constructor; [|by inversion IH]).
  - by intros ->%list_elem_of_singleton.
  - inversion IH as [|? ? Hl]; subst. intros [->|Hin]%elem_of_cons; done.
Qed.

Lemma clean_step_plain acc c : slash ∉ c → Forall plain acc → Forall plain (clean_step true acc c).
Proof.
  intros Hc Ha. unfold clean_step. destruct (streqb c []) eqn:E1; [done|]. destruct (streqb c dot) eqn:E2; [done|].
  cbn [orb]. apply streqb_false in E1, E2. destruct (streqb c dotdot) eqn:E3; [|apply streqb_false in E3; by constructor].
  destruct Ha as [|top acc Ht Ha]; [done|]. destruct (streqb top dotdot) eqn:E4; [|done].
  apply streqb_true in E4 as ->. by destruct Ht as (_ & _ & ? & _).
Qed.

Lemma elements_plain p : IsAbs p = true → Forall plain (elements p).
Proof.
  intros Hp. unfold elements. rewrite Hp. apply Forall_reverse.
  pose proof (split_on_parts slash p) as Hf. revert Hf. generalize (split_on slash p) as l.
  assert (Forall plain []) as Hn by constructor. revert Hn. generalize (@nil gostring) as acc.
  intros acc Ha l. revert acc Ha. induction l as [|c l IH]; intros acc Ha Hf; [done|]. cbn [foldl].
  inversion Hf; subst. apply IH; [|done]. by apply clean_step_plain.
Qed.

Lemma split_on_app c l s : c ∉ l → split_on c (l ++ c :: s) = l :: split_on c s.
Proof.
  induction l as [|d l IH]; intros Hc; cbn [split_on app].
  - unfold beqb. by rewrite bool_decide_true.
  - apply not_elem_of_cons in Hc as [Hd Hc]. unfold beqb. rewrite bool_decide_false by congruence. by rewrite IH.
Qed.

Lemma split_on_single c l : c ∉ l → split_on c l = [l].
Proof.
  induction l as [|d l IH]; intros Hc; cbn [split_on]; [done|].
  apply not_elem_of_cons in Hc as [Hd Hc]. unfold beqb. rewrite bool_decide_false by congruence. by rewrite IH.
Qed.

Lemma split_join l : l ≠ [] → Forall (λ c, slash ∉ c) l → split_on slash (join_slash l) = l.
Proof.
  induction l as [|c l IH]; [done|]. intros _ Hf. inversion Hf as [|? ? Hc Hl]; subst.
  destruct l as [|d l]; [by apply split_on_single|]. change (join_slash (c :: d :: l)) with (c ++ slash :: join_slash (d :: l)).
  rewrite split_on_app by done. by rewrite IH.
Qed.

Lemma clean_steps_plain acc l : Forall plain l → foldl (clean_step true) acc l = reverse l ++ acc.
Proof.
  revert acc. induction l as [|c l IH]; intros acc Hl; [done|]. inversion Hl as [|? ? (H1 & H2 & H3 & H4) Hl']; subst.
  cbn [foldl]. rewrite IH by done. unfold clean_step.
  rewrite (proj2 (streqb_false c []) H1), (proj2 (streqb_false c dot) H2), (proj2 (streqb_false c dotdot) H3). cbn [orb].
  by rewrite reverse_cons, <- (assoc_L (++)).
Qed.

Lemma Clean_abs p : IsAbs p = true → Clean p = slash :: join_slash (elements p).
Proof. intros H. unfold Clean. by rewrite H. Qed.

Lemma plain_free l : Forall plain l → Forall (λ c, slash ∉ c) l.
Proof. intros H. eapply Forall_impl; [exact H|]. by intros c (_ & _ & _ & ?). Qed.

Lemma elements_rooted l : Forall plain l → elements (slash :: join_slash l) = l.
Proof.
  intros Hl. unfold elements. change (IsAbs (slash :: join_slash l)) with true.
  change (split_on slash (slash :: join_slash l)) with ([] :: split_on slash (join_slash l)). cbn [foldl].
  change (clean_step true [] []) with (@nil gostring). destruct l as [|c l]; [done|].
  rewrite split_join by (done || by apply plain_free). rewrite clean_steps_plain by done.
  by rewrite app_nil_r, reverse_involutive.
Qed.

Lemma elements_Clean p : IsAbs p = true → elements (Clean p) = elements p.
Proof. intros Hp. rewrite Clean_abs by done. apply elements_rooted. by apply elements_plain. Qed.

Lemma join_slash_inj l l' : Forall plain l → Forall plain l' → join_slash l = join_slash l' → l = l'.
Proof.
  intros Hl Hl' E. rewrite <- (elements_rooted l), <- (elements_rooted l') by done. by rewrite E.
Qed.

(** Cleaning is idempotent. *)
Lemma Clean_idemp p : IsAbs p = true → Clean (Clean p) = Clean p.
Proof.
  intros Hp. assert (IsAbs (Clean p) = true) as Hc by by rewrite Clean_abs.
  rewrite (Clean_abs (Clean p)), elements_Clean by done. by rewrite <- Clean_abs.
Qed.

Lemma strip_common_spec b t :
  let '(b', t') := strip_common b t in
  ∃ l, b = l ++ b' ∧ t = l ++ t' ∧ match b', t' with c :: _, d :: _ => c ≠ d | _, _ => True end.
Proof.
  revert t. induction b as [|c b IH]; intros t; cbn [strip_common]; [by exists []|]. destruct t as [|d t]; [by exists []|].
  destruct (streqb c d) eqn:E; [|exists []; split_and!; [done..|by apply streqb_false in E]].
  apply streqb_true in E as ->. specialize (IH t). destruct (strip_common b t) as [b' t'].
  destruct IH as (l & -> & -> & H). by exists (d :: l).
Qed.

Lemma up_prefix {A} (b : list A) t : b ≠ [] →
  let rel := join_slash (map (λ _, dotdot) b ++ t) in rel = dotdot ∨ has_prefix (lit "../") rel = true.
Proof.
  destruct b as [|x b]; [done|]. intros _. cbn [map app]. destruct (map _ b ++ t) as [|c l]; [by left|right].
  by change (join_slash (dotdot :: c :: l)) with (dotdot ++ slash :: join_slash (c :: l)).
Qed.

(** A relative path that only goes down. *)
Lemma down_head c l r : Forall plain (c :: l) → join_slash (c :: l) ≠ dotdot ++ slash :: r.
Proof.
  intros Hl E. apply (f_equal (split_on slash)) in E. rewrite split_join in E by (done || by apply plain_free).
  rewrite split_on_app in E by (by intros ?%(bool_decide_eq_true_2 _)). injection E as -> _.
  inversion Hl as [|? ? (_ & _ & ? & _)]. done.
Qed.

Lemma down_single c l x : Forall plain (c :: l) → x ∈ [dot; dotdot] → join_slash (c :: l) ≠ x.
Proof.
  intros Hl Hx E. apply (f_equal (split_on slash)) in E. rewrite split_join in E by (done || by apply plain_free).
  inversion Hl as [|? ? (H1 & H2 & H3 & H4)]; subst.
  apply elem_of_cons in Hx as [ -> | ->%list_elem_of_singleton]; injection E as -> ->; done.
Qed.

(** [within] is exactly strict containment of the cleaned elements: no spelling
    of a path escapes the root. *)
Theorem within_exact root path :
  IsAbs root = true → IsAbs path = true →
  within root path = true ↔ ∃ rest, rest ≠ [] ∧ elements path = elements root ++ rest.
Proof.
  intros Hr Hp. pose proof (elements_plain root Hr) as Hpr. pose proof (elements_plain path Hp) as Hpp.
  unfold within, Rel. rewrite !Clean_idemp by done.
  assert (∀ p, IsAbs p = true → IsAbs (Clean p) = true) as Ha by (intros p E; by rewrite Clean_abs).
  rewrite !Ha by done. cbn [Bool.eqb negb]. rewrite !elements_Clean by done.
  destruct (streqb (Clean root) (Clean path)) eqn:E.
  - apply streqb_true, (f_equal elements) in E. rewrite !elements_Clean in E by done. rewrite E. split; [done|].
    intros (rest & Hne & Heq). rewrite <- (app_nil_r (elements path)) in Heq at 1. by apply app_inv_head in Heq as <-.
  - pose proof (strip_common_spec (elements root) (elements path)) as Hs.
    destruct (strip_common _ _) as [b t]. destruct Hs as (l & Er & Et & Hd).
    rewrite Er in Hpr. rewrite Et in Hpp. apply Forall_app in Hpr as [_ Hb], Hpp as [_ Ht].
    assert ((∃ rest, rest ≠ [] ∧ elements path = elements root ++ rest) ↔ b = [] ∧ t ≠ []) as ->.
    { rewrite Er, Et. split.
      - intros (rest & Hne & Heq). rewrite <- (assoc_L (++)) in Heq. apply app_inv_head in Heq as ->.
        destruct b as [|c b]; [done|]. by destruct Hd.
      - intros [-> Hne]. exists t. by rewrite app_nil_r. }
    destruct b as [|c b].
    + destruct t as [|d t].
      { exfalso. apply streqb_false in E. apply E. by rewrite !Clean_abs, Er, Et by done. }
      assert (∀ x, x ∈ [dot; dotdot] → streqb (join_slash (d :: t)) x = false) as Hx.
      { intros x Hx. apply streqb_false. by apply down_single. }
      rewrite !Hx by set_solver. cbn [orb].
      destruct (has_prefix (lit "../") (join_slash (d :: t))) eqn:Hup; [|by split_and!].
      apply has_prefix_iff in Hup as [k Hup]. by destruct (down_head d t k Ht).
    + destruct (streqb c dotdot) eqn:Hc; [by naive_solver|].
      destruct (up_prefix (c :: b) t ltac:(done)) as [->|Hup]; [by naive_solver|]. rewrite Hup.
      destruct (_ || _); naive_solver.
Qed.

(** A path that goes up and comes back is inside. *)
Lemma within_exact_witness : within (lit "/var/lib/st") (lit "/var/lib/st/./revisions/../journal.json") = true.
Proof.
  apply within_exact; [reflexivity..|]. exists [lit "journal.json"]. split; [discriminate|vm_compute; reflexivity].
Defined.
