(* ===== verification/Host.v ===== *)
(** * A host that fails

    A computation that calls the operating system: a call may succeed, fail, or
    be the last thing the process does.  The state is that of the host, so what
    is left behind after a crash is part of the result.  [ends m Q h] says that
    [Q] holds of every way [m] may end when it starts in [h], and [ends_*] are the
    rules of the primitives. *)
From S2P Require Export Bytes.

Inductive fault := Fails | Crashes.

Inductive outcome (E A : Type) := Done (a : A) | Fail (e : E) | Dead.
#[global] Arguments Done {E A} a.
#[global] Arguments Fail {E A} e.
#[global] Arguments Dead {E A}.

(** [future]: how the next calls end ([None]: as they should; so do the calls past its end). *)
Record host (S : Type) := mkHost { st : S; future : list (option fault) }.
#[global] Arguments mkHost {S} st future.
#[global] Arguments st {S} h : rename.
#[global] Arguments future {S} h : rename.

Definition M (S E A : Type) : Type := host S → outcome E A * host S.

#[export] Instance M_mret {S E} : MRet (M S E) := λ A a h, (Done a, h).
#[export] Instance M_mbind {S E} : MBind (M S E) := λ A B f m h,
  match m h with (Done a, h) => f a h | (Fail e, h) => (Fail e, h) | (Dead, h) => (Dead, h) end.

Section host.
Context {S E : Type}.
Implicit Types h : host S.
#[local] Abbreviation M := (M S E).

Definition fail {A} (e : E) : M A := λ h, (Fail e, h).

(** A call: did it succeed? *)
Definition call : M bool := λ h,
  match future h with
  | [] => (Done true, h)
  | x :: f => let h := mkHost (st h) f in
              match x with None => (Done true, h) | Some Fails => (Done false, h) | Some Crashes => (Dead, h) end
  end.

Definition peek : M S := λ h, (Done (st h), h).
Definition modify (f : S → S) : M unit := λ h, (Done (), mkHost (f (st h)) (future h)).

(** A call that changes the host if it succeeds. *)
Definition does (f : S → S) : M bool := ok ← call; if ok : bool then _ ← modify f; mret true else mret false.

Definition check (ok : bool) (e : E) : M unit := if ok then mret () else fail e.

(** A failure is a value. *)
Definition attempt {A} (m : M A) : M (res E A) := λ h,
  match m h with (Done a, h) => (Done (Ok a), h) | (Fail e, h) => (Done (Err e), h) | (Dead, h) => (Dead, h) end.

(** A failure is handled by [g], which fails in turn. *)
Definition onFail {A} (m : M A) (g : E → M A) : M A := λ h,
  match m h with (Fail e, h) => g e h | r => r end.

Definition ends {A} (m : M A) (Q : outcome E A → host S → Prop) h : Prop := Q (fst (m h)) (snd (m h)).

Lemma ends_run {A} (m : M A) Q h : ends m Q h → let '(r, h') := m h in Q r h'.
Proof. unfold ends. by destruct (m h). Qed.

Lemma ends_mono {A} (m : M A) (Q Q' : outcome E A → host S → Prop) h : ends m Q h → (∀ r h', Q r h' → Q' r h') → ends m Q' h.
Proof. unfold ends. auto. Qed.

Definition next {A B} (f : A → M B) (Q : outcome E B → host S → Prop) (r : outcome E A) h : Prop :=
  match r with Done a => ends (f a) Q h | Fail e => Q (Fail e) h | Dead => Q Dead h end.

Lemma ends_bind {A B} (m : M A) (f : A → M B) Q h : ends m (next f Q) h → ends (m ≫= f) Q h.
Proof. unfold ends, next, mbind, M_mbind. by destruct (m h) as [[a|e|] h1]. Qed.

Lemma ends_ret {A} (a : A) (Q : outcome E A → host S → Prop) h : Q (Done a) h → ends (mret a) Q h.
Proof. done. Qed.

Lemma ends_fail {A} e (Q : outcome E A → host S → Prop) h : Q (Fail e) h → ends (fail e) Q h.
Proof. done. Qed.

Lemma ends_peek (Q : outcome E S → host S → Prop) h : Q (Done (st h)) h → ends peek Q h.
Proof. done. Qed.

Lemma ends_modify f (Q : outcome E unit → host S → Prop) h : (∀ h', st h' = f (st h) → Q (Done ()) h') → ends (modify f) Q h.
Proof. intros HQ. by apply HQ. Qed.

Lemma ends_check ok e (Q : outcome E unit → host S → Prop) h :
  (ok = true → Q (Done ()) h) → (ok = false → Q (Fail e) h) → ends (check ok e) Q h.
Proof. intros H1 H2. destruct ok; [by apply H1|by apply H2]. Qed.

(** A call that is not a change leaves the host as it was, however it ends. *)
Lemma ends_call (Q : outcome E bool → host S → Prop) h :
  (∀ h', st h' = st h → Q Dead h' ∧ ∀ ok, Q (Done ok) h') → ends call Q h.
Proof. intros HQ. unfold ends, call. destruct (future h) as [|[[]|] f]; cbn [fst snd]; by apply HQ. Qed.

Lemma ends_does f (Q : outcome E bool → host S → Prop) h :
  (∀ h', st h' = st h → Q Dead h' ∧ Q (Done false) h') → (∀ h', st h' = f (st h) → Q (Done true) h') → ends (does f) Q h.
Proof.
  intros H1 H2. unfold does. apply ends_bind, ends_call. intros h' Hh. destruct (H1 h' Hh) as [Hd Hf]. split; [done|].
  intros [|]; cbn [next]; [|by apply ends_ret]. apply ends_bind, ends_modify. intros h2 Hh2. cbn [next]. apply ends_ret, H2. by rewrite Hh2, Hh.
Qed.

Lemma ends_onFail {A} (m : M A) g Q h :
  ends m (λ r h', match r with Fail e => ends (g e) Q h' | r => Q r h' end) h → ends (onFail m g) Q h.
Proof. unfold ends, onFail. by destruct (m h) as [[a|e|] h1]. Qed.

(** [R] relates the host before to the host after, however [m] ends. *)
Definition frames {A} (R : S → S → Prop) (m : M A) : Prop := ∀ h, ends m (λ _ h', R (st h) (st h')) h.

Lemma ends_frame {A} (R : S → S → Prop) (m : M A) (Q : outcome E A → host S → Prop) h :
  frames R m → (∀ r h', R (st h) (st h') → Q r h') → ends m Q h.
Proof. intros Hm HQ. apply (ends_mono _ _ _ _ (Hm h)). auto. Qed.

Lemma ends_attempt {A} (m : M A) (Q : outcome E (res E A) → host S → Prop) h :
  ends m (λ r h', match r with Done a => Q (Done (Ok a)) h' | Fail e => Q (Done (Err e)) h' | Dead => Q Dead h' end) h → ends (attempt m) Q h.
Proof. unfold ends, attempt. by destruct (m h) as [[a|e|] h1]. Qed.

(** [m] has no failure that its caller would see. *)
Definition unfailing {A} (m : M A) : Prop := ∀ h e, fst (m h) ≠ Fail e.

Lemma unfailing_bind {A B} (m : M A) (f : A → M B) : unfailing m → (∀ a, unfailing (f a)) → unfailing (m ≫= f).
Proof. intros Hm Hf h e. unfold mbind, M_mbind. specialize (Hm h). destruct (m h) as [[a|e'|] h1]; [apply Hf|by destruct (Hm e')|done]. Qed.

Lemma unfailing_ret {A} (a : A) : unfailing (mret a).
Proof. done. Qed.

Lemma unfailing_peek : unfailing peek.
Proof. done. Qed.

Lemma unfailing_modify f : unfailing (modify f).
Proof. done. Qed.

Lemma unfailing_call : unfailing call.
Proof. intros h e. unfold call. by destruct (future h) as [|[[]|] ?]. Qed.

Lemma unfailing_attempt {A} (m : M A) : unfailing (attempt m).
Proof. intros h e. unfold attempt. by destruct (m h) as [[]]. Qed.

Lemma ends_unfailing {A} (m : M A) (Q : outcome E A → host S → Prop) h :
  unfailing m → ends m (λ r h', (∀ e, r ≠ Fail e) → Q r h') h → ends m Q h.
Proof. intros Hm. unfold ends. intros HQ. apply HQ. intros e. apply Hm. Qed.

Section frames.
Context (R : S → S → Prop) `{!PreOrder R}.

Lemma frames_bind {A B} (m : M A) (f : A → M B) : frames R m → (∀ a, frames R (f a)) → frames R (m ≫= f).
Proof.
  intros Hm Hf h. apply ends_bind, (ends_frame R); [done|]. intros [a|e|] h' HR; cbn [next]; [|done..].
  apply (ends_frame R); [done|]. intros r h2 HR2. by etrans.
Qed.

Lemma frames_ret {A} (a : A) : frames R (mret a).
Proof. intros h. by apply ends_ret. Qed.

Lemma frames_fail {A} e : frames R (fail e : M A).
Proof. intros h. by apply ends_fail. Qed.

Lemma frames_peek : frames R peek.
Proof. intros h. by apply ends_peek. Qed.

Lemma frames_modify f : (∀ s, R s (f s)) → frames R (modify f).
Proof. intros Hf h. apply ends_modify. intros h' ->. apply Hf. Qed.

Lemma frames_call : frames R call.
Proof. intros h. apply ends_call. intros h' ->. by split. Qed.

Lemma frames_check ok e : frames R (check ok e).
Proof. intros h. by apply ends_check. Qed.

Lemma frames_attempt {A} (m : M A) : frames R m → frames R (attempt m).
Proof. intros Hm h. apply ends_attempt, (ends_frame R); [done|]. by intros [] h'. Qed.
End frames.
End host.
