(* ===== verification/Activate.v ===== *)
(** * Activating the Germany configuration (src/internal/xray/activate.go, output.go)

    The candidate is written beside the live file, tested by the pinned binary,
    and swapped in by a rename.  The directory is a map from the names the code
    uses to what is there; every system call may fail or be the last one of the
    process ([Host]).  [torn] is what a write that does not end leaves in a file,
    and [run_test] the reply of the binary to the bytes it is given: both are
    arbitrary.  The names of the error values are kept, and of their texts the
    excerpt of the binary's output, which is where key material could appear. *)
From S2P Require Export Xray Host.
From S2P Require Import Path.
#[local] Open Scope Z_scope.

(** ** Texts *)

(** [strings.ReplaceAll] with the marker; [k] bytes of a match are still to be skipped. *)
Fixpoint replaceAll (sec : gostring) (k : nat) (s : gostring) : gostring :=
  match s with
  | [] => []
  | c :: s' =>
      match k with
      | S k => replaceAll sec k s'
      | O => if has_prefix sec s then redacted ++ replaceAll sec (length sec - 1) s' else c :: replaceAll sec 0 s'
      end
  end.

Fixpoint maskSecrets (s : gostring) (secrets : list gostring) : gostring :=
  match secrets with
  | [] => s
  | sec :: secrets => maskSecrets (if streqb sec [] then s else replaceAll sec 0 s) secrets
  end.

Definition excerptMax : nat := 2000.

Definition excerpt (s : gostring) : gostring :=
  let s := TrimSpace s in
  if streqb s [] then lit "(no output)"
  else if (excerptMax <? length s)%nat then take excerptMax s ++ lit " ... (truncated)" else s.

(** ** The directory *)

Inductive name := Live | Tmp | Prev | PrevTmp | VerifyDir | VerifyFile.
Inductive obj := Regular (data : list byte) | Symlink | Directory.

#[export] Instance name_eq_dec : EqDecision name.
Proof. solve_decision. Defined.

(** [leftover]: the removals whose error the code ignores and that failed;
    [tested]: the configurations the binary was run on. *)
Record dir := mkDir { files : name → option obj; leftover : list name; tested : list (list byte) }.

Definition set (n : name) (o : option obj) (d : dir) : dir :=
  mkDir (λ m, if decide (m = n) then o else files d m) (leftover d) (tested d).

Inductive activate_error :=
  ErrActivateDir | ErrActivateTarget | ErrActivateWrite | ErrActivateRename | ErrParams (e : reality_error) | ErrConfigGate (shown : gostring).

Record ActivateParams := mkActivate {
  a_Params : RealityParams; a_Keypair : option Keypair; Dir : gostring; FileName : gostring
}.
Record ActivationResult := mkActivation { LivePath : gostring; Changed : bool }.

Definition defaultConfigFileName : gostring := lit "xray-germany.json".

Section activate.
Context (MarshalIndent : json → list byte) (run_test : list byte → bool * gostring) (torn : list byte → list byte).
#[local] Abbreviation M := (Host.M dir activate_error).

(** [os.Lstat], of which any error means that nothing is there. *)
Definition lstat (n : name) : M (option obj) := ok ← call; d ← peek; mret (if ok : bool then files d n else None).

Definition regular (o : option obj) : bool := match o with Some (Regular _) => true | _ => false end.

(** [os.Remove] with its error looked at, and ignored. *)
Definition remove (n : name) : M bool := does (set n None).
Definition discard (n : name) : M unit :=
  ok ← remove n;
  if ok : bool then mret () else modify (λ d, mkDir (files d) (match files d n with Some _ => n :: leftover d | None => leftover d end) (tested d)).

(** [os.OpenFile] with O_CREATE and O_EXCL *)
Definition create (n : name) : M bool :=
  d ← peek; match files d n with Some _ => mret false | None => does (set n (Some (Regular []))) end.

(** A write may end anywhere. *)
Definition write (n : name) (data : list byte) : M bool :=
  _ ← modify (set n (Some (Regular (torn data))));
  does (set n (Some (Regular data))).

(** Write, Sync and Close: all three are called. *)
Definition writeSyncClose (n : name) (data : list byte) : M bool :=
  w ← write n data; s ← call; c ← call; mret (w && s && c).

Definition rename (a b : name) : M bool :=
  d ← peek;
  match files d b with
  | Some Directory => mret false
  | _ => does (λ d, set a None (set b (files d a) d))
  end.

Definition writeSecretFile (data : list byte) : M bool :=
  ok ← create PrevTmp;
  if negb ok then mret false
  else ok ← writeSyncClose PrevTmp data;
       if negb ok then _ ← call; _ ← discard PrevTmp; mret false else rename PrevTmp Prev.

(** A directory with a file in it is not removed. *)
Definition cleanupVerify : M unit :=
  _ ← discard VerifyFile;
  d ← peek;
  match files d VerifyFile with
  | Some _ => _ ← call; modify (λ d, mkDir (files d) (VerifyDir :: leftover d) (tested d))
  | None => discard VerifyDir
  end.

Definition mkdir (n : name) : M bool :=
  d ← peek; match files d n with Some _ => mret false | None => does (set n (Some Directory)) end.

Definition link (a b : name) : M bool :=
  d ← peek; match files d b with Some _ => mret false | None => does (λ d, set b (files d a) d) end.

(** [RunTest] on the linked file. *)
Definition runTest : M (bool * gostring) :=
  ok ← call;
  d ← peek;
  match files d VerifyFile with
  | Some (Regular data) =>
      if ok : bool then _ ← modify (λ d, mkDir (files d) (leftover d) (data :: tested d)); mret (run_test data) else mret (false, [])
  | _ => mret (false, [])
  end.

Definition path_ok (dir : gostring) : bool :=
  negb (streqb dir []) && negb (streqb dir dot) && forallb (λ c, negb (streqb c dotdot)) (split_on slash dir).

Definition file_ok (file : gostring) : bool :=
  negb (streqb file dot) && negb (streqb file dotdot) && streqb file (Base file) && streqb (Ext file) (lit ".json").

(** The live file, which is not to be anything but a file, and its bytes. *)
Definition readLive : M (option (list byte)) :=
  old ← lstat Live;
  _ ← check (match old with None => true | o => regular o end) ErrActivateTarget;
  ok ← match old with None => mret true | Some _ => call end;
  _ ← check ok ErrActivateWrite;
  mret match old with Some (Regular b) => Some b | _ => None end.

(** The candidate, written in full or not at all. *)
Definition writeCandidate (out : list byte) : M unit :=
  stale ← lstat Tmp;
  _ ← check (match stale with None => true | o => regular o end) ErrActivateTarget;
  ok ← match stale with None => mret true | Some _ => remove Tmp end;
  _ ← check ok ErrActivateWrite;
  ok ← create Tmp;
  _ ← check ok ErrActivateWrite;
  ok ← writeSyncClose Tmp out;
  if ok : bool then mret () else _ ← call; _ ← discard Tmp; fail ErrActivateWrite.

(** The binary's verdict on the candidate. *)
Definition gate (kp : Keypair) : M unit :=
  ok ← mkdir VerifyDir;
  _ ← (if ok : bool then mret () else _ ← discard Tmp; fail ErrActivateWrite);
  ok ← link Tmp VerifyFile;
  _ ← (if ok : bool then mret () else _ ← cleanupVerify; _ ← discard Tmp; fail ErrActivateWrite);
  t ← runTest;
  _ ← cleanupVerify;
  if fst t : bool then mret ()
  else _ ← discard Tmp;
       fail (ErrConfigGate (excerpt (maskSecrets (snd t) [PrivateRaw kp; PublicRaw kp; PrivateStd kp; PublicStd kp]))).

(** The backup, and the swap. *)
Definition goLive (oldBytes : option (list byte)) : M unit :=
  ok ← match oldBytes with None => mret true | Some b => writeSecretFile b end;
  _ ← (if ok : bool then mret () else _ ← discard Tmp; fail ErrActivateWrite);
  ok ← rename Tmp Live;
  if ok : bool then mret ()
  else _ ← discard Tmp;
       _ ← match oldBytes with None => mret () | Some _ => discard Prev end;
       fail ErrActivateRename.

(** The part behind the guards: the candidate [out] goes live. *)
Definition swapIn (kp : Keypair) (live : gostring) (out : list byte) : M ActivationResult :=
  oldBytes ← readLive;
  _ ← writeCandidate out;
  _ ← gate kp;
  _ ← goLive oldBytes;
  mret (mkActivation live match oldBytes with Some b => negb (bool_decide (b = out)) | None => true end).

(** [isDir]: what Lstat says of the directory. *)
Definition ActivateGermanyConfig (a : ActivateParams) (isDir : bool) : M ActivationResult :=
  _ ← check (path_ok (Dir a)) ErrActivateDir;
  let dir := Clean (Dir a) in
  let file := if streqb (FileName a) [] then defaultConfigFileName else FileName a in
  _ ← check (file_ok file) ErrActivateDir;
  _ ← check isDir ErrActivateDir;
  match RenderGermanyConfig MarshalIndent (a_Params a) (a_Keypair a), a_Keypair a with
  | Ok out, Some kp => swapIn kp (Join [dir; file]) out
  | Err e, _ => fail (ErrParams e)
  | Ok _, None => fail (ErrParams ErrMissingKeypair)
  end.
End activate.

(** ** Masked texts *)

Lemma contains_iff p s : contains p s = true ↔ ∃ a b, s = a ++ p ++ b.
Proof.
  split.
  - induction s as [|c s IH]; cbn [contains]; rewrite orb_true_iff.
    + intros [[k Hk]%has_prefix_iff | [=]]. by exists [], k.
    + intros [[k Hk]%has_prefix_iff | (a & b & ->)%IH]; [by exists [], k|by exists (c :: a), b].
  - intros (a & b & ->). induction a as [|c a IH]; cbn [app].
    + destruct (p ++ b) eqn:E; cbn [contains]; rewrite <- E, orb_true_iff; left; apply has_prefix_iff; by eexists.
    + cbn [contains]. by rewrite IH, orb_true_r.
Qed.

Lemma contains_within p a s b : contains p s = true → contains p (a ++ s ++ b) = true.
Proof. rewrite !contains_iff. intros (x & y & ->). exists (a ++ x), (y ++ b). by rewrite <- !app_assoc. Qed.

Lemma has_prefix_sep c p m u : c ∉ p → has_prefix p (m ++ c :: u) = has_prefix p m.
Proof.
  revert m. induction p as [|d p IH]; intros m Hc; [by destruct m|]. apply not_elem_of_cons in Hc as [Hd Hp].
  destruct m as [|e m]; cbn [app has_prefix].
  - destruct (beqb d c) eqn:E; [|done]. by apply beqb_true in E as ->.
  - by rewrite IH.
Qed.

(** A text without [c] lies on one side of a [c]. *)
Lemma contains_sep c p m u : c ∉ p → p ≠ [] → contains p (m ++ c :: u) = contains p m || contains p u.
Proof.
  intros Hc Hp. induction m as [|d m IH].
  - cbn [app contains]. destruct p as [|e p]; [done|]. cbn [has_prefix]. apply not_elem_of_cons in Hc as [Hc _].
    destruct (beqb e c) eqn:E; [by apply beqb_true in E as ->|done].
  - cbn [app contains]. rewrite IH. change (d :: m ++ c :: u) with ((d :: m) ++ c :: u). rewrite has_prefix_sep by done. by rewrite orb_assoc.
Qed.

(** A text the marker can neither contain nor be part of. *)
Definition unmarked (p : gostring) : Prop := p ≠ [] ∧ (x3c ∉ p) ∧ (x3e ∉ p) ∧ (8 < length p)%nat.

Lemma contains_length p s : contains p s = true → (length p ≤ length s)%nat.
Proof. rewrite contains_iff. intros (a & b & ->). rewrite !length_app. lia. Qed.

Lemma contains_marker p u : unmarked p → contains p (redacted ++ u) = contains p u.
Proof.
  intros (Hn & Hl & Hg & Hlen). change (redacted ++ u) with ([] ++ x3c :: (lit "redacted" ++ x3e :: u)).
  rewrite (contains_sep x3c) by done. rewrite (contains_sep x3e) by done.
  assert (contains p [] = false) as ->. { apply not_true_is_false. intros H%contains_length. cbn in H. lia. }
  assert (contains p (lit "redacted") = false) as ->; [|done]. apply not_true_is_false. intros H%contains_length.
  change (length (lit "redacted")) with 8%nat in H. lia.
Qed.

Lemma prefix_replaceAll p sec s : x3c ∉ p → has_prefix p (replaceAll sec 0 s) = true → has_prefix p s = true.
Proof.
  revert p. induction s as [|c s IH]; intros p Hp; [done|]. cbn [replaceAll]. destruct (has_prefix sec (c :: s)).
  - destruct p as [|d p]; [done|]. change redacted with (x3c :: lit "redacted>"). cbn [app has_prefix].
    apply not_elem_of_cons in Hp as [Hd _]. destruct (beqb d x3c) eqn:E; [by apply beqb_true in E as ->|done].
  - destruct p as [|d p]; [done|]. cbn [has_prefix]. apply not_elem_of_cons in Hp as [_ Hp]. rewrite !andb_true_iff.
    intros [Hd H]. split; [done|by apply IH].
Qed.

Lemma contains_replaceAll p sec k s : unmarked p → contains p (replaceAll sec k s) = true → contains p s = true.
Proof.
  intros Hp. revert k. induction s as [|c s IH]; intros k H; [by destruct k|]. destruct k as [|k]; cbn [replaceAll] in H.
  - destruct (has_prefix sec (c :: s)) eqn:E.
    + rewrite contains_marker in H by done. apply IH in H. cbn [contains]. by rewrite H, orb_true_r.
    + assert (replaceAll sec 0 (c :: s) = c :: replaceAll sec 0 s) as Er by (cbn [replaceAll]; by rewrite E).
      cbn [contains] in H. apply orb_true_iff in H as [H|H]; [|apply IH in H; cbn [contains]; by rewrite H, orb_true_r].
      rewrite <- Er in H. apply prefix_replaceAll in H; [|by apply Hp]. cbn [contains]. by rewrite H.
  - apply IH in H. cbn [contains]. by rewrite H, orb_true_r.
Qed.

Lemma replaceAll_clean p k s : unmarked p → contains p (replaceAll p k s) = false.
Proof.
  intros Hp. revert k. induction s as [|c s IH]; intros k.
  - destruct k; cbn [replaceAll contains]; destruct Hp as [Hn _]; by destruct p.
  - destruct k as [|k]; cbn [replaceAll]; [|apply IH]. destruct (has_prefix p (c :: s)) eqn:E.
    + rewrite contains_marker by done. apply IH.
    + assert (replaceAll p 0 (c :: s) = c :: replaceAll p 0 s) as Er by (cbn [replaceAll]; by rewrite E).
      cbn [contains]. rewrite IH, orb_false_r, <- Er. apply not_true_is_false. intros H%prefix_replaceAll; [congruence|apply Hp].
Qed.

Lemma maskSecrets_keeps p s secs : unmarked p → contains p s = false → contains p (maskSecrets s secs) = false.
Proof.
  intros Hp. revert s. induction secs as [|sec secs IH]; intros s Hs; [done|]. cbn [maskSecrets]. apply IH.
  destruct (streqb sec []); [done|]. apply not_true_is_false. intros H%contains_replaceAll; [congruence|done].
Qed.

(** No secret that is masked is left in the text. *)
Lemma maskSecrets_clean p s secs : unmarked p → p ∈ secs → contains p (maskSecrets s secs) = false.
Proof.
  intros Hp. revert s. induction secs as [|sec secs IH]; intros s; [by intros []%elem_of_nil|]. intros [<-|Hin]%elem_of_cons.
  - cbn [maskSecrets]. apply maskSecrets_keeps; [done|]. destruct (streqb p []) eqn:E; [|by apply replaceAll_clean].
    apply streqb_true in E. by destruct Hp as [? _].
  - by apply IH.
Qed.

Lemma strip_suffix fuel rs s : ∃ a, s = a ++ strip fuel rs s.
Proof.
  revert s. induction fuel as [|f IH]; intros s; [by exists []|]. cbn [strip]. destruct (strip_one rs s) as [s'|] eqn:E; [|by exists []].
  destruct (IH s') as [a Ha]. assert (∃ b, s = b ++ s') as [b Hb].
  { clear -E. induction rs as [|r rs IH]; [done|]. cbn [strip_one] in E. destruct (has_prefix r s); [|by apply IH].
    injection E as <-. exists (take (length r) s). by rewrite take_drop. }
  exists (b ++ a). by rewrite <- app_assoc, <- Ha.
Qed.

Lemma TrimSpace_within s : ∃ a b, s = a ++ TrimSpace s ++ b.
Proof.
  unfold TrimSpace, trim_left. set (t := strip (length s) spaces s). destruct (strip_suffix (length s) spaces s) as [a Ha]. fold t in Ha.
  destruct (strip_suffix (length (reverse t)) (map reverse spaces) (reverse t)) as [b Hb].
  exists a, (reverse b). rewrite Ha at 1. f_equal. rewrite <- reverse_app, <- Hb. by rewrite reverse_involutive.
Qed.

Lemma excerpt_clean p s : unmarked p → x20 ∉ p → (15 < length p)%nat → contains p s = false → contains p (excerpt s) = false.
Proof.
  intros Hp Hsp Hl Hs. apply not_true_is_false. unfold excerpt. cbv zeta.
  assert (∀ t, (∃ a b, s = a ++ t ++ b) → contains p t ≠ true) as Hin.
  { intros t (a & b & E) H. rewrite E, contains_within in Hs by done. done. }
  destruct (TrimSpace_within s) as (a & b & E). destruct (streqb (TrimSpace s) []).
  - intros H%contains_length. cbn in H. lia.
  - destruct (excerptMax <? length (TrimSpace s))%nat; [|apply Hin; by exists a, b].
    change (lit " ... (truncated)") with (x20 :: lit "... (truncated)"). rewrite contains_sep by (first [done | apply Hp]).
    intros [H|H]%orb_true_iff.
    + revert H. apply Hin. exists a, (drop excerptMax (TrimSpace s) ++ b). rewrite E at 1. f_equal.
      rewrite app_assoc. f_equal. by rewrite take_drop.
    + apply contains_length in H. cbn in H. lia.
Qed.

(** ** A key as text *)

Lemma b64_value_plain c n : b64_value true c = Some n → c ≠ x3c ∧ c ≠ x3e ∧ c ≠ x20.
Proof. intros H. split_and!; intros ->; vm_compute in H; done. Qed.

Lemma b64_groups_text s l :
  b64_groups true s = Some l → Forall (λ c, c ≠ x3c ∧ c ≠ x3e ∧ c ≠ x20) s ∧ (4 * length l ≤ 3 * length s)%nat.
Proof.
  revert l. induction s as [|a|a b|a b c|a b c d s IH] using list_ind4; intros l H; cbn [b64_groups] in H; try done;
    repeat match type of H with context [b64_value true ?x] => let E := fresh in destruct (b64_value true x) eqn:E; [|done]; apply b64_value_plain in E end;
    try (injection H as <-; split; [by repeat (apply Forall_cons; split; [assumption|])|cbn; lia]).
  destruct (b64_groups true s) as [l'|]; [|done]. destruct (IH l' eq_refl) as [Hs Hl]. injection H as <-.
  split; [by repeat (apply Forall_cons; split; [assumption|])|cbn; lia].
Qed.

Lemma key_text s b : decodeKey32 s = Some b → unmarked s ∧ (x20 ∉ s) ∧ (15 < length s)%nat.
Proof.
  unfold decodeKey32, RawURLDecode. destruct (b64_groups true (no_breaks s)) as [l|] eqn:E; [|done].
  destruct (Nat.eqb_spec (length l) keyLen) as [Hl|]; [|done]. intros _. apply b64_groups_text in E as [Hc Hlen].
  change keyLen with 32%nat in Hl. rewrite Hl in Hlen.
  assert (length (no_breaks s) ≤ length s)%nat by apply filter_length_le.
  assert (∀ c, c ≠ x0d → c ≠ x0a → c ∈ s → c ≠ x3c ∧ c ≠ x3e ∧ c ≠ x20) as Hin.
  { intros c Hd Ha Hin. rewrite Forall_forall in Hc. apply Hc, list_elem_of_In, filter_In. split; [by apply list_elem_of_In|].
    apply negb_true_iff, orb_false_iff. split; apply not_true_is_false; intros E%beqb_true; congruence. }
  assert (∀ c, c ≠ x0d → c ≠ x0a → (c = x3c ∨ c = x3e ∨ c = x20) → c ∉ s) as Hno.
  { intros c Hd Ha He Hc'. destruct (Hin c Hd Ha Hc') as (?&?&?). destruct He as [-> | [-> | ->]]; done. }
  repeat split; first [lia | intros ->; cbn in *; lia | apply Hno; [discriminate|discriminate|tauto]].
Qed.

(** ** What a call leaves *)

(** Nothing but the names of [l] has changed, and what was recorded stays so. *)
Definition only (l : list name) (d d' : dir) : Prop :=
  (∀ n, n ∉ l → files d' n = files d n) ∧ leftover d ⊆ leftover d' ∧ tested d ⊆ tested d'.

(** Nothing is there, or it could not be removed. *)
Definition gone (n : name) (d : dir) : Prop := files d n = None ∨ n ∈ leftover d.

Lemma only_refl l d : only l d d.
Proof. done. Qed.

Lemma only_trans l d1 d2 d3 : only l d1 d2 → only l d2 d3 → only l d1 d3.
Proof. intros (H1 & H2 & H3) (H4 & H5 & H6). split_and!; [|by etrans|by etrans]. intros n Hn. by rewrite H4, H1. Qed.

Lemma only_sub l l' d d' : only l d d' → l ⊆ l' → only l' d d'.
Proof. intros (H1 & H2 & H3) Hl. split_and!; [|done|done]. intros n Hn. apply H1. intros Hin. by apply Hn, Hl. Qed.

Lemma only_set l n o d : n ∈ l → only l d (set n o d).
Proof. intros Hn. split_and!; [|done|done]. intros m Hm. cbn. by destruct (decide (m = n)) as [->|]. Qed.

Lemma only_gone l n d d' : only l d d' → n ∉ l → gone n d → gone n d'.
Proof. intros (H1 & H2 & _) Hn [H|H]; [left; by rewrite H1|right; by apply H2]. Qed.

Lemma set_eq n o d : files (set n o d) n = o.
Proof. cbn. by rewrite decide_True. Qed.

Section steps.
#[local] Abbreviation host := (Host.host dir).
Implicit Types h : host.

Lemma ends_lstat n (Q : outcome activate_error (option obj) → host → Prop) h :
  (∀ h', st h' = st h → Q Dead h' ∧ Q (Done (files (st h) n)) h' ∧ Q (Done None) h') → ends (lstat n) Q h.
Proof.
  intros HQ. unfold lstat. apply ends_bind, ends_call. intros h' E. destruct (HQ h' E) as (H1 & H2 & H3). split; [done|].
  intros ok. cbn [next]. apply ends_bind, ends_peek. cbn [next]. apply ends_ret. rewrite E. by destruct ok.
Qed.

Lemma ends_discard n (Q : outcome activate_error unit → host → Prop) h :
  (∀ h', only [n] (st h) (st h') → Q Dead h') → (∀ h', only [n] (st h) (st h') → gone n (st h') → Q (Done ()) h') → ends (discard n) Q h.
Proof.
  intros H1 H2. unfold discard, remove. apply ends_bind, ends_does.
  - intros h' E. assert (only [n] (st h) (st h')) as Ho by (rewrite E; apply only_refl). split; [by apply H1|]. cbn [next].
    apply ends_modify. intros h2 E2. apply H2; rewrite E2; [|unfold gone; cbn; destruct (files (st h') n); [right; by left|by left]].
    apply (only_trans _ _ (st h')); [done|]. split_and!; [done| |done]. cbn. destruct (files (st h') n); [|done]. intros m Hm. by right.
  - intros h' E. cbn [next]. apply ends_ret, H2; rewrite E; [by apply only_set; left|left; apply set_eq].
Qed.

Lemma ends_create n (Q : outcome activate_error bool → host → Prop) h :
  (∀ h', st h' = st h → Q Dead h' ∧ Q (Done false) h') →
  (∀ h', st h' = set n (Some (Regular [])) (st h) → Q (Done true) h') → ends (create n) Q h.
Proof.
  intros H1 H2. unfold create. apply ends_bind, ends_peek. cbn [next].
  destruct (files (st h) n); [by apply ends_ret, H1|by apply ends_does].
Qed.

Lemma ends_mkdir n (Q : outcome activate_error bool → host → Prop) h :
  (∀ h', st h' = st h → Q Dead h' ∧ Q (Done false) h') →
  (∀ h', st h' = set n (Some Directory) (st h) → Q (Done true) h') → ends (mkdir n) Q h.
Proof.
  intros H1 H2. unfold mkdir. apply ends_bind, ends_peek. cbn [next].
  destruct (files (st h) n); [by apply ends_ret, H1|by apply ends_does].
Qed.

Lemma ends_link a b (Q : outcome activate_error bool → host → Prop) h :
  (∀ h', st h' = st h → Q Dead h' ∧ Q (Done false) h') →
  (∀ h', st h' = set b (files (st h) a) (st h) → Q (Done true) h') → ends (link a b) Q h.
Proof.
  intros H1 H2. unfold link. apply ends_bind, ends_peek. cbn [next].
  destruct (files (st h) b); [by apply ends_ret, H1|by apply ends_does].
Qed.

Lemma ends_rename a b (Q : outcome activate_error bool → host → Prop) h :
  (∀ h', st h' = st h → Q Dead h' ∧ Q (Done false) h') →
  (∀ h', st h' = set a None (set b (files (st h) a) (st h)) → Q (Done true) h') → ends (rename a b) Q h.
Proof.
  intros H1 H2. unfold rename. apply ends_bind, ends_peek. cbn [next].
  destruct (files (st h) b) as [[]|]; first [by apply ends_ret, H1 | by apply ends_does].
Qed.

(** A write leaves something in the file it writes to, and no other; when all is well, the data. *)
Lemma ends_writeSyncClose torn n data (Q : outcome activate_error bool → host → Prop) h :
  (∀ h', only [n] (st h) (st h') → Q Dead h' ∧ Q (Done false) h') →
  (∀ h', only [n] (st h) (st h') → files (st h') n = Some (Regular data) → Q (Done true) h') →
  ends (writeSyncClose torn n data) Q h.
Proof.
  intros H1 H2. unfold writeSyncClose, write. do 2 apply ends_bind. apply ends_modify. intros h1 E1. cbn [next].
  assert (only [n] (st h) (st h1)) as O1 by (rewrite E1; by apply only_set; left). apply ends_does; intros h2 E2.
  - assert (only [n] (st h) (st h2)) as O2 by (by rewrite E2). split; [by apply H1|]. cbn [next].
    apply ends_bind, ends_call. intros h3 E3. rewrite <- E3 in O2. split; [by apply H1|]. intros s. cbn [next].
    apply ends_bind, ends_call. intros h4 E4. rewrite <- E4 in O2. split; [by apply H1|]. intros c. cbn [next]. by apply ends_ret, H1.
  - assert (only [n] (st h) (st h2)) as O2 by (rewrite E2; apply (only_trans _ _ (st h1)); [done|by apply only_set; left]). cbn [next].
    apply ends_bind, ends_call. intros h3 E3. rewrite <- E3 in O2. split; [by apply H1|]. intros s. cbn [next].
    apply ends_bind, ends_call. intros h4 E4. rewrite <- E4 in O2. split; [by apply H1|]. intros c. cbn [next]. apply ends_ret.
    destruct s, c; first [by apply H1 | apply H2; [done|]]. by rewrite E4, E3, E2, set_eq.
Qed.

Lemma ends_cleanupVerify (Q : outcome activate_error unit → host → Prop) h :
  (∀ h', only [VerifyFile; VerifyDir] (st h) (st h') → Q Dead h' ∧ Q (Done ()) h') → ends cleanupVerify Q h.
Proof.
  intros HQ. unfold cleanupVerify. apply ends_bind, ends_discard.
  - intros h1 O1. apply HQ, (only_sub _ _ _ _ O1). set_solver.
  - intros h1 O1 _. apply (only_sub _ [VerifyFile; VerifyDir]) in O1; [|set_solver]. cbn [next]. apply ends_bind, ends_peek. cbn [next].
    destruct (files (st h1) VerifyFile).
    + apply ends_bind, ends_call. intros h2 E2. split; [apply HQ; by rewrite E2|]. intros ok. cbn [next]. apply ends_modify.
      intros h3 E3. apply HQ. rewrite E3, E2. apply (only_trans _ _ (st h1)); [done|]. split_and!; [done| |done]. cbn. intros m Hm. by right.
    + apply ends_discard; intros h2 O2; [|intros _]; (apply HQ, (only_trans _ _ (st h1)); [done|]; apply (only_sub _ _ _ _ O2); set_solver).
Qed.

Lemma ends_writeSecretFile torn data (Q : outcome activate_error bool → host → Prop) h :
  (∀ h', only [PrevTmp; Prev] (st h) (st h') → Q Dead h' ∧ Q (Done false) h') →
  (∀ h', only [PrevTmp; Prev] (st h) (st h') → files (st h') Prev = Some (Regular data) → Q (Done true) h') →
  ends (writeSecretFile torn data) Q h.
Proof.
  intros H1 H2. set (l := [PrevTmp; Prev]). assert (∀ d d', only [PrevTmp] d d' → only l d d') as Hl.
  { intros d d' Ho. apply (only_sub _ _ _ _ Ho). unfold l. set_solver. }
  unfold writeSecretFile. apply ends_bind, ends_create; intros h1 E1.
  - split; [apply H1; rewrite E1; apply only_refl|]. cbn [next negb]. apply ends_ret, H1. rewrite E1. apply only_refl.
  - cbn [next negb]. assert (only l (st h) (st h1)) as O1 by (rewrite E1; apply only_set; by left).
    apply ends_bind, ends_writeSyncClose; intros h2 O2%Hl; pose proof (only_trans _ _ _ _ O1 O2) as O3.
    + split; [by apply H1|]. cbn [next negb]. apply ends_bind, ends_call. intros h3 E3. rewrite <- E3 in O3.
      split; [by apply H1|]. intros ok. cbn [next]. apply ends_bind, ends_discard; intros h4 O4%Hl; [|intros _];
        pose proof (only_trans _ _ _ _ O3 O4) as O5; [by apply H1|]. cbn [next]. by apply ends_ret, H1.
    + intros Hf. cbn [next negb]. apply ends_rename; intros h3 E3.
      * rewrite <- E3 in O3. by apply H1.
      * apply H2; rewrite E3; [|cbn; by rewrite Hf]. apply (only_trans _ _ (st h2)); [done|].
        apply (only_trans _ _ (set Prev (files (st h2) PrevTmp) (st h2))); apply only_set; unfold l; set_solver.
Qed.

Lemma ends_runTest run_test (Q : outcome activate_error (bool * gostring) → host → Prop) h :
  (∀ h', only [] (st h) (st h') → Q Dead h' ∧ ∀ s, Q (Done (false, s)) h') →
  (∀ h' data s, only [] (st h) (st h') → files (st h) VerifyFile = Some (Regular data) → run_test data = (true, s) →
     data ∈ tested (st h') → Q (Done (true, s)) h') →
  ends (runTest run_test) Q h.
Proof.
  intros H1 H2. unfold runTest. apply ends_bind, ends_call. intros h1 E1.
  assert (only [] (st h) (st h1)) as O1 by (rewrite E1; apply only_refl). split; [by apply H1|]. intros ok. cbn [next].
  apply ends_bind, ends_peek. cbn [next]. rewrite E1. destruct (files (st h) VerifyFile) as [[data| |]|] eqn:Ef; try by apply ends_ret, H1.
  destruct ok; [|by apply ends_ret, H1]. apply ends_bind, ends_modify. intros h2 E2. cbn [next]. apply ends_ret.
  assert (only [] (st h) (st h2)) as O2.
  { rewrite E2, E1. split_and!; [done|done|]. cbn. intros m Hm. by right. }
  destruct (run_test data) as [[] s] eqn:Et; [|by apply H1]. apply (H2 h2 data); [done|done|done|]. rewrite E2. by left.
Qed.
End steps.

(** ** The candidate goes live *)

Section swap.
Context (run_test : list byte → bool * gostring) (torn : list byte → list byte).
Context (kp : Keypair) (out : list byte) (d0 : dir).
#[local] Abbreviation host := (Host.host dir).
Implicit Types h : host.

(** The names beside the live file. *)
Definition scratch : list name := [Tmp; VerifyDir; VerifyFile; Prev; PrevTmp].

(** An error has a candidate behind it only if it could not be removed, or was there before, and shows no private key. *)
Definition failed (e : activate_error) (d : dir) : Prop :=
  only scratch d0 d ∧ (gone Tmp d ∨ files d Tmp = files d0 Tmp) ∧
  ∀ s, e = ErrConfigGate s → contains (PrivateRaw kp) s = false.

(** How a phase ends: the process died or failed beside the live file, or is done and [P] holds. *)
Definition phase {A} (P : A → dir → Prop) (r : outcome activate_error A) h : Prop :=
  match r with Dead => only scratch d0 (st h) | Fail e => failed e (st h) | Done a => P a (st h) end.

Lemma ends_abort {A} (P : A → dir → Prop) e h :
  only scratch d0 (st h) → (∀ s, e = ErrConfigGate s → contains (PrivateRaw kp) s = false) →
  ends (_ ← discard Tmp; fail e) (phase P) h.
Proof.
  intros Ho He. apply ends_bind, ends_discard.
  - intros h1 O1. cbn. apply (only_trans _ _ (st h)); [done|]. apply (only_sub _ _ _ _ O1). unfold scratch. set_solver.
  - intros h1 O1 Hg. cbn [next]. apply ends_fail. split_and!; [|by left|done]. apply (only_trans _ _ (st h)); [done|].
    apply (only_sub _ _ _ _ O1). unfold scratch. set_solver.
Qed.

Lemma kept_live d : only scratch d0 d → files d Live = files d0 Live.
Proof. intros (H & _). apply H. unfold scratch. set_solver. Qed.

Lemma more l d d' : only scratch d0 d → only l d d' → l ⊆ scratch → only scratch d0 d'.
Proof. intros H1 H2 Hl. apply (only_trans _ _ d); [done|]. by apply (only_sub l). Qed.

Lemma more_set n o d : only scratch d0 d → n ≠ Live → only scratch d0 (set n o d).
Proof. intros H Hn. apply (only_trans _ _ d); [done|]. apply only_set. unfold scratch. destruct n; set_solver. Qed.

Lemma phase_bind {A B} (P : A → dir → Prop) (P' : B → dir → Prop) m f h :
  ends m (phase P) h → (∀ a h', P a (st h') → ends (f a) (phase P') h') → ends (m ≫= f) (phase P') h.
Proof. intros Hm Hf. apply ends_bind. apply (ends_mono _ _ _ _ Hm). intros [a|e|] h' H; [by apply Hf|done|done]. Qed.

Lemma phase_ret {A} (P : A → dir → Prop) (a : A) h : P a (st h) → ends (mret a) (phase P) h.
Proof. done. Qed.

(** A failure that leaves the candidate of before alone. *)
Lemma phase_fail {A} (P : A → dir → Prop) e h :
  (∀ s, e ≠ ErrConfigGate s) → only scratch d0 (st h) → (gone Tmp (st h) ∨ files (st h) Tmp = files d0 Tmp) → ends (fail e) (phase P) h.
Proof. intros He Ho Ht. apply ends_fail. split_and!; [done|done|]. intros s ->. by destruct (He s). Qed.

Lemma phase_check ok e (P : unit → dir → Prop) h :
  (∀ s, e ≠ ErrConfigGate s) → only scratch d0 (st h) → (gone Tmp (st h) ∨ files (st h) Tmp = files d0 Tmp) →
  (ok = true → P () (st h)) → ends (check ok e) (phase P) h.
Proof. intros He Ho Ht HP. destruct ok; [by apply phase_ret, HP|by apply phase_fail]. Qed.

(** Either there was no file to be seen, or its bytes are known. *)
Definition read_ok (o : option (list byte)) (d : dir) : Prop :=
  d = d0 ∧ (o = None ∨ ∃ b, o = Some b ∧ files d0 Live = Some (Regular b)).

Lemma phase_readLive h : st h = d0 → ends readLive (phase read_ok) h.
Proof.
  intros E0. unfold readLive. apply ends_bind, ends_lstat. intros h1 E1. rewrite E0 in *.
  assert (only scratch d0 (st h1)) as O1 by (rewrite E1; apply only_refl). split; [done|].
  assert (∀ o, (o = None ∨ o = files d0 Live) →
    next (λ old : option obj,
      _ ← check (match old with None => true | o => regular o end) ErrActivateTarget;
      ok ← match old with None => mret true | Some _ => call end;
      _ ← check ok ErrActivateWrite;
      mret match old with Some (Regular b) => Some b | _ => None end) (phase read_ok) (Done o) h1) as Hn; [|split; apply Hn; tauto].
  intros o Ho. cbn [next]. apply (phase_bind (λ _ d, (o = None ∨ regular o = true) ∧ d = d0)).
  { apply phase_check; [done|done|right; by rewrite E1|]. intros Hr. destruct o; [|tauto]. tauto. }
  intros _ h2 [Hr E2]. assert (only scratch d0 (st h2)) as O2 by (rewrite E2; apply only_refl).
  assert (∀ ok h', st h' = d0 → ends (_ ← check ok ErrActivateWrite; mret match o with Some (Regular b) => Some b | _ => None end) (phase read_ok) h') as Hrest.
  { intros ok h' E'. apply (phase_bind (λ _ d, d = d0)).
    - apply phase_check; [done|rewrite E'; apply only_refl|right; by rewrite E'|done].
    - intros _ h3 E3. apply phase_ret. split; [done|]. destruct o as [[b| |]|]; [|by left..]. right. exists b. split; [done|].
      by destruct Ho as [|<-]. }
  apply ends_bind. destruct o.
  - apply ends_call. intros h3 E3. split; [by cbn; rewrite E3|]. intros ok. apply Hrest. by rewrite E3.
  - apply ends_ret. by apply Hrest.
Qed.

(** The candidate is on the disk. *)
Definition written (d : dir) : Prop := only scratch d0 d ∧ files d Tmp = Some (Regular out).

Lemma phase_create_write h :
  only scratch d0 (st h) → (gone Tmp (st h) ∨ files (st h) Tmp = files d0 Tmp) →
  ends (ok ← create Tmp; _ ← check ok ErrActivateWrite; ok ← writeSyncClose torn Tmp out;
        if ok : bool then mret () else _ ← call; _ ← discard Tmp; fail ErrActivateWrite) (phase (λ _, written)) h.
Proof.
  intros Ho Ht. apply ends_bind, ends_create; intros h1 E1.
  - rewrite <- E1 in Ho, Ht. split; [done|]. cbn [next]. apply (phase_bind (λ _ _, False)); [by apply phase_check|done].
  - cbn [next]. assert (only scratch d0 (st h1)) as O1 by (rewrite E1; by apply more_set). clear E1.
    apply ends_bind, ends_ret. cbn [next]. apply ends_bind, ends_writeSyncClose; intros h2 O2.
    + assert (only scratch d0 (st h2)) as O3 by (apply (more _ _ _ O1 O2); unfold scratch; set_solver). split; [done|]. cbn [next].
      apply ends_bind, ends_call. intros h3 E3. rewrite <- E3 in O3. split; [done|]. intros ok. cbn [next]. by apply ends_abort.
    + intros Hf. cbn [next]. apply phase_ret. split; [|done]. apply (more _ _ _ O1 O2). unfold scratch. set_solver.
Qed.

Lemma phase_writeCandidate h : st h = d0 → ends (writeCandidate torn out) (phase (λ _, written)) h.
Proof.
  intros E0. unfold writeCandidate. apply ends_bind, ends_lstat. intros h1 E1. rewrite E0 in *.
  assert (only scratch d0 (st h1)) as O1 by (rewrite E1; apply only_refl). split; [done|].
  assert (∀ o : option obj, ends (ok ← match o with None => mret true | Some _ => remove Tmp end;
      _ ← check ok ErrActivateWrite; ok ← create Tmp; _ ← check ok ErrActivateWrite; ok ← writeSyncClose torn Tmp out;
      if ok : bool then mret () else _ ← call; _ ← discard Tmp; fail ErrActivateWrite) (phase (λ _, written)) h1) as Hrest.
  { intros o. apply (phase_bind (λ ok d, only scratch d0 d ∧ (gone Tmp d ∨ files d Tmp = files d0 Tmp))).
    - destruct o; [|apply phase_ret; split; [done|right; by rewrite E1]]. apply ends_does; intros h2 E2.
      + split; cbn; rewrite E2; [done|]. split; [done|right; by rewrite E1].
      + cbn. rewrite E2. split; [by apply more_set|left; left; apply set_eq].
    - intros ok h2 [O2 T2]. apply (phase_bind (λ _ d, d = st h2)); [by apply phase_check|]. intros _ h3 E3.
      rewrite <- E3 in O2, T2. by apply phase_create_write. }
  assert (∀ o, next (λ stale : option obj, _ ← check (match stale with None => true | o => regular o end) ErrActivateTarget;
      ok ← match stale with None => mret true | Some _ => remove Tmp end;
      _ ← check ok ErrActivateWrite; ok ← create Tmp; _ ← check ok ErrActivateWrite; ok ← writeSyncClose torn Tmp out;
      if ok : bool then mret () else _ ← call; _ ← discard Tmp; fail ErrActivateWrite) (phase (λ _, written)) (Done o) h1) as Hn; [|split; apply Hn].
  intros o. cbn [next]. apply ends_bind, ends_check; intros _; [apply Hrest|]. split_and!; [done|right; by rewrite E1|done].
Qed.

Lemma shown_clean p s secs :
  unmarked p → x20 ∉ p → (15 < length p)%nat → p ∈ secs →
  ∀ t, ErrConfigGate (excerpt (maskSecrets s secs)) = ErrConfigGate t → contains p t = false.
Proof. intros Hu Hsp Hl Hin t [= <-]. apply excerpt_clean; [done|done|done|]. by apply maskSecrets_clean. Qed.

(** The binary has accepted the candidate. *)
Definition gated (d : dir) : Prop := fst (run_test out) = true ∧ out ∈ tested d ∧ written d.

Lemma phase_runTest h :
  unmarked (PrivateRaw kp) ∧ (x20 ∉ PrivateRaw kp) ∧ (15 < length (PrivateRaw kp))%nat →
  written (st h) → files (st h) VerifyFile = Some (Regular out) →
  ends (t ← runTest run_test; _ ← cleanupVerify;
        if fst t : bool then mret ()
        else _ ← discard Tmp; fail (ErrConfigGate (excerpt (maskSecrets (snd t) [PrivateRaw kp; PublicRaw kp; PrivateStd kp; PublicStd kp]))))
    (phase (λ _, gated)) h.
Proof.
  intros (Hu & Hsp & Hl) [Ho Hf] Hv. apply ends_bind, ends_runTest.
  - intros h1 O1. assert (only scratch d0 (st h1)) as O2 by (apply (more _ _ _ Ho O1), list_subseteq_nil). split; [done|]. intros s.
    cbn [next fst snd]. apply ends_bind, ends_cleanupVerify. intros h2 O3.
    assert (only scratch d0 (st h2)) as O4 by (apply (more _ _ _ O2 O3); unfold scratch; set_solver). split; [done|]. cbn [next].
    apply ends_abort; [done|]. apply shown_clean; [done|done|done|]. by left.
  - intros h1 data s O1 Hd Hr Hin. cbn [next fst]. rewrite Hv in Hd. injection Hd as <-.
    assert (only scratch d0 (st h1)) as O2 by (apply (more _ _ _ Ho O1), list_subseteq_nil). apply ends_bind, ends_cleanupVerify.
    intros h2 O3. assert (only scratch d0 (st h2)) as O4 by (apply (more _ _ _ O2 O3); unfold scratch; set_solver). split; [done|].
    cbn [next]. apply phase_ret. destruct O1 as (F1 & _), O3 as (F3 & _ & T3). split_and!; [by rewrite Hr|by apply T3|]. split; [done|].
    by rewrite F3, F1 by set_solver.
Qed.

Lemma phase_gate h :
  unmarked (PrivateRaw kp) ∧ (x20 ∉ PrivateRaw kp) ∧ (15 < length (PrivateRaw kp))%nat →
  written (st h) → ends (gate run_test kp) (phase (λ _, gated)) h.
Proof.
  intros Hk [Ho Hf]. unfold gate. apply ends_bind, ends_mkdir; intros h1 E1; cbn [next].
  - split; [by cbn; rewrite E1|]. apply (phase_bind (λ _ _, False)); [|done]. apply ends_abort; [by rewrite E1|done].
  - assert (written (st h1)) as [O1 F1]. { rewrite E1. split; [by apply more_set|by cbn]. } clear E1 Ho Hf.
    apply ends_bind, ends_ret. cbn [next]. apply ends_bind, ends_link; intros h2 E2; cbn [next].
    + rewrite <- E2 in O1. split; [done|]. apply (phase_bind (λ _ _, False)); [|done]. apply ends_bind, ends_cleanupVerify.
      intros h3 O3. assert (only scratch d0 (st h3)) as O4 by (apply (more _ _ _ O1 O3); unfold scratch; set_solver). split; [done|].
      cbn [next]. by apply ends_abort.
    + apply ends_bind, ends_ret. cbn [next]. apply phase_runTest; [done| |]; rewrite E2; [|by rewrite F1, set_eq].
      split; [by apply more_set|by cbn].
Qed.

(** Nothing but the live file is then of interest, and the backup. *)
Definition live_now (oldBytes : option (list byte)) (d : dir) : Prop :=
  files d Live = Some (Regular out) ∧ files d Tmp = None ∧ fst (run_test out) = true ∧ out ∈ tested d ∧
  ∀ b, oldBytes = Some b → files d Prev = Some (Regular b).

Lemma phase_goLive oldBytes h : gated (st h) → ends (goLive torn oldBytes) (phase (λ _, live_now oldBytes)) h.
Proof.
  intros (Ht & Hin & Ho & Hf). unfold goLive.
  apply (phase_bind (λ ok d, only scratch d0 d ∧ (ok = true → only [PrevTmp; Prev] (st h) d ∧ ∀ b, oldBytes = Some b → files d Prev = Some (Regular b)))).
  { assert (∀ d, only [PrevTmp; Prev] (st h) d → only scratch d0 d) as Hm. { intros d H. apply (more _ _ _ Ho H). unfold scratch. set_solver. }
    destruct oldBytes as [b|]; [|by apply phase_ret]. apply ends_writeSecretFile.
    - intros h1 O1%Hm. split; [done|]. by split; [done|intros [=]].
    - intros h1 O1 Hp. cbn. split; [by apply Hm|]. intros _. split; [done|]. by intros ? [= <-]. }
  intros ok h1 [O1 H1]. destruct ok; [|apply (phase_bind (λ _ _, False)); [by apply ends_abort|done]].
  destruct (H1 eq_refl) as [(F1 & _ & T1) Hp]. apply ends_bind, ends_ret. cbn [next]. apply ends_bind, ends_rename; intros h2 E2; cbn [next].
  - rewrite <- E2 in O1. split; [done|]. apply ends_bind, ends_discard; intros h3 O3; [|intros G3];
      assert (only scratch d0 (st h3)) as O4 by (apply (more _ _ _ O1 O3); unfold scratch; set_solver); [done|].
    cbn [next]. destruct oldBytes; [|by apply ends_bind, ends_ret, phase_fail; [| |left]].
    apply ends_bind, ends_discard; intros h4 O5; [|intros _]; assert (only scratch d0 (st h4)) as O6 by (apply (more _ _ _ O4 O5); unfold scratch; set_solver);
      [done|]. cbn [next]. apply phase_fail; [done|done|]. left. apply (only_gone _ _ _ _ O5); [set_solver|done].
  - apply phase_ret. rewrite E2. split_and!; [|by cbn|done|by apply T1|by cbn]. cbn. rewrite F1 by set_solver. done.
Qed.

Lemma phase_swapIn live h :
  unmarked (PrivateRaw kp) ∧ (x20 ∉ PrivateRaw kp) ∧ (15 < length (PrivateRaw kp))%nat → st h = d0 →
  ends (swapIn run_test torn kp live out) (phase (λ v d, ∃ oldBytes, read_ok oldBytes d0 ∧ live_now oldBytes d ∧
    v = mkActivation live (negb (bool_decide (oldBytes = Some out))))) h.
Proof.
  intros Hk E0. unfold swapIn. apply (phase_bind read_ok); [by apply phase_readLive|]. intros oldBytes h1 [E1 Hr].
  apply (phase_bind (λ _, written)); [by apply phase_writeCandidate|]. intros _ h2 H2.
  apply (phase_bind (λ _, gated)); [by apply phase_gate|]. intros _ h3 H3.
  apply (phase_bind (λ _, live_now oldBytes)); [by apply phase_goLive|]. intros _ h4 H4.
  apply phase_ret. exists oldBytes. split; [done|]. split; [done|]. f_equal. destruct oldBytes as [b|]; [|done].
  f_equal. apply bool_decide_ext. split; [by intros ->|by intros [= ->]].
Qed.
End swap.

(** ** The whole activation *)

Section whole.
Context (MarshalIndent : json → list byte) (run_test : list byte → bool * gostring) (torn : list byte → list byte).

Lemma render_key p kp out :
  RenderGermanyConfig MarshalIndent p kp = Ok out → ∃ k, kp = Some k ∧ unmarked (PrivateRaw k) ∧ (x20 ∉ PrivateRaw k) ∧ (15 < length (PrivateRaw k))%nat.
Proof.
  unfold RenderGermanyConfig. destruct (ValidateRealityParams p); [|done]. cbn. destruct kp as [k|]; [|done]. cbn [checkKeypair].
  destruct (streqb (PrivateRaw k) []); [done|]. destruct (decodeKey32 (PrivateRaw k)) eqn:E; [|done]. intros _. exists k. by split; [|apply key_text in E].
Qed.

Definition file_name (a : ActivateParams) : gostring := if streqb (FileName a) [] then defaultConfigFileName else FileName a.

(** What is asked before anything is touched, and the configuration that is then rendered. *)
Definition rendered (a : ActivateParams) (isDir : bool) (kp : Keypair) (out : list byte) : Prop :=
  path_ok (Dir a) = true ∧ file_ok (file_name a) = true ∧ isDir = true ∧ a_Keypair a = Some kp ∧
  RenderGermanyConfig MarshalIndent (a_Params a) (a_Keypair a) = Ok out.

Lemma activate_rendered a isDir kp out h :
  rendered a isDir kp out →
  ActivateGermanyConfig MarshalIndent run_test torn a isDir h = swapIn run_test torn kp (Join [Clean (Dir a); file_name a]) out h.
Proof.
  intros (Hp & Hf & -> & Hk & Hr). unfold ActivateGermanyConfig. rewrite Hr, Hk, Hp. fold (file_name a).
  cbv zeta. by rewrite Hf.
Qed.

Lemma activate_refused a isDir h :
  (∃ e, (∀ s, e ≠ ErrConfigGate s) ∧ ActivateGermanyConfig MarshalIndent run_test torn a isDir h = (Fail e, h)) ∨ ∃ kp out, rendered a isDir kp out.
Proof.
  unfold ActivateGermanyConfig, rendered. fold (file_name a). cbv zeta.
  destruct (path_ok (Dir a)); [|left; eexists; by split; [|reflexivity]]. destruct (file_ok (file_name a)); [|left; eexists; by split; [|reflexivity]]. destruct isDir; [|left; eexists; by split; [|reflexivity]].
  destruct (RenderGermanyConfig _ _ _) as [out|e] eqn:E; [|left; eexists; by split; [|reflexivity]].
  apply render_key in E as Hk. destruct Hk as (k & -> & _). right. by exists k, out.
Qed.


(** When every call succeeds and nothing is in the way, an accepted configuration is live. *)
Definition usual (old stale prev : option (list byte)) (n : name) : option obj :=
  Regular <$> match n with Live => old | Tmp => stale | Prev => prev | _ => None end.

Lemma activate_succeeds a isDir kp out old stale prev :
  rendered a isDir kp out → fst (run_test out) = true →
  ∃ v h, ActivateGermanyConfig MarshalIndent run_test torn a isDir (mkHost (mkDir (usual old stale prev) [] []) []) = (Done v, h) ∧
    ∀ n, files (st h) n = usual (Some out) None (match old with Some b => Some b | None => prev end) n.
Proof.
  intros Hr Ht. rewrite (activate_rendered _ _ _ _ _ Hr). generalize (Join [Clean (Dir a); file_name a]). intros live. clear Hr.
  destruct (run_test out) as [ok s] eqn:Er. cbn in Ht. subst ok. pose (swapIn' := λ live, swapIn run_test torn kp live out (mkHost (mkDir (usual old stale prev) [] []) [])).
  enough (match swapIn' live with (Done v, h) => ∀ n, files (st h) n = usual (Some out) None (match old with Some b => Some b | None => prev end) n | _ => False end) as H.
  { change (swapIn run_test torn kp live out _) with (swapIn' live). destruct (swapIn' live) as [[v| |] h]; [by exists v, h|done..]. }
  subst swapIn'. cbv beta.
  destruct old, stale, prev; lazy head; rewrite Er; vm_compute; intros []; reflexivity.
Qed.

(** A backup that a crash cut short is never removed, and while it is there no other can be written: with a
    live file to back up, every activation fails before the swap. *)
Lemma torn_backup_blocks b h : files (st h) PrevTmp ≠ None → ∃ r h', goLive torn (Some b) h = (r, h') ∧ r ≠ Done ().
Proof.
  intros Hp. assert (ends (goLive torn (Some b)) (λ r h', r ≠ Done ()) h) as H; [|unfold ends in H; by destruct (goLive torn (Some b) h) as [r h']; exists r, h'].
  unfold goLive, writeSecretFile, create. do 3 apply ends_bind. apply ends_peek. cbn [next]. destruct (files (st h) PrevTmp); [|done].
  apply ends_ret. cbn [next negb]. apply ends_ret. cbn [next]. do 2 apply ends_bind.
  apply ends_discard; intros h1 _; [done|]. intros _. cbn [next]. by apply ends_fail.
Qed.
End whole.
