(* ===== verification/AgentRules.v ===== *)
(** * What the control agent lets through (src/internal/controlagent: protocol.go, validator.go, c4.go, agent.go)

    The closed sets of operations and of editable variables, the checks of a
    proposed change, the redacted differences, the rate limiter and the replay
    of requests.  A change is a map from variable names to values; an error is
    the variable it names and the rule that is broken.  SHA-256, the lower case
    of a string that is not ASCII and whether a rules file can be loaded are
    parameters. *)
From S2P Require Export Config.
From S2P Require Import Pairing.
#[local] Open Scope Z_scope.

(** ** Protocol *)

Definition ProtocolVersion : Z := 1.
Definition MaxFrameBytes : Z := Z.shiftl 16 10.

Inductive op :=
| OpValidate | OpApply | OpRollbackLKG | OpStatus | OpRevisions | OpAudit
| OpInboundsValidate | OpInboundsApply | OpInboundsRotate | OpInboundsExportBlob | OpInboundsImportBlob
| OpC4RoutingValidate | OpC4RoutingApply | OpC4MCValidate | OpC4MCApply.

Definition knownOps : list (gostring * op) := [
  (lit "validate", OpValidate); (lit "apply", OpApply); (lit "rollback-lkg", OpRollbackLKG); (lit "status", OpStatus);
  (lit "revisions", OpRevisions); (lit "audit", OpAudit);
  (lit "inbounds-validate", OpInboundsValidate); (lit "inbounds-apply", OpInboundsApply);
  (lit "inbounds-rotate", OpInboundsRotate); (lit "inbounds-export-blob", OpInboundsExportBlob);
  (lit "inbounds-import-blob", OpInboundsImportBlob);
  (lit "c4-routing-validate", OpC4RoutingValidate); (lit "c4-routing-apply", OpC4RoutingApply);
  (lit "c4-mc-validate", OpC4MCValidate); (lit "c4-mc-apply", OpC4MCApply)].

Fixpoint lookup_op (name : gostring) (l : list (gostring * op)) : option op :=
  match l with [] => None | (n, o) :: l => if streqb n name then Some o else lookup_op name l end.

(** [Frame.validate]: the operation of a frame that may be dispatched. *)
Definition validate (v : Z) (name : gostring) : option op := if negb (v =? ProtocolVersion) then None else lookup_op name knownOps.

(** [readFrame] and [decodeFrame]: the sizes that are let through to the decoder; [n] bytes after trimming. *)
Definition frame_size_ok (n : Z) : bool := negb (n =? 0) && negb (MaxFrameBytes <? n).

(** ** Names *)

Definition c2EditableFields : list gostring :=
  [EnvPolicyMode; EnvPolicyTopK; EnvTTFBBaselineMs; EnvProbeDailyBudget; EnvMultiCarrierEnabled].

Definition c2SecretDenylist : list gostring :=
  map lit ["secret"; "key"; "token"; "password"; "basepath"; "credential"; "private"; "socks"]%string.

Definition c4RoutingFields : list gostring :=
  [EnvTargetAddrPolicy; EnvSocksAllowedSources; EnvRoutingRulesFile; EnvRoutingDefault; EnvWarpSocksAddr; EnvRoutingDebug].

Definition c4SecretBlocklist : list gostring := [EnvSecret; EnvSocksUser; EnvSocksPass].

Definition c4SecretDenylist : list gostring :=
  map lit ["secret"; "key"; "token"; "password"; "basepath"; "credential"; "private"]%string.

Definition c4MCFields : list gostring :=
  [EnvMultiCarrierEnabled; EnvDownListen2; EnvDownCarrierAddr2; EnvDownSNI2; EnvPolicyMode; EnvPolicyTopK;
   EnvProbingEnabled; EnvProbeURL; EnvProbeDailyBudget; EnvTTFBBaselineMs].

(** The variables that change the rendered Xray configuration. *)
Definition xrayKeys : list gostring := [EnvMultiCarrierEnabled; EnvDownListen2; EnvDownCarrierAddr2; EnvDownSNI2].

Definition among (name : gostring) (l : list gostring) : bool := existsb (streqb name) l.

(** ** Changes and their errors *)

Record CandidateChange := mkChange {
  cc_Role : gostring; cc_Set : env; BaseRevision : gostring; Reason : gostring; ChangeID : gostring
}.

#[export] Instance CandidateChange_expandable : Expandable CandidateChange := {| expand := λ c,
  mkChange (cc_Role c) (cc_Set c) (BaseRevision c) (Reason c) (ChangeID c) |}.

Inductive change_error :=
| RoleUnknown | SetEmpty | KeySecret (k : gostring) | KeyUnknown (k : gostring) | KeyRole (k : gostring) | ValueBad (k : gostring)
| ConfigBad (l : list problem) | Contradicts (k : gostring) | KeyRequired (k : gostring) | KeyConflicts (k : gostring).

Definition known (role : gostring) : bool := streqb role RoleIran || streqb role RoleGermany.

Section rules.
Context (unicode_lower : gostring → gostring) (sha256 : list byte → list byte) (LoadRulesFile : gostring → bool).

Definition ToLower (s : gostring) : gostring := to_lower unicode_lower s.

Definition named_like (l : list gostring) (name : gostring) : bool := existsb (λ sub, contains sub (ToLower name)) l.

Definition c2KeyIsSecret (name : gostring) : bool := named_like c2SecretDenylist name.
Definition c4KeyIsSecret (name : gostring) : bool := among name c4SecretBlocklist || named_like c4SecretDenylist name.

(** ** The splitter policy (validator.go) *)

Definition int_in (lo hi : Z) (v : gostring) : bool := match Atoi v with Some n => negb ((n <? lo) || (hi <? n)) | None => false end.

(** [c2ValueError] returns no error. *)
Definition c2ValueOk (key value : gostring) : bool :=
  if streqb key EnvPolicyMode then streqb value PolicyStaticMode || streqb value PolicyAdaptiveMode
  else if streqb key EnvPolicyTopK then int_in MinPolicyTopK MaxPolicyTopK value
  else if streqb key EnvTTFBBaselineMs then int_in 0 MaxTTFBBaselineMs value
  else if streqb key EnvProbeDailyBudget then int_in 0 536870912 value
  else if streqb key EnvMultiCarrierEnabled then match ParseBool value with Some _ => true | None => false end
  else true.

(** The configuration that [defaultConfigBuilder] makes of an environment. *)
Definition applyEnvToConfig (c : Config) (e : env) : Config :=
  let str key old := default old (e !! key) in
  let num key old := match e !! key with Some v => default old (Atoi v) | None => old end in
  let flag key old := match e !! key with Some v => default old (ParseBool v) | None => old end in
  c <| PolicyMode := str EnvPolicyMode (PolicyMode c) |>
    <| PolicyTopK := num EnvPolicyTopK (PolicyTopK c) |>
    <| TTFBBaselineMs := num EnvTTFBBaselineMs (TTFBBaselineMs c) |>
    <| ProbingEnabled := flag EnvProbingEnabled (ProbingEnabled c) |>
    <| MultiCarrierEnabled := flag EnvMultiCarrierEnabled (MultiCarrierEnabled c) |>
    <| ProbeDailyBudget := num EnvProbeDailyBudget (ProbeDailyBudget c) |>
    <| MetricsPort := num EnvMetricsPort (MetricsPort c) |>.

(** [base] is folded under [override]. *)
Definition mcMerge (base set : env) : env := set ∪ base.

Definition ConfigBuilder : Type := gostring → env → env → res (list problem) Config.

Definition defaultConfigBuilder : ConfigBuilder := λ _ base override, Ok (applyEnvToConfig Defaults (mcMerge base override)).

Definition c2CrossFieldCheck (c : Config) : list change_error := [].

Definition c2KeyRequiresRestart (key : gostring) : bool :=
  among key [EnvPolicyMode; EnvPolicyTopK; EnvTTFBBaselineMs; EnvProbeDailyBudget; EnvMultiCarrierEnabled].

(** The errors of the fields, in the order in which the map is walked, which is any. *)
Definition fields_errors (check : gostring → gostring → list change_error) (set : env) : list change_error :=
  concat (map (λ kv, check (fst kv) (snd kv)) (map_to_list set)).

Definition c2FieldErrors (k v : gostring) : list change_error :=
  if c2KeyIsSecret k then [KeySecret k]
  else if negb (among k c2EditableFields) then [KeyUnknown k]
  else if c2ValueOk k v then [] else [ValueBad k].

Definition ValidateCandidate (build : ConfigBuilder) (role : gostring) (set : env) : list change_error * bool :=
  if negb (known role) then ([RoleUnknown], false)
  else if (size set =? 0)%nat then ([SetEmpty], false)
  else (fields_errors c2FieldErrors set
        ++ match build role ∅ set with Err l => [ConfigBad l] | Ok c => c2CrossFieldCheck c end,
        existsb (λ kv, c2KeyRequiresRestart (fst kv)) (map_to_list set)).

(** ** Differences *)

Record DiffEntry := mkDiff { d_Key : gostring; Before : gostring; After : gostring; Redacted : bool }.

Definition fingerprint (s : gostring) : gostring := take 12 (hexEncode (sha256 s)).
Definition not_set : gostring := lit "(not set)".
Definition shown (s : gostring) : gostring := if streqb s [] then not_set else s.

Definition diff_entry (redact : gostring → bool) (base : env) (k after : gostring) : DiffEntry :=
  let hide s := if redact k && negb (streqb s []) then fingerprint s else s in
  mkDiff k (shown (hide (default [] (base !! k)))) (shown (hide after)) (redact k).

Definition diffs (allowed redact : gostring → bool) (base override : env) : list DiffEntry :=
  map (λ kv, diff_entry redact base (fst kv) (snd kv)) (filter (λ kv, Is_true (allowed (fst kv))) (map_to_list override)).

(** The order is that of the map here, and that of the names in the other. *)
Definition BuildDiff (base override : env) : list DiffEntry := diffs (λ k, among k c2EditableFields) c2KeyIsSecret base override.

Definition redact_socks (k : gostring) : bool := contains (lit "socks") (ToLower k).
Definition BuildC4Diff (base override : env) (allowed : list gostring) : list DiffEntry :=
  diffs (λ k, among k allowed) redact_socks base override.

(** ** The routing plane (c4.go) *)

Definition routingKeyRole (key role : gostring) : bool :=
  if streqb key EnvSocksAllowedSources then streqb role RoleIran
  else if among key [EnvRoutingRulesFile; EnvRoutingDefault; EnvWarpSocksAddr; EnvRoutingDebug] then streqb role RoleGermany
  else true.

Definition blank (v : gostring) : bool := streqb (TrimSpace v) [].
Definition is_bool (v : gostring) : bool := match ParseBool v with Some _ => true | None => false end.

(** [host:port] with a host and a port in [lo..hi]. *)
Definition host_port_ok (lo hi : Z) (value : gostring) : bool :=
  match net_SplitHostPort value with
  | None => false
  | Some (host, port) => negb (streqb host []) && int_in lo hi port
  end.

(** [routingValueError] returns no error. *)
Definition routingValueOk (key value : gostring) : bool :=
  if streqb key EnvTargetAddrPolicy then among value (map lit ["default"; "prefer-ipv4"; "ipv4-only"]%string)
  else if streqb key EnvSocksAllowedSources then
    blank value || match ParseAllowedSources value with Some _ => true | None => false end
  else if streqb key EnvRoutingRulesFile then blank value || LoadRulesFile value
  else if streqb key EnvRoutingDefault then among value (map lit [""; "direct"; "warp"]%string)
  else if streqb key EnvWarpSocksAddr then blank value || host_port_ok 1 65535 value
  else if streqb key EnvRoutingDebug then blank value || is_bool value
  else true.

Definition routingFieldErrors (role k v : gostring) : list change_error :=
  if c4KeyIsSecret k then [KeySecret k]
  else if negb (among k c4RoutingFields) then [KeyUnknown k]
  else if negb (routingKeyRole k role) then [KeyRole k]
  else if routingValueOk k v then [] else [ValueBad k].

(** The value of [k] in the environment, [""] if it has none. *)
Definition value (e : env) (k : gostring) : gostring := default [] (e !! k).

Definition ValidateRoutingChange (role : gostring) (set base : env) : list change_error :=
  if negb (known role) then [RoleUnknown]
  else if (size set =? 0)%nat then [SetEmpty]
  else fields_errors (routingFieldErrors role) set
       ++ (if streqb (value (mcMerge base set) EnvTargetOnlyIPv4) (lit "true")
              && streqb (value (mcMerge base set) EnvTargetAddrPolicy) (lit "prefer-ipv4")
           then [Contradicts EnvTargetAddrPolicy] else []).

(** ** Multi-carrier control (c4.go) *)

Definition mcKeyRole (key role : gostring) : bool :=
  if among key [EnvDownListen2; EnvDownSNI2] then streqb role RoleGermany
  else if streqb key EnvDownCarrierAddr2 then streqb role RoleIran
  else true.

(** [mcHostPortError] returns no error; it is only called with a host required. *)
Definition mcHostPortOk (value : gostring) (reserved : Z) : bool :=
  host_port_ok MinPort MaxPort value
  && negb (negb (reserved =? 0)
           && match net_SplitHostPort value with Some (_, port) => bool_decide (Atoi port = Some reserved) | None => false end).

(** Up to the first colon, in lower case, and what follows. *)
Definition parseProbeURL (raw : gostring) : gostring * gostring * bool :=
  let '(scheme, rest) := match cut x3a raw with Some (a, b) => (ToLower a, b) | None => ([], raw) end in
  if negb (has_prefix (lit "//") rest) then (scheme, [], false)
  else let rest := drop 2 rest in
       (scheme, match cut x2f rest with Some (a, _) => a | None => rest end, true).

Definition mcProbeURLOk (value : gostring) : bool :=
  streqb value []
  || let '(scheme, host, ok) := parseProbeURL value in
     ok && (streqb scheme (lit "http") || streqb scheme (lit "https")) && negb (streqb host []).

(** [mcValueError] returns no error. *)
Definition mcValueOk (key value : gostring) : bool :=
  if streqb key EnvMultiCarrierEnabled then is_bool value
  else if streqb key EnvDownListen2 then streqb value [] || mcHostPortOk value ReservedPort
  else if streqb key EnvDownCarrierAddr2 then streqb value [] || mcHostPortOk value 0
  else if streqb key EnvDownSNI2 then streqb value [] || ValidSNI value
  else if streqb key EnvPolicyMode then streqb value PolicyStaticMode || streqb value PolicyAdaptiveMode
  else if streqb key EnvPolicyTopK then int_in MinPolicyTopK MaxPolicyTopK value
  else if streqb key EnvProbingEnabled then is_bool value
  else if streqb key EnvProbeURL then mcProbeURLOk value
  else if streqb key EnvProbeDailyBudget then match Atoi value with Some n => negb (n <? 0) | None => false end
  else if streqb key EnvTTFBBaselineMs then int_in 0 MaxTTFBBaselineMs value
  else true.

Definition mcFieldErrors (role k v : gostring) : list change_error :=
  if c4KeyIsSecret k then [KeySecret k]
  else if negb (among k c4MCFields) then [KeyUnknown k]
  else if negb (mcKeyRole k role) then [KeyRole k]
  else if mcValueOk k v then [] else [ValueBad k].

Definition portOfEndpoint (addr : gostring) : option (gostring * Z) := portOf addr.
Definition bindsAllInterfaces (host : gostring) : bool := bindsEverything host.

Definition endpointConflict (a b : gostring) : bool :=
  if streqb a [] || streqb b [] then false
  else match portOfEndpoint a, portOfEndpoint b with
       | Some (ah, ap), Some (bh, bp) =>
           if negb (ap =? bp) then false else if streqb ah bh then true else bindsAllInterfaces ah || bindsAllInterfaces bh
       | _, _ => false
       end.

Definition err (b : bool) (e : change_error) : list change_error := if b then [e] else [].

(** What enabling the second carrier asks of the merged environment. *)
Definition mcEnabledErrors (role : gostring) (m : env) : list change_error :=
  (if streqb role RoleGermany then
     err (negb (mcHostPortOk (value m EnvDownListen2) ReservedPort)) (KeyRequired EnvDownListen2)
     ++ err (negb (ValidSNI (value m EnvDownSNI2))) (KeyRequired EnvDownSNI2)
   else err (negb (mcHostPortOk (value m EnvDownCarrierAddr2) 0)) (KeyRequired EnvDownCarrierAddr2))
  ++ (if streqb role RoleGermany then
        err (negb (streqb (value m EnvDownListen2) []) && endpointConflict (value m EnvDownListen) (value m EnvDownListen2))
          (KeyConflicts EnvDownListen2)
      else err (negb (streqb (value m EnvDownCarrierAddr2) []) && streqb (value m EnvDownCarrierAddr2) (value m EnvDownCarrier))
             (KeyConflicts EnvDownCarrierAddr2))
  ++ err (streqb (value m EnvProbingEnabled) (lit "true") && blank (value m EnvProbeURL)) (KeyRequired EnvProbeURL).

Definition ValidateMCChange (role : gostring) (set base : env) : list change_error :=
  if negb (known role) then [RoleUnknown]
  else if (size set =? 0)%nat then [SetEmpty]
  else fields_errors (mcFieldErrors role) set
       ++ (if streqb (value (mcMerge base set) EnvMultiCarrierEnabled) (lit "true")
           then mcEnabledErrors role (mcMerge base set) else []).

(** ** Concepts *)

Record c4Concept := mkConcept {
  concept_name : gostring; concept_allowed : list gostring;
  concept_validate : gostring → env → env → list change_error; xrayAffected : env → env → bool
}.

Definition c4RoutingConcept : c4Concept := mkConcept (lit "routing") c4RoutingFields ValidateRoutingChange (λ _ _, false).
Definition c4MCConcept : c4Concept :=
  mkConcept (lit "multi-carrier") c4MCFields ValidateMCChange (λ _ set, existsb (λ kv, among (fst kv) xrayKeys) (map_to_list set)).
End rules.

(** ** The rate limiter (agent.go)

    Times are nanoseconds; [recent] is in the order in which applies were recorded. *)

Record fixedRateLimiter := mkLimiter { recent : list Z; perWindow : Z; window : Z }.

Definition newRateLimiter (perWindow window : Z) : fixedRateLimiter := mkLimiter [] perWindow window.

Fixpoint dropBefore (cutoff : Z) (l : list Z) : list Z :=
  match l with t :: l' => if t <? cutoff then dropBefore cutoff l' else l | [] => [] end.

(** Whether an apply may go on, and how long to wait if not. *)
Definition AllowApply (now : Z) (r : fixedRateLimiter) : (bool * Z) * fixedRateLimiter :=
  let l := dropBefore (now - window r) (recent r) in
  let r := mkLimiter l (perWindow r) (window r) in
  match l with
  | t :: _ => if perWindow r <=? Z.of_nat (length l) then ((false, window r - (now - t)), r) else ((true, 0), r)
  | [] => if perWindow r <=? 0 then ((false, 0), r) else ((true, 0), r)
  end.

Definition RecordApply (now : Z) (r : fixedRateLimiter) : fixedRateLimiter := mkLimiter (recent r ++ [now]) (perWindow r) (window r).

(** ** Replays (agent.go, c4.go) *)

(** [k=v;] for every name, in the order of the names; [names]: that order. *)
Definition stableSet (names : list gostring) (m : env) : gostring :=
  concat (map (λ k, k ++ lit "=" ++ default [] (m !! k) ++ lit ";") names).

Definition hash_input (prefix : gostring) (names : list gostring) (c : CandidateChange) : gostring :=
  prefix ++ cc_Role c ++ lit "|" ++ stableSet names (cc_Set c) ++ lit "|" ++ BaseRevision c ++ lit "|" ++ ChangeID c.

(** ** What the checks guarantee *)

Lemma among_true k l : among k l = true ↔ k ∈ l.
Proof.
  unfold among. rewrite existsb_exists. split.
  - intros (x & Hx & E%streqb_true). subst x. by apply list_elem_of_In.
  - intros Hk. exists k. split; [by apply list_elem_of_In|by apply streqb_true].
Qed.

Lemma fields_errors_nil check set : fields_errors check set = [] ↔ ∀ k v, set !! k = Some v → check k v = [].
Proof.
  unfold fields_errors. rewrite concat_nil_Forall, Forall_map, Forall_forall. split.
  - intros H k v Hv. apply (H (k, v)). by apply elem_of_map_to_list.
  - intros H [k v] Hkv%elem_of_map_to_list. by apply H.
Qed.

Section sound.
Context (unicode_lower : gostring → gostring) (sha256 : list byte → list byte) (LoadRulesFile : gostring → bool).

(** A set that is accepted has a known role, only variables of the concept, and only good values. *)
Lemma ValidateCandidate_sound build role set :
  fst (ValidateCandidate unicode_lower build role set) = [] →
  known role = true ∧ set ≠ ∅ ∧ ∀ k v, set !! k = Some v → k ∈ c2EditableFields ∧ c2ValueOk k v = true.
Proof.
  unfold ValidateCandidate. destruct (known role); [|done]. cbn [negb]. destruct (Nat.eqb_spec (size set) 0) as [|Hs]; [done|].
  cbn [fst]. intros [Hf _]%app_eq_nil. split; [done|]. split; [by intros ->|].
  intros k v Hv. pose proof (proj1 (fields_errors_nil _ _) Hf k v Hv) as H. unfold c2FieldErrors in H.
  destruct (c2KeyIsSecret _ k); [done|]. destruct (among k c2EditableFields) eqn:E; [|done]. apply among_true in E.
  split; [done|]. cbn [negb] in H. by destruct (c2ValueOk k v).
Qed.

Lemma ValidateRoutingChange_sound role set base :
  ValidateRoutingChange unicode_lower LoadRulesFile role set base = [] →
  known role = true ∧ set ≠ ∅ ∧ ∀ k v, set !! k = Some v → k ∈ c4RoutingFields ∧ routingKeyRole k role = true ∧ routingValueOk LoadRulesFile k v = true.
Proof.
  unfold ValidateRoutingChange. destruct (known role); [|done]. cbn [negb]. destruct (Nat.eqb_spec (size set) 0) as [|Hs]; [done|].
  intros [Hf _]%app_eq_nil. split; [done|]. split; [by intros ->|].
  intros k v Hv. pose proof (proj1 (fields_errors_nil _ _) Hf k v Hv) as H. unfold routingFieldErrors in H.
  destruct (c4KeyIsSecret _ k); [done|]. destruct (among k c4RoutingFields) eqn:E; [|done]. apply among_true in E. cbn [negb] in H.
  destruct (routingKeyRole k role); [|done]. cbn [negb] in H. by destruct (routingValueOk _ k v).
Qed.

Lemma ValidateMCChange_sound role set base :
  ValidateMCChange unicode_lower role set base = [] →
  known role = true ∧ set ≠ ∅ ∧
  (∀ k v, set !! k = Some v → k ∈ c4MCFields ∧ mcKeyRole k role = true ∧ mcValueOk unicode_lower k v = true) ∧
  (value (mcMerge base set) EnvMultiCarrierEnabled = lit "true" → mcEnabledErrors role (mcMerge base set) = []).
Proof.
  unfold ValidateMCChange. destruct (known role); [|done]. cbn [negb]. destruct (Nat.eqb_spec (size set) 0) as [|Hs]; [done|].
  intros [Hf Hm]%app_eq_nil. split; [done|]. split; [by intros ->|]. split.
  - intros k v Hv. pose proof (proj1 (fields_errors_nil _ _) Hf k v Hv) as H. unfold mcFieldErrors in H.
    destruct (c4KeyIsSecret _ k); [done|]. destruct (among k c4MCFields) eqn:E; [|done]. apply among_true in E. cbn [negb] in H.
    destruct (mcKeyRole k role); [|done]. cbn [negb] in H. by destruct (mcValueOk _ k v).
  - intros Ht. assert (streqb (value (mcMerge base set) EnvMultiCarrierEnabled) (lit "true") = true) as E by (by apply streqb_true).
    by rewrite E in Hm.
Qed.
End sound.

(** ** What they do not *)

Module Examples.
Definition rules (_ : gostring) : bool := true.

(** The master switch is compared with [true] only: [1] turns the second carrier on without its listener, in an
    environment the splitter then refuses. *)
Definition flip : env := {[ EnvMultiCarrierEnabled := lit "1" ]}.
Example switch_bypasses_checks :
  ValidateMCChange (λ s, s) RoleGermany flip ∅ = [] ∧
  (∃ c, readEnv (mcMerge ∅ flip) = (c, []) ∧ MultiCarrierEnabled c = true ∧
    validateGermany (λ _, None) rules c ≠ validateGermany (λ _, None) rules (c <| MultiCarrierEnabled := false |>)) ∧
  ValidateMCChange (λ s, s) RoleGermany {[ EnvMultiCarrierEnabled := lit "true" ]} ∅ = [KeyRequired EnvDownListen2; KeyRequired EnvDownSNI2].
Proof. split; [vm_compute; reflexivity|]. split; [eexists; split; [vm_compute; reflexivity|]; split; [reflexivity|vm_compute; discriminate]|vm_compute; reflexivity]. Qed.

(** A line feed in the host of an address is accepted: the environment file gets another assignment. *)
Definition injected : gostring := lit "127.0.0.1" ++ [x0a] ++ lit "SPLIT_SECRET=x" ++ [x0a] ++ lit "A=b:40000".
Example address_carries_lines :
  ValidateRoutingChange (λ s, s) rules RoleGermany {[ EnvWarpSocksAddr := injected ]} ∅ = [] ∧
  ValidateMCChange (λ s, s) RoleGermany {[ EnvDownListen2 := injected ]} ∅ = [].
Proof. split; vm_compute; reflexivity. Qed.
End Examples.
