(* ===== verification/AgentStore.v ===== *)
(** * The control agent's host (src/internal/controlagent/revisionstore.go, journal.go; src/cmd/splitterctl/control.go)

    The files of the revision store, the journal and the live environment files,
    with every operation on them system call by system call ([Host]): a call may
    fail or be the last one of the process, and [torn] is what a write that does
    not end leaves in a file.  The seam of the production agent ([osControlSeam])
    is part of it: where the live file is, how a candidate is rendered, swapped
    in and restored, and how the splitter is restarted.

    JSON and SHA-256 are parameters. *)
From S2P Require Import Pairing.
From S2P Require Export AgentRules Host.
#[local] Open Scope Z_scope.

(** ** Text *)

Fixpoint bytes_lt (a b : gostring) : bool :=
  match a, b with
  | _, [] => false
  | [], _ :: _ => true
  | x :: a, y :: b => if bz x <? bz y then true else if bz y <? bz x then false else bytes_lt a b
  end.

(** [sort.Strings], as an insertion sort. *)
Fixpoint insert_string (x : gostring) (l : list gostring) : list gostring :=
  match l with [] => [x] | y :: l' => if bytes_lt y x then y :: insert_string x l' else x :: l end.
Definition sortStrings (l : list gostring) : list gostring := foldr insert_string [] l.

Definition store_char (c : byte) : bool := is_lower c || is_upper c || is_digit c || beqb c x2d || beqb c x5f || beqb c x3a.
Definition validateStoreToken (s : gostring) : bool := negb (streqb s [] || (128 <? length s)%nat) && forallb store_char s.

(** The date of a Unix time in nanoseconds, as [Format("20060102")] writes it. *)
Definition pad (w : nat) (n : Z) : gostring := let s := Itoa n in replicate (w - length s) x30 ++ s.
Definition yyyymmdd (t : Z) : gostring :=
  let z := t / 86400000000000 + 719468 in
  let era := z / 146097 in
  let doe := z mod 146097 in
  let yoe := (doe - doe / 1460 + doe / 36524 - doe / 146096) / 365 in
  let doy := doe - (365 * yoe + yoe / 4 - yoe / 100) in
  let mp := (5 * doy + 2) / 153 in
  let d := doy - (153 * mp + 2) / 5 + 1 in
  let m := if mp <? 10 then mp + 3 else mp - 9 in
  let y := yoe + era * 400 + (if m <=? 2 then 1 else 0) in
  pad 4 y ++ pad 2 m ++ pad 2 d.

Example date_known : yyyymmdd 1709164800000000000 = lit "20240229" ∧ yyyymmdd 1767225599000000000 = lit "20251231".
Proof. split; vm_compute; reflexivity. Qed.

(** ** Environment files (control.go) *)

Definition parse_line (line : gostring) (m : env) : env :=
  let line := TrimSpace line in
  if streqb line [] || has_prefix (lit "#") line then m
  else match cut x3d line with Some (k, v) => if streqb k [] then m else <[k := v]> m | None => m end.

Definition parseEnvFile (data : list byte) : env := foldl (λ m line, parse_line line m) ∅ (split_on x0a data).

Definition env_line (m : env) (k : gostring) : gostring := k ++ lit "=" ++ default [] (m !! k) ++ [x0a].
Definition renderEnv (m : env) : list byte := concat (map (env_line m) (sortStrings (map fst (map_to_list m)))).

(** ** Manifests *)

Definition manifest_line (h name : gostring) : gostring := h ++ lit "  " ++ name ++ [x0a].

(** The part before the first two spaces, and the part after them. *)
Fixpoint cut2 (s : gostring) : option (gostring * gostring) :=
  match s with
  | [] => None
  | c :: s' => if has_prefix (lit "  ") s then Some ([], drop 2 s)
               else match cut2 s' with Some (a, b) => Some (c :: a, b) | None => None end
  end.

Fixpoint manifest_entries (lines : list gostring) : option (gmap gostring gostring) :=
  match lines with
  | [] => Some ∅
  | l :: lines =>
      match manifest_entries lines with
      | None => None
      | Some m => if streqb l [] then Some m
                  else match cut2 l with None => None | Some (h, name) => Some (if decide (is_Some (m !! name)) then m else <[name := h]> m) end
      end
  end.

(** The last line of a name is the one that counts. *)
Definition parseManifest (data : list byte) : option (gmap gostring gostring) := manifest_entries (split_on x0a data).

(** ** Records *)

Record RevisionMeta := mkMeta {
  m_ID : gostring; m_Parent : gostring; m_ChangeID : gostring; m_Actor : gostring; m_Role : gostring; m_Kind : gostring;
  m_Timestamp : option Z; m_Outcome : gostring; m_PrevHash : gostring; m_Manifest : gostring; FileHashes : gmap gostring gostring
}.
#[export] Instance RevisionMeta_expandable : Expandable RevisionMeta := {| expand := λ m,
  mkMeta (m_ID m) (m_Parent m) (m_ChangeID m) (m_Actor m) (m_Role m) (m_Kind m) (m_Timestamp m) (m_Outcome m) (m_PrevHash m)
    (m_Manifest m) (FileHashes m) |}.

Definition JournalPrepared : gostring := lit "prepared".
Definition JournalSwapped : gostring := lit "swapped".
Definition JournalRestarted : gostring := lit "restarted".
Definition JournalVerified : gostring := lit "verified".
Definition JournalRollingBack : gostring := lit "rolling-back".
Definition JournalRolledBack : gostring := lit "rolled-back".

Record ControlJournalEntry := mkEntry {
  j_ChangeID : gostring; j_Role : gostring; j_State : gostring; j_Revision : gostring; j_Parent : gostring;
  PreHash : gostring; NewHash : gostring; XrayCand : gostring; XrayAffected : bool
}.
#[export] Instance ControlJournalEntry_expandable : Expandable ControlJournalEntry := {| expand := λ j,
  mkEntry (j_ChangeID j) (j_Role j) (j_State j) (j_Revision j) (j_Parent j) (PreHash j) (NewHash j) (XrayCand j) (XrayAffected j) |}.

(** ** The host *)

(** [Tmp pid p]: the temporary file of a replacement of [p]; the files of a
    revision are named, its copies' temporary files too. *)
Inductive path :=
| HeadFile | LkgFile | KillSwitch | JournalFile | AuditFile
| Live (role : gostring) | Cand (role : gostring) | Backup (role : gostring)
| Pre (id rel : gostring) | Post (id rel : gostring) | ManifestFile (id : gostring) | MetaFile (id : gostring)
| Tmp (pid : Z) (p : path).

#[export] Instance path_eq_dec : EqDecision path.
Proof. solve_decision. Defined.

Fixpoint path_enc (p : path) : list Z * gostring * gostring :=
  match p with
  | HeadFile => ([0], [], []) | LkgFile => ([1], [], []) | KillSwitch => ([2], [], []) | JournalFile => ([3], [], [])
  | AuditFile => ([4], [], []) | Live r => ([5], r, []) | Cand r => ([6], r, []) | Backup r => ([7], r, [])
  | Pre i r => ([8], i, r) | Post i r => ([9], i, r) | ManifestFile i => ([10], i, []) | MetaFile i => ([11], i, [])
  | Tmp z p => let '(l, a, b) := path_enc p in (12 :: z :: l, a, b)
  end.

Fixpoint path_dec (l : list Z) (a b : gostring) : path :=
  match l with
  | 1 :: _ => LkgFile | 2 :: _ => KillSwitch | 3 :: _ => JournalFile | 4 :: _ => AuditFile | 5 :: _ => Live a | 6 :: _ => Cand a
  | 7 :: _ => Backup a | 8 :: _ => Pre a b | 9 :: _ => Post a b | 10 :: _ => ManifestFile a | 11 :: _ => MetaFile a
  | 12 :: z :: l => Tmp z (path_dec l a b)
  | _ => HeadFile
  end.

#[export] Instance path_countable : Countable path.
Proof.
  refine (inj_countable' path_enc (λ x, path_dec (fst (fst x)) (snd (fst x)) (snd x)) _).
  intros p. induction p as [| | | | | | | | | | | |z p IH]; try done. cbn. destruct (path_enc p) as [[l a] b]. cbn in *. by rewrite IH.
Defined.

Record TxResult := mkResult { Outcome : gostring; RevisionID : gostring; PrevRevisionID : gostring }.

(** What the agent itself remembers, until it ends: the lock of an apply, the limiters, the results by
    idempotency key with the hash of the request, and the end of the audit chain. *)
Record memory := mkMemory {
  locked : bool; rlShort : fixedRateLimiter; rlLong : fixedRateLimiter;
  idem : gmap gostring (gostring * TxResult); idemC4 : gmap gostring (gostring * TxResult);
  audit_seq : Z; audit_last : gostring
}.
#[export] Instance memory_expandable : Expandable memory := {| expand := λ m,
  mkMemory (locked m) (rlShort m) (rlLong m) (idem m) (idemC4 m) (audit_seq m) (audit_last m) |}.

(** [dirs]: the directories pre/ ([false]) and files/ ([true]) of the revisions.
    [running]: the environment a splitter was last started with; [None]: a
    restart that did not end.  [clock], [draws] and [misses] are what the next
    readings of the clock, of the random source and of [os.Lstat] give: a miss
    is an error where there is a file. *)
Record disk := mkDisk {
  objs : gmap path (list byte); dirs : gset (gostring * bool); running : gmap gostring (option (list byte));
  clock : list Z; draws : list gostring; misses : list bool; pid : Z; mem : memory
}.
#[export] Instance disk_expandable : Expandable disk := {| expand := λ d,
  mkDisk (objs d) (dirs d) (running d) (clock d) (draws d) (misses d) (pid d) (mem d) |}.

Inductive agent_error := ErrStorePath | ErrManifestTampered | ErrNotExist | ErrCall.

Section store.
Context (sha256 : list byte → list byte) (torn : list byte → list byte) (kept : path → bool).
Context (MarshalMeta : RevisionMeta → list byte) (UnmarshalMeta : list byte → option RevisionMeta).
Context (MarshalEntry : ControlJournalEntry → list byte) (UnmarshalEntry : list byte → option ControlJournalEntry).
#[local] Abbreviation M := (Host.M disk agent_error).

(** ** System calls *)

Definition sys : M unit := ok ← call; check ok ErrCall.
Definition objects : M (gmap path (list byte)) := d ← peek; mret (objs d).
Definition put (p : path) (b : list byte) : M unit := modify (λ d, d <| objs := <[p := b]> (objs d) |>).
Definition unput (p : path) : M unit := modify (λ d, d <| objs := delete p (objs d) |>).

(** The next element of a list of the host, or [x]. *)
Definition next_of {A} (f : disk → list A) (g : list A → disk → disk) (x : A) : M A := λ h,
  match f (st h) with [] => (Done x, h) | y :: l => (Done y, mkHost (g l (st h)) (future h)) end.

Definition Now : M Z := next_of clock (λ l d, d <| clock := l |>) 0.
Definition draw : M gostring := next_of draws (λ l d, d <| draws := l |>) [].
Definition missed : M bool := next_of misses (λ l d, d <| misses := l |>) false.

(** [os.Lstat]: is there something? Any error says no. *)
Definition lstat (p : path) : M bool := _ ← call; miss ← missed; m ← objects; mret (negb miss && bool_decide (is_Some (m !! p))).

Definition readFile (p : path) : M (list byte) :=
  _ ← sys; m ← objects; match m !! p with Some b => mret b | None => fail ErrNotExist end.

Definition remove (p : path) : M unit :=
  _ ← sys; m ← objects; match m !! p with Some _ => unput p | None => fail ErrNotExist end.

Definition ignore {A} (m : M A) : M unit := _ ← attempt m; mret ().

(** [os.WriteFile]: in place. *)
Definition writeFile (p : path) (b : list byte) : M unit := _ ← sys; _ ← put p []; _ ← put p (torn b); _ ← sys; put p b.

(** A temporary file that must not exist, a write, a sync, a close and a rename; the file is closed again, and
    removed after an error. *)
Definition replaceSteps (t p : path) (b : list byte) : M unit :=
  _ ← put t (torn b);
  _ ← sys;
  _ ← put t b;
  _ ← sys;
  _ ← sys;
  _ ← sys;
  modify (λ d, d <| objs := <[p := b]> (delete t (objs d)) |>).

Definition replaceFile (p : path) (b : list byte) : M unit :=
  d ← peek;
  let t := Tmp (pid d) p in
  _ ← sys;
  if decide (is_Some (objs d !! t)) then fail ErrCall
  else
    _ ← put t [];
    r ← attempt (replaceSteps t p b);
    _ ← call;
    match r with Ok _ => mret () | Err e => _ ← ignore (remove t); fail e end.

(** ** The revision store *)

Definition checkNotSymlink (p : path) : M unit :=
  ok ← call; m ← objects; if negb ok then fail ErrStorePath else if decide (is_Some (m !! p)) then mret () else fail ErrNotExist.

Definition checkDir : M unit := _ ← sys; mret ().

Definition atomicWriteFile (p : path) (b : list byte) : M unit :=
  r ← attempt (checkNotSymlink p);
  _ ← match r with Err ErrNotExist | Ok _ => mret () | Err e => fail e end;
  _ ← checkDir;
  replaceFile p b.

Definition readPointer (p : path) : M gostring :=
  r ← attempt (readFile p);
  match r with
  | Err ErrNotExist => mret []
  | Err e => fail e
  | Ok data => let id := TrimSpace data in
               if negb (streqb id []) && negb (validateStoreToken id) then fail ErrStorePath else mret id
  end.

Definition writePointer (p : path) (id : gostring) : M unit :=
  if negb (streqb id []) && negb (validateStoreToken id) then fail ErrStorePath else atomicWriteFile p id.

Definition IsFrozen : M bool := lstat KillSwitch.
Definition Freeze : M unit := atomicWriteFile KillSwitch (lit "frozen" ++ [x0a]).
Definition Unfreeze : M unit :=
  r ← attempt (remove KillSwitch); match r with Ok _ | Err ErrNotExist => mret () | Err e => fail e end.

Definition NewRevisionID : M gostring :=
  _ ← sys; s ← draw; t ← Now; mret (lit "r-" ++ yyyymmdd t ++ lit "-" ++ s).

Definition ensureDir (id : gostring) (files : bool) : M unit :=
  ok ← call;
  d ← peek;
  if decide (ok = true ∧ (id, files) ∈ dirs d) then mret ()
  else _ ← sys; _ ← modify (λ d, d <| dirs := {[ (id, files) ]} ∪ dirs d |>); sys.

Definition HashFile (p : path) : M gostring := _ ← checkNotSymlink p; b ← readFile p; mret (hexEncode (sha256 b)).

Definition rel_ok (rel : gostring) : bool :=
  negb (streqb rel [] || has_prefix (lit "/") rel || streqb rel (lit ".") || streqb rel (lit "..") || has_char x2f rel).

(** The copy of [src] at [dst rel], through a temporary file with a random name. *)
Definition copySteps (t p src : path) (b : list byte) : M unit :=
  _ ← put t (torn b);
  _ ← sys;
  _ ← put t b;
  _ ← sys;
  _ ← sys;
  _ ← sys;
  modify (λ d, d <| objs := <[p := b]> (delete t (objs d)) |>).

Definition copyFileVerified (dst : gostring → path) (rel : gostring) (src : path) : M unit :=
  if negb (rel_ok rel) then fail ErrStorePath
  else
    _ ← checkNotSymlink src;
    _ ← checkDir;
    b ← readFile src;
    _ ← sys;
    s ← draw;
    _ ← sys;
    d ← peek;
    let t := lit ".tmp-" ++ Itoa (pid d) ++ lit "-" ++ s in
    if decide (is_Some (objs d !! dst t)) then fail ErrCall
    else
      _ ← put (dst t) [];
      r ← attempt (copySteps (dst t) (dst rel) src b);
      _ ← match r with Ok _ => mret () | Err e => _ ← ignore (remove (dst t)); fail e end;
      x ← HashFile src;
      y ← HashFile (dst rel);
      if streqb x y then mret () else _ ← ignore (remove (dst rel)); fail ErrManifestTampered.

Fixpoint copyAll (dst : gostring → path) (files : list (gostring * path)) : M unit :=
  match files with [] => mret () | (rel, src) :: files => _ ← copyFileVerified dst rel src; copyAll dst files end.

Definition PreSnapshot (id : gostring) (files : list (gostring * path)) : M unit :=
  if negb (validateStoreToken id) then fail ErrStorePath else _ ← ensureDir id false; copyAll (Pre id) files.

Definition post_name (id : gostring) (p : path) : option gostring :=
  match p with Post i rel => if decide (i = id) then Some rel else None | _ => None end.
Definition pre_name (id : gostring) (p : path) : option gostring :=
  match p with Pre i rel => if decide (i = id) then Some rel else None | _ => None end.

(** [os.ReadDir]: the names, in their order. *)
Definition listing (f : path → option gostring) (m : gmap path (list byte)) : list gostring :=
  sortStrings (omap (λ kv, f (fst kv)) (map_to_list m)).

Fixpoint hashAll (id : gostring) (names : list gostring) : M (list (gostring * gostring)) :=
  match names with
  | [] => mret []
  | n :: names => h ← HashFile (Post id n); l ← hashAll id names; mret ((n, h) :: l)
  end.

Definition manifest_text (l : list (gostring * gostring)) : list byte := concat (map (λ x, manifest_line (snd x) (fst x)) l).
Definition manifestHash (data : list byte) : gostring := hexEncode (sha256 data).

Definition writeManifest (id : gostring) : M (gostring * gmap gostring gostring) :=
  _ ← sys;
  m ← objects;
  l ← hashAll id (listing (post_name id) m);
  _ ← atomicWriteFile (ManifestFile id) (manifest_text l);
  mret (manifestHash (manifest_text l), list_to_map l).

Definition Retention : nat := 10.

(** The revisions, in the order of their names. *)
Definition revision_ids (d : gset (gostring * bool)) : list gostring := sortStrings (elements (set_map fst d : gset gostring)).

Definition RevisionIDs : M (list gostring) := _ ← sys; d ← peek; mret (revision_ids (dirs d)).

(** A pointer that cannot be read protects nothing. *)
Definition RetainIDs : M (list gostring) :=
  h ← attempt (readPointer HeadFile);
  l ← attempt (readPointer LkgFile);
  mret (match h with Ok i => [i] | Err _ => [] end ++ match l with Ok i => [i] | Err _ => [] end).

Definition of_revision (id : gostring) (p : path) : bool :=
  match p with Pre i _ | Post i _ | ManifestFile i | MetaFile i => streqb i id | _ => false end.

(** [os.RemoveAll]: if it is cut short, [kept] says which files are still there. *)
Definition removeAll (id : gostring) : M unit :=
  _ ← modify (λ d, d <| objs := filter (λ kv, of_revision id (fst kv) = false ∨ kept (fst kv) = true) (objs d) |>);
  _ ← sys;
  modify (λ d, d <| objs := filter (λ kv, of_revision id (fst kv) = false) (objs d) |>
                 <| dirs := filter (λ x, fst x ≠ id) (dirs d) |>).

Fixpoint pruneLoop (retained drop : list gostring) : M unit :=
  match drop with
  | [] => mret ()
  | id :: drop => _ ← (if among id retained then mret () else removeAll id); pruneLoop retained drop
  end.

Definition Prune : M unit :=
  ids ← RevisionIDs;
  if (length ids <=? Retention)%nat then mret ()
  else retained ← RetainIDs; pruneLoop retained (take (length ids - Retention) ids).

Definition CommitRevision (meta : RevisionMeta) (files : list (gostring * path)) (parent : gostring) : M unit :=
  if negb (validateStoreToken (m_ID meta)) then fail ErrStorePath
  else
    let meta := meta <| m_Parent := parent |> in
    meta ← match m_Timestamp meta with Some _ => mret meta | None => t ← Now; mret (meta <| m_Timestamp := Some t |>) end;
    _ ← ensureDir (m_ID meta) true;
    _ ← copyAll (Post (m_ID meta)) files;
    w ← writeManifest (m_ID meta);
    let meta := meta <| m_Manifest := fst w |> <| FileHashes := snd w ∪ (list_to_map (map (λ f, (fst f, [])) files) ∪ FileHashes meta) |> in
    _ ← atomicWriteFile (MetaFile (m_ID meta)) (MarshalMeta meta ++ [x0a]);
    _ ← writePointer HeadFile (m_ID meta);
    Prune.

Definition loadMeta (id : gostring) : M RevisionMeta :=
  if negb (validateStoreToken id) then fail ErrStorePath
  else
    data ← readFile (MetaFile id);
    match UnmarshalMeta data with
    | None => fail ErrManifestTampered
    | Some m => if streqb (m_ID m) id && negb (streqb (m_Manifest m) []) then mret m else fail ErrManifestTampered
    end.

Fixpoint verifyFiles (id : gostring) (l : list (gostring * gostring)) : M unit :=
  match l with
  | [] => mret ()
  | (rel, want) :: l =>
      r ← attempt (HashFile (Post id rel));
      match r with
      | Err _ => fail ErrManifestTampered
      | Ok h => if streqb h want then verifyFiles id l else fail ErrManifestTampered
      end
  end.

(** The metadata and the names of the files; they are in files/. *)
Definition LoadRevision (id : gostring) : M (RevisionMeta * list gostring) :=
  m ← loadMeta id;
  data ← readFile (ManifestFile id);
  if negb (streqb (manifestHash data) (m_Manifest m)) then fail ErrManifestTampered
  else match parseManifest data with
       | None => fail ErrManifestTampered
       | Some hashes => _ ← verifyFiles id (map_to_list hashes); mret (m, map fst (map_to_list hashes))
       end.

Definition LoadPreCopies (id : gostring) : M (list gostring) :=
  if negb (validateStoreToken id) then fail ErrStorePath
  else _ ← sys; d ← peek;
       if decide ((id, false) ∈ dirs d) then mret (listing (pre_name id) (objs d)) else fail ErrNotExist.

Definition PromoteLKG (id : gostring) : M unit := writePointer LkgFile id.

Definition RoleOfRevision (id : gostring) : M gostring :=
  m ← LoadRevision id; if known (m_Role (fst m)) then mret (m_Role (fst m)) else fail ErrManifestTampered.

(** ** The journal *)

Definition entry_ok (j : ControlJournalEntry) : bool := known (j_Role j) && validateStoreToken (j_Revision j).

Definition known_state (s : gostring) : bool :=
  among s [[]; JournalPrepared; JournalSwapped; JournalRestarted; JournalVerified; JournalRollingBack; JournalRolledBack].

Definition writeJournal (j : ControlJournalEntry) : M unit :=
  if negb (entry_ok j) then fail ErrCall
  else _ ← sys; _ ← sys; replaceFile JournalFile (MarshalEntry j ++ [x0a]).

(** [None]: nothing is in flight. *)
Definition readJournal : M (option ControlJournalEntry) :=
  r ← attempt (readFile JournalFile);
  match r with
  | Err ErrNotExist => mret None
  | Err e => fail e
  | Ok data => match UnmarshalEntry data with
               | None => fail ErrManifestTampered
               | Some j => if known_state (j_State j) then mret (Some j) else fail ErrManifestTampered
               end
  end.

Definition clearJournal : M unit := ignore (remove JournalFile).

Definition journalState (s : gostring) : M unit :=
  r ← attempt readJournal;
  match r with Ok (Some j) => ignore (writeJournal (j <| j_State := s |>)) | _ => mret () end.

(** ** The seam: the live environment file and the splitter (control.go) *)

Definition LiveFile (role : gostring) : M (option path) := ok ← lstat (Live role); mret (if ok : bool then Some (Live role) else None).

(** [baseName] of the live file. *)
Definition live_name (role : gostring) : gostring := role ++ lit ".env".

Definition BaseEnv (role : gostring) : M env :=
  p ← LiveFile role; match p with None => mret ∅ | Some p => b ← readFile p; mret (parseEnvFile b) end.

(** The error is dropped: the environment is then empty. *)
Definition baseEnv (role : gostring) : M env := r ← attempt (BaseEnv role); mret (match r with Ok e => e | Err _ => ∅ end).

Definition WriteCandidate (role : gostring) (base override : env) : M path :=
  _ ← call; _ ← replaceFile (Cand role) (renderEnv (mcMerge base override)); mret (Cand role).

Definition SeamValidate (cand : path) : M unit := ok ← lstat cand; check ok ErrCall.

Definition BackupFile (role : gostring) (live : path) : M unit := b ← readFile live; writeFile (Backup role) b.

Definition SwapFile (cand live : path) : M unit := b ← readFile cand; replaceFile live b.

Definition RestoreFile (live backup : path) : M unit := b ← readFile backup; writeFile live b.

(** systemctl restart, and the wait until the unit is quiet. *)
Definition RestartService (role : gostring) : M unit :=
  _ ← modify (λ d, d <| running := <[role := None]> (running d) |>);
  _ ← sys;
  _ ← modify (λ d, d <| running := <[role := objs d !! Live role]> (running d) |>);
  sys.

Definition Verify (role : gostring) : M unit := sys.
End store.
