(* ===== verification/AgentApply.v ===== *)
(** * The control agent's transactions (src/internal/controlagent: agent.go, c4.go, audit.go)

    An apply takes the lock, refuses while a journal is in flight, the kill
    switch is set or the rate limit is reached, validates, snapshots the live
    file, renders a candidate, swaps it in, restarts, verifies and commits; a
    failure after the swap puts the snapshot back.  The C2 and the C4 engine
    share these steps.  [RecoverOnStart] resolves what a crash left.

    The faults of the tests are the failures of [Host]; the socket, the JSON of
    a frame, the texts of errors and the change id of a journal that is rejected
    are left out.  The Xray gate is an interface
    ([XrayGate]); the production agent has none. *)
From S2P Require Import Pairing.
From S2P Require Export AgentStore.
#[local] Open Scope Z_scope.

#[local] Abbreviation M := (Host.M disk agent_error).

(** ** Audit (audit.go) *)

Record AuditEntry := mkAudit {
  Seq : Z; TS : Z; Actor : gostring; Concept : gostring; a_ChangeID : gostring; RevTo : gostring; Diff : list DiffEntry;
  a_Outcome : gostring; a_PrevHash : gostring; Hash : gostring
}.
#[export] Instance AuditEntry_expandable : Expandable AuditEntry := {| expand := λ e,
  mkAudit (Seq e) (TS e) (Actor e) (Concept e) (a_ChangeID e) (RevTo e) (Diff e) (a_Outcome e) (a_PrevHash e) (Hash e) |}.

Definition redactSubstrings : list gostring := map lit ["secret"; "password"; "private"; "token"]%string.
Definition secretNameFragments : list gostring := map lit ["secret"; "password"; "token"; "credential"; "private"; "socks"]%string.

(** ** Codes *)

Inductive code :=
  NoCode | ErrCodeValidation | ErrCodeFrozen | ErrCodeApplyInProgress | ErrCodeStaleBase | ErrCodeIdempotency | ErrCodeRateLimited
| ErrCodeRecoveryRequired | ErrCodeInternal | ErrCodeXrayGateNotConfigured | ErrCodeConfigTestFailed.

Record ApplyOp := mkApply { Change : CandidateChange; IdempotencyKey : gostring; op_Actor : gostring }.

Definition noResult : TxResult := mkResult [] [] [].

(** ** The Xray gate *)

Class XrayGate := {
  RenderXrayForMC : gostring → env → M gostring;
  ConfigTest : gostring → gostring → M unit;
  RestartXray : gostring → M unit;
  VerifyXray : gostring → M unit
}.

(** A prepared transaction; [p_live]: was there a live file. *)
Record c4Prepared := mkPrepared {
  p_op : ApplyOp; p_concept : c4Concept; p_revID : gostring; p_parent : gostring; p_cand : path;
  p_xrayCand : gostring; p_xrayAffected : bool
}.

Inductive RecoveryOutcome := RecoveryNothing | RecoveryTamper | RecoveryNoChange | RecoveryRollback | RecoveryCommit | RecoveryNeeded.

Definition outcome_text (o : RecoveryOutcome) : gostring :=
  lit match o with
      | RecoveryNothing => "no-in-flight" | RecoveryTamper => "tamper-recovery-required" | RecoveryNoChange => "recovered_no_change"
      | RecoveryRollback => "recovered_rollback" | RecoveryCommit => "recovered_commit" | RecoveryNeeded => "recovery-required"
      end%string.

Inductive reply := ReplyOk (r : TxResult) | ReplyErr (c : code).

Section agent.
Context (unicode_lower : gostring → gostring) (sha256 : list byte → list byte) (LoadRulesFile : gostring → bool).
Context (torn : list byte → list byte) (kept : path → bool) (pick : list gostring → gostring).
Context (MarshalMeta : RevisionMeta → list byte) (UnmarshalMeta : list byte → option RevisionMeta).
Context (MarshalEntry : ControlJournalEntry → list byte) (UnmarshalEntry : list byte → option ControlJournalEntry).
Context (MarshalAudit : AuditEntry → list byte).
Context (ServiceActive : option (gostring → M (bool * bool))) (gate : option XrayGate).

#[local] Abbreviation BuildDiff' := (BuildDiff unicode_lower sha256).
#[local] Abbreviation HashFile' := (HashFile sha256).
#[local] Abbreviation readJournal' := (readJournal UnmarshalEntry).
#[local] Abbreviation writeJournal' := (writeJournal torn MarshalEntry).
#[local] Abbreviation journalState' := (journalState torn MarshalEntry UnmarshalEntry).
#[local] Abbreviation CommitRevision' := (CommitRevision sha256 torn kept MarshalMeta).
#[local] Abbreviation LoadRevision' := (LoadRevision sha256 UnmarshalMeta).

(** ** Recording *)

(** Whether an entry may be written. *)
Definition redactionCheck (l : list DiffEntry) : bool :=
  forallb (λ d, Redacted d
    || negb (named_like unicode_lower secretNameFragments (d_Key d)
             || existsb (λ sub, contains sub (to_lower unicode_lower (Before d)) || contains sub (to_lower unicode_lower (After d))) redactSubstrings)) l.

(** The number is spent even if the entry is refused, and the link even if it is not written. *)
Definition recordLocked (e : AuditEntry) : M unit :=
  _ ← modify (λ d, d <| mem := (mem d) <| audit_seq := audit_seq (mem d) + 1 |> |>);
  t ← Now;
  d ← peek;
  let e := e <| Seq := audit_seq (mem d) |> <| TS := t |> <| a_PrevHash := audit_last (mem d) |> <| Hash := [] |> in
  if negb (redactionCheck (Diff e)) then fail ErrCall
  else
    let e := e <| Hash := hexEncode (sha256 (MarshalAudit e)) |> in
    _ ← modify (λ d, d <| mem := (mem d) <| audit_last := Hash e |> |>);
    _ ← sys;
    _ ← sys;
    let line := MarshalAudit e ++ [x0a] in
    m ← objects;
    let old := default [] (m !! AuditFile) in
    _ ← put AuditFile (old ++ torn line);
    _ ← sys;
    _ ← put AuditFile (old ++ line);
    sys.

(** The callers drop the error. *)
Definition Record_ (e : AuditEntry) : M unit := ignore (recordLocked e).

Definition entry (actor concept change revTo outcome : gostring) (diff : list DiffEntry) : AuditEntry :=
  mkAudit 0 0 actor concept change revTo diff outcome [] [].

(** ** Lock and limits *)

Definition onMem (f : memory → memory) : M unit := modify (λ d, d <| mem := f (mem d) |>).

(** [TryLock] *)
Definition acquireApplyLock : M bool :=
  d ← peek; if locked (mem d) then mret false else _ ← onMem (λ m, m <| locked := true |>); mret true.
Definition releaseApplyLock : M unit := onMem (λ m, m <| locked := false |>).

Definition allowShort (now : Z) : M bool :=
  d ← peek; _ ← onMem (λ m, m <| rlShort := snd (AllowApply now (rlShort m)) |>); mret (fst (fst (AllowApply now (rlShort (mem d))))).
Definition allowLong (now : Z) : M bool :=
  d ← peek; _ ← onMem (λ m, m <| rlLong := snd (AllowApply now (rlLong m)) |>); mret (fst (fst (AllowApply now (rlLong (mem d))))).

(** ** Rolling back *)

(** [rollback] is this with no change to Xray. *)
Definition rollbackC4 (role revID parent : gostring) (xray : bool) : M gostring :=
  _ ← journalState' JournalRollingBack;
  pre ← attempt (LoadPreCopies revID);
  match pre with
  | Err _ => mret (lit "recovery-required")
  | Ok pre =>
      live ← LiveFile role;
      r ← attempt match live with
                  | None => mret ()
                  | Some live => if (length pre =? 0)%nat then fail ErrCall else RestoreFile torn live (Pre revID (pick pre))
                  end;
      match r with
      | Err _ => mret (lit "recovery-required")
      | Ok _ =>
          r ← attempt (RestartService role);
          match r with
          | Err _ => mret (lit "recovery-required")
          | Ok _ =>
              r ← attempt match gate with Some g => if xray then RestartXray role else mret () | None => mret () end;
              match r with
              | Err _ => mret (lit "recovery-required")
              | Ok _ =>
                  _ ← ignore (writePointer torn HeadFile parent);
                  _ ← journalState' JournalRolledBack;
                  _ ← clearJournal;
                  mret (lit "rolled-back")
              end
          end
      end
  end.

Definition rollback (role revID parent : gostring) : M gostring := rollbackC4 role revID parent false.

(** ** The write phase: F11 to F15 *)

(** Nothing is done for Xray unless the change affects it. *)
Definition withGate (xray : bool) (f : XrayGate → M unit) : M unit :=
  if xray then match gate with Some g => f g | None => fail ErrCall end else mret ().

(** The swap and what follows, up to the commit. *)
Definition swapAndCommit (role revID parent : gostring) (cand : path) (live : option path) (xray : bool) (meta : RevisionMeta) : M unit :=
  _ ← match live with None => mret () | Some live => SwapFile torn cand live end;
  _ ← journalState' JournalSwapped;
  _ ← RestartService role;
  _ ← journalState' JournalRestarted;
  _ ← withGate xray (λ g, RestartXray role);
  _ ← Verify role;
  _ ← withGate xray (λ g, VerifyXray role);
  _ ← journalState' JournalVerified;
  CommitRevision' meta [(match live with Some _ => live_name role | None => lit "env" end, cand)] parent.

Definition writePhase (role revID parent : gostring) (cand : path) (live : option path) (xray : bool) (meta : RevisionMeta)
  (unsaved : gostring) : M (TxResult * code) :=
  r ← attempt match live with None => mret () | Some live => BackupFile torn role live end;
  match r with
  | Err _ => _ ← clearJournal; mret (mkResult unsaved [] [], ErrCodeInternal)
  | Ok _ =>
      r ← attempt (swapAndCommit role revID parent cand live xray meta);
      match r with
      | Err _ => o ← rollbackC4 role revID parent xray; mret (mkResult o [] [], NoCode)
      | Ok _ =>
          _ ← clearJournal;
          _ ← (if streqb parent [] then mret () else ignore (PromoteLKG torn parent));
          t ← Now;
          _ ← onMem (λ m, m <| rlShort := RecordApply t (rlShort m) |>);
          t ← Now;
          _ ← onMem (λ m, m <| rlLong := RecordApply t (rlLong m) |>);
          mret (mkResult (lit "committed") revID parent, NoCode)
      end
  end.

(** ** The C2 apply (agent.go) *)

Definition no_errors (l : list change_error) : bool := match l with [] => true | _ => false end.

(** A change without an id gets one. *)
Definition mint (prefix id : gostring) : M gostring :=
  if streqb id [] then _ ← call; s ← draw; mret (prefix ++ s) else mret id.

Definition refuse (c : code) : M (TxResult * code) := mret (noResult, c).

Definition live_hash (live : option path) : M gostring :=
  match live with None => mret [] | Some p => r ← attempt (HashFile' p); mret (match r with Ok h => h | Err _ => [] end) end.

Definition snapshot_of (role : gostring) (live : option path) : list (gostring * path) :=
  match live with None => [] | Some p => [(live_name role, p)] end.

(** From F7 on: [head] is the parent, [revID] the new revision. *)
Definition applyRevision (op : ApplyOp) (changeID head revID : gostring) : M (TxResult * code) :=
  let role := cc_Role (Change op) in
  live ← LiveFile role;
  r ← attempt (PreSnapshot sha256 torn revID (snapshot_of role live));
  match r with
  | Err _ => refuse ErrCodeInternal
  | Ok _ =>
      preHash ← live_hash live;
      r ← attempt (writeJournal' (mkEntry changeID role JournalPrepared revID head preHash [] [] false));
      match r with
      | Err _ => refuse ErrCodeInternal
      | Ok _ =>
          base ← baseEnv role;
          r ← attempt (WriteCandidate torn role base (cc_Set (Change op)));
          match r with
          | Err _ => _ ← clearJournal; refuse ErrCodeValidation
          | Ok cand =>
              j ← attempt readJournal';
              _ ← match j with
                  | Ok (Some j) =>
                      r ← attempt (HashFile' cand);
                      ignore (writeJournal' (j <| NewHash := match r with Ok h => h | Err _ => [] end |>))
                  | _ => mret ()
                  end;
              r ← attempt (SeamValidate cand);
              match r with
              | Err _ => _ ← clearJournal; refuse ErrCodeValidation
              | Ok _ =>
                  writePhase role revID head cand live false
                    (mkMeta revID head changeID (op_Actor op) role (lit "splitter-policy") None (lit "committed") [] [] ∅) []
              end
          end
      end
  end.

(** F2 to F6; with the change id, which is made up if there is none. *)
Definition runLocked (op : ApplyOp) : M (TxResult * code * gostring) :=
  let c := Change op in
  let refuse code := mret (noResult, code, ChangeID c) in
  j ← attempt readJournal';
  match j with
  | Err _ | Ok (Some _) => refuse ErrCodeRecoveryRequired
  | Ok None =>
      frozen ← IsFrozen;
      if frozen : bool then refuse ErrCodeFrozen
      else
        now ← Now;
        ok ← allowShort now;
        if negb ok then refuse ErrCodeRateLimited
        else
          ok ← allowLong now;
          if negb ok then refuse ErrCodeRateLimited
          else if negb (no_errors (fst (ValidateCandidate unicode_lower defaultConfigBuilder (cc_Role c) (cc_Set c)))) then refuse ErrCodeValidation
          else
            h ← attempt (readPointer HeadFile);
            let head := match h with Ok i => i | Err _ => [] end in
            if negb (streqb (BaseRevision c) []) && negb (streqb (BaseRevision c) head) then refuse ErrCodeStaleBase
            else
              changeID ← mint (lit "c-") (ChangeID c);
              r ← attempt NewRevisionID;
              match r with
              | Err _ => mret (noResult, ErrCodeInternal, changeID)
              | Ok revID => r ← applyRevision op changeID head revID; mret (r, changeID)
              end
  end.

(** The lock is released before the audit entry is written. *)
Definition runApply (op : ApplyOp) : M (TxResult * code) :=
  let c := Change op in
  ok ← acquireApplyLock;
  r ← (if ok : bool then r ← runLocked op; _ ← releaseApplyLock; mret r else mret (noResult, ErrCodeApplyInProgress, ChangeID c));
  base ← baseEnv (cc_Role c);
  let res := fst (fst r) in
  _ ← Record_ (entry (op_Actor op) (lit "splitter-policy") (snd r) (RevisionID res) (Outcome res) (BuildDiff' base (cc_Set c)));
  mret (fst r).

(** ** Requests and replays *)

Definition set_names (m : env) : list gostring := sortStrings (map fst (map_to_list m)).
Definition idempotencyHash (prefix : gostring) (c : CandidateChange) : gostring :=
  hexEncode (sha256 (hash_input prefix (set_names (cc_Set c)) c)).

(** What is known under a key: nothing, a result, or another request. *)
Definition idempotencyLookup (prefix key : gostring) (c : CandidateChange) (m : gmap gostring (gostring * TxResult)) : option (option TxResult) :=
  if streqb key [] then None
  else match m !! key with
       | None => None
       | Some (h, r) => if streqb h (idempotencyHash prefix c) then Some (Some r) else Some None
       end.

Definition idempotencyStore (prefix key : gostring) (c : CandidateChange) (r : TxResult) (m : gmap gostring (gostring * TxResult))
  : gmap gostring (gostring * TxResult) := if streqb key [] then m else <[key := (idempotencyHash prefix c, r)]> m.

(** ** The C4 engine (c4.go) *)

Definition recordC4Audit (op : ApplyOp) (c : c4Concept) (changeID revTo outcome : gostring) : M unit :=
  base ← baseEnv (cc_Role (Change op));
  Record_ (entry (op_Actor op) (concept_name c) changeID revTo outcome
    (BuildC4Diff unicode_lower sha256 base (cc_Set (Change op)) (concept_allowed c))).

Definition prepared : Type := option c4Prepared * TxResult * code.

(** [fail] of PrepareC4; the journal goes with it. *)
Definition failC4 (op : ApplyOp) (c : c4Concept) (changeID outcome : gostring) (e : code) : M prepared :=
  _ ← clearJournal;
  _ ← releaseApplyLock;
  _ ← recordC4Audit op c changeID [] outcome;
  mret (None, mkResult outcome [] [], e).

(** The three returns that write out what [fail] does, without the journal. *)
Definition internalC4 (op : ApplyOp) (c : c4Concept) (changeID : gostring) : M prepared :=
  _ ← releaseApplyLock;
  _ ← recordC4Audit op c changeID [] (lit "internal");
  mret (None, mkResult (lit "internal") [] [], ErrCodeInternal).

(** The gate's part of the prepare: the Xray candidate, or how the prepare ends. *)
Definition xrayGate (op : ApplyOp) (c : c4Concept) (changeID : gostring) (base : env) (xray : bool) : M (res prepared gostring) :=
  let role := cc_Role (Change op) in
  if negb xray then mret (Ok [])
  else match gate with
       | None => r ← failC4 op c changeID (lit "xray-gate-unavailable") ErrCodeXrayGateNotConfigured; mret (Err r)
       | Some g =>
           r ← attempt (RenderXrayForMC role (mcMerge base (cc_Set (Change op))));
           match r with
           | Err _ => r ← failC4 op c changeID (lit "xray-gate-failed") ErrCodeValidation; mret (Err r)
           | Ok xrayCand =>
               r ← attempt (ConfigTest role xrayCand);
               match r with
               | Err _ => r ← failC4 op c changeID (lit "config-test-failed") ErrCodeConfigTestFailed; mret (Err r)
               | Ok _ => mret (Ok xrayCand)
               end
           end
       end.

(** From F7 on. *)
Definition prepareRevision (op : ApplyOp) (c : c4Concept) (changeID head revID : gostring) (base : env) : M prepared :=
  let role := cc_Role (Change op) in
  live ← LiveFile role;
  r ← attempt (PreSnapshot sha256 torn revID (snapshot_of role live));
  match r with
  | Err _ => internalC4 op c changeID
  | Ok _ =>
      preHash ← live_hash live;
      let xray := xrayAffected c base (cc_Set (Change op)) in
      r ← attempt (WriteCandidate torn role base (cc_Set (Change op)));
      match r with
      | Err _ => failC4 op c changeID (lit "render-failed") ErrCodeValidation
      | Ok cand =>
          r ← attempt (SeamValidate cand);
          match r with
          | Err _ => failC4 op c changeID (lit "validate-failed") ErrCodeValidation
          | Ok _ =>
              x ← xrayGate op c changeID base xray;
              match x with
              | Err r => mret r
              | Ok xrayCand =>
                  h ← attempt (HashFile' cand);
                  let newHash := match h with Ok h => h | Err _ => [] end in
                  r ← attempt (writeJournal' (mkEntry changeID role JournalPrepared revID head preHash newHash xrayCand xray));
                  match r with
                  | Err _ => failC4 op c changeID (lit "internal") ErrCodeInternal
                  | Ok _ => mret (Some (mkPrepared (mkApply ((Change op) <| ChangeID := changeID |>) (IdempotencyKey op) (op_Actor op))
                                          c revID head cand xrayCand xray),
                                  mkResult (lit "prepared") revID head, NoCode)
                  end
              end
          end
      end
  end.

(** The lock is kept when the prepare succeeds. *)
Definition PrepareC4 (op : ApplyOp) (c : c4Concept) : M prepared :=
  let ch := Change op in
  let role := cc_Role ch in
  ok ← acquireApplyLock;
  if negb ok then mret (None, mkResult (lit "refused") [] [], ErrCodeApplyInProgress)
  else
    j ← attempt readJournal';
    match j with
    | Err _ | Ok (Some _) => failC4 op c (ChangeID ch) (lit "recovery-required") ErrCodeRecoveryRequired
    | Ok None =>
        frozen ← IsFrozen;
        if frozen : bool then failC4 op c (ChangeID ch) (lit "frozen") ErrCodeFrozen
        else
          now ← Now;
          ok ← allowShort now;
          if negb ok then failC4 op c (ChangeID ch) (lit "rate-limited") ErrCodeRateLimited
          else
            ok ← allowLong now;
            if negb ok then failC4 op c (ChangeID ch) (lit "rate-limited") ErrCodeRateLimited
            else
              base ← baseEnv role;
              if negb (no_errors (concept_validate c role (cc_Set ch) base)) then failC4 op c (ChangeID ch) (lit "validation-failed") ErrCodeValidation
              else
                h ← attempt (readPointer HeadFile);
                let head := match h with Ok i => i | Err _ => [] end in
                if negb (streqb (BaseRevision ch) []) && negb (streqb (BaseRevision ch) head)
                then failC4 op c (ChangeID ch) (lit "stale-base") ErrCodeStaleBase
                else
                  changeID ← mint (lit "c4-") (ChangeID ch);
                  r ← attempt NewRevisionID;
                  match r with
                  | Err _ => internalC4 op c changeID
                  | Ok revID => prepareRevision op c changeID head revID base
                  end
    end.

(** What is recorded of a commit does not yet name the revision. *)
Definition CommitC4 (p : c4Prepared) : M (TxResult * code) :=
  let op := p_op p in
  let role := cc_Role (Change op) in
  live ← LiveFile role;
  r ← writePhase role (p_revID p) (p_parent p) (p_cand p) live (p_xrayAffected p)
        (mkMeta (p_revID p) (p_parent p) (ChangeID (Change op)) (op_Actor op) role (concept_name (p_concept p)) None (lit "committed") [] [] ∅)
        (lit "internal");
  _ ← releaseApplyLock;
  _ ← recordC4Audit op (p_concept p) (ChangeID (Change op)) [] (Outcome (fst r));
  mret r.

Definition AbortC4 (p : c4Prepared) : M TxResult :=
  _ ← clearJournal;
  _ ← ignore (remove (p_cand p));
  _ ← (if streqb (p_xrayCand p) [] then mret () else _ ← call; mret ());
  _ ← releaseApplyLock;
  _ ← recordC4Audit (p_op p) (p_concept p) (ChangeID (Change (p_op p))) (p_revID p) (lit "aborted");
  mret (mkResult (lit "aborted") (p_revID p) (p_parent p)).

Definition runC4Apply (op : ApplyOp) (c : c4Concept) : M (TxResult * code) :=
  r ← PrepareC4 op c;
  match r with
  | (Some p, _, NoCode) => CommitC4 p
  | (_, res, e) => mret (res, e)
  end.

Definition opC4Apply (op : ApplyOp) (c : c4Concept) : M reply :=
  d ← peek;
  match idempotencyLookup (lit "c4|") (IdempotencyKey op) (Change op) (idemC4 (mem d)) with
  | Some None => mret (ReplyErr ErrCodeIdempotency)
  | Some (Some r) => mret (ReplyOk r)
  | None =>
      r ← runC4Apply op c;
      _ ← onMem (λ m, m <| idemC4 := idempotencyStore (lit "c4|") (IdempotencyKey op) (Change op) (fst r) (idemC4 m) |>);
      mret (match snd r with NoCode => ReplyOk (fst r) | c => ReplyErr c end)
  end.

(** ** The last known good revision (agent.go) *)

Definition revertLKG : M (TxResult * code) :=
  let failed := mret (noResult, ErrCodeInternal) in
  l ← attempt (readPointer LkgFile);
  match l with
  | Err _ | Ok [] => failed
  | Ok lkg =>
      r ← attempt (RoleOfRevision sha256 UnmarshalMeta lkg);
      match r with
      | Err _ => failed
      | Ok role =>
          r ← attempt (LoadRevision' lkg);
          match r with
          | Err _ | Ok (_, []) => failed
          | Ok (_, files) =>
              live ← LiveFile role;
              r ← attempt (_ ← match live with None => _ ← call; fail ErrCall | Some live => RestoreFile torn live (Post lkg (pick files)) end;
                           _ ← RestartService role;
                           _ ← Verify role;
                           writePointer torn HeadFile lkg);
              match r with Err _ => failed | Ok _ => mret (mkResult (lit "rolled-back-lkg") lkg [], NoCode) end
          end
      end
  end.

Definition rollbackLKG : M (TxResult * code) :=
  ok ← acquireApplyLock;
  if negb ok then refuse ErrCodeApplyInProgress else r ← revertLKG; _ ← releaseApplyLock; mret r.

(** ** Recovery (agent.go) *)

Definition restoreFromPre (revID role : gostring) : M unit :=
  pre ← LoadPreCopies revID;
  live ← LiveFile role;
  match live with
  | None => mret ()
  | Some live => if (length pre =? 0)%nat then mret () else RestoreFile torn live (Pre revID (pick pre))
  end.

Definition restartAndVerify (role : gostring) : M unit := _ ← RestartService role; Verify role.

Definition restartIfNotActive (role : gostring) : M unit :=
  active ← match ServiceActive with None => mret false | Some f => r ← f role; mret (fst r && snd r) end;
  if active : bool then mret () else RestartService role.

Definition commitRecovered (e : ControlJournalEntry) : M unit :=
  live ← LiveFile (j_Role e);
  match live with
  | None => fail ErrCall
  | Some live =>
      r ← attempt (LoadRevision' (j_Revision e));
      let meta := match r with
                  | Ok (m, _) => m
                  | Err _ => mkMeta (j_Revision e) (j_Parent e) (j_ChangeID e) [] (j_Role e) (lit "splitter-policy") None (lit "committed") [] [] ∅
                  end in
      _ ← CommitRevision' meta [(live_name (j_Role e), live)] (j_Parent e);
      _ ← (if streqb (j_Parent e) [] then mret () else ignore (PromoteLKG torn (j_Parent e)));
      clearJournal
  end.

(** Back to the snapshot; [RecoveryNeeded] when a step fails. *)
Definition goBack (e : ControlJournalEntry) : M RecoveryOutcome :=
  r ← attempt (_ ← restoreFromPre (j_Revision e) (j_Role e); restartAndVerify (j_Role e));
  match r with Err _ => mret RecoveryNeeded | Ok _ => _ ← clearJournal; mret RecoveryRollback end.

Definition goOn (e : ControlJournalEntry) : M RecoveryOutcome :=
  r ← attempt (commitRecovered e); mret (match r with Err _ => RecoveryNeeded | Ok _ => RecoveryCommit end).

Definition noChange (m : M unit) : M RecoveryOutcome :=
  r ← attempt m; match r with Err _ => mret RecoveryNeeded | Ok _ => _ ← clearJournal; mret RecoveryNoChange end.

Definition resolveInFlight (e : ControlJournalEntry) : M RecoveryOutcome :=
  live ← LiveFile (j_Role e);
  liveHash ← live_hash live;
  let s := j_State e in
  if streqb s [] || streqb s JournalPrepared then
    if streqb liveHash (PreHash e) then _ ← clearJournal; mret RecoveryNoChange else goBack e
  else if streqb s JournalSwapped || streqb s JournalRestarted then
    if streqb liveHash (PreHash e) then noChange (restartIfNotActive (j_Role e))
    else if streqb liveHash (NewHash e) then
      r ← attempt (restartIfNotActive (j_Role e));
      match r with
      | Err _ => mret RecoveryNeeded
      | Ok _ => v ← attempt (Verify (j_Role e)); match v with Err _ => goBack e | Ok _ => goOn e end
      end
    else goBack e
  else if streqb s JournalVerified then
    if streqb liveHash (NewHash e) then goOn e else goBack e
  else noChange (restartAndVerify (j_Role e)).

Definition RecoverOnStart : M RecoveryOutcome :=
  j ← attempt readJournal';
  match j with
  | Err _ => _ ← Record_ (entry (lit "recovery") (lit "crash-recovery") [] [] (outcome_text RecoveryTamper) []); mret RecoveryTamper
  | Ok None => mret RecoveryNothing
  | Ok (Some e) =>
      o ← resolveInFlight e;
      _ ← Record_ (entry (lit "recovery") (lit "crash-recovery") (j_ChangeID e) (j_Revision e) (outcome_text o) []);
      mret o
  end.

Definition opApply (op : ApplyOp) : M reply :=
  d ← peek;
  match idempotencyLookup [] (IdempotencyKey op) (Change op) (idem (mem d)) with
  | Some None => mret (ReplyErr ErrCodeIdempotency)
  | Some (Some r) => mret (ReplyOk r)
  | None =>
      r ← runApply op;
      _ ← onMem (λ m, m <| idem := idempotencyStore [] (IdempotencyKey op) (Change op) (fst r) (idem m) |>);
      mret (match snd r with NoCode => ReplyOk (fst r) | c => ReplyErr c end)
  end.
End agent.
