(* ===== verification/AgentSafety.v ===== *)
(** * What the agent's operations leave behind

    How each system call, each operation of the store and each step of a
    transaction ends, whatever fails and wherever the process dies. *)
From S2P Require Import Pairing.
From S2P Require Export AgentApply.
#[local] Open Scope Z_scope.

#[local] Abbreviation host := (Host.host disk).
#[local] Abbreviation M := (Host.M disk agent_error).

(** ** Frames *)

(** Only files of [P] and their temporary files have changed, and no service was restarted. *)
Fixpoint within_tmp (P : path → Prop) (p : path) : Prop := P p ∨ match p with Tmp _ p => within_tmp P p | _ => False end.

Definition near (P : path → Prop) (d d' : disk) : Prop :=
  (∀ p, ¬ within_tmp P p → objs d' !! p = objs d !! p) ∧ running d' = running d ∧ dirs d ⊆ dirs d' ∧ pid d' = pid d ∧
  (misses d = [] → misses d' = []).

#[export] Instance near_preorder P : PreOrder (near P).
Proof.
  split; [by intros d|]. intros d1 d2 d3 (H1 & H2 & H3 & H4 & H5) (K1 & K2 & K3 & K4 & K5).
  split_and!; [|by rewrite K2|by etrans|by rewrite K4|auto]. intros p Hp. by rewrite K1, H1.
Qed.

Lemma near_within (P Q : path → Prop) d d' : near P d d' → (∀ p, P p → within_tmp Q p) → near Q d d'.
Proof.
  intros (H1 & H2 & H3 & H4 & H5) HPQ. split_and!; try done. intros p Hp. apply H1. intros HP. apply Hp. clear -HP HPQ.
  induction p; cbn in HP; try (by apply HPQ; destruct HP). destruct HP as [HP|HP]; [by apply HPQ|right; by apply IHp].
Qed.

Lemma near_put P p b d : within_tmp P p → near P d (d <| objs := <[p := b]> (objs d) |>).
Proof. intros HP. split_and!; try done. intros q Hq. apply lookup_insert_ne. by intros ->. Qed.

Lemma near_unput P p d : within_tmp P p → near P d (d <| objs := delete p (objs d) |>).
Proof. intros HP. split_and!; try done. intros q Hq. apply lookup_delete_ne. by intros ->. Qed.

Lemma within_here P p : P p → within_tmp P p.
Proof. destruct p; cbn; by left. Qed.

Lemma within_there P z p : P p → within_tmp P (Tmp z p).
Proof. intros HP. right. by apply within_here. Qed.

Create HintDb near.
#[export] Hint Resolve within_here within_there : near.

(** One step at a time; what is named in the hints is not unfolded. *)
Create HintDb near_ops.

Ltac frame_step :=
  lazymatch goal with
  | |- frames _ (_ ≫= _) => apply (frames_bind _); [|intros ?]
  | |- frames _ (mret _) => apply (frames_ret _)
  | |- frames _ (fail _) => apply (frames_fail _)
  | |- frames _ peek => apply (frames_peek _)
  | |- frames _ call => apply (frames_call _)
  | |- frames _ (check _ _) => apply (frames_check _)
  | |- frames _ (attempt _) => apply (frames_attempt _)
  | |- frames _ (match ?x with _ => _ end) => destruct x
  | |- frames _ (let _ := _ in _) => cbv zeta
  | |- frames _ _ => solve [eauto with near_ops near]
  end.
Ltac frame := repeat frame_step.

Section near.
Context (sha256 : list byte → list byte) (torn : list byte → list byte) (kept : path → bool).
Context (MarshalMeta : RevisionMeta → list byte) (UnmarshalMeta : list byte → option RevisionMeta).
Context (MarshalEntry : ControlJournalEntry → list byte) (UnmarshalEntry : list byte → option ControlJournalEntry).
Context (P : path → Prop).
#[local] Abbreviation R := (near P).

Lemma near_sys : frames R sys.
Proof. unfold sys. frame. Qed.

Lemma near_objects : frames R objects.
Proof. unfold objects. frame. Qed.

Lemma near_put_op p b : within_tmp P p → frames R (put p b).
Proof. intros. apply frames_modify. intros d. by apply near_put. Qed.

Lemma near_unput_op p : within_tmp P p → frames R (unput p).
Proof. intros. apply frames_modify. intros d. by apply near_unput. Qed.

Lemma near_next_of {A} (f : disk → list A) g x : (∀ l d, near P d (g l d)) → frames R (next_of f g x).
Proof. intros Hg h. unfold ends, next_of. destruct (f (st h)); cbn; [done|apply Hg]. Qed.

Lemma near_Now : frames R Now.
Proof. apply near_next_of. intros l d. by split_and!. Qed.

Lemma near_draw : frames R draw.
Proof. apply near_next_of. intros l d. by split_and!. Qed.

Lemma near_missed : frames R missed.
Proof.
  intros h. unfold ends, missed, next_of. destruct (misses (st h)) eqn:E; cbn; [done|]. split_and!; try done. by rewrite E.
Qed.

#[local] Hint Resolve near_sys near_objects near_put_op near_unput_op near_Now near_draw near_missed : near_ops.

Lemma near_lstat p : frames R (lstat p).
Proof. unfold lstat. frame. Qed.

Lemma near_readFile p : frames R (readFile p).
Proof. unfold readFile. frame. Qed.

Lemma near_remove p : within_tmp P p → frames R (remove p).
Proof. intros. unfold remove. frame. Qed.

Lemma near_ignore {A} (m : M A) : frames R m → frames R (ignore m).
Proof. intros. unfold ignore. frame. Qed.

Lemma near_writeFile p b : within_tmp P p → frames R (writeFile torn p b).
Proof. intros. unfold writeFile. frame. Qed.

Lemma near_swap t p b : within_tmp P t → within_tmp P p → frames R (modify (λ d, d <| objs := <[p := b]> (delete t (objs d)) |>) : M unit).
Proof.
  intros. apply frames_modify. intros d. split_and!; try done. intros q Hq. cbn.
  rewrite lookup_insert_ne by (by intros ->). apply lookup_delete_ne. by intros ->.
Qed.

#[local] Hint Resolve near_lstat near_readFile near_remove near_ignore near_writeFile near_swap : near_ops.

Lemma near_replaceFile p b : P p → frames R (replaceFile torn p b).
Proof. intros. unfold replaceFile, replaceSteps. frame. Qed.

Lemma near_checkNotSymlink p : frames R (checkNotSymlink p).
Proof. unfold checkNotSymlink. frame. Qed.

Lemma near_checkDir : frames R checkDir.
Proof. unfold checkDir. frame. Qed.

#[local] Hint Resolve near_replaceFile near_checkNotSymlink near_checkDir : near_ops.

Lemma near_atomicWriteFile p b : P p → frames R (atomicWriteFile torn p b).
Proof. intros. unfold atomicWriteFile. frame. Qed.

Lemma near_readPointer p : frames R (readPointer p).
Proof. unfold readPointer. frame. Qed.

#[local] Hint Resolve near_atomicWriteFile near_readPointer : near_ops.

Lemma near_writePointer p id : P p → frames R (writePointer torn p id).
Proof. intros. unfold writePointer. frame. Qed.

Lemma near_IsFrozen : frames R IsFrozen.
Proof. unfold IsFrozen. frame. Qed.

Lemma near_NewRevisionID : frames R NewRevisionID.
Proof. unfold NewRevisionID. frame. Qed.

Lemma near_mkdir id files : frames R (modify (λ d, d <| dirs := {[ (id, files) ]} ∪ dirs d |>) : M unit).
Proof. apply frames_modify. intros d. split_and!; try done. cbn. set_solver. Qed.

#[local] Hint Resolve near_writePointer near_IsFrozen near_NewRevisionID near_mkdir : near_ops.

Lemma near_ensureDir id files : frames R (ensureDir id files).
Proof. unfold ensureDir. frame. Qed.

Lemma near_HashFile p : frames R (HashFile sha256 p).
Proof. unfold HashFile. frame. Qed.

#[local] Hint Resolve near_ensureDir near_HashFile : near_ops.

Lemma near_copyFileVerified dst rel src : (∀ r, P (dst r)) → frames R (copyFileVerified sha256 torn dst rel src).
Proof. intros. unfold copyFileVerified, copySteps. frame. Qed.

#[local] Hint Resolve near_copyFileVerified : near_ops.

Lemma near_copyAll dst files : (∀ r, P (dst r)) → frames R (copyAll sha256 torn dst files).
Proof. intros. induction files as [|[rel src] files IH]; cbn [copyAll]; frame. Qed.

#[local] Hint Resolve near_copyAll : near_ops.

Lemma near_PreSnapshot id files : (∀ r, P (Pre id r)) → frames R (PreSnapshot sha256 torn id files).
Proof. intros. unfold PreSnapshot. frame. Qed.

Lemma near_writeJournal j : P JournalFile → frames R (writeJournal torn MarshalEntry j).
Proof. intros. unfold writeJournal. frame. Qed.

Lemma near_readJournal : frames R (readJournal UnmarshalEntry).
Proof. unfold readJournal. frame. Qed.

Lemma near_clearJournal : P JournalFile → frames R clearJournal.
Proof. intros. unfold clearJournal. frame. Qed.

#[local] Hint Resolve near_PreSnapshot near_writeJournal near_readJournal near_clearJournal : near_ops.

Lemma near_journalState s : P JournalFile → frames R (journalState torn MarshalEntry UnmarshalEntry s).
Proof. intros. unfold journalState. frame. Qed.

Lemma near_LiveFile role : frames R (LiveFile role).
Proof. unfold LiveFile. frame. Qed.

#[local] Hint Resolve near_journalState near_LiveFile : near_ops.

Lemma near_baseEnv role : frames R (baseEnv role).
Proof. unfold baseEnv, BaseEnv. frame. Qed.

Lemma near_WriteCandidate role base set : P (Cand role) → frames R (WriteCandidate torn role base set).
Proof. intros. unfold WriteCandidate. frame. Qed.

Lemma near_SeamValidate p : frames R (SeamValidate p).
Proof. unfold SeamValidate. frame. Qed.

Lemma near_BackupFile role p : P (Backup role) → frames R (BackupFile torn role p).
Proof. intros. unfold BackupFile. frame. Qed.

Lemma near_onMem f : frames R (onMem f).
Proof. apply frames_modify. intros d. by split_and!. Qed.

Lemma near_live_hash live : frames R (live_hash sha256 live).
Proof. unfold live_hash. frame. Qed.
End near.

#[export] Hint Resolve near_sys near_objects near_put_op near_unput_op near_Now near_draw near_missed near_lstat near_readFile
  near_remove near_ignore near_writeFile near_swap near_replaceFile near_checkNotSymlink near_checkDir near_atomicWriteFile near_readPointer
  near_writePointer near_IsFrozen near_NewRevisionID near_mkdir near_ensureDir near_HashFile near_copyFileVerified near_copyAll
  near_PreSnapshot near_writeJournal near_readJournal near_clearJournal near_journalState near_LiveFile near_baseEnv near_WriteCandidate
  near_SeamValidate near_BackupFile near_live_hash near_onMem : near_ops.

(** ** Operations that never fail *)

Create HintDb unfailing_ops.

Ltac unfail_step :=
  lazymatch goal with
  | |- unfailing (_ ≫= _) => apply unfailing_bind; [|intros ?]
  | |- unfailing (mret _) => apply unfailing_ret
  | |- unfailing peek => apply unfailing_peek
  | |- unfailing (modify _) => apply unfailing_modify
  | |- unfailing call => apply unfailing_call
  | |- unfailing (attempt _) => apply unfailing_attempt
  | |- unfailing (match ?x with _ => _ end) => destruct x
  | |- unfailing (let _ := _ in _) => cbv zeta
  | |- unfailing _ => solve [eauto with unfailing_ops]
  end.
Ltac unfail := repeat unfail_step.

Lemma unfailing_next_of {A} (f : disk → list A) g x : unfailing (next_of f g x).
Proof. intros h e. unfold next_of. by destruct (f (st h)). Qed.

Lemma unfailing_Now : unfailing Now.
Proof. apply unfailing_next_of. Qed.

Lemma unfailing_draw : unfailing draw.
Proof. apply unfailing_next_of. Qed.

Lemma unfailing_missed : unfailing missed.
Proof. apply unfailing_next_of. Qed.

#[export] Hint Resolve unfailing_Now unfailing_draw unfailing_missed : unfailing_ops.

Lemma unfailing_lstat p : unfailing (lstat p).
Proof. unfold lstat, objects. unfail. Qed.

Lemma unfailing_ignore {A} (m : M A) : unfailing (ignore m).
Proof. unfold ignore. unfail. Qed.

#[export] Hint Resolve unfailing_lstat unfailing_ignore : unfailing_ops.

Lemma unfailing_LiveFile role : unfailing (LiveFile role).
Proof. unfold LiveFile. unfail. Qed.

Lemma unfailing_IsFrozen : unfailing IsFrozen.
Proof. unfold IsFrozen. unfail. Qed.

Lemma unfailing_clearJournal : unfailing clearJournal.
Proof. unfold clearJournal. unfail. Qed.

Lemma unfailing_journalState torn enc dec s : unfailing (journalState torn enc dec s).
Proof. unfold journalState. unfail. Qed.

Lemma unfailing_baseEnv role : unfailing (baseEnv role).
Proof. unfold baseEnv. unfail. Qed.

Lemma unfailing_live_hash sha256 live : unfailing (live_hash sha256 live).
Proof. unfold live_hash. unfail. Qed.

Lemma unfailing_onMem f : unfailing (onMem f).
Proof. apply unfailing_modify. Qed.

#[export] Hint Resolve unfailing_onMem unfailing_LiveFile unfailing_IsFrozen unfailing_clearJournal unfailing_journalState unfailing_baseEnv
  unfailing_live_hash : unfailing_ops.

(** ** What an operation achieves *)

Lemma tmp_ne z p : Tmp z p ≠ p.
Proof. revert z. induction p; intros z0 [=]; subst. by eapply IHp. Qed.

Section done.
Context (sha256 : list byte → list byte) (torn : list byte → list byte) (kept : path → bool).
Context (MarshalEntry : ControlJournalEntry → list byte) (UnmarshalEntry : list byte → option ControlJournalEntry).

(** A replacement leaves the old file or the new one. *)
Definition replaced (p : path) (b : list byte) (h : host) (r : outcome agent_error unit) (h' : host) : Prop :=
  near (eq p) (st h) (st h') ∧
  match r with
  | Done _ => objs (st h') !! p = Some b
  | Fail _ => objs (st h') !! p = objs (st h) !! p
  | Dead => objs (st h') !! p = objs (st h) !! p ∨ objs (st h') !! p = Some b
  end.

Lemma ends_sys (Q : outcome agent_error unit → host → Prop) h :
  (∀ h', st h' = st h → Q Dead h' ∧ Q (Fail ErrCall) h' ∧ Q (Done ()) h') → ends sys Q h.
Proof.
  intros HQ. unfold sys. apply ends_bind, ends_call. intros h' E. destruct (HQ h' E) as (H1 & H2 & H3). split; [done|].
  intros ok. cbn [next]. by apply ends_check.
Qed.

Lemma ends_put p b (Q : outcome agent_error unit → host → Prop) h :
  (∀ h', st h' = (st h) <| objs := <[p := b]> (objs (st h)) |> → Q (Done ()) h') → ends (put p b) Q h.
Proof. intros HQ. by apply ends_modify. Qed.

(** Nothing but [t] has changed. *)
Definition but (t : path) (d d' : disk) : Prop := near (λ q, q = t) d d' ∧ ∀ q, q ≠ t → objs d' !! q = objs d !! q.

Lemma but_refl t d : but t d d.
Proof. by split. Qed.

Lemma but_put t b d d' : but t d d' → but t d (d' <| objs := <[t := b]> (objs d') |>).
Proof.
  intros [H1 H2]. split.
  - etrans; [done|]. apply near_put. by apply within_here.
  - intros q Hq. cbn. rewrite lookup_insert_ne by done. by apply H2.
Qed.

Lemma but_tmp p z d d' : but (Tmp z p) d d' → near (eq p) d d' ∧ objs d' !! p = objs d !! p.
Proof.
  intros [H1 H2]. split; [|apply H2; by intros E; symmetry in E; apply tmp_ne in E].
  apply (near_within _ _ _ _ H1). intros q ->. right. by apply within_here.
Qed.

Lemma ends_replaceSteps t p b h :
  t ≠ p → ends (replaceSteps torn t p b) (λ r h', match r with
    | Done _ => objs (st h') !! p = Some b ∧ objs (st h') !! t = None ∧ near (λ q, q = t ∨ q = p) (st h) (st h') ∧
                ∀ q, q ≠ t → q ≠ p → objs (st h') !! q = objs (st h) !! q
    | _ => but t (st h) (st h') end) h.
Proof.
  intros Hn. unfold replaceSteps. apply ends_bind, ends_put. intros h1 E1. cbn [next].
  assert (but t (st h) (st h1)) as B1 by (rewrite E1; apply but_put, but_refl).
  apply ends_bind, ends_sys. intros h2 E2. rewrite <- E2 in B1. split_and!; [done|done|]. cbn [next].
  apply ends_bind, ends_put. intros h3 E3. assert (but t (st h) (st h3)) as B3 by (rewrite E3; by apply but_put). cbn [next].
  apply ends_bind, ends_sys. intros h4 E4. rewrite <- E4 in B3. split_and!; [done|done|]. cbn [next].
  apply ends_bind, ends_sys. intros h5 E5. rewrite <- E5 in B3. split_and!; [done|done|]. cbn [next].
  apply ends_bind, ends_sys. intros h6 E6. rewrite <- E6 in B3. split_and!; [done|done|]. cbn [next].
  apply ends_modify. intros h7 E7. rewrite E7. destruct B3 as [N3 O3]. cbn. split_and!.
  - apply lookup_insert_eq.
  - rewrite lookup_insert_ne by done. apply lookup_delete_eq.
  - etrans; [apply (near_within _ _ _ _ N3); intros q ->; apply within_here; by left|]. split_and!; try done. intros q Hq. cbn.
    rewrite lookup_insert_ne by (intros ->; apply Hq, within_here; auto). apply lookup_delete_ne. intros ->. apply Hq, within_here. auto.
  - intros q Hq1 Hq2. rewrite lookup_insert_ne by done. rewrite lookup_delete_ne by done. by apply O3.
Qed.

Lemma ends_ignore_remove t (Q : outcome agent_error unit → host → Prop) h :
  (∀ h', but t (st h) (st h') → Q Dead h' ∧ Q (Done ()) h') → ends (ignore (remove t)) Q h.
Proof.
  intros HQ. unfold ignore. apply ends_bind, ends_attempt. unfold remove. apply ends_bind, ends_sys. intros h1 E1.
  assert (but t (st h) (st h1)) as B1 by (rewrite E1; apply but_refl). split_and!; [by apply HQ|by apply HQ|]. cbn [next].
  unfold objects. apply ends_bind, ends_bind, ends_peek. cbn [next]. apply ends_ret. cbn [next].
  destruct (objs (st h1) !! t).
  - unfold unput. apply ends_modify. intros h2 E2. cbn [next]. apply ends_ret, HQ. rewrite E2. destruct B1 as [N1 O1]. split.
    + etrans; [done|]. apply near_unput. by apply within_here.
    + intros q Hq. cbn. rewrite lookup_delete_ne by done. by apply O1.
  - apply ends_fail. cbn [next]. by apply ends_ret, HQ.
Qed.

Lemma ends_replaceFile p b h : ends (replaceFile torn p b) (replaced p b h) h.
Proof.
  unfold replaceFile. apply ends_bind, ends_peek. cbn [next]. set (t := Tmp (pid (st h)) p).
  assert (∀ h', but t (st h) (st h') → replaced p b h Dead h' ∧ ∀ e, replaced p b h (Fail e) h') as Hbut.
  { intros h' [N O]%but_tmp. split; [|intros e]; (split; [done|]); [by left|done]. }
  apply ends_bind, ends_sys. intros h1 E1. assert (but t (st h) (st h1)) as B1 by (rewrite E1; apply but_refl).
  split_and!; [by apply Hbut|by apply Hbut|]. cbn [next]. destruct (decide _); [by apply ends_fail, Hbut|].
  apply ends_bind, ends_put. intros h2 E2. assert (but t (st h) (st h2)) as B2 by (rewrite E2; by apply but_put). cbn [next].
  apply ends_bind, ends_attempt, (ends_mono _ _ _ _ (ends_replaceSteps t p b h2 (tmp_ne _ _))).
  assert (∀ h', but t (st h2) (st h') → but t (st h) (st h')) as Hb.
  { intros h' [N O]. destruct B2 as [N2 O2]. split; [by etrans|]. intros q Hq. by rewrite O, O2. }
  intros [[]|e|] h3 H3; cbn [next].
  - destruct H3 as (H3 & _ & N3' & _). assert (near (eq p) (st h) (st h3)) as N3.
    { destruct B2 as [N2 _]. etrans; [apply (near_within _ _ _ _ N2)|apply (near_within _ _ _ _ N3')]; intros q; [intros -> | intros [-> | ->]];
        first [by apply within_here | right; by apply within_here]. }
    apply ends_bind, ends_call. intros h4 E4. rewrite <- E4 in N3, H3. split; [split; [done|by right]|]. intros ok. cbn [next].
    apply ends_ret. by split.
  - apply Hb in H3. apply ends_bind, ends_call. intros h4 E4. rewrite <- E4 in H3. split; [by apply Hbut|]. intros ok. cbn [next].
    apply ends_bind, ends_ignore_remove. intros h5 [N5 O5]. assert (but t (st h) (st h5)) as B5.
    { destruct H3 as [N4 O4]. split; [by etrans|]. intros q Hq. by rewrite O5, O4. }
    split; [by apply Hbut|]. cbn [next]. by apply ends_fail, Hbut.
  - apply Hbut. by apply Hb.
Qed.

Lemma near_same P d d' : d' = d → near P d d'.
Proof. by intros ->. Qed.

Lemma ends_readFile p (Q : outcome agent_error (list byte) → host → Prop) h :
  (∀ h', st h' = st h → Q Dead h' ∧ (∀ e, Q (Fail e) h') ∧ ∀ b, objs (st h) !! p = Some b → Q (Done b) h') → ends (readFile p) Q h.
Proof.
  intros HQ. unfold readFile. apply ends_bind, ends_sys. intros h1 E1. destruct (HQ h1 E1) as (H1 & H2 & H3). split_and!; [done|by apply H2|].
  cbn [next]. unfold objects. apply ends_bind, ends_bind, ends_peek. cbn [next]. apply ends_ret. cbn [next]. rewrite E1.
  destruct (objs (st h) !! p); [by apply ends_ret, H3|by apply ends_fail].
Qed.

(** A file written in place is lost if the write does not end. *)
Lemma ends_writeFile p b (Q : outcome agent_error unit → host → Prop) h :
  (∀ h', but p (st h) (st h') → Q Dead h' ∧ (∀ e, Q (Fail e) h') ∧ (objs (st h') !! p = Some b → Q (Done ()) h')) →
  ends (writeFile torn p b) Q h.
Proof.
  intros HQ. unfold writeFile. apply ends_bind, ends_sys. intros h1 E1.
  assert (but p (st h) (st h1)) as B1 by (rewrite E1; apply but_refl). destruct (HQ h1 B1) as (H1 & H2 & _). split_and!; [done|by apply H2|].
  cbn [next]. apply ends_bind, ends_put. intros h2 E2. cbn [next].
  assert (but p (st h) (st h2)) as B2 by (rewrite E2; by apply but_put).
  apply ends_bind, ends_put. intros h3 E3. cbn [next]. assert (but p (st h) (st h3)) as B3 by (rewrite E3; by apply but_put).
  apply ends_bind, ends_sys. intros h4 E4. rewrite <- E4 in B3. destruct (HQ h4 B3) as (H1' & H2' & _). split_and!; [done|by apply H2'|]. cbn [next].
  apply ends_put. intros h5 E5. apply HQ; rewrite E5; [by apply but_put|]. cbn. apply lookup_insert_eq.
Qed.

(** With no error of Lstat to come, it tells what is there. *)
Lemma ends_stat p (Q : outcome agent_error bool → host → Prop) h :
  misses (st h) = [] →
  (∀ h', st h' = st h → Q Dead h' ∧ Q (Done (bool_decide (is_Some (objs (st h) !! p)))) h') → ends (lstat p) Q h.
Proof.
  intros Hm HQ. unfold lstat. apply ends_bind, ends_call. intros h1 E1. destruct (HQ h1 E1) as [H1 H2]. split; [done|]. intros ok. cbn [next].
  apply ends_bind. unfold missed, next_of, ends. rewrite E1, Hm. cbn [fst snd next]. unfold objects.
  apply ends_bind, ends_bind, ends_peek. cbn [next]. apply ends_ret. cbn [next]. apply ends_ret. by rewrite E1.
Qed.

Lemma ends_LiveFile role (Q : outcome agent_error (option path) → host → Prop) h b :
  misses (st h) = [] → objs (st h) !! Live role = Some b →
  (∀ h', st h' = st h → Q Dead h' ∧ Q (Done (Some (Live role))) h') → ends (LiveFile role) Q h.
Proof.
  intros Hm Hb HQ. unfold LiveFile. apply ends_bind, ends_stat; [done|]. intros h1 E1. destruct (HQ h1 E1) as [H1 H2]. split; [done|].
  cbn [next]. apply ends_ret. by rewrite Hb.
Qed.

(** Only the record of what runs has changed. *)
Definition restarted (role : gostring) (d d' : disk) : Prop := ∃ x, d' = d <| running := <[role := x]> (running d) |>.

Lemma ends_RestartService role (Q : outcome agent_error unit → host → Prop) h :
  (∀ h', restarted role (st h) (st h') → Q Dead h' ∧ (∀ e, Q (Fail e) h') ∧
         (running (st h') !! role = Some (objs (st h) !! Live role) → Q (Done ()) h')) → ends (RestartService role) Q h.
Proof.
  intros HQ. unfold RestartService. apply ends_bind, ends_modify. intros h1 E1. cbn [next].
  assert (restarted role (st h) (st h1)) as R1 by (by eexists). apply ends_bind, ends_sys. intros h2 E2. rewrite <- E2 in R1.
  destruct (HQ h2 R1) as (H1 & H2 & _). split_and!; [done|by apply H2|]. cbn [next]. apply ends_bind, ends_modify. intros h3 E3. cbn [next].
  assert (restarted role (st h) (st h3) ∧ running (st h3) !! role = Some (objs (st h) !! Live role)) as [R3 V3].
  { rewrite E3, E2, E1. cbn. split; [|apply lookup_insert_eq]. exists (objs (st h) !! Live role). cbn. by rewrite insert_insert_eq. }
  apply ends_sys. intros h4 E4. rewrite <- E4 in R3, V3. destruct (HQ h4 R3) as (H3 & H4 & H5). split_and!; [done|by apply H4|by apply H5].
Qed.

(** A swap leaves the old file or the candidate. *)
Lemma ends_SwapFile cand live (Q : outcome agent_error unit → host → Prop) h :
  (∀ h', near (eq live) (st h) (st h') →
    (objs (st h') !! live = objs (st h) !! live → Q Dead h' ∧ ∀ e, Q (Fail e) h') ∧
    (objs (st h') !! live = objs (st h) !! cand → Q Dead h' ∧ Q (Done ()) h')) → ends (SwapFile torn cand live) Q h.
Proof.
  intros HQ. unfold SwapFile. apply ends_bind, ends_readFile. intros h1 E1.
  destruct (HQ h1 (near_same _ _ _ E1)) as [H1 _]. destruct H1 as [H1 H2]; [by rewrite E1|]. split_and!; [done|by apply H2|]. intros b Hb. cbn [next].
  apply (ends_mono _ _ _ _ (ends_replaceFile live b h1)). intros r h2 [N2 H3]. rewrite E1 in N2, H3. destruct (HQ h2 N2) as [K1 K2].
  rewrite Hb in K2. destruct r as [[]|e|]; [by apply K2|by apply K1|]. destruct H3 as [H3|H3]; [by apply K1|by apply K2].
Qed.

Lemma ends_RestoreFile live backup (Q : outcome agent_error unit → host → Prop) h :
  (∀ h', but live (st h) (st h') → Q Dead h' ∧ (∀ e, Q (Fail e) h') ∧
     (is_Some (objs (st h) !! backup) → objs (st h') !! live = objs (st h) !! backup → Q (Done ()) h')) → ends (RestoreFile torn live backup) Q h.
Proof.
  intros HQ. unfold RestoreFile. apply ends_bind, ends_readFile. intros h1 E1.
  assert (but live (st h) (st h1)) as B1 by (rewrite E1; apply but_refl). destruct (HQ h1 B1) as (H1 & H2 & _). split_and!; [done|by apply H2|].
  intros b Hb. cbn [next]. apply ends_writeFile. intros h2 B2. rewrite E1 in B2. destruct (HQ h2 B2) as (H3 & H4 & H5). split_and!; [done|done|].
  intros Hd. apply H5; [by rewrite Hb|by rewrite Hb].
Qed.
End done.
