(* ===== verification/AgentOutcome.v ===== *)
(** * How an apply of the control agent ends

    The live environment file is the old one, or the new one and committed, or
    a journal is in flight that says where the old one is; [RecoverOnStart]
    resolves what is left. *)
From S2P Require Import Pairing.
From S2P Require Export AgentSafety.
#[local] Open Scope Z_scope.

#[local] Abbreviation host := (Host.host disk).
#[local] Abbreviation M := (Host.M disk agent_error).

(** ** Pruning *)

(** Files of revisions may be gone; everything else is as it was. *)
Definition pruned (d d' : disk) : Prop :=
  (∀ p, objs d' !! p = objs d !! p ∨ objs d' !! p = None ∧ match p with Pre _ _ | Post _ _ | ManifestFile _ | MetaFile _ => True | _ => False end) ∧
  running d' = running d ∧ pid d' = pid d ∧ (misses d = [] → misses d' = []).

#[export] Instance pruned_preorder : PreOrder pruned.
Proof.
  split; [intros d; by split_and!; [left| | |]|]. intros d1 d2 d3 (H1 & H2 & H3 & H4) (K1 & K2 & K3 & K4).
  split_and!; [|by rewrite K2|by rewrite K3|auto]. intros p. destruct (K1 p) as [->|[-> ?]]; [apply H1|by right].
Qed.

Lemma frames_near {A} (R : disk → disk → Prop) (m : M A) : frames (near (λ _, False)) m → (∀ d d', near (λ _, False) d d' → R d d') → frames R m.
Proof. intros Hm HR h. apply (ends_frame (near (λ _, False))); [done|]. auto. Qed.

Lemma nothing p : ¬ within_tmp (λ _, False) p.
Proof. induction p; cbn; tauto. Qed.

Lemma near_pruned d d' : near (λ _, False) d d' → pruned d d'.
Proof. intros (H1 & H2 & _ & H4 & H5). split_and!; try done. intros p. left. apply H1, nothing. Qed.

Section prune.
Context (torn : list byte → list byte) (kept : path → bool).

Lemma pruned_removeAll id : frames pruned (removeAll kept id).
Proof.
  assert (∀ f : path → bool, (∀ p, f p = false → of_revision id p = true) → ∀ d g,
    pruned d ((d <| objs := filter (λ kv, f (fst kv) = true) (objs d) |>) <| dirs := g |>)) as Hf.
  { intros f Hf d g. split_and!; try done. intros p. cbn. destruct (f p) eqn:E.
    - left. destruct (objs d !! p) eqn:Ep; [by apply map_lookup_filter_Some_2|]. apply map_lookup_filter_None_2. by left.
    - right. split; [apply map_lookup_filter_None_2; right; intros b _; cbn; by rewrite E|]. apply Hf in E. by destruct p. }
  unfold removeAll. apply (frames_bind _); [|intros []].
  - apply frames_modify. intros d. pose proof (Hf (λ p, negb (of_revision id p) || kept p)) as H.
    specialize (H ltac:(intros p [?%negb_false_iff ?]%orb_false_iff; done) d (dirs d)).
    match goal with |- pruned _ ?t => assert (t = ((d <| objs := filter (λ kv, negb (of_revision id (fst kv)) || kept (fst kv) = true) (objs d) |>) <| dirs := dirs d |>)) as ->; [|done] end.
    destruct d; cbn. f_equal. apply map_filter_ext. intros p b _. cbn. by rewrite orb_true_iff, negb_true_iff.
  - apply (frames_bind _); [apply frames_near; [apply near_sys|apply near_pruned]|intros []].
    apply frames_modify. intros d. pose proof (Hf (λ p, negb (of_revision id p)) ltac:(intros p ?%negb_false_iff; done) d (filter (λ x, fst x ≠ id) (dirs d))) as H.
    match goal with |- pruned _ ?t => assert (t = ((d <| objs := filter (λ kv, negb (of_revision id (fst kv)) = true) (objs d) |>) <| dirs := filter (λ x, fst x ≠ id) (dirs d) |>)) as ->; [|done] end.
    destruct d; cbn. f_equal. apply map_filter_ext. intros p b _. cbn. by rewrite negb_true_iff.
Qed.

Lemma pruned_Prune : frames pruned (Prune kept).
Proof.
  assert (∀ A (m : M A), frames (near (λ _, False)) m → frames pruned m) as Hn by (intros A m Hm; by apply frames_near; [|apply near_pruned]).
  unfold Prune, RevisionIDs. apply (frames_bind _).
  - apply Hn. frame.
  - intros ids. destruct (length ids <=? Retention)%nat; [by apply (frames_ret _)|]. apply (frames_bind _).
    + apply Hn. unfold RetainIDs. frame.
    + intros l. induction (take (length ids - Retention) ids) as [|id ids' IH]; cbn [pruneLoop]; [by apply (frames_ret _)|].
      apply (frames_bind _); [destruct (among id l); [by apply (frames_ret _)|apply pruned_removeAll]|done].
Qed.
End prune.

(** ** Listings *)

Lemma elem_of_sortStrings x l : x ∈ sortStrings l ↔ x ∈ l.
Proof.
  assert (∀ y l, x ∈ insert_string y l ↔ x = y ∨ x ∈ l) as Hins.
  { intros y l'. induction l' as [|z l' IH]; cbn [insert_string]; [set_solver|]. destruct (bytes_lt z y); set_solver. }
  unfold sortStrings. induction l as [|y l IH]; cbn [foldr]; [done|]. rewrite Hins, IH. set_solver.
Qed.

Lemma elem_of_listing f m rel : rel ∈ listing f m ↔ ∃ p b, m !! p = Some b ∧ f p = Some rel.
Proof.
  unfold listing. rewrite elem_of_sortStrings, list_elem_of_omap. split.
  - intros ([p b] & Hin%elem_of_map_to_list & Hf). by exists p, b.
  - intros (p & b & Hp & Hf). exists (p, b). by rewrite elem_of_map_to_list.
Qed.

Lemma pre_listing id m rel : rel ∈ listing (pre_name id) m → is_Some (m !! Pre id rel).
Proof.
  intros (p & b & Hp & Hf)%elem_of_listing. destruct p; try done. cbn in Hf. destruct (decide (id0 = id)) as [->|]; [|done].
  injection Hf as ->. by exists b.
Qed.

(** ** A change in flight *)

Section outcome.
Context (sha256 : list byte → list byte) (torn : list byte → list byte) (kept : path → bool) (pick : list gostring → gostring).
Context (MarshalMeta : RevisionMeta → list byte) (UnmarshalMeta : list byte → option RevisionMeta).
Context (MarshalEntry : ControlJournalEntry → list byte) (UnmarshalEntry : list byte → option ControlJournalEntry).
Context (gate : option XrayGate).
Hypothesis entry_roundtrip : ∀ j, UnmarshalEntry (MarshalEntry j ++ [x0a]) = Some j.
Hypothesis pick_in : ∀ l, l ≠ [] → pick l ∈ l.
(** No method of the gate touches what is modelled. *)
Hypothesis gate_quiet : ∀ g, gate = Some g →
  (∀ role, frames eq (RestartXray role)) ∧ (∀ role, frames eq (VerifyXray role)).

Context (role rev hash : gostring) (b0 : list byte).
#[local] Abbreviation journalState' := (journalState torn MarshalEntry UnmarshalEntry).

Definition in_flight (d : disk) : Prop := ∃ j,
  objs d !! JournalFile = Some (MarshalEntry j ++ [x0a]) ∧ entry_ok j = true ∧ known_state (j_State j) = true ∧
  j_Role j = role ∧ j_Revision j = rev ∧ PreHash j = hash.

(** The copy of the old file, or the revision is committed. *)
Definition snapshot (d : disk) : Prop :=
  (∀ rel b, objs d !! Pre rev rel = Some b → rel = live_name role ∧ b = b0) ∧
  (objs d !! Pre rev (live_name role) = Some b0 ∧ (rev, false) ∈ dirs d ∨ objs d !! HeadFile = Some rev).

Definition held (d : disk) : Prop := misses d = [] ∧ in_flight d ∧ snapshot d.

(** What [held] does not look at. *)
Definition aside (p : path) : Prop := match p with JournalFile | Pre _ _ | HeadFile => False | Tmp _ _ => False | _ => True end.

Lemma aside_within (P : path → Prop) p : (∀ q, P q → aside q) → within_tmp P p → p ≠ JournalFile ∧ p ≠ HeadFile ∧ ∀ i r, p ≠ Pre i r.
Proof.
  intros HP Hw. assert (aside p ∨ ∃ z q, p = Tmp z q) as [Ha|(z & q & ->)].
  { destruct p; cbn in Hw; destruct Hw as [Hw|Hw]; first [by left; apply HP | done | by right; eauto]. }
  - split_and!; [by intros ->|by intros ->|by intros i r ->].
  - by split_and!.
Qed.

Lemma held_near P d d' : near P d d' → (∀ p, P p → aside p) → held d → held d'.
Proof.
  intros (H1 & _ & H3 & _ & H5) HP (Hm & (j & Hj & Hrest) & Hs1 & Hs2).
  assert (∀ p, (p = JournalFile ∨ p = HeadFile ∨ ∃ i r, p = Pre i r) → objs d' !! p = objs d !! p) as Hsame.
  { intros p Hp. apply H1. intros Hw. apply (aside_within P) in Hw as (K1 & K2 & K3); [|done]. destruct Hp as [->|[->|(i & r & ->)]]; [by apply K1|by apply K2|by eapply K3]. }
  split_and!; [auto| |].
  - exists j. rewrite Hsame by auto. by split.
  - split; [intros rel b; rewrite Hsame by eauto; apply Hs1|]. rewrite !Hsame by eauto. destruct Hs2 as [[? ?]|?]; [left; split; [done|by apply H3]|by right].
Qed.

Lemma held_pruned d d' : pruned d d' → objs d !! HeadFile = Some rev → held d → held d' ∧ objs d' !! HeadFile = Some rev.
Proof.
  intros (H1 & _ & _ & H4) Hh (Hm & (j & Hj & Hrest) & Hs1 & _).
  assert (∀ p, match p with Pre _ _ | Post _ _ | ManifestFile _ | MetaFile _ => False | _ => True end → objs d' !! p = objs d !! p) as Hsame.
  { intros p Hp. destruct (H1 p) as [?|[_ ?]]; [done|]. by destruct p. }
  assert (objs d' !! HeadFile = Some rev) as Hh' by (by rewrite Hsame). split; [|done]. split_and!; [auto| |split; [|by right]].
  - exists j. rewrite Hsame by done. by split.
  - intros rel b Hb. apply Hs1. destruct (H1 (Pre rev rel)) as [E|[E _]]; congruence.
Qed.

Lemma held_journal d d' : near (eq JournalFile) d d' → in_flight d' → held d → held d'.
Proof.
  intros (N1 & _ & N3 & _ & N5) Hi (Hm & _ & Hs1 & Hs2).
  assert (∀ p, p ≠ JournalFile → (∀ z q, p ≠ Tmp z q) → objs d' !! p = objs d !! p) as Hsame.
  { intros p Hp Ht. apply N1. intros Hw. destruct p; cbn in Hw; try (by destruct Hw). by eapply Ht. }
  split_and!; [by auto|done|]. split; [intros rel b; rewrite Hsame by done; apply Hs1|]. rewrite !Hsame by done.
  destruct Hs2 as [[? ?]|?]; [left; split; [done|by apply N3]|by right].
Qed.

(** [j] is an entry of the change in flight. *)
Definition of_change (j : ControlJournalEntry) : Prop :=
  entry_ok j = true ∧ known_state (j_State j) = true ∧ j_Role j = role ∧ j_Revision j = rev ∧ PreHash j = hash.

(** The journal is replaced, or stays. *)
Lemma writeJournal_holds j h :
  of_change j → held (st h) →
  ends (ignore (writeJournal torn MarshalEntry j)) (λ r h', near (eq JournalFile) (st h) (st h') ∧ held (st h') ∧ ∀ e, r ≠ Fail e) h.
Proof.
  intros Hj Hh. assert (∀ h', st h' = st h → near (eq JournalFile) (st h) (st h') ∧ held (st h')) as Hid by (by intros h' ->).
  unfold ignore. apply ends_bind, ends_attempt. unfold writeJournal. assert (Hok := Hj). destruct Hok as [-> _].
  cbn [negb]. apply ends_bind, ends_sys. intros h2 E2. destruct (Hid h2 E2) as [N2 H2]. split_and!; [by split_and!|by apply ends_ret|]. cbn [next].
  apply ends_bind, ends_sys. intros h3 E3. rewrite E2 in E3. destruct (Hid h3 E3) as [N3 H3]. split_and!; [by split_and!|by apply ends_ret|]. cbn [next].
  apply (ends_mono _ _ _ _ (ends_replaceFile torn JournalFile _ h3)). intros r h4 [N4 H4]. rewrite E3 in N4, H4.
  assert (held (st h4)) as H5.
  { apply (held_journal (st h)); [done| |done].
    assert (objs (st h4) !! JournalFile = Some (MarshalEntry j ++ [x0a]) → in_flight (st h4)) as Hnew by (intros E; exists j; by split).
    assert (objs (st h4) !! JournalFile = objs (st h) !! JournalFile → in_flight (st h4)) as Hold.
    { intros E. destruct Hh as (_ & (j0 & Hj0) & _). exists j0. by rewrite E. }
    destruct r as [|e|]; [by apply Hnew|by apply Hold|]. destruct H4; auto. }
  destruct r; cbn [next]; [by apply ends_ret|by apply ends_ret|done].
Qed.

(** The journal moves on, or stays. *)
Lemma journalState_holds s h :
  known_state s = true → held (st h) →
  ends (journalState' s) (λ r h', near (eq JournalFile) (st h) (st h') ∧ held (st h') ∧ ∀ e, r ≠ Fail e) h.
Proof.
  intros Hs Hh. pose proof Hh as (Hm & (j & Hj & Hok & Hks & Hrest) & Hsn).
  unfold journalState. apply ends_bind, ends_attempt. unfold readJournal. apply ends_bind, ends_attempt, ends_readFile. intros h1 E1.
  assert (near (eq JournalFile) (st h) (st h1) ∧ held (st h1)) as [N1 H1] by (by rewrite E1). split_and!; [by split_and!| |].
  - intros [| | |]; cbn [next]; try (apply ends_fail; cbn [next]; by apply ends_ret); (apply ends_ret; cbn [next]; by apply ends_ret).
  - intros b Hb. rewrite Hj in Hb. injection Hb as <-. cbn [next]. rewrite entry_roundtrip, Hks. apply ends_ret. cbn [next].
    apply (ends_mono _ _ _ _ (writeJournal_holds (j <| j_State := s |>) h1 ltac:(by destruct j) H1)). intros r h2 H2. by rewrite <- E1.
Qed.

(** ** The commit *)

Definition store_file (p : path) : Prop := match p with Post _ _ | ManifestFile _ | MetaFile _ => True | _ => False end.
#[local] Hint Extern 1 (store_file _) => exact I : near.

Lemma near_writeManifest id : frames (near store_file) (writeManifest sha256 torn id).
Proof.
  unfold writeManifest. frame. match goal with |- frames _ (hashAll _ _ ?l) => induction l; cbn [hashAll]; frame; done end.
Qed.

(** What a step keeps of the live file and of what runs. *)
Definition still (d d' : disk) : Prop := objs d' !! Live role = objs d !! Live role ∧ running d' = running d.

Lemma still_trans d1 d2 d3 : still d1 d2 → still d2 d3 → still d1 d3.
Proof. intros [H1 H2] [K1 K2]. split; by etrans. Qed.

Lemma near_still P d d' : near P d d' → (∀ p, P p → p ≠ Live role) → still d d'.
Proof.
  intros (H1 & H2 & _) HP. split; [|done]. apply H1. intros [Hw|[]]. by apply (HP (Live role)).
Qed.

Lemma pruned_still d d' : pruned d d' → still d d'.
Proof. intros (H1 & H2 & _). split; [|done]. by destruct (H1 (Live role)) as [?|[_ []]]. Qed.

(** A step of which only the frame matters. *)
Lemma ends_step {A B} (R : disk → disk → Prop) `{!PreOrder R} (m : M A) (f : A → M B) (Q : outcome agent_error B → host → Prop) h0 h :
  R (st h0) (st h) → frames R m → (∀ h', R (st h0) (st h') → Q Dead h' ∧ ∀ e, Q (Fail e) h') →
  (∀ a h', R (st h0) (st h') → ends (f a) Q h') → ends (m ≫= f) Q h.
Proof.
  intros HR Hm Hb Hf. apply ends_bind, (ends_frame R); [done|]. intros r h' HR'. assert (R (st h0) (st h')) as H by (by etrans).
  destruct r as [a|e|]; cbn [next]; [by apply Hf|by apply Hb|by apply Hb].
Qed.

Lemma ends_writeHead id (Q : outcome agent_error unit → host → Prop) h :
  (∀ h', near (eq HeadFile) (st h) (st h') →
    (objs (st h') !! HeadFile = objs (st h) !! HeadFile → Q Dead h' ∧ ∀ e, Q (Fail e) h') ∧
    (objs (st h') !! HeadFile = Some id → Q Dead h' ∧ Q (Done ()) h')) → ends (writePointer torn HeadFile id) Q h.
Proof.
  intros HQ. assert (∀ h', st h' = st h → Q Dead h' ∧ ∀ e, Q (Fail e) h') as Hsame.
  { intros h' E. apply HQ; [by apply near_same|by rewrite E]. }
  unfold writePointer. destruct (_ && _); [by apply ends_fail, Hsame|]. unfold atomicWriteFile.
  apply ends_bind, ends_attempt. unfold checkNotSymlink. apply ends_bind, ends_call. intros h1 E1. destruct (Hsame h1 E1) as [D1 F1].
  split; [done|]. intros ok. cbn [next]. unfold objects. apply ends_bind, ends_bind, ends_peek. cbn [next]. apply ends_ret. cbn [next].
  assert (ends (_ ← checkDir; replaceFile torn HeadFile id) Q h1) as Hrest.
  { apply ends_bind. unfold checkDir. apply ends_bind, ends_sys. intros h2 E2. rewrite E1 in E2. destruct (Hsame h2 E2) as [D2 F2].
    split_and!; [done|by apply F2|]. cbn [next]. apply ends_ret. cbn [next].
    apply (ends_mono _ _ _ _ (ends_replaceFile torn HeadFile id h2)). intros r h3 [N3 H3]. rewrite E2 in N3, H3.
    destruct (HQ h3 N3) as [K1 K2]. destruct r as [[]|e|]; [by apply K2|by apply K1|destruct H3; [by apply K1|by apply K2]]. }
  destruct ok; cbn [negb].
  - destruct (decide _).
    + apply ends_ret. cbn [next]. apply ends_bind, ends_ret. done.
    + apply ends_fail. cbn [next]. apply ends_bind, ends_ret. done.
  - apply ends_fail. cbn [next]. apply ends_bind, ends_fail. cbn [next]. apply F1.
Qed.

Lemma held_head d d' :
  near (eq HeadFile) d d' → objs d' !! HeadFile = objs d !! HeadFile ∨ objs d' !! HeadFile = Some rev → held d → held d'.
Proof.
  intros (N1 & _ & N3 & _ & N5) E (Hm & (j & Hj & Hrest) & Hs1 & Hs2).
  assert (∀ p, p ≠ HeadFile → (∀ z q, p ≠ Tmp z q) → objs d' !! p = objs d !! p) as Hsame.
  { intros p Hp Ht. apply N1. intros Hw. destruct p; cbn in Hw; try (by destruct Hw). by eapply Ht. }
  split_and!; [auto|exists j; by rewrite Hsame|split].
  - intros rel b. rewrite Hsame by done. apply Hs1.
  - destruct E as [E|E]; [|by right]. rewrite E, Hsame by done. destruct Hs2 as [[? ?]|?]; [left; split; [done|by apply N3]|by right].
Qed.

Lemma ends_CommitRevision meta files parent h :
  m_ID meta = rev → held (st h) →
  ends (CommitRevision sha256 torn kept MarshalMeta meta files parent) (λ r h', held (st h') ∧ still (st h) (st h') ∧
    (r = Done () → objs (st h') !! HeadFile = Some rev)) h.
Proof.
  intros Hid Hh. set (Q := λ (r : outcome agent_error unit) h', _).
  assert (∀ h', near store_file (st h) (st h') → Q Dead h' ∧ ∀ e, Q (Fail e) h') as Hn.
  { intros h' N. assert (held (st h') ∧ still (st h) (st h')) as [K1 K2]; [|split; [by split_and!|by intros e; split_and!]].
    split; [apply (held_near _ _ _ N); [by intros []|done]|]. apply (near_still _ _ _ N). by intros []. }
  unfold CommitRevision. rewrite Hid. destruct (validateStoreToken rev); cbn [negb]; [|by apply ends_fail, Hn].
  assert (∀ m h1, m_ID m = rev → near store_file (st h) (st h1) → ends (
    _ ← ensureDir (m_ID m) true;
    _ ← copyAll sha256 torn (Post (m_ID m)) files;
    w ← writeManifest sha256 torn (m_ID m);
    let meta := m <| m_Manifest := fst w |> <| FileHashes := snd w ∪ (list_to_map (map (λ f, (fst f, [])) files) ∪ FileHashes m) |> in
    _ ← atomicWriteFile torn (MetaFile (m_ID meta)) (MarshalMeta meta ++ [x0a]);
    _ ← writePointer torn HeadFile (m_ID meta);
    Prune kept) Q h1) as Hrest.
  { intros m h1 Em N1. rewrite Em.
    apply (ends_step (near store_file) _ _ _ h); [done|frame|done|]. intros _ h2 N2.
    apply (ends_step (near store_file) _ _ _ h); [done|frame|done|]. intros _ h3 N3.
    apply (ends_step (near store_file) _ _ _ h); [done|apply near_writeManifest|done|]. intros w h4 N4. cbv zeta.
    replace (m_ID (m <| m_Manifest := fst w |> <| FileHashes := snd w ∪ (list_to_map (map (λ f, (fst f, [])) files) ∪ FileHashes m) |>)) with rev by (by destruct m).
    apply (ends_step (near store_file) _ _ _ h); [done|frame|done|]. intros _ h5 N5.
    destruct (Hn h5 N5) as [(K5 & S5 & _) _]. apply ends_bind, ends_writeHead. intros h6 N6.
    assert (still (st h) (st h6)) as S6 by (apply (still_trans _ _ _ S5), (near_still _ _ _ N6); by intros ? <-).
    assert (objs (st h6) !! HeadFile = objs (st h5) !! HeadFile ∨ objs (st h6) !! HeadFile = Some rev → held (st h6)) as K6.
    { intros E. by apply (held_head (st h5)). }
    split; intros E6; [split; [by split_and!; auto|intros e; by split_and!; auto]|]. split; [by split_and!; auto|]. cbn [next].
    apply (ends_frame pruned); [apply pruned_Prune|]. intros r h7 P7. destruct (held_pruned _ _ P7 E6 (K6 (or_intror E6))) as [K7 E7].
    split_and!; [done| |done]. apply (still_trans _ _ _ S6), pruned_still, P7. }
  destruct (m_Timestamp _).
  - apply ends_bind, ends_ret. cbn [next]. by apply Hrest; [destruct meta|].
  - apply ends_bind, (ends_step (near store_file) _ _ _ h); [done|apply near_Now|done|]. intros t h1 N1. apply ends_ret. cbn [next].
    by apply Hrest; [destruct meta|].
Qed.

(** ** The write phase *)

(** The live file is the old or the new one. *)
Definition either (new : list byte) (d : disk) : Prop := objs d !! Live role = Some b0 ∨ objs d !! Live role = Some new.

Lemma either_still new d d' : still d d' → either new d → either new d'.
Proof. intros [E _]. unfold either. by rewrite E. Qed.

Lemma restarted_held d d' : restarted role d d' → held d → held d' ∧ objs d' = objs d.
Proof. intros [x ->] H. by split. Qed.

Lemma ends_withGate xray (f : XrayGate → M unit) (Q : outcome agent_error unit → host → Prop) h :
  (∀ g, gate = Some g → frames eq (f g)) → (∀ r h', st h' = st h → Q r h') → ends (withGate gate xray f) Q h.
Proof.
  intros Hf HQ. unfold withGate. destruct xray; [|by apply ends_ret, HQ]. destruct gate as [g|] eqn:E; [|by apply ends_fail, HQ].
  apply (ends_frame eq); [by apply Hf|]. intros r h' Eh. by apply HQ.
Qed.

Lemma ends_swapAndCommit parent new xray meta h :
  m_ID meta = rev → held (st h) → objs (st h) !! Live role = Some b0 → objs (st h) !! Cand role = Some new →
  ends (swapAndCommit sha256 torn kept MarshalMeta MarshalEntry UnmarshalEntry gate role rev parent (Cand role) (Some (Live role)) xray meta)
    (λ r h', held (st h') ∧ either new (st h') ∧
       (r = Done () → objs (st h') !! Live role = Some new ∧ running (st h') !! role = Some (Some new) ∧ objs (st h') !! HeadFile = Some rev)) h.
Proof.
  intros Hid Hh Hlive Hcand. set (Q := λ (r : outcome agent_error unit) h', _).
  assert (∀ h', held (st h') → either new (st h') → Q Dead h' ∧ ∀ e, Q (Fail e) h') as Hbad.
  { intros h' K1 K2. split; [by split_and!|intros e; by split_and!]. }
  unfold swapAndCommit. apply ends_bind, ends_SwapFile. intros h1 N1.
  assert (held (st h1)) as H1 by (apply (held_near _ _ _ N1); [by intros ? <-|done]).
  split; intros E1; [apply Hbad; [done|left; by rewrite E1]|]. rewrite Hcand in E1.
  assert (either new (st h1)) as Ei1 by (by right). split; [by apply Hbad|]. cbn [next]. clear N1.
  (* the journal: swapped *)
  apply ends_bind, (ends_mono _ _ _ _ (journalState_holds JournalSwapped h1 eq_refl H1)). intros r h2 (N2 & H2 & Hr2).
  assert (objs (st h2) !! Live role = Some new) as E2 by (rewrite <- E1; apply (near_still _ _ _ N2); by intros ? <-).
  destruct r as [[]|e|]; cbn [next]; [|by destruct (Hr2 e)|by apply Hbad; [|right]].
  apply ends_bind, ends_RestartService. intros h3 R3. destruct (restarted_held _ _ R3 H2) as [H3 O3].
  assert (objs (st h3) !! Live role = Some new) as E3 by (by rewrite O3).
  destruct (Hbad h3 H3 (or_intror E3)) as [D3 F3]. split_and!; [done|by apply F3|]. rewrite E2. intros V3. cbn [next].
  (* restarted *)
  apply ends_bind, (ends_mono _ _ _ _ (journalState_holds JournalRestarted h3 eq_refl H3)). intros r h4 (N4 & H4 & Hr4).
  destruct (near_still _ _ _ N4 ltac:(by intros ? <-)) as [L4 V4]. rewrite E3 in L4. rewrite <- V4 in V3.
  destruct r as [[]|e|]; cbn [next]; [|by destruct (Hr4 e)|by apply Hbad; [|right]].
  apply ends_bind, ends_withGate; [intros g Hg; by apply (gate_quiet g Hg)|]. intros r h5 E5. rewrite <- E5 in H4, L4, V3.
  destruct (Hbad h5 H4 (or_intror L4)) as [D5 F5]. destruct r as [[]|e|]; cbn [next]; [|by apply F5|done].
  unfold Verify. apply ends_bind, ends_sys. intros h6 E6. rewrite <- E6 in H4, L4, V3. destruct (Hbad h6 H4 (or_intror L4)) as [D6 F6].
  split_and!; [done|by apply F6|]. cbn [next].
  apply ends_bind, ends_withGate; [intros g Hg; by apply (gate_quiet g Hg)|]. intros r h7 E7. rewrite <- E7 in H4, L4, V3.
  destruct (Hbad h7 H4 (or_intror L4)) as [D7 F7]. destruct r as [[]|e|]; cbn [next]; [|by apply F7|done].
  (* verified *)
  apply ends_bind, (ends_mono _ _ _ _ (journalState_holds JournalVerified h7 eq_refl H4)). intros r h8 (N8 & H8 & Hr8).
  destruct (near_still _ _ _ N8 ltac:(by intros ? <-)) as [L8 V8]. rewrite L4 in L8. rewrite <- V8 in V3.
  destruct r as [[]|e|]; cbn [next]; [|by destruct (Hr8 e)|by apply Hbad; [|right]].
  apply (ends_mono _ _ _ _ (ends_CommitRevision meta _ parent h8 Hid H8)). intros r h9 (H9 & [L9 V9] & Hd9).
  rewrite L8 in L9. rewrite <- V9 in V3. split_and!; [done|by right|]. intros Hr. by split_and!; [| |apply Hd9].
Qed.

(** ** Going back *)

Lemma ends_LoadPreCopies id (Q : outcome agent_error (list gostring) → host → Prop) h :
  (∀ h', st h' = st h → Q Dead h' ∧ (∀ e, Q (Fail e) h') ∧ ((id, false) ∈ dirs (st h) → Q (Done (listing (pre_name id) (objs (st h)))) h')) →
  ends (LoadPreCopies id) Q h.
Proof.
  intros HQ. unfold LoadPreCopies. destruct (validateStoreToken id); cbn [negb]; [|by apply ends_fail, HQ].
  apply ends_bind, ends_sys. intros h1 E1. destruct (HQ h1 E1) as (D1 & F1 & O1). split_and!; [done|by apply F1|]. cbn [next].
  apply ends_bind, ends_peek. cbn [next]. rewrite E1. destruct (decide _); [by apply ends_ret, O1|by apply ends_fail, F1].
Qed.

(** A step that cannot fail, of which only the frame matters. *)
Lemma ends_quiet {A B} (R : disk → disk → Prop) `{!PreOrder R} (m : M A) (f : A → M B) (Q : outcome agent_error B → host → Prop) h0 h :
  R (st h0) (st h) → frames R m → unfailing m → (∀ h', R (st h0) (st h') → Q Dead h') →
  (∀ a h', R (st h0) (st h') → ends (f a) Q h') → ends (m ≫= f) Q h.
Proof.
  intros HR Hm Hu Hb Hf. apply ends_bind, ends_unfailing; [done|]. apply (ends_frame R); [done|]. intros r h' HR' Hr.
  assert (R (st h0) (st h')) as H by (by etrans). destruct r as [a|e|]; cbn [next]; [by apply Hf|by destruct (Hr e)|by apply Hb].
Qed.

Definition ending (p : path) : Prop := p = HeadFile ∨ p = JournalFile.

Lemma near_ending : frames (near ending) clearJournal ∧ (∀ s, frames (near ending) (journalState' s)) ∧ ∀ id, frames (near ending) (ignore (writePointer torn HeadFile id)).
Proof.
  assert (ending JournalFile) by (by right). assert (ending HeadFile) by (by left).
  split_and!; [|intros s|intros id]; frame.
Qed.

Lemma ending_still d d' : near ending d d' → still d d'.
Proof. intros N. apply (near_still _ _ _ N). by intros ? [-> | ->]. Qed.

(** The file of before is back and running, or the journal is kept. *)
Lemma ends_rollbackC4 parent xray h :
  held (st h) → is_Some (objs (st h) !! Live role) →
  ends (rollbackC4 torn pick MarshalEntry UnmarshalEntry gate role rev parent xray) (λ r h',
    match r with
    | Done o => o = lit "rolled-back" ∧ objs (st h') !! Live role = Some b0 ∧ running (st h') !! role = Some (Some b0) ∨
                o = lit "recovery-required" ∧ held (st h')
    | Dead => held (st h') ∨ objs (st h') !! Live role = Some b0
    | Fail _ => False
    end) h.
Proof.
  intros Hh [bl Hl]. unfold rollbackC4.
  apply ends_bind, (ends_mono _ _ _ _ (journalState_holds JournalRollingBack h eq_refl Hh)). intros r h1 (N1 & H1 & Hr1).
  destruct (near_still _ _ _ N1 ltac:(by intros ? <-)) as [L1 _]. rewrite Hl in L1.
  destruct r as [[]|e|]; cbn [next]; [|by destruct (Hr1 e)|by left].
  apply ends_bind, ends_attempt, ends_LoadPreCopies. intros h2 E2. rewrite <- E2 in H1, L1. split_and!; [by left|intros e; apply ends_ret; by right|].
  intros _. cbn [next]. rewrite <- E2. set (pre := listing _ _).
  apply ends_bind, (ends_LiveFile role _ h2 bl); [apply H1|done|]. intros h3 E3. rewrite <- E3 in H1. split; [by left|]. cbn [next].
  assert (∀ p, p ∈ pre → objs (st h3) !! Pre rev p = Some b0) as Hpre.
  { intros p Hp%pre_listing. rewrite E3. destruct Hp as [b Hb]. rewrite E3 in H1. destruct H1 as (_ & _ & Hs & _). by destruct (Hs p b Hb) as [_ <-]. }
  clearbody pre. apply ends_bind, ends_attempt. destruct (Nat.eqb_spec (length pre) 0) as [|Hne]; [apply ends_fail; cbn [next]; apply ends_ret; by right|].
  assert (pick pre ∈ pre) as Hp by (apply pick_in; by intros ->). specialize (Hpre _ Hp). apply ends_RestoreFile. intros h4 [N4 _].
  assert (held (st h4)) as H4 by (apply (held_near _ _ _ N4); [by intros ? ->|done]).
  split_and!; [by left|intros e; cbn [next]; apply ends_ret; by right|]. intros _ L4. rewrite Hpre in L4. cbn [next].
  apply ends_bind, ends_attempt, ends_RestartService. intros h5 R5. destruct (restarted_held _ _ R5 H4) as [H5 O5].
  split_and!; [by left|intros e; cbn [next]; apply ends_ret; by right|]. rewrite L4. intros V5. cbn [next]. rewrite <- O5 in L4.
  apply ends_bind, ends_attempt.
  destruct near_ending as (NC & NJ & NW).
  assert (∀ r h', st h' = st h5 → next (λ r : res agent_error unit, match r with
      | Err _ => mret (lit "recovery-required")
      | Ok _ => _ ← ignore (writePointer torn HeadFile parent); _ ← journalState' JournalRolledBack; _ ← clearJournal; mret (lit "rolled-back")
      end) (λ r h', match r with
    | Done o => o = lit "rolled-back" ∧ objs (st h') !! Live role = Some b0 ∧ running (st h') !! role = Some (Some b0) ∨
                o = lit "recovery-required" ∧ held (st h')
    | Dead => held (st h') ∨ objs (st h') !! Live role = Some b0
    | Fail _ => False
    end) (match r with Done a => Done (Ok a) | Fail e => Done (Err e) | Dead => Dead end) h') as Hrest.
  { intros r h6 E6. rewrite <- E6 in H5, L4, V5. destruct r as [[]|e|]; cbn [next]; [|by apply ends_ret; right|by left].
    assert (∀ h', near ending (st h6) (st h') → objs (st h') !! Live role = Some b0 ∧ running (st h') !! role = Some (Some b0)) as Hend.
    { intros h' [EL EV]%ending_still. by rewrite EL, EV. }
    apply (ends_quiet (near ending) _ _ _ h6); [done|apply NW|unfail|intros h' K; right; by apply Hend|]. intros _ h7 N7.
    apply (ends_quiet (near ending) _ _ _ h6); [done|apply NJ|unfail|intros h' K; right; by apply Hend|]. intros _ h8 N8.
    apply (ends_quiet (near ending) _ _ _ h6); [done|apply NC|unfail|intros h' K; right; by apply Hend|]. intros _ h9 N9.
    apply ends_ret. left. by split; [|apply Hend]. }
  destruct gate as [g|] eqn:Eg; [|by apply ends_ret, (Hrest (Done ()))]. destruct xray; [|by apply ends_ret, (Hrest (Done ()))].
  destruct (gate_quiet g eq_refl) as [Hg _]. apply (ends_frame eq); [apply Hg|]. intros r h6 E6.
  destruct r as [a|e|]; [by apply (Hrest (Done a) h6)|by apply (Hrest (Fail e) h6)|by apply (Hrest Dead h6)].
Qed.

(** ** The write phase as a whole *)

Definition applied (new : list byte) (d : disk) : Prop :=
  objs d !! Live role = Some new ∧ running d !! role = Some (Some new) ∧ objs d !! HeadFile = Some rev.

Definition closing (p : path) : Prop := p = JournalFile ∨ p = LkgFile ∨ p = AuditFile.

Lemma near_applied new d d' : near closing d d' → applied new d → applied new d'.
Proof.
  intros (N1 & N2 & _) (H1 & H2 & H3). split_and!; [|by rewrite N2|]; rewrite N1; try done; intros [[?|[?|?]]|[]]; done.
Qed.

(** How the write phase may end; [d0]: before it. *)
Definition written (parent : gostring) (new : list byte) (d0 : disk) (r : outcome agent_error (TxResult * code)) (h : host) : Prop :=
  match r with
  | Done (res, c) =>
      c = ErrCodeInternal ∧ still d0 (st h) ∧ objs (st h) !! HeadFile = objs d0 !! HeadFile
      ∨ c = NoCode ∧ Outcome res = lit "rolled-back" ∧ objs (st h) !! Live role = Some b0 ∧ running (st h) !! role = Some (Some b0)
      ∨ c = NoCode ∧ Outcome res = lit "recovery-required" ∧ held (st h)
      ∨ c = NoCode ∧ res = mkResult (lit "committed") rev parent ∧ applied new (st h)
  | Dead => held (st h) ∨ objs (st h) !! Live role = Some b0 ∨ applied new (st h)
  | Fail _ => False
  end.

Lemma ends_BackupFile (Q : outcome agent_error unit → host → Prop) h :
  (∀ r h', near (eq (Backup role)) (st h) (st h') → Q r h') → ends (BackupFile torn role (Live role)) Q h.
Proof. intros HQ. apply (ends_frame (near (eq (Backup role)))); [apply near_BackupFile; done|done]. Qed.

Lemma ends_closing parent new h :
  applied new (st h) →
  ends (_ ← clearJournal;
        _ ← (if streqb parent [] then mret () else ignore (PromoteLKG torn parent));
        t ← Now;
        _ ← onMem (λ m, m <| rlShort := RecordApply t (rlShort m) |>);
        t ← Now;
        _ ← onMem (λ m, m <| rlLong := RecordApply t (rlLong m) |>);
        mret (mkResult (lit "committed") rev parent, NoCode)) (λ r h', match r with
    | Done x => x = (mkResult (lit "committed") rev parent, NoCode) ∧ applied new (st h') | Dead => applied new (st h') | Fail _ => False end) h.
Proof.
  intros Ha. assert (closing JournalFile) by (by left). assert (closing LkgFile) by (right; by left).
  assert (∀ h', near closing (st h) (st h') → applied new (st h')) as Hn by (intros h' N; by apply (near_applied _ _ _ N)).
  apply (ends_quiet (near closing) _ _ _ h); [done|frame|unfail|done|]. intros _ h1 N1.
  apply (ends_quiet (near closing) _ _ _ h); [done|unfold PromoteLKG; frame|unfail|done|]. intros _ h2 N2.
  apply (ends_quiet (near closing) _ _ _ h); [done|frame|unfail|done|]. intros t h3 N3.
  apply (ends_quiet (near closing) _ _ _ h); [done|frame|unfail|done|]. intros _ h4 N4.
  apply (ends_quiet (near closing) _ _ _ h); [done|frame|unfail|done|]. intros t' h5 N5.
  apply (ends_quiet (near closing) _ _ _ h); [done|frame|unfail|done|]. intros _ h6 N6. apply ends_ret. by split; [|apply Hn].
Qed.

Lemma ends_writePhase parent new xray meta unsaved h :
  m_ID meta = rev → held (st h) → objs (st h) !! Live role = Some b0 → objs (st h) !! Cand role = Some new →
  ends (writePhase sha256 torn kept pick MarshalMeta MarshalEntry UnmarshalEntry gate role rev parent (Cand role) (Some (Live role)) xray meta unsaved)
    (written parent new (st h)) h.
Proof.
  intros Hid Hh Hl Hc. unfold writePhase. apply ends_bind, ends_attempt, ends_BackupFile. intros r h1 N1.
  assert (held (st h1)) as H1 by (apply (held_near _ _ _ N1); [by intros ? <-|done]).
  assert (still (st h) (st h1)) as S1 by (apply (near_still _ _ _ N1); by intros ? <-).
  assert (objs (st h1) !! HeadFile = objs (st h) !! HeadFile) as E1 by (apply N1; by intros [?|[]]).
  assert (objs (st h1) !! Cand role = Some new) as C1 by (rewrite <- Hc; apply N1; by intros [?|[]]).
  assert (objs (st h1) !! Live role = Some b0) as L1 by (destruct S1 as [E _]; by rewrite E).
  destruct r as [[]|e|]; cbn [next]; [| |by left].
  - apply ends_bind, ends_attempt, (ends_mono _ _ _ _ (ends_swapAndCommit parent new xray meta h1 Hid H1 L1 C1)).
    intros r h2 (H2 & Ei2 & Hd2). destruct r as [[]|e|]; cbn [next]; [| |by left].
    + apply (ends_mono _ _ _ _ (ends_closing parent new h2 (Hd2 eq_refl))). intros [x|e|] h3 H3; [|done|by right; right].
      destruct H3 as [-> H3]. by right; right; right.
    + apply ends_bind, (ends_mono _ _ _ _ (ends_rollbackC4 parent xray h2 H2 ltac:(destruct Ei2 as [E|E]; rewrite E; by eexists))).
      intros [o|e'|] h3 H3; [|done|by destruct H3; [left|right; left]]. cbn [next]. apply ends_ret.
      destruct H3 as [(-> & L3 & V3)|[-> H3]]; [by right; left|by right; right; left].
  - assert (closing JournalFile) by (by left). assert (∀ h', near closing (st h1) (st h') → still (st h) (st h') ∧ objs (st h') !! HeadFile = objs (st h) !! HeadFile) as Hn.
    { intros h' N. split; [apply (still_trans _ _ _ S1), (near_still _ _ _ N); by intros ? [-> |[-> | ->]]|].
      rewrite <- E1. apply N. by intros [[?|[?|?]]|[]]. }
    apply (ends_quiet (near closing) _ _ _ h1); [done|frame|unfail| |].
    + intros h' [[E _] _]%Hn. right. left. by rewrite E.
    + intros _ h2 N2. apply ends_ret. left. split; [done|]. by apply Hn.
Qed.
End outcome.
