(* ===== verification/AgentEnds.v ===== *)
(** * How an apply of the control agent ends, from the first guard on

    The preparation of a change touches nothing the splitter reads; with the
    write phase of AgentOutcome.v the whole apply of a policy change ends in one
    of four ways, or the process dies and what it leaves is recoverable. *)
From S2P Require Import Pairing.
From S2P Require Export AgentOutcome.
#[local] Open Scope Z_scope.

#[local] Abbreviation host := (Host.host disk).
#[local] Abbreviation M := (Host.M disk agent_error).
#[local] Abbreviation idle := (near (λ _, False)).

Lemma idle_near P d d' : idle d d' → near P d d'.
Proof. intros N. by apply (near_within _ _ _ _ N). Qed.

Lemma idle_objs d d' : idle d d' → objs d' = objs d.
Proof. intros (H & _). apply map_eq. intros p. apply H, nothing. Qed.

(** ** The snapshot *)

Section snapshot.
Context (sha256 : list byte → list byte) (torn : list byte → list byte).

(** The files of pre/ of a revision. *)
Definition pre_file (id : gostring) (p : path) : Prop := ∃ r, p = Pre id r.

Lemma pre_file_Pre id r : pre_file id (Pre id r).
Proof. by exists r. Qed.
#[local] Hint Resolve pre_file_Pre : near.

Lemma but_pre id r d d' : but (Pre id r) d d' → near (pre_file id) d d'.
Proof. intros [N _]. apply (near_within _ _ _ _ N). intros q ->. apply within_here, pre_file_Pre. Qed.

(** A copy that is verified has the bytes of the source, and no other file of the snapshot has changed. *)
Lemma ends_copyPre id rel src (Q : outcome agent_error unit → host → Prop) h b0 :
  objs (st h) !! src = Some b0 → (∀ s, rel ≠ lit ".tmp-" ++ s) →
  (∀ h', near (pre_file id) (st h) (st h') → Q Dead h' ∧ (∀ e, Q (Fail e) h') ∧
     (objs (st h') !! Pre id rel = Some b0 → (∀ r, r ≠ rel → objs (st h') !! Pre id r = objs (st h) !! Pre id r) → Q (Done ()) h')) →
  ends (copyFileVerified sha256 torn (Pre id) rel src) Q h.
Proof.
  intros Hsrc Hrel HQ.
  assert (∀ h', near (pre_file id) (st h) (st h') → Q Dead h' ∧ ∀ e, Q (Fail e) h') as Hbad.
  { intros h' N. destruct (HQ h' N) as (H1 & H2 & _). by split. }
  assert (∀ h', idle (st h) (st h') → Q Dead h' ∧ ∀ e, Q (Fail e) h') as Hidle by (intros h' N; by apply Hbad, idle_near).
  unfold copyFileVerified. destruct (rel_ok rel); cbn [negb]; [|by apply ends_fail, Hidle].
  apply (ends_step idle _ _ _ h); [done|frame|done|]. intros _ h1 N1.
  apply (ends_step idle _ _ _ h); [done|frame|done|]. intros _ h2 N2.
  apply ends_bind, ends_readFile. intros h3 E3. rewrite <- E3 in N2. split_and!; [by apply Hidle|by apply Hidle|].
  intros b Hb. cbn [next]. rewrite <- E3, (idle_objs _ _ N2), Hsrc in Hb. injection Hb as <-.
  apply (ends_step idle _ _ _ h); [done|frame|done|]. intros _ h4 N4.
  apply (ends_step idle _ _ _ h); [done|frame|done|]. intros s h5 N5.
  apply (ends_step idle _ _ _ h); [done|frame|done|]. intros _ h6 N6.
  apply ends_bind, ends_peek. cbn [next]. set (t := lit ".tmp-" ++ _).
  destruct (decide (is_Some (objs (st h6) !! Pre id t))) as [|Ht]; [by apply ends_fail, Hidle|]. apply eq_None_not_Some in Ht.
  assert (t ≠ rel) as Htr by (intros E; by eapply Hrel). clearbody t.
  apply ends_bind, ends_put. intros h7 E7. cbn [next]. assert (but (Pre id t) (st h6) (st h7)) as B7 by (rewrite E7; apply but_put, but_refl).
  apply ends_bind, ends_attempt, (ends_mono _ _ _ _ (ends_replaceSteps torn (Pre id t) (Pre id rel) b0 h7 ltac:(by intros [= ?]))).
  assert (∀ h', but (Pre id t) (st h7) (st h') → near (pre_file id) (st h) (st h')) as Hbut.
  { intros h' B. etrans; [apply (idle_near _ _ _ N6)|]. etrans; [apply (but_pre _ _ _ _ B7)|apply (but_pre _ _ _ _ B)]. }
  intros [[]|e|] h8 H8; cbn [next]; [| |by apply Hbad, Hbut].
  - destruct H8 as (H8 & Ht8 & N8' & O8). assert (near (pre_file id) (st h) (st h8)) as N8.
    { etrans; [apply (Hbut h7), but_refl|]. apply (near_within _ _ _ _ N8'). intros q [-> | ->]; apply within_here, pre_file_Pre. }
    assert (∀ r, r ≠ rel → objs (st h8) !! Pre id r = objs (st h) !! Pre id r) as O.
    { intros r Hr. rewrite <- (idle_objs _ _ N6). destruct (decide (r = t)) as [->|Hrt]; [by rewrite Ht8|].
      rewrite O8 by (by intros [= ?]). by apply B7; intros [= ?]. }
    apply ends_bind, ends_ret. cbn [next].
    assert (∀ h', idle (st h8) (st h') → Q Dead h' ∧ ∀ e, Q (Fail e) h') as Hlast by (intros h' N; apply Hbad; etrans; [done|by apply idle_near]).
    apply (ends_step idle _ _ _ h8); [done|frame|done|]. intros x h9 N9.
    apply (ends_step idle _ _ _ h8); [done|frame|done|]. intros y h10 N10. destruct (streqb x y).
    + apply ends_ret. destruct (HQ h10) as (_ & _ & Hd); [etrans; [exact N8|by apply idle_near]|]. apply Hd; rewrite (idle_objs _ _ N10); [done|apply O].
    + apply ends_bind, ends_ignore_remove. intros h11 B11. assert (near (pre_file id) (st h) (st h11)) as N11.
      { etrans; [exact N8|]. etrans; [apply (idle_near _ _ _ N10)|apply (but_pre _ _ _ _ B11)]. }
      split; [by apply Hbad|]. cbn [next]. by apply ends_fail, Hbad.
  - apply ends_bind, ends_bind, ends_ignore_remove. intros h9 B9. assert (near (pre_file id) (st h) (st h9)) as N9.
    { etrans; [apply (Hbut h8 H8)|apply (but_pre _ _ _ _ B9)]. }
    split; [by apply Hbad|]. cbn [next]. apply ends_fail. cbn [next]. by apply Hbad.
Qed.

Lemma ends_ensureDir id files (Q : outcome agent_error unit → host → Prop) h :
  (∀ h', idle (st h) (st h') → Q Dead h' ∧ (∀ e, Q (Fail e) h') ∧ ((id, files) ∈ dirs (st h') → Q (Done ()) h')) →
  ends (ensureDir id files) Q h.
Proof.
  intros HQ. unfold ensureDir. apply ends_bind, ends_call. intros h1 E1. destruct (HQ h1 (near_same _ _ _ E1)) as (D1 & F1 & O1).
  split; [done|]. intros ok. cbn [next]. apply ends_bind, ends_peek. cbn [next]. destruct (decide _) as [[_ ?]|_]; [by apply ends_ret, O1|].
  apply ends_bind, ends_sys. intros h2 E2. rewrite E1 in E2. destruct (HQ h2 (near_same _ _ _ E2)) as (D2 & F2 & _).
  split_and!; [done|by apply F2|]. cbn [next]. apply ends_bind, ends_modify. intros h3 E3. cbn [next].
  assert (idle (st h) (st h3)) as N3 by (rewrite E3, <- E2; split_and!; try done; set_solver).
  assert ((id, files) ∈ dirs (st h3)) as Hin by (rewrite E3; cbn; set_solver).
  apply ends_sys. intros h4 E4. rewrite <- E4 in N3, Hin. destruct (HQ h4 N3) as (D4 & F4 & O4). split_and!; [done|by apply F4|by apply O4].
Qed.

(** The snapshot of one file. *)
Lemma ends_PreSnapshot id rel src (Q : outcome agent_error unit → host → Prop) h b0 :
  objs (st h) !! src = Some b0 → (∀ s, rel ≠ lit ".tmp-" ++ s) →
  (∀ h', near (pre_file id) (st h) (st h') → Q Dead h' ∧ (∀ e, Q (Fail e) h') ∧
     ((id, false) ∈ dirs (st h') → objs (st h') !! Pre id rel = Some b0 → (∀ r, r ≠ rel → objs (st h') !! Pre id r = objs (st h) !! Pre id r) →
      Q (Done ()) h')) →
  ends (PreSnapshot sha256 torn id [(rel, src)]) Q h.
Proof.
  intros Hsrc Hrel HQ. unfold PreSnapshot. destruct (validateStoreToken id); cbn [negb]; [|by apply ends_fail, HQ].
  apply ends_bind, ends_ensureDir. intros h1 N1. destruct (HQ h1 (idle_near _ _ _ N1)) as (D1 & F1 & _). split_and!; [done|done|].
  intros Hin. cbn [next copyAll]. rewrite <- (idle_objs _ _ N1) in Hsrc.
  apply ends_bind, (ends_copyPre _ _ _ _ _ b0); [done|done|]. intros h2 N2.
  assert (near (pre_file id) (st h) (st h2)) as N by (etrans; [by apply idle_near|done]).
  destruct (HQ h2 N) as (D2 & F2 & O2). split_and!; [done|done|]. intros Hp Ho. cbn [next]. apply ends_ret, O2; [by apply N2|done|].
  intros r Hr. by rewrite Ho, (idle_objs _ _ N1).
Qed.
End snapshot.

(** ** The apply of a policy change *)

Section apply.
Context (unicode_lower : gostring → gostring) (sha256 : list byte → list byte) (torn : list byte → list byte).
Context (kept : path → bool) (pick : list gostring → gostring).
Context (MarshalMeta : RevisionMeta → list byte) (UnmarshalMeta : list byte → option RevisionMeta).
Context (MarshalEntry : ControlJournalEntry → list byte) (UnmarshalEntry : list byte → option ControlJournalEntry).
Context (MarshalAudit : AuditEntry → list byte) (gate : option XrayGate).
Hypothesis entry_roundtrip : ∀ j, UnmarshalEntry (MarshalEntry j ++ [x0a]) = Some j.
Hypothesis pick_in : ∀ l, l ≠ [] → pick l ∈ l.
Hypothesis gate_quiet : ∀ g, gate = Some g →
  (∀ role, frames eq (RestartXray role)) ∧ (∀ role, frames eq (VerifyXray role)).
Context (op : ApplyOp) (b0 : list byte).
#[local] Abbreviation role := (cc_Role (Change op)).
#[local] Abbreviation held' rev hash := (held MarshalEntry role rev hash b0).

(** The environment a commit leaves live: the change over the old one, or over nothing if that could not be read. *)
Definition candidate (b : list byte) : Prop :=
  b = renderEnv (mcMerge (parseEnvFile b0) (cc_Set (Change op))) ∨ b = renderEnv (mcMerge ∅ (cc_Set (Change op))).

(** The live file is [b0] and a snapshot of it is in flight, or the revision is the head. *)
Definition recoverable (d : disk) : Prop := ∃ rev hash, held' rev hash d.

Definition committed (rev : gostring) (d : disk) : Prop := ∃ new, candidate new ∧ applied role rev new d.

(** How an apply that started in [d0] may end. *)
Definition apply_ends (d0 : disk) (r : outcome agent_error (TxResult * code)) (h : host) : Prop :=
  match r with
  | Done (res, c) =>
      c ≠ NoCode ∧ still role d0 (st h) ∧ objs (st h) !! HeadFile = objs d0 !! HeadFile
      ∨ c = NoCode ∧ (Outcome res = lit "rolled-back" ∧ objs (st h) !! Live role = Some b0 ∧ running (st h) !! role = Some (Some b0)
                      ∨ Outcome res = lit "recovery-required" ∧ recoverable (st h)
                      ∨ ∃ rev parent, res = mkResult (lit "committed") rev parent ∧ committed rev (st h))
  | Dead => objs (st h) !! Live role = Some b0 ∨ recoverable (st h) ∨ ∃ rev, committed rev (st h)
  | Fail _ => False
  end.

(** What the preparation writes. *)
Definition prep (p : path) : Prop := match p with JournalFile | Cand _ | Pre _ _ => True | _ => False end.
#[local] Hint Extern 1 (prep _) => exact I : near.

Lemma prep_still d d' : near prep d d' → still role d d' ∧ objs d' !! HeadFile = objs d !! HeadFile.
Proof. intros N. split; [apply (near_still _ _ _ _ N); by intros []|]. apply N. by intros [[]|[]]. Qed.

Lemma prep_refused d0 h c res : near prep d0 (st h) → c ≠ NoCode → apply_ends d0 (Done (res, c)) h.
Proof. intros N Hc. left. split; [done|]. by apply prep_still. Qed.

Lemma prep_dead d0 h : objs d0 !! Live role = Some b0 → near prep d0 (st h) → apply_ends d0 Dead h.
Proof. intros Hl [[E _] _]%prep_still. left. by rewrite E. Qed.

Lemma refuse_prep d0 h c : near prep d0 (st h) → c ≠ NoCode → ends (refuse c) (apply_ends d0) h.
Proof. intros N Hc. apply ends_ret. by apply prep_refused. Qed.

(** A refusal that clears the journal first. *)
Lemma clear_prep d0 h c :
  objs d0 !! Live role = Some b0 → near prep d0 (st h) → c ≠ NoCode → ends (_ ← clearJournal; refuse c) (apply_ends d0) h.
Proof.
  intros Hl N Hc. apply (ends_quiet (near prep) _ _ _ (mkHost d0 [])); [done|frame|unfail|intros h' K; by apply prep_dead|].
  intros _ h' N'. by apply refuse_prep.
Qed.

Lemma ends_writeJournal j (Q : outcome agent_error unit → host → Prop) h :
  (∀ h', near (eq JournalFile) (st h) (st h') → Q Dead h' ∧ (∀ e, Q (Fail e) h') ∧
     (entry_ok j = true → objs (st h') !! JournalFile = Some (MarshalEntry j ++ [x0a]) → Q (Done ()) h')) →
  ends (writeJournal torn MarshalEntry j) Q h.
Proof.
  intros HQ. unfold writeJournal. destruct (entry_ok j) eqn:Hj; cbn [negb]; [|by apply ends_fail, HQ].
  apply ends_bind, ends_sys. intros h1 E1. destruct (HQ h1 (near_same _ _ _ E1)) as (D1 & F1 & _). split_and!; [done|by apply F1|]. cbn [next].
  apply ends_bind, ends_sys. intros h2 E2. rewrite E1 in E2. destruct (HQ h2 (near_same _ _ _ E2)) as (D2 & F2 & _). split_and!; [done|by apply F2|].
  cbn [next]. apply (ends_mono _ _ _ _ (ends_replaceFile torn JournalFile _ h2)). intros r h3 [N3 H3]. rewrite E2 in N3.
  destruct (HQ h3 N3) as (D3 & F3 & O3). destruct r as [[]|e|]; [by apply O3|by apply F3|done].
Qed.

Lemma ends_baseEnv (Q : outcome agent_error env → host → Prop) h :
  misses (st h) = [] → objs (st h) !! Live role = Some b0 →
  (∀ h', st h' = st h → Q Dead h' ∧ Q (Done (parseEnvFile b0)) h' ∧ Q (Done ∅) h') → ends (baseEnv role) Q h.
Proof.
  intros Hm Hl HQ. unfold baseEnv. apply ends_bind, ends_attempt. unfold BaseEnv. apply ends_bind, (ends_LiveFile role _ h b0); [done|done|].
  intros h1 E1. split; [by apply HQ|]. cbn [next]. apply ends_bind, ends_readFile. intros h2 E2. rewrite E1 in E2.
  destruct (HQ h2 E2) as (D2 & O2 & F2). split_and!; [done|by intros e|]. intros b Hb. rewrite E1, Hl in Hb. injection Hb as <-. done.
Qed.

Lemma ends_readHeld rev hash (Q : outcome agent_error (res agent_error (option ControlJournalEntry)) → host → Prop) h :
  held' rev hash (st h) →
  (∀ h', st h' = st h → Q Dead h' ∧ (∀ e, Q (Done (Err e)) h') ∧ Q (Done (Ok None)) h' ∧
     ∀ j, of_change role rev hash j → Q (Done (Ok (Some j))) h') →
  ends (attempt (readJournal UnmarshalEntry)) Q h.
Proof.
  intros (_ & (j & Hj & Hok & Hks & Hrest) & _) HQ. apply ends_attempt. unfold readJournal. apply ends_bind, ends_attempt, ends_readFile.
  intros h1 E1. destruct (HQ h1 E1) as (D1 & F1 & N1 & O1). split_and!; [done|intros e; cbn [next]; by destruct e; [apply ends_fail|apply ends_fail|apply ends_ret|apply ends_fail]|].
  intros b Hb. rewrite Hj in Hb. injection Hb as <-. cbn [next]. rewrite entry_roundtrip, Hks. apply ends_ret, O1. by split.
Qed.

Lemma ends_WriteCandidate base set (Q : outcome agent_error path → host → Prop) h :
  (∀ h', near (eq (Cand role)) (st h) (st h') → Q Dead h' ∧ (∀ e, Q (Fail e) h') ∧
     (objs (st h') !! Cand role = Some (renderEnv (mcMerge base set)) → Q (Done (Cand role)) h')) →
  ends (WriteCandidate torn role base set) Q h.
Proof.
  intros HQ. unfold WriteCandidate. apply ends_bind, ends_call. intros h1 E1. destruct (HQ h1 (near_same _ _ _ E1)) as (D1 & _). split; [done|].
  intros ok. cbn [next]. apply ends_bind, (ends_mono _ _ _ _ (ends_replaceFile torn (Cand role) _ h1)). intros r h2 [N2 H2]. rewrite E1 in N2.
  destruct (HQ h2 N2) as (D2 & F2 & O2). destruct r as [[]|e|]; cbn [next]; [by apply ends_ret, O2|by apply F2|done].
Qed.

Lemma held_aside rev hash P d d' : near P d d' → (∀ p, P p → aside p) → held' rev hash d → held' rev hash d'.
Proof. apply held_near. Qed.

Lemma known_name r : known r = true → ∀ s, live_name r ≠ lit ".tmp-" ++ s.
Proof. unfold known. intros [->%streqb_true | ->%streqb_true]%orb_true_iff s; done. Qed.

(** The write phase keeps what was promised. *)
Lemma written_ends rev hash parent new d0 d1 r h :
  near prep d0 d1 → candidate new → written MarshalEntry role rev hash b0 parent new d1 r h → apply_ends d0 r h.
Proof.
  intros N Hnew. destruct (prep_still _ _ N) as [S E]. destruct r as [[res c]|e|]; [|done|]; cbn.
  - intros [(-> & S' & E')|[(-> & Ho & H)|[(-> & Ho & H)|(-> & -> & H)]]].
    + left. split; [done|]. split; [by apply (still_trans _ _ _ _ S)|by rewrite E'].
    + right. split; [done|]. by left.
    + right. split; [done|]. right. left. split; [done|]. by exists rev, hash.
    + right. split; [done|]. right. right. exists rev, parent. split; [done|]. by exists new.
  - intros [H|[H|H]]; [right; left; by exists rev, hash|by left|right; right; exists rev; by exists new].
Qed.

(** The parts of [applyRevision], from the last. *)
#[local] Abbreviation validated changeID head revID cand := (
  r ← attempt (SeamValidate cand);
  match r with
  | Err _ => _ ← clearJournal; refuse ErrCodeValidation
  | Ok _ =>
      writePhase sha256 torn kept pick MarshalMeta MarshalEntry UnmarshalEntry gate role revID head cand (Some (Live role)) false
        (mkMeta revID head changeID (op_Actor op) role (lit "splitter-policy") None (lit "committed") [] [] ∅) []
  end).

#[local] Abbreviation rendered changeID head revID base := (
  r ← attempt (WriteCandidate torn role base (cc_Set (Change op)));
  match r with
  | Err _ => _ ← clearJournal; refuse ErrCodeValidation
  | Ok cand =>
      j ← attempt (readJournal UnmarshalEntry);
      _ ← match j with
          | Ok (Some j) =>
              r ← attempt (HashFile sha256 cand);
              ignore (writeJournal torn MarshalEntry (j <| NewHash := match r with Ok h => h | Err _ => [] end |>))
          | _ => mret ()
          end;
      validated changeID head revID cand
  end).

(** What holds while the change is prepared, with its journal written. *)
Definition prepared_in (d0 : disk) (rev hash : gostring) (d : disk) : Prop :=
  objs d0 !! Live role = Some b0 ∧ near prep d0 d ∧ held' rev hash d.

Lemma prepared_live d0 rev hash d : prepared_in d0 rev hash d → misses d = [] ∧ objs d !! Live role = Some b0.
Proof. intros (Hl & [[E _] _]%prep_still & Hm & _). by rewrite E. Qed.

Lemma prepared_step d0 rev hash P d d' :
  prepared_in d0 rev hash d → near P d d' → (∀ p, P p → prep p ∧ aside p) → prepared_in d0 rev hash d'.
Proof.
  intros (Hl & N0 & H) N HP. split_and!; [done| |apply (held_aside _ _ _ _ _ N); [apply HP|done]].
  etrans; [exact N0|]. apply (near_within _ _ _ _ N). intros p Hp. by apply within_here, HP.
Qed.

Lemma prepared_idle d0 rev hash d d' : prepared_in d0 rev hash d → idle d d' → prepared_in d0 rev hash d'.
Proof. intros H N. by apply (prepared_step _ _ _ _ _ _ H N). Qed.

Lemma prepared_dead d0 rev hash h : prepared_in d0 rev hash (st h) → apply_ends d0 Dead h.
Proof. intros (Hl & N & _). by apply prep_dead. Qed.

Lemma prepared_clear d0 rev hash h c :
  prepared_in d0 rev hash (st h) → c ≠ NoCode → ends (_ ← clearJournal; refuse c) (apply_ends d0) h.
Proof. intros (Hl & N & _). by apply clear_prep. Qed.

Lemma ends_validated changeID head rev hash new d0 h :
  candidate new → prepared_in d0 rev hash (st h) → objs (st h) !! Cand role = Some new →
  ends (validated changeID head rev (Cand role)) (apply_ends d0) h.
Proof.
  intros Hnew Hp Hc. apply ends_bind, ends_attempt, (ends_frame idle); [frame|]. intros r h1 N1.
  pose proof (prepared_idle _ _ _ _ _ Hp N1) as H1. rewrite <- (idle_objs _ _ N1) in Hc.
  destruct r as [u|e|]; cbn [next]; [|by apply (prepared_clear _ rev hash)|by apply (prepared_dead _ rev hash)].
  destruct (prepared_live _ _ _ _ H1) as [_ L1]. destruct H1 as (_ & P1 & K1). eapply ends_mono.
  - by apply (ends_writePhase sha256 torn kept pick MarshalMeta UnmarshalMeta MarshalEntry UnmarshalEntry gate entry_roundtrip pick_in gate_quiet
      role rev hash b0 head new false).
  - intros r h2 Hw. by apply (written_ends rev hash head new d0 (st h1)).
Qed.

Lemma ends_rendered changeID head rev hash base d0 h :
  candidate (renderEnv (mcMerge base (cc_Set (Change op)))) → prepared_in d0 rev hash (st h) →
  ends (rendered changeID head rev base) (apply_ends d0) h.
Proof.
  intros Hnew Hp. apply ends_bind, ends_attempt, ends_WriteCandidate. intros h1 N1.
  assert (prepared_in d0 rev hash (st h1)) as H1 by (apply (prepared_step _ _ _ _ _ _ Hp N1); by intros p <-).
  split_and!; [by apply (prepared_dead _ rev hash)|intros e; cbn [next]; by apply (prepared_clear _ rev hash)|]. intros Hc. cbn [next].
  apply ends_bind, (ends_readHeld rev hash); [apply H1|]. intros h2 E2. rewrite <- E2 in H1, Hc.
  assert (ends (_ ← mret (); validated changeID head rev (Cand role)) (apply_ends d0) h2) as Hskip.
  { apply ends_bind, ends_ret. by apply (ends_validated _ _ _ hash _ _ _ Hnew). }
  split_and!; [by apply (prepared_dead _ rev hash)|by intros e|done|]. intros j Hoc. cbn [next].
  apply ends_bind, ends_bind, ends_attempt, (ends_frame idle); [frame|]. intros r h3 N3.
  pose proof (prepared_idle _ _ _ _ _ H1 N3) as H3. rewrite <- (idle_objs _ _ N3) in Hc.
  assert (∀ x, ends (ignore (writeJournal torn MarshalEntry (j <| NewHash := x |>)))
    (next (λ _ : unit, validated changeID head rev (Cand role)) (apply_ends d0)) h3) as Hwrite.
  { intros x. eapply ends_mono; [apply (writeJournal_holds torn MarshalEntry role rev hash b0 (j <| NewHash := x |>) h3); [by destruct j|apply H3]|].
    intros r' h4 (N4 & K4 & Hr4). assert (prepared_in d0 rev hash (st h4)) as H4.
    { split_and!; [apply H1| |done]. etrans; [apply H3|]. apply (near_within _ _ _ _ N4). by intros p <-; apply within_here. }
    destruct r' as [u|e|]; cbn [next]; [|by destruct (Hr4 e)|by apply (prepared_dead _ rev hash)].
    apply (ends_validated _ _ _ hash _ _ _ Hnew); [done|]. rewrite <- Hc. apply N4. by intros [?|[]]. }
  destruct r as [x|e|]; cbn [next]; [apply Hwrite|apply Hwrite|by apply (prepared_dead _ rev hash)].
Qed.

(** The snapshot and the first journal entry start it. *)
Lemma snapshot_kept rev d1 d2 :
  near (eq JournalFile) d1 d2 → snapshot role rev b0 d1 → snapshot role rev b0 d2.
Proof.
  intros N [H1 H2]. assert (∀ p, p ≠ JournalFile → (∀ z q, p ≠ Tmp z q) → objs d2 !! p = objs d1 !! p) as Hsame.
  { intros p Hp Ht. apply N. intros Hw. destruct p; cbn in Hw; try (by destruct Hw). by eapply Ht. }
  split; [intros rel b; rewrite Hsame by done; apply H1|]. rewrite !Hsame by done.
  destruct H2 as [[? ?]|?]; [left; split; [done|]; by apply N|by right].
Qed.

Lemma ends_applyRevision changeID head rev h :
  known role = true → misses (st h) = [] → objs (st h) !! Live role = Some b0 → (∀ r, objs (st h) !! Pre rev r = None) →
  ends (applyRevision sha256 torn kept pick MarshalMeta MarshalEntry UnmarshalEntry gate op changeID head rev) (apply_ends (st h)) h.
Proof.
  intros Hk Hm Hl Hfresh. set (d0 := st h). unfold applyRevision.
  apply ends_bind, (ends_LiveFile role _ h b0); [done|done|]. intros h1 E1. split; [apply prep_dead; [done|by rewrite E1]|]. cbn [next snapshot_of].
  apply ends_bind, ends_attempt, (ends_PreSnapshot _ _ _ _ _ _ _ b0); [by rewrite E1|by apply known_name|]. intros h2 N2. rewrite E1 in N2.
  assert (near prep d0 (st h2)) as P2 by (apply (near_within _ _ _ _ N2); by intros p [r ->]; apply within_here).
  split_and!; [by apply prep_dead|intros e; cbn [next]; by apply refuse_prep|]. intros Hin Hpre Hother. cbn [next]. rewrite E1 in Hother.
  assert (snapshot role rev b0 (st h2)) as S2.
  { split; [|left; by split]. intros rel b Hb. destruct (decide (rel = live_name role)) as [->|Hr].
    - rewrite Hpre in Hb. by injection Hb as <-.
    - by rewrite Hother, Hfresh in Hb. }
  apply (ends_quiet idle _ _ _ h2); [done|frame|unfail|intros h' N; apply prep_dead; [done|]; etrans; [exact P2|by apply idle_near]|].
  intros preHash h3 N3. assert (near prep d0 (st h3)) as P3 by (etrans; [exact P2|by apply idle_near]).
  assert (snapshot role rev b0 (st h3)) as S3 by (by apply (snapshot_kept _ _ _ (idle_near _ _ _ N3))).
  apply ends_bind, ends_attempt, ends_writeJournal. intros h4 N4.
  assert (near prep d0 (st h4)) as P4 by (etrans; [exact P3|]; apply (near_within _ _ _ _ N4); by intros p <-; apply within_here).
  split_and!; [by apply prep_dead|intros e; cbn [next]; by apply refuse_prep|]. intros Hok Hj. cbn [next].
  assert (prepared_in d0 rev preHash (st h4)) as H4.
  { split_and!; [done|done|]. split_and!; [by apply P4|eexists; split_and!; [exact Hj|done..]|by apply (snapshot_kept _ _ _ N4)]. }
  destruct (prepared_live _ _ _ _ H4) as [M4 L4]. apply ends_bind, ends_baseEnv; [done|done|]. intros h5 E5. rewrite <- E5 in H4.
  split_and!; [by apply (prepared_dead _ rev preHash)|cbn [next]; apply (ends_rendered _ _ _ preHash); [by left|done]|
    cbn [next]; apply (ends_rendered _ _ _ preHash); [by right|done]].
Qed.

(** *** The guards *)

(** Nothing has changed but the clock, the random source and what the agent remembers. *)
Definition early (d d' : disk) : Prop := idle d d' ∧ ∀ s, s ∈ draws d' → s ∈ draws d.

#[local] Instance early_preorder : PreOrder early.
Proof. split; [by intros d|]. intros d1 d2 d3 [N1 H1] [N2 H2]. split; [by etrans|auto]. Qed.

Lemma early_sys : frames early sys.
Proof. unfold sys. frame. Qed.

Lemma early_next_of {A} (f : disk → list A) g x :
  frames idle (next_of f g x) → (∀ y l d, f d = y :: l → ∀ s, s ∈ draws (g l d) → s ∈ draws d) → frames early (next_of f g x).
Proof.
  intros Hn Hg h. specialize (Hn h). unfold ends, next_of in *. destruct (f (st h)) eqn:E; cbn in *; (split; [done|]); [done|].
  by apply (Hg _ _ _ E).
Qed.

Lemma early_Now : frames early Now.
Proof. by apply early_next_of; [frame|]. Qed.

Lemma early_draw : frames early draw.
Proof. apply early_next_of; [frame|]. intros y l d E s Hs. rewrite E. by right. Qed.

Lemma early_missed : frames early missed.
Proof. by apply early_next_of; [frame|]. Qed.

Lemma early_objects : frames early objects.
Proof. unfold objects. frame. Qed.

Lemma early_onMem f : frames early (onMem f).
Proof. apply frames_modify. intros d. by repeat split. Qed.

#[local] Hint Resolve early_sys early_Now early_draw early_missed early_objects early_onMem : near_ops.

Lemma early_readPointer p : frames early (readPointer p).
Proof. unfold readPointer, readFile. frame. Qed.

Lemma early_allow now : frames early (allowShort now) ∧ frames early (allowLong now).
Proof. split; [unfold allowShort|unfold allowLong]; frame. Qed.

Lemma early_mint prefix id : frames early (mint prefix id).
Proof. unfold mint. frame. Qed.

Lemma early_objs d d' : early d d' → objs d' = objs d.
Proof. intros [N _]. by apply idle_objs. Qed.

(** No revision has a name that is still to be drawn. *)
Definition fresh (d : disk) : Prop :=
  ∀ t s r, s ∈ [] :: draws d → objs d !! Pre (lit "r-" ++ yyyymmdd t ++ lit "-" ++ s) r = None.

Lemma ends_NewRevisionID (Q : outcome agent_error gostring → host → Prop) h :
  (∀ h', early (st h) (st h') → Q Dead h' ∧ (∀ e, Q (Fail e) h') ∧
     ∀ t s, s ∈ [] :: draws (st h) → Q (Done (lit "r-" ++ yyyymmdd t ++ lit "-" ++ s)) h') → ends NewRevisionID Q h.
Proof.
  intros HQ. assert (∀ h', st h' = st h → early (st h) (st h')) as Hsame by (by intros h' ->).
  unfold NewRevisionID. apply ends_bind, ends_sys. intros h1 E1. destruct (HQ h1 (Hsame h1 E1)) as (D1 & F1 & _).
  split_and!; [done|by apply F1|]. cbn [next].
  apply ends_bind. assert (∀ s h2, s ∈ [] :: draws (st h) → early (st h) (st h2) →
    ends (t ← Now; mret (lit "r-" ++ yyyymmdd t ++ lit "-" ++ s)) Q h2) as Hrest.
  { intros s h2 Hs N2. apply ends_bind, (ends_unfailing _ _ _ unfailing_Now), (ends_frame early); [apply early_Now|].
    intros r h3 N3 Hr. destruct (HQ h3 ltac:(by etrans)) as (D3 & _ & O3). destruct r as [t|e|]; [|by destruct (Hr e)|done].
    by apply ends_ret, O3. }
  apply (ends_mono _ (λ r h2, early (st h1) (st h2) ∧ ∃ s, r = Done s ∧ s ∈ [] :: draws (st h1))).
  - pose proof (early_draw h1) as N. unfold ends, draw, next_of in *. destruct (draws (st h1)) as [|s l] eqn:E; cbn [fst snd] in *;
      (split; [done|]); eexists; (split; [done|]); [by left|right; by left].
  - intros r h2 (N2 & s & -> & Hs). rewrite E1 in Hs, N2. by apply Hrest.
Qed.

(** What a policy change must have: known names, values in their ranges. *)
Definition sound_change : Prop :=
  known role = true ∧ cc_Set (Change op) ≠ ∅ ∧
  ∀ k v, cc_Set (Change op) !! k = Some v → k ∈ c2EditableFields ∧ c2ValueOk k v = true.

(** Every guard of the apply. *)
Definition admitted (d : disk) : Prop :=
  objs d !! JournalFile = None ∧ objs d !! KillSwitch = None ∧ sound_change ∧
  (BaseRevision (Change op) = [] ∨ ∃ data, objs d !! HeadFile = Some data ∧ TrimSpace data = BaseRevision (Change op)).

(** The end of an apply; a change that is not admitted changes nothing but the audit log. *)
Definition apply_exact (d0 : disk) (r : outcome agent_error (TxResult * code)) (h : host) : Prop :=
  apply_ends d0 r h ∧ (near (eq AuditFile) d0 (st h) ∨ admitted d0).

Definition told {A} (r : outcome agent_error (TxResult * code * A)) : outcome agent_error (TxResult * code) :=
  match r with Done (x, _) => Done x | Fail e => Fail e | Dead => Dead end.

Lemma early_near P d d' : early d d' → near P d d'.
Proof. intros [N _]. by apply idle_near. Qed.

Lemma exact_refused d0 h res c : early d0 (st h) → c ≠ NoCode → apply_exact d0 (Done (res, c)) h.
Proof. intros N Hc. split; [apply prep_refused; [by apply early_near|done]|left; by apply early_near]. Qed.

Lemma exact_dead d0 h : objs d0 !! Live role = Some b0 → early d0 (st h) → apply_exact d0 Dead h.
Proof. intros Hl N. split; [apply prep_dead; [done|by apply early_near]|left; by apply early_near]. Qed.

Lemma exact_later d0 d1 r h : early d0 d1 → admitted d0 → apply_ends d1 r h → apply_exact d0 r h.
Proof.
  intros N Ha H. split; [|by right]. pose proof (early_objs _ _ N) as EO. destruct N as [(_ & ER & _) _].
  destruct r as [[res c]|e|]; [|done|done]. destruct H as [(Hc & [EL EV] & EH)|H]; [left|by right].
  rewrite EO in EL, EH. rewrite ER in EV. by repeat split.
Qed.

Lemma ends_firstJournal (Q : outcome agent_error (res agent_error (option ControlJournalEntry)) → host → Prop) h :
  (∀ h', st h' = st h → Q Dead h' ∧ (∀ e, Q (Done (Err e)) h') ∧ (∀ j, Q (Done (Ok (Some j))) h') ∧
     (objs (st h) !! JournalFile = None → Q (Done (Ok None)) h')) →
  ends (attempt (readJournal UnmarshalEntry)) Q h.
Proof.
  intros HQ. apply ends_attempt. unfold readJournal. apply ends_bind, ends_attempt. unfold readFile.
  apply ends_bind, ends_sys. intros h1 E1. destruct (HQ h1 E1) as (D1 & F1 & O1 & N1).
  split_and!; [done|cbn [next]; by apply ends_fail|]. cbn [next]. unfold objects. apply ends_bind, ends_bind, ends_peek. cbn [next].
  apply ends_ret. cbn [next]. rewrite E1. destruct (objs (st h) !! JournalFile) as [b|]; [|apply ends_fail; cbn [next]; by apply ends_ret, N1].
  apply ends_ret. cbn [next]. destruct (UnmarshalEntry b); [|by apply ends_fail]. destruct (known_state _); [by apply ends_ret|by apply ends_fail].
Qed.

Lemma ends_readHead (Q : outcome agent_error (res agent_error gostring) → host → Prop) h :
  (∀ h', st h' = st h → Q Dead h' ∧ (∀ e, Q (Done (Err e)) h') ∧ Q (Done (Ok [])) h' ∧
     ∀ data, objs (st h) !! HeadFile = Some data → Q (Done (Ok (TrimSpace data))) h') →
  ends (attempt (readPointer HeadFile)) Q h.
Proof.
  intros HQ. apply ends_attempt. unfold readPointer. apply ends_bind, ends_attempt, ends_readFile. intros h1 E1.
  destruct (HQ h1 E1) as (D1 & F1 & N1 & O1). split_and!; [done| |].
  - intros e. cbn [next]. destruct e; first [by apply ends_fail|by apply ends_ret].
  - intros data Hd. cbn [next]. destruct (_ && _); [by apply ends_fail|by apply ends_ret, O1].
Qed.

(** From the validated change on. *)
#[local] Abbreviation begun := (
  h ← attempt (readPointer HeadFile);
  let head := match h with Ok i => i | Err _ => [] end in
  if negb (streqb (BaseRevision (Change op)) []) && negb (streqb (BaseRevision (Change op)) head) then mret (noResult, ErrCodeStaleBase, ChangeID (Change op))
  else
    changeID ← mint (lit "c-") (ChangeID (Change op));
    r ← attempt NewRevisionID;
    match r with
    | Err _ => mret (noResult, ErrCodeInternal, changeID)
    | Ok revID =>
        r ← applyRevision sha256 torn kept pick MarshalMeta MarshalEntry UnmarshalEntry gate op changeID head revID;
        mret (r, changeID)
    end).

Lemma ends_begun d0 h :
  misses d0 = [] → objs d0 !! Live role = Some b0 → fresh d0 → early d0 (st h) →
  objs d0 !! JournalFile = None → objs d0 !! KillSwitch = None → sound_change →
  ends begun (λ r h', apply_exact d0 (told r) h') h.
Proof.
  intros Hm Hl Hf N0 Hj Hfz Hs. pose proof (early_objs _ _ N0) as EO. apply ends_bind, ends_readHead. intros h1 E1.
  assert (early d0 (st h1)) as N1 by (by rewrite E1).
  assert (∀ head, head = [] ∨ (∃ data, objs d0 !! HeadFile = Some data ∧ TrimSpace data = head) → ends (
    if negb (streqb (BaseRevision (Change op)) []) && negb (streqb (BaseRevision (Change op)) head) then mret (noResult, ErrCodeStaleBase, ChangeID (Change op))
    else
      changeID ← mint (lit "c-") (ChangeID (Change op));
      r ← attempt NewRevisionID;
      match r with
      | Err _ => mret (noResult, ErrCodeInternal, changeID)
      | Ok revID =>
          r ← applyRevision sha256 torn kept pick MarshalMeta MarshalEntry UnmarshalEntry gate op changeID head revID;
          mret (r, changeID)
      end) (λ r h', apply_exact d0 (told r) h') h1) as Hrest.
  { intros head Hhead. destruct (_ && _) eqn:Eb; [by apply ends_ret, exact_refused|].
    assert (admitted d0) as Ha.
    { split_and!; [done|done|done|]. apply andb_false_iff in Eb as [Eb | Eb]; apply negb_false_iff, streqb_true in Eb; [by left|].
      rewrite Eb. destruct Hhead as [-> |Hhead]; [by left|by right]. }
    apply (ends_quiet early _ _ _ (mkHost d0 [])); [done|apply early_mint|unfold mint; unfail|intros h' N; by apply exact_dead|].
    intros changeID h2 N2. cbn [st] in N2. apply ends_bind, ends_attempt, ends_NewRevisionID. intros h3 N3.
    assert (early d0 (st h3)) as N by (by etrans). split_and!; [by apply exact_dead|intros e; cbn [next]; by apply ends_ret, exact_refused|].
    intros t s Hts. cbn [next]. eapply ends_bind, ends_mono.
    - apply (ends_applyRevision changeID head _ h3); [apply Hs|by apply N|by rewrite (early_objs _ _ N)|].
      intros r. rewrite (early_objs _ _ N). apply Hf. apply elem_of_cons in Hts as [-> |Hts]; [by left|right]. by apply N2.
    - intros r h4 H4. apply (exact_later d0) in H4; [|done|done]. destruct r as [x|e|]; [by apply ends_ret; destruct x|done|done]. }
  split_and!; [by apply exact_dead|intros e; cbn [next]; apply Hrest; by left|cbn [next]; apply Hrest; by left|].
  intros data Hd. cbn [next]. apply Hrest. right. exists data. by rewrite <- EO.
Qed.

Lemma ends_runLocked d0 h :
  misses d0 = [] → objs d0 !! Live role = Some b0 → fresh d0 → early d0 (st h) →
  ends (runLocked unicode_lower sha256 torn kept pick MarshalMeta MarshalEntry UnmarshalEntry gate op) (λ r h', apply_exact d0 (told r) h') h.
Proof.
  intros Hm Hl Hf N0. pose proof (early_objs _ _ N0) as EO. assert (misses (st h) = []) as Hm0 by (by apply N0).
  unfold runLocked. apply ends_bind, ends_firstJournal. intros h1 E1. rewrite <- E1 in N0, EO, Hm0.
  split_and!; [by apply exact_dead|intros e; cbn [next]; by apply ends_ret, exact_refused|intros j; cbn [next]; by apply ends_ret, exact_refused|].
  rewrite <- E1, EO. intros Hj. cbn [next]. unfold IsFrozen. apply ends_bind, ends_stat; [done|]. intros h2 E2. rewrite <- E2 in N0.
  split; [by apply exact_dead|]. cbn [next]. rewrite EO. destruct (bool_decide _) eqn:Eb; [by apply ends_ret, exact_refused|].
  apply bool_decide_eq_false, eq_None_not_Some in Eb.
  apply (ends_quiet early _ _ _ (mkHost d0 [])); [done|apply early_Now|unfail|intros h' N; by apply exact_dead|]. intros now h3 N3.
  apply (ends_quiet early _ _ _ (mkHost d0 [])); [done|apply early_allow|unfold allowShort; unfail|intros h' N; by apply exact_dead|]. intros ok h4 N4.
  destruct ok; cbn [negb]; [|by apply ends_ret, exact_refused].
  apply (ends_quiet early _ _ _ (mkHost d0 [])); [done|apply early_allow|unfold allowLong; unfail|intros h' N; by apply exact_dead|]. intros ok h5 N5.
  destruct ok; cbn [negb]; [|by apply ends_ret, exact_refused].
  destruct (no_errors _) eqn:Ev; cbn [negb]; [|by apply ends_ret, exact_refused].
  apply (ends_begun d0); [done..|]. apply (ValidateCandidate_sound unicode_lower defaultConfigBuilder). by destruct (fst _).
Qed.

(** ** The whole apply *)

Lemma apply_exact_audit d0 r h h' : near (eq AuditFile) (st h) (st h') → apply_exact d0 r h → apply_exact d0 r h'.
Proof.
  intros N [H Hd]. split; [|destruct Hd; [left; by etrans|by right]].
  assert (∀ p, (∀ z q, p ≠ Tmp z q) → p ≠ AuditFile → objs (st h') !! p = objs (st h) !! p) as Hsame.
  { intros p Ht Hp. apply N. intros Hw. destruct p; cbn in Hw; try (by destruct Hw). by eapply Ht. }
  assert (recoverable (st h) → recoverable (st h')) as HR.
  { intros (rev & hash & HR). exists rev, hash. apply (held_aside _ _ _ _ _ N); [by intros ? <-|done]. }
  assert (∀ rev, committed rev (st h) → committed rev (st h')) as HC.
  { intros rev (new & Hn & HC). exists new. split; [done|]. apply (near_applied _ _ _ _ _ (near_within _ closing _ _ N ltac:(intros p <-; by apply within_here; right; right)) HC). }
  assert (objs (st h') !! Live role = objs (st h) !! Live role ∧ running (st h') = running (st h)) as [EL EV] by (by split; [apply Hsame|apply N]).
  assert (objs (st h') !! HeadFile = objs (st h) !! HeadFile) as EH by (by apply Hsame).
  destruct r as [[res c]|e|]; [|done|].
  - destruct H as [(Hc & [SL SV] & SH)|(Hc & H)]; [left; unfold still; by rewrite EL, EV, EH|right]. split; [done|]. rewrite EL, EV. naive_solver.
  - cbn in *. rewrite EL. naive_solver.
Qed.


Lemma near_mem P (f : disk → memory) : frames (near P) (modify (λ d, d <| mem := f d |>) : M unit).
Proof. apply frames_modify. intros d. by split_and!. Qed.

Lemma near_Record e : frames (near (eq AuditFile)) (Record_ unicode_lower sha256 torn MarshalAudit e).
Proof. unfold Record_, recordLocked. apply near_ignore. repeat (frame_step || apply near_mem). Qed.

(** An apply that has ended may as well die. *)
Lemma exact_dies d0 x h : objs d0 !! Live role = Some b0 → apply_exact d0 (Done x) h → apply_exact d0 Dead h.
Proof.
  intros Hl [H Hd]. split; [|done]. destruct x as [res c].
  destruct H as [(_ & [EL _] & _)|(_ & [(_ & HL & _)|[(_ & HR)|(rev & parent & _ & HC)]])].
  - left. by rewrite EL.
  - by left.
  - right. by left.
  - right. right. by exists rev.
Qed.

Lemma ends_recorded d0 x (e : env → AuditEntry) h :
  objs d0 !! Live role = Some b0 → apply_exact d0 (Done x) h →
  ends (base ← baseEnv role; _ ← Record_ unicode_lower sha256 torn MarshalAudit (e base); mret x) (apply_exact d0) h.
Proof.
  intros Hl H. assert (∀ h', near (eq AuditFile) (st h) (st h') → apply_exact d0 (Done x) h') as Hn by (intros h' N; by apply (apply_exact_audit _ _ h)).
  apply (ends_quiet (near (eq AuditFile)) _ _ _ h); [done|frame|unfail|intros h' N; by apply (exact_dies _ x), Hn|]. intros base h1 N1.
  apply (ends_quiet (near (eq AuditFile)) _ _ _ h); [done|apply near_Record|unfold Record_; unfail|intros h' N; by apply (exact_dies _ x), Hn|].
  intros _ h2 N2. by apply ends_ret, Hn.
Qed.

End apply.

(** ** A run *)

Module Demo.

(** A code for the journal: every byte of a text is marked, so its end is known. *)
Definition enc (s : gostring) : list byte := concat (map (λ b, [x01; b]) s) ++ [x00].
Fixpoint dec (l : list byte) : option (gostring * list byte) :=
  match l with
  | x00 :: l => Some ([], l)
  | x01 :: b :: l => match dec l with Some (s, r) => Some (b :: s, r) | None => None end
  | _ => None
  end.

Lemma dec_enc s r : dec (enc s ++ r) = Some (s, r).
Proof. induction s as [|b s IH]; [done|]. unfold enc in *. cbn [map concat app dec]. by rewrite IH. Qed.

Definition MarshalEntry (j : ControlJournalEntry) : list byte :=
  enc (j_ChangeID j) ++ enc (j_Role j) ++ enc (j_State j) ++ enc (j_Revision j) ++ enc (j_Parent j) ++ enc (PreHash j) ++ enc (NewHash j)
  ++ enc (XrayCand j) ++ [if XrayAffected j then x01 else x00].

Definition UnmarshalEntry (l : list byte) : option ControlJournalEntry :=
  '(a, l) ← dec l; '(b, l) ← dec l; '(c, l) ← dec l; '(d, l) ← dec l; '(e, l) ← dec l; '(f, l) ← dec l; '(g, l) ← dec l; '(h, l) ← dec l;
  match l with
  | x :: _ => Some (mkEntry a b c d e f g h (Byte.eqb x x01))
  | [] => None
  end.

Lemma entry_roundtrip j : UnmarshalEntry (MarshalEntry j ++ [x0a]) = Some j.
Proof.
  unfold UnmarshalEntry, MarshalEntry. rewrite <- !app_assoc. repeat (rewrite dec_enc; cbn [mbind option_bind]). by destruct j as [??? ??? ?? []].
Qed.

Definition pick (l : list gostring) : gostring := hd [] l.
Lemma pick_in l : l ≠ [] → pick l ∈ l.
Proof. destruct l; [done|]. by left. Qed.

Definition old : list byte := lit "SPLIT_SECRET=s" ++ [x0a].
Definition change : CandidateChange := mkChange RoleIran {[ EnvPolicyTopK := lit "3" ]} [] [] [].
Definition op : ApplyOp := mkApply change (lit "k") (lit "admin").

(** The service runs with the old environment; two random numbers are ready. *)
Definition disk0 : disk := mkDisk {[ Live RoleIran := old ]} ∅ {[ RoleIran := Some old ]} [] [lit "0a0b"; lit "0c0d"] [] 7
  (mkMemory false (newRateLimiter 1 600000000000) (newRateLimiter 6 86400000000000) ∅ ∅ 0 []).

#[local] Abbreviation apply' := (runApply (λ s, s) (λ b, b) (take 2) (λ _, true) pick (λ _, []) MarshalEntry UnmarshalEntry (λ _, []) None op).

Definition run (f : list (option fault)) : outcome agent_error (TxResult * code) * host := apply' (mkHost disk0 f).

Lemma no_revision : fresh disk0.
Proof. intros t s r _. by apply lookup_singleton_ne. Qed.


(** The process dies in the last call of [f]; the agent starts again. *)
Definition restart (f : list (option fault)) : outcome agent_error RecoveryOutcome * host :=
  let d := st (snd (run f)) in
  RecoverOnStart (λ s, s) (λ b, b) (take 2) (λ _, true) pick (λ _, []) (λ _, None) UnmarshalEntry (λ _, []) None
    (mkHost (d <| pid := 8 |> <| mem := mem disk0 |>) []).

(** No journal, the service runs what is live, and that is the old file or the committed one. *)
Definition settled (h : host) : bool :=
  let d := st h in
  bool_decide (objs d !! JournalFile = None ∧ running d !! RoleIran = Some (objs d !! Live RoleIran) ∧
    (objs d !! Live RoleIran = Some old ∨ is_Some (objs d !! HeadFile) ∧
     objs d !! Live RoleIran = Some (renderEnv (mcMerge (parseEnvFile old) (cc_Set change))))).

Definition candidate_file : list byte := renderEnv (mcMerge (parseEnvFile old) (cc_Set change)).

(** Wherever an apply dies, the restart settles it. *)
Example crash_anywhere_recovers :
  length (future (snd (run (replicate 200 None)))) = 56%nat ∧
  forallb (λ n, settled (snd (restart (replicate n None ++ [Some Crashes])))) (seq 0 145) = true.
Proof. split; vm_compute; reflexivity. Qed.

(** The service does not verify, and the process dies in the rollback: recovery drops the journal and leaves the
    rejected file, or a torn one, live. *)
Definition rejected (k : nat) : list (option fault) := replicate 110 None ++ [Some Fails] ++ replicate k None ++ [Some Crashes].
Example rollback_crash_keeps_candidate :
  (let '(r, h) := restart (rejected 12) in r = Done RecoveryNoChange ∧ objs (st h) !! JournalFile = None ∧ objs (st h) !! HeadFile = None ∧
     objs (st h) !! Live RoleIran = Some candidate_file) ∧
  (let '(r, h) := restart (rejected 13) in r = Done RecoveryNoChange ∧ objs (st h) !! Live RoleIran = Some (take 2 old)).
Proof. split; vm_compute; by split_and!. Qed.
End Demo.
