(* ===== verification/AgentRecovery.v ===== *)
(** * What a restart of the control agent makes of an interrupted apply

    [RecoverOnStart] finds the journal of an apply that did not end and decides
    by its state and by the hash of the live file.  A transaction that was being
    rolled back is left aside: [AgentEnds.Demo.rollback_crash_keeps_candidate]
    shows what becomes of it. *)
From S2P Require Import Xray Pairing.
From S2P Require Export AgentEnds.
#[local] Open Scope Z_scope.

#[local] Abbreviation host := (Host.host disk).
#[local] Abbreviation M := (Host.M disk agent_error).
#[local] Abbreviation idle := (near (λ _, False)).

(** The files are as they were; services may have been restarted. *)
Definition same (d d' : disk) : Prop := objs d' = objs d ∧ dirs d ⊆ dirs d' ∧ (misses d = [] → misses d' = []).

#[export] Instance same_preorder : PreOrder same.
Proof. split; [by intros d|]. intros d1 d2 d3 (H1 & H2 & H3) (K1 & K2 & K3). split_and!; [by rewrite K1|by etrans|auto]. Qed.

Lemma idle_same d d' : idle d d' → same d d'.
Proof. intros N. split; [by apply idle_objs|]. by split; apply N. Qed.

Lemma frames_idle_same {A} (m : M A) : frames idle m → frames same m.
Proof. intros H h. apply (ends_frame idle); [done|]. intros r h' N. by apply idle_same. Qed.

Lemma same_RestartService role : frames same (RestartService role).
Proof. intros h. apply ends_RestartService. intros h' [x E]. rewrite E. by repeat split. Qed.

Section recovery.
Context (unicode_lower : gostring → gostring) (sha256 : list byte → list byte) (torn : list byte → list byte).
Context (kept : path → bool) (pick : list gostring → gostring).
Context (MarshalMeta : RevisionMeta → list byte) (UnmarshalMeta : list byte → option RevisionMeta).
Context (MarshalEntry : ControlJournalEntry → list byte) (UnmarshalEntry : list byte → option ControlJournalEntry).
Context (MarshalAudit : AuditEntry → list byte) (ServiceActive : option (gostring → M (bool * bool))).
Hypothesis entry_roundtrip : ∀ j, UnmarshalEntry (MarshalEntry j ++ [x0a]) = Some j.
Hypothesis pick_in : ∀ l, l ≠ [] → pick l ∈ l.
(** Asking for the state of a service changes nothing. *)
Hypothesis active_quiet : ∀ f, ServiceActive = Some f → ∀ role, frames eq (f role).

(** [e]: the entry in flight; [b0]: the file it took a snapshot of. *)
Context (e : ControlJournalEntry) (b0 : list byte).
#[local] Abbreviation role := (j_Role e).
#[local] Abbreviation rev := (j_Revision e).
#[local] Abbreviation held' := (held MarshalEntry role rev (PreHash e) b0).

(** The journal is held and the copy of the old file is there. *)
Definition stored (d : disk) : Prop := held' d ∧ objs d !! Pre rev (live_name role) = Some b0 ∧ (rev, false) ∈ dirs d.

Lemma stored_same d d' : same d d' → stored d → stored d'.
Proof.
  intros (EO & ED & EM) ((Hm & (j & Hj) & Hs1 & Hs2) & Hp & Hd). unfold stored, held, in_flight, snapshot. rewrite EO.
  split; [|by split; [|apply ED]]. split_and!; [by apply EM|by exists j|done|]. destruct Hs2 as [[? ?]|?]; [left|by right]. by split; [|apply ED].
Qed.

(** How a recovery that started with the live file [bl] may end. *)
Definition recovered (bl : list byte) (r : outcome agent_error RecoveryOutcome) (h : host) : Prop :=
  match r with
  | Done RecoveryNoChange => objs (st h) !! Live role = Some b0
  | Done RecoveryRollback => objs (st h) !! Live role = Some b0 ∧ running (st h) !! role = Some (Some b0)
  | Done RecoveryCommit =>
      objs (st h) !! Live role = Some bl ∧ objs (st h) !! HeadFile = Some rev ∧ (NewHash e = hexEncode (sha256 bl) ∨ NewHash e = [])
  | Done RecoveryNeeded | Done RecoveryTamper => held' (st h)
  | Done RecoveryNothing | Fail _ => False
  | Dead => held' (st h) ∨ objs (st h) !! Live role = Some b0 ∨ objs (st h) !! HeadFile = Some rev
  end.

Lemma stored_held bl h : stored (st h) → recovered bl Dead h ∧ recovered bl (Done RecoveryNeeded) h.
Proof. intros [H _]. by split; [left|]. Qed.

(** *** Going back *)

Lemma ends_restoreFromPre (Q : outcome agent_error unit → host → Prop) h :
  stored (st h) → is_Some (objs (st h) !! Live role) →
  (∀ h', held' (st h') → Q Dead h' ∧ (∀ x, Q (Fail x) h') ∧ (objs (st h') !! Live role = Some b0 → Q (Done ()) h')) →
  ends (restoreFromPre torn pick rev role) Q h.
Proof.
  intros Hs [bl Hl] HQ. destruct Hs as (Hh & Hp & Hd). unfold restoreFromPre. apply ends_bind, ends_LoadPreCopies. intros h1 E1.
  rewrite <- E1 in Hh, Hl. destruct (HQ h1 Hh) as (D1 & F1 & _). split_and!; [done|done|]. intros _. cbn [next].
  apply ends_bind, (ends_LiveFile role _ h1 bl); [apply Hh|done|]. intros h2 E2. rewrite <- E2 in Hh. split; [by apply HQ|]. cbn [next].
  set (pre := listing _ _). assert (live_name role ∈ pre) as Hin.
  { unfold pre. rewrite elem_of_listing. exists (Pre rev (live_name role)), b0. split; [done|]. cbn. by rewrite decide_True. }
  assert (∀ p, p ∈ pre → objs (st h2) !! Pre rev p = Some b0) as Hpre.
  { intros p [b Hb]%pre_listing. rewrite E2, E1, Hb. f_equal. rewrite E2, E1 in Hh. destruct Hh as (_ & _ & Hs & _). by apply (Hs p b). }
  clearbody pre. destruct (Nat.eqb_spec (length pre) 0) as [->%nil_length_inv|Hne]; [by apply elem_of_nil in Hin|].
  assert (pick pre ∈ pre) as Hpick by (apply pick_in; by intros ->). apply ends_RestoreFile. intros h3 [N3 _].
  assert (held' (st h3)) as H3 by (apply (held_near _ _ _ _ _ _ _ _ N3); [by intros ? ->|done]).
  destruct (HQ h3 H3) as (D3 & F3 & O3). split_and!; [done|done|]. intros _ L3. apply O3. by rewrite L3, Hpre.
Qed.

Lemma ends_goBack bl h :
  stored (st h) → is_Some (objs (st h) !! Live role) → ends (goBack torn pick e) (recovered bl) h.
Proof.
  intros Hs Hl. unfold goBack. apply ends_bind, ends_attempt, ends_bind, ends_restoreFromPre; [done|done|]. intros h1 H1.
  split_and!; [by left|intros x; by apply ends_ret|]. intros L1. cbn [next]. unfold restartAndVerify.
  apply ends_bind, ends_RestartService. intros h2 R2. destruct (restarted_held MarshalEntry _ _ _ _ _ _ R2 H1) as [H2 O2].
  split_and!; [by left|intros x; by apply ends_ret|]. rewrite L1. intros V2. cbn [next]. rewrite <- O2 in L1.
  unfold Verify. apply ends_sys. intros h3 E3. rewrite <- E3 in H2, L1, V2. split_and!; [by left|by apply ends_ret|]. cbn [next].
  assert (∀ h', near (eq JournalFile) (st h3) (st h') → objs (st h') !! Live role = Some b0 ∧ running (st h') !! role = Some (Some b0)) as Hend.
  { intros h' N. destruct (near_still role _ _ _ N ltac:(by intros ? <-)) as [EL EV]. by rewrite EL, EV. }
  apply (ends_quiet (near (eq JournalFile)) _ _ _ h3); [done|frame|unfail|intros h' N; right; left; by apply Hend|].
  intros _ h4 N4. apply ends_ret. by apply Hend.
Qed.

(** *** Going on *)

Lemma ends_LoadRevision id (Q : outcome agent_error (RevisionMeta * list gostring) → host → Prop) h :
  (∀ h', idle (st h) (st h') → Q Dead h' ∧ (∀ x, Q (Fail x) h') ∧ ∀ m l, m_ID m = id → Q (Done (m, l)) h') →
  ends (LoadRevision sha256 UnmarshalMeta id) Q h.
Proof.
  intros HQ. assert (∀ h', st h' = st h → idle (st h) (st h')) as Hsame by (by intros h' ->).
  unfold LoadRevision, loadMeta. apply ends_bind. destruct (validateStoreToken id); cbn [negb]; [|by apply ends_fail, HQ].
  apply ends_bind, ends_readFile. intros h1 E1. destruct (HQ h1 (Hsame h1 E1)) as (D1 & F1 & _). split_and!; [done|done|]. intros b _. cbn [next].
  destruct (UnmarshalMeta b) as [m|]; [|by apply ends_fail, F1]. destruct (streqb (m_ID m) id && negb (streqb (m_Manifest m) [])) eqn:Em; [|by apply ends_fail, F1].
  apply andb_true_iff in Em as [Em%streqb_true _].
  apply ends_ret. cbn [next]. apply ends_bind, ends_readFile. intros h2 E2. rewrite E1 in E2. destruct (HQ h2 (Hsame h2 E2)) as (D2 & F2 & _).
  split_and!; [done|done|]. intros data _. cbn [next]. destruct (negb _); [by apply ends_fail, F2|]. destruct (parseManifest data) as [hashes|]; [|by apply ends_fail, F2].
  assert (∀ l, frames idle (verifyFiles sha256 id l)) as Hv by (intros l; induction l as [|[rel want] l IH]; cbn [verifyFiles]; frame).
  apply ends_bind, (ends_frame idle); [apply Hv|]. intros r h3 N3. rewrite E2 in N3. destruct (HQ h3 N3) as (D3 & F3 & O3).
  destruct r as [u|x|]; cbn [next]; [by apply ends_ret, O3|by apply F3|done].
Qed.

Lemma ends_commitRecovered bl h :
  stored (st h) → objs (st h) !! Live role = Some bl → (NewHash e = hexEncode (sha256 bl) ∨ NewHash e = []) →
  ends (commitRecovered sha256 torn kept MarshalMeta UnmarshalMeta e) (λ r h', match r with
    | Done _ => recovered bl (Done RecoveryCommit) h' | Fail _ => held' (st h') | Dead => recovered bl Dead h' end) h.
Proof.
  intros [Hh _] Hl Hnew. unfold commitRecovered.
  apply ends_bind, (ends_LiveFile role _ h bl); [apply Hh|done|]. intros h1 E1. rewrite <- E1 in Hh, Hl. split; [by left|]. cbn [next].
  apply ends_bind, ends_attempt, ends_LoadRevision. intros h2 N2.
  assert (held' (st h2)) as H2 by (by apply (held_near _ _ _ _ _ _ _ _ N2)). rewrite <- (idle_objs _ _ N2) in Hl.
  assert (∀ meta, m_ID meta = rev → ends (
    _ ← CommitRevision sha256 torn kept MarshalMeta meta [(live_name role, Live role)] (j_Parent e);
    _ ← (if streqb (j_Parent e) [] then mret () else ignore (PromoteLKG torn (j_Parent e)));
    clearJournal) (λ r h', match r with
    | Done _ => recovered bl (Done RecoveryCommit) h' | Fail _ => held' (st h') | Dead => recovered bl Dead h' end) h2) as Hrest.
  { intros meta Hid. apply ends_bind, (ends_mono _ _ _ _ (ends_CommitRevision sha256 torn kept MarshalMeta UnmarshalMeta MarshalEntry UnmarshalEntry
      role rev (PreHash e) b0 meta _ (j_Parent e) h2 Hid H2)). intros r h3 (H3 & [L3 _] & Hd3). rewrite Hl in L3.
    destruct r as [[]|x|]; cbn [next]; [|done|by left]. specialize (Hd3 eq_refl).
    assert (closing JournalFile) by (by left). assert (closing LkgFile) by (right; by left).
    assert (∀ h', near closing (st h3) (st h') → objs (st h') !! Live role = Some bl ∧ objs (st h') !! HeadFile = Some rev) as Hn.
    { intros h' N. by split; [rewrite <- L3|rewrite <- Hd3]; apply N; intros [[?|[?|?]]|[]]. }
    apply (ends_quiet (near closing) _ _ _ h3); [done|unfold PromoteLKG; frame|unfail|intros h' N; right; right; by apply Hn|]. intros _ h4 N4.
    apply (ends_unfailing _ _ _ unfailing_clearJournal), (ends_frame (near closing)); [frame|]. intros r h5 N5 Hr.
    destruct (Hn h5 ltac:(by etrans)) as [L5 E5]. destruct r as [[]|x|]; [by split_and!|by destruct (Hr x)|by right; right]. }
  split_and!; [by left|intros x; cbn [next]; by apply Hrest|intros m l Hm; cbn [next]; by apply Hrest].
Qed.

Lemma ends_goOn bl h :
  stored (st h) → objs (st h) !! Live role = Some bl → (NewHash e = hexEncode (sha256 bl) ∨ NewHash e = []) →
  ends (goOn sha256 torn kept MarshalMeta UnmarshalMeta e) (recovered bl) h.
Proof.
  intros Hs Hl Hnew. unfold goOn. apply ends_bind, ends_attempt, (ends_mono _ _ _ _ (ends_commitRecovered bl h Hs Hl Hnew)).
  intros [a|x|] h' H; [by apply ends_ret|by apply ends_ret|done].
Qed.

(** *** The decision *)

Lemma ends_noChange bl (m : M unit) h :
  frames same m → stored (st h) → objs (st h) !! Live role = Some b0 → ends (noChange m) (recovered bl) h.
Proof.
  intros Hm Hs Hl. unfold noChange. apply ends_bind, ends_attempt, (ends_frame same); [done|]. intros r h1 S1.
  pose proof (stored_same _ _ S1 Hs) as [H1 _]. assert (objs (st h1) !! Live role = Some b0) as L1 by (destruct S1 as [E _]; by rewrite E).
  destruct r as [[]|x|]; cbn [next]; [|by apply ends_ret|by left].
  assert (∀ h', near (eq JournalFile) (st h1) (st h') → objs (st h') !! Live role = Some b0) as Hn.
  { intros h' N. rewrite <- L1. apply N. by intros [?|[]]. }
  apply (ends_quiet (near (eq JournalFile)) _ _ _ h1); [done|frame|unfail|intros h' N; right; left; by apply Hn|].
  intros _ h2 N2. apply ends_ret. by apply Hn.
Qed.

Lemma same_restartIfNotActive : frames same (restartIfNotActive ServiceActive role).
Proof.
  unfold restartIfNotActive. apply (frames_bind _).
  - destruct ServiceActive as [f|] eqn:Ef; [|by apply (frames_ret _)]. apply (frames_bind _); [|intros ?; by apply (frames_ret _)].
    intros h. apply (ends_frame eq); [by apply active_quiet|]. by intros r h' <-.
  - intros [|]; [by apply (frames_ret _)|apply same_RestartService].
Qed.

Lemma same_Verify : frames same (Verify role).
Proof. apply frames_idle_same. unfold Verify. frame. Qed.

(** The hash recorded before the swap is that of the old file only. *)
Hypothesis hash_known : PreHash e ≠ [].
Hypothesis hash_tells : ∀ b, hexEncode (sha256 b) = PreHash e → b = b0.

Lemma ends_live_hash bl (Q : outcome agent_error gostring → host → Prop) h :
  objs (st h) !! Live role = Some bl →
  (∀ h', idle (st h) (st h') → Q Dead h' ∧ ∀ x, x = hexEncode (sha256 bl) ∨ x = [] → Q (Done x) h') →
  ends (live_hash sha256 (Some (Live role))) Q h.
Proof.
  intros Hl HQ. unfold live_hash. apply ends_bind, ends_attempt. unfold HashFile.
  assert (∀ h', idle (st h) (st h') → Q Dead h' ∧ Q (Done []) h' ∧ Q (Done (hexEncode (sha256 bl))) h') as Hq.
  { intros h' N. destruct (HQ h' N) as [HD HO]. split_and!; [done|apply HO; by right|apply HO; by left]. }
  apply (ends_step idle _ _ _ h); [done|frame|intros h' N; split; [by apply Hq|intros x; by apply ends_ret, Hq]|]. intros _ h1 N1.
  apply ends_bind, ends_readFile. intros h2 E2. rewrite <- E2 in N1. split_and!; [by apply Hq|intros x; by apply ends_ret, Hq|].
  intros b Hb. rewrite <- E2, (idle_objs _ _ N1), Hl in Hb. injection Hb as <-. cbn [next]. apply ends_ret. by apply ends_ret, Hq.
Qed.

Lemma ends_resolveInFlight bl h :
  j_State e ∈ [[]; JournalPrepared; JournalSwapped; JournalRestarted; JournalVerified] →
  stored (st h) → objs (st h) !! Live role = Some bl →
  ends (resolveInFlight sha256 torn kept pick MarshalMeta UnmarshalMeta ServiceActive e) (recovered bl) h.
Proof.
  intros Hst Hs Hl. unfold resolveInFlight. apply ends_bind, (ends_LiveFile role _ h bl); [apply Hs|done|]. intros h1 E1.
  rewrite <- E1 in Hs, Hl. split; [by apply stored_held|]. cbn [next].
  apply ends_bind, (ends_live_hash bl); [done|]. intros h2 N2. pose proof (stored_same _ _ (idle_same _ _ N2) Hs) as H2. rewrite <- (idle_objs _ _ N2) in Hl.
  split; [by apply stored_held|]. intros lh Hlh. cbn [next].
  assert (lh = PreHash e → objs (st h2) !! Live role = Some b0) as Hpre.
  { intros ->. rewrite Hl. f_equal. destruct Hlh as [E|E]; [by apply hash_tells|by destruct hash_known]. }
  assert (lh = NewHash e → NewHash e = hexEncode (sha256 bl) ∨ NewHash e = []) as Hnew by (by intros <-).
  assert (ends (goBack torn pick e) (recovered bl) h2) as Hback by (apply ends_goBack; [done|by eexists]).
  cbv zeta. destruct (_ || _) eqn:E0.
  { destruct (streqb lh (PreHash e)) eqn:Eq; [|done]. apply streqb_true in Eq. change (ends (noChange (mret ())) (recovered bl) h2).
    apply ends_noChange; [apply (frames_ret _)|done|by apply Hpre]. }
  destruct (streqb (j_State e) JournalSwapped || streqb (j_State e) JournalRestarted) eqn:E1'.
  - destruct (streqb lh (PreHash e)) eqn:Eq.
    { apply streqb_true in Eq. apply ends_noChange; [apply same_restartIfNotActive|done|by apply Hpre]. }
    destruct (streqb lh (NewHash e)) eqn:En; [|done]. apply streqb_true in En.
    apply ends_bind, ends_attempt, (ends_frame same); [apply same_restartIfNotActive|]. intros r h3 S3. pose proof (stored_same _ _ S3 H2) as H3.
    assert (objs (st h3) !! Live role = Some bl) as L3 by (destruct S3 as [E _]; by rewrite E).
    destruct r as [[]|x|]; cbn [next]; [|by apply ends_ret, stored_held|by apply stored_held].
    apply ends_bind, ends_attempt, (ends_frame same); [apply same_Verify|]. intros r h4 S4. pose proof (stored_same _ _ S4 H3) as H4.
    assert (objs (st h4) !! Live role = Some bl) as L4 by (destruct S4 as [E _]; by rewrite E).
    destruct r as [[]|x|]; cbn [next]; [by apply ends_goOn, Hnew|by apply ends_goBack; [|eexists]|by apply stored_held].
  - destruct (streqb (j_State e) JournalVerified) eqn:Ev.
    + destruct (streqb lh (NewHash e)) eqn:En; [|done]. apply streqb_true in En. by apply ends_goOn, Hnew.
    + exfalso. apply orb_false_iff in E0 as [A B], E1' as [C D]. rewrite !elem_of_cons in Hst.
      destruct Hst as [E|[E|[E|[E|[E|[]%elem_of_nil]]]]]; rewrite E in *; discriminate.
Qed.

(** *** The whole recovery *)

Lemma recovered_audit bl r h h' : near (eq AuditFile) (st h) (st h') → recovered bl r h → recovered bl r h'.
Proof.
  intros N. assert (held' (st h) → held' (st h')) as HH by (apply (held_near _ _ _ _ _ _ _ _ N); by intros p <-).
  assert (objs (st h') !! Live role = objs (st h) !! Live role ∧ objs (st h') !! HeadFile = objs (st h) !! HeadFile) as [EL EH].
  { by split; apply N; intros [?|[]]. }
  assert (running (st h') = running (st h)) as EV by apply N.
  destruct r as [[]|x|]; cbn; rewrite ?EL, ?EH, ?EV; naive_solver.
Qed.

Lemma recovered_dies bl o h : recovered bl (Done o) h → recovered bl Dead h.
Proof. destruct o; cbn; naive_solver. Qed.

Lemma ends_outcome bl o x h :
  recovered bl (Done o) h → ends (_ ← Record_ unicode_lower sha256 torn MarshalAudit x; mret o) (recovered bl) h.
Proof.
  intros H. assert (∀ h', near (eq AuditFile) (st h) (st h') → recovered bl (Done o) h') as Hn by (intros h' N; by apply (recovered_audit _ _ h)).
  apply (ends_quiet (near (eq AuditFile)) _ _ _ h); [done|apply near_Record|unfold Record_; unfail|intros h' N; by apply (recovered_dies _ o), Hn|].
  intros _ h1 N1. by apply ends_ret, Hn.
Qed.

End recovery.

(** ** A recovery *)

Module RecoveryDemo.
Import Demo.

Definition e : ControlJournalEntry := mkEntry (lit "c") RoleIran JournalSwapped (lit "r-1") [] (hexEncode old) (hexEncode candidate_file) [] false.

(** The swap was done; the new file has been damaged since. *)
Definition disk1 : disk := disk0 <| objs :=
  <[JournalFile := MarshalEntry e ++ [x0a]]> (<[Pre (lit "r-1") (live_name RoleIran) := old]> {[ Live RoleIran := lit "SPLIT" ]}) |>
  <| dirs := {[ (lit "r-1", false) ]} |>.

Lemma disk1_dirs : (lit "r-1", false) ∈ dirs disk1.
Proof. cbn [dirs disk1 setter]. set_solver. Qed.

Lemma disk1_stored : stored MarshalEntry e old disk1.
Proof.
  split; [|split; [reflexivity|apply disk1_dirs]]. split_and!; [done|by exists e|]. split; [|left; split; [reflexivity|apply disk1_dirs]].
  intros rel b. cbn -[lookup insert]. rewrite lookup_insert_ne by done. destruct (decide (rel = live_name RoleIran)) as [->|Hr].
  - rewrite lookup_insert_eq. by intros [= <-].
  - rewrite lookup_insert_ne by (intros E; apply Hr; by injection E). rewrite lookup_singleton_ne; [done|done].
Qed.

Lemma hash_tells b : hexEncode b = PreHash e → b = old.
Proof.
  intros H. pose proof (proj1 (Xray.hexEncode_inv b)) as H1. pose proof (proj1 (Xray.hexEncode_inv old)) as H2.
  unfold e in H. cbn [PreHash] in H. rewrite H, H2 in H1. by injection H1.
Qed.

End RecoveryDemo.
