(* ===== verification/Manifest.v ===== *)
(** * Deployment state and planning (src/internal/deploy/model.go, planner.go)

    The manifest a host records of its deployment, the desired state of a
    request, and the plan that compares the two.  A time is [None] for the zero
    time, else its nanoseconds. *)
From S2P Require Export Net.
#[local] Open Scope Z_scope.

Definition SchemaVersion : Z := 2.
Definition legacySchema (v : Z) : bool := v =? 1.

Definition RoleIran : gostring := lit "iran".
Definition RoleGermany : gostring := lit "germany".
Definition known_role (r : gostring) : bool := streqb r RoleIran || streqb r RoleGermany.

(** ** Data *)

Record ComponentState := mkComponent {
  Version : gostring; Path_ : gostring; SHA256 : gostring; RealityFingerprint : gostring
}.

Record OriginState := mkOrigin {
  Mode : gostring; o_Version : gostring; Domain : gostring; UpstreamAddr : gostring; OriginPort : Z;
  ACMEChallenge : gostring; ACMEEmail : gostring; CDNSecurity : gostring; CDNOriginTrust : gostring;
  CaddyfileHash : gostring
}.

Record Components := mkComponents { Splitter : ComponentState; Xray : ComponentState; Origin : OriginState }.

Record Paths := mkPaths {
  StateRoot : gostring; Env : gostring; Config : gostring; UnitDir : gostring; WantsDir : gostring;
  LogDir : gostring; DataDir : gostring; BinaryPrefix : gostring; UnitsBackupDir : gostring;
  UnitFiles : list gostring; BinaryPointer : gostring
}.

Record PairingState := mkPairing {
  PeerRole : gostring; State : gostring; Fingerprints : list gostring; PairingStale : bool
}.

Record ServiceState := mkService { Unit : gostring; Component : gostring; Hash : gostring }.

Record FirewallState := mkFirewall { Backend : gostring; Ownership : gostring; RulesHash : gostring }.

Record Revision := mkRevision { ID : gostring; Timestamp : Z; Label : gostring; Snapshot : gostring }.

Record ExtraUnitState := mkExtra {
  x_Unit : gostring; x_Component : gostring; x_Hash : gostring; ConfigPath : gostring; EnvFile : gostring; BasePath : gostring
}.

Record Manifest := mkManifest {
  Schema : Z; Role : gostring; Generation : gostring; CreatedAt : option Z; UpdatedAt : option Z;
  ManifestHash : gostring; m_Components : Components; m_Paths : Paths; Pairing : PairingState;
  Services : list ServiceState; Firewall : FirewallState; ConfigFingerprint : gostring;
  Revisions : list Revision; Extra : list ExtraUnitState
}.

Record DesiredState := mkDesired {
  d_Role : gostring; d_Components : Components; d_Paths : Paths; d_Pairing : PairingState;
  d_Services : list ServiceState; d_Firewall : FirewallState; d_ConfigFingerprint : gostring
}.

Record Change := mkChange { Field : gostring; Before : gostring; After : gostring; Destructive : bool }.
Record Plan := mkPlan { Changes : list Change; Unchanged : bool }.

#[export] Instance Manifest_expandable : Expandable Manifest := {| expand := λ m,
  mkManifest (Schema m) (Role m) (Generation m) (CreatedAt m) (UpdatedAt m) (ManifestHash m) (m_Components m)
    (m_Paths m) (Pairing m) (Services m) (Firewall m) (ConfigFingerprint m) (Revisions m) (Extra m) |}.
#[export] Instance Paths_expandable : Expandable Paths := {| expand := λ p,
  mkPaths (StateRoot p) (Env p) (Config p) (UnitDir p) (WantsDir p) (LogDir p) (DataDir p) (BinaryPrefix p)
    (UnitsBackupDir p) (UnitFiles p) (BinaryPointer p) |}.
#[export] Instance PairingState_expandable : Expandable PairingState := {| expand := λ p,
  mkPairing (PeerRole p) (State p) (Fingerprints p) (PairingStale p) |}.
#[export] Instance DesiredState_expandable : Expandable DesiredState := {| expand := λ d,
  mkDesired (d_Role d) (d_Components d) (d_Paths d) (d_Pairing d) (d_Services d) (d_Firewall d) (d_ConfigFingerprint d) |}.

Definition noComponent : ComponentState := mkComponent [] [] [] [].
Definition noOrigin : OriginState := mkOrigin [] [] [] [] 0 [] [] [] [] [].
Definition noPaths : Paths := mkPaths [] [] [] [] [] [] [] [] [] [] [].

(** The zero value: nothing is installed. *)
Definition noManifest : Manifest :=
  mkManifest 0 [] [] None None [] (mkComponents noComponent noComponent noOrigin) noPaths (mkPairing [] [] [] false)
    [] (mkFirewall [] [] []) [] [] [].

(** ** Planning *)

Definition count {A} (l : list A) : gostring := Itoa (Z.of_nat (length l)).

Definition compare (field before after : gostring) (destructive : bool) : list Change :=
  if streqb before after then [] else [mkChange field before after destructive].

(** An empty desired value is not asserted. *)
Definition compareIdentity (field before after : gostring) (destructive : bool) : list Change :=
  if streqb after [] then [] else compare field before after destructive.

Definition compareList (field : gostring) (before after : list gostring) : list Change :=
  if (0 <? length after)%nat && negb (bool_decide (before = after))
  then [mkChange field (count before) (count after) true] else [].

Fixpoint servicesEqualFrom (current desired : list ServiceState) : bool :=
  match current, desired with
  | c :: current, d :: desired =>
      if negb (streqb (Unit c) (Unit d)) || negb (streqb (Component c) (Component d)) then false
      else if negb (streqb (Hash d) []) && negb (streqb (Hash c) (Hash d)) then false
      else servicesEqualFrom current desired
  | _, _ => true
  end.

Definition servicesEqual (current desired : list ServiceState) : bool :=
  if negb (length current =? length desired)%nat then false else servicesEqualFrom current desired.

Definition planComponents (c d : Components) : list Change :=
  compare (lit "components.splitter.version") (Version (Splitter c)) (Version (Splitter d)) false
  ++ compare (lit "components.splitter.path") (Path_ (Splitter c)) (Path_ (Splitter d)) true
  ++ compare (lit "components.xray.version") (Version (Xray c)) (Version (Xray d)) false
  ++ compare (lit "components.xray.path") (Path_ (Xray c)) (Path_ (Xray d)) true
  ++ compareIdentity (lit "components.splitter.sha256") (SHA256 (Splitter c)) (SHA256 (Splitter d)) true
  ++ compareIdentity (lit "components.xray.sha256") (SHA256 (Xray c)) (SHA256 (Xray d)) true
  ++ compareIdentity (lit "components.xray.realityFingerprint")
       (RealityFingerprint (Xray c)) (RealityFingerprint (Xray d)) true.

Definition planOrigin (c d : OriginState) : list Change :=
  compare (lit "components.origin.mode") (Mode c) (Mode d) true
  ++ compare (lit "components.origin.version") (o_Version c) (o_Version d) false
  ++ compare (lit "components.origin.domain") (Domain c) (Domain d) true
  ++ compareIdentity (lit "components.origin.upstreamAddr") (UpstreamAddr c) (UpstreamAddr d) true
  ++ compareIdentity (lit "components.origin.originPort") (Itoa (OriginPort c)) (Itoa (OriginPort d)) true
  ++ compareIdentity (lit "components.origin.acmeChallenge") (ACMEChallenge c) (ACMEChallenge d) true
  ++ compareIdentity (lit "components.origin.acmeEmail") (ACMEEmail c) (ACMEEmail d) true
  ++ compareIdentity (lit "components.origin.cdnSecurity") (CDNSecurity c) (CDNSecurity d) true
  ++ compareIdentity (lit "components.origin.cdnOriginTrust") (CDNOriginTrust c) (CDNOriginTrust d) true
  ++ compareIdentity (lit "components.origin.caddyfileHash") (CaddyfileHash c) (CaddyfileHash d) true.

Definition planPaths (c d : Paths) : list Change :=
  compare (lit "paths.env") (Env c) (Env d) true
  ++ compare (lit "paths.config") (Config c) (Config d) true
  ++ compareIdentity (lit "paths.unitDir") (UnitDir c) (UnitDir d) true
  ++ compareIdentity (lit "paths.wantsDir") (WantsDir c) (WantsDir d) true
  ++ compareIdentity (lit "paths.logDir") (LogDir c) (LogDir d) true
  ++ compareIdentity (lit "paths.dataDir") (DataDir c) (DataDir d) true
  ++ compareIdentity (lit "paths.binaryPrefix") (BinaryPrefix c) (BinaryPrefix d) true
  ++ compareIdentity (lit "paths.unitsBackupDir") (UnitsBackupDir c) (UnitsBackupDir d) true
  ++ compareIdentity (lit "paths.binaryPointer") (BinaryPointer c) (BinaryPointer d) true
  ++ compareList (lit "paths.unitFiles") (UnitFiles c) (UnitFiles d).

Definition planChanges (c : Manifest) (d : DesiredState) : list Change :=
  planComponents (m_Components c) (d_Components d)
  ++ planOrigin (Origin (m_Components c)) (Origin (d_Components d))
  ++ planPaths (m_Paths c) (d_Paths d)
  ++ compareIdentity (lit "config.fingerprint") (ConfigFingerprint c) (d_ConfigFingerprint d) false
  ++ compare (lit "firewall.backend") (Backend (Firewall c)) (Backend (d_Firewall d)) true
  ++ compare (lit "firewall.ownership") (Ownership (Firewall c)) (Ownership (d_Firewall d)) true
  ++ compare (lit "firewall.rulesHash") (RulesHash (Firewall c)) (RulesHash (d_Firewall d)) true
  ++ compare (lit "pairing.state") (State (Pairing c)) (State (d_Pairing d)) true
  ++ compareList (lit "pairing.fingerprints") (Fingerprints (Pairing c)) (Fingerprints (d_Pairing d))
  ++ (if servicesEqual (Services c) (d_Services d) then []
      else [mkChange (lit "services") (count (Services c)) (count (d_Services d)) true]).

Inductive plan_error := PlanRole | PlanRoleChange.

(** [None]: nothing is installed. *)
Definition PlanDesired (current : option Manifest) (desired : DesiredState) : res plan_error Plan :=
  if negb (known_role (d_Role desired)) then Err PlanRole
  else
    let finish changes := Ok (mkPlan changes (length changes =? 0)%nat) in
    match current with
    | None => finish [mkChange (lit "install") [] (d_Role desired) false]
    | Some c => if negb (streqb (Role c) (d_Role desired)) then Err PlanRoleChange
                else finish (planChanges c desired)
    end.

(** ** What the planner compares *)

Lemma compare_nil f b a d : compare f b a d = [] ↔ b = a.
Proof. unfold compare. destruct (streqb b a) eqn:E; [apply streqb_true in E|apply streqb_false in E]; naive_solver. Qed.

Lemma compareIdentity_nil f b a d : compareIdentity f b a d = [] ↔ a = [] ∨ b = a.
Proof.
  unfold compareIdentity. destruct (streqb a []) eqn:E; [apply streqb_true in E; naive_solver|].
  apply streqb_false in E. rewrite compare_nil. naive_solver.
Qed.

Lemma compareList_nil f b a : compareList f b a = [] ↔ a = [] ∨ b = a.
Proof.
  unfold compareList. destruct a as [|x a]; [naive_solver|]. cbn [length].
  change (0 <? S (length a))%nat with true. destruct (decide (b = x :: a)) as [->|Hne].
  - rewrite bool_decide_true by done. naive_solver.
  - rewrite bool_decide_false by done. naive_solver.
Qed.

(** A service record agrees with a desired one. *)
Definition service_agrees (c d : ServiceState) : Prop :=
  Unit c = Unit d ∧ Component c = Component d ∧ (Hash d = [] ∨ Hash c = Hash d).

Lemma servicesEqual_spec c d : servicesEqual c d = true ↔ Forall2 service_agrees c d.
Proof.
  unfold servicesEqual. destruct (Nat.eqb_spec (length c) (length d)) as [Hl|Hl]; cbn [negb].
  2: { split; [done|]. by intros ?%Forall2_length. }
  revert d Hl. induction c as [|x c IH]; intros [|y d] Hl; try done; cbn [servicesEqualFrom].
  injection Hl as Hl. rewrite Forall2_cons, <- (IH d Hl). unfold service_agrees.
  destruct (streqb (Unit x) (Unit y)) eqn:E1; [apply streqb_true in E1|apply streqb_false in E1; cbn; naive_solver].
  destruct (streqb (Component x) (Component y)) eqn:E2; [apply streqb_true in E2|apply streqb_false in E2; cbn; naive_solver].
  cbn [negb orb]. destruct (streqb (Hash y) []) eqn:E3; [apply streqb_true in E3; cbn [negb andb]; naive_solver|].
  apply streqb_false in E3. cbn [negb andb].
  destruct (streqb (Hash x) (Hash y)) eqn:E4; [apply streqb_true in E4|apply streqb_false in E4]; cbn; naive_solver.
Qed.

(** An identity field agrees when it is not asserted or equal. *)
Definition asserted (before after : gostring) : Prop := after = [] ∨ before = after.

(** What a plan without changes means. *)
Record agrees (c : Manifest) (d : DesiredState) : Prop := {
  ag_splitter : Version (Splitter (m_Components c)) = Version (Splitter (d_Components d))
    ∧ Path_ (Splitter (m_Components c)) = Path_ (Splitter (d_Components d))
    ∧ asserted (SHA256 (Splitter (m_Components c))) (SHA256 (Splitter (d_Components d)));
  ag_xray : Version (Xray (m_Components c)) = Version (Xray (d_Components d))
    ∧ Path_ (Xray (m_Components c)) = Path_ (Xray (d_Components d))
    ∧ asserted (SHA256 (Xray (m_Components c))) (SHA256 (Xray (d_Components d)))
    ∧ asserted (RealityFingerprint (Xray (m_Components c))) (RealityFingerprint (Xray (d_Components d)));
  ag_origin : planOrigin (Origin (m_Components c)) (Origin (d_Components d)) = [];
  ag_paths : Env (m_Paths c) = Env (d_Paths d) ∧ Config (m_Paths c) = Config (d_Paths d)
    ∧ Forall2 asserted
        (map (λ f, f (m_Paths c)) [UnitDir; WantsDir; LogDir; DataDir; BinaryPrefix; UnitsBackupDir; BinaryPointer])
        (map (λ f, f (d_Paths d)) [UnitDir; WantsDir; LogDir; DataDir; BinaryPrefix; UnitsBackupDir; BinaryPointer])
    ∧ (UnitFiles (d_Paths d) = [] ∨ UnitFiles (m_Paths c) = UnitFiles (d_Paths d));
  ag_config : asserted (ConfigFingerprint c) (d_ConfigFingerprint d);
  ag_firewall : Firewall c = d_Firewall d;
  ag_pairing : State (Pairing c) = State (d_Pairing d)
    ∧ (Fingerprints (d_Pairing d) = [] ∨ Fingerprints (Pairing c) = Fingerprints (d_Pairing d));
  ag_services : Forall2 service_agrees (Services c) (d_Services d)
}.

Lemma planChanges_nil c d : planChanges c d = [] ↔ agrees c d.
Proof.
  unfold planChanges, planComponents, planPaths. rewrite !app_nil, !compareList_nil, !compareIdentity_nil, !compare_nil.
  assert (∀ (b : bool) x, (if b then [] else [x]) = @nil Change ↔ b = true) as Hif by (intros []; naive_solver).
  rewrite Hif, servicesEqual_spec. fold (asserted (ConfigFingerprint c) (d_ConfigFingerprint d)).
  split.
  - intros H. destruct_and!. constructor; unfold asserted; repeat match goal with |- _ ∧ _ => split end; try assumption.
    + cbn [map]. repeat (constructor; [assumption|]). constructor.
    + destruct (Firewall c), (d_Firewall d); cbn in *; congruence.
  - intros [A1 A2 A3 (P1 & P2 & P3 & P4) A5 A6 A7 A8]. cbn [map] in P3. unfold asserted in *.
    repeat (apply Forall2_cons in P3 as [? P3]). rewrite A6. destruct_and!. split_and!; first [assumption|reflexivity].
Qed.

(** What a transaction records of a desired state. *)
Definition records (m : Manifest) (d : DesiredState) : Prop :=
  Role m = d_Role d ∧ m_Components m = d_Components d ∧ (m_Paths m) <| StateRoot := [] |> = (d_Paths d) <| StateRoot := [] |>
  ∧ State (Pairing m) = State (d_Pairing d) ∧ Fingerprints (Pairing m) = Fingerprints (d_Pairing d)
  ∧ Services m = d_Services d ∧ Firewall m = d_Firewall d ∧ ConfigFingerprint m = d_ConfigFingerprint d.

Lemma compare_same f a d : compare f a a d = [].
Proof. by apply compare_nil. Qed.

Lemma compareIdentity_same f a d : compareIdentity f a a d = [].
Proof. apply compareIdentity_nil. by right. Qed.

Lemma records_agrees m d : records m d → agrees m d.
Proof.
  intros (R & C & P & S1 & S2 & Sv & F & Cf).
  assert (∀ f : Paths → gostring, (∀ p, f (p <| StateRoot := [] |>) = f p) → f (m_Paths m) = f (d_Paths d)) as Hp.
  { intros f Hf. by rewrite <- (Hf (m_Paths m)), <- (Hf (d_Paths d)), P. }
  assert (UnitFiles (m_Paths m) = UnitFiles (d_Paths d)) as Hu.
  { change (UnitFiles ((m_Paths m) <| StateRoot := [] |>) = UnitFiles ((d_Paths d) <| StateRoot := [] |>)). by rewrite P. }
  constructor; rewrite ?C, ?Sv, ?F, ?Cf; unfold asserted; auto.
  - unfold planOrigin. by rewrite !compare_same, !compareIdentity_same.
  - rewrite !Hp by done. split_and!; auto. cbn [map]. rewrite !Hp by done. repeat constructor; by right.
  - clear. induction (d_Services d) as [|x l IH]; constructor; [|done]. unfold service_agrees. split_and!; auto.
Qed.

(** The plan of what is recorded is empty. *)
Lemma plan_agrees m d plan : PlanDesired (Some m) d = Ok plan → Unchanged plan = true ↔ agrees m d.
Proof.
  unfold PlanDesired. repeat case_match; try done. intros [= <-]. cbn [Unchanged].
  rewrite Nat.eqb_eq, length_zero_iff_nil. apply planChanges_nil.
Qed.

(** The plan of a request on an installed host has no changes exactly when every
    structural field is equal and every identity field the request asserts is
    equal; in particular the plan of what was just recorded has none.  A role
    the program does not know, or another role than the installed one, is an
    error; without an installation the plan is the install. *)
Theorem plan_exact current d :
  match PlanDesired current d with
  | Err PlanRole => known_role (d_Role d) = false
  | Err PlanRoleChange => ∃ c, current = Some c ∧ Role c ≠ d_Role d
  | Ok p =>
      known_role (d_Role d) = true
      ∧ match current with
        | None => Unchanged p = false
        | Some c => Role c = d_Role d ∧ (Unchanged p = true ↔ agrees c d) ∧ (records c d → Unchanged p = true)
        end
  end.
Proof.
  unfold PlanDesired. destruct (known_role (d_Role d)) eqn:Hk; [|done]. cbn [negb]. destruct current as [c|]; [|done].
  destruct (streqb (Role c) (d_Role d)) eqn:Hr; cbn [negb].
  2: { apply streqb_false in Hr. by exists c. }
  apply streqb_true in Hr. cbn [Unchanged].
  assert ((length (planChanges c d) =? 0)%nat = true ↔ agrees c d) as E.
  { rewrite Nat.eqb_eq, length_zero_iff_nil. apply planChanges_nil. }
  split; [done|]. split; [done|]. split; [exact E|]. intros H. by apply E, records_agrees.
Qed.
