(* ===== verification/Store.v ===== *)
(** * The state store of a deployment (src/internal/deploy/state.go, journal.go)

    The files below the state root and every operation on them, step by step:
    each system call may succeed, fail, or be the last one before the process
    dies, as an oracle says.  The temporary file of an atomic write, the order
    of the writes of a commit and the reads that reject a tampered file are as
    in the source.

    A file's content is what its JSON decodes to; [Torn] is a partial write and
    [Foreign] anything the decoder rejects.  SHA-256 over the canonical JSON is
    the parameter [digest]. *)
From S2P Require Export Manifest Path.
#[local] Open Scope Z_scope.

(** ** The journal *)

Record ArtifactJournal := mkJournal {
  j_Generation : gostring; j_Role : gostring; EnvChanged : bool;
  Files : list gostring; PreFiles : list gostring; Units : list gostring; PreUnits : list gostring;
  j_Firewall : bool; XrayDir : gostring; OriginDir : gostring
}.

#[export] Instance ArtifactJournal_expandable : Expandable ArtifactJournal := {| expand := λ j,
  mkJournal (j_Generation j) (j_Role j) (EnvChanged j) (Files j) (PreFiles j) (Units j) (PreUnits j)
    (j_Firewall j) (XrayDir j) (OriginDir j) |}.

(** [systemd.BinaryPrefix] *)
Definition managedBinaryPrefix : gostring := lit "/opt/split-tunnel".

Definition binaryPrefixContained (dir : gostring) : bool :=
  if negb (IsAbs dir) && negb (has_prefix (lit "/") dir) then false else within managedBinaryPrefix dir.

Definition unit_ok (unit : gostring) : bool :=
  negb (streqb unit [] || negb (streqb (Base unit) unit) || negb (streqb (Ext unit) (lit ".service"))).

Definition journal_ok (root : gostring) (j : ArtifactJournal) : bool :=
  known_role (j_Role j)
  && forallb (λ p, IsAbs p && within root p) (Files j ++ PreFiles j)
  && forallb unit_ok (Units j ++ PreUnits j)
  && forallb (λ d, streqb d [] || binaryPrefixContained d) [XrayDir j; OriginDir j].

(** ** Errors: the sentinels [errors.Is] finds *)

Inductive sentinel := ErrTransaction | ErrRecovered | ErrTampered | ErrInvalidManifest | ErrUnsafePath | ErrNotExist.

#[export] Instance sentinel_eq_decision : EqDecision sentinel.
Proof. solve_decision. Defined.

Definition goerr := list sentinel.
Definition Is (e : goerr) (s : sentinel) : bool := bool_decide (s ∈ e).
Definition plain_error : goerr := [].

(** ** Files and faults *)

Inductive file := StateFile | JournalFile | RevFile (id : gostring).
(** [Temp pid f]: the temporary file of process [pid] for [f]. *)
Inductive path := Final (f : file) | Temp (pid : Z) (f : file).

#[export] Instance file_eq_decision : EqDecision file.
Proof. solve_decision. Defined.
#[export] Instance path_eq_decision : EqDecision path.
Proof. solve_decision. Defined.

#[export] Instance file_countable : Countable file :=
  inj_countable' (λ f, match f with StateFile => inl (inl tt) | JournalFile => inl (inr tt) | RevFile i => inr i end)
    (λ x, match x with inl (inl _) => StateFile | inl (inr _) => JournalFile | inr i => RevFile i end)
    ltac:(by intros []).
#[export] Instance path_countable : Countable path :=
  inj_countable' (λ p, match p with Final f => inl f | Temp i f => inr (i, f) end)
    (λ x, match x with inl f => Final f | inr (i, f) => Temp i f end) ltac:(by intros []).

(** [MoreFields m]: a manifest object with fields the program does not know. *)
Inductive content := CManifest (m : Manifest) | CJournal (j : ArtifactJournal) | MoreFields (m : Manifest) | Torn | Foreign.

Inductive fault := FErr | FCrash.

Section store.
(** [H]: the rest of the host. *)
Context {H : Type}.

Record world := mkWorld {
  fs : gmap path content;
  host : H;
  pid : Z;                          (* [os.Getpid] *)
  oracle : list (option fault);     (* [None]: the call succeeds; so do the calls past its end *)
  clock : list Z                    (* what the next readings of the clock are *)
}.

#[export] Instance world_expandable : Expandable world := {| expand := λ w, mkWorld (fs w) (host w) (pid w) (oracle w) (clock w) |}.

(** The process returns or dies. *)
Inductive outcome (A : Type) := Ret (r : res goerr A) | Dead.
#[global] Arguments Ret {A} r.
#[global] Arguments Dead {A}.

Definition M (A : Type) : Type := world → outcome A * world.

#[export] Instance M_mret : MRet M := λ A a w, (Ret (Ok a), w).
#[export] Instance M_mbind : MBind M := λ A B f m w,
  match m w with
  | (Ret (Ok a), w) => f a w
  | (Ret (Err e), w) => (Ret (Err e), w)
  | (Dead, w) => (Dead, w)
  end.

Definition throw {A} (e : goerr) : M A := λ w, (Ret (Err e), w).

(** The error of a call made into another, as the source wraps it. *)
Definition wrapping {A} (f : goerr → goerr) (m : M A) : M A := λ w,
  match m w with (Ret (Err e), w) => (Ret (Err (f e)), w) | r => r end.

(** A call whose error is handled where it is made. *)
Definition attempt {A} (m : M A) : M (res goerr A) := λ w,
  match m w with (Ret r, w) => (Ret (Ok r), w) | (Dead, w) => (Dead, w) end.

(** One system call that changes no file of the store. *)
Definition syscall (e : goerr) : M unit := λ w,
  match oracle w with
  | [] => (Ret (Ok ()), w)
  | x :: o => let w := w <| oracle := o |> in
              match x with None => (Ret (Ok ()), w) | Some FErr => (Ret (Err e), w) | Some FCrash => (Dead, w) end
  end.

Definition setFs (f : gmap path content → gmap path content) : M unit := λ w, (Ret (Ok ()), w <| fs := f (fs w) |>).
Definition getFs : M (gmap path content) := λ w, (Ret (Ok (fs w)), w).
Definition Getpid : M Z := λ w, (Ret (Ok (pid w)), w).

(** [time.Now] *)
Definition now : M Z := λ w,
  match clock w with [] => (Ret (Ok 0), w) | t :: c => (Ret (Ok t), w <| clock := c |>) end.

(** [os.ReadFile] *)
Definition readFile (f : file) : M content :=
  _ ← syscall plain_error;
  m ← getFs;
  match m !! Final f with Some c => mret c | None => throw [ErrNotExist] end.

(** [os.Remove] *)
Definition remove (p : path) : M unit :=
  _ ← syscall plain_error;
  m ← getFs;
  match m !! p with Some _ => setFs (delete p) | None => throw [ErrNotExist] end.

Definition discard {A} (m : M A) : M unit := _ ← attempt m; mret ().

(** atomicWrite: the parent directory, the check for a symbolic link, the
    temporary file opened exclusively, the write, the sync, the close and the
    rename; after an error the temporary file is removed if it can be. *)
Definition writeTemp (i : Z) (f : file) (c : content) : M unit :=
  _ ← syscall plain_error;
  _ ← setFs (insert (Temp i f) c);
  _ ← syscall plain_error;
  _ ← syscall plain_error;
  _ ← syscall plain_error;
  setFs (λ m, delete (Temp i f) (insert (Final f) c m)).

Definition atomicWrite (f : file) (c : content) : M unit :=
  _ ← syscall plain_error;
  _ ← syscall [ErrUnsafePath];
  _ ← syscall plain_error;
  i ← Getpid;
  m ← getFs;
  match m !! Temp i f with
  | Some _ => throw plain_error
  | None =>
      _ ← setFs (insert (Temp i f) Torn);
      r ← attempt (writeTemp i f c);
      match r with
      | Ok _ => _ ← discard (syscall plain_error); mret ()
      | Err e => _ ← discard (remove (Temp i f)); throw e
      end
  end.

(** ** The manifest *)

Context (digest : Manifest → gostring).

Definition manifestHash (m : Manifest) : gostring := digest (m <| ManifestHash := [] |>).

Definition validateManifest (m : Manifest) : res goerr unit :=
  if negb (Schema m =? SchemaVersion) && negb (legacySchema (Schema m)) then Err [ErrInvalidManifest]
  else if negb (known_role (Role m)) then Err [ErrInvalidManifest]
  else if streqb (StateRoot (m_Paths m)) [] || negb (IsAbs (StateRoot (m_Paths m))) then Err [ErrInvalidManifest]
  else Ok ().

(** [strings.EqualFold] with a hexadecimal string. *)
Definition EqualFold (hex s : gostring) : bool := streqb (lower hex) (lower s).

Definition lift {A} (r : res goerr A) : M A := λ w, (Ret r, w).

Definition Load : M Manifest :=
  c ← readFile StateFile;
  match c with
  | CManifest m =>
      _ ← lift (validateManifest m);
      if EqualFold (manifestHash m) (ManifestHash m) then mret m else throw [ErrTampered]
  | _ => throw [ErrTampered]
  end.

(** Lstat of the root, or its creation; and its mode. *)
Definition ensureRoot : M unit := _ ← syscall [ErrUnsafePath]; syscall plain_error.

Definition Save (m : Manifest) : M unit :=
  _ ← lift (validateManifest m);
  let m := m <| ManifestHash := manifestHash m |> in
  _ ← ensureRoot;
  atomicWrite StateFile (CManifest m).

(** The snapshots below revisions/, in the order of their file names. *)
Definition rev_of (p : path) : option gostring := match p with Final (RevFile id) => Some id | _ => None end.

Fixpoint name_le (a b : gostring) : bool :=
  match a, b with
  | [], _ => true
  | _ :: _, [] => false
  | x :: a, y :: b => if bz x <? bz y then true else if bz y <? bz x then false else name_le a b
  end.

Fixpoint insert_name (x : gostring) (l : list gostring) : list gostring :=
  match l with
  | [] => [x]
  | y :: l => if name_le (x ++ lit ".json") (y ++ lit ".json") then x :: y :: l else y :: insert_name x l
  end.

Definition ReadDir (m : gmap path content) : list gostring :=
  foldr insert_name [] (omap (λ kv, rev_of (fst kv)) (map_to_list m)).

Fixpoint pruneLoop (keep : list gostring) (entries : list gostring) : M unit :=
  match entries with
  | [] => mret ()
  | id :: entries =>
      if bool_decide (id ∈ keep) then pruneLoop keep entries
      else _ ← remove (Final (RevFile id)); pruneLoop keep entries
  end.

Definition prune (revisions : list Revision) : M unit :=
  _ ← syscall plain_error;
  m ← getFs;
  pruneLoop (map ID revisions) (ReadDir m).

Definition maxRevisions : nat := 10.

Definition snapshotName (id : gostring) : gostring := Join [lit "revisions"; id ++ lit ".json"].

Definition withRevision (m : Manifest) (id : gostring) (t : Z) (label : gostring) : Manifest :=
  let l := Revisions m ++ [mkRevision id t label (snapshotName id)] in
  let l := if (maxRevisions <? length l)%nat then drop (length l - maxRevisions) l else l in
  m <| Revisions := map (λ r, mkRevision (ID r) (Timestamp r) (Label r) (snapshotName (ID r))) l |>.

(** [root]: the store's root. *)
Context (root : gostring).

(** The fields a commit fills in at time [t]. *)
Definition stamp (t : Z) (m : Manifest) : Manifest :=
  let m := if Schema m =? SchemaVersion then m else m <| Schema := SchemaVersion |> in
  let m := match CreatedAt m with Some _ => m | None => m <| CreatedAt := Some t |> end in
  let m := m <| UpdatedAt := Some t |> in
  let m := if streqb (Generation m) [] then m <| Generation := lit "s-" ++ Itoa t |> else m in
  if streqb (StateRoot (m_Paths m)) [] then m <| m_Paths := (m_Paths m) <| StateRoot := root |> |> else m.

Definition Commit (m : Manifest) (label : gostring) : M Manifest :=
  t ← now;
  let m := stamp t m in
  _ ← lift (validateManifest m);
  _ ← ensureRoot;
  _ ← syscall plain_error;
  let id := Generation m ++ lit "-" ++ Itoa t in
  let m := withRevision m id t label in
  _ ← atomicWrite (RevFile id) (CManifest (m <| ManifestHash := manifestHash m |>));
  _ ← Save m;
  _ ← prune (Revisions m);
  mret m.

Definition token_char (c : byte) : bool := is_lower c || is_upper c || is_digit c || beqb c x2d || beqb c x5f.

Definition validToken (s : gostring) : bool :=
  if streqb s [] || (128 <? length s)%nat then false else forallb token_char s.

Definition ReadRevision (id : gostring) : M Manifest :=
  if negb (validToken id) then throw [ErrUnsafePath]
  else
    c ← readFile (RevFile id);
    match c with
    | CManifest m | MoreFields m => _ ← lift (validateManifest m); mret m
    | _ => throw [ErrInvalidManifest]
    end.

(** ** The journal's file *)

Definition WriteJournal (j : ArtifactJournal) : M unit :=
  if negb (journal_ok root j) then throw plain_error
  else _ ← ensureRoot; atomicWrite JournalFile (CJournal j).

Definition ReadJournal : M ArtifactJournal :=
  c ← readFile JournalFile;
  match c with
  | CJournal j => if journal_ok root j then mret j else throw [ErrTampered]
  | _ => throw [ErrTampered]
  end.

(** A journal that is not there is no error. *)
Definition ClearJournal : M unit :=
  r ← attempt (remove (Final JournalFile));
  match r with
  | Ok _ => mret ()
  | Err e => if Is e ErrNotExist then mret () else throw e
  end.
End store.
Arguments world : clear implicits.
Arguments M : clear implicits.
