(* ===== verification/StoreSafety.v ===== *)
(** * The store keeps its files whole

    Theorems about Store.v that hold whatever call fails and wherever the
    process dies: what an atomic write can leave behind, what a read that
    succeeds has seen, and what a commit does to the manifest and the retained
    snapshots. *)
From S2P Require Export Store.
#[local] Open Scope Z_scope.

Section store.
Context {H : Type} (digest : Manifest → gostring) (root : gostring).
Implicit Types w : world H.

(** ** Reasoning about runs

    [wp m Q w]: however [m] ends when it starts in [w], [Q] holds of the outcome
    and of the world left behind. *)

Definition wp {A} (m : M H A) (Q : outcome A → world H → Prop) w : Prop := Q (fst (m w)) (snd (m w)).

Lemma wp_mono {A} (m : M H A) (Q Q' : outcome A → world H → Prop) w :
  wp m Q w → (∀ r w', Q r w' → Q' r w') → wp m Q' w.
Proof. unfold wp. auto. Qed.

Lemma wp_run {A} (m : M H A) (Q : outcome A → world H → Prop) w r w' : wp m Q w → m w = (r, w') → Q r w'.
Proof. unfold wp. intros HQ E. by rewrite E in HQ. Qed.

(** What a computation passes on to the one that follows it. *)
Definition next {A B} (f : A → M H B) (Q : outcome B → world H → Prop) (r : outcome A) w : Prop :=
  match r with Ret (Ok a) => wp (f a) Q w | Ret (Err e) => Q (Ret (Err e)) w | Dead => Q Dead w end.

Lemma wp_bind {A B} (m : M H A) (f : A → M H B) Q w : wp m (next f Q) w → wp (m ≫= f) Q w.
Proof. unfold wp, next, mbind, M_mbind. by destruct (m w) as [[[a|e]|] w1]. Qed.

Lemma wp_ret {A} (a : A) (Q : outcome A → world H → Prop) w : Q (Ret (Ok a)) w → wp (mret a) Q w.
Proof. done. Qed.

Lemma wp_throw {A} e (Q : outcome A → world H → Prop) w : Q (Ret (Err e)) w → wp (throw e) Q w.
Proof. done. Qed.

Lemma wp_lift {A} (x : res goerr A) (Q : outcome A → world H → Prop) w : Q (Ret x) w → wp (lift x) Q w.
Proof. done. Qed.

Lemma wp_attempt {A} (m : M H A) Q w :
  wp m (λ r w', match r with Ret x => Q (Ret (Ok x)) w' | Dead => Q Dead w' end) w → wp (attempt m) Q w.
Proof. unfold wp, attempt. by destruct (m w) as [[x|] w1]. Qed.

Lemma wp_wrapping {A} g (m : M H A) Q w :
  wp m (λ r w', match r with Ret (Err e) => Q (Ret (Err (g e))) w' | r => Q r w' end) w → wp (wrapping g m) Q w.
Proof. unfold wp, wrapping. by destruct (m w) as [[[a|e]|] w1]. Qed.

Lemma wp_getFs (Q : outcome (gmap path content) → world H → Prop) w : Q (Ret (Ok (fs w))) w → wp getFs Q w.
Proof. done. Qed.

Lemma wp_setFs f (Q : outcome unit → world H → Prop) w : Q (Ret (Ok ())) (w <| fs := f (fs w) |>) → wp (setFs f) Q w.
Proof. done. Qed.

(** Nothing but the oracle and the clock moved. *)
Definition quiet w w' : Prop := fs w' = fs w ∧ host w' = host w.

Lemma quiet_refl w : quiet w w.
Proof. done. Qed.

Lemma quiet_trans w1 w2 w3 : quiet w1 w2 → quiet w2 w3 → quiet w1 w3.
Proof. intros [] []. split; congruence. Qed.

Lemma wp_syscall e (Q : outcome unit → world H → Prop) w :
  (∀ w', quiet w w' → Q (Ret (Ok ())) w' ∧ Q (Ret (Err e)) w' ∧ Q Dead w') → wp (syscall e) Q w.
Proof.
  intros HQ. unfold wp, syscall. destruct (oracle w) as [|[[]|] o]; cbn [fst snd]; by apply HQ.
Qed.

Lemma wp_now (Q : outcome Z → world H → Prop) w :
  (∀ t w', quiet w w' → Q (Ret (Ok t)) w') → wp now Q w.
Proof. intros HQ. unfold wp, now. destruct (clock w) as [|t c]; cbn [fst snd]; by apply HQ. Qed.

(** ** Atomic writes *)

(** Only [f] and its temporary files moved. *)
Definition touches (f : file) w w' : Prop :=
  host w' = host w ∧ ∀ p, p ≠ Final f → (∀ i, p ≠ Temp i f) → fs w' !! p = fs w !! p.

Lemma touches_quiet f w1 w2 w3 : touches f w1 w2 → quiet w2 w3 → touches f w1 w3.
Proof. intros [E1 E2] [F1 F2]. split; [congruence|]. intros p ??. rewrite F1. auto. Qed.

Lemma touches_refl f w : touches f w w.
Proof. done. Qed.

Lemma touches_trans f w1 w2 w3 : touches f w1 w2 → touches f w2 w3 → touches f w1 w3.
Proof. intros [E1 E2] [F1 F2]. split; [congruence|]. intros p ??. rewrite F2 by done. auto. Qed.

(** What an atomic write of [c] can do to [f], given how it ended. *)
Definition written (f : file) (c : content) w (r : outcome unit) w' : Prop :=
  touches f w w'
  ∧ match r with
    | Ret (Ok _) => fs w' !! Final f = Some c
    | Ret (Err _) => fs w' !! Final f = fs w !! Final f
    | Dead => fs w' !! Final f = fs w !! Final f ∨ fs w' !! Final f = Some c
    end.

Lemma fs_set (w : world H) g : fs (w <| fs := g |>) = g.
Proof. done. Qed.

Lemma wp_remove p (Q : outcome unit → world H → Prop) w :
  (∀ w', quiet w w' →
     Q Dead w' ∧ Q (Ret (Err plain_error)) w'
     ∧ match fs w !! p with
       | Some _ => Q (Ret (Ok ())) (w' <| fs := delete p (fs w') |>)
       | None => Q (Ret (Err [ErrNotExist])) w'
       end) → wp (remove p) Q w.
Proof.
  intros HQ. unfold remove. apply wp_bind, wp_syscall. intros w' Hq. destruct (HQ w' Hq) as (H1 & H2 & H3).
  cbn [next]. split_and!; try done. apply wp_bind, wp_getFs. cbn [next]. destruct Hq as [-> _].
  destruct (fs w !! p); [apply wp_setFs|by apply wp_throw]. done.
Qed.

Lemma wp_discard {A} (m : M H A) (Q : outcome unit → world H → Prop) w :
  wp m (λ r w', match r with Ret _ => Q (Ret (Ok ())) w' | Dead => Q Dead w' end) w → wp (discard m) Q w.
Proof.
  intros Hm. unfold discard. apply wp_bind, wp_attempt. eapply wp_mono; [exact Hm|]. by intros [x|] w'.
Qed.

(** The file system between the creation of the temporary file and the rename. *)
Definition staged (f : file) w w' : Prop :=
  touches f w w' ∧ fs w' !! Final f = fs w !! Final f.

Lemma staged_quiet f w1 w2 w3 : staged f w1 w2 → quiet w2 w3 → staged f w1 w3.
Proof. intros [E1 E2] Q. split; [by eapply touches_quiet|]. by rewrite (proj1 Q). Qed.

Lemma staged_temp i f w1 w2 g :
  staged f w1 w2 → (∀ p, p ≠ Temp i f → g (fs w2) !! p = fs w2 !! p) → staged f w1 (w2 <| fs := g (fs w2) |>).
Proof.
  intros [[E1 E2] E3] Hg. split; [split; [done|]|].
  - intros p Hp1 Hp2. rewrite fs_set, Hg by done. auto.
  - rewrite fs_set, Hg by done. done.
Qed.

Lemma wp_writeTemp i f c w0 w :
  staged f w0 w →
  wp (writeTemp i f c) (λ r w', match r with
     | Ret (Ok _) => touches f w0 w' ∧ fs w' !! Final f = Some c
     | _ => staged f w0 w' end) w.
Proof.
  intros Hs. unfold writeTemp.
  apply wp_bind, wp_syscall. intros w1 Q1. cbn [next]. pose proof (staged_quiet f w0 w w1 Hs Q1) as S1. split_and!; [|done..].
  apply wp_bind, wp_setFs. cbn [next].
  set (w2 := w1 <| fs := _ |>). assert (staged f w0 w2) as S2.
  { apply (staged_temp i); [done|]. intros p Hp. by rewrite lookup_insert_ne. }
  apply wp_bind, wp_syscall. intros w3 Q3. cbn [next]. pose proof (staged_quiet f w0 w2 w3 S2 Q3) as S3. split_and!; [|done..].
  apply wp_bind, wp_syscall. intros w4 Q4. cbn [next]. pose proof (staged_quiet f w0 w3 w4 S3 Q4) as S4. split_and!; [|done..].
  apply wp_bind, wp_syscall. intros w5 Q5. cbn [next]. pose proof (staged_quiet f w0 w4 w5 S4 Q5) as S5. split_and!; [|done..].
  apply wp_setFs. rewrite fs_set. split; [|by rewrite lookup_delete_ne, lookup_insert_eq].
  destruct S5 as [[E1 E2] _]. split; [done|]. intros p Hp1 Hp2. rewrite fs_set, lookup_delete_ne, lookup_insert_ne by done. auto.
Qed.

Lemma wp_atomicWrite f c w : wp (atomicWrite f c) (written f c w) w.
Proof.
  unfold atomicWrite.
  assert (∀ w', quiet w w' → written f c w (Ret (Err plain_error)) w' ∧ written f c w (Ret (Err [ErrUnsafePath])) w' ∧ written f c w Dead w')
    as Hq.
  { intros w' Q. assert (touches f w w') as T by by eapply touches_quiet. unfold written. rewrite (proj1 Q). auto. }
  apply wp_bind, wp_syscall. intros w1 Q1. cbn [next]. split_and!; [|by apply Hq..].
  apply wp_bind, wp_syscall. intros w2 Q2. pose proof (quiet_trans _ _ _ Q1 Q2) as Q12. cbn [next]. split_and!; [|by apply Hq..].
  apply wp_bind, wp_syscall. intros w3 Q3. pose proof (quiet_trans _ _ _ Q12 Q3) as Q13. cbn [next]. split_and!; [|by apply Hq..].
  apply wp_bind. unfold Getpid. unfold wp at 1. cbn [fst snd next]. set (i := pid w3).
  apply wp_bind, wp_getFs. cbn [next]. destruct (fs w3 !! Temp i f); [apply wp_throw; by apply Hq|].
  apply wp_bind, wp_setFs. cbn [next]. set (w4 := w3 <| fs := _ |>).
  assert (staged f w w4) as S4.
  { apply (staged_temp i); [|intros p Hp; by rewrite lookup_insert_ne]. split; [by eapply touches_quiet|by rewrite (proj1 Q13)]. }
  apply wp_bind, wp_attempt. eapply wp_mono; [by apply wp_writeTemp|]. intros [[[]|e]|] w5 P; cbn [next].
  - destruct P as [T E]. apply wp_bind, wp_discard, wp_syscall. intros w6 Q6. cbn [next].
    assert (written f c w (Ret (Ok ())) w6 ∧ written f c w Dead w6) as [D1 D2].
    { unfold written. rewrite (proj1 Q6). split; (split; [by eapply touches_quiet|auto]). }
    split_and!; [by apply wp_ret..|done].
  - apply wp_bind, wp_discard, wp_remove. intros w6 Q6. pose proof (staged_quiet f w w5 w6 P Q6) as [T6 E6]. cbn [next].
    assert (written f c w (Ret (Err e)) w6 ∧ written f c w Dead w6) as [D1 D2] by (unfold written; auto).
    split_and!; [done|by apply wp_throw|].
    destruct (fs w5 !! Temp i f); apply wp_throw; [|done]. unfold written.
    destruct (staged_temp i f w w6 (delete (Temp i f))) as [T7 E7]; [done|intros p Hp; by rewrite lookup_delete_ne|done].
  - unfold written. destruct P as [T E]. auto.
Qed.

(** ** Reads *)

Lemma wp_readFile f (Q : outcome content → world H → Prop) w :
  (∀ w', quiet w w' →
     Q Dead w' ∧ Q (Ret (Err plain_error)) w'
     ∧ match fs w !! Final f with Some c => Q (Ret (Ok c)) w' | None => Q (Ret (Err [ErrNotExist])) w' end) →
  wp (readFile f) Q w.
Proof.
  intros HQ. unfold readFile. apply wp_bind, wp_syscall. intros w' Hq. destruct (HQ w' Hq) as (H1 & H2 & H3).
  cbn [next]. split_and!; try done. apply wp_bind, wp_getFs. cbn [next]. destruct Hq as [-> _].
  by destruct (fs w !! Final f).
Qed.

(** A manifest that Load accepts. *)
Definition sound (m : Manifest) : Prop :=
  validateManifest m = Ok () ∧ EqualFold (manifestHash digest m) (ManifestHash m) = true.

Lemma validate_error m e : validateManifest m = Err e → e = [ErrInvalidManifest].
Proof. unfold validateManifest. repeat case_match; congruence. Qed.

(** Load answers with the manifest on disk, if it is sound; "not there" means
    that there is none. *)
Lemma wp_Load (Q : outcome Manifest → world H → Prop) w :
  (∀ w', quiet w w' →
     Q Dead w'
     ∧ (∀ e, (Is e ErrNotExist = true → fs w !! Final StateFile = None) → Q (Ret (Err e)) w')
     ∧ (∀ m, fs w !! Final StateFile = Some (CManifest m) → sound m → Q (Ret (Ok m)) w')) →
  wp (Load digest) Q w.
Proof.
  intros HQ. unfold Load. apply wp_bind, wp_readFile. intros w' Hq. destruct (HQ w' Hq) as (H1 & H2 & H3).
  cbn [next]. split_and!; [done|by apply H2|].
  destruct (fs w !! Final StateFile) as [c|] eqn:E; [|by apply H2].
  destruct c as [m|j|m| |]; try by (apply wp_throw, H2; intros ?%bool_decide_eq_true; set_solver).
  apply wp_bind, wp_lift. destruct (validateManifest m) as [[]|e] eqn:Hv; cbn [next].
  2: { apply H2. rewrite (validate_error m e Hv). intros ?%bool_decide_eq_true; set_solver. }
  destruct (EqualFold _ _) eqn:Hh; [by apply wp_ret, H3|apply wp_throw, H2; intros ?%bool_decide_eq_true; set_solver].
Qed.

(** ** Saving *)

Definition hashed (m : Manifest) : Manifest := m <| ManifestHash := manifestHash digest m |>.

Lemma manifestHash_hashed m : manifestHash digest (hashed m) = manifestHash digest m.
Proof. done. Qed.

Lemma EqualFold_refl h : EqualFold h h = true.
Proof. unfold EqualFold. apply streqb_refl. Qed.

Lemma hashed_sound m : validateManifest m = Ok () → sound (hashed m).
Proof. intros Hv. split; [exact Hv|]. rewrite manifestHash_hashed. apply EqualFold_refl. Qed.

Lemma written_quiet f c w w1 r w' : quiet w w1 → written f c w1 r w' → written f c w r w'.
Proof.
  intros [E1 E2] [[T1 T2] R]. rewrite E1 in T2, R. unfold written, touches. rewrite <- E2. done.
Qed.

Lemma wp_Save m w : validateManifest m = Ok () → wp (Save digest m) (written StateFile (CManifest (hashed m)) w) w.
Proof.
  intros Hv. unfold Save. apply wp_bind, wp_lift. rewrite Hv. cbn [next].
  assert (∀ w', quiet w w' → ∀ e, written StateFile (CManifest (hashed m)) w (Ret (Err e)) w'
                                  ∧ written StateFile (CManifest (hashed m)) w Dead w') as Hq.
  { intros w' Q e. assert (touches StateFile w w') as T by by eapply touches_quiet. unfold written. rewrite (proj1 Q). auto. }
  apply wp_bind. unfold ensureRoot. apply wp_bind, wp_syscall. intros w1 Q1. cbn [next]. split_and!; [|by apply Hq|by apply (Hq _ Q1 plain_error)].
  apply wp_syscall. intros w2 Q2. pose proof (quiet_trans _ _ _ Q1 Q2) as Q12. cbn [next]. split_and!; [|by apply Hq|by apply (Hq _ Q12 plain_error)].
  eapply wp_mono; [apply wp_atomicWrite|]. intros r w'. by apply written_quiet.
Qed.

(** ** Pruning *)

(** Only snapshots outside [keep] may go. *)
Definition pruned (keep : list gostring) w w' : Prop :=
  host w' = host w
  ∧ ∀ p, fs w' !! p = fs w !! p ∨ (fs w' !! p = None ∧ ∃ id, p = Final (RevFile id) ∧ id ∉ keep).

Lemma pruned_trans k w1 w2 w3 : pruned k w1 w2 → pruned k w2 w3 → pruned k w1 w3.
Proof.
  intros [E1 E2] [F1 F2]. split; [congruence|]. intros p.
  destruct (F2 p) as [->|?]; [by apply E2|by right].
Qed.

Lemma pruned_quiet k w w' : quiet w w' → pruned k w w'.
Proof. intros [E1 E2]. split; [done|]. intros p. rewrite E1. by left. Qed.

Lemma pruned_none k w w' p : pruned k w w' → fs w !! p = None → fs w' !! p = None.
Proof. intros [_ P] Hp. destruct (P p) as [->|[-> _]]; done. Qed.

Lemma pruned_keep k w w' p : pruned k w w' → (∀ id, p = Final (RevFile id) → id ∈ k) → fs w' !! p = fs w !! p.
Proof. intros [_ P] Hp. destruct (P p) as [->|[_ (id & -> & Hn)]]; [done|]. by destruct (Hn (Hp id eq_refl)). Qed.

Lemma wp_pruneLoop keep l w :
  wp (pruneLoop keep l) (λ r w', pruned keep w w' ∧
       (r = Ret (Ok ()) → ∀ id, id ∈ l → id ∉ keep → fs w' !! Final (RevFile id) = None)) w.
Proof.
  revert w. induction l as [|id l IH]; intros w; cbn [pruneLoop].
  { apply wp_ret. split; [by apply pruned_quiet|]. intros _ id Hin. by apply elem_of_nil in Hin. }
  case_bool_decide as Hk.
  { eapply wp_mono; [apply IH|]. intros r w' [P1 P2]. split; [done|].
    intros Hr id' [->|Hin]%elem_of_cons Hn; [done|by apply P2]. }
  apply wp_bind, wp_remove. intros w1 Q1. cbn [next].
  split_and!; try (by apply pruned_quiet); try done.
  destruct (fs w !! Final (RevFile id)) as [c|] eqn:Ec; [|split; [by apply pruned_quiet|done]].
  set (w2 := w1 <| fs := _ |>).
  assert (fs w2 !! Final (RevFile id) = None) as Hnone by (unfold w2; rewrite fs_set; apply lookup_delete_eq).
  assert (pruned keep w w2) as P.
  { eapply pruned_trans; [by apply pruned_quiet|]. split; [done|]. intros p. destruct (decide (p = Final (RevFile id))) as [->|Hne].
    - right. eauto.
    - left. unfold w2. by rewrite fs_set, lookup_delete_ne. }
  eapply wp_mono; [apply IH|]. intros r w' [P1 P2]. split; [by eapply pruned_trans|].
  intros Hr id' [->|Hin]%elem_of_cons Hn; [|by apply P2]. by eapply pruned_none.
Qed.

Lemma elem_insert_name x y l : x ∈ insert_name y l ↔ x = y ∨ x ∈ l.
Proof.
  induction l as [|z l IH]; cbn [insert_name]; [set_solver|]. destruct (name_le _ _); rewrite ?elem_of_cons, ?IH; set_solver.
Qed.

Lemma elem_ReadDir m id : id ∈ ReadDir m ↔ is_Some (m !! Final (RevFile id)).
Proof.
  unfold ReadDir.
  assert (∀ l : list gostring, id ∈ foldr insert_name [] l ↔ id ∈ l) as ->.
  { induction l as [|x l IH]; cbn [foldr]; [done|]. rewrite elem_insert_name, IH, elem_of_cons. done. }
  rewrite list_elem_of_omap. split.
  - intros ([p c] & Hin & Hr). cbn in Hr. destruct p as [[| |i]|]; try done. injection Hr as ->.
    apply elem_of_map_to_list in Hin. by exists c.
  - intros [c Hc]. exists (Final (RevFile id), c). split; [by apply elem_of_map_to_list|done].
Qed.

(** Pruning removes nothing but snapshots outside the list, and on success all
    of them. *)
Lemma wp_prune rs w :
  wp (prune rs) (λ r w', pruned (map ID rs) w w' ∧
       (r = Ret (Ok ()) → ∀ id, id ∉ map ID rs → fs w' !! Final (RevFile id) = None)) w.
Proof.
  unfold prune. apply wp_bind, wp_syscall. intros w1 Q1. cbn [next].
  split; [|split; (split; [by apply pruned_quiet|done])]. apply wp_bind, wp_getFs. cbn [next].
  eapply wp_mono; [apply wp_pruneLoop|]. intros r w' [P1 P2].
  assert (pruned (map ID rs) w w') as P by (apply (pruned_trans _ w w1); [by apply pruned_quiet|done]). split; [done|].
  intros Hr id Hn. destruct (fs w1 !! Final (RevFile id)) as [c|] eqn:E; [|by apply (pruned_none (map ID rs) w1 w')].
  apply P2; [done| |done]. apply elem_ReadDir. by exists c.
Qed.

(** ** Commits *)

(** The manifest a commit of [m] at [t] installs, before its hash. *)
Definition revisionID (t : Z) (m : Manifest) : gostring := Generation (stamp root t m) ++ lit "-" ++ Itoa t.
Definition committed (t : Z) (label : gostring) (m : Manifest) : Manifest :=
  withRevision (stamp root t m) (revisionID t m) t label.

Definition ids (m : Manifest) : list gostring := map ID (Revisions m).

Lemma ids_withRevision m id t label :
  ids (withRevision m id t label) = drop (length (Revisions m) + 1 - maxRevisions) (ids m ++ [id]).
Proof.
  unfold ids, withRevision. cbn [Revisions setter]. change (Revisions (?x <| Revisions := ?y |>)) with y.
  rewrite map_map. cbn [ID]. change (map (λ r, ID r)) with (map ID). rewrite length_app. cbn [length].
  destruct (Nat.ltb_spec maxRevisions (length (Revisions m) + 1)) as [Hl|Hl].
  - rewrite <- (skipn_map ID), map_app. done.
  - rewrite map_app. replace (length (Revisions m) + 1 - maxRevisions)%nat with 0%nat by lia. done.
Qed.

Lemma ids_committed t label m :
  let l := ids (committed t label m) in
  (length l ≤ maxRevisions)%nat ∧ revisionID t m ∈ l ∧ ∀ id, id ∈ l → id = revisionID t m ∨ id ∈ ids m.
Proof.
  cbv zeta. unfold committed. rewrite ids_withRevision. set (id := revisionID t m).
  assert (Revisions (stamp root t m) = Revisions m) as HR.
  { unfold stamp. repeat case_match; done. }
  assert (ids (stamp root t m) = ids m) as -> by (unfold ids; by rewrite HR).
  rewrite HR. assert (length (ids m) = length (Revisions m)) as Hlen by apply length_map.
  split_and!.
  - rewrite length_drop, length_app, Hlen. unfold maxRevisions. cbn. lia.
  - rewrite drop_app_le by (rewrite Hlen; unfold maxRevisions; lia). apply elem_of_app. right. by left.
  - intros x Hx. assert (x ∈ ids m ++ [id]) as Hx'.
    { rewrite <- (take_drop (length (Revisions m) + 1 - maxRevisions) (ids m ++ [id])). apply elem_of_app. by right. }
    apply elem_of_app in Hx' as [?| ->%list_elem_of_singleton]; auto.
Qed.

(** The snapshots that [l] names are on disk. *)
Definition on_disk (l : list gostring) w : Prop := ∀ id, id ∈ l → is_Some (fs w !! Final (RevFile id)).

Lemma on_disk_same l w w' :
  on_disk l w → (∀ id, id ∈ l → fs w' !! Final (RevFile id) = fs w !! Final (RevFile id)) → on_disk l w'.
Proof. intros Ho Hs id Hid. rewrite Hs by done. auto. Qed.

(** How a commit of [m] may end, given the world it started in. *)
Record commit_post (m : Manifest) (label : gostring) w (r : outcome Manifest) w' : Prop := {
  cp_host : host w' = host w;
  cp_journal : fs w' !! Final JournalFile = fs w !! Final JournalFile;
  cp_state :
    (fs w' !! Final StateFile = fs w !! Final StateFile
     ∧ (∀ x, r ≠ Ret (Ok x)) ∧ (∀ id, is_Some (fs w !! Final (RevFile id)) → is_Some (fs w' !! Final (RevFile id))))
    ∨ ∃ t, let n := committed t label m in
        validateManifest n = Ok ()
        ∧ fs w' !! Final StateFile = Some (CManifest (hashed n))
        ∧ (on_disk (ids m) w → on_disk (ids n) w')
        ∧ ∀ x, r = Ret (Ok x) → x = n ∧ ∀ id, is_Some (fs w' !! Final (RevFile id)) → id ∈ ids n
}.

Lemma Generation_committed t label m : Generation (committed t label m) ≠ [].
Proof.
  change (Generation (stamp root t m) ≠ []). unfold stamp.
  set (m0 := if Schema m =? SchemaVersion then m else _). set (m1 := match CreatedAt m0 with Some _ => _ | None => _ end).
  set (m2 := m1 <| UpdatedAt := _ |>). clearbody m2. clear m0 m1.
  assert (∀ m' : Manifest, Generation (if streqb (StateRoot (m_Paths m')) []
    then m' <| m_Paths := (m_Paths m') <| StateRoot := root |> |> else m') = Generation m') as E by (intros m'; by case_match).
  rewrite E. destruct (streqb (Generation m2) []) eqn:Eg; [done|]. by apply streqb_false in Eg.
Qed.

(** Until the state file is replaced. *)
Lemma commit_early m label w r w' :
  host w' = host w → fs w' !! Final JournalFile = fs w !! Final JournalFile →
  fs w' !! Final StateFile = fs w !! Final StateFile →
  (∀ id, is_Some (fs w !! Final (RevFile id)) → is_Some (fs w' !! Final (RevFile id))) →
  (∀ x, r ≠ Ret (Ok x)) → commit_post m label w r w'.
Proof. intros ?????. constructor; auto. Qed.

Lemma commit_quiet m label w r w' : quiet w w' → (∀ x, r ≠ Ret (Ok x)) → commit_post m label w r w'.
Proof. intros [E1 E2] ?. apply commit_early; rewrite ?E1; auto. Qed.

Lemma wp_Commit m label w : wp (Commit digest root m label) (commit_post m label w) w.
Proof.
  unfold Commit. apply wp_bind, wp_now. intros t w0 Q0. cbn [next].
  set (n := committed t label m). set (id := revisionID t m).
  assert (validateManifest n = validateManifest (stamp root t m)) as Hv by done.
  apply wp_bind, wp_lift. destruct (validateManifest (stamp root t m)) as [[]|e] eqn:Ev; cbn [next]; [|by apply commit_quiet].
  apply wp_bind. unfold ensureRoot. apply wp_bind, wp_syscall. intros w1 Q1. cbn [next].
  pose proof (quiet_trans _ _ _ Q0 Q1) as Q01. split; [|split; by apply commit_quiet].
  apply wp_syscall. intros w2 Q2. cbn [next]. pose proof (quiet_trans _ _ _ Q01 Q2) as Q02. split; [|split; by apply commit_quiet].
  apply wp_bind, wp_syscall. intros w3 Q3. cbn [next]. pose proof (quiet_trans _ _ _ Q02 Q3) as Q03. split; [|split; by apply commit_quiet].
  change (Generation (stamp root t m) ++ lit "-" ++ Itoa t) with id.
  fold (committed t label m). fold n. fold (hashed n).
  apply wp_bind. eapply wp_mono; [apply wp_atomicWrite|]. intros r4 w4 [[T1 T2] R4].
  assert (∀ x, is_Some (fs w !! Final (RevFile x)) → is_Some (fs w4 !! Final (RevFile x))) as Hrev.
  { intros x Hx. rewrite <- (proj1 Q03) in Hx. destruct (decide (x = id)) as [->|Hne].
    - destruct r4 as [[]|]; [by rewrite R4|by rewrite R4|destruct R4 as [->| ->]; done].
    - by rewrite T2 by congruence. }
  assert (∀ r, (∀ x, r ≠ Ret (Ok x)) → commit_post m label w r w4) as Hearly.
  { intros r Hr. apply commit_early; rewrite ?T1, ?T2 by done; try (by rewrite (proj1 Q03)); [apply Q03|done..]. }
  destruct r4 as [[[]|e]|]; cbn [next]; [|by apply Hearly..]. clear Hearly.
  apply wp_bind. eapply wp_mono; [by apply wp_Save|]. intros r5 w5 [[U1 U2] R5].
  assert (∀ p, p ≠ Final StateFile → (∀ i, p ≠ Temp i StateFile) → p ≠ Final (RevFile id) → (∀ i, p ≠ Temp i (RevFile id)) →
               fs w5 !! p = fs w !! p) as Hp.
  { intros p ????. rewrite U2, T2 by done. by rewrite (proj1 Q03). }
  assert (∀ x, is_Some (fs w !! Final (RevFile x)) → is_Some (fs w5 !! Final (RevFile x))) as Hrev5.
  { intros x Hx. rewrite U2 by done. auto. }
  assert (on_disk (ids m) w → on_disk (ids n) w5) as Hdisk.
  { intros Ho x Hx. destruct (ids_committed t label m) as (_ & _ & Hids). destruct (Hids x Hx) as [->|Hm]; [|auto].
    fold id. rewrite U2, R4 by done. by eexists. }
  assert (host w5 = host w) as Hh by (rewrite U1, T1; apply Q03).
  assert (∀ r, (∀ x, r ≠ Ret (Ok x)) → fs w5 !! Final StateFile = fs w !! Final StateFile → commit_post m label w r w5) as Hold.
  { intros r Hr Hs. apply commit_early; rewrite ?Hp by done; done. }
  assert (∀ r, (∀ x, r ≠ Ret (Ok x)) → fs w5 !! Final StateFile = Some (CManifest (hashed n)) → commit_post m label w r w5) as Hnew.
  { intros r Hr Hs. constructor; [done|by apply Hp|]. right. exists t. fold n. split_and!; [by rewrite Hv|done..|]. intros x ->. by destruct (Hr x). }
  assert (fs w4 !! Final StateFile = fs w !! Final StateFile) as HS by (rewrite T2 by done; by rewrite (proj1 Q03)).
  destruct r5 as [[[]|e]|]; cbn [next]; [|apply Hold; [done|congruence]|destruct R5 as [R5|R5]; [apply Hold; [done|congruence]|by apply Hnew]].
  apply wp_bind. eapply wp_mono; [apply wp_prune|]. intros r6 w6 [P6 C6].
  assert (∀ r, (∀ x, r = Ret (Ok x) → x = n ∧ r6 = Ret (Ok ())) → commit_post m label w r w6) as Hdone.
  { intros r Hr. assert (∀ p, (∀ id, p ≠ Final (RevFile id)) → fs w6 !! p = fs w5 !! p) as Hkeep.
    { intros p Hne. eapply pruned_keep; [exact P6|]. intros x ->. by destruct (Hne x). }
    constructor.
    - rewrite (proj1 P6). done.
    - rewrite Hkeep by done. by apply Hp.
    - right. exists t. fold n. split_and!; [by rewrite Hv|by rewrite Hkeep|..].
      + intros Ho x Hx. erewrite pruned_keep; [by apply Hdisk|exact P6|]. by intros y [= <-].
      + intros x ->. destruct (Hr x eq_refl) as [-> Hr6]. split; [done|]. intros y Hy.
        destruct (decide (y ∈ ids n)) as [Hin|Hout]; [done|]. rewrite (C6 Hr6 y Hout) in Hy. by destruct Hy. }
  destruct r6 as [[[]|e]|]; cbn [next]; [apply wp_ret|..]; apply Hdone; intros x Hx; simplify_eq; done.
Qed.

End store.
