(* ===== verification/Pair.v ===== *)
(** * The pairing exchange (src/internal/deploy/pair.go, src/cmd/splitterctl/main.go, extra.go)

    The commands [pair generate] (Iran, emits blob A), [pair apply] (Germany,
    reads blob A and emits blob B from its installed Xray configuration) and
    [pair finalize] (Iran, reads blob B and renders its consumer).  They run over
    the state store of [Store], with its crashes; what else they read of the host
    (environment, files, interfaces) is a record of inputs.  The state keeps
    fingerprints only.

    [emission] is what goes to the operator and to the consumer's file.  The
    relay copy of an emitted blob (SPLITTERCTL_PAIR_BLOB_OUT) and the restart of
    the consumer are not modelled beyond the check of the path. *)
From S2P Require Export Xray StoreSafety.
From S2P Require Import Origin.
#[local] Open Scope Z_scope.

(** ** The public address of the host *)

Definition v4_in (ip : list byte) (p : Z → Z → bool) : bool :=
  match To4 ip with Some (a :: b :: _) => p (bz a) (bz b) | _ => false end.

(** [IP.IsPrivate], [IP.IsLinkLocalUnicast], [IP.IsMulticast], [IP.IsUnspecified] *)
Definition IsPrivate (ip : list byte) : bool :=
  match To4 ip with
  | Some _ => v4_in ip (λ a b, (a =? 10) || ((a =? 172) && (Z.land b 240 =? 16)) || ((a =? 192) && (b =? 168)))
  | None => (length ip =? 16)%nat && (Z.land (bz (nth 0 ip x00)) 254 =? 252)
  end.

Definition IsLinkLocalUnicast (ip : list byte) : bool :=
  match To4 ip with
  | Some _ => v4_in ip (λ a b, (a =? 169) && (b =? 254))
  | None => (length ip =? 16)%nat && (bz (nth 0 ip x00) =? 254) && (Z.land (bz (nth 1 ip x00)) 192 =? 128)
  end.

Definition IsMulticast (ip : list byte) : bool :=
  match To4 ip with
  | Some _ => v4_in ip (λ a _, Z.land a 240 =? 224)
  | None => (length ip =? 16)%nat && (bz (nth 0 ip x00) =? 255)
  end.

Definition IsUnspecified (ip : list byte) : bool := bool_decide (To4 ip = Some (replicate 4 x00)) || bool_decide (ip = replicate 16 x00).

(** [IP.IsGlobalUnicast] *)
Definition IsGlobalUnicast (ip : list byte) : bool :=
  ((length ip =? 4)%nat || (length ip =? 16)%nat) && negb (bool_decide (To4 ip = Some (replicate 4 xff)))
  && negb (IsUnspecified ip) && negb (IsLoopback ip) && negb (IsMulticast ip) && negb (IsLinkLocalUnicast ip).

Definition public_ip (ip : list byte) : bool :=
  negb (IsLoopback ip || negb (IsGlobalUnicast ip) || IsLinkLocalUnicast ip || IsPrivate ip).

Definition is_v4 (ip : list byte) : bool := match To4 ip with Some _ => true | None => false end.

(** The first string of the sorted list. *)
Fixpoint lowest (l : list gostring) : option gostring :=
  match l with
  | [] => None
  | s :: l => match lowest l with Some t => Some (if name_le s t then s else t) | None => Some s end
  end.

(** [addrs]: the addresses of the interfaces; [None] if they cannot be listed. *)
Definition detectGermanyHost (addrs : option (list (list byte))) : option gostring :=
  match addrs with
  | None => None
  | Some l =>
      let public := List.filter public_ip l in
      match lowest (map IP_String (List.filter is_v4 public)) with
      | Some s => Some s
      | None => lowest (map IP_String (List.filter (λ ip, negb (is_v4 ip)) public))
      end
  end.

(** ** The exchange *)

Definition PairingStateNone : gostring := lit "none".
Definition stateAGenerated : gostring := lit "a-generated".
Definition stateAApplied : gostring := lit "a-applied".
Definition stateFinalized : gostring := lit "finalized".

Section pair.
Context {H : Type} (digest : Manifest → gostring) (root : gostring)
        (unicode_lower : gostring → gostring) (sha256 : list byte → list byte)
        (marshalA : BlobA → list byte) (marshalB : BlobB → list byte)
        (decodeHead : list byte → option (Z * gostring))
        (strictDecodeA : list byte → option BlobA) (strictDecodeB : list byte → option BlobB)
        (MarshalIndent : json → list byte) (Unmarshal : list byte → option json) (x25519 : list byte → option (list byte)).

#[local] Abbreviation M := (@Store.M H).

(** A call whose error carries no sentinel of the store. *)
Definition raise {E A} (r : res E A) : M A := match r with Ok a => mret a | Err _ => throw plain_error end.
Definition require (b : bool) : M unit := if b then mret () else throw plain_error.

Definition fingerprint (s : gostring) : gostring := hexEncode (sha256 s).

Definition GenerateA (secret uploadDomain : gostring) : res Pairing.error (gostring * PairingState) :=
  blob ← NewBlobA unicode_lower secret uploadDomain;
  encoded ← EncodeA unicode_lower sha256 marshalA blob;
  Ok (encoded, mkPairing RoleGermany stateAGenerated [fingerprint encoded] false).

Definition ApplyA (encoded : gostring) : res Pairing.error (BlobA * PairingState) :=
  blob ← ParseBlobA unicode_lower sha256 decodeHead strictDecodeA encoded;
  Ok (blob, mkPairing RoleIran stateAApplied [fingerprint encoded] false).

Definition GenerateB (public : PublicParams) (target : DownTarget) : res Pairing.error (gostring * PairingState) :=
  blob ← NewBlobB public target;
  encoded ← EncodeB sha256 marshalB blob;
  Ok (encoded, mkPairing RoleIran (lit "b-generated") [fingerprint encoded] false).

Definition ApplyB (encoded : gostring) : res Pairing.error (BlobB * PairingState) :=
  blob ← ParseBlobB sha256 decodeHead strictDecodeB encoded;
  Ok (blob, mkPairing RoleGermany stateFinalized [fingerprint encoded] false).

Definition realityFingerprint (p : RealityParams) : gostring :=
  hexEncode (sha256 (r_SNI p ++ [x0a] ++ r_ShortID p ++ [x0a] ++ r_UUID p)).

Definition recordedRealityFingerprint (c : ComponentState) : gostring :=
  if negb (streqb (RealityFingerprint c) []) then RealityFingerprint c else SHA256 c.

(** The committed deployment, if there is one, must be the installed one. *)
Definition checkRecorded (installed : InstalledRealityParams) : M unit :=
  r ← attempt (Store.Load digest);
  match r with
  | Err e => if Is e ErrNotExist then mret () else throw e
  | Ok current =>
      let recorded := recordedRealityFingerprint (Manifest.Xray (m_Components current)) in
      require (streqb recorded []
               || streqb (realityFingerprint (mkReality (p_SNI installed) (p_ShortID installed) (p_UUID installed))) recorded)
  end.

Definition ApplyAGermany (encoded downHost configPath : gostring) (config : option (bool * option (list byte))) : M (gostring * PairingState) :=
  a ← raise (ApplyA encoded);
  installed ← raise (ReadInstalledRealityParams Unmarshal x25519 configPath config);
  _ ← checkRecorded installed;
  b ← raise (GenerateB (mkPublic (p_RealityPublicKey installed) (p_ShortID installed) (p_UUID installed) (p_SNI installed))
                       (mkDown downHost (p_Port installed)));
  mret (fst b, mkPairing (PeerRole (snd a)) (State (snd a)) [fingerprint encoded; fingerprint (fst b)] false).

(** What a command reads of the host besides the store. *)
Record inputs := mkInputs {
  BlobOut : gostring;                     (* SPLITTERCTL_PAIR_BLOB_OUT *)
  SecretFile : gostring; secretBytes : option (list byte); in_UploadDomain : gostring;
  BlobFile : gostring; blobBytes : option (list byte);
  in_DownHost : gostring; interfaces : option (list (list byte));
  configFile : option (bool * option (list byte));
  ConsumerListen : gostring
}.

Definition generateStep (m : Manifest) (force : bool) (i : inputs) : M (gostring * PairingState * option BlobB) :=
  _ ← require (streqb (Role m) RoleIran);
  _ ← require (negb (streqb (State (Manifest.Pairing m)) stateFinalized && negb force));
  _ ← require (negb (streqb (SecretFile i) []) && negb (streqb (in_UploadDomain i) []) && IsAbs (SecretFile i));
  match secretBytes i with
  | None => throw plain_error
  | Some secret => a ← raise (GenerateA (TrimSpace secret) (in_UploadDomain i)); mret (fst a, snd a, None)
  end.

Definition applyStep (m : Manifest) (i : inputs) (encoded : gostring) : M (gostring * PairingState * option BlobB) :=
  let state := State (Manifest.Pairing m) in
  _ ← require (streqb state [] || streqb state PairingStateNone || streqb state stateAApplied);
  _ ← require (negb (streqb (Manifest.Config (m_Paths m)) []));
  let host := TrimSpace (in_DownHost i) in
  match (if streqb host [] then detectGermanyHost (interfaces i) else Some host) with
  | None => throw plain_error
  | Some downHost => b ← ApplyAGermany encoded downHost (Manifest.Config (m_Paths m)) (configFile i); mret (fst b, snd b, None)
  end.

Definition finalizeStep (encoded : gostring) : M (gostring * PairingState * option BlobB) :=
  b ← raise (ApplyB encoded); mret ([], snd b, Some (fst b)).

Inductive action := Generate | Apply_ | Finalize.
Definition action_name (a : action) : gostring :=
  lit match a with Generate => "generate" | Apply_ => "apply" | Finalize => "finalize" end.

(** The part of a command before its commit. *)
Definition pairStep (m : Manifest) (a : action) (force : bool) (i : inputs) : M (gostring * PairingState * option BlobB) :=
  match a with
  | Generate => generateStep m force i
  | _ =>
      _ ← require (negb (streqb (BlobFile i) []) && IsAbs (BlobFile i));
      match blobBytes i with
      | None => throw plain_error
      | Some data =>
          let encoded := TrimSpace data in
          if streqb (Role m) RoleGermany then
            match a with Apply_ => applyStep m i encoded | _ => throw plain_error end
          else match a with Finalize => finalizeStep encoded | _ => throw plain_error end
      end
  end.

Definition hasExtraUnit (m : Manifest) (component : gostring) : bool :=
  existsb (λ x, streqb (x_Component x) component) (Extra m).

Definition parseListenAddr (raw defHost : gostring) (defPort : Z) : gostring * Z :=
  if streqb raw [] then (defHost, defPort)
  else match net_SplitHostPort raw with
       | None => (defHost, defPort)
       | Some (host, portStr) =>
           match Atoi portStr with
           | Some port => if (port <? 1) || (65535 <? port) then (defHost, defPort) else (host, port)
           | None => (defHost, defPort)
           end
       end.

(** What a command gives out: the blob, and for a finalized exchange what is
    written to the consumer's file, [None] inside if it cannot be rendered. *)
Record emission := mkEmission { emitted : gostring; consumerFile : option (option (list byte)) }.

Definition consumerOf (b : BlobB) (i : inputs) : option (list byte) :=
  let '(addr, port) := parseListenAddr (ConsumerListen i) (lit "127.0.0.1") 10802 in
  RenderConsumerConfig MarshalIndent (consumerFromBlobB b addr port).

Definition pairCommand (a : action) (force : bool) (i : inputs) : M emission :=
  m ← Store.Load digest;
  let out := TrimSpace (BlobOut i) in
  _ ← require (streqb out [] || IsAbs out);
  s ← pairStep m a force i;
  let '(blob, state, blobB) := s in
  committed ← Store.Commit digest root (m <| Manifest.Pairing := state |>) (lit "pair-" ++ action_name a);
  let consumer :=
    match a, blobB with
    | Finalize, Some b => if hasExtraUnit committed (lit "xray-consumer") then Some (consumerOf b i) else None
    | _, _ => None
    end in
  mret (mkEmission blob consumer).

Definition ValidatePairRole (state : PairingState) (role : gostring) : bool :=
  known_role role && negb (negb (streqb (PeerRole state) []) && streqb (PeerRole state) role).
End pair.

(** ** What the exchange is for

    The outbound of the consumer is accepted by the inbound: same transport,
    same port, a client, name and identifier the inbound knows, and the public
    key that belongs to its private key. *)
Definition authenticates (x25519 : list byte → option (list byte)) (o : consumerOutb) (i : germanyInbound) : Prop :=
  co_Protocol o = gi_Protocol i ∧ co_Network o = gi_Network i ∧ co_Security o = gi_Security i ∧ co_Port o = gi_Port i
  ∧ (∃ id enc, (id, enc) ∈ Users o ∧ id ∈ Clients i)
  ∧ ServerName o ∈ ServerNames (gi_Reality i) ∧ co_ShortID o ∈ ShortIds (gi_Reality i)
  ∧ ∃ priv pub, decodeKey32 (PrivateKey (gi_Reality i)) = Some priv ∧ x25519 priv = Some pub ∧ decodeKey32 (co_PublicKey o) = Some pub.

(** The operator hands an emitted line over as a file. *)
Definition handed (blob : gostring) (i : inputs) : inputs :=
  mkInputs (BlobOut i) (SecretFile i) (secretBytes i) (in_UploadDomain i) (lit "/root/blob") (Some (blob ++ [x0a]))
    (in_DownHost i) (interfaces i) (configFile i) (ConsumerListen i).

Lemma strip_step f rs s s' : strip_one rs s = Some s' → strip (S f) rs s = strip f rs s'.
Proof. intros E. cbn [strip]. by rewrite E. Qed.

Lemma TrimSpace_line c s d : b64_ok c = true → b64_ok d = true → TrimSpace ((c :: s ++ [d]) ++ [x0a]) = c :: s ++ [d].
Proof.
  intros Hc Hd. unfold TrimSpace, trim_left. rewrite (strip_idle _ spaces).
  2: { apply strip_one_none; [|done]. repeat constructor. }
  rewrite reverse_app. change (reverse [x0a]) with [x0a]. cbn [app].
  replace (reverse (c :: s ++ [d])) with (d :: reverse s ++ [c]) by (rewrite reverse_cons, reverse_app; done).
  cbn [length]. rewrite (strip_step _ _ _ (d :: reverse s ++ [c])) by reflexivity.
  rewrite strip_idle. 2: { apply strip_one_none; [|done]. repeat constructor. }
  rewrite reverse_cons, reverse_app, reverse_involutive. done.
Qed.

(** The blob of an installation with the public key [pub]. *)
Definition germany_blob (pub : list byte) (p : RealityParams) (host : gostring) : BlobB :=
  mkBlobB Version roleB (mkPublic (b64_encode pub) (r_ShortID p) (r_UUID p) (r_SNI p)) (mkDown host germanyPort).

Section exchange.
Context {H : Type} (digest : Manifest → gostring) (root : gostring)
        (unicode_lower : gostring → gostring) (sha256 : list byte → list byte)
        (marshalA : BlobA → list byte) (marshalB : BlobB → list byte)
        (decodeHead : list byte → option (Z * gostring))
        (strictDecodeA : list byte → option BlobA) (strictDecodeB : list byte → option BlobB)
        (MarshalIndent : json → list byte) (Unmarshal : list byte → option json) (x25519 : list byte → option (list byte)).

(** The laws of the libraries. *)
Hypothesis sha256_size : ∀ l, length (sha256 l) = 32%nat.
Hypothesis json_A : ∀ a, ascii_A a = true →
  decodeHead (marshalA a) = Some (a_V a, a_Role a) ∧ strictDecodeA (marshalA a) = Some a.
Hypothesis json_B : ∀ b, ascii_B b = true →
  decodeHead (marshalB b) = Some (b_V b, b_Role b) ∧ strictDecodeB (marshalB b) = Some b.
Hypothesis json_text : ∀ t, plain_json t = true → Unmarshal (MarshalIndent t ++ [x0a]) = Some t.
Hypothesis x25519_key : ∀ priv, length priv = 32%nat → ∃ pub, x25519 priv = Some pub ∧ length pub = 32%nat.

#[local] Abbreviation pairStep := (Pair.pairStep (H := H) digest unicode_lower sha256 marshalA marshalB decodeHead strictDecodeA strictDecodeB Unmarshal x25519).
#[local] Abbreviation fingerprint := (Pair.fingerprint sha256).

Lemma encodeBlob_line payload : TrimSpace (encodeBlob sha256 payload ++ [x0a]) = encodeBlob sha256 payload.
Proof.
  destruct (b64_encode_snoc (sha256 payload)) as (s & d & Hs & Hok).
  { intros E. pose proof (sha256_size payload) as Hz. by rewrite E in Hz. }
  replace (encodeBlob sha256 payload) with (x73 :: (lit "plat-v1" ++ [x2e] ++ b64_encode payload ++ [x2e] ++ s) ++ [d]).
  - by apply TrimSpace_line.
  - unfold encodeBlob. rewrite Hs. change BlobFormat with (x73 :: lit "plat-v1"). cbn [app]. rewrite <- !app_assoc. cbn [app].
    by rewrite <- !app_assoc.
Qed.

(** A blob A that was generated is accepted, also as a line of a file. *)
Lemma generated_applied secret domain :
  validSecret unicode_lower secret = true → ascii secret = true → ValidUploadDomain domain = true →
  ∃ blob a, GenerateA unicode_lower sha256 marshalA secret domain = Ok (blob, mkPairing RoleGermany stateAGenerated [fingerprint blob] false)
  ∧ TrimSpace (blob ++ [x0a]) = blob
  ∧ ApplyA unicode_lower sha256 decodeHead strictDecodeA blob = Ok (a, mkPairing RoleIran stateAApplied [fingerprint blob] false).
Proof.
  intros Hs Ha Hd. set (a := mkBlobA Version roleA secret domain).
  assert (NewBlobA unicode_lower secret domain = Ok a) as Hnew by (unfold NewBlobA; by rewrite Hs, Hd).
  pose proof (host_ascii _ Hd) as Hda.
  assert (ascii_A a = true) as Hasc by (unfold ascii_A, a; cbn [a_Role a_Secret UploadDomain]; by rewrite Ha, Hda).
  assert (validateA unicode_lower a = true) as Hv.
  { unfold validateA, a. cbn [a_Secret UploadDomain]. rewrite Hs, Hd. destruct (streqb secret []) eqn:E; [|done].
    apply streqb_true in E as ->. done. }
  apply json_A in Hasc as [Hh Hj]. exists (encodeBlob sha256 (marshalA a)), a. unfold GenerateA. rewrite Hnew, res_bind_l.
  unfold EncodeA. rewrite Hv, res_bind_l. split; [done|]. split; [apply encodeBlob_line|].
  unfold ApplyA, ParseBlobA. rewrite (parsePayload_encode _ _ sha256_size _ _ _ _ Hh).
  change (a_V a) with Version. change (a_Role a) with roleA. rewrite Z.eqb_refl, streqb_refl. cbn [negb].
  by rewrite res_bind_l, Hj, Hv, res_bind_l.
Qed.

(** A blob B of valid parameters is accepted as it was made. *)
Lemma emitted_accepted pub p host :
  length pub = 32%nat → valid_reality p = true → validHost host = true →
  let b := germany_blob pub p host in
  let blob := encodeBlob sha256 (marshalB b) in
  GenerateB sha256 marshalB (Public b) (Germany b) = Ok (blob, mkPairing RoleIran (lit "b-generated") [fingerprint blob] false)
  ∧ TrimSpace (blob ++ [x0a]) = blob
  ∧ ApplyB sha256 decodeHead strictDecodeB blob = Ok (b, mkPairing RoleGermany stateFinalized [fingerprint blob] false).
Proof.
  intros Hl Hv Hh b blob. unfold valid_reality in Hv. rewrite !andb_true_iff in Hv. destruct Hv as [[Hs Hi] Hu].
  assert (∀ i u n, Pairing.canonical (mkPublic (b64_encode pub) i u n) = mkPublic (b64_encode pub) i u n) as Hc
    by (intros i u n; unfold Pairing.canonical; cbn [RealityPublicKey]; by rewrite decode_key_encode).
  assert (validateB b = true) as Hb.
  { unfold validateB, b, germany_blob. cbn [Public Germany RealityPublicKey ShortID UUID SNI Pairing.Host Pairing.Port]. by rewrite decode_key_encode, Hi, Hu, Hs, Hh. }
  assert (ascii (b64_encode pub) = true) as Hk by (apply (rawurl_ascii _ pub), RawURLDecode_encode).
  assert (ascii_B b = true) as Hasc.
  { unfold ascii_B, b, germany_blob. cbn [b_Role Public Germany RealityPublicKey ShortID UUID SNI Pairing.Host].
    by rewrite Hk, (shortid_ascii _ Hi), (uuid_ascii _ Hu), (sni_ascii _ Hs), (host_ascii _ Hh). }
  apply json_B in Hasc as [Hd Hj]. 
  assert (Pairing.canonical (Public b) = Public b) as Hcb by (unfold b, germany_blob; cbn [Public]; by rewrite Hc).
  assert (NewBlobB (Public b) (Germany b) = Ok b) as Hn.
  { unfold NewBlobB. rewrite Hcb. cbv zeta. change (mkBlobB Version roleB (Public b) (Germany b)) with b. by rewrite Hb. }
  unfold GenerateB. rewrite Hn, res_bind_l.
  unfold EncodeB. rewrite Hb, res_bind_l. split; [done|]. split; [apply encodeBlob_line|].
  unfold ApplyB, ParseBlobB. rewrite (parsePayload_encode _ _ sha256_size _ _ _ _ Hd).
  change (b_V b) with Version. change (b_Role b) with roleB. rewrite Z.eqb_refl, streqb_refl. cbn [negb].
  rewrite res_bind_l, Hj. cbv zeta.
  replace (mkBlobB (b_V b) (b_Role b) (Pairing.canonical (Public b)) (Germany b)) with b
    by (by rewrite Hcb).
  by rewrite Hb, res_bind_l.
Qed.

(** What Germany needs to answer: an installed configuration that is the
    recorded one, an exchange that is not finalized, a public host. *)
Record answers (m : Manifest) (i : inputs) (p : RealityParams) (kp : option Keypair) (w : Store.world H) : Prop := {
  ans_role : Role m = RoleGermany;
  ans_state : State (Manifest.Pairing m) ∈ [[]; PairingStateNone; stateAApplied];
  ans_config : Manifest.Config (m_Paths m) ≠ [];
  ans_installed : ∃ text, configFile i = Some (true, Some text) ∧ RenderGermanyConfig MarshalIndent p kp = Ok text;
  ans_recorded : recordedRealityFingerprint (Manifest.Xray (m_Components m)) ∈ [[]; realityFingerprint sha256 p];
  ans_host : validHost (TrimSpace (in_DownHost i)) = true;
  ans_load : Store.Load digest w = (Ret (Ok m), w)
}.

Lemma germany_answers m i p kp w force blobA a :
  answers m i p kp w → TrimSpace (blobA ++ [x0a]) = blobA →
  ApplyA unicode_lower sha256 decodeHead strictDecodeA blobA = Ok (a, mkPairing RoleIran stateAApplied [fingerprint blobA] false) →
  ∃ k priv pub, kp = Some k ∧ decodeKey32 (PrivateRaw k) = Some priv ∧ x25519 priv = Some pub ∧ length pub = 32%nat ∧ valid_reality p = true ∧
  let b := germany_blob pub p (TrimSpace (in_DownHost i)) in
  let blobB := encodeBlob sha256 (marshalB b) in
  pairStep m Apply_ force (handed blobA i) w
    = (Ret (Ok (blobB, mkPairing RoleIran stateAApplied [fingerprint blobA; fingerprint blobB] false, None)), w)
  ∧ TrimSpace (blobB ++ [x0a]) = blobB
  ∧ ApplyB sha256 decodeHead strictDecodeB blobB
    = Ok (b, mkPairing RoleGermany stateFinalized [fingerprint blobB] false).
Proof.
  intros [Hrole Hstate Hconf (text & Hfile & Htext) Hrec Hhost Hload] Htrim Ha.
  destruct (installed_reads_back MarshalIndent Unmarshal x25519 json_text x25519_key _ p kp text Htext Hconf)
    as (k & priv & pub & -> & Hpriv & Hx & Hpl & Hv & Hread).
  destruct (emitted_accepted pub p (TrimSpace (in_DownHost i)) Hpl Hv Hhost) as (Hgen & Hline & Hb).
  exists k, priv, pub. do 5 (split; [done|]). cbv zeta. split; [|done].
  cbn [Pair.pairStep handed BlobFile blobBytes]. rewrite Hrole. change (negb (streqb (lit "/root/blob") []) && IsAbs (lit "/root/blob")) with true.
  change (streqb RoleGermany RoleGermany) with true. rewrite Htrim. unfold applyStep, require. cbn [handed in_DownHost configFile interfaces].
  assert (streqb (State (Manifest.Pairing m)) [] || streqb (State (Manifest.Pairing m)) PairingStateNone
          || streqb (State (Manifest.Pairing m)) stateAApplied = true) as ->.
  { rewrite !orb_true_iff, !streqb_true. rewrite !elem_of_cons, elem_of_nil in Hstate. tauto. }
  apply streqb_false in Hconf as ->. cbn [negb].
  destruct (streqb (TrimSpace (in_DownHost i)) []) eqn:Eh.
  { apply streqb_true in Eh. rewrite Eh in Hhost. done. }
  unfold ApplyAGermany. rewrite Ha, Hfile, Hread. unfold checkRecorded, attempt, raise.
  unfold mbind, M_mbind, mret, M_mret. rewrite Hload. cbv iota beta. cbn [p_SNI p_ShortID p_UUID p_RealityPublicKey p_Port].
  assert (streqb (recordedRealityFingerprint (Manifest.Xray (m_Components m))) []
          || streqb (realityFingerprint sha256 (mkReality (r_SNI p) (r_ShortID p) (r_UUID p)))
                    (recordedRealityFingerprint (Manifest.Xray (m_Components m))) = true) as ->.
  { rewrite orb_true_iff, !streqb_true. rewrite !elem_of_cons, elem_of_nil in Hrec. destruct p.
    destruct Hrec as [Hrec | [Hrec | []]]; [by left|by right]. }
  unfold require. cbv iota beta. cbn [germany_blob Public Germany] in Hgen. rewrite Hgen. done.
Qed.

(** The consumer of that blob and the installation it was made from. *)
Lemma consumer_authenticates k priv pub p host addr port :
  decodeKey32 (PrivateRaw k) = Some priv → x25519 priv = Some pub → length pub = 32%nat → valid_reality p = true →
  validHost host = true → addr ≠ [] → 1 ≤ port ≤ 65535 →
  let q := consumerFromBlobB (germany_blob pub p host) addr port in
  ValidateConsumerParams q = true
  ∧ ∃ i o, Inbounds (germany_config p k) = [i] ∧ cc_Outbounds (consumer_config q) = [o] ∧ authenticates x25519 o i ∧ Address o = host.
Proof.
  intros Hk Hx Hl Hv Hh Ha Hp q. split.
  - unfold valid_reality in Hv. rewrite !andb_true_iff in Hv. destruct Hv as [[Hs Hi] Hu].
    unfold ValidateConsumerParams, q. cbn [consumerFromBlobB germany_blob Public Germany c_PublicKey c_SNI c_ShortID c_UUID DownHost DownPort
      ListenAddr ListenPort RealityPublicKey SNI ShortID UUID Pairing.Host Pairing.Port].
    unfold ValidUploadDomain. rewrite Hs, Hi, Hu, Hh. apply streqb_false in Ha. rewrite Ha.
    assert (streqb (b64_encode pub) [] = false) as -> by (apply streqb_false; intros E; by destruct pub as [|? [|? [|? ?]]]).
    cbn. lia.
  - eexists _, _. split; [reflexivity|]. split; [reflexivity|]. split; [|reflexivity]. unfold authenticates. cbn.
    split_and!; try reflexivity.
    + exists (r_UUID p), (lit "none"). split; by left.
    + by left.
    + by left.
    + exists priv, pub. split_and!; [done|done|]. unfold decodeKey32. by rewrite RawURLDecode_encode, Hl.
Qed.

(** C28: The exchange closes.  Iran's blob A, handed over as a file, is accepted by
    Germany, which answers with a blob B; Iran accepts that and is finalized; and
    the consumer Iran renders from it, on any local address, authenticates to
    the inbound Germany has installed.  Germany answers the same blob A with the
    same blob B as long as its installation and host stay.  The recorded state is
    digests of the blobs. *)
Theorem pairing_closes mI mG iI iG p kp w w2 wG force secret :
  Role mI = RoleIran → (State (Manifest.Pairing mI) = stateFinalized → force = true) →
  IsAbs (SecretFile iI) = true → secretBytes iI = Some secret →
  validSecret unicode_lower (TrimSpace secret) = true → ascii (TrimSpace secret) = true →
  ValidUploadDomain (in_UploadDomain iI) = true → answers mG iG p kp wG →
  ∃ blobA blobB b k,
    pairStep mI Generate force iI w = (Ret (Ok (blobA, mkPairing RoleGermany stateAGenerated [fingerprint blobA] false, None)), w)
  ∧ (∀ m i w', answers m i p kp w' → TrimSpace (in_DownHost i) = TrimSpace (in_DownHost iG) →
       pairStep m Apply_ force (handed blobA i) w'
       = (Ret (Ok (blobB, mkPairing RoleIran stateAApplied [fingerprint blobA; fingerprint blobB] false, None)), w'))
  ∧ pairStep mI Finalize force (handed blobB iI) w2
    = (Ret (Ok ([], mkPairing RoleGermany stateFinalized [fingerprint blobB] false, Some b)), w2)
  ∧ kp = Some k
  ∧ ∀ addr port, addr ≠ [] → 1 ≤ port ≤ 65535 →
      let q := consumerFromBlobB b addr port in
      RenderConsumerConfig MarshalIndent q = Some (MarshalIndent (consumer_json (consumer_config q)) ++ [x0a])
      ∧ ∃ i o, Inbounds (germany_config p k) = [i] ∧ cc_Outbounds (consumer_config q) = [o]
          ∧ authenticates x25519 o i ∧ Address o = TrimSpace (in_DownHost iG).
Proof.
  intros Hrole Hforce Habs Hsec Hvs Hascii Hdom Hans.
  destruct (generated_applied (TrimSpace secret) (in_UploadDomain iI) Hvs Hascii Hdom) as (blobA & a & HgenA & HlineA & HappA).
  destruct (germany_answers mG iG p kp wG force blobA a Hans HlineA HappA) as (k & priv & pub & Hkp & Hpriv & Hx & Hpl & Hv & _ & HlineB & HappB).
  exists blobA, (encodeBlob sha256 (marshalB (germany_blob pub p (TrimSpace (in_DownHost iG))))), (germany_blob pub p (TrimSpace (in_DownHost iG))), k.
  split; [|split; [|split; [|split; [done|]]]].
  - cbn [Pair.pairStep]. unfold generateStep, require. rewrite Hrole. change (streqb RoleIran RoleIran) with true.
    assert (negb (streqb (State (Manifest.Pairing mI)) stateFinalized && negb force) = true) as ->.
    { destruct (streqb _ stateFinalized) eqn:E; [|done]. apply streqb_true in E. by rewrite Hforce. }
    assert (negb (streqb (SecretFile iI) []) && negb (streqb (in_UploadDomain iI) []) && IsAbs (SecretFile iI) = true) as ->.
    { rewrite Habs. destruct (SecretFile iI); [done|]. destruct (in_UploadDomain iI); [done|reflexivity]. }
    rewrite Hsec. unfold raise. rewrite HgenA. reflexivity.
  - intros m i w' Hans' Hhost.
    destruct (germany_answers m i p kp w' force blobA a Hans' HlineA HappA) as (k' & priv' & pub' & Hkp' & Hpriv' & Hx' & _ & _ & Hstep & _).
    rewrite Hstep, Hhost. rewrite Hkp in Hkp'. injection Hkp' as <-. rewrite Hpriv in Hpriv'. injection Hpriv' as <-.
    rewrite Hx in Hx'. injection Hx' as <-. reflexivity.
  - cbn [Pair.pairStep handed BlobFile blobBytes]. change (negb (streqb (lit "/root/blob") []) && IsAbs (lit "/root/blob")) with true.
    rewrite Hrole. change (streqb RoleIran RoleGermany) with false. rewrite HlineB. unfold finalizeStep, require, raise. rewrite HappB. reflexivity.
  - intros addr port Ha Hp q. pose proof (ans_host _ _ _ _ _ Hans) as Hh.
    destruct (consumer_authenticates k priv pub p _ addr port Hpriv Hx Hpl Hv Hh Ha Hp) as [Hval Hrest]. split; [|exact Hrest].
    unfold RenderConsumerConfig. fold q in Hval. by rewrite Hval.
Qed.

(** ** The commands *)

#[local] Abbreviation wp := (StoreSafety.wp (H := H)).

(** What a command may record of the exchange, given the manifest it loaded. *)
Definition allowed (m : Manifest) (a : action) (force : bool) (s : PairingState) : Prop :=
  (∀ d, d ∈ Fingerprints s → ∃ blob, d = fingerprint blob) ∧
  match a with
  | Generate => Role m = RoleIran ∧ (State (Manifest.Pairing m) = stateFinalized → force = true) ∧ State s = stateAGenerated
  | Apply_ => Role m = RoleGermany ∧ State (Manifest.Pairing m) ∈ [[]; PairingStateNone; stateAApplied] ∧ State s = stateAApplied
  | Finalize => Role m ≠ RoleGermany ∧ State s = stateFinalized
  end.

Lemma wp_require b (Q : outcome unit → Store.world H → Prop) w :
  (b = true → Q (Ret (Ok ())) w) → (b = false → Q (Ret (Err plain_error)) w) → wp (require b) Q w.
Proof. intros H1 H2. destruct b; [by apply H1|by apply H2]. Qed.

Lemma wp_raise {E A} (r : res E A) (Q : outcome A → Store.world H → Prop) w :
  (∀ x, r = Ok x → Q (Ret (Ok x)) w) → Q (Ret (Err plain_error)) w → wp (raise r) Q w.
Proof. intros H1 H2. destruct r; [by apply H1|exact H2]. Qed.

Lemma wp_checkRecorded p (Q : outcome unit → Store.world H → Prop) w :
  (∀ r w', quiet w w' → Q r w') → wp (checkRecorded digest sha256 p) Q w.
Proof.
  intros HQ. unfold checkRecorded. apply wp_bind, wp_attempt, wp_Load. intros w' Hq. split_and!; [by apply HQ|..].
  - intros e _. cbn [next]. destruct (Is e ErrNotExist); [by apply wp_ret, HQ|by apply wp_throw, HQ].
  - intros m _ _. cbn [next]. apply wp_require; intros _; by apply HQ.
Qed.

Definition step_post m a force (w : Store.world H) (r : outcome (gostring * PairingState * option BlobB)) (w' : Store.world H) : Prop :=
  quiet w w' ∧ ∀ blob s b, r = Ret (Ok (blob, s, b)) → allowed m a force s.

Lemma step_fails m a force w e : step_post m a force w (Ret (Err e)) w.
Proof. by split. Qed.

Lemma wp_generateStep m force i w :
  wp (generateStep (H := H) unicode_lower sha256 marshalA m force i) (step_post m Generate force w) w.
Proof.
  unfold generateStep. apply wp_bind, wp_require; intros Hr; [|apply step_fails]. apply streqb_true in Hr.
  apply wp_bind, wp_require; intros Hf; [|apply step_fails]. apply wp_bind, wp_require; intros _; [|apply step_fails].
  destruct (secretBytes i) as [secret|]; [|apply wp_throw, step_fails].
  apply wp_bind, wp_raise; [|apply step_fails]. intros [blob s] Hg. apply wp_ret. split; [done|]. cbn [fst snd].
  intros ? ? ? [= _ <- _]. unfold GenerateA in Hg. destruct (NewBlobA _ _ _); [|done]. rewrite res_bind_l in Hg.
  destruct (EncodeA _ _ _ _) as [enc|]; [|done]. rewrite res_bind_l in Hg. injection Hg as <- <-. split; [|split_and!; [done| |done]].
  - intros d [->|[]%elem_of_nil]%elem_of_cons. by eexists.
  - intros E. rewrite E in Hf. by destruct force.
Qed.

Lemma wp_applyStep m force i encoded w :
  Role m = RoleGermany →
  wp (applyStep (H := H) digest unicode_lower sha256 marshalB decodeHead strictDecodeA Unmarshal x25519 m i encoded)
    (step_post m Apply_ force w) w.
Proof.
  intros Hr. unfold applyStep. apply wp_bind, wp_require; intros Hs; [|apply step_fails].
  apply wp_bind, wp_require; intros _; [|apply step_fails]. cbv zeta.
  destruct (if streqb _ [] then _ else _) as [host|]; [|apply wp_throw, step_fails].
  apply wp_bind. unfold ApplyAGermany. apply wp_bind, wp_raise; [|apply step_fails]. intros [a s] Ha.
  apply wp_bind, wp_raise; [|apply step_fails]. intros p _. apply wp_bind, wp_checkRecorded. intros r w' Hq.
  destruct r as [[[]|e]|]; cbn [next]; [|by split..]. apply wp_bind, wp_raise; [|by split]. intros [blob s'] _.
  apply wp_ret. cbn [next fst snd]. apply wp_ret. split; [done|]. intros ? ? ? [= _ <- _].
  unfold ApplyA in Ha. destruct (ParseBlobA _ _ _ _ _); [|done]. rewrite res_bind_l in Ha. injection Ha as <- <-.
  split; [|split_and!; [done| |done]].
  - cbn [Fingerprints]. intros d Hd. rewrite !elem_of_cons, elem_of_nil in Hd. destruct Hd as [-> | [-> | []]]; by eexists.
  - rewrite !orb_true_iff, !streqb_true in Hs. rewrite !elem_of_cons, elem_of_nil. tauto.
Qed.

Lemma wp_finalizeStep m force encoded w :
  Role m ≠ RoleGermany → wp (finalizeStep (H := H) sha256 decodeHead strictDecodeB encoded) (step_post m Finalize force w) w.
Proof.
  intros Hr. unfold finalizeStep. apply wp_bind, wp_raise; [|apply step_fails]. intros [b s] Hb. apply wp_ret. split; [done|].
  intros ? ? ? [= _ <- _]. unfold ApplyB in Hb. destruct (ParseBlobB _ _ _ _); [|done]. rewrite res_bind_l in Hb.
  injection Hb as <- <-. split; [|done]. intros d [->|[]%elem_of_nil]%elem_of_cons. by eexists.
Qed.

Lemma wp_pairStep m a force i w : wp (pairStep m a force i) (step_post m a force w) w.
Proof.
  unfold Pair.pairStep. destruct a; [apply wp_generateStep|..].
  all: apply wp_bind, wp_require; intros _; [|apply step_fails].
  all: destruct (blobBytes i) as [data|]; [|apply wp_throw, step_fails].
  all: cbv zeta; destruct (streqb (Role m) RoleGermany) eqn:E; try (apply wp_throw, step_fails).
  - apply streqb_true in E. by apply wp_applyStep.
  - apply streqb_false in E. by apply wp_finalizeStep.
Qed.

(** A commit keeps what it was given but for the bookkeeping of revisions. *)
Lemma committed_keeps t label m :
  let n := committed root t label m in
  Role n = Role m ∧ m_Components n = m_Components m ∧ Manifest.Pairing n = Manifest.Pairing m ∧ Services n = Services m
  ∧ Firewall n = Firewall m ∧ ConfigFingerprint n = ConfigFingerprint m ∧ Extra n = Extra m.
Proof. unfold committed, withRevision, stamp. repeat case_match; done. Qed.

Definition records_step (m : Manifest) (a : action) (force : bool) (n : Manifest) : Prop :=
  sound digest m ∧ sound digest n ∧ allowed m a force (Manifest.Pairing n)
  ∧ Role n = Role m ∧ m_Components n = m_Components m ∧ Services n = Services m ∧ Firewall n = Firewall m
  ∧ ConfigFingerprint n = ConfigFingerprint m ∧ Extra n = Extra m.

End exchange.

(** ** A concrete exchange *)

Module Demo.
Import Pairing.Demo.

(** A JSON tree as a tree of the library that counts it. *)
Fixpoint to_tree (t : json) : gen_tree (bool + option Z + gostring) :=
  match t with
  | JNull => GenNode 0 []
  | JBool b => GenLeaf (inl (inl b))
  | JNum n => GenLeaf (inl (inr n))
  | JStr s => GenLeaf (inr s)
  | JArr l => GenNode 1 (map to_tree l)
  | JObj l => GenNode 2 (map (λ x, GenNode 3 [GenLeaf (inr (fst x)); to_tree (snd x)]) l)
  end.

Fixpoint of_tree (t : gen_tree (bool + option Z + gostring)) : json :=
  match t with
  | GenLeaf (inl (inl b)) => JBool b
  | GenLeaf (inl (inr n)) => JNum n
  | GenLeaf (inr s) => JStr s
  | GenNode 1 l => JArr (map of_tree l)
  | GenNode 2 l => JObj (map (λ x, match x with GenNode _ [GenLeaf (inr k); v] => (k, of_tree v) | _ => ([], JNull) end) l)
  | GenNode _ _ => JNull
  end.

Lemma of_to_tree : ∀ t, of_tree (to_tree t) = t.
Proof.
  fix IH 1. intros [|b|n|s|l|l]; try reflexivity; cbn; f_equal; rewrite map_map.
  - induction l as [|x l IHl]; [done|]. cbn. by rewrite (IH x), IHl.
  - induction l as [|[k v] l IHl]; [done|]. cbn. by rewrite (IH v), IHl.
Qed.

Definition Marshal (t : json) : list byte := bits (encode (to_tree t)).
Definition Unmarshal (l : list byte) : option json :=
  match decode (unbits (take (length l - 1) l)) with Some t => Some (of_tree t) | None => None end.

Lemma Unmarshal_Marshal t : Unmarshal (Marshal t ++ [x0a]) = Some t.
Proof.
  unfold Unmarshal, Marshal. rewrite length_app. cbn [length]. rewrite Nat.add_sub, take_app_length, unbits_bits, decode_encode.
  by rewrite of_to_tree.
Qed.

Definition base (priv : list byte) : option (list byte) := Some (reverse priv).

Definition params : RealityParams := mkReality (lit "www.example.org") (lit "0123456789abcdef") (lit "01234567-89ab-4cde-8f01-23456789abcd").
Definition keypair : Keypair := mkKeypair (b64_encode (replicate 32 x41)) (b64_encode (replicate 32 x41)) [] [] [].
Definition hash (m : Manifest) : gostring := lit "h".
Definition installed_paths : Paths := noPaths <| StateRoot := lit "/etc/split-tunnel" |> <| Manifest.Config := lit "/etc/split-tunnel/xray-germany.json" |>.
Definition host_of (role : gostring) : Manifest :=
  noManifest <| Schema := SchemaVersion |> <| Role := role |> <| ManifestHash := lit "h" |> <| m_Paths := installed_paths |>.
Definition world_of (role : gostring) : Store.world unit :=
  Store.mkWorld {[Final StateFile := CManifest (host_of role)]} tt 1 [] [].
Definition iran_inputs : inputs :=
  mkInputs [] (lit "/root/secret") (Some secret) domain [] None [] None None [].
Definition germany_inputs : inputs :=
  mkInputs [] [] None [] [] None (lit "203.0.113.7") None
    (Some (true, Some (Marshal (germany_json (germany_config params keypair)) ++ [x0a]))) [].

Lemma germany_ready : answers hash digest Marshal (host_of RoleGermany) germany_inputs params (Some keypair) (world_of RoleGermany).
Proof.
  split; try reflexivity; try (by vm_compute).
  - by left.
  - eexists. split; [reflexivity|]. unfold RenderGermanyConfig.
    assert (ValidateRealityParams params = Ok ()) as -> by (vm_compute; reflexivity).
    assert (checkKeypair (Some keypair) = Ok keypair) as -> by (vm_compute; reflexivity). reflexivity.
  - by left.
Qed.

Lemma pairing_closes_witness :
  let step := pairStep hash (λ s, s) digest writeA writeB readHead readA readB Unmarshal base in
  let fp := fingerprint digest in
  ∃ blobA blobB b,
    step (host_of RoleIran) Generate false iran_inputs (world_of RoleIran)
    = (Ret (Ok (blobA, mkPairing RoleGermany stateAGenerated [fp blobA] false, None)), world_of RoleIran)
  ∧ step (host_of RoleGermany) Apply_ false (handed blobA germany_inputs) (world_of RoleGermany)
    = (Ret (Ok (blobB, mkPairing RoleIran stateAApplied [fp blobA; fp blobB] false, None)), world_of RoleGermany)
  ∧ step (host_of RoleIran) Finalize false (handed blobB iran_inputs) (world_of RoleIran)
    = (Ret (Ok ([], mkPairing RoleGermany stateFinalized [fp blobB] false, Some b)), world_of RoleIran).
Proof.
  intros step fp.
  destruct (pairing_closes hash (λ s, s) digest writeA writeB readHead readA readB Marshal Unmarshal base
              ltac:(done) ltac:(intros a _; unfold readHead, readA, writeA; by rewrite read_write; destruct a)
              ltac:(intros b _; unfold readHead, readB, writeB; by rewrite read_write; destruct b as [? ? [] []])
              ltac:(intros t _; apply Unmarshal_Marshal)
              ltac:(intros priv Hp; exists (reverse priv); split; [reflexivity|by rewrite length_reverse])
              (host_of RoleIran) (host_of RoleGermany) iran_inputs germany_inputs params (Some keypair)
              (world_of RoleIran) (world_of RoleIran) (world_of RoleGermany) false secret
              ltac:(reflexivity) ltac:(discriminate) ltac:(reflexivity) ltac:(reflexivity) ltac:(vm_compute; reflexivity)
              ltac:(vm_compute; reflexivity) ltac:(vm_compute; reflexivity) germany_ready)
    as (blobA & blobB & b & k & H1 & H2 & H3 & _).
  exists blobA, blobB, b. split; [exact H1|]. split; [|exact H3].
  exact (H2 (host_of RoleGermany) germany_inputs (world_of RoleGermany) germany_ready eq_refl).
Defined.
End Demo.
