(* ===== verification/Transaction.v ===== *)
(** * Transactions (src/internal/deploy/transaction.go, rollback.go, adapter.go, controller.go)

    How a deployment changes: the journal is written, the host adapter runs its
    phases, the manifest is committed, the journal is removed; a failure calls
    the adapter's recovery and keeps the journal; the operator's commands
    refuse to run beside a journal, except recovery.

    The adapter is an interface of the source: a record of operations that may
    do anything to the host, fail or die.  [ctxErr] is [ctx.Err()], an oracle
    event as well. *)
From S2P Require Export Store.
#[local] Open Scope Z_scope.

Inductive Phase :=
| PhaseNone | PhasePreflight | PhaseValidate | PhaseBackup | PhaseActivate | PhaseTransition | PhaseHealth
| PhaseCommit | PhaseRecover.

Record Result := mkResult { r_Manifest : Manifest; r_Plan : Plan; r_Phase : Phase; r_Changed : bool }.

Definition noPlan : Plan := mkPlan [] false.

Section transaction.
Context {H : Type} (digest : Manifest → gostring) (root : gostring).

Abbreviation M := (Store.M H).

(** ** The host adapter *)

Record Adapter := mkAdapter {
  Prepare : DesiredState → M unit;
  Validate : DesiredState → M unit;
  Backup : Manifest → M unit;
  Activate : DesiredState → M unit;
  Transition : DesiredState → M unit;
  Health : DesiredState → M unit;
  Restore : Manifest → M unit;
  CleanupFresh : DesiredState → M unit;
  RecoverJournal : ArtifactJournal → Manifest → M unit;
  a_Uninstall : Manifest → M unit;
  (* optional capabilities *)
  ConvergeStateDir : option (M unit);
  AuditLiveDrift : option (M bool);
  MarkPairingStale : option (H → bool)
}.

Definition ctxErr : M unit := syscall plain_error.

(** ** Transaction.Apply *)

Record Step := mkStep { s_Phase : Phase; Run : option (M unit) }.

Record Transaction := mkTransaction {
  Journal : ArtifactJournal;
  Previous : Manifest;
  Desired : DesiredState;
  Steps : list Step;
  Recover : option (Manifest → M unit);
  Converge : option (M unit);
  AuditLive : option (M bool);
  t_MarkPairingStale : option (H → bool)
}.

(** [fail]: the cause is rendered with %v, the recovery error with %w. *)
Definition failTx {A} (t : Transaction) (cause : goerr) : M A :=
  match Recover t with
  | None => throw [ErrTransaction]
  | Some recover =>
      r ← attempt (recover (Previous t));
      match r with
      | Err e => throw (ErrTransaction :: e)
      | Ok _ => throw [ErrTransaction; ErrRecovered]
      end
  end.

Fixpoint runSteps (t : Transaction) (steps : list Step) : M unit :=
  match steps with
  | [] => mret ()
  | s :: steps =>
      c ← attempt ctxErr;
      match c with
      | Err e => failTx t e
      | Ok _ =>
          match Run s with
          | None => failTx t [ErrTransaction]
          | Some run =>
              r ← attempt run;
              match r with Err e => failTx t e | Ok _ => runSteps t steps end
          end
      end
  end.

Definition planned (t : Transaction) : res plan_error Plan :=
  PlanDesired (if streqb (Generation (Previous t)) [] then None else Some (Previous t)) (Desired t).

(** The manifest a successful transaction commits. *)
Definition desiredManifest (d : DesiredState) (stale : bool) : Manifest :=
  mkManifest SchemaVersion (d_Role d) [] None None [] (d_Components d) (d_Paths d)
    (if stale then (d_Pairing d) <| PairingStale := true |> else d_Pairing d)
    (d_Services d) (d_Firewall d) (d_ConfigFingerprint d) [] [].

Definition optional {A} (m : option (M A)) (a : A) : M A := match m with Some m => m | None => mret a end.

(** A question about the adapter's own record; the answer without it is no. *)
Definition askHost (f : option (H → bool)) : M bool := λ w,
  (Ret (Ok match f with Some f => f (host w) | None => false end), w).

(** From the journal on. *)
Definition mutate (t : Transaction) (plan : Plan) : M Result :=
  let j := Journal t in
  let j := if streqb (j_Role j) [] then j <| j_Role := d_Role (Desired t) |> else j in
  j ← (if streqb (j_Generation j) [] then n ← now; mret (j <| j_Generation := lit "pending-" ++ Itoa n |>) else mret j);
  if negb (journal_ok root j) then throw [ErrTransaction]
  else
    _ ← wrapping (λ _, [ErrTransaction]) (WriteJournal root j);
    _ ← runSteps t (Steps t);
    stale ← askHost (t_MarkPairingStale t);
    let label := if streqb (Generation (Previous t)) [] then lit "install" else lit "upgrade" in
    r ← attempt (Commit digest root (desiredManifest (Desired t) stale) label);
    match r with
    | Err e => failTx t e
    | Ok committed =>
        _ ← wrapping (λ _, [ErrTransaction]) ClearJournal;
        mret (mkResult committed plan PhaseCommit true)
    end.

Definition Apply (t : Transaction) : M Result :=
  _ ← wrapping (λ e, ErrTransaction :: e) (optional (Converge t) ());
  match planned t with
  | Err _ => throw [ErrInvalidManifest]
  | Ok plan =>
      if Unchanged plan then
        drifted ← wrapping (λ e, ErrTransaction :: e) (optional (AuditLive t) false);
        if drifted : bool then mutate t plan else mret (mkResult (Previous t) plan PhaseNone false)
      else mutate t plan
  end.

(** ** ApplyDesired *)

Definition recovery (a : Adapter) (d : DesiredState) (old : Manifest) : M unit :=
  if streqb (Generation old) [] then CleanupFresh a d else Restore a old.

Definition phases (a : Adapter) (previous : Manifest) (d : DesiredState) : list Step :=
  [mkStep PhasePreflight (Some (Prepare a d)); mkStep PhaseValidate (Some (Validate a d));
   mkStep PhaseBackup (Some (Backup a previous)); mkStep PhaseActivate (Some (Activate a d));
   mkStep PhaseTransition (Some (Transition a d)); mkStep PhaseHealth (Some (Health a d))].

(** [journal]: BuildJournal's answer. *)
Definition ApplyDesired (a : Adapter) (journal : M ArtifactJournal) (previous : Manifest) (d : DesiredState) : M Result :=
  j ← journal;
  Apply (mkTransaction j previous d (phases a previous d) (Some (recovery a d))
           (ConvergeStateDir a) (AuditLiveDrift a) (MarkPairingStale a)).

(** ** Store.Rollback *)

Definition Rollback (revisionID : gostring) (restore : Manifest → M unit) : M Manifest :=
  _ ← ctxErr;
  current ← wrapping (λ _, [ErrTransaction]) (Load digest);
  target ← wrapping (λ _, [ErrTransaction]) (ReadRevision revisionID);
  if negb (streqb (Role target) (Role current)) then throw [ErrTransaction]
  else if streqb (Generation target) (Generation current) && streqb (ManifestHash target) (ManifestHash current)
  then throw [ErrTransaction]
  else
    _ ← wrapping (λ e, ErrTransaction :: e) (restore target);
    _ ← wrapping (λ _, [ErrTransaction]) ctxErr;
    wrapping (λ _, [ErrTransaction])
      (Commit digest root (target <| Revisions := Revisions current |>) (lit "rollback")).

(** ** The controller *)

(** The journal that is in the way, if any. *)
Definition StaleJournal : M (option ArtifactJournal) :=
  r ← attempt (ReadJournal root);
  match r with
  | Ok j => mret (Some j)
  | Err e => if Is e ErrNotExist then mret None else throw e
  end.

(** Load, with nothing installed for a manifest that is not there. *)
Definition loadPrevious (f : goerr → goerr) : M Manifest :=
  r ← attempt (Load digest);
  match r with
  | Ok m => mret m
  | Err e => if Is e ErrNotExist then mret noManifest else throw (f e)
  end.

(** [desired]: the request's desired state, if it validates; [journal]: what
    BuildJournal answers for a previous and a desired state. *)
Definition ApplyRequest (a : Adapter) (journal : Manifest → DesiredState → M ArtifactJournal)
    (desired : res goerr DesiredState) : M Result :=
  s ← StaleJournal;
  match s with
  | Some _ => throw [ErrTransaction]
  | None =>
      d ← lift desired;
      previous ← loadPrevious (λ _, [ErrTransaction]);
      let installed := negb (streqb (Generation previous) []) in
      if installed && negb (streqb (Role previous) (d_Role d)) then throw plain_error
      else
        let d := if installed then d <| d_Pairing := Pairing previous |> else d in
        ApplyDesired a (journal previous d) previous d
  end.

Definition RollbackCommand (a : Adapter) (revisionID : gostring) : M Manifest :=
  s ← StaleJournal;
  match s with Some _ => throw [ErrTransaction] | None => Rollback revisionID (Restore a) end.

(** removeStoreOwnedDir on revisions/: the checks, then every entry. *)
Fixpoint removeAll (l : list path) : M unit :=
  match l with
  | [] => mret ()
  | p :: l => _ ← remove p; removeAll l
  end.

Definition in_revisions (p : path) : bool :=
  match p with Final (RevFile _) | Temp _ (RevFile _) => true | _ => false end.

Definition purgeRevisions : M unit :=
  _ ← syscall plain_error;
  m ← getFs;
  removeAll (List.filter in_revisions (map fst (map_to_list m))).

Definition UninstallCommand (a : Adapter) (purge : bool) : M unit :=
  previous ← loadPrevious (λ e, e);
  if streqb (Generation previous) [] then throw plain_error
  else
    _ ← a_Uninstall a previous;
    r ← attempt (remove (Final StateFile));
    _ ← (match r with
         | Ok _ => mret ()
         | Err e => if Is e ErrNotExist then mret () else throw plain_error
         end : M unit);
    if negb purge then mret ()
    else _ ← ClearJournal; wrapping (λ _, plain_error) purgeRevisions.

Definition RecoverCommand (a : Adapter) : M Result :=
  _ ← ctxErr;
  r ← attempt (ReadJournal root);
  match r with
  | Err e =>
      if Is e ErrNotExist then mret (mkResult noManifest noPlan PhaseRecover false)
      else if Is e ErrTampered then throw (ErrTransaction :: e)
      else throw [ErrTransaction]
  | Ok j =>
      previous ← loadPrevious (λ _, [ErrTransaction]);
      if negb (streqb (Generation previous) []) && negb (streqb (Role previous) (j_Role j)) then throw [ErrTransaction]
      else
        _ ← wrapping (λ e, ErrTransaction :: e) (RecoverJournal a j previous);
        _ ← wrapping (λ _, [ErrTransaction]) ClearJournal;
        mret (mkResult previous noPlan PhaseRecover true)
  end.
End transaction.
