(* ===== verification/TxSafety.v ===== *)
(** * Transactions leave a trace of every unfinished change

    Theorems about Transaction.v, proved for every adapter that keeps the
    contract of adapter.go ([AdapterLaws]) and for every failure and crash. *)
From S2P Require Export StoreSafety Transaction.
#[local] Open Scope Z_scope.

(** ** The adapter's contract *)

(** What of a deployment shows on the host: not its pairing record, and not
    where its own state is kept. *)
Definition footprint (d : DesiredState) : DesiredState :=
  d <| d_Pairing := mkPairing [] [] [] false |> <| d_Paths := (d_Paths d) <| StateRoot := [] |> |>.
Definition recorded (m : Manifest) : DesiredState :=
  mkDesired (Role m) (m_Components m) (m_Paths m) (Pairing m) (Services m) (Firewall m) (ConfigFingerprint m).

Section laws.
Context {H : Type}.

(** The store's files are not the adapter's to write, and it does not claim a
    recovery the transaction has to make. *)
Definition keeps {A} (m : M H A) : Prop :=
  ∀ w, fs (snd (m w)) = fs w ∧ ∀ e, fst (m w) = Ret (Err e) → ErrRecovered ∉ e.

(** [m] establishes [Q] from [P]. *)
Definition leads (P : H → Prop) (m : M H unit) (Q : H → Prop) : Prop :=
  ∀ w w', P (host w) → m w = (Ret (Ok ()), w') → Q (host w').

(** However [m] ends, [P] stays. *)
Definition holds {A} (m : M H A) (P : H → Prop) : Prop := ∀ w, P (host w) → P (host (snd (m w))).

Class AdapterLaws (a : @Adapter H) := {
  runs : DesiredState → H → Prop;
  clean : H → Prop;
  stage : nat → DesiredState → H → Prop;
  adapter_keeps d m j : Forall keeps
    [Prepare a d; Validate a d; Backup a m; Activate a d; Transition a d; Health a d; Restore a m;
     CleanupFresh a d; RecoverJournal a j m; a_Uninstall a m];
  Prepare_ok d : leads (λ _, True) (Prepare a d) (stage 1 d);
  Validate_ok d : leads (stage 1 d) (Validate a d) (stage 2 d);
  Backup_ok d m : leads (stage 2 d) (Backup a m) (stage 3 d);
  Activate_ok d : leads (stage 3 d) (Activate a d) (stage 4 d);
  Transition_ok d : leads (stage 4 d) (Transition a d) (stage 5 d);
  Health_ok d : leads (stage 5 d) (Health a d) (runs (footprint d));
  Restore_ok m : leads (λ _, True) (Restore a m) (runs (footprint (recorded m)));
  CleanupFresh_ok d : leads (λ _, True) (CleanupFresh a d) clean;
  RecoverJournal_ok j m : leads (λ _, True) (RecoverJournal a j m)
    (if streqb (Generation m) [] then clean else runs (footprint (recorded m)));
  Uninstall_ok m : leads (λ _, True) (a_Uninstall a m) clean;
  Converge_ok m : ConvergeStateDir a = Some m → keeps m ∧ (∀ d, holds m (runs d)) ∧ holds m clean;
  Audit_ok m : AuditLiveDrift a = Some m → keeps m ∧ ∀ w, host (snd (m w)) = host w
}.

Lemma wp_keeps {A} (m : M H A) Q w :
  keeps m →
  (∀ r w', m w = (r, w') → fs w' = fs w → (∀ e, r = Ret (Err e) → ErrRecovered ∉ e) → Q r w') → wp m Q w.
Proof.
  intros Hk HQ. unfold wp. destruct (Hk w) as [Hf He]. destruct (m w) as [r w'] eqn:E. cbn [fst snd] in *. by apply HQ.
Qed.
End laws.

Section tx.
Context {H : Type} (digest : Manifest → gostring) (root : gostring) (a : @Adapter H) {L : AdapterLaws a}.
Implicit Types w : world H.

(** ** The invariant *)

(** The host is as [m] says; a manifest without a generation is none. *)
Definition back (m : Manifest) (h : H) : Prop :=
  if streqb (Generation m) [] then clean h else runs (footprint (recorded m)) h.

(** The host is as state.json says. *)
Definition settled w : Prop :=
  match fs w !! Final StateFile with
  | None => clean (host w)
  | Some (CManifest m) => sound digest m → back m (host w)
  | Some _ => True
  end.

Definition inflight w : Prop := is_Some (fs w !! Final JournalFile).
Definition covered w : Prop := inflight w ∨ settled w.

(** Nothing of the deployment changed. *)
Definition calm w w' : Prop :=
  (∀ f, fs w' !! Final f = fs w !! Final f)
  ∧ (∀ d, runs d (host w) → runs d (host w')) ∧ (clean (host w) → clean (host w')).

Lemma calm_refl w : calm w w.
Proof. by split_and!; auto. Qed.

Lemma calm_trans w1 w2 w3 : calm w1 w2 → calm w2 w3 → calm w1 w3.
Proof. intros (A1 & A2 & A3) (B1 & B2 & B3). split_and!; [intros f; by rewrite B1|auto..]. Qed.

Lemma quiet_calm w w' : quiet w w' → calm w w'.
Proof. intros [E1 E2]. unfold calm. rewrite E1, E2. by split_and!; auto. Qed.

Lemma calm_settled w w' : calm w w' → settled w → settled w'.
Proof.
  intros (A1 & A2 & A3). unfold settled. rewrite A1. destruct (fs w !! Final StateFile) as [[m| | | |]|]; auto.
  unfold back. intros Hb Hs. specialize (Hb Hs). destruct (streqb (Generation m) []); auto.
Qed.

Lemma calm_covered w w' : calm w w' → covered w → covered w'.
Proof. intros Hc [Hi|Hs]; [left|right; by eapply calm_settled]. unfold inflight. by rewrite (proj1 Hc). Qed.

(** ** Failing *)

Definition recovers (t : @Transaction H) : Prop :=
  ∃ m, Recover t = Some m ∧ keeps (m (Previous t)) ∧ leads (λ _, True) (m (Previous t)) (back (Previous t)).

(** An error whose journal is kept; if it says so, the host is back. *)
Definition stopped {A} (m : Manifest) w (r : outcome A) w' : Prop :=
  fs w' = fs w ∧ (∀ x, r ≠ Ret (Ok x)) ∧ ∀ e, r = Ret (Err e) → ErrRecovered ∈ e → back m (host w').

Lemma wp_failTx {A} t cause w : recovers t → wp (failTx (A := A) t cause) (stopped (Previous t) w) w.
Proof.
  intros (m & Hm & Hk & Hl). unfold failTx. rewrite Hm. apply wp_bind, wp_attempt, wp_keeps; [done|].
  intros r w' E Hf He. destruct r as [[[]|e]|]; cbn [next].
  - apply wp_throw. split_and!; [done..|]. intros ? _ _. by eapply Hl.
  - apply wp_throw. split_and!; [done..|]. intros ? [= <-] Hin. by apply elem_of_cons in Hin as [?|Hin]; [|destruct (He e eq_refl)].
  - by split_and!.
Qed.

(** ** The phases *)

Inductive chain : (H → Prop) → list (@Step H) → (H → Prop) → Prop :=
| chain_nil (P : H → Prop) : chain P [] P
| chain_cons (P P' Q : H → Prop) s m l :
    Run s = Some m → keeps m → leads P m P' → chain P' l Q → chain P (s :: l) Q.

(** The steps ran to the end, or the transaction stopped. *)
Definition ran (Q : H → Prop) (m : Manifest) w (r : outcome unit) w' : Prop :=
  fs w' = fs w ∧ match r with Ret (Ok _) => Q (host w') | _ => stopped m w r w' end.

Lemma ran_from Q m w w1 r w' : fs w1 = fs w → ran Q m w1 r w' → ran Q m w r w'.
Proof. intros E [F G]. unfold ran, stopped in *. by rewrite <- E. Qed.

Lemma stopped_ran Q m w r w' : stopped m w r w' → ran Q m w r w'.
Proof. intros (E & N & R). split; [done|]. destruct r as [[[]|e]|]; [by destruct (N ())|done..]. Qed.

Lemma wp_runSteps t l P Q w :
  recovers t → chain P l Q → P (host w) → wp (runSteps t l) (ran Q (Previous t) w) w.
Proof.
  intros Hr Hc. revert w. induction Hc as [P|P P' Q s m l Hs Hk Hl Hc IH]; intros w HP; cbn [runSteps].
  { by apply wp_ret. }
  assert (∀ w0 cause, fs w0 = fs w → wp (failTx t cause) (ran Q (Previous t) w) w0) as Hfail.
  { intros w0 cause E. eapply wp_mono; [by apply wp_failTx|]. intros r w' G. by eapply ran_from, stopped_ran. }
  assert (∀ w0, fs w0 = fs w → ran Q (Previous t) w Dead w0) as Hdead by by intros w0 E; apply stopped_ran.
  apply wp_bind, wp_attempt, wp_syscall. intros w1 [Q1 Q2]. cbn [next]. split; [|split; auto].
  rewrite Hs. apply wp_bind, wp_attempt, wp_keeps; [done|]. intros r w2 E Hf He. rewrite Q1 in Hf.
  destruct r as [[[]|e]|]; cbn [next]; auto.
  eapply wp_mono; [apply IH; eapply Hl; [|exact E]; by rewrite Q2|]. intros r w'. by apply ran_from.
Qed.

Lemma phases_chain previous d : chain (λ _, True) (phases a previous d) (runs (footprint d)).
Proof.
  pose proof (adapter_keeps d previous (mkJournal [] [] false [] [] [] [] false [] [])) as K.
  repeat (apply Forall_cons in K as [? K]). unfold phases.
  eapply chain_cons; [done..|apply Prepare_ok|]. eapply chain_cons; [done..|apply Validate_ok|].
  eapply chain_cons; [done..|apply (Backup_ok d)|]. eapply chain_cons; [done..|apply Activate_ok|].
  eapply chain_cons; [done..|apply Transition_ok|]. eapply chain_cons; [done..|apply Health_ok|]. constructor.
Qed.

(** ** The manifest a transaction commits *)

Lemma stamp_recorded t m :
  recorded (stamp root t m) = (recorded m) <| d_Paths := m_Paths (stamp root t m) |>
  ∧ (m_Paths (stamp root t m)) <| StateRoot := [] |> = (m_Paths m) <| StateRoot := [] |>.
Proof. unfold stamp. split; repeat case_match; done. Qed.

Lemma footprint_paths d p :
  p <| StateRoot := [] |> = (d_Paths d) <| StateRoot := [] |> → footprint (d <| d_Paths := p |>) = footprint d.
Proof. intros E. unfold setter in E. cbn in E. unfold footprint, setter. cbn. by rewrite E. Qed.

Lemma committed_recorded t label m :
  footprint (recorded (hashed digest (committed root t label m))) = footprint (recorded m).
Proof.
  change (footprint (recorded (stamp root t m)) = footprint (recorded m)).
  destruct (stamp_recorded t m) as [-> E]. by apply footprint_paths.
Qed.

Lemma committed_records t label d stale :
  let n := committed root t label (desiredManifest d stale) in
  records n d ∧ records n (d <| d_Pairing := Pairing n |>)
  ∧ Pairing n = if stale then (d_Pairing d) <| PairingStale := true |> else d_Pairing d.
Proof.
  cbv zeta. destruct (stamp_recorded t (desiredManifest d stale)) as [E1 E2].
  set (n := committed root t label (desiredManifest d stale)).
  assert (recorded n = (recorded (desiredManifest d stale)) <| d_Paths := m_Paths n |>) as E by exact E1.
  assert ((m_Paths n) <| StateRoot := [] |> = (d_Paths d) <| StateRoot := [] |>) as P by exact E2.
  clearbody n. clear E1 E2. unfold recorded, setter in E. cbn in E. injection E as E1 E2 E3 E4 E5 E6.
  unfold setter in P. cbn in P. unfold records, setter. cbn. rewrite E1, E2, E3, E4, E5, E6, P. by destruct stale.
Qed.

(** The hash is only the last touch. *)
Lemma records_hashed m d : records (hashed digest m) d ↔ records m d.
Proof. done. Qed.

Lemma ids_hashed m : ids (hashed digest m) = ids m.
Proof. done. Qed.

Lemma Generation_hashed m : Generation (hashed digest m) = Generation m.
Proof. done. Qed.

Lemma Pairing_hashed m : Pairing (hashed digest m) = Pairing m.
Proof. done. Qed.

(** A request records no earlier revision. *)
Lemma ids_desired t label d stale :
  ids (committed root t label (desiredManifest d stale)) = [revisionID root t (desiredManifest d stale)].
Proof.
  unfold committed. rewrite ids_withRevision. unfold ids.
  assert (Revisions (stamp root t (desiredManifest d stale)) = []) as -> by (unfold stamp; by repeat case_match). done.
Qed.

(** ** The journal's file *)

Lemma wp_ClearJournal w :
  wp ClearJournal (λ r w', host w' = host w ∧ (∀ p, p ≠ Final JournalFile → fs w' !! p = fs w !! p)
    ∧ match r with
      | Ret (Ok _) => fs w' !! Final JournalFile = None
      | _ => fs w' !! Final JournalFile = fs w !! Final JournalFile
      end) w.
Proof.
  unfold ClearJournal. apply wp_bind, wp_attempt, wp_remove. intros w1 [Q1 Q2].
  assert (host w1 = host w ∧ (∀ p, p ≠ Final JournalFile → fs w1 !! p = fs w !! p)) as [Hh Hp] by (split; [done|intros; by rewrite Q1]).
  assert (fs w1 !! Final JournalFile = fs w !! Final JournalFile) as Hj by by rewrite Q1.
  split; [done|]. split; [done|]. destruct (fs w !! Final JournalFile) as [c|] eqn:E; [|done].
  cbn [next]. apply wp_ret. split; [done|]. split; [|by rewrite fs_set, lookup_delete_eq].
  intros p ?. rewrite fs_set, lookup_delete_ne by done. auto.
Qed.

Lemma wp_ReadJournal (Q : outcome ArtifactJournal → world H → Prop) w :
  (∀ w', quiet w w' →
     Q Dead w' ∧ (∀ e, (Is e ErrNotExist = true → fs w !! Final JournalFile = None) → Q (Ret (Err e)) w')
     ∧ (∀ j, fs w !! Final JournalFile = Some (CJournal j) → journal_ok root j = true → Q (Ret (Ok j)) w')) →
  wp (ReadJournal root) Q w.
Proof.
  intros HQ. unfold ReadJournal. apply wp_bind, wp_readFile. intros w' Hq. destruct (HQ w' Hq) as (H1 & H2 & H3).
  cbn [next]. split_and!; [done|by apply H2|]. destruct (fs w !! Final JournalFile) as [c|] eqn:E; [|by apply H2].
  destruct c as [m|j|m| |]; try by (apply wp_throw, H2; intros ?%bool_decide_eq_true; set_solver).
  destruct (journal_ok root j) eqn:Ej; [by apply wp_ret, H3|apply wp_throw, H2; intros ?%bool_decide_eq_true; set_solver].
Qed.

Lemma wp_StaleJournal (Q : outcome (option ArtifactJournal) → world H → Prop) w :
  (∀ w', quiet w w' →
     Q Dead w' ∧ (∀ e, Q (Ret (Err e)) w')
     ∧ (fs w !! Final JournalFile = None → Q (Ret (Ok None)) w')
     ∧ (∀ j, fs w !! Final JournalFile = Some (CJournal j) → Q (Ret (Ok (Some j))) w')) →
  wp (StaleJournal root) Q w.
Proof.
  intros HQ. unfold StaleJournal. apply wp_bind, wp_attempt, wp_ReadJournal. intros w' Hq.
  destruct (HQ w' Hq) as (H1 & H2 & H3 & H4). split_and!; [done| |].
  - intros e He. cbn [next]. destruct (Is e ErrNotExist) eqn:E; [by apply wp_ret, H3, He|by apply wp_throw, H2].
  - intros j Hj _. by apply wp_ret, H4.
Qed.

(** The manifest a command starts from: the one on disk, or none if there is
    none. *)
Definition loads w (m : Manifest) : Prop :=
  match fs w !! Final StateFile with
  | Some (CManifest m') => m = m' ∧ sound digest m
  | None => m = noManifest
  | _ => False
  end.

Lemma wp_loadPrevious g (Q : outcome Manifest → world H → Prop) w :
  (∀ w', quiet w w' → Q Dead w' ∧ (∀ e, Q (Ret (Err e)) w') ∧ (∀ m, loads w m → Q (Ret (Ok m)) w')) →
  wp (loadPrevious digest g) Q w.
Proof.
  intros HQ. unfold loadPrevious. apply wp_bind, wp_attempt, wp_Load. intros w' Hq.
  destruct (HQ w' Hq) as (H1 & H2 & H3). split_and!; [done| |].
  - intros e He. cbn [next]. destruct (Is e ErrNotExist) eqn:E; [|by apply wp_throw].
    apply wp_ret, H3. unfold loads. by rewrite He.
  - intros m Hm Hs. apply wp_ret, H3. unfold loads. by rewrite Hm.
Qed.

Lemma loads_settled w m : loads w m → settled w ↔ back m (host w).
Proof.
  unfold settled, loads. destruct (fs w !! Final StateFile) as [[m'| | | |]|]; try done.
  - intros [-> Hs]. split; auto.
  - by intros ->.
Qed.

Lemma loads_inj w m m' : loads w m → loads w m' → m = m'.
Proof.
  unfold loads. destruct (fs w !! Final StateFile) as [[]|]; [by intros [-> _] [-> _]|done..|by intros -> ->].
Qed.

(** ** Transactions *)

Definition sane (t : @Transaction H) : Prop :=
  recovers t ∧ chain (λ _, True) (Steps t) (runs (footprint (Desired t))).

(** The desired state is recorded and running, and nothing is in flight. *)
Definition installed (d : DesiredState) (res : Result) w' : Prop :=
  r_Changed res = true ∧ ¬ inflight w' ∧ runs (footprint d) (host w')
  ∧ ∃ tm label stale, let n := committed root tm label (desiredManifest d stale) in
      r_Manifest res = n ∧ fs w' !! Final StateFile = Some (CManifest (hashed digest n)) ∧ sound digest (hashed digest n)
      ∧ ∀ id, is_Some (fs w' !! Final (RevFile id)) → id ∈ ids n.

(** How a transaction that has written its journal may end; if it claims to
    have recovered, the host is as it was. *)
Definition finished (d : DesiredState) (m : Manifest) (r : outcome Result) w' : Prop :=
  match r with
  | Ret (Ok res) => installed d res w'
  | Ret (Err e) => inflight w' ∧ (ErrRecovered ∈ e → back m (host w'))
  | Dead => inflight w'
  end.

(** ... and one that may have ended before. *)
Definition mutated (d : DesiredState) (m : Manifest) w (r : outcome Result) w' : Prop :=
  finished d m r w' ∨ (calm w w' ∧ ∀ x, r ≠ Ret (Ok x)).

Lemma stopped_finished d m w w1 (r : outcome Result) w' : inflight w1 → stopped m w1 r w' → finished d m r w'.
Proof.
  intros Hi (E & N & R). assert (inflight w') by (unfold inflight; by rewrite E).
  destruct r as [[x|e]|]; [by destruct (N x)|split; [done|by apply R]|done].
Qed.

Lemma mutated_calm d m w w1 r w' : calm w w1 → mutated d m w1 r w' → mutated d m w r w'.
Proof. intros Hc [Hm|[Hm N]]; [by left|right]. split; [by eapply calm_trans|done]. Qed.

(** The commit at the end of a transaction whose phases have all succeeded. *)
Lemma wp_finish t plan stale w :
  sane t → inflight w → runs (footprint (Desired t)) (host w) →
  wp (r ← attempt (Commit digest root (desiredManifest (Desired t) stale)
                     (if streqb (Generation (Previous t)) [] then lit "install" else lit "upgrade"));
      match r with
      | Err e => failTx t e
      | Ok committed => _ ← wrapping (λ _, [ErrTransaction]) ClearJournal; mret (mkResult committed plan PhaseCommit true)
      end) (finished (Desired t) (Previous t)) w.
Proof.
  intros [Hrec _] Hi Hr. set (label := if streqb _ _ then _ else _).
  apply wp_bind, wp_attempt. eapply wp_mono; [apply (wp_Commit digest root _ label)|].
  intros r w1 [Ch Cj Cs]. assert (inflight w1) as Hi1 by (unfold inflight; by rewrite Cj).
  destruct r as [[n|e]|]; cbn [next].
  2: { eapply wp_mono; [by apply wp_failTx|]. intros r w'. by apply stopped_finished. }
  2: { done. }
  destruct Cs as [(_ & N & _)|(tm & Hv & Hs & _ & Hx)]; [by destruct (N n)|]. destruct (Hx n eq_refl) as [-> Hids].
  apply wp_bind, wp_wrapping. eapply wp_mono; [apply wp_ClearJournal|]. intros r w2 (D1 & D2 & D3).
  destruct r as [[[]|e]|]; cbn [next]; [|split; [unfold inflight; by rewrite D3|set_solver]|cbn; unfold inflight; by rewrite D3].
  apply wp_ret. split; [done|]. split; [unfold inflight; rewrite D3; by intros []|]. split; [by rewrite D1, Ch|].
  exists tm, label, stale. split; [done|]. split; [by rewrite D2|]. split; [by apply hashed_sound|].
  intros id. rewrite D2 by done. apply Hids.
Qed.

(** The transaction once its journal is written. *)
Lemma wp_phases t plan w :
  sane t → inflight w →
  wp (_ ← runSteps t (Steps t);
      stale ← askHost (t_MarkPairingStale t);
      let label := if streqb (Generation (Previous t)) [] then lit "install" else lit "upgrade" in
      r ← attempt (Commit digest root (desiredManifest (Desired t) stale) label);
      match r with
      | Err e => failTx t e
      | Ok committed => _ ← wrapping (λ _, [ErrTransaction]) ClearJournal; mret (mkResult committed plan PhaseCommit true)
      end) (finished (Desired t) (Previous t)) w.
Proof.
  intros Hs Hi. apply wp_bind. eapply wp_mono; [by eapply wp_runSteps; [apply Hs|apply Hs|]|]. intros r w1 [F1 G1].
  assert (inflight w1) by (unfold inflight; by rewrite F1).
  destruct r as [[[]|e]|]; cbn [next]; [|split; [done|by apply G1]|done].
  apply wp_bind. unfold askHost. unfold wp at 1. cbn [fst snd next]. by apply wp_finish.
Qed.

Lemma wp_mutate t plan w : sane t → wp (mutate digest root t plan) (mutated (Desired t) (Previous t) w) w.
Proof.
  intros Hs. unfold mutate. set (j0 := if streqb (j_Role _) [] then _ else _). apply wp_bind.
  assert (∀ j w1, quiet w w1 → wp (if negb (journal_ok root j) then throw [ErrTransaction]
    else _ ← wrapping (λ _, [ErrTransaction]) (WriteJournal root j);
         _ ← runSteps t (Steps t);
         stale ← askHost (t_MarkPairingStale t);
         let label := if streqb (Generation (Previous t)) [] then lit "install" else lit "upgrade" in
         r ← attempt (Commit digest root (desiredManifest (Desired t) stale) label);
         match r with
         | Err e => failTx t e
         | Ok committed => _ ← wrapping (λ _, [ErrTransaction]) ClearJournal; mret (mkResult committed plan PhaseCommit true)
         end) (mutated (Desired t) (Previous t) w) w1) as Hj.
  { intros j w1 Q1. pose proof (quiet_calm _ _ Q1) as C1.
    destruct (journal_ok root j) eqn:Hok; cbn [negb]; [|apply wp_throw; by right].
    apply wp_bind, wp_wrapping. unfold WriteJournal. rewrite Hok. cbn [negb]. unfold ensureRoot.
    assert (∀ w2 r, quiet w1 w2 → (∀ x, r ≠ Ret (Ok x)) → mutated (Desired t) (Previous t) w r w2) as Hq.
    { intros w2 r Q2 N. right. split; [by eapply calm_trans, quiet_calm|done]. }
    apply wp_bind, wp_bind, wp_syscall. intros w2 Q2. cbn [next]. split_and!; [|by apply Hq..].
    apply wp_syscall. intros w3 Q3. pose proof (quiet_trans _ _ _ Q2 Q3) as Q23. cbn [next]. split_and!; [|by apply Hq..].
    eapply wp_mono; [apply wp_atomicWrite|]. intros r w4 [[T1 T2] R4].
    pose proof (calm_trans _ _ _ C1 (quiet_calm _ _ Q23)) as C3.
    assert (fs w4 !! Final JournalFile = fs w3 !! Final JournalFile → calm w w4) as Hsame.
    { intros E. eapply calm_trans; [exact C3|]. unfold calm. rewrite T1. split_and!; auto.
      intros f. destruct (decide (f = JournalFile)) as [->|Hne]; [done|]. by rewrite T2 by congruence. }
    destruct r as [[[]|e]|]; cbn [next].
    2: { right. split; [by apply Hsame|done]. }
    2: { destruct R4 as [R4|R4]; [right; split; [by apply Hsame|done]|left; cbn; unfold inflight; by rewrite R4]. }
    eapply wp_mono; [apply wp_phases; [done|unfold inflight; by rewrite R4]|]. intros r w'. by left. }
  destruct (streqb (j_Generation j0) []).
  - apply wp_bind, wp_now. intros tm w1 Q1. cbn [next]. apply wp_ret. cbn [next]. by apply Hj.
  - apply wp_ret. cbn [next]. by apply Hj.
Qed.

(** The audit can find a managed object out of place. *)
Definition drifts : Prop := ∃ m w w', AuditLiveDrift a = Some m ∧ m w = (Ret (Ok true), w').

(** How a request for [d] on a host with [m] installed may end. *)
Definition applied (d : DesiredState) (m : Manifest) w (r : outcome Result) w' : Prop :=
  (calm w w' ∧ ∀ x, r ≠ Ret (Ok x))
  ∨ ∃ plan, PlanDesired (if streqb (Generation m) [] then None else Some m) d = Ok plan
      ∧ ((Unchanged plan = true ∧ calm w w' ∧ r = Ret (Ok (mkResult m plan PhaseNone false)))
         ∨ ((Unchanged plan = false ∨ drifts) ∧ finished d m r w')).

Lemma wp_calm {A} (m : M H A) Q w :
  keeps m → (∀ d, holds m (runs d)) → holds m clean →
  (∀ r w', m w = (r, w') → calm w w' → Q r w') → wp m Q w.
Proof.
  intros Hk Hr Hc HQ. apply wp_keeps; [done|]. intros r w' E Hf _. apply HQ; [done|].
  specialize (Hc w). assert (∀ d, runs d (host w) → runs d (host w')) as Hr' by (intros d; specialize (Hr d w); by rewrite E in Hr).
  rewrite E in Hc. split_and!; [by rewrite Hf|done..].
Qed.

Lemma wp_Apply t w :
  sane t → Converge t = ConvergeStateDir a → AuditLive t = AuditLiveDrift a →
  wp (Apply digest root t) (applied (Desired t) (Previous t) w) w.
Proof.
  intros Hs HC HA. unfold Apply. rewrite HC, HA.
  assert (∀ w0 plan, calm w w0 → planned t = Ok plan → Unchanged plan = false ∨ drifts →
            wp (mutate digest root t plan) (applied (Desired t) (Previous t) w) w0) as Hmut.
  { intros w0 plan C0 Hp Hd. eapply wp_mono; [by apply wp_mutate|]. intros r w' Hm.
    destruct (mutated_calm _ _ _ _ _ _ C0 Hm) as [Hf|Hf]; [right; eauto|by left]. }
  assert (∀ w0, calm w w0 → wp (match planned t with
    | Err _ => throw [ErrInvalidManifest]
    | Ok plan =>
      if Unchanged plan then
        drifted ← wrapping (λ e, ErrTransaction :: e) (optional (AuditLiveDrift a) false);
        if drifted : bool then mutate digest root t plan else mret (mkResult (Previous t) plan PhaseNone false)
      else mutate digest root t plan
    end) (applied (Desired t) (Previous t) w) w0) as Hplan.
  { intros w0 C0. destruct (planned t) as [plan|e] eqn:Hp; [|apply wp_throw; by left].
    destruct (Unchanged plan) eqn:Hu; [|by apply Hmut; auto].
    assert (∀ w1, calm w w1 → applied (Desired t) (Previous t) w (Ret (Ok (mkResult (Previous t) plan PhaseNone false))) w1) as Hno.
    { intros w1 C1. right. exists plan. split; [exact Hp|]. by left. }
    apply wp_bind, wp_wrapping. unfold optional. destruct (AuditLiveDrift a) as [m|] eqn:Ha; [|by apply wp_ret, wp_ret, Hno].
    destruct (Audit_ok m Ha) as [Hk Hh]. apply wp_keeps; [done|]. intros r w1 E Hf _.
    assert (calm w w1) as C1.
    { eapply calm_trans; [exact C0|]. apply quiet_calm. split; [done|]. specialize (Hh w0). by rewrite E in Hh. }
    destruct r as [[[]|e]|]; cbn [next]; [|by apply wp_ret, Hno|by left..].
    apply Hmut; [done..|]. right. by exists m, w0, w1. }
  apply wp_bind, wp_wrapping. unfold optional. destruct (ConvergeStateDir a) as [m|] eqn:Hc; [|by apply wp_ret, Hplan, calm_refl].
  destruct (Converge_ok m Hc) as (Hk & Hr & Hcl). apply wp_calm; [done..|]. intros r w1 E C1.
  destruct r as [[[]|e]|]; cbn [next]; [by apply Hplan|by left..].
Qed.

(** ** The controller *)

(** What a request asks for on a host with [m] installed: its pairing is kept. *)
Definition asked (m : Manifest) (d : DesiredState) : DesiredState :=
  if negb (streqb (Generation m) []) then d <| d_Pairing := Pairing m |> else d.

Section controller.
Context (journal : Manifest → DesiredState → M H ArtifactJournal) (journal_quiet : ∀ m d w, quiet w (snd (journal m d w))).

Lemma wp_ApplyRequest desired w :
  wp (ApplyRequest digest root a journal desired) (λ r w',
    (calm w w' ∧ ∀ x, r ≠ Ret (Ok x))
    ∨ ∃ m d, fs w !! Final JournalFile = None ∧ desired = Ok d ∧ loads w m
        ∧ applied (asked m d) m w r w') w.
Proof.
  unfold ApplyRequest. apply wp_bind, wp_StaleJournal. intros w1 Q1. pose proof (quiet_calm _ _ Q1) as C1.
  cbn [next]. split; [by left|]. split; [by left|]. split; [|by left].
  intros Hj. apply wp_bind, wp_lift. destruct desired as [d|e]; cbn [next]; [|by left].
  apply wp_bind, wp_loadPrevious. intros w2 Q2. pose proof (calm_trans _ _ _ C1 (quiet_calm _ _ Q2)) as C2.
  cbn [next]. split; [by left|]. split; [by left|]. intros m Hm.
  assert (loads w m) as Hm' by (unfold loads in *; by rewrite (proj1 Q1) in Hm).
  destruct (negb (streqb (Generation m) []) && negb (streqb (Role m) (d_Role d))) eqn:Eg; [apply wp_throw; by left|].
  fold (asked m d). unfold ApplyDesired. apply wp_bind. unfold wp at 1.
  pose proof (journal_quiet m (asked m d) w2) as Q3.
  destruct (journal m (asked m d) w2) as [r w3]. cbn [fst snd] in *. pose proof (calm_trans _ _ _ C2 (quiet_calm _ _ Q3)) as C3.
  destruct r as [[j|e]|]; cbn [next]; [|by left..].
  eapply wp_mono; [apply wp_Apply; [|done..]|].
  - split; [|apply phases_chain]. exists (recovery a (asked m d)). split; [done|]. cbn [Previous]. unfold recovery, back.
    pose proof (adapter_keeps (asked m d) m (mkJournal [] [] false [] [] [] [] false [] [])) as K.
    repeat (apply Forall_cons in K as [? K]).
    destruct (streqb (Generation m) []); [split; [done|apply CleanupFresh_ok]|split; [done|apply Restore_ok]].
  - cbn [Desired Previous]. intros r w' Ha. right. exists m, d. split_and!; [done..|].
    destruct Ha as [[Hc N]|(plan & Hp & Ha)]; [left; split; [by eapply calm_trans|done]|right].
    exists plan. split; [done|]. destruct Ha as [(Hu & Hc & Hr)|[Hu Hf]]; [left|by right].
    split_and!; [done|by eapply calm_trans|done].
Qed.
End controller.

(** ** Recovery *)

Lemma wp_RecoverCommand w :
  wp (RecoverCommand digest root a) (λ r w',
    (quiet w w' ∧ ∀ x, r = Ret (Ok x) → r_Changed x = false ∧ fs w !! Final JournalFile = None)
    ∨ (inflight w ∧ inflight w' ∧ ∀ x, r ≠ Ret (Ok x))
    ∨ (∃ m, loads w m ∧ r = Ret (Ok (mkResult m noPlan PhaseRecover true)) ∧ inflight w ∧ ¬ inflight w'
         ∧ fs w' !! Final StateFile = fs w !! Final StateFile ∧ back m (host w'))) w.
Proof.
  unfold RecoverCommand. apply wp_bind, wp_syscall. intros w1 Q1. cbn [next]. split; [|split; by left].
  apply wp_bind, wp_attempt, wp_ReadJournal. intros w2 Q2. pose proof (quiet_trans _ _ _ Q1 Q2) as Q12. cbn [next].
  split; [by left|]. split.
  { intros e He. destruct (Is e ErrNotExist) eqn:E1; [|destruct (Is e ErrTampered); apply wp_throw; by left].
    apply wp_ret. left. split; [done|]. intros x [= <-]. split; [done|]. rewrite <- (proj1 Q1). auto. }
  intros j Hj _. assert (inflight w) as Hi by (unfold inflight; rewrite <- (proj1 Q1), Hj; by eexists).
  apply wp_bind, wp_loadPrevious. intros w3 Q3. pose proof (quiet_trans _ _ _ Q12 Q3) as Q13. cbn [next].
  split; [by left|]. split; [by left|]. intros m Hm.
  assert (loads w m) as Hm' by (unfold loads in *; by rewrite (proj1 Q12) in Hm).
  destruct (negb (streqb (Generation m) []) && _); [apply wp_throw; by left|].
  apply wp_bind, wp_wrapping.
  pose proof (adapter_keeps (mkDesired [] (mkComponents noComponent noComponent noOrigin) noPaths (mkPairing [] [] [] false) [] (mkFirewall [] [] []) []) m j) as K.
  repeat (apply Forall_cons in K as [? K]). apply wp_keeps; [done|]. intros r w4 E F4 _.
  assert (∀ w5, fs w5 !! Final JournalFile = fs w4 !! Final JournalFile → inflight w5) as Hi5.
  { intros w5 E5. unfold inflight. by rewrite E5, F4, (proj1 Q13). }
  destruct r as [[[]|e]|]; cbn [next]; [|right; left; auto..].
  apply wp_bind, wp_wrapping. eapply wp_mono; [apply wp_ClearJournal|]. intros r w5 (D1 & D2 & D3).
  destruct r as [[[]|e]|]; cbn [next]; [|right; left; auto..].
  apply wp_ret. right; right. exists m. split_and!; [done..|unfold inflight; rewrite D3; by intros []|by rewrite D2, F4, (proj1 Q13)|].
  rewrite D1. pose proof (RecoverJournal_ok j m _ _ I E) as Hb. unfold back. by destruct (streqb (Generation m) []).
Qed.

(** ** Rollback and uninstall *)

Lemma wp_ReadRevision id (Q : outcome Manifest → world H → Prop) w :
  (∀ w', quiet w w' →
     Q Dead w' ∧ (∀ e, Q (Ret (Err e)) w')
     ∧ (∀ m, fs w !! Final (RevFile id) = Some (CManifest m) ∨ fs w !! Final (RevFile id) = Some (MoreFields m) →
         validateManifest m = Ok () → Q (Ret (Ok m)) w')) →
  wp (ReadRevision id) Q w.
Proof.
  intros HQ. unfold ReadRevision. destruct (validToken id); cbn [negb].
  2: { apply wp_throw. by apply (HQ w (quiet_refl w)). }
  apply wp_bind, wp_readFile. intros w' Hq. destruct (HQ w' Hq) as (H1 & H2 & H3). cbn [next].
  split; [done|]. split; [done|]. destruct (fs w !! Final (RevFile id)) as [c|] eqn:E; [|done].
  destruct c as [m|j|m| |]; try by apply wp_throw.
  - apply wp_bind, wp_lift. destruct (validateManifest m) as [[]|] eqn:Hv; cbn [next]; [apply wp_ret, H3; auto|done].
  - apply wp_bind, wp_lift. destruct (validateManifest m) as [[]|] eqn:Hv; cbn [next]; [apply wp_ret, H3; auto|done].
Qed.

(** How a rollback to the retained revision [id] may end. *)
Definition rolledBack (id : gostring) w (r : outcome Manifest) w' : Prop :=
  fs w' !! Final JournalFile = fs w !! Final JournalFile
  ∧ ((fs w' !! Final StateFile = fs w !! Final StateFile ∧ ∀ x, r ≠ Ret (Ok x))
     ∨ ∃ old target n,
         fs w !! Final JournalFile = None ∧ fs w !! Final StateFile = Some (CManifest old)
         ∧ (fs w !! Final (RevFile id) = Some (CManifest target) ∨ fs w !! Final (RevFile id) = Some (MoreFields target))
         ∧ Role target = Role old
         ∧ fs w' !! Final StateFile = Some (CManifest n) ∧ sound digest n
         ∧ footprint (recorded n) = footprint (recorded target) ∧ runs (footprint (recorded n)) (host w')
         ∧ (on_disk (ids old) w → on_disk (ids n) w')).

Lemma wp_RollbackCommand id w : wp (RollbackCommand digest root a id) (rolledBack id w) w.
Proof.
  assert (∀ r w', quiet w w' → (∀ x, r ≠ Ret (Ok x)) → rolledBack id w r w') as Hq.
  { intros r w' [E1 E2] N. unfold rolledBack. rewrite E1. split; [done|by left]. }
  unfold RollbackCommand. apply wp_bind, wp_StaleJournal. intros w1 Q1. cbn [next].
  split; [by apply Hq|]. split; [intros e; by apply Hq|]. split; [|intros j _; apply wp_throw; by apply Hq]. intros Hj.
  unfold Rollback. apply wp_bind, wp_syscall. intros w2 Q2. pose proof (quiet_trans _ _ _ Q1 Q2) as Q12. cbn [next].
  split; [|split; by apply Hq].
  apply wp_bind, wp_wrapping, wp_Load. intros w3 Q3. pose proof (quiet_trans _ _ _ Q12 Q3) as Q13. cbn [next].
  split; [by apply Hq|]. split; [intros e _; by apply Hq|]. intros old Hold _. rewrite (proj1 Q12) in Hold.
  apply wp_bind, wp_wrapping, wp_ReadRevision. intros w4 Q4. pose proof (quiet_trans _ _ _ Q13 Q4) as Q14. cbn [next].
  split; [by apply Hq|]. split; [intros e; by apply Hq|]. intros target Ht _. rewrite (proj1 Q13) in Ht.
  destruct (streqb (Role target) (Role old)) eqn:Hr; cbn [negb]; [apply streqb_true in Hr|apply wp_throw; by apply Hq].
  destruct (_ && _); [apply wp_throw; by apply Hq|].
  apply wp_bind, wp_wrapping.
  pose proof (adapter_keeps (recorded target) target (mkJournal [] [] false [] [] [] [] false [] [])) as K.
  repeat (apply Forall_cons in K as [? K]). apply wp_keeps; [done|]. intros r w5 E F5 _. rewrite (proj1 Q14) in F5.
  assert (∀ (r' : outcome Manifest) w6, fs w6 = fs w → (∀ x, r' ≠ Ret (Ok x)) → rolledBack id w r' w6) as Hf.
  { intros r' w6 E6 N. unfold rolledBack. rewrite E6. split; [done|by left]. }
  destruct r as [[[]|e]|]; cbn [next]; [|by apply Hf..].
  apply wp_bind, wp_wrapping, wp_syscall. intros w6 [E6 Hh6]. cbn [next]. rewrite F5 in E6. split; [|split; by apply Hf].
  apply wp_wrapping. eapply wp_mono; [apply (wp_Commit digest root)|]. intros r w7 [Ch Cj Cs].
  assert (∀ r' : outcome Manifest, (∀ x, r' = Ret (Ok x) → r = Ret (Ok x)) → rolledBack id w r' w7) as Hend.
  { intros r' Hr'. split; [by rewrite Cj, E6|].
    destruct Cs as [(S1 & N & _)|(t & Hv & S1 & S2 & _)]; [left; split; [by rewrite S1, E6|]|right].
    - intros x Hx. by apply (N x), Hr'.
    - exists old, target, (hashed digest (committed root t (lit "rollback") (target <| Revisions := Revisions old |>))).
      assert (footprint (recorded (hashed digest (committed root t (lit "rollback") (target <| Revisions := Revisions old |>))))
              = footprint (recorded target)) as Hfp by by rewrite committed_recorded.
      split_and!; [done..|by apply hashed_sound|done| |].
      + rewrite Hfp, Ch, Hh6. by eapply (Restore_ok target).
      + intros Ho. apply S2. intros x Hx. rewrite E6. by apply Ho. }
  destruct r as [[x|e]|]; apply Hend; intros ? [=]; by subst.
Qed.

Lemma wp_removeAll l w :
  wp (removeAll l) (λ _ w', host w' = host w ∧ ∀ p, p ∉ l → fs w' !! p = fs w !! p) w.
Proof.
  revert w. induction l as [|p l IH]; intros w; cbn [removeAll]; [by apply wp_ret|].
  apply wp_bind, wp_remove. intros w1 [Q1 Q2].
  assert (host w1 = host w ∧ ∀ q, q ∉ p :: l → fs w1 !! q = fs w !! q) as Hq by (split; [done|intros; by rewrite Q1]).
  cbn [next]. split; [done|]. split; [done|]. destruct (fs w !! p); [|done].
  eapply wp_mono; [apply IH|]. intros r w2 [E1 E2]. split; [by rewrite E1|]. intros q Hn.
  apply not_elem_of_cons in Hn as [Hne Hn]. rewrite E2, fs_set, lookup_delete_ne, Q1 by done. done.
Qed.

(** How an uninstall may end. *)
Definition uninstalled (purge : bool) w (r : outcome unit) w' : Prop :=
  fs w' !! Final StateFile = fs w !! Final StateFile ∧ (∀ x, r ≠ Ret (Ok x))
    ∧ fs w' !! Final JournalFile = fs w !! Final JournalFile
  ∨ fs w' !! Final StateFile = None ∧ clean (host w')
    ∧ (purge = false → ∀ p, p ≠ Final StateFile → fs w' !! p = fs w !! p).

Lemma wp_UninstallCommand purge w :
  wp (UninstallCommand digest a purge) (uninstalled purge w) w.
Proof.
  assert (∀ r w', fs w' = fs w → (∀ x, r ≠ Ret (Ok x)) → uninstalled purge w r w') as Hq.
  { intros r w' E N. left. by rewrite E. }
  unfold UninstallCommand. apply wp_bind, wp_loadPrevious. intros w1 [Q1 Q1']. cbn [next].
  split; [by apply Hq|]. split; [intros e; by apply Hq|]. intros m Hm.
  destruct (streqb (Generation m) []) eqn:Eg; [apply wp_throw; by apply Hq|].
  apply wp_bind.
  pose proof (adapter_keeps (recorded m) m (mkJournal [] [] false [] [] [] [] false [] [])) as K.
  repeat (apply Forall_cons in K as [? K]). apply wp_keeps; [done|]. intros r w2 E F2 _. rewrite Q1 in F2.
  destruct r as [[[]|e]|]; cbn [next]; [|by apply Hq..].
  pose proof (Uninstall_ok m _ _ I E) as Hcl.
  apply wp_bind, wp_attempt, wp_remove. intros w3 [Q3 Q3']. cbn [next]. rewrite F2 in Q3.
  split; [by apply Hq|]. split; [by apply wp_bind, wp_throw, Hq|].
  assert (∀ w4, clean (host w4) → fs w4 !! Final StateFile = None →
    (∀ p, p ≠ Final StateFile → fs w4 !! p = fs w !! p) →
    wp (if negb purge then mret () else _ ← ClearJournal; wrapping (λ _, plain_error) purgeRevisions) (uninstalled purge w) w4) as Hend.
  { intros w4 Hc Hs Hp. destruct purge; cbn [negb]; [|apply wp_ret; by right].
    apply wp_bind. eapply wp_mono; [apply wp_ClearJournal|]. intros r w5 (D1 & D2 & _).
    assert (∀ r, uninstalled true w r w5) as G5 by (intros r'; right; rewrite D1, D2; done).
    destruct r as [[[]|e]|]; cbn [next]; auto. apply wp_wrapping. unfold purgeRevisions.
    apply wp_bind, wp_syscall. intros w6 [Q6 Q6']. cbn [next].
    assert (∀ r, uninstalled true w r w6) as G6 by (intros r'; right; rewrite Q6, Q6', D1, D2; done).
    split; [|by split]. apply wp_bind, wp_getFs. cbn [next]. eapply wp_mono; [apply wp_removeAll|].
    intros r w7 [R1 R2]. assert (∀ r, uninstalled true w r w7) as G7.
    { intros r'. right. rewrite R1, Q6', D1, R2; [rewrite Q6, D2 by done; done|].
      intros Hin%list_elem_of_In%filter_In. by destruct Hin. }
    by destruct r as [[]|]. }
  rewrite F2. destruct (fs w !! Final StateFile) as [c|] eqn:Es; cbn [next].
  - apply wp_bind, wp_ret. cbn [next]. apply Hend; [change (clean (host w3)); by rewrite Q3'|by rewrite fs_set, lookup_delete_eq|].
    intros p Hp. by rewrite fs_set, lookup_delete_ne, Q3.
  - cbn. apply wp_bind, wp_ret. cbn [next]. apply Hend; [by rewrite Q3'|by rewrite Q3|]. intros p _. by rewrite Q3.
Qed.
End tx.
