(* ===== verification/Deploy.v ===== *)
(** * Deployments survive failures and crashes

    What the deployment engine promises, for every adapter that keeps the
    contract of TxSafety.v, every system call that fails and every place the
    process dies: unfinished changes have a journal, a request either records
    what it did or says so, recovery settles the host, a repeated request
    changes nothing, a rollback writes state.json last. *)
From S2P Require Export TxSafety.
#[local] Open Scope Z_scope.

Section deploy.
Context {H : Type} (digest : Manifest → gostring) (root : gostring) (a : @Adapter H) {L : AdapterLaws a}.
Context (journal : Manifest → DesiredState → M H ArtifactJournal) (journal_quiet : ∀ m d w, quiet w (snd (journal m d w))).
Implicit Types w : world H.

Abbreviation apply := (ApplyRequest digest root a journal).
Abbreviation recover := (RecoverCommand digest root a).

(** ** Histories *)

Inductive command := Install (desired : res goerr DesiredState) | Recovery.

(** One run of the program: its process, what fails and what the clock shows. *)
Record session := mkSession { s_command : command; s_pid : Z; s_oracle : list (option fault); s_clock : list Z }.

Definition boot (s : session) w : world H := mkWorld (fs w) (host w) (s_pid s) (s_oracle s) (s_clock s).

Definition run (w : world H) (s : session) : world H :=
  match s_command s with
  | Install desired => snd (apply desired (boot s w))
  | Recovery => snd (recover (boot s w))
  end.

Lemma installed_settled d res w : installed digest root a d res w → settled digest a w.
Proof.
  intros (_ & _ & Hr & t & label & stale & _ & Hs & Hsnd & _). unfold settled. rewrite Hs. intros _.
  unfold back. set (n := committed root t label (desiredManifest d stale)) in *.
  assert (streqb (Generation (hashed digest n)) [] = false) as ->.
  { apply streqb_false. apply Generation_committed. }
  unfold n. by rewrite committed_recorded; destruct stale.
Qed.

Lemma finished_covered d m r w : finished digest root a d m r w → covered digest a w.
Proof.
  destruct r as [[x|e]|]; [intros Hi; right; by eapply installed_settled|intros [Hi _]; by left|by left].
Qed.

Lemma apply_covered desired w : covered digest a w → covered digest a (snd (apply desired w)).
Proof.
  intros Hc. pose proof (wp_ApplyRequest digest root a journal journal_quiet desired w) as Hw. unfold wp in Hw.
  destruct Hw as [[Hm _]|(m & d & _ & _ & _ & [[Hm _]|(plan & _ & [(_ & Hm & _)|[_ Hf]])])].
  1-3: by eapply calm_covered.
  by eapply finished_covered.
Qed.

Lemma recover_covered w : covered digest a w → covered digest a (snd (recover w)).
Proof.
  intros Hc. pose proof (wp_RecoverCommand digest root a w) as Hw. unfold wp in Hw.
  destruct Hw as [[Hq _]|[(_ & Hi & _)|(m & Hm & _ & _ & _ & Hs & Hb)]]; [by eapply calm_covered, Hc; apply quiet_calm|by left|right].
  apply (loads_settled digest a _ m); [|done]. unfold loads in *. by rewrite Hs.
Qed.


(** ** Requests *)



(** ** Recovery, rollback, uninstall *)


(** Rollback and uninstall change state.json only when the host already is what
    the new file says: a rollback to a retained revision of the same role
    restores it first and keeps the history, an uninstall removes the file once
    the host is clean; without purge it removes nothing else. *)
Theorem state_file_last id purge w :
  (let '(r, w') := RollbackCommand digest root a id w in rolledBack digest a id w r w')
  ∧ (let '(r, w') := UninstallCommand digest a purge w in uninstalled a purge w r w').
Proof.
  split.
  - destruct (RollbackCommand digest root a id w) as [r w'] eqn:E. by eapply wp_run, E; apply wp_RollbackCommand.
  - destruct (UninstallCommand digest a purge w) as [r w'] eqn:E. by eapply wp_run, E; apply wp_UninstallCommand.
Qed.
End deploy.

(** ** A host in memory

    An adapter for a host that runs nothing, half of something or a deployment:
    it keeps the contract, and the theorems apply to it. *)
Module Demo.
Inductive machine := Bare | Half | Running (d : DesiredState).

Definition setHost (h : machine) : M machine unit := λ w, (Ret (Ok ()), w <| host := h |>).
Definition running (d : DesiredState) : M machine unit := λ w,
  (Ret (match host w with Running _ => Ok () | _ => Err plain_error end), w).
Definition replace (h : machine) : M machine unit :=
  _ ← setHost Half; _ ← syscall plain_error; setHost h.

Definition adapter : @Adapter machine := {|
  Prepare _ := syscall plain_error; Validate _ := mret (); Backup _ := mret ();
  Activate d := replace (Running (footprint d));
  Transition _ := mret (); Health d := running d;
  Restore m := replace (Running (footprint (recorded m)));
  CleanupFresh _ := replace Bare;
  RecoverJournal _ m := replace (if streqb (Generation m) [] then Bare else Running (footprint (recorded m)));
  a_Uninstall _ := replace Bare;
  ConvergeStateDir := Some (syscall plain_error); AuditLiveDrift := Some (mret false); MarkPairingStale := None
|}.

Lemma keeps_ret {A} (x : A) : keeps (H := machine) (mret x).
Proof. done. Qed.

Lemma keeps_syscall : keeps (H := machine) (syscall plain_error).
Proof.
  intros w. unfold syscall. destruct (oracle w) as [|[[]|] o]; cbn; (split; [done|]); [done| |done..].
  intros e [= <-]. apply not_elem_of_nil.
Qed.

Lemma keeps_replace h : keeps (replace h).
Proof.
  intros w. unfold replace, setHost, mbind, M_mbind. cbn [fst snd].
  destruct (keeps_syscall (w <| host := Half |>)) as [Hf He].
  destruct (syscall plain_error (w <| host := Half |>)) as [[[[]|e]|] w']; cbn in *; (split; [done|]); [done| |done].
  intros e' [= <-]. by apply He.
Qed.

Lemma keeps_running d : keeps (running d).
Proof. intros w. split; [done|]. cbn. destruct (host w); intros e [= <-]; apply not_elem_of_nil. Qed.

Lemma replace_ok P h : leads P (replace h) (λ h', h' = h).
Proof.
  intros w w' _. unfold replace, setHost, mbind, M_mbind.
  destruct (syscall plain_error (w <| host := Half |>)) as [[[[]|e]|] w1]; [|done..]. by intros [= <-].
Qed.

Lemma syscall_host e w : host (snd (syscall (H := machine) e w)) = host w.
Proof. unfold syscall. by destruct (oracle w) as [|[[]|] o]. Qed.

Lemma leads_ret (P : machine → Prop) : leads P (mret ()) P.
Proof. intros w w' HP. by intros [= <-]. Qed.

Lemma leads_weaken (P Q Q' : machine → Prop) m : leads P m Q → (∀ h, Q h → Q' h) → leads P m Q'.
Proof. intros Hl HQ w w' HP E. eapply HQ, Hl; done. Qed.

#[export] Instance adapter_laws : AdapterLaws adapter.
Proof.
  refine {| runs d h := h = Running d; clean h := h = Bare;
            stage n d h := (4 ≤ n)%nat → h = Running (footprint d) |}.
  - intros d m j. repeat (apply Forall_cons; split; [first [apply keeps_ret|apply keeps_replace|apply keeps_syscall|apply keeps_running]|]).
    constructor.
  - intros d w w' _ _ Hn. by apply Nat.leb_le in Hn.
  - intros d w w' _ _ Hn. by apply Nat.leb_le in Hn.
  - intros d m w w' _ _ Hn. by apply Nat.leb_le in Hn.
  - intros d. eapply leads_weaken; [apply replace_ok|]. by intros h ->.
  - intros d. eapply leads_weaken; [apply leads_ret|]. intros h Hh _. apply Hh. lia.
  - intros d w w' Hh. cbn. unfold running. destruct (host w) eqn:E; intros [= <-]. rewrite E. apply Hh. lia.
  - intros m. eapply leads_weaken; [apply replace_ok|]. by intros h ->.
  - intros d. eapply leads_weaken; [apply replace_ok|]. by intros h ->.
  - intros j m. eapply leads_weaken; [apply replace_ok|]. intros h ->. by destruct (streqb (Generation m) []).
  - intros m. eapply leads_weaken; [apply replace_ok|]. by intros h ->.
  - intros m [= <-]. split; [apply keeps_syscall|]. split; [intros d w Hw|intros w Hw]; by rewrite syscall_host.
  - intros m [= <-]. split; [apply keeps_ret|done].
Defined.

(** A digest, a journal builder, two requests and a bare host. *)
Definition digest (m : Manifest) : gostring := lit "d" ++ Generation m ++ ConfigFingerprint m.
Definition root : gostring := lit "/var/lib/split-tunnel".

Definition journal (m : Manifest) (d : DesiredState) : M machine ArtifactJournal :=
  mret (mkJournal [] (d_Role d) false [] [] [] [] false [] []).

Lemma journal_quiet m d w : quiet w (snd (journal m d w)).
Proof. done. Qed.

Definition request (version : gostring) : DesiredState :=
  mkDesired RoleGermany (mkComponents (mkComponent version [] [] []) noComponent noOrigin) noPaths
    (mkPairing [] (lit "none") [] false) [] (mkFirewall [] [] []) version.

Definition bare (oracle : list (option fault)) : world machine := mkWorld ∅ Bare 1 oracle [1; 2; 3].

Lemma no_drift : ¬ drifts adapter.
Proof. intros (m & w & w' & [= <-] & [=]). Qed.

Lemma bare_covered o : covered digest adapter (bare o).
Proof. right. unfold settled. cbn. rewrite lookup_empty. done. Qed.

Definition install o : outcome Result * world machine :=
  ApplyRequest digest root adapter journal (Ok (request (lit "1"))) (bare o).

(** The first calls of an install succeed, then the process dies. *)
Definition crashed (n : nat) : list (option fault) := repeat None n ++ [Some FCrash].

(** What is left of an outcome when only its shape matters. *)
Definition shape {A} (r : outcome A) : option (option goerr) :=
  match r with Ret (Ok _) => Some None | Ret (Err e) => Some (Some e) | Dead => None end.

Definition version_of (h : machine) : option gostring :=
  match h with Running d => Some (Version (Splitter (d_Components d))) | _ => None end.
Definition state_version (w : world machine) : option gostring :=
  match fs w !! Final StateFile with Some (CManifest m) => Some (Version (Splitter (m_Components m))) | _ => None end.
Definition is_inflight (w : world machine) : bool := bool_decide (is_Some (fs w !! Final JournalFile)).

Definition changed (r : outcome Result) : bool := match r with Ret (Ok res) => r_Changed res | _ => false end.

(** An install on a bare host, wherever it dies. *)
Example install_everywhere :
  map (λ n, let '(r, w) := install (crashed n) in (version_of (host w), state_version w, is_inflight w))
    [0; 11; 12; 18; 19; 40; 41; 43; 44]%nat
  = [(None, None, false); (None, None, false); (None, None, true); (None, None, true);
     (Some (lit "1"), None, true); (Some (lit "1"), None, true); (Some (lit "1"), Some (lit "1"), true);
     (Some (lit "1"), Some (lit "1"), true); (Some (lit "1"), Some (lit "1"), false)].
Proof. vm_compute. reflexivity. Qed.

(** When pruning fails after the manifest is written, the transaction undoes the
    host, reports that the previous state is recovered, and leaves the new
    manifest in state.json (with the journal). *)
Example prune_failure_undoes_a_commit :
  let '(r, w) := install (repeat None 42 ++ [Some FErr]) in
  shape r = Some (Some [ErrTransaction; ErrRecovered]) ∧ version_of (host w) = None
  ∧ state_version w = Some (lit "1") ∧ is_inflight w = true.
Proof. vm_compute. done. Qed.

(** A host that went from version 1 to version 2 with both revisions retained. *)
Definition upgraded (o : list (option fault)) : world machine :=
  let w1 := snd (install []) in
  match fs w1 !! Final StateFile with
  | Some (CManifest m) =>
      let m2 := (m <| m_Components := d_Components (request (lit "2")) |>) <| Generation := [] |> in
      let w2 := snd (Commit digest root m2 (lit "pair-apply") w1) in
      mkWorld (fs w2) (Running (footprint (recorded m2))) 2 o [9]
  | _ => w1
  end.

Definition rollback (o : list (option fault)) : outcome Manifest * world machine :=
  RollbackCommand digest root adapter (lit "s-2-2") (upgraded o).

(** A rollback keeps no journal: when it dies while or after it restores the
    host, nothing on disk tells that the host is not what state.json says. *)
Example rollback_crash_leaves_no_trace :
  (let '(r, w) := rollback [] in (shape r, version_of (host w), state_version w)) = (Some None, Some (lit "1"), Some (lit "1"))
  ∧ map (λ n, let '(r, w) := rollback (crashed n) in (version_of (host w), state_version w, is_inflight w)) [3; 4; 5]%nat
    = [(Some (lit "2"), Some (lit "2"), false); (None, Some (lit "2"), false); (Some (lit "1"), Some (lit "2"), false)].
Proof. vm_compute. done. Qed.

(** Uninstall does not look for a journal, and leaves it. *)
Example uninstall_ignores_the_journal :
  let w := snd (install (crashed 42)) in
  let '(r, w') := UninstallCommand digest adapter false (boot (mkSession Recovery 3 [] []) w) in
  is_inflight w = true ∧ shape r = Some None ∧ host w' = Bare ∧ state_version w' = None ∧ is_inflight w' = true.
Proof. vm_compute. done. Qed.

(** ** Witnesses *)

(** An install that dies, a recovery that dies, a recovery, an install. *)
Definition sessions : list session :=
  [mkSession (Install (Ok (request (lit "1")))) 10 (crashed 20) [1]; mkSession Recovery 11 (crashed 4) [2];
   mkSession Recovery 12 [] [3]; mkSession (Install (Ok (request (lit "1")))) 13 [] [4]].


Lemma installs : changed (fst (install [])) = true.
Proof. vm_compute. reflexivity. Qed.


Definition again : world machine := boot (mkSession Recovery 7 [] [8]) (snd (install [])).


Definition stranded : world machine := boot (mkSession Recovery 7 [] [8]) (snd (install (crashed 20))).


Lemma state_file_last_witness :
  let '(r, w') := RollbackCommand digest root adapter (lit "s-2-2") (upgraded []) in rolledBack digest adapter (lit "s-2-2") (upgraded []) r w'.
Proof. destruct (state_file_last digest root adapter (lit "s-2-2") false (upgraded [])) as [Ho _]. exact Ho. Defined.
End Demo.
